(* ===== verification/_CoqProject ===== *)
-Q . S2P
Prelude.v
RustStr.v
F64.v
Json.v
Protocol.v
Model.v
ModelFacts.v
ToolHistory.v
ToolHistoryFacts.v
EventStream.v
EventStreamFacts.v
Account.v
Catalog.v
Store.v
StoreFacts.v
Pool.v
PoolSlots.v
PoolFacts.v
Refresh.v
Meter.v
MeterFacts.v
Persister.v
Calendar.v
CompactionReplay.v
Endpoint.v
EndpointFacts.v
Context.v
ContextFacts.v
Compaction.v
ToolNames.v
ToolSearch.v
AutoContinue.v
Notify.v
NotifyFacts.v
Alerts.v
Text.v
WebSearch.v
Content.v
Translate.v
TranslateFacts.v
Schema.v
CacheControl.v
Attachments.v
Validate.v
ServerToolFacts.v
ValidateFacts.v
OpenAi.v
ValidateOpenAi.v
OpenAiFacts.v
Config.v
ConfigFacts.v
Occurs.v
Errors.v
ErrorsFacts.v
Gateway.v
GatewayFacts.v
StopFilter.v
ThinkingFilter.v
ThinkingFilterFacts.v
RepairJson.v
ToolLeak.v
ToolLeakFacts.v
Response.v
ResponseFacts.v
RoundFacts.v
Responses.v
ResponsesFacts.v
ResponsesSession.v
ResponsesSessionFacts.v
ResponsesStream.v
ResponsesStreamFacts.v
