(* ===== verification/Prelude.v ===== *)
(** * kiro-proxy: a verification library

    kiro-proxy is a daemon that offers the public Claude and OpenAI protocols
    and serves them from a pool of Kiro accounts.  A request is authenticated
    and metered ([kproxyd]), its model is mapped and resolved and its payload
    translated and repaired ([kproxy-translate]), an account is leased from the
    pool ([kproxy-pool]), and the answer is decoded from an AWS event stream
    ([kproxy-kiro]); rounds that the proxy answers itself continue the same
    turn, and quota trouble is alerted once ([kproxyd], [kproxy-notify]).  This
    library models the parts of that path that decide something, from their
    sources under [src/crates/], and proves what each of them promises to the
    others.

    ** Files

    - [Prelude]: results and options, chains and loops of checks, machine
      integers, the tactics and the hint database, list searches and stable
      sorting.  [RustStr]: Rust's [str]
      as UTF-8 bytes.  [F64]: IEEE doubles over the executable [SpecFloat], with
      sign and order lemmas.  [Json]: [serde_json::Value].
    - [Protocol]: the Claude, OpenAI and Kiro request types
      ([kproxy-translate/src/protocol.rs]).
    - [Model], [ModelFacts]: [model.rs], name normalization, the staged resolver
      against an account's models, mapping rules with schedules and globs, and
      thinking controls.
    - [ToolHistory], [ToolHistoryFacts]: [tool_history.rs], the repair of tool
      calls and results ([sanitize_kiro_tool_history]) and the contract it must
      meet ([validate_kiro_tool_history]).
    - [EventStream], [EventStreamFacts]: [kproxy-kiro/src/event_stream.rs], the
      frame decoder.
    - [Account]: [kproxy-core/src/account.rs], the pool section of [config.rs]
      and the credit policy of [pool.rs].  [Catalog]: [catalog.rs], the static
      fallback of model discovery.
    - [Pool]: [kproxy-pool/src/state.rs] and [pool.rs].  [PoolSlots]: atomic
      steps, calls, and the slot invariant.  [PoolFacts]: what the operations
      return.  [Refresh]: [refresh.rs].
    - [Meter], [MeterFacts]: [kproxyd/src/meter.rs], API keys, reservations and
      usage.  [Persister]: the task of [mark_dirty].  [Calendar]: the date
      conversion.
    - [Store], [StoreFacts]: [kproxy-store/src/accounts.rs], the account file and
      its deltas.
    - [CompactionReplay]: [kproxyd/src/http/compaction_replay.rs], checkpoints put
      back into a history that lost them.
    - [Endpoint], [EndpointFacts]: [kproxy-kiro/src/endpoint.rs], regions and
      URLs of an account, and the cache of endpoints that worked or failed.
    - [Context], [ContextFacts]: [kproxy-translate/src/context.rs], the edits of
      [context_management] and the compaction boundary.  [Compaction]: replay and
      boundary composed as [http/handlers/request.rs] does.
    - [ToolNames]: the tool names of [translate/common.rs].  [ToolSearch]:
      [translate/tool_search.rs].  [AutoContinue]: [translate/auto_continue.rs],
      the payload of the next internal round; its theorems compose [ToolNames],
      [ToolSearch] and the contract of [ToolHistory].
    - [Text]: splitting, characters, trimming and the escaping of markup.
      [WebSearch]: [translate/web_search.rs].  [Content]: the message blocks of
      [translate/common.rs].  [Translate], [TranslateFacts]:
      [translate/claude.rs], from a Claude request to a Kiro payload.
    - [Schema], [CacheControl], [Attachments], [Validate]: [validate.rs] and
      [validate/cache.rs], the checks of a Claude request before it is translated.
      [ServerToolFacts]: the protocol of server tools.  [ValidateFacts]: the
      checks composed with the translation, whose theorems [TranslateFacts] states
      with the hypotheses that validation discharges.
    - [OpenAi]: [translate/openai.rs], from an OpenAI chat request to a Kiro
      payload.  [ValidateOpenAi]: the checks of such a request.  [OpenAiFacts]:
      the two composed.
    - [Config], [ConfigFacts]: [kproxy-core/src/config.rs], the configuration and
      its validation, and the reload of a watched file
      ([kproxy-store/src/config_loader.rs]).
    - [Errors], [ErrorsFacts]: [kproxy-translate/src/error.rs], the error texts
      that clients see.
    - [Gateway], [GatewayFacts]: the checks before a request is looked at
      ([kproxyd/src/http/handlers.rs], [handlers/provider_gateway.rs]): the key,
      the client, the provider and the model.
    - [Occurs]: substrings and their search.
    - [StopFilter], [ThinkingFilter], [ThinkingFilterFacts], [RepairJson],
      [ToolLeak], [ToolLeakFacts]: the filters of [kproxyd/src/http/response.rs],
      one file each: stop sequences, tagged thinking, tool inputs cut short, and
      tool calls written as text.  [Response], [ResponseFacts]: [DecodedResponse],
      the messages printed from it, and a round of an answer that is not streamed
      ([handlers/execution.rs]).  [RoundFacts]: the filters composed.
    - [Responses], [ResponsesFacts]: [kproxy-translate/src/responses.rs] and
      [compatibility.rs], requests of the Responses protocol and of legacy functions
      brought into the shape of a chat request.  [ResponsesSession],
      [ResponsesSessionFacts]: the conversations that [kproxyd/src/http/responses.rs]
      stores, and its answers.  [ResponsesStream], [ResponsesStreamFacts]: its
      stream of events, and a client that follows it.
    - [Notify], [NotifyFacts]: [kproxy-notify/src/lib.rs], incidents, their file,
      queues and workers.  [Alerts]: [kproxyd/src/alerts.rs] and the observations
      kept in [state.rs], proved against the class [Notify.Incidents], of which
      [NotifyFacts.notifier_incidents] is the instance.

    ** How the code is modelled

    A function of the source is a definition with the same name, fallible code
    returns [result], a panic is an outcome where one is reachable
    ([Catalog.panic]), and a [w]-bit integer is a [Z] whose wrapping, saturation
    or range is written out.  State that several parties share is explicit: an
    [Arc<AccountState>] is a pointer into the pool's heap, so that the index, the
    candidates of an acquisition and the leases alias the same state.  [acquire]
    is cut at its suspension points; a refresh takes the changes other tasks make
    at each [await] as arguments.  Concurrency is given by step relations:
    [PoolSlots.astep] and [Persister.dstep] have one atomic access per step, so
    their runs contain all interleavings; [PoolSlots.pstep], [MeterFacts.mstep] and
    [NotifyFacts.nstep] have one call per step, so that an event is marked and
    queued at once.

    Code outside the repository is an argument: CRC-32, SHA-256, the JSON parser
    and printer, the HTTP client, the file system, clocks, time zone, random
    draws, base64, the URL parser, the regular expression engines, and the
    iteration order of hash maps.  [tokio::sync::Notify] is the class
    [Pool.Notify] with the laws its documentation gives, and
    [PoolFacts.counter_notify] is an instance; the codecs of the account file are
    the class [Store.Codec] with the round trips of [StoreFacts.CodecLaws], and
    [StoreFacts.Letters] is an instance.  A file operation of a save can succeed,
    fail without effect or fail after its effect; a crash is a failure at which
    the process ends.

    ** What is proved

    - Tool history: sanitizing any payload yields one the validator accepts; no
      call is invented, reordered or dropped uncounted.
    - Event stream: decoding does not depend on how the stream is chunked, inverts
      the frame layout, consumes whole frames only, and its loops end.  The fuel
      of [parse_headers_loop] is the number of bytes, which suffices because every
      iteration consumes at least two ([parse_headers_terminates]).
    - Models: the resolver picks by its first matching rule and the newest version
      of a family, mapping picks the first usable rule in priority order, schedule
      windows are circular intervals, and thinking controls depend on the client's
      intent only.
    - Account store: a successful save is what a restart loads, and a save cut short
      leaves each account as it was or as it is.
    - Compaction replay: a checkpoint only goes back behind the history it was
      remembered for, once; the request that results holds none of the history
      the checkpoint covers, and a second normalization changes nothing.  The
      tracker is bounded; the fuel of [evict] is the number of entries, one of
      which every round removes.
    - Context edits: the most recent results asked for, excluded tools and all
      text stay; a saving below the minimum changes nothing.
    - Tool names: distinct, legal and restored; the fuel of [new] needs one round
      more than there are names ([registry_terminates]), if the digests tried for
      one name differ.
    - Tool Search: what is loaded is sound, distinct and within limit and budget.
    - Continuations: an accepted payload with room for two more of its 30 history
      messages is accepted again after a round; from a longer history the code
      cuts messages out and relies on the sanitizer, whose theorem covers any
      payload.
    - Validation: the walk over a tool schema accepts exactly the schemas within
      the limits, its fuel being one round more than the nodes it may count; cache
      markers are bounded and ordered; the history of server tools is accepted
      exactly when it follows the protocol.
    - Claude translation: a request that passes validation becomes a payload with
      its calls, results and images, each once and in order, in a history that
      alternates; its images are sound and bounded; and if the conversation pairs
      its calls and results, the payload needs no repair.  When an instruction to
      compact is split off, the history ends with the user and the contract refuses
      it ([split_instruction_refused]).
    - OpenAI translation: an accepted request keeps its calls, results and images
      likewise, but for custom calls that also have a key [function]; a request that
      requires a tool call sends a tool.
    - Web search: replayed results are authentic, and quoted pages cannot leave
      their element.  Documents get names that Kiro allows.
    - Endpoints: the cache's tables are bounded and consistent, GovCloud accounts
      stay in their partition, and stale answers are ignored.
    - Notifications: one delivery per incident between recoveries, and workers
      neither lose nor duplicate deliveries; a recovery is believed only after
      two distinct upstream observations.
    - Pool: slots equal leases under every interleaving and every call is a run of
      atomic steps; a lease goes to the best fit account, inside its scope and
      outside the excluded set, also after waiting; counters, exhaustion reports,
      the quota window and account replacement are exact.
    - Refresh: the account is always handed back; new tokens are written over the
      account as it is then, handed to [persist] and left to what other tasks do
      with the account meanwhile, and a failure of [persist] is reported; a failed
      proactive refresh costs nothing.
    - Meter: usage is bounded and conserves requests, the ledger is never negative
      or NaN, admission respects both limits, authentication fails closed, dates
      are Gregorian, and deferred persistence ends with an attempt to write the
      newest state, at which it stays even if the attempt fails.
    - Configuration: a configuration is accepted exactly when it meets the record
      [ConfigFacts.Valid]; whatever a watched file holds, the daemon runs a valid
      configuration with the socket and the TLS mode it started with.
    - Admission: under a valid configuration a request reaches exactly the
      providers that its service and its key allow, from the client that the format
      is for, with a model of an adapter that the key may use, and every refusal is
      one of a list.  Models of Kiro are checked by the dispatch, which is not
      modelled.
    - Answers: the text and the stop sequence of a plain answer depend on its text
      only and not on how it is cut ([round_text_spec]), by way of a theorem for each
      filter: the automata of the stop sequences find what a search of the whole
      text finds ([stop_filter_spec]), thinking tags are those of one pass over
      the text ([thinking_filter_spec]), and recovering calls loses nothing
      ([leak_filter_conserves]).  The calls of a message are those that Kiro sent
      ([decoded_calls_exact]), and text completed to JSON is well bracketed
      ([close_chars_balanced]).  The fuel of [drain_loop] and of [leak_loop] is one
      round more than the bytes that are pending, each round but the last taking a
      tag; that of [fall_back] is the state, which every round lowers; the theorems
      show that none of them runs out.
    - Responses: a translated request keeps the calls, the outputs and the texts of
      its items ([responses_calls_kept]); the store of conversations is bounded,
      keeps owners apart and makes room by taking away those read longest ago
      ([responses_store_spec]), the fuel of [make_room] being the number
      of sessions, one of which every round removes; the calls of an answer survive
      being sent back ([responses_replay_roundtrip]); every stream is one that a
      client can follow to a single last event ([responses_stream_spec]), the fuel of
      [frames] being the bytes of the buffer, of which every frame takes two or more.
    - Errors: no text shown names the upstream products, and none has a phrase
      that makes clients give an account up unless blanking control characters or
      replacing product names makes one.
    - Findings: a lost wake-up in [acquire], a panic in the static catalog, a
      resolver fallback across Claude families, overlapping globs, a ban lifted by a
      failed refresh, a deferred write that is not repeated when it fails
      ([failed_write_is_final]), a forced tool choice that loses its tool, a null function
      that drops its call ([null_function_drops_call]), cache markers sent
      with the cache off ([user_marker_sent_without_cache]), phrases made by
      blanking or replacing ([ban_phrase_behind_line_feed],
      [ban_phrase_from_replacement]), and accepted configurations whose routes are
      refused ([nested_target_refused], [crossing_default_model_refused]), each as a theorem
      about the code as it is.

    ** What is not modelled

    The server-sent events of the Claude and the chat protocol, the continuation of
    an answer over several upstream requests, token counting, the preparation
    of Claude Code's summary requests beyond their recognition, the prompt cache,
    the Copilot provider, the payloads and the transport of
    webhooks, administration, logging and the command line.  Most is I/O around
    the parts above.  The TOML parser and the edits of the configuration file that
    keep its comments are not modelled either.
    Within the parts modelled, a sequence of clock readings of one operation is one
    reading per loop iteration, floating-point sums are rounded as the code rounds
    them and no claim is made about their exact value, and sorting by score is only
    specified for scores that are numbers. *)

From Stdlib Require Import ZArith Lia List Bool.
From stdpp Require Import base list gmap strings sorting tactics.

(** ** Results

    [Result<A, E>] of Rust, with the [?] operator as a bind. *)

Inductive result (A E : Type) : Type :=
| Ok (a : A)
| Err (e : E).

Arguments Ok {A E} a.
Arguments Err {A E} e.

Definition result_bind {A B E : Type} (r : result A E) (k : A -> result B E) : result B E :=
  match r with
  | Ok a => k a
  | Err e => Err e
  end.

Definition is_ok {A E : Type} (r : result A E) : bool :=
  match r with Ok _ => true | Err _ => false end.

Definition is_some {A : Type} (o : option A) : bool :=
  match o with Some _ => true | None => false end.

Definition is_none {A : Type} (o : option A) : bool := negb (is_some o).

Definition unwrap_or {A : Type} (o : option A) (d : A) : A :=
  match o with Some a => a | None => d end.

(** [Option::is_some_and] and [Option::is_none_or]. *)
Definition is_some_and {A : Type} (o : option A) (f : A -> bool) : bool :=
  match o with Some a => f a | None => false end.

Definition is_none_or {A : Type} (o : option A) (f : A -> bool) : bool :=
  match o with Some a => f a | None => true end.

(** [Option::or] / [or_else] and [Option::filter]. *)
Definition or_else {A : Type} (o p : option A) : option A :=
  match o with Some a => Some a | None => p end.

Definition opt_filter {A : Type} (f : A -> bool) (o : option A) : option A :=
  match o with Some a => if f a then Some a else None | None => None end.

(** [Vec::is_empty]. *)
Definition is_nil {A : Type} (l : list A) : bool := match l with [] => true | _ => false end.

Declare Scope kproxy_scope.
Delimit Scope kproxy_scope with kproxy.

Notation "'let?' x ':=' r 'in' k" :=
  (result_bind r (fun x => k))
  (at level 10, x pattern, r at level 100, k at level 200) : kproxy_scope.

(** ** Chains and loops of checks

    [first?; rest], [for .. { f(..)?; }] with an index, and the loops that carry a
    state. *)

Local Open Scope kproxy_scope.

Section Checks.
Context {E : Type}.

Definition then_ {A} (first : result unit E) (rest : result A E) : result A E :=
  let? _ := first in rest.

Lemma then_ok {A} (first : result unit E) (rest : result A E) y :
  then_ first rest = Ok y <-> first = Ok tt /\ rest = Ok y.
Proof. unfold then_. destruct first as [[]|]; cbn; [tauto|split; [done|intros [? _]; done]]. Qed.

Lemma result_bind_ok {A B} (r : result A E) (k : A -> result B E) y :
  (let? a := r in k a) = Ok y -> exists a, r = Ok a /\ k a = Ok y.
Proof. destruct r; cbn; [eauto|done]. Qed.

Section Each.
Context {A : Type} (f : nat -> A -> result unit E).

Fixpoint each_from (index : nat) (l : list A) : result unit E :=
  match l with
  | [] => Ok tt
  | x :: l => then_ (f index x) (each_from (S index) l)
  end.

Definition each (l : list A) : result unit E := each_from 0 l.

Lemma each_from_ok index l :
  each_from index l = Ok tt <-> forall i x, l !! i = Some x -> f (index + i) x = Ok tt.
Proof.
  revert index; induction l as [|x l IH]; intros index; cbn [each_from].
  { split; [intros _ i x H; by rewrite lookup_nil in H|done]. }
  rewrite then_ok, IH. split.
  - intros [Hx Hl] [|i] y; cbn [lookup list_lookup].
    + intros [= <-]. by rewrite Nat.add_0_r.
    + intros Hy. rewrite Nat.add_succ_r. by apply (Hl i).
  - intros H. split; [rewrite <- (Nat.add_0_r index); by apply (H 0)|].
    intros i y Hy. rewrite Nat.add_succ_comm. by apply (H (S i)).
Qed.

Lemma each_ok l : each l = Ok tt <-> forall i x, l !! i = Some x -> f i x = Ok tt.
Proof. apply each_from_ok. Qed.

Lemma each_elem l : each l = Ok tt -> Forall (fun x => exists i, f i x = Ok tt) l.
Proof.
  intros H. apply Forall_forall. intros x [i Hi]%list_elem_of_In%list_elem_of_lookup_1. exists i.
  by apply (proj1 (each_ok l) H).
Qed.
End Each.

Fixpoint fold_result {St A} (f : St -> A -> result St E) (s : St) (l : list A) : result St E :=
  match l with
  | [] => Ok s
  | x :: l => let? s := f s x in fold_result f s l
  end.

Section FoldEach.
Context {St A : Type} (f : nat -> A -> St -> result St E).

Fixpoint fold_each (index : nat) (l : list A) (s : St) : result St E :=
  match l with
  | [] => Ok s
  | x :: l => let? s := f index x s in fold_each (S index) l s
  end.

Lemma fold_each_cons index x l s s' :
  fold_each index (x :: l) s = Ok s' -> exists s1, f index x s = Ok s1 /\ fold_each (S index) l s1 = Ok s'.
Proof. cbn [fold_each]. destruct (f index x s) as [s1|]; [|done]. eauto. Qed.

Lemma fold_each_elem index l s s' :
  fold_each index l s = Ok s' -> Forall (fun x => exists i s1 s2, f i x s1 = Ok s2) l.
Proof.
  revert index s; induction l as [|x l IH]; intros index s; [constructor|].
  intros (s1 & H1 & H2)%fold_each_cons. constructor; [eauto|by eapply IH].
Qed.
End FoldEach.
End Checks.

Notation "a ;? b" := (then_ a b) (at level 60, right associativity) : kproxy_scope.

(** Takes apart a chain of checks that passed. *)
Ltac split_checks H :=
  repeat match type of H with
  | then_ _ _ = Ok _ => let Hc := fresh "Hc" in apply then_ok in H as [Hc H]
  end.

(** ** Machine integers

    A value of a Rust integer type is a [Z] in the type's range; the saturating
    operations clamp to it and the wrapping ones reduce modulo it. *)

Local Open Scope Z_scope.

Definition U8_MAX : Z := 255.
Definition U32_MAX : Z := 4294967295.
Definition U64_MAX : Z := 18446744073709551615.
Definition USIZE_MAX : Z := U64_MAX.
Definition I64_MIN : Z := -9223372036854775808.
Definition I64_MAX : Z := 9223372036854775807.

Definition sat_add (bound a b : Z) : Z := Z.min bound (a + b).
Definition sat_sub (a b : Z) : Z := Z.max 0 (a - b).
Definition wrap_u64 (a : Z) : Z := a mod 2 ^ 64.
Definition wrap_u32 (a : Z) : Z := a mod 2 ^ 32.
Definition sat_sub_i64 (a b : Z) : Z := Z.max I64_MIN (Z.min I64_MAX (a - b)).

Lemma sat_add_bounds bound a b : 0 <= a <= bound -> 0 <= b -> a <= sat_add bound a b <= bound.
Proof. unfold sat_add; lia. Qed.

Lemma sat_sub_bounds a b : 0 <= a -> 0 <= b -> 0 <= sat_sub a b <= a.
Proof. unfold sat_sub; lia. Qed.

Lemma wrap_u64_small a : 0 <= a <= U64_MAX -> wrap_u64 a = a.
Proof. intros; unfold wrap_u64, U64_MAX in *; apply Z.mod_small; lia. Qed.

Lemma wrap_u32_small a : 0 <= a <= U32_MAX -> wrap_u32 a = a.
Proof. intros; unfold wrap_u32, U32_MAX in *; apply Z.mod_small; lia. Qed.

Close Scope Z_scope.

(** ** Tactics *)

(** Turn boolean tests in the context and the goal into propositions. *)
Ltac bool_simpl :=
  repeat match goal with
    | H : _ && _ = true |- _ => apply andb_true_iff in H; destruct H
    | H : _ || _ = false |- _ => apply orb_false_iff in H; destruct H
    | H : negb _ = true |- _ => apply negb_true_iff in H
    | H : negb _ = false |- _ => apply negb_false_iff in H
    | H : bool_decide _ = true |- _ => apply bool_decide_eq_true in H
    | H : bool_decide _ = false |- _ => apply bool_decide_eq_false in H
    | H : (_ <=? _)%Z = true |- _ => apply Z.leb_le in H
    | H : (_ <=? _)%Z = false |- _ => apply Z.leb_gt in H
    | H : (_ <? _)%Z = true |- _ => apply Z.ltb_lt in H
    | H : (_ <? _)%Z = false |- _ => apply Z.ltb_ge in H
    | H : (_ =? _)%Z = true |- _ => apply Z.eqb_eq in H
    | H : (_ =? _)%Z = false |- _ => apply Z.eqb_neq in H
    end.

(** Case on the scrutinee of the first [match] or [if] of a hypothesis. *)
Ltac case_in H :=
  match type of H with
  | context [match ?x with _ => _ end] => destruct x eqn:?; simplify_eq/=
  end.

(** Case on the scrutinee of the first [match] or [if] of the goal. *)
Ltac case_goal :=
  match goal with
  | |- context [match ?x with _ => _ end] => destruct x eqn:?; simplify_eq/=
  end.

Create HintDb kproxy.

#[export] Hint Resolve sat_add_bounds sat_sub_bounds : kproxy.

(** ** Lists *)

Section ListLemmas.
Context {A B : Type}.
Implicit Types (l : list A).

(** [Iterator::find_map]. *)
Fixpoint find_map (f : A -> option B) l : option B :=
  match l with
  | [] => None
  | x :: l => match f x with Some y => Some y | None => find_map f l end
  end.

(** [Iterator::position]. *)
Fixpoint position (f : A -> bool) l : option nat :=
  match l with
  | [] => None
  | x :: l => if f x then Some 0 else S <$> position f l
  end.

(** [Iterator::max_by]: the last of the maximal elements. *)
Fixpoint max_by_from (cmp : A -> A -> comparison) (best : A) l : A :=
  match l with
  | [] => best
  | x :: l => max_by_from cmp (match cmp best x with Gt => best | _ => x end) l
  end.

Definition max_by (cmp : A -> A -> comparison) l : option A :=
  match l with [] => None | x :: l => Some (max_by_from cmp x l) end.

(** [Iterator::min_by_key] on integer keys: the first of the minimal elements. *)
Fixpoint min_by_key_from (key : A -> Z) (best : A) l : A :=
  match l with
  | [] => best
  | x :: l => min_by_key_from key (if (key x <? key best)%Z then x else best) l
  end.

Definition min_by_key (key : A -> Z) l : option A :=
  match l with [] => None | x :: l => Some (min_by_key_from key x l) end.

Lemma find_map_Some f l y :
  find_map f l = Some y -> exists x, x ∈ l /\ f x = Some y.
Proof.
  induction l as [|x l IH]; simpl; [done|].
  destruct (f x) eqn:E; intros; simplify_eq; [set_solver|].
  destruct IH as (z & ? & ?); [done|]. exists z; set_solver.
Qed.

Lemma max_by_from_elem cmp best l : max_by_from cmp best l ∈ best :: l.
Proof.
  revert best; induction l as [|x l IH]; intros best; simpl; [set_solver|].
  specialize (IH (match cmp best x with Gt => best | _ => x end)).
  destruct (cmp best x); set_solver.
Qed.

Lemma max_by_elem cmp l x : max_by cmp l = Some x -> x ∈ l.
Proof. destruct l; simpl; intros; simplify_eq; apply max_by_from_elem. Qed.

(** Under a total preorder the element taken is maximal. *)
Lemma max_by_from_max cmp best l :
  (forall x y, cmp y x = CompOpp (cmp x y)) ->
  (forall x y z, cmp x y <> Gt -> cmp y z <> Gt -> cmp x z <> Gt) ->
  forall x, x ∈ best :: l -> cmp x (max_by_from cmp best l) <> Gt.
Proof.
  intros Hopp Htrans. assert (Hrefl : forall x, cmp x x <> Gt).
  { intros x. specialize (Hopp x x). by destruct (cmp x x). }
  revert best; induction l as [|x l IH]; intros best y Hy; simpl.
  { apply list_elem_of_singleton in Hy as ->. apply Hrefl. }
  assert (Hle : forall b, b = best \/ b = x ->
            cmp b (match cmp best x with Gt => best | _ => x end) <> Gt).
  { intros b [-> | ->]; destruct (cmp best x) eqn:E; rewrite ?E; try done.
    rewrite Hopp, E. done. }
  rewrite !elem_of_cons in Hy. destruct Hy as [-> |[-> |Hy]].
  - eapply Htrans; [apply Hle; by left|]. apply IH. set_solver.
  - eapply Htrans; [apply Hle; by right|]. apply IH. set_solver.
  - apply IH. set_solver.
Qed.

Lemma max_by_max cmp l m :
  (forall x y, cmp y x = CompOpp (cmp x y)) ->
  (forall x y z, cmp x y <> Gt -> cmp y z <> Gt -> cmp x z <> Gt) ->
  max_by cmp l = Some m -> forall x, x ∈ l -> cmp x m <> Gt.
Proof. intros ? ? H. destruct l; simpl in H; simplify_eq. by apply max_by_from_max. Qed.

Lemma max_by_None cmp l : max_by cmp l = None <-> l = [].
Proof. destruct l; simpl; split; done. Qed.

Lemma min_by_key_from_elem key best l : min_by_key_from key best l ∈ best :: l.
Proof.
  revert best; induction l as [|x l IH]; intros best; simpl; [set_solver|].
  specialize (IH (if (key x <? key best)%Z then x else best)).
  destruct (key x <? key best)%Z; set_solver.
Qed.

Lemma min_by_key_from_le key best l y :
  y ∈ best :: l -> (key (min_by_key_from key best l) <= key y)%Z.
Proof.
  revert best y; induction l as [|x l IH]; intros best y; simpl.
  - intros ?%list_elem_of_singleton; subst; lia.
  - intros Hy. destruct (key x <? key best)%Z eqn:E; bool_simpl.
    + assert (Hx := IH x x ltac:(set_solver)).
      apply elem_of_cons in Hy as [->|Hy]; [lia|]. apply IH; set_solver.
    + assert (Hb := IH best best ltac:(set_solver)).
      apply elem_of_cons in Hy as [->|Hy]; [lia|].
      apply elem_of_cons in Hy as [->|Hy]; [lia|]. apply IH; set_solver.
Qed.

Lemma min_by_key_spec key l x :
  min_by_key key l = Some x -> x ∈ l /\ forall y, y ∈ l -> (key x <= key y)%Z.
Proof.
  destruct l as [|z l]; simpl; intros; simplify_eq.
  split; [apply min_by_key_from_elem|]. intros; by apply min_by_key_from_le.
Qed.

Lemma min_by_key_None key l : min_by_key key l = None <-> l = [].
Proof. destruct l; simpl; split; done. Qed.
End ListLemmas.

#[export] Hint Resolve max_by_elem find_map_Some : kproxy.

(** ** Stable sorting

    [slice::sort_by] with a comparison: an insertion sort, which gives the one
    order a stable sort of a total preorder can give. *)

Section Sorting.
Context {A : Type} (le : A -> A -> bool).

Fixpoint insert_by (x : A) (l : list A) : list A :=
  match l with
  | [] => [x]
  | y :: l => if le x y then x :: y :: l else y :: insert_by x l
  end.

Fixpoint sort_by (l : list A) : list A :=
  match l with
  | [] => []
  | x :: l => insert_by x (sort_by l)
  end.

Lemma insert_by_perm x l : insert_by x l ≡ₚ x :: l.
Proof.
  induction l as [|y l IH]; simpl; [done|]. case_match; [done|]. rewrite IH. constructor.
Qed.

Lemma sort_by_perm l : sort_by l ≡ₚ l.
Proof. induction l as [|x l IH]; simpl; [done|]. by rewrite insert_by_perm, IH. Qed.

Lemma elem_of_sort_by x l : x ∈ sort_by l <-> x ∈ l.
Proof. by rewrite sort_by_perm. Qed.

(** The comparison only has to be a total preorder on the elements sorted. *)
Context (P : A -> Prop).
Context (le_total : forall x y, P x -> P y -> le x y = true \/ le y x = true).
Context (le_trans : forall x y z, P x -> P y -> P z ->
           le x y = true -> le y z = true -> le x z = true).

Lemma insert_by_sorted x l :
  P x -> Forall P l -> StronglySorted (fun x y => le x y = true) l ->
  StronglySorted (fun x y => le x y = true) (insert_by x l).
Proof.
  intros Hx Hl. induction 1 as [|y l Hs IH Hall]; simpl; [by repeat constructor|].
  apply Forall_cons_iff in Hl as [Hy Hl]. destruct (le x y) eqn:E.
  - constructor; [by constructor|]. constructor; [done|].
    rewrite Forall_forall in Hall, Hl |- *. eauto.
  - constructor; [by apply IH|]. rewrite insert_by_perm. constructor; [|done].
    destruct (le_total x y); [done..|congruence|done].
Qed.

Lemma sort_by_sorted l :
  Forall P l -> StronglySorted (fun x y => le x y = true) (sort_by l).
Proof.
  induction 1 as [|x l Hx Hl IH]; simpl; [constructor|].
  apply insert_by_sorted; [done| |done]. by rewrite sort_by_perm.
Qed.
End Sorting.

(** Whatever does not precede an element of a sorted list is above it. *)
Lemma sorted_head_first {A} (R : A -> A -> Prop) pre x post y :
  StronglySorted R (pre ++ x :: post) -> y ∈ pre ++ x :: post -> y ∈ pre \/ y = x \/ R x y.
Proof.
  intros Hs Hy. apply elem_of_app in Hy as [Hy|Hy]; [by left|].
  apply elem_of_cons in Hy as [->|Hy]; [by right; left|]. right; right.
  induction pre as [|z pre IH]; simpl in Hs; inversion Hs as [|? ? Hs' Hall]; subst; [|auto].
  apply (proj1 (List.Forall_forall _ _) Hall). by apply list_elem_of_In.
Qed.

Lemma filter_all {A} (P : A -> Prop) `{forall x, Decision (P x)} (l : list A) :
  (forall x, x ∈ l -> P x) -> filter P l = l.
Proof.
  induction l as [|x l IH]; intros Hall; [done|].
  rewrite filter_cons_True by (apply Hall; set_solver). f_equal. apply IH. set_solver.
Qed.

Lemma filter_sorted {A} (R : A -> A -> Prop) (P : A -> Prop) `{forall x, Decision (P x)} l :
  StronglySorted R l -> StronglySorted R (filter P l).
Proof.
  induction 1 as [|x l Hs IH Hall]; [constructor|]. rewrite filter_cons.
  case_decide; [|done]. constructor; [done|].
  apply List.Forall_forall. intros y [_ Hy]%list_elem_of_In%list_elem_of_filter.
  rewrite List.Forall_forall in Hall. by apply Hall, list_elem_of_In.
Qed.
