(* ===== verification/RustStr.v ===== *)
(** * Rust strings

    The operations of [str] and [String] the proxy uses, on Rocq's [string].
    A [string] is the sequence of the UTF-8 bytes of the Rust string, so
    [len] counts bytes, the order is the byte order (which is the order of
    [str]), and the ASCII operations act byte by byte.  [trim] removes the
    Unicode [White_Space] characters, whose UTF-8 encodings are one to three
    bytes long. *)

From Stdlib Require Import ZArith Lia Ascii String.
From stdpp Require Import base list strings.
From S2P Require Import Prelude.

Local Open Scope string_scope.

(** ** Bytes *)

Abbreviation bytes := (list ascii).

Definition s2l (s : string) : bytes := list_ascii_of_string s.
Definition l2s (l : bytes) : string := string_of_list_ascii l.

Lemma l2s_s2l s : l2s (s2l s) = s.
Proof. apply string_of_list_ascii_of_string. Qed.

Lemma s2l_l2s l : s2l (l2s l) = l.
Proof. apply list_ascii_of_string_of_list_ascii. Qed.

Lemma s2l_inj s t : s2l s = s2l t -> s = t.
Proof. intros H. by rewrite <- (l2s_s2l s), H, l2s_s2l. Qed.

Definition code (a : ascii) : Z := Z.of_nat (nat_of_ascii a).

Definition in_range (lo hi : Z) (a : ascii) : bool := ((lo <=? code a) && (code a <=? hi))%Z.

Definition is_ascii_digit (a : ascii) : bool := in_range 48 57 a.
Definition is_ascii_upper (a : ascii) : bool := in_range 65 90 a.
Definition is_ascii_lower (a : ascii) : bool := in_range 97 122 a.
Definition is_ascii_alphanumeric (a : ascii) : bool :=
  is_ascii_digit a || is_ascii_upper a || is_ascii_lower a.

Definition lower_byte (a : ascii) : ascii :=
  if is_ascii_upper a then ascii_of_nat (nat_of_ascii a + 32) else a.

(** A UTF-8 continuation byte: an index in front of one is not a character
    boundary. *)
Definition is_continuation (a : ascii) : bool := in_range 128 191 a.

Definition is_char_boundary (l : bytes) (i : nat) : bool :=
  match l !! i with
  | Some a => (i =? 0)%nat || negb (is_continuation a)
  | None => (i =? length l)%nat
  end.

(** ** White space *)

Definition ws1 (a : ascii) : bool := in_range 9 13 a || in_range 32 32 a.

Definition ws2 (a b : ascii) : bool :=
  ((code a =? 0xC2) && ((code b =? 0x85) || (code b =? 0xA0)))%Z.

Definition ws3 (a b c : ascii) : bool :=
  (((code a =? 0xE1) && (code b =? 0x9A) && (code c =? 0x80))
   || ((code a =? 0xE2) && (code b =? 0x80)
       && (((0x80 <=? code c) && (code c <=? 0x8A)) || (code c =? 0xA8) || (code c =? 0xA9)
           || (code c =? 0xAF)))
   || ((code a =? 0xE2) && (code b =? 0x81) && (code c =? 0x9F))
   || ((code a =? 0xE3) && (code b =? 0x80) && (code c =? 0x80)))%Z.

Fixpoint trim_start_l (l : bytes) : bytes :=
  match l with
  | [] => []
  | a :: l1 =>
      if ws1 a then trim_start_l l1 else
      match l1 with
      | [] => l
      | b :: l2 =>
          if ws2 a b then trim_start_l l2 else
          match l2 with
          | [] => l
          | c :: l3 => if ws3 a b c then trim_start_l l3 else l
          end
      end
  end.

(** The same from the right, on the reversed bytes. *)
Fixpoint trim_rev_l (l : bytes) : bytes :=
  match l with
  | [] => []
  | a :: l1 =>
      if ws1 a then trim_rev_l l1 else
      match l1 with
      | [] => l
      | b :: l2 =>
          if ws2 b a then trim_rev_l l2 else
          match l2 with
          | [] => l
          | c :: l3 => if ws3 c b a then trim_rev_l l3 else l
          end
      end
  end.

Definition trim_end_l (l : bytes) : bytes := reverse (trim_rev_l (reverse l)).
Definition trim_l (l : bytes) : bytes := trim_end_l (trim_start_l l).
Definition trim (s : string) : string := l2s (trim_l (s2l s)).

Definition is_empty (s : string) : bool := match s with EmptyString => true | _ => false end.

(** What is left after one leading (one trailing) white-space character. *)
Definition ws_step (l : bytes) : option bytes :=
  match l with
  | a :: l1 =>
      if ws1 a then Some l1 else
      match l1 with
      | b :: l2 =>
          if ws2 a b then Some l2 else
          match l2 with c :: l3 => if ws3 a b c then Some l3 else None | [] => None end
      | [] => None
      end
  | [] => None
  end.

Definition ws_step_rev (l : bytes) : option bytes :=
  match l with
  | a :: l1 =>
      if ws1 a then Some l1 else
      match l1 with
      | b :: l2 =>
          if ws2 b a then Some l2 else
          match l2 with c :: l3 => if ws3 c b a then Some l3 else None | [] => None end
      | [] => None
      end
  | [] => None
  end.

Section TrimLemmas.
Local Ltac step_cases l :=
  destruct l as [|? [|? [|? ?]]]; simpl; try done; repeat case_match; simplify_eq/=; try done.

Lemma bytes_len_ind (P : bytes -> Prop) :
  (forall l, (forall k, length k < length l -> P k) -> P l) -> forall l, P l.
Proof.
  intros Hstep l. remember (length l) as n eqn:Hn.
  revert l Hn; induction (lt_wf n) as [n _ IH]; intros l ->.
  apply Hstep; intros k Hk; eapply IH; eauto.
Qed.

Lemma ws_step_suffix l r : ws_step l = Some r -> r `suffix_of` l /\ length r < length l.
Proof.
  step_cases l; intros; simplify_eq; (split; [|simpl; lia]);
    repeat first [done | apply suffix_cons_r].
Qed.

Lemma ws_step_rev_suffix l r : ws_step_rev l = Some r -> r `suffix_of` l /\ length r < length l.
Proof.
  step_cases l; intros; simplify_eq; (split; [|simpl; lia]);
    repeat first [done | apply suffix_cons_r].
Qed.

Lemma trim_start_eq l :
  trim_start_l l = match ws_step l with Some r => trim_start_l r | None => l end.
Proof.
  destruct l as [|a l1]; [done|].
  change (trim_start_l (a :: l1)) with
    (if ws1 a then trim_start_l l1 else
     match l1 with
     | [] => a :: l1
     | b :: l2 =>
         if ws2 a b then trim_start_l l2 else
         match l2 with [] => a :: l1 | c :: l3 => if ws3 a b c then trim_start_l l3 else a :: l1 end
     end).
  unfold ws_step. by repeat case_match.
Qed.

Lemma trim_rev_eq l :
  trim_rev_l l = match ws_step_rev l with Some r => trim_rev_l r | None => l end.
Proof.
  destruct l as [|a l1]; [done|].
  change (trim_rev_l (a :: l1)) with
    (if ws1 a then trim_rev_l l1 else
     match l1 with
     | [] => a :: l1
     | b :: l2 =>
         if ws2 b a then trim_rev_l l2 else
         match l2 with [] => a :: l1 | c :: l3 => if ws3 c b a then trim_rev_l l3 else a :: l1 end
     end).
  unfold ws_step_rev. by repeat case_match.
Qed.

Lemma trim_start_not_ws l : ws_step (trim_start_l l) = None.
Proof.
  induction l as [l IH] using bytes_len_ind. rewrite trim_start_eq.
  destruct (ws_step l) eqn:E; [|done]. apply IH. by eapply ws_step_suffix.
Qed.

Lemma trim_rev_not_ws l : ws_step_rev (trim_rev_l l) = None.
Proof.
  induction l as [l IH] using bytes_len_ind. rewrite trim_rev_eq.
  destruct (ws_step_rev l) eqn:E; [|done]. apply IH. by eapply ws_step_rev_suffix.
Qed.

Lemma trim_rev_suffix l : trim_rev_l l `suffix_of` l.
Proof.
  induction l as [l IH] using bytes_len_ind. rewrite trim_rev_eq.
  destruct (ws_step_rev l) eqn:E; [|done].
  apply ws_step_rev_suffix in E as [? ?]. etrans; [by apply IH|done].
Qed.

Lemma trim_end_prefix l : trim_end_l l `prefix_of` l.
Proof.
  unfold trim_end_l. destruct (trim_rev_suffix (reverse l)) as [k Hk].
  exists (reverse k). rewrite <- reverse_app, <- Hk. by rewrite reverse_involutive.
Qed.

(** A prefix of bytes that do not start with white space does not either. *)
Lemma ws_step_prefix k l : k `prefix_of` l -> ws_step l = None -> ws_step k = None.
Proof.
  intros [t ->]. destruct k as [|a [|b [|c k]]]; simpl; [done|..];
    destruct t as [|? [|? ?]]; simpl; repeat case_match; done.
Qed.

Lemma trim_l_idemp l : trim_l (trim_l l) = trim_l l.
Proof.
  unfold trim_l. rewrite (trim_start_eq (trim_end_l _)).
  rewrite (ws_step_prefix _ _ (trim_end_prefix _)) by apply trim_start_not_ws.
  unfold trim_end_l. rewrite reverse_involutive.
  by rewrite (trim_rev_eq (trim_rev_l _)), trim_rev_not_ws.
Qed.
End TrimLemmas.

Lemma trim_idemp s : trim (trim s) = trim s.
Proof. unfold trim. by rewrite s2l_l2s, trim_l_idemp. Qed.

Lemma is_empty_false s : is_empty s = false <-> s <> "".
Proof. destruct s; simpl; split; done. Qed.

Lemma is_empty_true s : is_empty s = true <-> s = "".
Proof. destruct s; simpl; split; done. Qed.

(** ** Case *)

Definition to_ascii_lowercase (s : string) : string := l2s (lower_byte <$> s2l s).

Definition eq_ignore_ascii_case (s t : string) : bool :=
  bool_decide (to_ascii_lowercase s = to_ascii_lowercase t).

(** ** Searching and splitting *)

Fixpoint strip_prefix_l (p l : bytes) : option bytes :=
  match p, l with
  | [], _ => Some l
  | a :: p, b :: l => if Ascii.eqb a b then strip_prefix_l p l else None
  | _ :: _, [] => None
  end.

(** [str::strip_prefix], [starts_with], [ends_with] and [contains]. *)
Definition strip_prefix (s p : string) : option string := l2s <$> strip_prefix_l (s2l p) (s2l s).
Definition starts_with (s p : string) : bool := is_some (strip_prefix_l (s2l p) (s2l s)).
Definition ends_with (s p : string) : bool :=
  is_some (strip_prefix_l (reverse (s2l p)) (reverse (s2l s))).

(** [str::strip_suffix]. *)
Definition strip_suffix (s p : string) : option string :=
  (fun r => l2s (reverse r)) <$> strip_prefix_l (reverse (s2l p)) (reverse (s2l s)).

Fixpoint contains_l (l p : bytes) : bool :=
  is_some (strip_prefix_l p l) || match l with [] => false | _ :: l => contains_l l p end.

Definition contains (s p : string) : bool := contains_l (s2l s) (s2l p).

Lemma strip_prefix_l_spec p l r : strip_prefix_l p l = Some r <-> l = (p ++ r)%list.
Proof.
  revert l; induction p as [|a p IH]; intros [|b l]; simpl; split; intros; simplify_eq; try done.
  - destruct (Ascii.eqb_spec a b); [|done]. subst. f_equal. by apply IH.
  - rewrite Ascii.eqb_refl. by apply IH.
Qed.

(** [str::split_once] on an ASCII character. *)
Fixpoint split_once_l (sep : ascii) (l : bytes) : option (bytes * bytes) :=
  match l with
  | [] => None
  | a :: l =>
      if Ascii.eqb a sep then Some ([], l)
      else (fun '(u, v) => (a :: u, v)) <$> split_once_l sep l
  end.

Definition split_once (s : string) (sep : ascii) : option (string * string) :=
  (fun '(u, v) => (l2s u, l2s v)) <$> split_once_l sep (s2l s).

(** [str::split] on the characters that satisfy a test; never empty. *)
Fixpoint split_l (f : ascii -> bool) (l : bytes) : list bytes :=
  match l with
  | [] => [[]]
  | a :: l =>
      if f a then [] :: split_l f l
      else match split_l f l with
           | u :: r => (a :: u) :: r
           | [] => [[a]]
           end
  end.

Definition split (s : string) (f : ascii -> bool) : list string := l2s <$> split_l f (s2l s).

Fixpoint join (sep : string) (l : list string) : string :=
  match l with
  | [] => ""
  | [s] => s
  | s :: l => s +:+ sep +:+ join sep l
  end.

(** [str::replace] of each character in a set by one character. *)
Definition replace_chars (s : string) (f : ascii -> bool) (r : ascii) : string :=
  l2s ((fun a => if f a then r else a) <$> s2l s).

Definition is_char (c a : ascii) : bool := Ascii.eqb a c.

(** [str::cmp]: the lexicographic order of the bytes. *)
Fixpoint cmp_l (k l : bytes) : comparison :=
  match k, l with
  | [], [] => Eq
  | [], _ :: _ => Lt
  | _ :: _, [] => Gt
  | a :: k, b :: l => match Z.compare (code a) (code b) with Eq => cmp_l k l | c => c end
  end.

Definition str_cmp (s t : string) : comparison := cmp_l (s2l s) (s2l t).

Definition len (s : string) : nat := String.length s.

(** ** Numbers *)

Definition digit_value (a : ascii) : option Z :=
  if is_ascii_digit a then Some (code a - 48)%Z else None.

Fixpoint parse_digits (bound acc : Z) (l : bytes) : option Z :=
  match l with
  | [] => Some acc
  | a :: l =>
      match digit_value a with
      | Some d =>
          let acc := (acc * 10 + d)%Z in
          if (acc <=? bound)%Z then parse_digits bound acc l else None
      | None => None
      end
  end.

(** [str::parse] into an unsigned type with the given maximum: an optional
    [+], at least one digit, nothing else, no overflow. *)
Definition parse_unsigned (bound : Z) (s : string) : option Z :=
  match s2l s with
  | [] => None
  | a :: l =>
      if Ascii.eqb a "+" then match l with [] => None | _ => parse_digits bound 0 l end
      else parse_digits bound 0 (a :: l)
  end.

(** Decimal rendering of a natural number, as [format!] prints it. *)
Fixpoint digits_of (fuel : nat) (n : nat) (acc : string) : string :=
  match fuel with
  | O => acc
  | S fuel =>
      let acc := String (ascii_of_nat (48 + n mod 10)) acc in
      if (n <? 10)%nat then acc else digits_of fuel (n / 10) acc
  end.

Definition show_nat (n : nat) : string := digits_of (S n) n "".

(** Decimal rendering of an integer, with a minimum width filled with zeros
    (the sign counts towards the width), as [{:04}] prints it. *)
Definition show_N (n : N) : string :=
  let fix go (fuel : nat) (n : N) (acc : string) : string :=
    match fuel with
    | O => acc
    | S fuel =>
        let acc := String (ascii_of_N (48 + n mod 10)%N) acc in
        if (n <? 10)%N then acc else go fuel (n / 10)%N acc
    end in
  go (S (N.to_nat (N.size n))) n "".

Definition repeat_char (a : ascii) (n : nat) : string := l2s (replicate n a).

Definition show_padded (width : nat) (z : Z) : string :=
  let body := show_N (Z.abs_N z) in
  let sign := if (z <? 0)%Z then "-" else "" in
  sign +:+ repeat_char "0" (width - String.length sign - String.length body) +:+ body.

Definition hex_digit (n : nat) : ascii :=
  if (n <? 10)%nat then ascii_of_nat (48 + n) else ascii_of_nat (87 + n).

(** [{byte:02x}]. *)
Definition show_hex_byte (a : ascii) : string :=
  String (hex_digit (nat_of_ascii a / 16)) (String (hex_digit (nat_of_ascii a mod 16)) "").

(** [str::replace]: the non-overlapping occurrences from the left; [skip] counts
    the bytes of an occurrence still to be passed over. *)
Fixpoint replace_l (pat rep : bytes) (skip : nat) (l : bytes) : bytes :=
  match l with
  | [] => []
  | a :: l' =>
      match skip with
      | S skip => replace_l pat rep skip l'
      | O =>
          if is_some (strip_prefix_l pat l)
          then (rep ++ replace_l pat rep (length pat - 1) l')%list
          else a :: replace_l pat rep 0 l'
      end
  end.

(** For a pattern that is not empty. *)
Definition replace (s pat rep : string) : string := l2s (replace_l (s2l pat) (s2l rep) 0 (s2l s)).

Lemma s2l_app s t : s2l (s +:+ t) = (s2l s ++ s2l t)%list.
Proof. induction s as [|c s IH]; [done|]. exact (f_equal (cons c) IH). Qed.

(** Nothing is replaced where the first byte of the pattern does not occur. *)
Lemma replace_l_absent a pat rep l :
  forallb (fun b => negb (Ascii.eqb a b)) l = true -> replace_l (a :: pat) rep 0 l = l.
Proof.
  induction l as [|b l IH]; cbn [forallb replace_l]; [done|].
  intros [Hb Hl]%andb_prop. cbn [strip_prefix_l].
  apply negb_true_iff in Hb. rewrite Hb. cbn. by rewrite IH.
Qed.

(** What follows the first occurrence of [p]:
    [s.find(p).map(|i| &s[i + p.len()..])]. *)
Fixpoint after_first_l (p l : bytes) : option bytes :=
  match strip_prefix_l p l with
  | Some r => Some r
  | None => match l with [] => None | _ :: l => after_first_l p l end
  end.

Definition after_first (s p : string) : option string := l2s <$> after_first_l (s2l p) (s2l s).

(** [str::trim_start_matches] with an ASCII character. *)
Fixpoint trim_start_matches_l (c : ascii) (l : bytes) : bytes :=
  match l with
  | a :: l' => if Ascii.eqb a c then trim_start_matches_l c l' else l
  | [] => []
  end.

Definition trim_start_matches (s : string) (c : ascii) : string :=
  l2s (trim_start_matches_l c (s2l s)).

(** ** Characters *)

(** [chars().count()]: every character of a valid string has one byte that is
    not a continuation byte, its first. *)
Definition char_count (s : string) : nat :=
  length (filter (fun a => is_continuation a = false) (s2l s)).

(** [chars().skip(n)]. *)
Fixpoint skip_chars_l (n : nat) (l : bytes) : bytes :=
  match l with
  | [] => []
  | a :: l' =>
      if is_continuation a then skip_chars_l n l' else
      match n with O => l | S n => skip_chars_l n l' end
  end.

Definition skip_chars (n : nat) (s : string) : string := l2s (skip_chars_l n (s2l s)).

(** [format!("{byte:02x}")] of each byte. *)
Definition show_hex (l : bytes) : string := fold_left (fun out a => out +:+ show_hex_byte a) l EmptyString.

Lemma len_s2l s : len s = length (s2l s).
Proof. unfold len, s2l. induction s; [done|]. cbn. by f_equal. Qed.

Lemma len_app s t : len (s +:+ t) = len s + len t.
Proof. by rewrite !len_s2l, s2l_app, length_app. Qed.

Lemma len_show_hex l : len (show_hex l) = 2 * length l.
Proof.
  unfold show_hex. change (2 * length l) with (len EmptyString + 2 * length l).
  generalize EmptyString. induction l as [|a l IH]; intros s; cbn [fold_left length]; [lia|].
  rewrite IH, len_app. change (len (show_hex_byte a)) with 2. lia.
Qed.
