(* ===== verification/F64.v ===== *)
(** * [f64]

    IEEE 754 binary64 numbers, as the executable [SpecFloat] specification of
    the Rocq core library with 53 bits of precision and exponent bound 1024.
    Additions, subtractions, products and quotients round to nearest, ties to
    even, as Rust's do; comparisons with a NaN are false.

    [f64::max] and [f64::min] return the other argument when one is a NaN; on
    two zeros of different sign Rust leaves the choice open, and here the first
    argument is returned. *)

From Stdlib Require Import ZArith Lia Floats.SpecFloat.
From stdpp Require Import base tactics.
From S2P Require Import Prelude.

Local Open Scope Z_scope.

Definition f64 : Type := spec_float.

Module F64.
Definition prec : Z := 53.
Definition emax : Z := 1024.

Definition add (x y : f64) : f64 := SFadd prec emax x y.
Definition sub (x y : f64) : f64 := SFsub prec emax x y.
Definition mul (x y : f64) : f64 := SFmul prec emax x y.
Definition div (x y : f64) : f64 := SFdiv prec emax x y.

Definition ltb (x y : f64) : bool := SFltb x y.
Definition leb (x y : f64) : bool := SFleb x y.
Definition gtb (x y : f64) : bool := SFltb y x.
Definition geb (x y : f64) : bool := SFleb y x.
Definition eqb (x y : f64) : bool := SFeqb x y.

(** [partial_cmp]. *)
Definition partial_cmp (x y : f64) : option comparison := SFcompare x y.

Definition is_nan (x : f64) : bool := match x with S754_nan => true | _ => false end.
Definition is_finite (x : f64) : bool :=
  match x with S754_zero _ | S754_finite _ _ _ => true | _ => false end.

Definition max (x y : f64) : f64 :=
  if is_nan x then y else if is_nan y then x else if ltb x y then y else x.
Definition min (x y : f64) : f64 :=
  if is_nan x then y else if is_nan y then x else if ltb y x then y else x.

(** [f64::clamp]; a NaN is returned unchanged. *)
Definition clamp (x lo hi : f64) : f64 :=
  if ltb x lo then lo else if ltb hi x then hi else x.

(** [n as f64] for an integer: rounded to nearest. *)
Definition of_Z (n : Z) : f64 := binary_normalize prec emax n 0 false.

(** The integer part of a finite number, towards zero. *)
Definition trunc (x : f64) : Z :=
  match x with
  | S754_finite s m e =>
      let a := if 0 <=? e then Zpos m * 2 ^ e else Zpos m / 2 ^ (- e) in
      if s then - a else a
  | _ => 0
  end.

(** [x as u64]: truncated and saturating, a NaN gives 0. *)
Definition to_u64 (x : f64) : Z :=
  match x with
  | S754_nan => 0
  | S754_infinity s => if s then 0 else U64_MAX
  | _ => Z.max 0 (Z.min U64_MAX (trunc x))
  end.

Definition zero : f64 := S754_zero false.
Definition one : f64 := of_Z 1.
Definition ten : f64 := of_Z 10.
Definition hundred : f64 := of_Z 100.
Definition infinity : f64 := S754_infinity false.

(** Neither a NaN nor below zero. *)
Definition nonneg (x : f64) : bool := leb zero x.
End F64.

(** ** Signs *)

Lemma nonneg_spec x :
  F64.nonneg x = true <->
  x = S754_zero true \/ x = S754_zero false \/ x = S754_infinity false
  \/ exists m e, x = S754_finite false m e.
Proof.
  unfold F64.nonneg, F64.leb, SFleb, F64.zero.
  destruct x as [[]|[]| |[] m e]; simpl; split; intros H; try done; naive_solver.
Qed.

Lemma nonneg_not_nan x : F64.nonneg x = true -> F64.is_nan x = false.
Proof. destruct x; done. Qed.

Lemma nonneg_max_zero x : F64.nonneg (F64.max x F64.zero) = true.
Proof. destruct x as [[]|[]| |[] m e]; reflexivity. Qed.

Lemma max_zero_id x : F64.nonneg x = true -> F64.max x F64.zero = x.
Proof. destruct x as [[]|[]| |[] m e]; done. Qed.

Lemma iter_pos_invariant {A} (P : A -> Prop) (f : A -> A) :
  (forall x, P x -> P (f x)) -> forall n x, P x -> P (iter_pos f n x).
Proof. intros Hf n; induction n; intros x Hx; simpl; auto. Qed.

Lemma shr_1_nonneg r : 0 <= shr_m r -> 0 <= shr_m (shr_1 r).
Proof. destruct r as [[|[]|[]] ? ?]; simpl; lia. Qed.

Lemma shr_fexp_nonneg prec emax m e l :
  0 <= m -> 0 <= shr_m (fst (shr_fexp prec emax m e l)).
Proof.
  intros Hm. unfold shr_fexp, shr.
  assert (0 <= shr_m (shr_record_of_loc m l)) by (destruct l as [|[]]; done).
  case_match; simpl; try done.
  apply (iter_pos_invariant (fun r => 0 <= shr_m r)); [apply shr_1_nonneg|done].
Qed.

Lemma round_nearest_even_nonneg m l : 0 <= m -> 0 <= round_nearest_even m l.
Proof. intros; destruct l as [|[]]; simpl; try case_match; lia. Qed.

(** Rounding a non-negative mantissa keeps the sign and gives no NaN. *)
Lemma binary_round_aux_nonneg prec emax m e l :
  0 <= m -> F64.nonneg (binary_round_aux prec emax false m e l) = true.
Proof.
  intros Hm. unfold binary_round_aux.
  assert (H1 := shr_fexp_nonneg prec emax m e l Hm).
  destruct (shr_fexp prec emax m e l) as [r e'] eqn:E; simpl in H1.
  assert (H2 := shr_fexp_nonneg prec emax
                  (round_nearest_even (shr_m r) (loc_of_shr_record r)) e' loc_Exact
                  (round_nearest_even_nonneg _ _ H1)).
  destruct (shr_fexp prec emax _ e' loc_Exact) as [r' e'']; simpl in H2.
  destruct (shr_m r'); [reflexivity| |lia]. by case_match.
Qed.

Lemma binary_normalize_nonneg prec emax m e :
  0 <= m -> F64.nonneg (binary_normalize prec emax m e false) = true.
Proof.
  intros Hm. unfold binary_normalize, binary_round. destruct m; [done| |lia].
  destruct (shl_align _ _ _). apply binary_round_aux_nonneg; lia.
Qed.

Lemma add_nonneg x y :
  F64.nonneg x = true -> F64.nonneg y = true -> F64.nonneg (F64.add x y) = true.
Proof.
  intros Hx%nonneg_spec Hy%nonneg_spec. unfold F64.add.
  destruct Hx as [->|[->|[->|(m & e & ->)]]], Hy as [->|[->|[->|(m' & e' & ->)]]]; try done.
  unfold SFadd. apply binary_normalize_nonneg; simpl; lia.
Qed.

Lemma of_Z_nonneg n : 0 <= n -> F64.nonneg (F64.of_Z n) = true.
Proof. apply binary_normalize_nonneg. Qed.

Lemma mul_nonneg_finite x y :
  F64.nonneg x = true -> F64.nonneg y = true -> F64.is_finite x = true -> F64.is_finite y = true ->
  F64.leb F64.zero (F64.mul x y) = true.
Proof.
  intros Hx%nonneg_spec Hy%nonneg_spec. unfold F64.mul.
  destruct Hx as [->|[->|[->|(m & e & ->)]]], Hy as [->|[->|[->|(m' & e' & ->)]]]; try done.
  intros _ _. unfold SFmul. simpl xorb. apply binary_round_aux_nonneg; lia.
Qed.

(** ** Order *)

Lemma compare_refl x : F64.is_nan x = false -> SFcompare x x = Some Eq.
Proof.
  destruct x as [[]|[]| |[] m e]; simpl; try done; intros _;
    rewrite Z.compare_refl; change (Pos.compare_cont Eq m m) with (Pos.compare m m);
    by rewrite Pos.compare_refl.
Qed.

Lemma leb_refl x : F64.is_nan x = false -> F64.leb x x = true.
Proof. intros H. unfold F64.leb, SFleb. by rewrite compare_refl. Qed.

Lemma compare_swap x y :
  SFcompare y x = option_map CompOpp (SFcompare x y).
Proof.
  destruct x as [[]|[]| |[] m e], y as [[]|[]| |[] m' e']; simpl; try done; f_equal;
    rewrite (Z.compare_antisym e e');
    change (Pos.compare_cont Eq) with Pos.compare;
    rewrite (Pos.compare_antisym m m');
    destruct (e ?= e') eqn:?, (Pos.compare m m'); simpl; done.
Qed.

(** On numbers, [x < y] fails exactly when [y <= x] holds. *)
Lemma ltb_false_leb x y :
  F64.is_nan x = false -> F64.is_nan y = false -> F64.ltb x y = false -> F64.leb y x = true.
Proof.
  unfold F64.ltb, SFltb, F64.leb, SFleb. rewrite (compare_swap x y). intros Hx Hy.
  assert (is_Some (SFcompare x y)) as [c ->]
    by (destruct x as [[]|[]| |[] ? ?], y as [[]|[]| |[] ? ?]; simpl in *; eauto; done).
  destruct c; done.
Qed.

Lemma ltb_leb x y : F64.ltb x y = true -> F64.leb x y = true.
Proof. unfold F64.ltb, SFltb, F64.leb, SFleb. destruct (SFcompare x y) as [[]|]; done. Qed.

Lemma compare_number x y :
  F64.is_nan x = false -> F64.is_nan y = false -> is_Some (SFcompare x y).
Proof. destruct x as [[]|[]| |[] ? ?], y as [[]|[]| |[] ? ?]; simpl; eauto; done. Qed.

Lemma leb_total x y :
  F64.is_nan x = false -> F64.is_nan y = false -> F64.leb x y = true \/ F64.leb y x = true.
Proof.
  intros Hx Hy. unfold F64.leb, SFleb. rewrite (compare_swap x y).
  destruct (compare_number x y Hx Hy) as [[] ->]; simpl; auto.
Qed.

Lemma leb_trans x y z : F64.leb x y = true -> F64.leb y z = true -> F64.leb x z = true.
Proof.
  unfold F64.leb, SFleb.
  destruct x as [[]|[]| |[] m1 e1], y as [[]|[]| |[] m2 e2], z as [[]|[]| |[] m3 e3]; simpl;
    try done; change (Pos.compare_cont Eq) with Pos.compare;
    destruct (Z.compare_spec e1 e2), (Z.compare_spec e2 e3), (Z.compare_spec e1 e3);
    try (exfalso; lia); try done;
    destruct (Pos.compare_spec m1 m2), (Pos.compare_spec m2 m3), (Pos.compare_spec m1 m3);
    simpl; try done; exfalso; lia.
Qed.

(** [clamp] stays between its bounds on everything but a NaN. *)
Lemma clamp_bounds x lo hi :
  F64.is_nan x = false -> F64.is_nan lo = false -> F64.is_nan hi = false ->
  F64.leb lo hi = true ->
  F64.leb lo (F64.clamp x lo hi) = true /\ F64.leb (F64.clamp x lo hi) hi = true.
Proof.
  intros Hx Hlo Hhi Hle. unfold F64.clamp.
  destruct (F64.ltb x lo) eqn:E1; [by auto using leb_refl|].
  destruct (F64.ltb hi x) eqn:E2; [by auto using leb_refl|].
  split; by apply ltb_false_leb.
Qed.

#[export] Hint Resolve nonneg_max_zero add_nonneg of_Z_nonneg : kproxy.
