(* ===== verification/Json.v ===== *)
(** * JSON values

    [serde_json::Value] as the proxy uses it.  An object is a [BTreeMap] (the
    crate is built without the feature that keeps insertion order), modelled by
    the list of its entries in key order, which [obj_insert] maintains.  The
    parser and the printer of the crate are not modelled: definitions that call
    them take them as arguments. *)

From Stdlib Require Import ZArith String.
From stdpp Require Import base list strings.
From S2P Require Import Prelude RustStr F64.

Inductive number : Type :=
| PosInt (n : Z)
| NegInt (n : Z)
| Float (x : f64).

Inductive value : Type :=
| Null
| Bool (b : bool)
| Number (n : number)
| Str (s : string)
| Array (l : list value)
| Object (m : list (string * value)).

(** ** Objects *)

Fixpoint obj_get (m : list (string * value)) (k : string) : option value :=
  match m with
  | [] => None
  | (k', v) :: m => if bool_decide (k' = k) then Some v else obj_get m k
  end.

Fixpoint obj_insert (k : string) (v : value) (m : list (string * value)) : list (string * value) :=
  match m with
  | [] => [(k, v)]
  | (k', v') :: m' =>
      match str_cmp k k' with
      | Lt => (k, v) :: m
      | Eq => (k, v) :: m'
      | Gt => (k', v') :: obj_insert k v m'
      end
  end.

(** The object the [json!] macro builds: the entries inserted in turn. *)
Definition json_object (entries : list (string * value)) : value :=
  Object (fold_left (fun m '(k, v) => obj_insert k v m) entries []).

(** ** Accessors *)

(** [Value::get] with a string key. *)
Definition get (v : value) (k : string) : option value :=
  match v with Object m => obj_get m k | _ => None end.

Definition as_str (v : value) : option string :=
  match v with Str s => Some s | _ => None end.

(** [Value::as_u64]: a number stored as an unsigned integer. *)
Definition as_u64 (v : value) : option Z :=
  match v with Number (PosInt n) => Some n | _ => None end.

Definition as_bool (v : value) : option bool :=
  match v with Bool b => Some b | _ => None end.

Definition as_array (v : value) : option (list value) :=
  match v with Array l => Some l | _ => None end.

Definition is_object (v : value) : bool := match v with Object _ => true | _ => false end.
Definition is_null (v : value) : bool := match v with Null => true | _ => false end.

(** [value.get(k).and_then(Value::as_str)]. *)
Definition get_str (v : value) (k : string) : option string :=
  match get v k with Some w => as_str w | None => None end.

(** [Value::pointer] for a path of object keys. *)
Definition pointer (v : value) (path : list string) : option value :=
  fold_left (fun o k => match o with Some w => get w k | None => None end) path (Some v).

(** ** Equality

    [PartialEq] of the crate: numbers of different kinds differ, floating-point
    ones are compared as such. *)

Definition number_eqb (m n : number) : bool :=
  match m, n with
  | PosInt a, PosInt b | NegInt a, NegInt b => Z.eqb a b
  | Float x, Float y => F64.eqb x y
  | _, _ => false
  end.

Fixpoint value_eqb (v w : value) : bool :=
  match v, w with
  | Null, Null => true
  | Bool a, Bool b => Bool.eqb a b
  | Number m, Number n => number_eqb m n
  | Str s, Str t => String.eqb s t
  | Array l, Array k =>
      (fix array_eqb l k :=
         match l, k with
         | [], [] => true
         | x :: l, y :: k => value_eqb x y && array_eqb l k
         | _, _ => false
         end) l k
  | Object l, Object k =>
      (fix object_eqb l k :=
         match l, k with
         | [], [] => true
         | (a, x) :: l, (b, y) :: k => String.eqb a b && value_eqb x y && object_eqb l k
         | _, _ => false
         end) l k
  | _, _ => false
  end.

(** ** Lemmas *)

Lemma cmp_l_refl l : cmp_l l l = Eq.
Proof. induction l as [|a l IH]; simpl; [done|]. by rewrite Z.compare_refl. Qed.

Lemma code_inj a b : code a = code b -> a = b.
Proof.
  intros H%Nat2Z.inj. rewrite <- (Ascii.ascii_nat_embedding a), H.
  apply Ascii.ascii_nat_embedding.
Qed.

Lemma cmp_l_eq k l : cmp_l k l = Eq -> k = l.
Proof.
  revert l; induction k as [|a k IH]; intros [|b l]; simpl; try done.
  destruct (Z.compare_spec (code a) (code b)) as [E|E|E]; try done.
  intros H%IH. apply code_inj in E. congruence.
Qed.

Lemma str_cmp_eq s t : str_cmp s t = Eq <-> s = t.
Proof.
  unfold str_cmp; split; [intros H%cmp_l_eq; by apply s2l_inj|intros ->; apply cmp_l_refl].
Qed.

Lemma obj_get_insert_eq m k v : obj_get (obj_insert k v m) k = Some v.
Proof.
  induction m as [|[k' v'] m IH]; simpl; [by rewrite bool_decide_true|].
  destruct (str_cmp k k') eqn:E; simpl; try by rewrite bool_decide_true.
  rewrite bool_decide_false; [done|]. intros ->. by rewrite (proj2 (str_cmp_eq k k)) in E.
Qed.

Lemma obj_get_insert_ne m k v k' : k <> k' -> obj_get (obj_insert k v m) k' = obj_get m k'.
Proof.
  intros Hne; induction m as [|[k1 v1] m IH]; simpl; [by rewrite bool_decide_false|].
  destruct (str_cmp k k1) eqn:E; simpl.
  - apply str_cmp_eq in E; subst. by rewrite !bool_decide_false.
  - by rewrite (bool_decide_false (k = k')).
  - by rewrite IH.
Qed.
