(* ===== verification/Protocol.v ===== *)
(** * Wire models

    The request types of [kproxy-translate/src/protocol.rs]: what Claude
    and OpenAI clients send, what the proxy sends to Kiro, and the operations of
    [KiroPayload] on its history. *)

From Stdlib Require Import ZArith String.
From stdpp Require Import base list strings.
From S2P Require Import Prelude RustStr F64 Json.

Local Open Scope string_scope.
Local Open Scope list_scope.

(** [matches_type_family]: an unversioned type or a [base_...] member. *)
Definition matches_type_family (kind base : string) : bool :=
  bool_decide (kind = base)
  || is_some_and (strip_prefix kind base) (fun suffix => starts_with suffix "_").

Record ThinkingConfig := {
  tc_type : string;
  tc_budget_tokens : option Z;
  tc_display : option string;
}.

(** ** Claude requests *)

Record ClaudeOutputConfig := { oc_effort : option string; oc_extra : list (string * value) }.

Record ClaudeMessage := {
  cm_role : string;
  cm_content : value;
  cm_cache_control : option value;
  cm_output_config : option ClaudeOutputConfig;
  cm_extra : list (string * value);
}.

Definition cm_set_content (m : ClaudeMessage) (v : value) : ClaudeMessage :=
  {| cm_role := cm_role m; cm_content := v; cm_cache_control := cm_cache_control m;
     cm_output_config := cm_output_config m; cm_extra := cm_extra m |}.

Record ClaudeTool := {
  ct_type : option string;
  ct_name : string;
  ct_description : string;
  ct_input_schema : value;
  ct_cache_control : option value;
  ct_strict : option bool;
  ct_input_examples : option (list value);
  ct_defer_loading : bool;
  ct_allowed_callers : option (list string);
  ct_eager_input_streaming : option bool;
  ct_max_uses : option Z;
  ct_allowed_domains : option (list string);
  ct_blocked_domains : option (list string);
  ct_user_location : option value;
  ct_response_inclusion : option string;
  ct_extra : list (string * value);
}.

Record ClaudeToolChoice := {
  tch_type : string;
  tch_name : option string;
  tch_disable_parallel_tool_use : bool;
}.

Record ClaudeRequest := {
  rq_model : string;
  rq_messages : list ClaudeMessage;
  rq_max_tokens : Z;
  rq_temperature : option f64;
  rq_top_p : option f64;
  rq_top_k : option Z;
  rq_stop_sequences : list string;
  rq_stream : bool;
  rq_system : option value;
  rq_tools : list ClaudeTool;
  rq_tool_choice : option ClaudeToolChoice;
  rq_thinking : option ThinkingConfig;
  rq_output_config : option ClaudeOutputConfig;
  rq_cache_control : option value;
  rq_service_tier : option string;
  rq_metadata : option value;
  rq_conversation_id : option string;
  rq_context_management : option value;
  rq_extra : list (string * value);
}.

(** A request with other messages and another output configuration. *)
Definition rq_set (r : ClaudeRequest) (messages : list ClaudeMessage)
    (output_config : option ClaudeOutputConfig) : ClaudeRequest :=
  {| rq_model := rq_model r; rq_messages := messages; rq_max_tokens := rq_max_tokens r;
     rq_temperature := rq_temperature r; rq_top_p := rq_top_p r; rq_top_k := rq_top_k r;
     rq_stop_sequences := rq_stop_sequences r; rq_stream := rq_stream r;
     rq_system := rq_system r; rq_tools := rq_tools r; rq_tool_choice := rq_tool_choice r;
     rq_thinking := rq_thinking r; rq_output_config := output_config;
     rq_cache_control := rq_cache_control r; rq_service_tier := rq_service_tier r;
     rq_metadata := rq_metadata r; rq_conversation_id := rq_conversation_id r;
     rq_context_management := rq_context_management r; rq_extra := rq_extra r |}.

Definition rq_set_messages (r : ClaudeRequest) (messages : list ClaudeMessage) : ClaudeRequest :=
  rq_set r messages (rq_output_config r).

Definition rq_set_tools (r : ClaudeRequest) (tools : list ClaudeTool) : ClaudeRequest :=
  {| rq_model := rq_model r; rq_messages := rq_messages r; rq_max_tokens := rq_max_tokens r;
     rq_temperature := rq_temperature r; rq_top_p := rq_top_p r; rq_top_k := rq_top_k r;
     rq_stop_sequences := rq_stop_sequences r; rq_stream := rq_stream r;
     rq_system := rq_system r; rq_tools := tools; rq_tool_choice := rq_tool_choice r;
     rq_thinking := rq_thinking r; rq_output_config := rq_output_config r;
     rq_cache_control := rq_cache_control r; rq_service_tier := rq_service_tier r;
     rq_metadata := rq_metadata r; rq_conversation_id := rq_conversation_id r;
     rq_context_management := rq_context_management r; rq_extra := rq_extra r |}.

(** ** OpenAI Chat Completions *)

Record OpenAiMessage := {
  om_role : string;
  om_content : option value;
  om_tool_calls : list value;
  om_tool_call_id : option string;
  om_reasoning_content : option string;
  om_refusal : option string;
  om_name : option string;
  om_cache_control : option value;
}.

Record OpenAiTool := {
  ot_type : string;
  ot_body : value;
}.

Record OpenAiRequest := {
  oa_model : string;
  oa_messages : list OpenAiMessage;
  oa_temperature : option f64;
  oa_top_p : option f64;
  oa_max_tokens : option Z;
  oa_max_completion_tokens : option Z;
  oa_stream : bool;
  oa_stop : option value;
  oa_n : option Z;
  oa_legacy_functions : bool;
  oa_stream_options : option value;
  oa_tools : list OpenAiTool;
  oa_tool_choice : option value;
  oa_parallel_tool_calls : bool;
  oa_thinking : option ThinkingConfig;
  oa_reasoning_effort : option string;
  oa_conversation_id : option string;
  oa_metadata : option value;
  oa_response_format : option value;
}.

Definition output_token_limit (r : OpenAiRequest) : option Z :=
  or_else (oa_max_completion_tokens r) (oa_max_tokens r).

Definition stop_sequences (r : OpenAiRequest) : list string :=
  match oa_stop r with
  | Some (Str text) => [text]
  | Some (Array values) => omap as_str values
  | _ => []
  end.

(** ** Kiro payloads *)

Record KiroImage := { img_format : string; img_bytes : string }.

Record KiroDocument := {
  doc_format : string;
  doc_name : string;
  doc_bytes : string;
  doc_citations_enabled : option bool;
}.

Record KiroCachePoint := { cp_type : string }.

Definition KiroCachePoint_new : KiroCachePoint := {| cp_type := "default" |}.

Record KiroEnvState := {
  env_current_working_directory : option string;
  env_operating_system : option string;
}.

Record KiroText := { kt_text : string }.

Record KiroToolResult := {
  tr_content : list KiroText;
  tr_status : string;
  tr_tool_use_id : string;
}.

Record KiroToolSpecification := {
  ts_name : string;
  ts_description : string;
  ts_input_schema : value;
}.

Inductive KiroTool :=
| Specification (tool_specification : KiroToolSpecification)
| CachePoint (cache_point : KiroCachePoint).

Definition specification (t : KiroTool) : option KiroToolSpecification :=
  match t with Specification s => Some s | CachePoint _ => None end.

Definition tool_cache_point (t : KiroTool) : option KiroCachePoint :=
  match t with CachePoint c => Some c | Specification _ => None end.

Record KiroMessageContext := {
  ctx_tool_results : list KiroToolResult;
  ctx_tools : list KiroTool;
  ctx_env_state : option KiroEnvState;
}.

Definition KiroMessageContext_default : KiroMessageContext :=
  {| ctx_tool_results := []; ctx_tools := []; ctx_env_state := None |}.

Record KiroUserInputMessage := {
  um_content : string;
  um_model_id : string;
  um_origin : string;
  um_images : list KiroImage;
  um_documents : list KiroDocument;
  um_cache_point : option KiroCachePoint;
  um_client_cache_config : option value;
  um_context : option KiroMessageContext;
}.

Record KiroToolUse := {
  tu_tool_use_id : string;
  tu_name : string;
  tu_input : value;
}.

Record KiroAssistantMessage := {
  am_content : string;
  am_cache_point : option KiroCachePoint;
  am_tool_uses : list KiroToolUse;
}.

Record KiroHistoryMessage := {
  hm_user : option KiroUserInputMessage;
  hm_assistant : option KiroAssistantMessage;
}.

Record KiroConversationState := {
  cs_agent_continuation_id : option string;
  cs_agent_task_type : option string;
  cs_chat_trigger_type : string;
  cs_conversation_id : string;
  cs_current_message : KiroUserInputMessage;
  cs_history : list KiroHistoryMessage;
}.

Record KiroInferenceConfig := {
  ic_max_tokens : option Z;
  ic_temperature : option f64;
  ic_top_p : option f64;
}.

Record ModelRequestIntent := {
  mi_requested_model : string;
  mi_thinking : option ThinkingConfig;
  mi_effort : option string;
  mi_automatic_history_truncation : bool;
}.

Definition ModelRequestIntent_default : ModelRequestIntent :=
  {| mi_requested_model := ""; mi_thinking := None; mi_effort := None;
     mi_automatic_history_truncation := false |}.

Record KiroPayload := {
  p_conversation_state : KiroConversationState;
  p_profile_arn : option string;
  p_inference_config : option KiroInferenceConfig;
  p_additional_model_request_fields : option value;
  p_model_request_intent : option ModelRequestIntent;
  p_protected_history_messages : nat;
}.

(** ** Field updates *)

Definition um_set_context (u : KiroUserInputMessage) (c : option KiroMessageContext) :=
  {| um_content := um_content u; um_model_id := um_model_id u; um_origin := um_origin u;
     um_images := um_images u; um_documents := um_documents u;
     um_cache_point := um_cache_point u; um_client_cache_config := um_client_cache_config u;
     um_context := c |}.

Definition um_set_content (u : KiroUserInputMessage) (s : string) :=
  {| um_content := s; um_model_id := um_model_id u; um_origin := um_origin u;
     um_images := um_images u; um_documents := um_documents u;
     um_cache_point := um_cache_point u; um_client_cache_config := um_client_cache_config u;
     um_context := um_context u |}.

Definition cs_set_messages (s : KiroConversationState) (cur : KiroUserInputMessage)
    (history : list KiroHistoryMessage) :=
  {| cs_agent_continuation_id := cs_agent_continuation_id s;
     cs_agent_task_type := cs_agent_task_type s;
     cs_chat_trigger_type := cs_chat_trigger_type s;
     cs_conversation_id := cs_conversation_id s;
     cs_current_message := cur; cs_history := history |}.

Definition p_set_state (p : KiroPayload) (s : KiroConversationState) :=
  {| p_conversation_state := s; p_profile_arn := p_profile_arn p;
     p_inference_config := p_inference_config p;
     p_additional_model_request_fields := p_additional_model_request_fields p;
     p_model_request_intent := p_model_request_intent p;
     p_protected_history_messages := p_protected_history_messages p |}.

Definition p_set_fields (p : KiroPayload) (f : option value) :=
  {| p_conversation_state := p_conversation_state p; p_profile_arn := p_profile_arn p;
     p_inference_config := p_inference_config p;
     p_additional_model_request_fields := f;
     p_model_request_intent := p_model_request_intent p;
     p_protected_history_messages := p_protected_history_messages p |}.

(** ** [KiroPayload] *)

Definition history (p : KiroPayload) : list KiroHistoryMessage :=
  cs_history (p_conversation_state p).

Definition p_set_history (p : KiroPayload) (h : list KiroHistoryMessage) : KiroPayload :=
  p_set_state p
    (cs_set_messages (p_conversation_state p) (cs_current_message (p_conversation_state p)) h).

Definition max_output_tokens (p : KiroPayload) : option Z :=
  p_inference_config p ≫= ic_max_tokens.

Definition thinking_summary_omitted (p : KiroPayload) : bool :=
  bool_decide
    (((p_model_request_intent p ≫= mi_thinking) ≫= tc_display) = Some "omitted").

Definition thinking_enabled (p : KiroPayload) : bool :=
  match p_additional_model_request_fields p with
  | None => false
  | Some fields =>
      match pointer fields ["thinking"; "type"] ≫= as_str with
      | Some kind => bool_decide (kind = "adaptive") || bool_decide (kind = "enabled")
      | None => false
      end
      || is_some_and (pointer fields ["reasoning"; "effort"] ≫= as_str)
           (fun effort => negb (bool_decide (effort = "none")))
  end.

Definition protected_history_len (p : KiroPayload) : nat :=
  Nat.min (p_protected_history_messages p) (length (history p)).

(** Removes compactable history while retaining the proxy-owned prefix. *)
Definition retain_protected_history (p : KiroPayload) : KiroPayload :=
  p_set_history p (take (protected_history_len p) (history p)).

(** Applies an internal history bound without discarding the protected prefix. *)
Definition truncate_history_preserving_protected_prefix (p : KiroPayload) (maximum : nat) :
    KiroPayload :=
  let history_len := length (history p) in
  if (history_len <=? maximum)%nat then p else
  let protected := protected_history_len p in
  let recent_capacity := maximum - protected in
  let recent_start := Nat.max (history_len - recent_capacity) protected in
  let recent := drop recent_start (history p) in
  p_set_history p (take protected (take recent_start (history p)) ++ recent).

(** ** Lemmas *)

Lemma history_set p h : history (p_set_history p h) = h.
Proof. done. Qed.

(** The truncated history is the protected prefix followed by the most recent
    messages that fit. *)
Lemma truncate_history_shape p n :
  n < length (history p) ->
  history (truncate_history_preserving_protected_prefix p n) =
    take (protected_history_len p) (history p)
    ++ drop (length (history p) - (n - protected_history_len p)) (history p).
Proof.
  intros Hn. unfold truncate_history_preserving_protected_prefix.
  rewrite (proj2 (Nat.leb_gt _ _)) by done. rewrite history_set.
  assert (protected_history_len p <= length (history p)) by (unfold protected_history_len; lia).
  rewrite take_take. f_equal; [f_equal; lia|].
  f_equal; lia.
Qed.
