(* ===== verification/Model.v ===== *)
(** * Model resolution, mapping and thinking controls

    [kproxy-translate/src/model.rs].  The clock, the local time zone of
    [localtime_r] and the weighted choice of the [rand] crate are arguments. *)

From Stdlib Require Import ZArith Lia Ascii String.
From stdpp Require Import base list strings.
From S2P Require Import Prelude RustStr F64 Json Protocol.

Local Open Scope string_scope.
Local Open Scope list_scope.

(** ** Names *)

Definition is_separator (a : ascii) : bool := is_char "_" a || is_char "." a.

Definition non_empty_parts (l : list string) : list string :=
  filter (fun part => is_empty part = false) l.

Definition strip_discovery_prefix (model : string) : string :=
  if (String.length model <? 10)%nat then model
  else if eq_ignore_ascii_case (String.substring 0 10 model) "anthropic."
  then String.substring 10 (String.length model - 10) model
  else model.

(** [version.strip_prefix('-')], or the string itself. *)
Definition strip_dash (s : string) : string := unwrap_or (strip_prefix s "-") s.

Definition all_bytes (f : ascii -> bool) (s : string) : bool := forallb f (s2l s).
Definition any_byte (f : ascii -> bool) (s : string) : bool := existsb f (s2l s).

Definition dashed (s : string) : string := join "-" (non_empty_parts (split s (is_char "-"))).

(** Tries the Claude families in order, as the [for] loop does. *)
Fixpoint expand_family (alias : string) (families : list string) : option string :=
  match families with
  | [] => None
  | family :: families =>
      match strip_prefix alias family with
      | None => expand_family alias families
      | Some version =>
          let version := strip_dash version in
          if is_empty version
             || negb (all_bytes (fun a => is_ascii_digit a || is_char "-" a || is_char "." a)
                        version)
             || negb (any_byte is_ascii_digit version)
          then None
          else Some ("claude-" +:+ family +:+ "-"
                     +:+ dashed (replace_chars version (is_char ".") "-"))
      end
  end.

Definition expand_compact_claude_alias (normalized : string) : option string :=
  let alias :=
    unwrap_or (or_else (strip_prefix normalized "claude-") (strip_prefix normalized "claude"))
      normalized in
  expand_family alias ["opus"; "sonnet"; "haiku"].

Definition normalize_model_name (model : string) : string :=
  let normalized :=
    dashed (replace_chars (to_ascii_lowercase (trim model)) is_separator "-") in
  unwrap_or (expand_compact_claude_alias normalized) normalized.

Definition prefix_version_match (longer shorter : string) : bool :=
  match strip_prefix longer shorter with
  | None => false
  | Some rest =>
      is_empty rest
      || match strip_prefix rest "-" with
         | Some rest => is_some_and (head (s2l rest)) is_ascii_digit
         | None => false
         end
  end.

(** The parts in front of the first one that starts with a digit, and the
    numeric parts from there on. *)
Definition starts_with_digit (part : string) : bool := is_some_and (head (s2l part)) is_ascii_digit.

Fixpoint take_while {A : Type} (f : A -> bool) (l : list A) : list A :=
  match l with
  | [] => []
  | x :: l => if f x then x :: take_while f l else []
  end.

Definition model_family (model : string) : option (string * list Z) :=
  let parts := split (normalize_model_name model) (is_char "-") in
  match position starts_with_digit parts with
  | None => None
  | Some 0 => None
  | Some first_version =>
      let family := join "-" (take first_version parts) in
      let version :=
        omap (parse_unsigned U32_MAX)
          (take_while (all_bytes is_ascii_digit) (drop first_version parts)) in
      match version with [] => None | _ => Some (family, version) end
  end.

(** Lexicographic, the shorter version padded with zeros. *)
Fixpoint compare_padded (ys : list Z) : comparison :=
  match ys with
  | [] => Eq
  | y :: ys => match Z.compare 0 y with Eq => compare_padded ys | c => c end
  end.

Fixpoint compare_version (xs ys : list Z) : comparison :=
  match xs, ys with
  | [], ys => compare_padded ys
  | x :: xs, [] => match Z.compare x 0 with Eq => compare_version xs [] | c => c end
  | x :: xs, y :: ys => match Z.compare x y with Eq => compare_version xs ys | c => c end
  end.

Definition then_with (c d : comparison) : comparison := match c with Eq => d | _ => c end.

Definition len_cmp (s t : string) : comparison := Nat.compare (String.length s) (String.length t).

Definition model_tokens (model : string) : list string :=
  filter (fun token => is_empty token = false /\ token <> "latest" /\ token <> "model")
    (split (to_ascii_lowercase model) (fun a => negb (is_ascii_alphanumeric a))).

Definition mem (s : string) (l : list string) : bool := bool_decide (s ∈ l).

Definition CLAUDE_FAMILIES : list string := ["opus"; "sonnet"; "haiku"].

Definition token_model_match (requested candidate : string) : bool :=
  let requested := model_tokens requested in
  let candidate := model_tokens candidate in
  match requested with
  | [] => false
  | _ =>
      forallb (fun token => mem token candidate) requested
      && forallb (fun family => eqb (mem family requested) (mem family candidate))
           CLAUDE_FAMILIES
  end.

Definition compare_token_matches (left right : string) : comparison :=
  let by_length := then_with (len_cmp right left) (str_cmp left right) in
  match model_family left, model_family right with
  | Some (left_family, left_version), Some (right_family, right_version) =>
      if bool_decide (left_family = right_family)
      then then_with (compare_version left_version right_version) by_length
      else by_length
  | _, _ => by_length
  end.

Definition compare_prefixed (left right : string) : comparison :=
  let by_name := str_cmp (normalize_model_name left) (normalize_model_name right) in
  match model_family left, model_family right with
  | Some (left_family, left_version), Some (right_family, right_version) =>
      if bool_decide (left_family = right_family)
      then compare_version left_version right_version
      else by_name
  | _, _ => by_name
  end.

(** ** Resolution against the models of an account *)

Definition find_first (f : string -> bool) (l : list string) : option string :=
  head (filter (fun x => f x = true) l).

Definition prefix_alias (requested candidate : string) : bool :=
  let normalized := normalize_model_name candidate in
  prefix_version_match requested normalized || prefix_version_match normalized requested.

(** The candidates of the requested family, with their versions. *)
Definition family_candidates (family : string) (available : list string) :
    list (list Z * string) :=
  omap (fun candidate =>
          match model_family candidate with
          | Some (candidate_family, version) =>
              if bool_decide (candidate_family = family) then Some (version, candidate) else None
          | None => None
          end) available.

Definition resolve_dynamic_model (model : string) (available : list string) : option string :=
  match available with
  | [] => None
  | _ =>
  match find_first (fun candidate => eq_ignore_ascii_case candidate model) available with
  | Some exact => Some exact
  | None =>
  let model := strip_discovery_prefix model in
  let requested := normalize_model_name model in
  match find_first (fun candidate => bool_decide (normalize_model_name candidate = requested))
          available with
  | Some exact => Some exact
  | None =>
  match max_by compare_prefixed
          (filter (fun candidate => prefix_alias requested candidate = true) available) with
  | Some candidate => Some candidate
  | None =>
  match max_by compare_token_matches
          (filter (fun candidate => token_model_match model candidate = true) available) with
  | Some candidate => Some candidate
  | None =>
  match model_family model with
  | None => None
  | Some (family, _) =>
      snd <$> max_by (fun left right => compare_version left.1 right.1)
                (family_candidates family available)
  end end end end end end.

Definition can_resolve_dynamic_model (model : string) (available : list string) : bool :=
  is_some (resolve_dynamic_model model available).

Definition claude_discovery_model_id (model : string) : string :=
  let lower := to_ascii_lowercase model in
  if contains lower "claude" || contains lower "anthropic" then model
  else "anthropic." +:+ model.

(** ** Mapping rules *)

Record ModelMappingSchedule := {
  sch_mode : string;
  sch_days_of_week : option (list Z);
  sch_days : option (list string);
  sch_start_minutes : option Z;
  sch_start : option string;
  sch_end_minutes : option Z;
  sch_end : option string;
  sch_start_at : option Z;
  sch_end_at : option Z;
}.

Record ModelMappingRule := {
  r_name : string;
  r_enabled : bool;
  r_kind : string;
  r_source_models : list string;
  r_target_models : list string;
  r_providers : list string;
  r_service_ids : list string;
  r_priority : Z;
  r_weights : option (list Z);
  r_max_remaining_credit_percent : option f64;
  r_api_key_ids : option (list string);
  r_schedule : option ModelMappingSchedule;
}.

Record ModelRoute := {
  route_original : string;
  route_mapped : string;
  route_rule : option string;
  route_rule_index : option nat;
}.

Record ModelMappingContext := {
  c_provider_id : string;
  c_service_id : option string;
  c_api_key_id : option string;
  c_remaining_percent : option f64;
}.

(** One [*]: the text before it is a prefix and the text behind it a suffix. *)
Definition glob (pattern value : string) : bool :=
  if bool_decide (pattern = "*") then true else
  match split_once pattern "*" with
  | Some (prefix, suffix) => starts_with value prefix && ends_with value suffix
  | None => eq_ignore_ascii_case pattern value
  end.

Definition model_glob_matches (pattern model : string) : bool := glob pattern model.

Definition parse_clock (value : string) : option Z :=
  match split_once value ":" with
  | None => None
  | Some (hour, minute) =>
      match parse_unsigned 65535 hour, parse_unsigned 65535 minute with
      | Some hour, Some minute =>
          if ((hour <? 24) && (minute <? 60))%Z then Some (hour * 60 + minute)%Z else None
      | _, _ => None
      end
  end.

Definition parse_weekday (value : string) : option Z :=
  let day := to_ascii_lowercase (trim value) in
  if mem day ["sun"; "sunday"] then Some 0%Z
  else if mem day ["mon"; "monday"] then Some 1%Z
  else if mem day ["tue"; "tues"; "tuesday"] then Some 2%Z
  else if mem day ["wed"; "wednesday"] then Some 3%Z
  else if mem day ["thu"; "thur"; "thurs"; "thursday"] then Some 4%Z
  else if mem day ["fri"; "friday"] then Some 5%Z
  else if mem day ["sat"; "saturday"] then Some 6%Z
  else None.

Definition schedule_mode (s : ModelMappingSchedule) : string :=
  if bool_decide (sch_mode s = "always")
     && (is_some (sch_start s) || is_some (sch_end s) || is_some (sch_start_minutes s)
         || is_some (sch_end_minutes s) || is_some (sch_days s) || is_some (sch_days_of_week s))
  then "daily"
  else if bool_decide (sch_mode s = "always")
          && (is_some (sch_start_at s) || is_some (sch_end_at s))
  then "range"
  else sch_mode s.

(** The daily window, which may wrap over midnight. *)
Definition in_daily_window (start finish minutes : Z) : bool :=
  if (start <=? finish)%Z then ((start <=? minutes) && (minutes <? finish))%Z
  else ((start <=? minutes) || (minutes <? finish))%Z.

Definition schedule_active_at (s : ModelMappingSchedule) (timestamp_ms day minutes : Z) : bool :=
  let mode := schedule_mode s in
  if bool_decide (mode = "range") then
    is_none_or (sch_start_at s) (fun start => (start <=? timestamp_ms)%Z)
    && is_none_or (sch_end_at s) (fun finish => (timestamp_ms <=? finish)%Z)
  else if bool_decide (mode = "daily") then
    let configured_days :=
      or_else (sch_days_of_week s) (option_map (fun days => omap parse_weekday days) (sch_days s)) in
    if is_some_and configured_days
         (fun days => match days with [] => false | _ => negb (bool_decide (day ∈ days)) end)
    then false
    else
      match or_else (sch_start_minutes s) (sch_start s ≫= parse_clock),
            or_else (sch_end_minutes s) (sch_end s ≫= parse_clock) with
      | Some start, Some finish => in_daily_window start finish minutes
      | _, _ => true
      end
  else true.

Definition utc_day_and_minutes (timestamp : Z) : Z * Z :=
  let seconds := (timestamp mod 86400)%Z in
  let days := (timestamp / 86400)%Z in
  (((days + 4) mod 7)%Z, (seconds / 60)%Z).

Section Mapping.
(** The clock in Unix milliseconds, the local weekday and minute of a Unix
    second, and the draw of a weighted index. *)
Context (now_ms : Z) (local_day_and_minutes : Z -> Z * Z)
        (weighted_index : list Z -> option nat).

Definition schedule_active (schedule : option ModelMappingSchedule) : bool :=
  match schedule with
  | None => true
  | Some s =>
      let '(day, minutes) := local_day_and_minutes (Z.quot now_ms 1000) in
      schedule_active_at s now_ms day minutes
  end.

Definition choose_target (rule : ModelMappingRule) : option string :=
  match r_target_models rule with
  | [] => None
  | first :: others =>
      if negb (bool_decide (r_kind rule = "loadbalance"))
         || match others with [] => true | _ => false end
      then Some first
      else
        let targets := first :: others in
        let weights :=
          match r_weights rule with
          | Some weights =>
              if (length weights =? length targets)%nat then weights
              else replicate (length targets) 1%Z
          | None => replicate (length targets) 1%Z
          end in
        match weighted_index weights with
        | Some i => targets !! i
        | None => None
        end
  end.

(** The conditions under which the loop does not [continue]. *)
Definition rule_applies (model : string) (context : ModelMappingContext)
    (rule : ModelMappingRule) : bool :=
  (match r_providers rule with
   | [] => bool_decide (c_provider_id context = "kiro")
   | providers => mem (c_provider_id context) providers
   end)
  && (match r_service_ids rule with
      | [] => true
      | service_ids =>
          is_some_and (c_service_id context) (fun service => mem service service_ids)
      end)
  && schedule_active (r_schedule rule)
  && existsb (fun pattern => glob pattern model || glob pattern (strip_discovery_prefix model))
       (r_source_models rule)
  && (match r_api_key_ids rule with
      | None | Some [] => true
      | Some ids => is_some_and (c_api_key_id context) (fun id => mem id ids)
      end)
  && (match r_max_remaining_credit_percent rule with
      | None => true
      | Some maximum =>
          negb (is_none_or (c_remaining_percent context) (fun v => F64.geb v maximum))
      end).

(** A [provider/model] target of the context's provider loses its prefix. *)
Definition unqualify (provider mapped : string) : string :=
  match split_once mapped "/" with
  | Some (p, model) => if bool_decide (p = provider) then model else mapped
  | None => mapped
  end.

Fixpoint apply_rules (model : string) (context : ModelMappingContext)
    (rules : list (nat * ModelMappingRule)) : option ModelRoute :=
  match rules with
  | [] => None
  | (rule_index, rule) :: rules =>
      if rule_applies model context rule then
        match choose_target rule with
        | Some mapped =>
            Some {| route_original := model;
                    route_mapped := unqualify (c_provider_id context) mapped;
                    route_rule := Some (r_name rule);
                    route_rule_index := Some rule_index |}
        | None => apply_rules model context rules
        end
      else apply_rules model context rules
  end.

Definition enumerate {A : Type} (l : list A) : list (nat * A) :=
  zip (seq 0 (length l)) l.

Definition ordered_rules (rules : list ModelMappingRule) : list (nat * ModelMappingRule) :=
  sort_by (fun x y => (r_priority x.2 <=? r_priority y.2)%Z)
    (filter (fun x => r_enabled x.2 = true) (enumerate rules)).

Definition map_model_for_provider (model : string) (rules : list ModelMappingRule)
    (context : ModelMappingContext) (default_model : string) : ModelRoute :=
  match apply_rules model context (ordered_rules rules) with
  | Some route => route
  | None =>
      {| route_original := model;
         route_mapped :=
           if is_empty (trim default_model) then strip_discovery_prefix model
           else default_model;
         route_rule := None;
         route_rule_index := None |}
  end.

Definition map_model (model : string) (rules : list ModelMappingRule)
    (api_key_id : option string) (remaining_percent : option f64) (default_model : string) :
    ModelRoute :=
  map_model_for_provider model rules
    {| c_provider_id := "kiro"; c_service_id := None; c_api_key_id := api_key_id;
       c_remaining_percent := remaining_percent |} default_model.
End Mapping.

(** ** Thinking controls *)

Inductive ThinkingReason := ClientDisabled | ModelDisabled | ModelControlsUnavailable | Standard.

Definition should_enable_thinking (client_enabled model_enabled : bool) : bool * ThinkingReason :=
  if negb client_enabled then (false, ClientDisabled)
  else if negb model_enabled then (false, ModelDisabled)
  else (true, Standard).

Record ThinkingDecision := {
  td_enabled : bool;
  td_reason : ThinkingReason;
  td_effort : option string;
}.

(** [modes] in the key order of the [BTreeMap]. *)
Definition thinking_enabled_for_model (model : string) (modes : list (string * bool)) : bool :=
  unwrap_or
    (snd <$> head (filter (fun entry =>
       (eq_ignore_ascii_case model entry.1
        || starts_with (to_ascii_lowercase model) (to_ascii_lowercase entry.1 +:+ "-")) = true)
       modes)) true.

Definition effort_values (schema : option value) : list string :=
  filter (fun v => is_empty (trim v) = false)
    (omap as_str
       (unwrap_or ((schema ≫= fun s => pointer s ["properties"; "effort"; "enum"]) ≫= as_array) [])).

Definition select_effort (requested : string) (allowed : list string) : string :=
  if mem requested allowed then requested
  else unwrap_or (opt_filter (fun effort => negb (is_empty effort)) (last allowed)) "high".

Definition budget_to_effort (budget : Z) : string :=
  (if budget <=? 4000 then "low"
   else if budget <=? 16000 then "medium"
   else if budget <=? 64000 then "high"
   else "xhigh")%Z.

Definition requested_effort (thinking : option ThinkingConfig) (explicit_effort : option string) :
    string :=
  unwrap_or
    (or_else (to_ascii_lowercase <$> explicit_effort)
       (budget_to_effort <$>
          (opt_filter (fun t => bool_decide (tc_type t = "enabled")) thinking
             ≫= tc_budget_tokens)))
    "high".

(** The fields of the first dialect whose schema advertises effort values. *)
Definition native_thinking_fields (thinking : option ThinkingConfig)
    (explicit_effort : option string) (schema : option value) : option (value * string) :=
  let allowed (path : string) : list string :=
    effort_values (schema ≫= fun s => get s "properties" ≫= fun p => get p path) in
  let effort (path : string) : string :=
    select_effort (requested_effort thinking explicit_effort) (allowed path) in
  match allowed "output_config", allowed "reasoning" with
  | _ :: _, _ =>
      let e := effort "output_config" in
      Some (json_object
              [("thinking", json_object [("type", Str "adaptive"); ("display", Str "summarized")]);
               ("output_config", json_object [("effort", Str e)])], e)
  | [], _ :: _ =>
      let e := effort "reasoning" in
      Some (json_object [("reasoning", json_object [("effort", Str e)])], e)
  | [], [] => None
  end.

(** Whether the client asked for thinking. *)
Definition client_thinking (intent : ModelRequestIntent) : bool :=
  negb (is_some_and (mi_thinking intent)
          (fun t => eq_ignore_ascii_case (tc_type t) "disabled"))
  && (is_some (mi_effort intent)
      || is_some_and (mi_thinking intent)
           (fun t => mem (to_ascii_lowercase (tc_type t)) ["enabled"; "adaptive"])).

Definition apply_adaptive_thinking (payload : KiroPayload) (schema : option value)
    (model_enabled : bool) : KiroPayload * ThinkingDecision :=
  let intent := unwrap_or (p_model_request_intent payload) ModelRequestIntent_default in
  let '(enabled, reason) := should_enable_thinking (client_thinking intent) model_enabled in
  if negb enabled then
    (p_set_fields payload None,
     {| td_enabled := enabled; td_reason := reason; td_effort := None |})
  else
    match native_thinking_fields (mi_thinking intent) (mi_effort intent) schema with
    | None =>
        (p_set_fields payload None,
         {| td_enabled := false; td_reason := ModelControlsUnavailable; td_effort := None |})
    | Some (fields, effort) =>
        (p_set_fields payload (Some fields),
         {| td_enabled := true; td_reason := reason; td_effort := Some effort |})
    end.
