(* ===== verification/ModelFacts.v ===== *)
(** * Facts about model resolution, mapping and thinking controls *)

From Stdlib Require Import ZArith Lia Ascii String.
From stdpp Require Import base list gmap strings sorting.
From S2P Require Import Prelude RustStr F64 Json Protocol Model.

Local Open Scope string_scope.
Local Open Scope list_scope.

(** ** Resolution *)

Lemma find_first_Some f l x : find_first f l = Some x -> x ∈ l /\ f x = true.
Proof.
  unfold find_first. intros H%head_Some_elem_of.
  apply list_elem_of_filter in H as [? ?]. done.
Qed.

Lemma find_first_None f l : find_first f l = None -> forall x, x ∈ l -> f x = false.
Proof.
  unfold find_first. intros H%head_None x Hx. destruct (f x) eqn:E; [|done].
  assert (x ∈ filter (fun x => f x = true) l) as Hin by (by apply list_elem_of_filter).
  rewrite H in Hin. set_solver.
Qed.

Lemma max_filter_None cmp (f : string -> bool) l :
  max_by cmp (filter (fun x => f x = true) l) = None -> forall x, x ∈ l -> f x = false.
Proof.
  rewrite max_by_None. intros H x Hx. destruct (f x) eqn:E; [|done].
  assert (x ∈ filter (fun x => f x = true) l) as Hin by (by apply list_elem_of_filter).
  rewrite H in Hin. set_solver.
Qed.

Lemma max_filter_Some cmp (f : string -> bool) l x :
  max_by cmp (filter (fun x => f x = true) l) = Some x -> x ∈ l /\ f x = true.
Proof. intros H%max_by_elem. by apply list_elem_of_filter in H as [? ?]. Qed.

(** The reference reading of the resolver: a candidate that one of its five
    matching rules accepts. *)
Definition same_family (model candidate : string) : bool :=
  match model_family model, model_family candidate with
  | Some (f, _), Some (g, _) => bool_decide (g = f)
  | _, _ => false
  end.

(** The first of the five rules that accepts a candidate; 5 when none does. *)
Definition match_stage (model candidate : string) : nat :=
  let stripped := strip_discovery_prefix model in
  if eq_ignore_ascii_case candidate model then 0
  else if bool_decide (normalize_model_name candidate = normalize_model_name stripped) then 1
  else if prefix_alias (normalize_model_name stripped) candidate then 2
  else if token_model_match stripped candidate then 3
  else if same_family stripped candidate then 4
  else 5.

Definition version_of (candidate : string) : list Z :=
  match model_family candidate with Some (_, v) => v | None => [] end.

(** Versions are compared as if padded with zeros. *)
Definition first_part (v : list Z) : Z := match v with [] => 0%Z | x :: _ => x end.

Lemma compare_version_parts xs ys :
  compare_version xs ys =
    then_with (Z.compare (first_part xs) (first_part ys)) (compare_version (tail xs) (tail ys)).
Proof.
  destruct xs as [|x xs], ys as [|y ys]; [done|..];
    cbn [first_part tail compare_version compare_padded];
    [destruct (Z.compare 0 y)|destruct (Z.compare x 0)|destruct (Z.compare x y)]; done.
Qed.

Lemma compare_version_opp xs ys : compare_version ys xs = CompOpp (compare_version xs ys).
Proof.
  remember (length xs + length ys) as n eqn:Hn.
  revert xs ys Hn; induction (lt_wf n) as [n _ IH]; intros xs ys ->.
  destruct (decide (length xs + length ys = 0)) as [E|E].
  { destruct xs, ys; simpl in E; try lia. done. }
  rewrite (compare_version_parts ys xs), (compare_version_parts xs ys).
  rewrite (Z.compare_antisym (first_part xs)).
  rewrite (IH _ ltac:(instantiate (1 := length (tail xs) + length (tail ys));
    destruct xs, ys; simpl in *; lia) (tail xs) (tail ys) eq_refl).
  by destruct (Z.compare _ _).
Qed.

Lemma compare_version_trans xs ys zs :
  compare_version xs ys <> Gt -> compare_version ys zs <> Gt -> compare_version xs zs <> Gt.
Proof.
  remember (length xs + length ys + length zs) as n eqn:Hn.
  revert xs ys zs Hn; induction (lt_wf n) as [n _ IH]; intros xs ys zs ->.
  destruct (decide (length xs + length ys + length zs = 0)) as [E|E].
  { destruct xs, ys, zs; simpl in E; try lia. done. }
  assert (IH' := IH _ ltac:(instantiate (1 := length (tail xs) + length (tail ys) + length (tail zs));
    destruct xs, ys, zs; simpl in *; lia) (tail xs) (tail ys) (tail zs) eq_refl).
  rewrite (compare_version_parts xs ys), (compare_version_parts ys zs),
    (compare_version_parts xs zs).
  generalize dependent (first_part xs). generalize dependent (first_part ys).
  generalize dependent (first_part zs). intros c b a. unfold then_with.
  destruct (Z.compare_spec a b), (Z.compare_spec b c), (Z.compare_spec a c);
    subst; try lia; try done.
Qed.

Lemma family_candidates_elem family available v c :
  (v, c) ∈ family_candidates family available <->
  c ∈ available /\ model_family c = Some (family, v).
Proof.
  unfold family_candidates. rewrite list_elem_of_omap. split.
  - intros (x & Hx & H). destruct (model_family x) as [[f w]|] eqn:E; [|done].
    case_bool_decide; simplify_eq. done.
  - intros [Hc Hf]. exists c. split; [done|]. rewrite Hf. by rewrite bool_decide_true.
Qed.

(** What the resolver answers, whatever the order of the list. *)
Definition best_match (model : string) (available : list string) (c : string) : Prop :=
  c ∈ available /\ match_stage model c < 5
  /\ (forall c', c' ∈ available -> match_stage model c <= match_stage model c')
  /\ (match_stage model c = 4 -> forall c', c' ∈ available ->
        same_family (strip_discovery_prefix model) c' = true ->
        compare_version (version_of c') (version_of c) <> Gt).

Lemma best_family model available f v w c :
  (forall c', c' ∈ available -> 4 <= match_stage model c') ->
  model_family (strip_discovery_prefix model) = Some (f, v) ->
  max_by (fun left right => compare_version left.1 right.1) (family_candidates f available)
    = Some (w, c) ->
  best_match model available c.
Proof.
  intros Hge Hf Hmax. pose proof (max_by_elem _ _ _ Hmax) as [Hc Hfam]%family_candidates_elem.
  assert (Hsame : same_family (strip_discovery_prefix model) c = true)
    by (unfold same_family; rewrite Hf, Hfam; by apply bool_decide_true).
  assert (Hle : match_stage model c <= 4).
  { unfold match_stage. rewrite Hsame. repeat case_match; lia. }
  pose proof (Hge c Hc). split_and!; [done|lia|intros c' Hc'; specialize (Hge c' Hc'); lia|].
  intros _ c' Hc' Hs. unfold same_family in Hs. rewrite Hf in Hs. unfold version_of.
  rewrite Hfam. destruct (model_family c') as [[g w']|] eqn:Ec; [|done].
  apply bool_decide_eq_true in Hs as ->.
  apply (max_by_max _ _ _ (fun x y => compare_version_opp x.1 y.1)
           (fun x y z => compare_version_trans x.1 y.1 z.1) Hmax (w', c')).
  by apply family_candidates_elem.
Qed.

Lemma best_early model available c n :
  n < 4 -> c ∈ available -> match_stage model c <= n ->
  (forall c', c' ∈ available -> n <= match_stage model c') ->
  best_match model available c.
Proof.
  intros Hn Hc Hle Hge. pose proof (Hge c Hc).
  split_and!; [done|lia|intros c' Hc'; specialize (Hge c' Hc'); lia|lia].
Qed.

Lemma resolve_spec model available :
  match resolve_dynamic_model model available with
  | Some c => best_match model available c
  | None => forall c, c ∈ available -> match_stage model c = 5
  end.
Proof.
  unfold resolve_dynamic_model. destruct available as [|a0 l0].
  { intros c Hc. exfalso. revert Hc. apply not_elem_of_nil. }
  cbv iota beta. remember (a0 :: l0) as available eqn:Ha. clear Ha a0 l0.
  destruct (find_first _ available) eqn:E1.
  { apply find_first_Some in E1 as [Hc Hm]. apply (best_early _ _ _ 0); [lia|done| |lia].
    unfold match_stage. by rewrite Hm. }
  pose proof (find_first_None _ _ E1) as N1.
  destruct (find_first (fun c => bool_decide _) available) eqn:E2.
  { apply find_first_Some in E2 as [Hc Hm]. apply (best_early _ _ _ 1); [lia|done|..].
    - unfold match_stage. rewrite Hm. case_match; lia.
    - intros c' Hc'. unfold match_stage. rewrite N1 by done. repeat case_match; lia. }
  pose proof (find_first_None _ _ E2) as N2.
  destruct (max_by compare_prefixed _) eqn:E3.
  { apply max_filter_Some in E3 as [Hc Hm]. apply (best_early _ _ _ 2); [lia|done|..].
    - unfold match_stage. rewrite Hm. repeat case_match; lia.
    - intros c' Hc'. unfold match_stage. rewrite N1, N2 by done. repeat case_match; lia. }
  pose proof (max_filter_None _ _ _ E3) as N3.
  destruct (max_by compare_token_matches _) eqn:E4.
  { apply max_filter_Some in E4 as [Hc Hm]. apply (best_early _ _ _ 3); [lia|done|..].
    - unfold match_stage. rewrite Hm. repeat case_match; lia.
    - intros c' Hc'. unfold match_stage. rewrite N1, N2, N3 by done. repeat case_match; lia. }
  pose proof (max_filter_None _ _ _ E4) as N4.
  assert (Hstage : forall c, c ∈ available -> match_stage model c =
            if same_family (strip_discovery_prefix model) c then 4 else 5).
  { intros c Hc. unfold match_stage. by rewrite N1, N2, N3, N4 by done. }
  destruct (model_family (strip_discovery_prefix model)) as [[f v]|] eqn:Ef.
  - destruct (max_by _ (family_candidates f available)) as [[w c]|] eqn:E5;
      cbn [fmap option_fmap option_map snd].
    + eapply best_family; [|done|done]. intros c' Hc'. rewrite Hstage by done. case_match; lia.
    + rewrite max_by_None in E5. intros c Hc. rewrite Hstage by done. unfold same_family.
      rewrite Ef. destruct (model_family c) as [[g w]|] eqn:Ec; [|done].
      rewrite bool_decide_false; [done|]. intros ->.
      assert ((w, c) ∈ family_candidates f available) as Hin by (by apply family_candidates_elem).
      rewrite E5 in Hin. revert Hin. apply not_elem_of_nil.
  - intros c Hc. rewrite Hstage by done. unfold same_family. by rewrite Ef.
Qed.

(** C6: The staged resolver implements one rule of preference: a model resolves
    against an account's models exactly when some offered model is accepted by
    one of the five matching rules; the answer is then an offered id, no
    offered id is accepted by an earlier rule, and when only the family
    matches, none of the family has a newer version.  So whether a request can
    be served does not depend on the order in which the discovered set is
    iterated, and offering more models never makes a model unresolvable. *)
Theorem resolve_dynamic_model_refines (model : string) (available : list string) :
  (can_resolve_dynamic_model model available = true <->
     exists c, c ∈ available /\ match_stage model c < 5)
  /\ (forall c, resolve_dynamic_model model available = Some c -> best_match model available c).
Proof.
  pose proof (resolve_spec model available) as H. unfold can_resolve_dynamic_model.
  destruct (resolve_dynamic_model model available) as [c|]; cbn [is_some]; split.
  - split; [|done]. intros _. exists c. destruct H as (? & ? & _). done.
  - by intros c' [= <-].
  - split; [done|]. intros (c & Hc & Hr). rewrite H in Hr by done. lia.
  - done.
Qed.

(** Family isolation does not hold for every naming scheme: with ids that
    put the version before the family, a request for an Opus model resolves to
    a Sonnet model, because the fallback by family reads both as the family
    [claude]. *)
Theorem resolve_crosses_families :
  resolve_dynamic_model "claude-4-opus" ["claude-3-5-sonnet"] = Some "claude-3-5-sonnet"
  /\ token_model_match "claude-4-opus" "claude-3-5-sonnet" = false.
Proof. split; vm_compute; reflexivity. Qed.

(** ** Mapping rules *)

Definition lex_before (x y : nat * ModelMappingRule) : Prop :=
  (r_priority x.2 < r_priority y.2)%Z
  \/ (r_priority x.2 = r_priority y.2 /\ x.1 < y.1).

Abbreviation prio_le := (fun x y : nat * ModelMappingRule => (r_priority x.2 <=? r_priority y.2)%Z).

Lemma insert_lex x l :
  StronglySorted lex_before l -> Forall (fun y => x.1 < y.1) l ->
  StronglySorted lex_before (insert_by prio_le x l).
Proof.
  induction 1 as [|y l Hs IH Hall]; intros Hx; simpl; [by repeat constructor|].
  apply Forall_cons in Hx as [Hxy Hx]. destruct (_ <=? _)%Z eqn:E; bool_simpl.
  - constructor; [by constructor|]. constructor; [unfold lex_before; lia|].
    rewrite Forall_forall in Hall, Hx |- *. intros z Hz.
    specialize (Hall z Hz). specialize (Hx z Hz). unfold lex_before in *. lia.
  - constructor; [by apply IH|]. rewrite insert_by_perm. constructor; [|done].
    unfold lex_before. lia.
Qed.

Lemma sort_lex l :
  StronglySorted (fun x y => x.1 < y.1) l -> StronglySorted lex_before (sort_by prio_le l).
Proof.
  induction 1 as [|x l Hs IH Hall]; simpl; [constructor|].
  apply insert_lex; [done|]. by rewrite sort_by_perm.
Qed.

Lemma zip_seq_elem {A} (l : list A) k i x :
  (i, x) ∈ zip (seq k (length l)) l <-> k <= i /\ l !! (i - k) = Some x.
Proof.
  revert k; induction l as [|y l IH]; intros k; simpl.
  { split; [set_solver|naive_solver]. }
  rewrite elem_of_cons, IH. split.
  - intros [[= -> ->]|[Hle Hx]]; [by rewrite Nat.sub_diag|].
    split; [lia|]. by replace (i - k) with (S (i - S k)) by lia.
  - intros [Hle Hx]. destruct (decide (i = k)) as [->|Hne].
    + rewrite Nat.sub_diag in Hx. left. simpl in Hx. congruence.
    + right. split; [lia|]. by replace (i - k) with (S (i - S k)) in Hx by lia.
Qed.

Lemma zip_seq_sorted {A} (l : list A) k :
  StronglySorted (fun x y : nat * A => x.1 < y.1) (zip (seq k (length l)) l).
Proof.
  revert k; induction l as [|y l IH]; intros k; simpl; constructor; [done|].
  apply Forall_forall. intros [i x] [Hle _]%zip_seq_elem. simpl. lia.
Qed.

Lemma ordered_rules_sorted rules : StronglySorted lex_before (ordered_rules rules).
Proof. apply sort_lex, filter_sorted, zip_seq_sorted. Qed.

Lemma ordered_rules_elem rules i rule :
  (i, rule) ∈ ordered_rules rules <-> rules !! i = Some rule /\ r_enabled rule = true.
Proof.
  unfold ordered_rules. rewrite elem_of_sort_by, list_elem_of_filter. unfold enumerate.
  rewrite zip_seq_elem, Nat.sub_0_r. simpl. naive_solver lia.
Qed.

Section Mapping.
Context (now_ms : Z) (local : Z -> Z * Z) (weighted_index : list Z -> option nat).

(** An enabled rule that applies and has a target to offer. *)
Definition usable (model : string) (context : ModelMappingContext) (rule : ModelMappingRule) :
    bool :=
  rule_applies now_ms local model context rule && is_some (choose_target weighted_index rule).

Lemma apply_rules_spec model context rules :
  match apply_rules now_ms local weighted_index model context rules with
  | Some route =>
      exists pre i rule post target,
        rules = pre ++ (i, rule) :: post
        /\ Forall (fun x => usable model context x.2 = false) pre
        /\ rule_applies now_ms local model context rule = true
        /\ choose_target weighted_index rule = Some target
        /\ route = {| route_original := model;
                      route_mapped := unqualify (c_provider_id context) target;
                      route_rule := Some (r_name rule);
                      route_rule_index := Some i |}
  | None => Forall (fun x => usable model context x.2 = false) rules
  end.
Proof.
  induction rules as [|[i rule] rules IH]; simpl; [constructor|].
  destruct (rule_applies _ _ _ _ rule) eqn:Ea;
    [destruct (choose_target weighted_index rule) as [target|] eqn:Et|].
  - exists [], i, rule, rules, target. by repeat constructor.
  - assert (Hu : usable model context rule = false) by (unfold usable; by rewrite Ea, Et).
    destruct (apply_rules _ _ _ _ _ rules); [|by constructor].
    destruct IH as (pre & i' & rule' & post & target & -> & ? & ?).
    exists ((i, rule) :: pre), i', rule', post, target. split; [done|]. split; [by constructor|done].
  - assert (Hu : usable model context rule = false) by (unfold usable; by rewrite Ea).
    destruct (apply_rules _ _ _ _ _ rules); [|by constructor].
    destruct IH as (pre & i' & rule' & post & target & -> & ? & ?).
    exists ((i, rule) :: pre), i', rule', post, target. split; [done|]. split; [by constructor|done].
Qed.
End Mapping.

(** C7: Mapping rules are applied in priority order: the rule a route names is
    enabled, applies to the request and offers its target, and every other
    usable rule has a larger priority number, or the same one and a later
    position.  When no rule is named, no enabled rule was usable, and the route
    is the default model, or the requested one without its discovery prefix. *)
Theorem map_model_for_provider_spec (now_ms : Z) (local : Z -> Z * Z)
    (weighted_index : list Z -> option nat) (model : string) (rules : list ModelMappingRule)
    (context : ModelMappingContext) (default_model : string) :
  let route := map_model_for_provider now_ms local weighted_index model rules context default_model in
  match route_rule_index route with
  | Some i =>
      exists rule target,
        rules !! i = Some rule /\ r_enabled rule = true
        /\ rule_applies now_ms local model context rule = true
        /\ choose_target weighted_index rule = Some target
        /\ route_mapped route = unqualify (c_provider_id context) target
        /\ forall j rule', rules !! j = Some rule' -> r_enabled rule' = true ->
             usable now_ms local weighted_index model context rule' = true ->
             (r_priority rule < r_priority rule')%Z
             \/ (r_priority rule = r_priority rule' /\ i <= j)
  | None =>
      (forall j rule', rules !! j = Some rule' -> r_enabled rule' = true ->
         usable now_ms local weighted_index model context rule' = false)
      /\ route_mapped route =
           (if is_empty (trim default_model) then strip_discovery_prefix model else default_model)
  end.
Proof.
  intros route. unfold route, map_model_for_provider.
  pose proof (apply_rules_spec now_ms local weighted_index model context (ordered_rules rules)) as H.
  destruct (apply_rules _ _ _ _ _ _) as [r|].
  - destruct H as (pre & i & rule & post & target & Heq & Hpre & Happ & Ht & ->). simpl.
    assert (Hin : (i, rule) ∈ ordered_rules rules) by (rewrite Heq; set_solver).
    apply ordered_rules_elem in Hin as [Hi He]. exists rule, target. split_and!; try done.
    intros j rule' Hj He' Hu.
    assert (Hin' : (j, rule') ∈ ordered_rules rules) by (by apply ordered_rules_elem).
    pose proof (ordered_rules_sorted rules) as Hs. rewrite Heq in Hs, Hin'.
    destruct (sorted_head_first _ _ _ _ _ Hs Hin') as [Hp|[[= -> ->]|Hlex]].
    + rewrite Forall_forall in Hpre. apply Hpre in Hp. simpl in Hp. congruence.
    + lia.
    + unfold lex_before in Hlex. simpl in Hlex. lia.
  - simpl. split; [|done]. intros j rule' Hj He.
    rewrite Forall_forall in H. apply (H (j, rule')). by apply ordered_rules_elem.
Qed.

(** ** Schedules *)

(** A daily window is a half-open interval on the 24-hour circle, overnight
    windows included: a minute is inside exactly when the time elapsed since
    the start is shorter than the window. *)
Theorem in_daily_window_circular (start finish minutes : Z) :
  (0 <= start < 1440)%Z -> (0 <= finish < 1440)%Z -> (0 <= minutes < 1440)%Z ->
  in_daily_window start finish minutes =
    ((minutes - start) mod 1440 <? (finish - start) mod 1440)%Z.
Proof.
  intros Hs Hf Hm. unfold in_daily_window.
  destruct (start <=? finish)%Z eqn:E; bool_simpl.
  - rewrite (Z.mod_small (finish - start)) by lia.
    destruct (Z.le_gt_cases start minutes).
    + rewrite Z.mod_small by lia. rewrite (proj2 (Z.leb_le start minutes)) by lia. simpl.
      apply eq_true_iff_eq. rewrite !Z.ltb_lt. lia.
    + rewrite <- (Z.mod_add (minutes - start) 1 1440), Z.mod_small by lia.
      rewrite (proj2 (Z.leb_gt start minutes)) by lia. symmetry. apply Z.ltb_ge. lia.
  - rewrite <- (Z.mod_add (finish - start) 1 1440), (Z.mod_small (finish - start + _)) by lia.
    destruct (Z.le_gt_cases start minutes).
    + rewrite Z.mod_small by lia. rewrite (proj2 (Z.leb_le start minutes)) by lia. simpl.
      symmetry. apply Z.ltb_lt. lia.
    + rewrite <- (Z.mod_add (minutes - start) 1 1440), Z.mod_small by lia.
      rewrite (proj2 (Z.leb_gt start minutes)) by lia. simpl.
      apply eq_true_iff_eq. rewrite !Z.ltb_lt. lia.
Qed.

Lemma in_daily_window_circular_witness :
  in_daily_window 1320 360 30 = ((30 - 1320) mod 1440 <? (360 - 1320) mod 1440)%Z
  /\ in_daily_window 1320 360 30 = true.
Proof. split; [apply (in_daily_window_circular 1320 360 30); lia|reflexivity]. Defined.

(** ** Globs *)

(** A [prefix*suffix] pattern may match a name too short to contain both:
    the prefix and the suffix are allowed to overlap, so ["ab*ba"] accepts
    ["aba"], which no text in place of the star can produce. *)
Theorem glob_overlap :
  model_glob_matches "ab*ba" "aba" = true
  /\ forall mid, "aba" <> "ab" +:+ mid +:+ "ba".
Proof.
  split; [vm_compute; reflexivity|]. intros [|a [|b mid]]; discriminate.
Qed.

(** ** Thinking controls *)

Lemma select_effort_allowed requested allowed :
  Forall (fun v => is_empty (trim v) = false) allowed -> allowed <> [] ->
  select_effort requested allowed ∈ allowed.
Proof.
  intros Hne Hnil. unfold select_effort, mem. case_bool_decide; [done|].
  destruct (last allowed) as [e|] eqn:E; [|by apply last_None in E].
  apply last_Some_elem_of in E as Hin. rewrite Forall_forall in Hne.
  specialize (Hne e Hin). simpl.
  destruct (is_empty e) eqn:Ee; [|done]. apply is_empty_true in Ee. by subst.
Qed.

(** Thinking controls are rebuilt from the client's intent for each target
    model: a second application ignores what the first one wrote; when thinking
    is not enabled no control is sent at all, and when it is, the effort sent is
    one the schema of the target advertises under the dialect chosen. *)
Theorem apply_adaptive_thinking_rebuilds (payload : KiroPayload) (schema schema' : option value)
    (enabled enabled' : bool) :
  apply_adaptive_thinking (fst (apply_adaptive_thinking payload schema enabled)) schema' enabled'
    = apply_adaptive_thinking payload schema' enabled'
  /\ let '(p, d) := apply_adaptive_thinking payload schema enabled in
     if td_enabled d then
       exists effort, td_effort d = Some effort
         /\ is_some (p_additional_model_request_fields p) = true
         /\ (effort ∈ effort_values (schema ≫= fun s => get s "properties" ≫= fun o => get o "output_config")
             \/ effort ∈ effort_values (schema ≫= fun s => get s "properties" ≫= fun o => get o "reasoning"))
     else p_additional_model_request_fields p = None /\ td_effort d = None
          /\ thinking_enabled p = false.
Proof.
  assert (Hset : forall p f g, p_set_fields (p_set_fields p f) g = p_set_fields p g) by done.
  split.
  - unfold apply_adaptive_thinking at 2.
    destruct (should_enable_thinking _ enabled) as [[] r]; simpl;
      [destruct (native_thinking_fields _ _ schema) as [[f e]|]|]; simpl;
      unfold apply_adaptive_thinking; simpl; destruct (should_enable_thinking _ enabled') as [[] r'];
      simpl; try (destruct (native_thinking_fields _ _ schema') as [[f' e']|]); by rewrite ?Hset.
  - unfold apply_adaptive_thinking.
    destruct (should_enable_thinking _ enabled) as [[] r]; simpl; [|done].
    unfold native_thinking_fields.
    assert (Hall : forall s, Forall (fun v => is_empty (trim v) = false) (effort_values s)).
    { intros s. apply Forall_forall. intros v [? _]%list_elem_of_filter. done. }
    destruct (effort_values (schema ≫= _)) as [|e1 l1] eqn:E1.
    + destruct (effort_values (schema ≫= fun s => get s "properties" ≫= fun p => get p "reasoning"))
        as [|e2 l2] eqn:E2; simpl; [done|].
      eexists. split_and!; [done|done|]. right. apply select_effort_allowed; [|done].
      rewrite <- E2. apply Hall.
    + simpl. eexists. split_and!; [done|done|]. left. apply select_effort_allowed; [|done].
      rewrite <- E1. apply Hall.
Qed.
