(* ===== verification/ToolHistory.v ===== *)
(** * Tool-history normalization

    [kproxy-translate/src/tool_history.rs]: the last-mile repair that makes the
    tool calls and tool results of a Kiro payload strict, adjacent, one-to-one
    pairs, and the validator of that contract.

    The Rust code mutates the payload in place; here every function returns the
    new value.  A [HashSet] is a [gset], a [HashMap] a [gmap], a [VecDeque] a
    list.  [to_string] is [serde_json]'s printer, an argument of the functions
    that archive a call or a result as text. *)

From Stdlib Require Import ZArith Lia String.
From stdpp Require Import base list gmap strings.
From S2P Require Import Prelude RustStr F64 Json Protocol.

Local Open Scope string_scope.
Local Open Scope list_scope.
Local Open Scope kproxy_scope.

Definition MISSING_RESULT_TEXT : string :=
  "The historical tool execution result is unavailable because the conversation history was incomplete.".

(** ** Statistics *)

Record KiroToolHistoryStats := {
  flattened_tool_uses : Z;
  flattened_tool_results : Z;
  normalized_tool_uses : Z;
  removed_invalid_tool_uses : Z;
  relocated_tool_results : Z;
  synthesized_tool_results : Z;
  normalized_tool_results : Z;
  removed_historical_tool_definitions : Z;
  removed_duplicate_tool_definitions : Z;
  inserted_messages : Z;
}.

Definition stats_default : KiroToolHistoryStats :=
  {| flattened_tool_uses := 0; flattened_tool_results := 0; normalized_tool_uses := 0;
     removed_invalid_tool_uses := 0; relocated_tool_results := 0;
     synthesized_tool_results := 0; normalized_tool_results := 0;
     removed_historical_tool_definitions := 0; removed_duplicate_tool_definitions := 0;
     inserted_messages := 0 |}.

Definition has_structured_tool_repair (s : KiroToolHistoryStats) : bool :=
  ((0 <? flattened_tool_uses s) || (0 <? flattened_tool_results s)
   || (0 <? normalized_tool_uses s) || (0 <? removed_invalid_tool_uses s)
   || (0 <? relocated_tool_results s) || (0 <? synthesized_tool_results s)
   || (0 <? normalized_tool_results s) || (0 <? removed_historical_tool_definitions s)
   || (0 <? removed_duplicate_tool_definitions s))%Z.

Definition repaired (s : KiroToolHistoryStats) : bool :=
  has_structured_tool_repair s || (0 <? inserted_messages s)%Z.

(** The counters, to name the one an operation increments. *)
Inductive counter :=
| CFlattenedUses | CFlattenedResults | CNormalizedUses | CRemovedInvalid | CRelocated
| CSynthesized | CNormalizedResults | CRemovedHistorical | CRemovedDuplicate | CInserted.

#[export] Instance counter_eq_dec : EqDecision counter.
Proof. solve_decision. Defined.

(** [field = field.saturating_add(n)]. *)
Definition bump (c : counter) (n : Z) (s : KiroToolHistoryStats) : KiroToolHistoryStats :=
  let up (c' : counter) (v : Z) : Z :=
    if bool_decide (c = c') then sat_add USIZE_MAX v n else v in
  {| flattened_tool_uses := up CFlattenedUses (flattened_tool_uses s);
     flattened_tool_results := up CFlattenedResults (flattened_tool_results s);
     normalized_tool_uses := up CNormalizedUses (normalized_tool_uses s);
     removed_invalid_tool_uses := up CRemovedInvalid (removed_invalid_tool_uses s);
     relocated_tool_results := up CRelocated (relocated_tool_results s);
     synthesized_tool_results := up CSynthesized (synthesized_tool_results s);
     normalized_tool_results := up CNormalizedResults (normalized_tool_results s);
     removed_historical_tool_definitions :=
       up CRemovedHistorical (removed_historical_tool_definitions s);
     removed_duplicate_tool_definitions :=
       up CRemovedDuplicate (removed_duplicate_tool_definitions s);
     inserted_messages := up CInserted (inserted_messages s) |}.

Definition bump_if (b : bool) (c : counter) (s : KiroToolHistoryStats) : KiroToolHistoryStats :=
  if b then bump c 1 s else s.

(** ** Messages *)

Inductive ConversationMessage :=
| User (u : KiroUserInputMessage)
| Assistant (a : KiroAssistantMessage).

Definition is_user (m : ConversationMessage) : bool :=
  match m with User _ => true | Assistant _ => false end.

Record SourcedResult := {
  sr_source_index : nat;
  sr_result : option KiroToolResult;
}.

Definition append_text (target addition : string) : string :=
  (if is_empty (trim target) then target else target +:+ "

") +:+ addition.

Definition missing_result (tool_use_id : string) : KiroToolResult :=
  {| tr_content := [{| kt_text := MISSING_RESULT_TEXT |}];
     tr_status := "error";
     tr_tool_use_id := tool_use_id |}.

(** Returns the normalized result and whether anything changed. *)
Definition normalize_result (result : KiroToolResult) : KiroToolResult * bool :=
  let normalized_status :=
    if eq_ignore_ascii_case (tr_status result) "success" then "success" else "error" in
  let status_changed := negb (bool_decide (tr_status result = normalized_status)) in
  let content_empty := match tr_content result with [] => true | _ => false end in
  ({| tr_content :=
        if content_empty then [{| kt_text := "(empty tool result)" |}] else tr_content result;
      tr_status := normalized_status;
      tr_tool_use_id := tr_tool_use_id result |},
   status_changed || content_empty).

Definition synthetic_user (template : KiroUserInputMessage) (content : string)
    (results : list KiroToolResult) : KiroUserInputMessage :=
  {| um_content := content;
     um_model_id := um_model_id template;
     um_origin := um_origin template;
     um_images := [];
     um_documents := [];
     um_cache_point := None;
     um_client_cache_config := None;
     um_context :=
       match results with
       | [] => None
       | _ => Some {| ctx_tool_results := results; ctx_tools := []; ctx_env_state := None |}
       end |}.

Definition synthetic_assistant : KiroAssistantMessage :=
  {| am_content := "Continue."; am_cache_point := None; am_tool_uses := [] |}.

(** Removes and returns the tool results of a user message. *)
Definition take_tool_results (user : KiroUserInputMessage) :
    KiroUserInputMessage * list KiroToolResult :=
  match um_context user with
  | None => (user, [])
  | Some context =>
      let results := ctx_tool_results context in
      let context' :=
        {| ctx_tool_results := []; ctx_tools := ctx_tools context;
           ctx_env_state := ctx_env_state context |} in
      if match ctx_tools context with [] => true | _ => false end
         && is_none (ctx_env_state context)
      then (um_set_context user None, results)
      else (um_set_context user (Some context'), results)
  end.

Definition add_tool_results (user : KiroUserInputMessage) (results : list KiroToolResult) :
    KiroUserInputMessage :=
  match results with
  | [] => user
  | _ =>
      let context := unwrap_or (um_context user) KiroMessageContext_default in
      um_set_context user
        (Some {| ctx_tool_results := ctx_tool_results context ++ results;
                 ctx_tools := ctx_tools context;
                 ctx_env_state := ctx_env_state context |})
  end.

(** ** Tool definitions of the current message *)

Definition spec_set_name (s : KiroToolSpecification) (n : string) : KiroToolSpecification :=
  {| ts_name := n; ts_description := ts_description s; ts_input_schema := ts_input_schema s |}.

(** The closure of [retain_mut], over the names seen so far. *)
Fixpoint retain_tools (tools : list KiroTool) (names : gset string)
    (stats : KiroToolHistoryStats) : list KiroTool * gset string * KiroToolHistoryStats :=
  match tools with
  | [] => ([], names, stats)
  | tool :: tools =>
      match specification tool with
      | None =>
          let '(kept, names, stats) := retain_tools tools names stats in
          (tool :: kept, names, stats)
      | Some spec =>
          let name := trim (ts_name spec) in
          if negb (is_empty name) && negb (bool_decide (name ∈ names)) then
            let '(kept, names, stats) := retain_tools tools ({[name]} ∪ names) stats in
            (Specification (spec_set_name spec name) :: kept, names, stats)
          else retain_tools tools names (bump CRemovedDuplicate 1 stats)
      end
  end.

Definition sanitize_current_tool_definitions (context : option KiroMessageContext)
    (stats : KiroToolHistoryStats) :
    option KiroMessageContext * gset string * KiroToolHistoryStats :=
  match context with
  | None => (None, ∅, stats)
  | Some c =>
      let '(kept, names, stats) := retain_tools (ctx_tools c) ∅ stats in
      (Some {| ctx_tool_results := ctx_tool_results c; ctx_tools := kept;
               ctx_env_state := ctx_env_state c |}, names, stats)
  end.

(** ** Pairing calls with results *)

(** First pass: the results of every user message, in order, with the index of
    the message they come from, and the queue of their positions by trimmed id. *)
Fixpoint collect_results (index : nat) (messages : list ConversationMessage)
    (results : list SourcedResult) (result_indexes : gmap string (list nat)) :
    list ConversationMessage * list SourcedResult * gmap string (list nat) :=
  match messages with
  | [] => ([], results, result_indexes)
  | User user :: messages =>
      let '(user, taken) := take_tool_results user in
      let '(results, result_indexes) :=
        fold_left
          (fun '(results, result_indexes) result =>
             let id := trim (tr_tool_use_id result) in
             let queue := unwrap_or (result_indexes !! id) [] in
             (results ++ [{| sr_source_index := index; sr_result := Some result |}],
              <[id := queue ++ [length results]]> result_indexes))
          taken (results, result_indexes) in
      let '(messages, results, result_indexes) :=
        collect_results (S index) messages results result_indexes in
      (User user :: messages, results, result_indexes)
  | Assistant assistant :: messages =>
      let '(messages, results, result_indexes) :=
        collect_results (S index) messages results result_indexes in
      (Assistant assistant :: messages, results, result_indexes)
  end.

Definition uses_of (m : ConversationMessage) : list KiroToolUse :=
  match m with User _ => [] | Assistant a => am_tool_uses a end.

(** How often each non-empty trimmed id is used by a call. *)
Definition tool_use_id_counts (messages : list ConversationMessage) : gmap string nat :=
  fold_left (fun counts id => <[id := S (unwrap_or (counts !! id) 0)]> counts)
    (filter (fun id => is_empty id = false)
       ((fun u => trim (tu_tool_use_id u)) <$> (messages ≫= uses_of))) ∅.

Record RepairState := {
  rs_results : list SourcedResult;
  rs_indexes : gmap string (list nat);
  rs_scheduled : gmap nat (list KiroToolResult);
  rs_stats : KiroToolHistoryStats;
}.

Definition rs_with_stats (st : RepairState) (s : KiroToolHistoryStats) : RepairState :=
  {| rs_results := rs_results st; rs_indexes := rs_indexes st;
     rs_scheduled := rs_scheduled st; rs_stats := s |}.

(** [while front.source_index <= assistant_index { pop_front }]. *)
Fixpoint drop_stale (results : list SourcedResult) (assistant_index : nat) (queue : list nat) :
    list nat :=
  match queue with
  | [] => []
  | i :: queue' =>
      match results !! i with
      | Some r =>
          if (sr_source_index r <=? assistant_index)%nat
          then drop_stale results assistant_index queue'
          else queue
      | None => queue
      end
  end.

(** Takes the first unused result with the given id that comes after the call. *)
Definition take_matching (st : RepairState) (assistant_index : nat) (id : string) :
    option (nat * KiroToolResult) * RepairState :=
  match rs_indexes st !! id with
  | None => (None, st)
  | Some queue =>
      let queue := drop_stale (rs_results st) assistant_index queue in
      match queue with
      | [] =>
          (None, {| rs_results := rs_results st; rs_indexes := <[id := []]> (rs_indexes st);
                    rs_scheduled := rs_scheduled st; rs_stats := rs_stats st |})
      | i :: rest =>
          match rs_results st !! i with
          | Some candidate =>
              (match sr_result candidate with
               | Some result => Some (sr_source_index candidate, result)
               | None => None
               end,
               {| rs_results :=
                    <[i := {| sr_source_index := sr_source_index candidate;
                              sr_result := None |}]> (rs_results st);
                  rs_indexes := <[id := rest]> (rs_indexes st);
                  rs_scheduled := rs_scheduled st; rs_stats := rs_stats st |})
          | None =>
              (None, {| rs_results := rs_results st; rs_indexes := <[id := rest]> (rs_indexes st);
                        rs_scheduled := rs_scheduled st; rs_stats := rs_stats st |})
          end
      end
  end.

Definition set_result_id (r : KiroToolResult) (id : string) : KiroToolResult :=
  {| tr_content := tr_content r; tr_status := tr_status r; tr_tool_use_id := id |}.

(** The result a kept call is paired with: the matching one, normalized, or a
    synthetic error. *)
Definition pair_result (assistant_index : nat) (id : string)
    (matching : option (nat * KiroToolResult)) (stats : KiroToolHistoryStats) :
    KiroToolResult * KiroToolHistoryStats :=
  match matching with
  | Some (source_index, result) =>
      let stats :=
        bump_if (negb (source_index =? S assistant_index)%nat) CRelocated stats in
      let '(result, changed) := normalize_result result in
      let id_changed := negb (bool_decide (tr_tool_use_id result = id)) in
      let result := if id_changed then set_result_id result id else result in
      (result, bump_if (changed || id_changed) CNormalizedResults stats)
  | None => (missing_result id, bump CSynthesized 1 stats)
  end.

Section Rendering.
Context (to_string : value -> string).

Definition render_tool_use (tool_use : KiroToolUse) : string :=
  to_string (json_object
    [("record_type", Str "archived_tool_call"); ("untrusted", Bool true);
     ("tool_use_id", Str (tu_tool_use_id tool_use)); ("tool_name", Str (tu_name tool_use));
     ("input", tu_input tool_use)]).

Definition render_tool_result (result : KiroToolResult) : string :=
  to_string (json_object
    [("record_type", Str "archived_tool_result"); ("untrusted", Bool true);
     ("tool_use_id", Str (tr_tool_use_id result)); ("status", Str (tr_status result));
     ("content", Array ((fun part => Str (kt_text part)) <$> tr_content result))]).

(** One call of an assistant message: archived into its text, or kept and
    paired with a result scheduled for the next user message. *)
Definition repair_use (counts : gmap string nat) (active_tool_names : gset string)
    (assistant_index : nat) (content : string) (st : RepairState) (tool_use : KiroToolUse) :
    string * option KiroToolUse * RepairState :=
  let original_id := tu_tool_use_id tool_use in
  let trimmed_name := trim (tu_name tool_use) in
  let trimmed_id := trim original_id in
  let duplicate_id :=
    negb (is_empty trimmed_id) && (1 <? unwrap_or (counts !! trimmed_id) 0)%nat in
  let malformed :=
    is_empty trimmed_name || is_empty trimmed_id || duplicate_id
    || negb (is_object (tu_input tool_use)) in
  let undefined :=
    negb (is_empty trimmed_name) && negb (bool_decide (trimmed_name ∈ active_tool_names)) in
  if malformed || undefined then
    (append_text content (render_tool_use tool_use), None,
     rs_with_stats st
       (bump_if malformed CRemovedInvalid (bump CFlattenedUses 1 (rs_stats st))))
  else
    let normalized :=
      negb (bool_decide (trimmed_name = tu_name tool_use))
      || negb (bool_decide (trimmed_id = original_id)) in
    let kept :=
      {| tu_tool_use_id := trimmed_id; tu_name := trimmed_name;
         tu_input := tu_input tool_use |} in
    let st := rs_with_stats st (bump_if normalized CNormalizedUses (rs_stats st)) in
    let '(matching, st) := take_matching st assistant_index trimmed_id in
    let '(result, stats) := pair_result assistant_index trimmed_id matching (rs_stats st) in
    let queue := unwrap_or (rs_scheduled st !! assistant_index) [] in
    (content, Some kept,
     {| rs_results := rs_results st; rs_indexes := rs_indexes st;
        rs_scheduled := <[assistant_index := queue ++ [result]]> (rs_scheduled st);
        rs_stats := stats |}).

Fixpoint repair_uses (counts : gmap string nat) (active_tool_names : gset string)
    (assistant_index : nat) (content : string) (st : RepairState) (uses : list KiroToolUse) :
    string * list KiroToolUse * RepairState :=
  match uses with
  | [] => (content, [], st)
  | tool_use :: uses =>
      let '(content, kept, st) :=
        repair_use counts active_tool_names assistant_index content st tool_use in
      let '(content, repaired_uses, st) :=
        repair_uses counts active_tool_names assistant_index content st uses in
      (content, match kept with Some u => u :: repaired_uses | None => repaired_uses end, st)
  end.

Fixpoint repair_messages (counts : gmap string nat) (active_tool_names : gset string)
    (index : nat) (messages : list ConversationMessage) (st : RepairState) :
    list ConversationMessage * RepairState :=
  match messages with
  | [] => ([], st)
  | User user :: messages =>
      let '(messages, st) :=
        repair_messages counts active_tool_names (S index) messages st in
      (User user :: messages, st)
  | Assistant assistant :: messages =>
      let '(content, repaired_uses, st) :=
        repair_uses counts active_tool_names index (am_content assistant) st
          (am_tool_uses assistant) in
      let '(messages, st) :=
        repair_messages counts active_tool_names (S index) messages st in
      (Assistant {| am_content := content; am_cache_point := am_cache_point assistant;
                    am_tool_uses := repaired_uses |} :: messages, st)
  end.

(** The results no call claimed are archived into the text of their message. *)
Definition archive_result (messages : list ConversationMessage) (stats : KiroToolHistoryStats)
    (candidate : SourcedResult) : list ConversationMessage * KiroToolHistoryStats :=
  match sr_result candidate with
  | None => (messages, stats)
  | Some result =>
      match messages !! sr_source_index candidate with
      | Some (User user) =>
          (<[sr_source_index candidate :=
               User (um_set_content user
                       (append_text (um_content user) (render_tool_result result)))]> messages,
           bump CFlattenedResults 1 stats)
      | _ => (messages, stats)
      end
  end.

Definition archive_results (messages : list ConversationMessage) (stats : KiroToolHistoryStats)
    (results : list SourcedResult) : list ConversationMessage * KiroToolHistoryStats :=
  fold_left (fun '(messages, stats) c => archive_result messages stats c) results
    (messages, stats).

Definition repair_tool_pairs (messages : list ConversationMessage)
    (active_tool_names : gset string) (stats : KiroToolHistoryStats) :
    list ConversationMessage * gmap nat (list KiroToolResult) * KiroToolHistoryStats :=
  let '(messages, results, result_indexes) := collect_results 0 messages [] ∅ in
  let counts := tool_use_id_counts messages in
  let '(messages, st) :=
    repair_messages counts active_tool_names 0 messages
      {| rs_results := results; rs_indexes := result_indexes; rs_scheduled := ∅;
         rs_stats := stats |} in
  let '(messages, stats) := archive_results messages (rs_stats st) (rs_results st) in
  (messages, rs_scheduled st, stats).
End Rendering.

(** ** Alternating roles *)

Definition continue_template : KiroUserInputMessage :=
  {| um_content := "Continue."; um_model_id := ""; um_origin := ""; um_images := [];
     um_documents := []; um_cache_point := None; um_client_cache_config := None;
     um_context := None |}.

(** The last user message, which synthetic user messages are copied from. *)
Definition find_template (messages : list ConversationMessage) : KiroUserInputMessage :=
  unwrap_or
    (find_map (fun m => match m with User u => Some u | Assistant _ => None end)
       (reverse messages))
    continue_template.

Definition last_is_user (output : list ConversationMessage) : bool :=
  is_some_and (last output) is_user.

Definition last_is_assistant (output : list ConversationMessage) : bool :=
  is_some_and (last output) (fun m => negb (is_user m)).

Record RoleState := {
  ro_output : list ConversationMessage;
  ro_pending : list KiroToolResult;
  ro_stats : KiroToolHistoryStats;
}.

(** One iteration of the loop of [normalize_roles]. *)
Definition role_step (template : KiroUserInputMessage)
    (scheduled : gmap nat (list KiroToolResult)) (original_index : nat)
    (message : ConversationMessage) (st : RoleState) : RoleState :=
  match message with
  | User user =>
      let '(output, stats) :=
        if last_is_user (ro_output st)
        then (ro_output st ++ [Assistant synthetic_assistant], bump CInserted 1 (ro_stats st))
        else (ro_output st, ro_stats st) in
      {| ro_output := output ++ [User (add_tool_results user (ro_pending st))];
         ro_pending := []; ro_stats := stats |}
  | Assistant assistant =>
      let '(output, stats) :=
        if is_nil (ro_output st) || last_is_assistant (ro_output st) then
          let content :=
            if is_nil (ro_output st) then "Begin conversation."
            else "Continue after the previous tool call." in
          (ro_output st ++ [User (synthetic_user template content (ro_pending st))],
           bump CInserted 1 (ro_stats st))
        else (ro_output st, ro_stats st) in
      {| ro_output := output ++ [Assistant assistant];
         ro_pending := unwrap_or (scheduled !! original_index) []; ro_stats := stats |}
  end.

Fixpoint role_loop (template : KiroUserInputMessage)
    (scheduled : gmap nat (list KiroToolResult)) (index : nat)
    (messages : list ConversationMessage) (st : RoleState) : RoleState :=
  match messages with
  | [] => st
  | m :: messages =>
      role_loop template scheduled (S index) messages
        (role_step template scheduled index m st)
  end.

Definition normalize_roles (messages : list ConversationMessage)
    (scheduled : gmap nat (list KiroToolResult)) (stats : KiroToolHistoryStats) :
    list ConversationMessage * KiroToolHistoryStats :=
  let template := find_template messages in
  let st :=
    role_loop template scheduled 0 messages
      {| ro_output := []; ro_pending := []; ro_stats := stats |} in
  if is_nil (ro_output st) || last_is_assistant (ro_output st)
  then (ro_output st ++ [User (synthetic_user template "Continue." (ro_pending st))],
        bump CInserted 1 (ro_stats st))
  else (ro_output st, ro_stats st).

(** ** The repair of a payload *)

(** Historical user messages lose their tool definitions and environment. *)
Definition strip_history_user (user : KiroUserInputMessage) (stats : KiroToolHistoryStats) :
    KiroUserInputMessage * KiroToolHistoryStats :=
  match um_context user with
  | None => (user, stats)
  | Some c =>
      let stats := bump CRemovedHistorical (Z.of_nat (length (ctx_tools c))) stats in
      (um_set_context user
         (match ctx_tool_results c with
          | [] => None
          | rs => Some {| ctx_tool_results := rs; ctx_tools := []; ctx_env_state := None |}
          end), stats)
  end.

Fixpoint flatten_history (items : list KiroHistoryMessage) (stats : KiroToolHistoryStats) :
    list ConversationMessage * KiroToolHistoryStats :=
  match items with
  | [] => ([], stats)
  | item :: items =>
      let '(users, stats) :=
        match hm_user item with
        | Some user => let '(user, stats) := strip_history_user user stats in ([User user], stats)
        | None => ([], stats)
        end in
      let assistants := match hm_assistant item with Some a => [Assistant a] | None => [] end in
      let '(messages, stats) := flatten_history items stats in
      (users ++ assistants ++ messages, stats)
  end.

Definition to_history_message (m : ConversationMessage) : KiroHistoryMessage :=
  match m with
  | User user => {| hm_user := Some user; hm_assistant := None |}
  | Assistant assistant => {| hm_user := None; hm_assistant := Some assistant |}
  end.

Definition sanitize_kiro_tool_history (to_string : value -> string) (payload : KiroPayload) :
    KiroPayload * KiroToolHistoryStats :=
  let state := p_conversation_state payload in
  let '(context, active_tool_names, stats) :=
    sanitize_current_tool_definitions (um_context (cs_current_message state)) stats_default in
  let current := um_set_context (cs_current_message state) context in
  let '(past, stats) := flatten_history (cs_history state) stats in
  let '(messages, scheduled, stats) :=
    repair_tool_pairs to_string (past ++ [User current]) active_tool_names stats in
  let '(messages, stats) := normalize_roles messages scheduled stats in
  let '(rest, current', stats) :=
    match last messages with
    | Some (User user) => (removelast messages, user, stats)
    | _ => (removelast messages, synthetic_user current "Continue." [], bump CInserted 1 stats)
    end in
  (p_set_state payload (cs_set_messages state current' (to_history_message <$> rest)), stats).

(** ** The validator *)

Definition results_of (user : KiroUserInputMessage) : list KiroToolResult :=
  match um_context user with Some c => ctx_tool_results c | None => [] end.

Definition tools_of (user : KiroUserInputMessage) : list KiroTool :=
  match um_context user with Some c => ctx_tools c | None => [] end.

Definition spec_names (tools : list KiroTool) : list string :=
  omap (fun t => ts_name <$> specification t) tools.

Fixpoint validate_results_loop (results : list KiroToolResult) (expected : gset string)
    (all_ids : gset string) (location : string) : result (gset string) string :=
  match results with
  | [] => Ok all_ids
  | r :: results =>
      let id := tr_tool_use_id r in
      if is_empty (trim id) then Err (location +:+ " contains a tool result without an id")
      else if negb (bool_decide (tr_status r = "success") || bool_decide (tr_status r = "error"))
      then Err (location +:+ " tool result '" +:+ id +:+ "' has invalid status '"
                +:+ tr_status r +:+ "'")
      else if is_nil (tr_content r)
      then Err (location +:+ " tool result '" +:+ id +:+ "' has no content")
      else if negb (bool_decide (id ∈ expected))
      then Err (location +:+ " contains orphan tool result '" +:+ id +:+ "'")
      else if bool_decide (id ∈ all_ids)
      then Err (location +:+ " duplicates tool result '" +:+ id +:+ "'")
      else validate_results_loop results expected ({[id]} ∪ all_ids) location
  end.

Definition validate_user_results (user : KiroUserInputMessage) (expected : list string)
    (all_ids : gset string) (location : string) : result (gset string) string :=
  let results := results_of user in
  if negb (length results =? length expected)%nat
  then Err (location +:+ " has " +:+ show_nat (length results)
            +:+ " tool results but the preceding assistant has "
            +:+ show_nat (length expected) +:+ " tool calls")
  else validate_results_loop results (list_to_set expected) all_ids location.

Fixpoint validate_assistant_uses (uses : list KiroToolUse) (active_names : gset string)
    (all_ids : gset string) (location : string) : result (list string * gset string) string :=
  match uses with
  | [] => Ok ([], all_ids)
  | u :: uses =>
      let id := tu_tool_use_id u in
      if is_empty (trim id) || is_empty (trim (tu_name u))
      then Err (location +:+ " contains an unnamed tool call")
      else if negb (is_object (tu_input u))
      then Err (location +:+ " tool call '" +:+ id +:+ "' has a non-object input")
      else if negb (bool_decide (tu_name u ∈ active_names))
      then Err (location +:+ " tool call '" +:+ id +:+ "' references undefined tool '"
                +:+ tu_name u +:+ "'")
      else if bool_decide (id ∈ all_ids)
      then Err (location +:+ " duplicates tool-use id '" +:+ id +:+ "'")
      else
        let? (ids, all_ids) :=
          validate_assistant_uses uses active_names ({[id]} ∪ all_ids) location in
        Ok (id :: ids, all_ids)
  end.

Record ValidateState := {
  vs_previous_was_user : bool;
  vs_previous_uses : list string;
  vs_all_use_ids : gset string;
  vs_all_result_ids : gset string;
}.

Definition history_location (index : nat) : string := "history message " +:+ show_nat index.

Definition validate_step (active_names : gset string) (index : nat) (item : KiroHistoryMessage)
    (vs : ValidateState) : result ValidateState string :=
  match hm_user item, hm_assistant item with
  | Some user, None =>
      if vs_previous_was_user vs
      then Err (history_location index +:+ " repeats the user role")
      else if negb (is_nil (tools_of user))
      then Err (history_location index
                +:+ " contains tool definitions; definitions belong on the current message")
      else
        let? all_result_ids :=
          validate_user_results user (vs_previous_uses vs) (vs_all_result_ids vs)
            (history_location index) in
        Ok {| vs_previous_was_user := true; vs_previous_uses := [];
              vs_all_use_ids := vs_all_use_ids vs; vs_all_result_ids := all_result_ids |}
  | None, Some assistant =>
      if (index =? 0)%nat || negb (vs_previous_was_user vs)
      then Err (history_location index +:+ " repeats or starts with assistant")
      else
        let? (ids, all_use_ids) :=
          validate_assistant_uses (am_tool_uses assistant) active_names (vs_all_use_ids vs)
            (history_location index) in
        Ok {| vs_previous_was_user := false; vs_previous_uses := ids;
              vs_all_use_ids := all_use_ids; vs_all_result_ids := vs_all_result_ids vs |}
  | _, _ => Err (history_location index +:+ " must contain exactly one role")
  end.

Fixpoint validate_loop (active_names : gset string) (index : nat)
    (items : list KiroHistoryMessage) (vs : ValidateState) : result ValidateState string :=
  match items with
  | [] => Ok vs
  | item :: items =>
      let? vs := validate_step active_names index item vs in
      validate_loop active_names (S index) items vs
  end.

Definition validate_start : ValidateState :=
  {| vs_previous_was_user := false; vs_previous_uses := []; vs_all_use_ids := ∅;
     vs_all_result_ids := ∅ |}.

Definition validate_kiro_tool_history (payload : KiroPayload) : result unit string :=
  let current := cs_current_message (p_conversation_state payload) in
  let items := history payload in
  let names := spec_names (tools_of current) in
  let active_names : gset string := list_to_set names in
  if existsb (fun name => is_empty (trim name)) names
  then Err "current tool definitions contain an empty name"
  else if negb (length names =? size active_names)%nat
  then Err "current tool definitions contain duplicate names"
  else
    let? vs := validate_loop active_names 0 items validate_start in
    let previous_uses :=
      if negb (vs_previous_was_user vs) && is_nil items then [] else vs_previous_uses vs in
    if vs_previous_was_user vs && negb (is_nil previous_uses)
    then Err "internal tool-pair validation state is inconsistent"
    else if negb (is_nil items) && vs_previous_was_user vs
    then Err "current user message would repeat the user role"
    else
      let? _ :=
        validate_user_results current previous_uses (vs_all_result_ids vs) "current message" in
      Ok tt.
