(* ===== verification/ToolHistoryFacts.v ===== *)
(** * Correctness of the tool-history normalization

    The repair of [ToolHistory] always produces a payload its validator accepts,
    whatever the client's history was. *)

From Stdlib Require Import ZArith Lia String.
From stdpp Require Import base list gmap strings.
From S2P Require Import Prelude RustStr F64 Json Protocol ToolHistory.

Local Open Scope string_scope.
Local Open Scope list_scope.
Local Open Scope kproxy_scope.

(** ** Well-formed calls and results *)

Definition use_ids (uses : list KiroToolUse) : list string := tu_tool_use_id <$> uses.
Definition result_ids (results : list KiroToolResult) : list string := tr_tool_use_id <$> results.

Record good_use (active : gset string) (u : KiroToolUse) : Prop := {
  gu_id : is_empty (trim (tu_tool_use_id u)) = false;
  gu_name : is_empty (trim (tu_name u)) = false;
  gu_input : is_object (tu_input u) = true;
  gu_defined : tu_name u ∈ active;
}.

Record good_result (r : KiroToolResult) : Prop := {
  gr_id : is_empty (trim (tr_tool_use_id r)) = false;
  gr_status : tr_status r = "success" \/ tr_status r = "error";
  gr_content : tr_content r <> [];
}.

(** A call and the result scheduled for it. *)
Record pair_ok (active : gset string) (u : KiroToolUse) (r : KiroToolResult) : Prop := {
  po_use : good_use active u;
  po_result : good_result r;
  po_same : tr_tool_use_id r = tu_tool_use_id u;
}.

(** The results scheduled after the message at an index. *)
Definition sched_at (scheduled : gmap nat (list KiroToolResult)) (i : nat) : list KiroToolResult :=
  unwrap_or (scheduled !! i) [].

Lemma pairs_ids active uses results :
  Forall2 (pair_ok active) uses results -> result_ids results = use_ids uses.
Proof.
  intros H; unfold result_ids, use_ids.
  induction H as [|u r uses results [? ? Hid] _ IH]; [done|]. by rewrite !fmap_cons, Hid, IH.
Qed.

Lemma pairs_good_uses active uses results :
  Forall2 (pair_ok active) uses results -> Forall (good_use active) uses.
Proof. induction 1 as [|u r ? ? []]; auto. Qed.

Lemma pairs_good_results active uses results :
  Forall2 (pair_ok active) uses results -> Forall good_result results.
Proof. induction 1 as [|u r ? ? []]; auto. Qed.

(** ** Counting ids *)

Section Counting.
Context {A : Type} `{EqDecision A}.

Definition count (x : A) (l : list A) : nat := length (filter (fun y => y = x) l).

Lemma count_cons x y l : count x (y :: l) = (if decide (y = x) then 1 else 0) + count x l.
Proof. unfold count. rewrite filter_cons. by case_decide. Qed.

Lemma count_app x k l : count x (k ++ l) = count x k + count x l.
Proof. unfold count. by rewrite filter_app, length_app. Qed.

Lemma count_elem x l : x ∈ l -> 1 <= count x l.
Proof.
  induction 1 as [x l|x y l _ IH]; rewrite count_cons; [rewrite decide_True by done|]; lia.
Qed.

Lemma count_sublist x k l : k `sublist_of` l -> count x k <= count x l.
Proof. induction 1; rewrite ?count_cons; lia. Qed.

Lemma count_NoDup l : (forall x, x ∈ l -> count x l <= 1) -> NoDup l.
Proof.
  induction l as [|y l IH]; intros H; constructor.
  - intros Hy%count_elem. specialize (H y ltac:(set_solver)).
    rewrite count_cons, decide_True in H by done. lia.
  - apply IH; intros x Hx. specialize (H x ltac:(set_solver)). rewrite count_cons in H. lia.
Qed.

Lemma sublist_unique k l :
  k `sublist_of` l -> (forall x, x ∈ k -> count x l <= 1) -> NoDup k.
Proof.
  intros Hs H. apply count_NoDup; intros x Hx.
  etrans; [by apply count_sublist|auto].
Qed.
End Counting.

Definition counting_fold (l : list string) (m : gmap string nat) : gmap string nat :=
  fold_left (fun counts id => <[id := S (unwrap_or (counts !! id) 0)]> counts) l m.

Lemma counting_fold_lookup l m id :
  unwrap_or (counting_fold l m !! id) 0 = unwrap_or (m !! id) 0 + count id l.
Proof.
  revert m; induction l as [|x l IH]; intros m; simpl; [unfold count; simpl; lia|].
  unfold counting_fold in IH. rewrite IH, count_cons, lookup_insert. repeat case_decide; subst; simpl; try done; lia.
Qed.

Definition trimmed_ids (messages : list ConversationMessage) : list string :=
  (fun u => trim (tu_tool_use_id u)) <$> (messages ≫= uses_of).

Lemma tool_use_id_counts_spec messages id :
  is_empty id = false ->
  unwrap_or (tool_use_id_counts messages !! id) 0 = count id (trimmed_ids messages).
Proof.
  intros Hid. unfold tool_use_id_counts.
  change (fold_left _ ?l ∅) with (counting_fold l ∅).
  rewrite counting_fold_lookup, lookup_empty. simpl. unfold count, trimmed_ids.
  rewrite list_filter_filter. f_equal. apply list_filter_iff. naive_solver.
Qed.

(** ** Tool definitions *)

Lemma retain_tools_spec tools names stats kept names' stats' :
  retain_tools tools names stats = (kept, names', stats') ->
  names' = (list_to_set (spec_names kept) ∪ names)
  /\ NoDup (spec_names kept)
  /\ forall n, n ∈ spec_names kept -> (n ∉ names) /\ is_empty n = false /\ trim n = n.
Proof.
  revert names stats kept names' stats'.
  induction tools as [|t tools IH]; intros names stats kept names' stats'; simpl.
  { intros; simplify_eq; simpl. split_and!; [set_solver|constructor|set_solver]. }
  destruct (specification t) as [spec|] eqn:Ht.
  - destruct (negb _ && negb _) eqn:E; [|eauto]. bool_simpl.
    destruct (retain_tools tools _ stats) as [[k n] s] eqn:Er; intros; simplify_eq/=.
    apply IH in Er as (-> & Hnd & Hall). split_and!.
    + set_solver.
    + constructor; [|done]. intros Hin%Hall. set_solver.
    + intros n [->|Hn]%elem_of_cons; [by rewrite trim_idemp|].
      apply Hall in Hn. set_solver.
  - destruct (retain_tools tools names stats) as [[k n] s] eqn:Er; intros; simplify_eq/=.
    rewrite Ht. simpl. eauto.
Qed.

Lemma sanitize_definitions_spec u ctx names stats stats' :
  sanitize_current_tool_definitions (um_context u) stats = (ctx, names, stats') ->
  let tools := tools_of (um_set_context u ctx) in
  names = list_to_set (spec_names tools) /\ NoDup (spec_names tools)
  /\ forall n, n ∈ spec_names tools -> is_empty (trim n) = false.
Proof.
  unfold sanitize_current_tool_definitions, tools_of.
  destruct (um_context u) as [c|]; simpl; intros H.
  - destruct (retain_tools _ _ _) as [[k n] s] eqn:E; simplify_eq/=.
    apply retain_tools_spec in E as (-> & Hnd & Hall). split_and!; [set_solver|done|].
    intros n Hn. destruct (Hall n Hn) as (_ & ? & ->). done.
  - simplify_eq/=. split_and!; [done|constructor|set_solver].
Qed.

(** ** The first pass *)

(** A message after its tool results were taken out. *)
Definition emptied (m m' : ConversationMessage) : Prop :=
  match m, m' with
  | User u, User u' => results_of u' = [] /\ tools_of u' = tools_of u
  | Assistant a, Assistant a' => a' = a
  | _, _ => False
  end.

Lemma take_tool_results_emptied u u' taken :
  take_tool_results u = (u', taken) -> results_of u' = [] /\ tools_of u' = tools_of u.
Proof.
  unfold take_tool_results, results_of, tools_of.
  destruct (um_context u) as [[rs ts env]|] eqn:E; simpl; intros; simplify_eq/=; [|by rewrite E].
  destruct ts, env; simplify_eq/=; done.
Qed.

Lemma collect_results_emptied i messages results idx messages' results' idx' :
  collect_results i messages results idx = (messages', results', idx') ->
  Forall2 emptied messages messages'.
Proof.
  revert i results idx messages' results' idx'.
  induction messages as [|[u|a] messages IH]; intros i results idx messages' results' idx';
    simpl; intros H; simplify_eq; [constructor|..].
  - destruct (take_tool_results u) as [u' taken] eqn:Et.
    destruct (fold_left _ taken _) as [rs ix].
    destruct (collect_results (S i) messages rs ix) as [[ms rs'] ix'] eqn:E; simplify_eq.
    constructor; [by eapply take_tool_results_emptied|eauto].
  - destruct (collect_results (S i) messages results idx) as [[ms rs'] ix'] eqn:E; simplify_eq.
    constructor; [done|eauto].
Qed.

(** ** The second pass *)

Lemma normalize_result_good r r' changed :
  normalize_result r = (r', changed) ->
  (tr_status r' = "success" \/ tr_status r' = "error")
  /\ tr_content r' <> [] /\ tr_tool_use_id r' = tr_tool_use_id r.
Proof.
  unfold normalize_result; intros; simplify_eq/=.
  destruct (eq_ignore_ascii_case _ _), (tr_content r); auto.
Qed.

Lemma pair_result_good i id matching stats r stats' :
  is_empty (trim id) = false -> pair_result i id matching stats = (r, stats') ->
  good_result r /\ tr_tool_use_id r = id.
Proof.
  intros Hid. unfold pair_result. destruct matching as [[src r0]|]; intros H.
  - destruct (normalize_result r0) as [r1 changed] eqn:E. injection H as <- _.
    apply normalize_result_good in E as (? & ? & ?).
    destruct (bool_decide_reflect (tr_tool_use_id r1 = id)) as [<-|]; by split.
  - simplify_eq/=. split; [split; [done|by right|done]|done].
Qed.

Lemma take_matching_scheduled st i id m st' :
  take_matching st i id = (m, st') -> rs_scheduled st' = rs_scheduled st.
Proof. unfold take_matching. repeat case_match; intros; simplify_eq/=; done. Qed.

Section Repair.
Context (to_string : value -> string) (counts : gmap string nat) (active : gset string).

(** What repairing a call does: archived, or kept with its result appended to
    the schedule of the message. *)
Lemma repair_use_spec i content st u content' kept st' :
  repair_use to_string counts active i content st u = (content', kept, st') ->
  match kept with
  | None => rs_scheduled st' = rs_scheduled st
  | Some u' =>
      tu_tool_use_id u' = trim (tu_tool_use_id u)
      /\ unwrap_or (counts !! tu_tool_use_id u') 0 <= 1
      /\ exists r, pair_ok active u' r
         /\ rs_scheduled st' = <[i := sched_at (rs_scheduled st) i ++ [r]]> (rs_scheduled st)
  end.
Proof.
  unfold repair_use. destruct (_ || _) eqn:E; [intros; by simplify_eq|].
  destruct (take_matching _ i _) as [m st1] eqn:Em.
  destruct (pair_result i _ m _) as [r stats] eqn:Er.
  intros; simplify_eq/=. apply take_matching_scheduled in Em as Hs; simpl in Hs.
  bool_simpl. repeat match goal with H : ?b = false |- _ => rewrite H in * end; simpl in *.
  bool_simpl. apply pair_result_good in Er as [Hr Hrid]; [|by rewrite trim_idemp].
  split_and!; [done|by apply Nat.ltb_ge|].
  exists r. split; [split; [split|..]|]; simpl; rewrite ?trim_idemp; try done.
  by rewrite Hs.
Qed.

Lemma repair_uses_spec i uses content st content' kept st' :
  repair_uses to_string counts active i content st uses = (content', kept, st') ->
  use_ids kept `sublist_of` ((fun u => trim (tu_tool_use_id u)) <$> uses)
  /\ (forall id, id ∈ use_ids kept -> unwrap_or (counts !! id) 0 <= 1)
  /\ (forall j, j <> i -> rs_scheduled st' !! j = rs_scheduled st !! j)
  /\ exists rs, Forall2 (pair_ok active) kept rs
       /\ sched_at (rs_scheduled st') i = sched_at (rs_scheduled st) i ++ rs.
Proof.
  revert content st content' kept st'.
  induction uses as [|u uses IH]; intros content st content' kept st'; simpl.
  { intros; simplify_eq. split_and!; [constructor|set_solver|done|].
    exists []; by rewrite app_nil_r. }
  destruct (repair_use _ _ _ i content st u) as [[c1 k1] st1] eqn:E1.
  destruct (repair_uses _ _ _ i c1 st1 uses) as [[c2 k2] st2] eqn:E2.
  intros; simplify_eq. apply repair_use_spec in E1.
  apply IH in E2 as (Hsub & Hcnt & Hne & rs & Hrs & Hsch).
  destruct k1 as [u'|].
  - destruct E1 as (Hid & Hc & r & Hok & Hst). split_and!.
    + unfold use_ids in *. rewrite !fmap_cons, Hid. by constructor.
    + unfold use_ids in *. rewrite fmap_cons. set_solver.
    + intros j Hj. rewrite Hne, Hst by done. by rewrite lookup_insert_ne.
    + exists (r :: rs). split; [by constructor|]. rewrite Hsch, Hst. unfold sched_at at 1.
      rewrite lookup_insert_eq. simpl. by rewrite <- app_assoc.
  - split_and!; [by constructor|done| |].
    + intros j Hj. by rewrite Hne, E1.
    + exists rs. by rewrite Hsch, E1.
Qed.

(** Every call of the messages from an index on is good and has its result
    scheduled. *)
Fixpoint paired (scheduled : gmap nat (list KiroToolResult)) (k : nat)
    (messages : list ConversationMessage) : Prop :=
  match messages with
  | [] => True
  | User _ :: messages => paired scheduled (S k) messages
  | Assistant a :: messages =>
      Forall2 (pair_ok active) (am_tool_uses a) (sched_at scheduled k)
      /\ paired scheduled (S k) messages
  end.

Definition repaired_rel (m m' : ConversationMessage) : Prop :=
  match m, m' with
  | User u, User u' => u' = u
  | Assistant _, Assistant _ => True
  | _, _ => False
  end.

Lemma repair_messages_spec messages k st messages' st' :
  (forall j, k <= j -> rs_scheduled st !! j = None) ->
  repair_messages to_string counts active k messages st = (messages', st') ->
  (forall j, j < k -> rs_scheduled st' !! j = rs_scheduled st !! j)
  /\ paired (rs_scheduled st') k messages'
  /\ Forall2 repaired_rel messages messages'
  /\ use_ids (messages' ≫= uses_of) `sublist_of` trimmed_ids messages
  /\ (forall id, id ∈ use_ids (messages' ≫= uses_of) -> unwrap_or (counts !! id) 0 <= 1).
Proof.
  revert k st messages' st'.
  induction messages as [|[u|a] messages IH]; intros k st messages' st' Hnone; simpl.
  { intros; simplify_eq. split_and!; try done; set_solver. }
  - destruct (repair_messages _ _ _ (S k) messages st) as [ms s1] eqn:E; intros; simplify_eq.
    apply IH in E as (Hlt & Hp & Hr & Hs & Hc); [|intros; apply Hnone; lia].
    split_and!; [intros; apply Hlt; lia|done|by constructor|done|done].
  - destruct (repair_uses _ _ _ k _ st _) as [[c kept] s1] eqn:E1.
    destruct (repair_messages _ _ _ (S k) messages s1) as [ms s2] eqn:E2; intros; simplify_eq.
    apply repair_uses_spec in E1 as (Hsub & Hcnt & Hne & rs & Hrs & Hsch).
    apply IH in E2 as (Hlt & Hp & Hr & Hs & Hc);
      [|intros j Hj; rewrite Hne by lia; apply Hnone; lia].
    unfold trimmed_ids, use_ids in *. simpl. rewrite !fmap_app.
    split_and!; [| |done|by constructor|by apply sublist_app|set_solver].
    + intros j Hj. rewrite Hlt by lia. apply Hne; lia.
    + replace (sched_at (rs_scheduled st') k) with (sched_at (rs_scheduled s1) k)
        by (unfold sched_at; rewrite Hlt by lia; done).
      rewrite Hsch. unfold sched_at. rewrite Hnone by lia. done.
Qed.
End Repair.

(** ** The third pass *)

(** Archiving only changes the text of user messages. *)
Definition same_context (m m' : ConversationMessage) : Prop :=
  match m, m' with
  | User u, User u' => um_context u' = um_context u
  | Assistant a, Assistant a' => a' = a
  | _, _ => False
  end.

Lemma same_context_refl m : same_context m m.
Proof. by destruct m. Qed.

Lemma same_context_trans m1 m2 m3 : same_context m1 m2 -> same_context m2 m3 -> same_context m1 m3.
Proof. destruct m1, m2, m3; simpl; intros; try done; congruence. Qed.

Lemma same_contexts_trans l1 l2 l3 :
  Forall2 same_context l1 l2 -> Forall2 same_context l2 l3 -> Forall2 same_context l1 l3.
Proof.
  intros H; revert l3; induction H; intros l3 H3; inversion H3; subst; constructor;
    eauto using same_context_trans.
Qed.

Lemma archive_result_same to_string messages stats c messages' stats' :
  archive_result to_string messages stats c = (messages', stats') ->
  Forall2 same_context messages messages'.
Proof.
  assert (Hrefl : Forall2 same_context messages messages)
    by (apply Forall2_same_length_lookup; split; [done|]; intros; simplify_eq;
        apply same_context_refl).
  unfold archive_result. repeat case_match; intros; simplify_eq; try done.
  apply Forall2_same_length_lookup. split; [by rewrite length_insert|].
  intros i x y Hx. rewrite list_lookup_insert. case_decide; naive_solver eauto using same_context_refl.
Qed.

Lemma archive_results_same to_string results messages stats messages' stats' :
  archive_results to_string messages stats results = (messages', stats') ->
  Forall2 same_context messages messages'.
Proof.
  unfold archive_results. revert messages stats.
  induction results as [|c results IH]; intros messages stats; simpl.
  - intros; simplify_eq. apply Forall2_same_length_lookup; split; [done|].
    intros; simplify_eq; apply same_context_refl.
  - destruct (archive_result to_string messages stats c) as [ms s] eqn:E.
    intros H%IH. apply archive_result_same in E.
    by eapply same_contexts_trans.
Qed.

Lemma same_context_uses messages messages' :
  Forall2 same_context messages messages' -> messages' ≫= uses_of = messages ≫= uses_of.
Proof.
  induction 1 as [|[] [] l l' Hm _ IH]; [done|..]; simpl in Hm; try done; subst;
    rewrite !bind_cons; by f_equal.
Qed.

Lemma same_context_paired active scheduled k messages messages' :
  Forall2 same_context messages messages' ->
  paired active scheduled k messages -> paired active scheduled k messages'.
Proof.
  intros H; revert k; induction H as [|[] [] ? ? Hm _ IH]; intros k; simpl in *; try done;
    subst; naive_solver.
Qed.

Lemma is_empty_trim s : is_empty (trim s) = false -> is_empty s = false.
Proof. by destruct s. Qed.

Lemma paired_ids active scheduled k messages id :
  paired active scheduled k messages -> id ∈ use_ids (messages ≫= uses_of) -> is_empty id = false.
Proof.
  unfold use_ids. revert k; induction messages as [|[u|a] messages IH]; intros k; simpl.
  - set_solver.
  - apply IH.
  - intros [Hp%pairs_good_uses Hrest]. rewrite fmap_app, elem_of_app. intros [Hin|]; [|by eapply IH].
    apply list_elem_of_fmap in Hin as (u & -> & Hu). rewrite Forall_forall in Hp.
    apply is_empty_trim, (Hp u), Hu.
Qed.

(** ** The three passes together *)

(** A message and what the pairing makes of it. *)
Definition pairing_rel (m m' : ConversationMessage) : Prop :=
  match m, m' with
  | User u, User u' => results_of u' = [] /\ tools_of u' = tools_of u
  | Assistant _, Assistant _ => True
  | _, _ => False
  end.

Lemma repair_tool_pairs_spec to_string messages active stats messages' scheduled stats' :
  repair_tool_pairs to_string messages active stats = (messages', scheduled, stats') ->
  Forall2 pairing_rel messages messages'
  /\ paired active scheduled 0 messages'
  /\ NoDup (use_ids (messages' ≫= uses_of)).
Proof.
  unfold repair_tool_pairs.
  destruct (collect_results 0 messages [] ∅) as [[ms1 rs1] ix1] eqn:E1.
  destruct (repair_messages _ _ _ 0 ms1 _) as [ms2 st2] eqn:E2.
  destruct (archive_results _ ms2 _ _) as [ms3 stats3] eqn:E3.
  intros; simplify_eq.
  apply collect_results_emptied in E1. apply archive_results_same in E3.
  apply repair_messages_spec in E2 as (_ & Hp & Hr & Hs & Hc); [|intros; apply lookup_empty].
  split_and!.
  - apply Forall2_same_length_lookup.
    apply Forall2_same_length_lookup in E1 as [L1 E1], Hr as [L2 Hr], E3 as [L3 E3].
    split; [congruence|]. intros i m m' Hm Hm'.
    destruct (lookup_lt_is_Some_2 ms1 i) as [m1 Hm1];
      [rewrite <- L1; by eapply lookup_lt_Some|].
    destruct (lookup_lt_is_Some_2 ms2 i) as [m2 Hm2];
      [rewrite <- L2; by eapply lookup_lt_Some|].
    specialize (E1 _ _ _ Hm Hm1); specialize (Hr _ _ _ Hm1 Hm2); specialize (E3 _ _ _ Hm2 Hm').
    destruct m, m1, m2, m'; simpl in *; try done. subst.
    unfold results_of, tools_of in *. by rewrite E3.
  - by eapply same_context_paired.
  - rewrite (same_context_uses _ _ E3). eapply sublist_unique; [done|].
    intros id Hid. rewrite <- tool_use_id_counts_spec; [by apply Hc|].
    by eapply paired_ids.
Qed.

(** ** The validator on good messages *)

Lemma validate_results_loop_ok results expected all_ids location :
  Forall good_result results ->
  NoDup (result_ids results) ->
  (forall id, id ∈ result_ids results -> id ∈ expected /\ id ∉ all_ids) ->
  validate_results_loop results expected all_ids location =
    Ok (list_to_set (result_ids results) ∪ all_ids).
Proof.
  unfold result_ids. revert all_ids; induction results as [|r results IH]; intros all_ids; simpl.
  { intros; f_equal; set_solver. }
  intros [[Hid Hst Hct] Hgood]%Forall_cons [Hnin Hnd]%NoDup_cons Hall.
  rewrite Hid. destruct (Hall (tr_tool_use_id r)) as [He Hn]; [set_solver|].
  rewrite (bool_decide_true (_ ∈ expected)), (bool_decide_false (_ ∈ all_ids)) by done. simpl.
  replace (negb _) with false
    by (destruct Hst as [-> | ->]; rewrite ?bool_decide_true, ?orb_true_r by done; done).
  destruct (tr_content r); [done|]. simpl.
  rewrite IH; [f_equal; set_solver|done|done|]. intros id Hid'.
  destruct (Hall id ltac:(set_solver)). set_solver.
Qed.

Lemma validate_user_results_ok user expected all_ids location :
  Forall good_result (results_of user) ->
  result_ids (results_of user) = expected ->
  NoDup expected -> (forall id, id ∈ expected -> id ∉ all_ids) ->
  validate_user_results user expected all_ids location = Ok (list_to_set expected ∪ all_ids).
Proof.
  intros Hgood <- Hnd Hnin. unfold validate_user_results.
  rewrite (proj2 (Nat.eqb_eq _ _)) by (unfold result_ids; by rewrite length_fmap). simpl.
  apply validate_results_loop_ok; [done..|]. intros id Hid; split; [set_solver|auto].
Qed.

Lemma validate_assistant_uses_ok uses active all_ids location :
  Forall (good_use active) uses -> NoDup (use_ids uses) ->
  (forall id, id ∈ use_ids uses -> id ∉ all_ids) ->
  validate_assistant_uses uses active all_ids location =
    Ok (use_ids uses, list_to_set (use_ids uses) ∪ all_ids).
Proof.
  unfold use_ids. revert all_ids; induction uses as [|u uses IH]; intros all_ids; simpl.
  { intros; f_equal; f_equal; set_solver. }
  intros [[Hid Hname Hin Hdef] Hgood]%Forall_cons [Hnin Hnd]%NoDup_cons Hall.
  rewrite Hid, Hname, Hin, (bool_decide_true (_ ∈ active)) by done.
  rewrite (bool_decide_false (_ ∈ all_ids)) by (apply Hall; set_solver). simpl.
  rewrite IH; [simpl; f_equal; f_equal; set_solver|done|done|].
  intros id Hid'. specialize (Hall id ltac:(set_solver)). set_solver.
Qed.

Lemma validate_loop_snoc active items item k vs :
  validate_loop active k (items ++ [item]) vs =
    result_bind (validate_loop active k items vs)
      (validate_step active (k + length items) item).
Proof.
  revert k vs; induction items as [|i items IH]; intros k vs; simpl.
  - rewrite Nat.add_0_r. by destruct (validate_step active k item vs).
  - destruct (validate_step active k i vs); simpl; [|done].
    rewrite IH. do 2 f_equal. lia.
Qed.

(** ** Alternating roles *)

Lemma results_of_add u rs : results_of u = [] -> results_of (add_tool_results u rs) = rs.
Proof.
  unfold results_of, add_tool_results.
  destruct rs, (um_context u) as [c|] eqn:E; simpl; rewrite ?E; try done; by intros ->.
Qed.

Lemma tools_of_add u rs : tools_of (add_tool_results u rs) = tools_of u.
Proof.
  unfold tools_of, add_tool_results. by destruct rs, (um_context u) eqn:E; simpl; rewrite ?E.
Qed.

Lemma results_of_synthetic t c rs : results_of (synthetic_user t c rs) = rs.
Proof. by destruct rs. Qed.

Lemma tools_of_synthetic t c rs : tools_of (synthetic_user t c rs) = [].
Proof. by destruct rs. Qed.

Section Roles.
Context (active : gset string).

Definition validated (output : list ConversationMessage) : result ValidateState string :=
  validate_loop active 0 (to_history_message <$> output) validate_start.

(** The loop of [normalize_roles] has produced an output the validator accepts
    so far; [ids] are the calls seen, the last of which wait for the pending
    results. *)
Record role_inv (output : list ConversationMessage) (pending : list KiroToolResult)
    (ids : list string) (vs : ValidateState) (done : list string) : Prop := {
  ri_valid : validated output = Ok vs;
  ri_user : vs_previous_was_user vs = last_is_user output;
  ri_ids : ids = done ++ vs_previous_uses vs;
  ri_use_ids : vs_all_use_ids vs = list_to_set ids;
  ri_result_ids : vs_all_result_ids vs = list_to_set done;
  ri_pending : result_ids pending = vs_previous_uses vs;
  ri_good : Forall good_result pending;
  ri_nodup : NoDup ids;
  ri_waiting : last_is_assistant output = false -> vs_previous_uses vs = [];
}.

Lemma last_is_user_snoc output m : last_is_user (output ++ [m]) = is_user m.
Proof. unfold last_is_user. by rewrite last_snoc. Qed.

Lemma last_is_assistant_snoc output m : last_is_assistant (output ++ [m]) = negb (is_user m).
Proof. unfold last_is_assistant. by rewrite last_snoc. Qed.

Lemma role_inv_start :
  role_inv [] [] [] validate_start [].
Proof. split; try done; constructor. Qed.

Lemma role_inv_user output pending ids vs done u :
  role_inv output pending ids vs done -> last_is_user output = false ->
  results_of u = pending -> tools_of u = [] ->
  exists vs', role_inv (output ++ [User u]) [] ids vs' ids.
Proof.
  intros [Hv Hu Hids Huse Hres Hpend Hgood Hnd Hw] Hlast Hr Ht.
  eexists {| vs_previous_was_user := true; vs_previous_uses := [];
             vs_all_use_ids := vs_all_use_ids vs;
             vs_all_result_ids := list_to_set ids |}.
  split; simpl; try done; rewrite ?last_is_user_snoc, ?app_nil_r; try done.
  unfold validated in *. rewrite fmap_app. simpl. rewrite validate_loop_snoc, Hv. simpl.
  unfold validate_step. simpl. rewrite Hu, Hlast, Ht. simpl.
  subst ids. apply NoDup_app in Hnd as (_ & Hdis & Hndp).
  rewrite (validate_user_results_ok u) by (subst; try done; rewrite Hres; set_solver).
  simpl. repeat f_equal. rewrite Hres, list_to_set_app_L. set_solver.
Qed.

Lemma role_inv_assistant output pending ids vs done a rs :
  role_inv output pending ids vs done -> last_is_user output = true ->
  Forall2 (pair_ok active) (am_tool_uses a) rs ->
  NoDup (ids ++ use_ids (am_tool_uses a)) ->
  exists vs', role_inv (output ++ [Assistant a]) rs (ids ++ use_ids (am_tool_uses a)) vs' ids.
Proof.
  intros [Hv Hu Hids Huse Hres Hpend Hgood Hnd Hw] Hlast Hp Hnd'.
  assert (Hprev : vs_previous_uses vs = []).
  { apply Hw. unfold last_is_user, last_is_assistant in *. destruct (last output) as [[]|]; done. }
  rewrite Hprev, app_nil_r in Hids. subst done.
  eexists {| vs_previous_was_user := false;
             vs_previous_uses := use_ids (am_tool_uses a);
             vs_all_use_ids := list_to_set (use_ids (am_tool_uses a)) ∪ vs_all_use_ids vs;
             vs_all_result_ids := vs_all_result_ids vs |}.
  split; simpl; rewrite ?last_is_user_snoc, ?last_is_assistant_snoc; try done.
  - unfold validated in *. rewrite fmap_app. simpl. rewrite validate_loop_snoc, Hv. simpl.
    unfold validate_step. simpl. rewrite Hu, Hlast.
    rewrite (proj2 (Nat.eqb_neq _ _)) by (rewrite length_fmap; by destruct output).
    simpl. apply NoDup_app in Hnd' as (_ & Hdis & Hndp).
    rewrite validate_assistant_uses_ok; [done|by eapply pairs_good_uses|done|].
    rewrite Huse. set_solver.
  - rewrite Huse, list_to_set_app_L. set_solver.
  - by eapply pairs_ids.
  - by eapply pairs_good_results.
Qed.

(** A past message: users carry neither results nor tool definitions. *)
Definition past_message (m : ConversationMessage) : Prop :=
  match m with User u => results_of u = [] /\ tools_of u = [] | Assistant _ => True end.

Lemma role_step_inv template scheduled k m st ids vs done :
  role_inv (ro_output st) (ro_pending st) ids vs done ->
  past_message m ->
  paired active scheduled k [m] ->
  NoDup (ids ++ use_ids (uses_of m)) ->
  let st' := role_step template scheduled k m st in
  exists vs' done',
    role_inv (ro_output st') (ro_pending st') (ids ++ use_ids (uses_of m)) vs' done'
    /\ ro_output st' <> [].
Proof.
  intros Hinv Hm Hp Hnd. destruct st as [output pending stats]; simpl in *.
  destruct m as [u|a]; simpl in *.
  - destruct Hm as [Hr Ht]. rewrite app_nil_r.
    destruct (last_is_user output) eqn:Hl; simpl.
    + destruct (role_inv_assistant _ _ _ _ _ synthetic_assistant [] Hinv Hl) as [vs1 H1];
        [by simpl; constructor|done|].
      simpl in H1. rewrite app_nil_r in H1.
      assert (pending = []) as ->.
      { destruct Hinv as [_ _ _ _ _ Hpend _ _ Hw]. rewrite Hw in Hpend.
        - by destruct pending.
        - unfold last_is_user, last_is_assistant in *. by destruct (last output) as [[]|]. }
      destruct (role_inv_user _ _ _ _ _ (add_tool_results u []) H1) as [vs2 H2]; try done.
      { by rewrite last_is_user_snoc. }
      exists vs2, ids. split; [done|]. by destruct output.
    + destruct (role_inv_user _ _ _ _ _ (add_tool_results u pending) Hinv) as [vs2 H2];
        [done|by apply results_of_add|by rewrite tools_of_add|].
      exists vs2, ids. split; [done|]. by destruct output.
  - destruct Hp as [Hp _]. unfold sched_at in Hp.
    destruct (is_nil output || last_is_assistant output) eqn:E; simpl.
    + assert (Hlu : last_is_user output = false).
      { unfold last_is_user, last_is_assistant in *. destruct output as [|? ?]; [done|].
        simpl in E. destruct (last _) as [[]|]; done. }
      set (s := synthetic_user template _ pending).
      destruct (role_inv_user _ _ _ _ _ s Hinv) as [vs1 H1];
        [done|apply results_of_synthetic|apply tools_of_synthetic|].
      destruct (role_inv_assistant _ _ _ _ _ a _ H1 (last_is_user_snoc _ _) Hp Hnd) as [vs2 H2].
      exists vs2, ids. split; [done|]. by destruct (output ++ _).
    + apply orb_false_iff in E as [E1 E2].
      assert (Hlu : last_is_user output = true).
      { unfold last_is_user, last_is_assistant in *.
        destruct (last output) as [[]|] eqn:El; simpl in *; try done.
        apply last_None in El. by subst. }
      destruct (role_inv_assistant _ _ _ _ _ a _ Hinv Hlu Hp Hnd) as [vs2 H2].
      exists vs2, ids. split; [done|]. by destruct output.
Qed.
Lemma role_loop_inv template scheduled messages k st ids vs done :
  role_inv (ro_output st) (ro_pending st) ids vs done ->
  Forall past_message messages ->
  paired active scheduled k messages ->
  NoDup (ids ++ use_ids (messages ≫= uses_of)) ->
  let st' := role_loop template scheduled k messages st in
  exists vs' done',
    role_inv (ro_output st') (ro_pending st') (ids ++ use_ids (messages ≫= uses_of)) vs' done'.
Proof.
  revert k st ids vs done; induction messages as [|m messages IH];
    intros k st ids vs done Hinv Hpast Hp Hnd; cbn [role_loop].
  { simpl. rewrite app_nil_r. eauto. }
  apply Forall_cons in Hpast as [Hm Hpast].
  unfold use_ids in Hnd |- *. rewrite bind_cons, fmap_app, app_assoc in Hnd |- *.
  destruct (role_step_inv template scheduled k m st ids vs done) as (vs1 & done1 & H1 & _);
    [done|done| |by apply NoDup_app in Hnd as [? _]|].
  { destruct m; simpl in *; naive_solver. }
  eapply IH; [exact H1|done| |done]. destruct m; simpl in Hp; naive_solver.
Qed.

(** The current message: its tool definitions stay, and it receives the
    pending results. *)
Lemma role_step_current template scheduled k u st ids vs done :
  role_inv (ro_output st) (ro_pending st) ids vs done -> results_of u = [] ->
  exists output vs' done',
    ro_output (role_step template scheduled k (User u) st) =
      output ++ [User (add_tool_results u (ro_pending st))]
    /\ role_inv output (ro_pending st) ids vs' done' /\ last_is_user output = false.
Proof.
  intros Hinv Hr. simpl. destruct (last_is_user (ro_output st)) eqn:Hl; simpl; [|by eauto 10].
  destruct (role_inv_assistant _ _ _ _ _ synthetic_assistant [] Hinv Hl) as [vs1 H1];
    [by simpl; constructor|simpl; rewrite app_nil_r; apply Hinv|].
  simpl in H1. rewrite app_nil_r in H1.
  assert (ro_pending st = []) as ->.
  { destruct Hinv as [_ _ _ _ _ Hpend _ _ Hw]. rewrite Hw in Hpend; [by destruct (ro_pending st)|].
    unfold last_is_user, last_is_assistant in *. by destruct (last _) as [[]|]. }
  eexists _, _, _. split_and!; [done|done|by rewrite last_is_user_snoc].
Qed.
End Roles.

Lemma role_loop_app template scheduled messages messages' k st :
  role_loop template scheduled k (messages ++ messages') st =
    role_loop template scheduled (k + length messages) messages'
      (role_loop template scheduled k messages st).
Proof.
  revert k st; induction messages as [|m messages IH]; intros k st; simpl.
  - by rewrite Nat.add_0_r.
  - rewrite IH. f_equal. lia.
Qed.

(** What [normalize_roles] returns on repaired messages that end with the
    current one. *)
Lemma normalize_roles_spec active past u scheduled stats :
  Forall past_message past -> results_of u = [] ->
  paired active scheduled 0 past -> NoDup (use_ids (past ≫= uses_of)) ->
  exists output pending vs ids done stats',
    normalize_roles (past ++ [User u]) scheduled stats =
      (output ++ [User (add_tool_results u pending)], stats')
    /\ role_inv active output pending ids vs done /\ last_is_user output = false.
Proof.
  intros Hpast Hr Hp Hnd. unfold normalize_roles.
  set (t := find_template _). rewrite role_loop_app.
  destruct (role_loop_inv active t scheduled past 0
              {| ro_output := []; ro_pending := []; ro_stats := stats |} [] validate_start [])
    as (vs & dn & Hinv); [apply role_inv_start|done..|].
  set (st := role_loop t scheduled 0 past _) in *.
  destruct (role_step_current active t scheduled (0 + length past) u st _ _ _ Hinv Hr)
    as (output & vs' & done' & Ho & Hinv' & Hl).
  cbn [role_loop]. rewrite Ho, last_is_assistant_snoc.
  replace (is_nil (output ++ _)) with false by (by destruct output). simpl.
  by eauto 15.
Qed.

Lemma validate_current_ok payload active output pending ids vs done u :
  let cur := add_tool_results u pending in
  cs_current_message (p_conversation_state payload) = cur ->
  history payload = to_history_message <$> output ->
  active = list_to_set (spec_names (tools_of u)) -> NoDup (spec_names (tools_of u)) ->
  (forall n, n ∈ spec_names (tools_of u) -> is_empty (trim n) = false) ->
  results_of u = [] ->
  role_inv active output pending ids vs done -> last_is_user output = false ->
  validate_kiro_tool_history payload = Ok tt.
Proof.
  intros cur Hcur Hh Hact Hnd Hne Hr [Hv Hu Hids Huse Hres Hpend Hgood Hndi Hw] Hl.
  unfold validate_kiro_tool_history. rewrite Hcur, Hh. unfold cur at 1 2 3 4. rewrite tools_of_add.
  destruct (existsb _ _) eqn:E.
  { apply existsb_exists in E as (n & Hn%list_elem_of_In & En). by rewrite Hne in En. }
  rewrite size_list_to_set, Nat.eqb_refl by done. simpl.
  rewrite <- Hact. unfold validated in Hv. rewrite Hv. simpl. rewrite Hu, Hl. simpl.
  rewrite andb_false_r.
  replace (if is_nil _ then [] else vs_previous_uses vs) with (vs_previous_uses vs)
    by (destruct output; [by rewrite Hw|done]).
  subst ids. apply NoDup_app in Hndi as (_ & Hdis & Hndp).
  unfold cur. rewrite validate_user_results_ok; rewrite ?results_of_add; try done.
  rewrite Hres. set_solver.
Qed.

Lemma strip_history_user_tools u stats u' stats' :
  strip_history_user u stats = (u', stats') -> tools_of u' = [].
Proof.
  unfold strip_history_user, tools_of. destruct (um_context u) as [c|] eqn:E; intros; simplify_eq/=.
  - by destruct (ctx_tool_results c).
  - by rewrite E.
Qed.

Definition no_tools (m : ConversationMessage) : Prop :=
  match m with User u => tools_of u = [] | Assistant _ => True end.

Lemma flatten_history_no_tools items stats messages stats' :
  flatten_history items stats = (messages, stats') -> Forall no_tools messages.
Proof.
  revert stats messages stats'; induction items as [|item items IH]; intros stats messages stats';
    cbn [flatten_history]; [by intros; simplify_eq|].
  destruct (hm_user item) as [u|].
  - destruct (strip_history_user u stats) as [u' s] eqn:E.
    destruct (flatten_history items s) as [ms s'] eqn:E'; intros; simplify_eq.
    apply strip_history_user_tools in E. constructor; [done|].
    destruct (hm_assistant item); simpl; [constructor|]; eauto; done.
  - destruct (flatten_history items stats) as [ms s'] eqn:E'; intros; simplify_eq.
    destruct (hm_assistant item); simpl; [constructor|]; eauto; done.
Qed.

Lemma paired_app_l active scheduled k messages messages' :
  paired active scheduled k (messages ++ messages') -> paired active scheduled k messages.
Proof.
  revert k; induction messages as [|[u|a] messages IH]; intros k; simpl; naive_solver.
Qed.

(** Everything the repair establishes about its messages, before the roles are
    normalized. *)
Lemma repaired_messages to_string past cur active stats messages scheduled stats' :
  Forall no_tools past ->
  repair_tool_pairs to_string (past ++ [User cur]) active stats = (messages, scheduled, stats') ->
  exists past' cur',
    messages = past' ++ [User cur'] /\ Forall past_message past'
    /\ results_of cur' = [] /\ tools_of cur' = tools_of cur
    /\ paired active scheduled 0 past' /\ NoDup (use_ids (past' ≫= uses_of)).
Proof.
  intros Hno (Hrel & Hp & Hnd)%repair_tool_pairs_spec.
  apply Forall2_app_inv_l in Hrel as (past' & tail & Hpast & Htail & ->).
  inversion Htail as [|? m' ? ? Hm Hnil]; subst. inversion Hnil; subst.
  destruct m' as [cur'|]; [|done]. destruct Hm as [Hr Ht].
  exists past', cur'. split_and!; try done.
  - clear -Hno Hpast. induction Hpast as [|[] [] ? ? Hm _ IH]; inversion Hno; subst;
      constructor; simpl in *; try done; [|by apply IH..].
    destruct Hm as [? ->]. done.
  - by eapply paired_app_l.
  - unfold use_ids in *. rewrite bind_app, fmap_app in Hnd. simpl in Hnd.
    by rewrite app_nil_r in Hnd.
Qed.

(** ** Main theorem *)

(** C1: Sanitizing always yields a payload that satisfies Kiro's strict tool
    history contract: for every client history, however incomplete, duplicated
    or malformed, and however the archived records are printed, the validator
    accepts the sanitized payload. *)
Theorem sanitize_kiro_tool_history_valid (to_string : value -> string) (payload : KiroPayload) :
  validate_kiro_tool_history (fst (sanitize_kiro_tool_history to_string payload)) = Ok tt.
Proof.
  unfold sanitize_kiro_tool_history. set (state := p_conversation_state payload).
  destruct (sanitize_current_tool_definitions _ _) as [[ctx active] s1] eqn:E1.
  apply sanitize_definitions_spec in E1 as (Hact & Hnd & Hne).
  set (current := um_set_context _ ctx) in *.
  destruct (flatten_history _ s1) as [past s2] eqn:E2. apply flatten_history_no_tools in E2.
  destruct (repair_tool_pairs _ _ _ _) as [[messages scheduled] s3] eqn:E3.
  apply repaired_messages in E3 as (past' & cur' & -> & Hpast & Hr & Ht & Hp & Hnd'); [|done].
  destruct (normalize_roles_spec active past' cur' scheduled s3)
    as (output & pending & vs & ids & dn & s4 & -> & Hinv & Hl); [done..|].
  rewrite last_snoc, removelast_last. simpl.
  eapply (validate_current_ok _ active output pending); rewrite ?Ht; done.
Qed.

(** ** No call is lost *)

(** The calls of a history, in order. *)
Definition item_uses (item : KiroHistoryMessage) : list KiroToolUse :=
  match hm_assistant item with Some a => am_tool_uses a | None => [] end.

Definition history_uses (p : KiroPayload) : list KiroToolUse := history p ≫= item_uses.

Lemma flattened_bump c n s :
  c <> CFlattenedUses -> flattened_tool_uses (bump c n s) = flattened_tool_uses s.
Proof. intros Hc. unfold bump; simpl. by rewrite bool_decide_false. Qed.

Lemma flattened_bump_if b c s :
  c <> CFlattenedUses -> flattened_tool_uses (bump_if b c s) = flattened_tool_uses s.
Proof. intros Hc. destruct b; [by apply flattened_bump|done]. Qed.

Lemma flattened_bump_eq s :
  (0 <= flattened_tool_uses s < USIZE_MAX)%Z ->
  flattened_tool_uses (bump CFlattenedUses 1 s) = (flattened_tool_uses s + 1)%Z.
Proof. intros. unfold bump; simpl. unfold sat_add. lia. Qed.

Create Rewrite HintDb flattened.
#[local] Hint Rewrite flattened_bump flattened_bump_if using done : flattened.

Lemma take_matching_stats st i id m st' :
  take_matching st i id = (m, st') -> rs_stats st' = rs_stats st.
Proof. unfold take_matching. repeat case_match; intros; simplify_eq/=; done. Qed.

Lemma pair_result_flattened i id m stats r stats' :
  pair_result i id m stats = (r, stats') -> flattened_tool_uses stats' = flattened_tool_uses stats.
Proof.
  unfold pair_result. destruct m as [[src r0]|].
  - destruct (normalize_result r0). intros [= _ <-]. by autorewrite with flattened.
  - intros [= _ <-]. by autorewrite with flattened.
Qed.

Lemma repair_use_flattened ts counts active i content st u content' kept st' :
  (0 <= flattened_tool_uses (rs_stats st) < USIZE_MAX)%Z ->
  repair_use ts counts active i content st u = (content', kept, st') ->
  flattened_tool_uses (rs_stats st') =
    (flattened_tool_uses (rs_stats st) + match kept with Some _ => 0 | None => 1 end)%Z.
Proof.
  intros Hb. unfold repair_use. destruct (_ || _) eqn:E.
  - intros [= _ <- <-]. simpl. autorewrite with flattened. by apply flattened_bump_eq.
  - destruct (take_matching _ i _) as [m st1] eqn:Em.
    destruct (pair_result i _ m _) as [r stats] eqn:Er.
    intros [= _ <- <-]. simpl. apply pair_result_flattened in Er as ->.
    apply take_matching_stats in Em as ->. simpl. autorewrite with flattened. lia.
Qed.

Lemma repair_uses_flattened ts counts active i uses content st content' kept st' :
  (0 <= flattened_tool_uses (rs_stats st))%Z ->
  (flattened_tool_uses (rs_stats st) + Z.of_nat (length uses) <= USIZE_MAX)%Z ->
  repair_uses ts counts active i content st uses = (content', kept, st') ->
  (flattened_tool_uses (rs_stats st') + Z.of_nat (length kept) =
     flattened_tool_uses (rs_stats st) + Z.of_nat (length uses))%Z
  /\ length kept <= length uses.
Proof.
  revert content st content' kept st'.
  induction uses as [|u uses IH]; intros content st content' kept st' H0 Hb; cbn [repair_uses].
  { by intros; simplify_eq. }
  destruct (repair_use _ _ _ i content st u) as [[c1 k1] st1] eqn:E1.
  destruct (repair_uses _ _ _ i c1 st1 uses) as [[c2 k2] st2] eqn:E2.
  intros; simplify_eq. simpl in Hb. apply repair_use_flattened in E1; [|lia].
  apply IH in E2; [|destruct k1; lia..]. destruct k1; simpl; lia.
Qed.

Lemma repair_messages_flattened ts counts active messages k st messages' st' :
  (0 <= flattened_tool_uses (rs_stats st))%Z ->
  (flattened_tool_uses (rs_stats st) + Z.of_nat (length (messages ≫= uses_of)) <= USIZE_MAX)%Z ->
  repair_messages ts counts active k messages st = (messages', st') ->
  (flattened_tool_uses (rs_stats st') + Z.of_nat (length (messages' ≫= uses_of)) =
     flattened_tool_uses (rs_stats st) + Z.of_nat (length (messages ≫= uses_of)))%Z.
Proof.
  revert k st messages' st'; induction messages as [|[u|a] messages IH];
    intros k st messages' st' H0 Hb; cbn [repair_messages].
  { by intros; simplify_eq. }
  - destruct (repair_messages _ _ _ (S k) messages st) as [ms s1] eqn:E; intros; simplify_eq.
    by apply IH in E.
  - destruct (repair_uses _ _ _ k _ st _) as [[c kept] s1] eqn:E1.
    destruct (repair_messages _ _ _ (S k) messages s1) as [ms s2] eqn:E2; intros; simplify_eq.
    rewrite bind_cons, length_app in Hb. cbn [uses_of] in Hb.
    apply repair_uses_flattened in E1; [|lia..].
    apply IH in E2; [|lia..]. rewrite !bind_cons, !length_app. cbn [uses_of am_tool_uses]. lia.
Qed.

Lemma archive_results_flattened ts results messages stats messages' stats' :
  archive_results ts messages stats results = (messages', stats') ->
  flattened_tool_uses stats' = flattened_tool_uses stats.
Proof.
  unfold archive_results. revert messages stats.
  induction results as [|c results IH]; intros messages stats; simpl; [by intros; simplify_eq|].
  destruct (archive_result ts messages stats c) as [ms s] eqn:E. intros ->%IH.
  unfold archive_result in E. repeat case_match; simplify_eq; by autorewrite with flattened.
Qed.

Lemma emptied_uses messages messages' :
  Forall2 emptied messages messages' -> messages' ≫= uses_of = messages ≫= uses_of.
Proof.
  induction 1 as [|[] [] l l' Hm _ IH]; [done|..]; simpl in Hm; try done; subst;
    rewrite !bind_cons; by f_equal.
Qed.

(** The calls kept by the pairing, against the calls it was given. *)
Lemma repair_tool_pairs_calls ts messages active stats messages' scheduled stats' :
  flattened_tool_uses stats = 0%Z ->
  (Z.of_nat (length (messages ≫= uses_of)) <= USIZE_MAX)%Z ->
  repair_tool_pairs ts messages active stats = (messages', scheduled, stats') ->
  use_ids (messages' ≫= uses_of) `sublist_of` trimmed_ids messages
  /\ (flattened_tool_uses stats' + Z.of_nat (length (messages' ≫= uses_of)) =
        Z.of_nat (length (messages ≫= uses_of)))%Z.
Proof.
  intros H0 Hb. unfold repair_tool_pairs.
  destruct (collect_results 0 messages [] ∅) as [[ms1 rs1] ix1] eqn:E1.
  destruct (repair_messages _ _ _ 0 ms1 _) as [ms2 st2] eqn:E2.
  destruct (archive_results _ ms2 _ _) as [ms3 stats3] eqn:E3.
  intros; simplify_eq. apply collect_results_emptied, emptied_uses in E1.
  apply archive_results_flattened in E3 as Hf. apply archive_results_same, same_context_uses in E3.
  rewrite Hf, E3. split.
  - apply repair_messages_spec in E2 as (_ & _ & _ & Hs & _); [|intros; apply lookup_empty].
    unfold trimmed_ids in *. by rewrite <- E1.
  - apply repair_messages_flattened in E2; simpl in *; rewrite ?H0, ?E1 in *; lia.
Qed.

Lemma flatten_history_uses items stats messages stats' :
  flatten_history items stats = (messages, stats') ->
  messages ≫= uses_of = items ≫= item_uses
  /\ flattened_tool_uses stats' = flattened_tool_uses stats.
Proof.
  revert stats messages stats'; induction items as [|item items IH]; intros stats messages stats';
    cbn [flatten_history]; [by intros; simplify_eq|].
  assert (Hs : forall u s u' s', strip_history_user u s = (u', s') ->
                 flattened_tool_uses s' = flattened_tool_uses s).
  { intros u s u' s'. unfold strip_history_user.
    destruct (um_context u); intros [= _ <-]; by autorewrite with flattened. }
  destruct (hm_user item) as [u|].
  - destruct (strip_history_user u stats) as [u' s] eqn:E.
    destruct (flatten_history items s) as [ms s'] eqn:E'; intros; simplify_eq.
    apply IH in E' as [Hu ->]. apply Hs in E as ->. split; [|done].
    rewrite ?bind_cons, !bind_app, <- Hu. cbn [mbind list_bind]. unfold item_uses.
    by destruct (hm_assistant item); simpl; rewrite ?app_nil_r.
  - destruct (flatten_history items stats) as [ms s'] eqn:E'; intros; simplify_eq.
    apply IH in E' as [Hu ->]. split; [|done].
    rewrite ?bind_cons, !bind_app, <- Hu. cbn [mbind list_bind]. unfold item_uses.
    by destruct (hm_assistant item); simpl; rewrite ?app_nil_r.
Qed.

Lemma retain_tools_flattened tools names stats kept names' stats' :
  retain_tools tools names stats = (kept, names', stats') ->
  flattened_tool_uses stats' = flattened_tool_uses stats.
Proof.
  revert names stats kept names' stats'.
  induction tools as [|t tools IH]; intros names stats kept names' stats'; simpl.
  { by intros; simplify_eq. }
  destruct (specification t); [destruct (_ && _)|].
  - destruct (retain_tools tools _ stats) as [[? ?] ?] eqn:E; intros; simplify_eq; eauto.
  - intros ->%IH. by autorewrite with flattened.
  - destruct (retain_tools tools _ stats) as [[? ?] ?] eqn:E; intros; simplify_eq; eauto.
Qed.

Lemma role_step_uses t scheduled k m st :
  ro_output (role_step t scheduled k m st) ≫= uses_of = (ro_output st ≫= uses_of) ++ uses_of m
  /\ flattened_tool_uses (ro_stats (role_step t scheduled k m st)) =
       flattened_tool_uses (ro_stats st).
Proof.
  unfold role_step. destruct m as [u|a].
  - destruct (last_is_user _); cbn [ro_output ro_stats]; autorewrite with flattened;
      rewrite !bind_app; simpl; by rewrite ?app_nil_r.
  - destruct (_ || _); cbn [ro_output ro_stats]; autorewrite with flattened;
      rewrite !bind_app; simpl; by rewrite ?app_nil_r.
Qed.

Lemma role_loop_uses t scheduled messages k st :
  ro_output (role_loop t scheduled k messages st) ≫= uses_of =
    (ro_output st ≫= uses_of) ++ (messages ≫= uses_of)
  /\ flattened_tool_uses (ro_stats (role_loop t scheduled k messages st)) =
       flattened_tool_uses (ro_stats st).
Proof.
  revert k st; induction messages as [|m messages IH]; intros k st; cbn [role_loop].
  { by rewrite app_nil_r. }
  destruct (IH (S k) (role_step t scheduled k m st)) as [-> ->].
  destruct (role_step_uses t scheduled k m st) as [-> ->].
  by rewrite bind_cons, app_assoc.
Qed.

Lemma normalize_roles_uses messages scheduled stats messages' stats' :
  normalize_roles messages scheduled stats = (messages', stats') ->
  messages' ≫= uses_of = messages ≫= uses_of
  /\ flattened_tool_uses stats' = flattened_tool_uses stats.
Proof.
  unfold normalize_roles. set (t := find_template _). set (st0 := {| ro_output := [] |}).
  destruct (role_loop_uses t scheduled messages 0 st0) as [Hu Hf].
  case_match; intros; simplify_eq; autorewrite with flattened; rewrite ?bind_app, Hu, Hf; simpl;
    by rewrite ?app_nil_r.
Qed.

Lemma to_history_uses messages :
  (to_history_message <$> messages) ≫= item_uses = messages ≫= uses_of.
Proof.
  induction messages as [|[] messages IH]; [done|..]; rewrite fmap_cons, !bind_cons; by f_equal.
Qed.

(** C2: Sanitizing neither invents, duplicates nor reorders calls, and loses
    none: the ids of the calls left in the history are a subsequence of the
    (trimmed) ids the client sent, and every call missing from it is counted as
    archived into the text. *)
Theorem sanitize_kiro_tool_history_calls (to_string : value -> string) (payload : KiroPayload) :
  (Z.of_nat (length (history_uses payload)) <= USIZE_MAX)%Z ->
  let '(payload', stats) := sanitize_kiro_tool_history to_string payload in
  use_ids (history_uses payload')
    `sublist_of` ((fun u => trim (tu_tool_use_id u)) <$> history_uses payload)
  /\ (flattened_tool_uses stats + Z.of_nat (length (history_uses payload')) =
        Z.of_nat (length (history_uses payload)))%Z.
Proof.
  intros Hb. unfold sanitize_kiro_tool_history. set (state := p_conversation_state payload).
  destruct (sanitize_current_tool_definitions _ _) as [[ctx active] s1] eqn:E1.
  assert (H1 : flattened_tool_uses s1 = 0%Z).
  { unfold sanitize_current_tool_definitions in E1. destruct (um_context _); [|by simplify_eq].
    destruct (retain_tools _ _ _) as [[? ?] ?] eqn:Er; simplify_eq.
    by apply retain_tools_flattened in Er as ->. }
  set (current := um_set_context _ ctx).
  destruct (flatten_history _ s1) as [past s2] eqn:E2.
  apply flatten_history_no_tools in E2 as Hno. apply flatten_history_uses in E2 as [Hu2 Hf2].
  destruct (repair_tool_pairs _ _ _ _) as [[messages scheduled] s3] eqn:E3.
  assert (Hu3 : (past ++ [User current]) ≫= uses_of = history_uses payload)
    by (rewrite bind_app, Hu2; simpl; by rewrite app_nil_r).
  assert (Hcalls := E3). apply repair_tool_pairs_calls in Hcalls as [Hsub Hlen];
    [|by rewrite Hf2|by rewrite Hu3].
  apply repaired_messages in E3 as (past' & cur' & -> & Hpast & Hr & Ht & Hp & Hnd'); [|done].
  destruct (normalize_roles_spec active past' cur' scheduled s3)
    as (output & pending & vs & ids & dn & s4 & Hn & _); [done..|].
  rewrite Hn. apply normalize_roles_uses in Hn as [Hu4 Hf4].
  rewrite !bind_app in Hu4. simpl in Hu4. rewrite !app_nil_r in Hu4.
  rewrite bind_app in Hsub, Hlen. simpl in Hsub, Hlen. rewrite app_nil_r in Hsub, Hlen.
  rewrite last_snoc, removelast_last. unfold trimmed_ids in Hsub. rewrite Hu3 in Hsub, Hlen.
  unfold history_uses at 1 3, history. simpl. rewrite to_history_uses, Hu4, Hf4. done.
Qed.

Definition demo_user (content : string) (results : list KiroToolResult) : KiroUserInputMessage :=
  {| um_content := content; um_model_id := "m"; um_origin := "AI_EDITOR"; um_images := [];
     um_documents := []; um_cache_point := None; um_client_cache_config := None;
     um_context := Some {| ctx_tool_results := results; ctx_tools := []; ctx_env_state := None |} |}.

(** Two calls with the same id, one answered, to a tool that is not declared. *)
Definition demo_payload : KiroPayload :=
  {| p_conversation_state :=
       {| cs_agent_continuation_id := None; cs_agent_task_type := None;
          cs_chat_trigger_type := "MANUAL"; cs_conversation_id := "c";
          cs_current_message :=
            demo_user "" [{| tr_content := [{| kt_text := "ok" |}]; tr_status := "success";
                             tr_tool_use_id := "t1" |}];
          cs_history :=
            [{| hm_user := Some (demo_user "hi" []); hm_assistant := None |};
             {| hm_user := None;
                hm_assistant :=
                  Some {| am_content := "calling"; am_cache_point := None;
                          am_tool_uses :=
                            [{| tu_tool_use_id := "t1"; tu_name := "f"; tu_input := Object [] |};
                             {| tu_tool_use_id := "t1"; tu_name := "f"; tu_input := Object [] |}] |} |}] |};
     p_profile_arn := None; p_inference_config := None; p_additional_model_request_fields := None;
     p_model_request_intent := None; p_protected_history_messages := 0 |}.

Lemma sanitize_kiro_tool_history_calls_witness :
  let '(payload', stats) := sanitize_kiro_tool_history (fun _ => "{}") demo_payload in
  use_ids (history_uses payload')
    `sublist_of` ((fun u => trim (tu_tool_use_id u)) <$> history_uses demo_payload)
  /\ (flattened_tool_uses stats + Z.of_nat (length (history_uses payload')) = 2)%Z.
Proof.
  apply (sanitize_kiro_tool_history_calls (fun _ => "{}") demo_payload).
  vm_compute. discriminate.
Defined.
