(* ===== verification/EventStream.v ===== *)
(** * The AWS event stream decoder

    [kproxy-kiro/src/event_stream.rs]: the incremental decoder of the binary
    event stream Kiro answers with, and the translation of a frame into a
    [KiroEvent].

    The receive buffer is the list of its bytes; [decode] returns the outcome
    and the buffer it leaves.  The CRC-32 of the [crc32fast] crate and the JSON
    parser and printer of [serde_json] are arguments. *)

From Stdlib Require Import ZArith Lia Ascii String.
From stdpp Require Import base list gmap strings.
From S2P Require Import Prelude RustStr F64 Json.

Local Open Scope string_scope.
Local Open Scope list_scope.
Local Open Scope kproxy_scope.

Definition MIN_FRAME_LENGTH : Z := 16.
Definition MAX_FRAME_LENGTH : Z := 50 * 1024 * 1024.

(** ** Events *)

Record KiroCitation := {
  ct_text : option string;
  ct_link : string;
  ct_target : value;
  ct_kind : string;
}.

Inductive KiroEvent :=
| AssistantResponse (content : string)
| ToolUse (id name input_delta : string) (stop : bool)
| Reasoning (content : string) (signature redacted_content : option string)
| Citations (citations : list KiroCitation)
| MessageMetadata (usage : value)
| UsageEvent (usage : value)
| ErrorEvent (kind message : string)
| OtherEvent (event_type : string) (payload : value).

(** ** Bytes *)

(** [u32::from_be_bytes] and [u16::from_be_bytes] at an offset of the buffer. *)
Definition byte_at (l : bytes) (i : nat) : Z := code (unwrap_or (l !! i) "000"%char).

Definition be_u16 (l : bytes) (i : nat) : Z := (byte_at l i * 256 + byte_at l (i + 1))%Z.

Definition be_u32 (l : bytes) (i : nat) : Z :=
  (((byte_at l i * 256 + byte_at l (i + 1)) * 256 + byte_at l (i + 2)) * 256
   + byte_at l (i + 3))%Z.

(** [&l[a..b]]. *)
Definition slice (l : bytes) (a b : nat) : bytes := take (b - a) (drop a l).

(** [std::str::from_utf8]: shortest forms only, no surrogates, at most U+10FFFF. *)
Fixpoint utf8_valid (l : bytes) : bool :=
  match l with
  | [] => true
  | a :: l1 =>
      if in_range 0 127 a then utf8_valid l1 else
      match l1 with
      | [] => false
      | b :: l2 =>
          if in_range 0xC2 0xDF a then in_range 0x80 0xBF b && utf8_valid l2 else
          match l2 with
          | [] => false
          | c :: l3 =>
              if in_range 0xE0 0xEF a then
                in_range (if (code a =? 0xE0)%Z then 0xA0 else 0x80)
                         (if (code a =? 0xED)%Z then 0x9F else 0xBF) b
                && in_range 0x80 0xBF c && utf8_valid l3
              else
                match l3 with
                | [] => false
                | d :: l4 =>
                    in_range 0xF0 0xF4 a
                    && in_range (if (code a =? 0xF0)%Z then 0x90 else 0x80)
                                (if (code a =? 0xF4)%Z then 0x8F else 0xBF) b
                    && in_range 0x80 0xBF c && in_range 0x80 0xBF d && utf8_valid l4
                end
          end
      end
  end.

Definition from_utf8 (l : bytes) (error : string) : result string string :=
  if utf8_valid l then Ok (l2s l) else Err error.

(** ** Headers *)

Definition headers : Type := gmap string string.

(** How one header value advances the offset, and the string it defines. *)
Definition parse_header_value (bytes : bytes) (offset : nat) (kind : Z) :
    result (nat * option string) string :=
  let n := length bytes in
  match kind with
  | 7%Z =>
      if (n <? offset + 2)%nat then Err "truncated event stream string header" else
      let length := Z.to_nat (be_u16 bytes offset) in
      let offset := offset + 2 in
      if (n <? offset + length)%nat then Err "truncated event stream string value" else
      let? value :=
        from_utf8 (slice bytes offset (offset + length)) "event stream header is not UTF-8" in
      Ok (offset + length, Some value)
  | 0%Z | 1%Z => Ok (offset, None)
  | 2%Z => Ok (offset + 1, None)
  | 3%Z => Ok (offset + 2, None)
  | 4%Z => Ok (offset + 4, None)
  | 5%Z | 8%Z => Ok (offset + 8, None)
  | 6%Z =>
      if (n <? offset + 2)%nat then Err "truncated byte-array header" else
      Ok (offset + (2 + Z.to_nat (be_u16 bytes offset)), None)
  | 9%Z => Ok (offset + 16, None)
  | _ => Err ("unknown event stream header type " +:+ show_padded 0 kind)
  end.

(** One iteration of the loop: the offset behind the header and the headers. *)
Definition parse_header (bytes : bytes) (offset : nat) (hs : headers) :
    result (nat * headers) string :=
  let n := length bytes in
  let name_len := Z.to_nat (byte_at bytes offset) in
  let offset := offset + 1 in
  if (n <? offset + name_len + 1)%nat then Err "truncated event stream header name" else
  let? name :=
    from_utf8 (slice bytes offset (offset + name_len)) "event stream header name is not UTF-8" in
  let offset := offset + name_len in
  let kind := byte_at bytes offset in
  let? (offset, value) := parse_header_value bytes (offset + 1) kind in
  if (n <? offset)%nat then Err "truncated event stream header value" else
  Ok (offset, match value with Some v => <[name := v]> hs | None => hs end).

(** The loop; [None] when the fuel runs out. *)
Fixpoint parse_headers_loop (fuel : nat) (bytes : bytes) (offset : nat) (hs : headers) :
    option (result headers string) :=
  match fuel with
  | O => None
  | S fuel =>
      if (offset <? length bytes)%nat then
        match parse_header bytes offset hs with
        | Ok (offset, hs) => parse_headers_loop fuel bytes offset hs
        | Err e => Some (Err e)
        end
      else Some (Ok hs)
  end.

(** Every iteration consumes at least two bytes, so the length is fuel enough. *)
Definition parse_headers (bytes : bytes) : result headers string :=
  unwrap_or (parse_headers_loop (S (length bytes)) bytes 0 ∅) (Err "out of fuel").

(** ** From a frame to an event *)

Definition find_key (v : value) (keys : list string) : option string :=
  list_find (fun k => is_some (get v k) = true) keys ≫= fun '(_, k) => Some k.

Definition detected_event_type (v : value) : option string :=
  or_else
    (find_key v
       ["assistantResponseEvent"; "toolUseEvent"; "reasoningContentEvent";
        "messageMetadataEvent"; "metadataEvent"; "usageEvent"; "meteringEvent";
        "supplementaryWebLinksEvent"; "codeReferenceEvent"; "followupPromptEvent";
        "citationEvent"; "contextUsageEvent"; "invalidStateEvent"])
    (if is_some (get v "citationLink") then Some "citationEvent" else None).

Definition nested_str (v : value) (wrapper key : string) : option string :=
  get_str (unwrap_or (get v wrapper) v) key.

(** The first of the fields that holds a non-empty string. *)
Definition first_non_empty (v : value) (fields : list string) : option string :=
  find_map (fun field => opt_filter (fun s => negb (is_empty s)) (get_str v field)) fields.

(** The same after trimming. *)
Definition first_trimmed (v : value) (fields : list string) : option string :=
  find_map (fun field => opt_filter (fun s => negb (is_empty s)) (trim <$> get_str v field))
    fields.

Definition citation_of (kind : string) (item : value) : option KiroCitation :=
  let link := first_trimmed item ["citationLink"; "url"; "repository"] in
  let text :=
    first_trimmed item ["citationText"; "title"; "licenseName"; "snippet"; "content"] in
  if is_none link && is_none text then None else
  Some {| ct_text := text;
          ct_link := unwrap_or link "";
          ct_target :=
            unwrap_or (or_else (get item "target") (get item "recommendationContentSpan"))
              (Object []);
          ct_kind := kind |}.

Definition citation_event (v : value) (wrapper items_key kind : string) : KiroEvent :=
  let body := unwrap_or (get v wrapper) v in
  let listed := unwrap_or (get body items_key ≫= as_array) [] in
  let items := match listed with [] => [body] | _ => listed end in
  match omap (citation_of kind) items with
  | [] => OtherEvent wrapper v
  | citations => Citations citations
  end.

Section Events.
Context (to_string : value -> string).

Definition value_text (v : value) : string := unwrap_or (as_str v) (to_string v).

(** The event a non-error frame of a known type stands for. *)
Definition typed_event (event_type : string) (v : value) : KiroEvent :=
  let ty (names : list string) : bool := bool_decide (event_type ∈ names) in
  if ty ["assistantResponseEvent"] then
    AssistantResponse
      (unwrap_or (or_else (nested_str v "assistantResponseEvent" "content")
                    (get_str v "content")) "")
  else if ty ["toolUseEvent"] then
    let body := unwrap_or (get v "toolUseEvent") v in
    ToolUse (unwrap_or (get_str body "toolUseId") "") (unwrap_or (get_str body "name") "")
      (unwrap_or (value_text <$> or_else (get body "input") (get body "inputDelta")) "")
      (unwrap_or (get body "stop" ≫= as_bool) false)
  else if ty ["reasoningContentEvent"] then
    let body := unwrap_or (get v "reasoningContentEvent") v in
    let non_empty := opt_filter (fun s => negb (is_empty s)) in
    Reasoning
      (unwrap_or (or_else (get_str body "text") (get_str body "content")) "")
      (non_empty (get_str body "signature"))
      (non_empty (or_else (get_str body "redactedContent") (get_str body "redacted_content")))
  else if ty ["messageMetadataEvent"; "metadataEvent"] then MessageMetadata v
  else if ty ["usageEvent"; "usage"; "meteringEvent"] then UsageEvent v
  else if ty ["supplementaryWebLinksEvent"] then
    citation_event v "supplementaryWebLinksEvent" "supplementaryWebLinks" "web"
  else if ty ["codeReferenceEvent"] then
    citation_event v "codeReferenceEvent" "references" "code"
  else if ty ["citationEvent"] then citation_event v "citationEvent" "citations" "document"
  else if ty ["invalidStateEvent"] then
    let body := unwrap_or (get v "invalidStateEvent") v in
    ErrorEvent
      (unwrap_or (first_non_empty body ["reason"; "code"; "state"]) "INVALID_STATE")
      (unwrap_or (first_non_empty body ["message"; "detail"])
         "Kiro reported an invalid conversation state")
  else if ty ["followupPromptEvent"] then
    let body := unwrap_or (get v "followupPromptEvent") v in
    let prompt := unwrap_or (get body "followupPrompt") body in
    match or_else (get prompt "content") (get prompt "userIntent") ≫= as_str with
    | Some suggestion =>
        AssistantResponse ("

**Suggested follow-up:** " +:+ suggestion)
    | None => OtherEvent event_type v
    end
  else OtherEvent event_type v.

Definition to_event (hs : headers) (v : value) : KiroEvent :=
  let message_type := hs !! ":message-type" in
  let exception_type := hs !! ":exception-type" in
  let event_type :=
    unwrap_or
      (or_else (opt_filter (fun t => negb (is_empty t)) (hs !! ":event-type"))
         (detected_event_type v)) "" in
  if bool_decide (message_type = Some "exception") || is_some exception_type then
    ErrorEvent (unwrap_or exception_type event_type)
      (unwrap_or (or_else (get_str v "message") (get_str v "Message"))
         "Unknown stream error")
  else
    match opt_filter (fun k => negb (is_empty k))
            (or_else (get_str v "__type") (get_str v "_type")) with
    | Some kind =>
        ErrorEvent kind (unwrap_or (get_str v "message") "Unknown stream error")
    | None =>
        match opt_filter (fun e => negb (is_null e)) (get v "error") with
        | Some error =>
            ErrorEvent "upstream_error"
              (unwrap_or (or_else (get_str error "message") (as_str error))
                 "Unknown stream error")
        | None => typed_event event_type v
        end
    end.
End Events.

(** ** The decoder *)

Section Decoder.
Context (crc32 : bytes -> Z).
Context (json_from_slice : bytes -> result value string).
Context (to_string : value -> string).

Definition validate_crc (frame : bytes) : result unit string :=
  let prelude_expected := be_u32 frame 8 in
  if negb (prelude_expected =? 0)%Z
     && negb (crc32 (take 8 frame) =? prelude_expected)%Z
  then Err "event stream prelude CRC mismatch" else
  let crc_offset := length frame - 4 in
  let message_expected := be_u32 frame crc_offset in
  if negb (message_expected =? 0)%Z
     && negb (crc32 (take (length frame - 4) frame) =? message_expected)%Z
  then Err "event stream message CRC mismatch" else Ok tt.

(** The body of [decode] once a whole frame is buffered. *)
Definition decode_frame (frame : bytes) (headers_length : nat) : result KiroEvent string :=
  let total_length := length frame in
  let? _ := validate_crc frame in
  let? hs := parse_headers (slice frame 12 (12 + headers_length)) in
  let payload := slice frame (12 + headers_length) (total_length - 4) in
  let? v :=
    match json_from_slice payload with
    | Ok v => Ok v
    | Err error => Err ("invalid Kiro event JSON: " +:+ error)
    end in
  Ok (to_event to_string hs v).

Definition decode (source : bytes) : result (option KiroEvent) string * bytes :=
  if (Z.of_nat (length source) <? MIN_FRAME_LENGTH)%Z then (Ok None, source) else
  let total_length := be_u32 source 0 in
  let headers_length := be_u32 source 4 in
  if negb ((MIN_FRAME_LENGTH <=? total_length) && (total_length <=? MAX_FRAME_LENGTH))%Z
  then (Err ("invalid event stream length " +:+ show_padded 0 total_length), source) else
  if (sat_sub total_length MIN_FRAME_LENGTH <? headers_length)%Z
  then (Err ("invalid headers length " +:+ show_padded 0 headers_length
             +:+ " for frame " +:+ show_padded 0 total_length), source) else
  if (Z.of_nat (length source) <? total_length)%Z then (Ok None, source) else
  let n := Z.to_nat total_length in
  match decode_frame (take n source) (Z.to_nat headers_length) with
  | Ok event => (Ok (Some event), drop n source)
  | Err e => (Err e, source)
  end.

Definition decode_eof (source : bytes) : result (option KiroEvent) string * bytes :=
  let '(outcome, source) := decode source in
  match outcome with
  | Err e => (Err e, source)
  | Ok (Some event) => (Ok (Some event), source)
  | Ok None =>
      match source with
      | [] => (Ok None, source)
      | _ =>
          (Err ("stream ended with incomplete event message ("
                +:+ show_nat (length source) +:+ " bytes remaining)"), source)
      end
  end.

(** Decoding until the buffer holds no whole frame, as the codec's reader
    does: the events, the error that stopped it if any, and what is left. *)
Fixpoint drain (fuel : nat) (source : bytes) : list KiroEvent * option string * bytes :=
  match fuel with
  | O => ([], None, source)
  | S fuel =>
      match decode source with
      | (Ok (Some event), rest) =>
          let '(events, error, rest) := drain fuel rest in (event :: events, error, rest)
      | (Ok None, rest) => ([], None, rest)
      | (Err e, rest) => ([], Some e, rest)
      end
  end.

Definition decode_all (source : bytes) : list KiroEvent * option string * bytes :=
  drain (S (length source)) source.

(** Reading a stream chunk by chunk; an error ends it. *)
Fixpoint feed (buffer : bytes) (chunks : list bytes) : list KiroEvent * option string * bytes :=
  match chunks with
  | [] => ([], None, buffer)
  | chunk :: chunks =>
      match decode_all (buffer ++ chunk) with
      | (events, Some e, rest) => (events, Some e, rest ++ concat chunks)
      | (events, None, rest) =>
          let '(more, error, rest) := feed rest chunks in (events ++ more, error, rest)
      end
  end.
End Decoder.
