(* ===== verification/EventStreamFacts.v ===== *)
(** * Correctness of the event stream decoder

    Header parsing terminates; the decoded events do not depend on how the
    stream is cut into chunks; and a frame laid out as the protocol prescribes
    is decoded to its headers and payload, leaving what follows it. *)

From Stdlib Require Import ZArith Lia Ascii String.
From stdpp Require Import base list gmap strings.
From S2P Require Import Prelude RustStr F64 Json EventStream.

Local Open Scope string_scope.
Local Open Scope list_scope.
Local Open Scope kproxy_scope.

(** ** Bytes *)

Lemma code_range a : (0 <= code a < 256)%Z.
Proof. unfold code. pose proof (nat_ascii_bounded a). lia. Qed.

Lemma byte_at_range l i : (0 <= byte_at l i < 256)%Z.
Proof. apply code_range. Qed.

Lemma be_u16_range l i : (0 <= be_u16 l i < 65536)%Z.
Proof.
  unfold be_u16. pose proof (byte_at_range l i). pose proof (byte_at_range l (i + 1)). lia.
Qed.

Lemma byte_at_app_l k l i : i < length k -> byte_at (k ++ l) i = byte_at k i.
Proof. intros H. unfold byte_at. by rewrite lookup_app_l. Qed.

Lemma be_u32_app_l k l i : i + 3 < length k -> be_u32 (k ++ l) i = be_u32 k i.
Proof. intros H. unfold be_u32. by rewrite !byte_at_app_l by lia. Qed.

Lemma byte_at_app_r k l i : byte_at (k ++ l) (length k + i) = byte_at l i.
Proof. unfold byte_at. rewrite lookup_app_r by lia. do 3 f_equal. lia. Qed.

Lemma byte_at_cons_0 a l : byte_at (a :: l) 0 = code a.
Proof. done. Qed.

Lemma byte_at_cons_S a l i : byte_at (a :: l) (S i) = byte_at l i.
Proof. done. Qed.

Lemma slice_app_mid k m l : slice (k ++ m ++ l) (length k) (length k + length m) = m.
Proof.
  unfold slice. rewrite drop_app_length. replace (_ + _ - _) with (length m) by lia.
  apply take_app_length.
Qed.

(** ** Termination of header parsing *)

Lemma parse_header_value_advances bytes offset kind offset' v :
  parse_header_value bytes offset kind = Ok (offset', v) -> offset <= offset'.
Proof.
  unfold parse_header_value, from_utf8. intros H.
  repeat case_match; simplify_eq/=; try lia;
    repeat case_match; simplify_eq/=; lia.
Qed.

Lemma parse_header_advances bytes offset hs offset' hs' :
  parse_header bytes offset hs = Ok (offset', hs') ->
  offset + 2 <= offset' <= length bytes.
Proof.
  unfold parse_header. case_match eqn:E1; [done|]. apply Nat.ltb_ge in E1.
  destruct (from_utf8 _ _); simpl; [|done].
  destruct (parse_header_value _ _ _) as [[o v]|] eqn:E2; simpl; [|done].
  case_match eqn:E3; [done|]. apply Nat.ltb_ge in E3. intros [= <- _].
  apply parse_header_value_advances in E2. lia.
Qed.

Lemma parse_headers_loop_total fuel bytes offset hs :
  length bytes - offset < fuel ->
  is_Some (parse_headers_loop fuel bytes offset hs).
Proof.
  revert offset hs; induction fuel as [|fuel IH]; intros offset hs Hf; [lia|].
  cbn [parse_headers_loop]. case_match eqn:E; [|eauto]. apply Nat.ltb_lt in E.
  destruct (parse_header bytes offset hs) as [[o h]|] eqn:E2; [|eauto].
  apply parse_header_advances in E2. apply IH. lia.
Qed.

(** More fuel does not change the outcome. *)
Lemma parse_headers_loop_fuel fuel fuel' bytes offset hs r :
  parse_headers_loop fuel bytes offset hs = Some r -> fuel <= fuel' ->
  parse_headers_loop fuel' bytes offset hs = Some r.
Proof.
  revert fuel' offset hs; induction fuel as [|fuel IH]; intros fuel' offset hs; [done|].
  destruct fuel' as [|fuel']; [lia|]. cbn [parse_headers_loop]. intros H Hle.
  case_match; [|done]. destruct (parse_header bytes offset hs) as [[o h]|]; [|done].
  apply IH; [done|lia].
Qed.

(** C5: Header parsing always terminates with a verdict: on any block of bytes
    the loop reaches an accepting or rejecting answer within the fuel
    [parse_headers] gives it, and larger fuel gives the same answer. *)
Theorem parse_headers_terminates (block : bytes) (fuel : nat) :
  length block < fuel ->
  parse_headers_loop fuel block 0 ∅ = Some (parse_headers block).
Proof.
  intros Hf. unfold parse_headers.
  destruct (parse_headers_loop_total (S (length block)) block 0 ∅) as [r Hr]; [lia|].
  rewrite Hr. simpl. eapply parse_headers_loop_fuel; [done|lia].
Qed.

Lemma parse_headers_terminates_witness :
  3 < 7 /\ parse_headers_loop 7 ["000"; "000"; "000"]%char 0 ∅
            = Some (parse_headers ["000"; "000"; "000"]%char).
Proof. split; [lia|]. apply (parse_headers_terminates ["000"; "000"; "000"]%char 7). simpl; lia. Defined.

(** ** Independence of the chunks *)

Section Chunks.
Context (crc32 : bytes -> Z) (json_from_slice : bytes -> result value string)
        (to_string : value -> string).
Abbreviation decode := (decode crc32 json_from_slice to_string).
Abbreviation drain := (drain crc32 json_from_slice to_string).
Abbreviation decode_all := (decode_all crc32 json_from_slice to_string).
Abbreviation feed := (feed crc32 json_from_slice to_string).

(** An outcome other than waiting for more bytes does not depend on the bytes
    behind the frame. *)
Lemma decode_extend source more :
  match decode source with
  | (Ok (Some event), rest) => decode (source ++ more) = (Ok (Some event), rest ++ more)
  | (Ok None, rest) => rest = source
  | (Err e, rest) => rest = source /\ decode (source ++ more) = (Err e, source ++ more)
  end.
Proof.
  unfold EventStream.decode, MIN_FRAME_LENGTH. rewrite length_app.
  destruct (Z.of_nat (length source) <? 16)%Z eqn:E1; [done|]. bool_simpl.
  rewrite (proj2 (Z.ltb_ge (Z.of_nat (_ + _)) 16)) by lia. rewrite !be_u32_app_l by lia.
  destruct (negb _) eqn:E2; [done|]. bool_simpl.
  destruct (sat_sub _ _ <? _)%Z; [done|].
  destruct (Z.of_nat (length source) <? be_u32 source 0)%Z eqn:E4; [done|]. bool_simpl.
  rewrite (proj2 (Z.ltb_ge (Z.of_nat (_ + _)) _)) by lia.
  rewrite take_app_le, drop_app_le by lia.
  by destruct (decode_frame _ _ _ _ _).
Qed.

Lemma decode_consumes source event rest :
  decode source = (Ok (Some event), rest) -> length rest < length source.
Proof.
  unfold EventStream.decode, MIN_FRAME_LENGTH.
  repeat case_match; intros; simplify_eq; bool_simpl. rewrite length_drop. lia.
Qed.

Lemma drain_fuel fuel fuel' source :
  length source < fuel -> length source < fuel' -> drain fuel source = drain fuel' source.
Proof.
  revert fuel' source; induction fuel as [|fuel IH]; intros [|fuel'] source H H'; try lia.
  simpl. destruct (decode source) as [[[event|]|e] rest] eqn:E; try done.
  apply decode_consumes in E. by rewrite (IH fuel' rest) by lia.
Qed.

(** [decode_all] as the recursive equation the reader follows. *)
Lemma decode_all_unfold source :
  decode_all source =
    match decode source with
    | (Ok (Some event), rest) =>
        let '(events, error, rest) := decode_all rest in (event :: events, error, rest)
    | (Ok None, rest) => ([], None, rest)
    | (Err e, rest) => ([], Some e, rest)
    end.
Proof.
  unfold EventStream.decode_all. cbn [EventStream.drain].
  destruct (decode source) as [[[event|]|e] rest] eqn:E; try done.
  apply decode_consumes in E. by rewrite (drain_fuel (length source) (S (length rest))) by lia.
Qed.

Lemma decode_all_app source more :
  decode_all (source ++ more) =
    match decode_all source with
    | (events, Some e, rest) => (events, Some e, rest ++ more)
    | (events, None, rest) =>
        let '(events', error, rest) := decode_all (rest ++ more) in
        (events ++ events', error, rest)
    end.
Proof.
  remember (length source) as n eqn:Hn. revert source Hn.
  induction (lt_wf n) as [n _ IH]; intros source ->.
  pose proof (decode_extend source more) as Hext.
  rewrite (decode_all_unfold source).
  destruct (decode source) as [[[event|]|e] rest] eqn:E.
  - rewrite (decode_all_unfold (source ++ more)), Hext.
    apply decode_consumes in E. rewrite (IH _ E rest eq_refl).
    destruct (decode_all rest) as [[events [e|]] rest']; [done|].
    by destruct (decode_all (rest' ++ more)) as [[? ?] ?].
  - subst rest. by destruct (decode_all (source ++ more)) as [[? ?] ?].
  - destruct Hext as [-> Hext]. by rewrite (decode_all_unfold (source ++ more)), Hext.
Qed.

(** A buffer that waits for more bytes has nothing to decode. *)
Lemma decode_all_stuck source events rest :
  decode_all source = (events, None, rest) -> decode_all rest = ([], None, rest).
Proof.
  remember (length source) as n eqn:Hn. revert source events rest Hn.
  induction (lt_wf n) as [n _ IH]; intros source events rest ->.
  rewrite (decode_all_unfold source).
  destruct (decode source) as [[[event|]|e] rest'] eqn:E; [| |done].
  - destruct (decode_all rest') as [[evs err] r] eqn:Er. intros; simplify_eq.
    eapply IH; [by eapply decode_consumes|reflexivity|exact Er].
  - pose proof (decode_extend source []) as Hext. rewrite E in Hext. subst rest'.
    intros [= <- <-]. by rewrite decode_all_unfold, E.
Qed.

Lemma feed_stuck buffer chunks :
  decode_all buffer = ([], None, buffer) ->
  feed buffer chunks = decode_all (buffer ++ concat chunks).
Proof.
  revert buffer; induction chunks as [|chunk chunks IH]; intros buffer Hb;
    cbn [EventStream.feed concat].
  { by rewrite app_nil_r, Hb. }
  rewrite app_assoc, (decode_all_app (buffer ++ chunk) (concat chunks)).
  destruct (decode_all (buffer ++ chunk)) as [[events [e|]] rest] eqn:E; [done|].
  rewrite IH; [done|]. by eapply decode_all_stuck.
Qed.
End Chunks.

(** C3: Half frames and sticky frames are harmless: however the transport cuts
    the byte stream into chunks, reading it chunk by chunk gives the same
    events, the same error and the same remaining bytes as decoding the whole
    stream at once. *)
Theorem feed_chunk_independent (crc32 : bytes -> Z)
    (json_from_slice : bytes -> result value string) (to_string : value -> string)
    (chunks : list bytes) :
  feed crc32 json_from_slice to_string [] chunks =
    decode_all crc32 json_from_slice to_string (concat chunks).
Proof. by apply feed_stuck. Qed.

(** ** The wire format *)

Definition byte_of_Z (z : Z) : ascii := ascii_of_nat (Z.to_nat z).

Definition encode_u16 (z : Z) : bytes := [byte_of_Z (z / 256); byte_of_Z (z mod 256)].

Definition encode_u32 (z : Z) : bytes :=
  [byte_of_Z (z / 16777216); byte_of_Z (z / 65536 mod 256); byte_of_Z (z / 256 mod 256);
   byte_of_Z (z mod 256)].

(** A string header: name length, name, type 7, value length, value. *)
Definition encode_header (h : string * string) : bytes :=
  byte_of_Z (Z.of_nat (length (s2l h.1))) :: s2l h.1
  ++ byte_of_Z 7 :: encode_u16 (Z.of_nat (length (s2l h.2))) ++ s2l h.2.

Definition encode_headers (hs : list (string * string)) : bytes := hs ≫= encode_header.

Definition frame_length (hs : list (string * string)) (payload : bytes) : Z :=
  (16 + Z.of_nat (length (encode_headers hs)) + Z.of_nat (length payload))%Z.

Definition encode_prelude (hs : list (string * string)) (payload : bytes) : bytes :=
  encode_u32 (frame_length hs payload)
  ++ encode_u32 (Z.of_nat (length (encode_headers hs))).

(** A frame of the event stream: lengths, their CRC, headers, payload, CRC. *)
Definition encode_body (crc32 : bytes -> Z) (hs : list (string * string)) (payload : bytes) :
    bytes :=
  encode_prelude hs payload ++ encode_u32 (crc32 (encode_prelude hs payload))
  ++ encode_headers hs ++ payload.

Definition encode_frame (crc32 : bytes -> Z) (hs : list (string * string)) (payload : bytes) :
    bytes :=
  encode_body crc32 hs payload ++ encode_u32 (crc32 (encode_body crc32 hs payload)).

Definition header_ok (h : string * string) : Prop :=
  length (s2l h.1) < 256 /\ (Z.of_nat (length (s2l h.2)) < 65536)%Z
  /\ utf8_valid (s2l h.1) = true /\ utf8_valid (s2l h.2) = true.

(** The headers a decoder collects: later ones replace earlier ones. *)
Definition collect (hs : list (string * string)) (acc : headers) : headers :=
  fold_left (fun acc h => <[h.1 := h.2]> acc) hs acc.

Lemma code_byte_of_Z z : (0 <= z < 256)%Z -> code (byte_of_Z z) = z.
Proof. intros. unfold code, byte_of_Z. rewrite nat_ascii_embedding; lia. Qed.

Lemma be_u16_encode k l z :
  (0 <= z < 65536)%Z -> be_u16 (k ++ encode_u16 z ++ l) (length k) = z.
Proof.
  intros Hz. unfold be_u16. rewrite <- (Nat.add_0_r (length k)) at 1.
  rewrite !byte_at_app_r. simpl. rewrite byte_at_cons_0, byte_at_cons_S, byte_at_cons_0.
  rewrite !code_byte_of_Z by (Z.to_euclidean_division_equations; lia).
  Z.to_euclidean_division_equations; lia.
Qed.

Lemma be_u32_encode k l z :
  (0 <= z < 4294967296)%Z -> be_u32 (k ++ encode_u32 z ++ l) (length k) = z.
Proof.
  intros Hz. unfold be_u32. rewrite <- (Nat.add_0_r (length k)) at 1.
  rewrite !byte_at_app_r. simpl. rewrite !byte_at_cons_S, !byte_at_cons_0.
  assert (H1 : (z / 65536 = z / 256 / 256)%Z) by (by rewrite Z.div_div).
  assert (H2 : (z / 16777216 = z / 256 / 256 / 256)%Z) by (by rewrite !Z.div_div).
  rewrite H1, H2. clear H1 H2.
  rewrite !code_byte_of_Z by (Z.to_euclidean_division_equations; lia).
  Z.to_euclidean_division_equations; lia.
Qed.

Lemma length_encode_u32 z : length (encode_u32 z) = 4.
Proof. done. Qed.

Lemma length_encode_header h :
  length (encode_header h) = 4 + length (s2l h.1) + length (s2l h.2).
Proof. unfold encode_header. simpl. rewrite !length_app. simpl. rewrite ?length_app. simpl. lia. Qed.

(** The fields of an encoded header, where the parser looks for them. *)
Lemma encode_header_views k name v l :
  header_ok (name, v) ->
  let w := k ++ encode_header (name, v) ++ l in
  let n := length (s2l name) in let m := length (s2l v) in
  byte_at w (length k) = Z.of_nat n
  /\ slice w (length k + 1) (length k + 1 + n) = s2l name
  /\ byte_at w (length k + 1 + n) = 7%Z
  /\ be_u16 w (length k + 1 + n + 1) = Z.of_nat m
  /\ slice w (length k + 1 + n + 1 + 2) (length k + 1 + n + 1 + 2 + m) = s2l v
  /\ length w = length k + (4 + n + m) + length l.
Proof.
  intros (Hn & Hm & _ & _) w n m. simpl in Hn, Hm. fold n in Hn; fold m in Hm.
  set (k1 := k ++ [byte_of_Z (Z.of_nat n)]). set (k2 := k1 ++ s2l name).
  set (k3 := k2 ++ [byte_of_Z 7]). set (k4 := k3 ++ encode_u16 (Z.of_nat m)).
  assert (E1 : w = k1 ++ s2l name ++ byte_of_Z 7 :: encode_u16 (Z.of_nat m) ++ s2l v ++ l).
  { unfold w, k1, encode_header. cbn [fst snd]. rewrite <- !app_assoc. cbn [app].
    do 2 f_equal. rewrite <- !app_assoc. done. }
  assert (E2 : w = k2 ++ byte_of_Z 7 :: encode_u16 (Z.of_nat m) ++ s2l v ++ l)
    by (rewrite E1; unfold k2; by rewrite <- app_assoc).
  assert (E3 : w = k3 ++ encode_u16 (Z.of_nat m) ++ s2l v ++ l)
    by (rewrite E2; unfold k3; by rewrite <- app_assoc).
  assert (E4 : w = k4 ++ s2l v ++ l) by (rewrite E3; unfold k4; by rewrite <- app_assoc).
  replace (length k + 1) with (length k1) by (unfold k1; by rewrite length_app).
  replace (length k1 + n) with (length k2) by (unfold k2; by rewrite length_app).
  replace (length k2 + 1) with (length k3) by (unfold k3; by rewrite length_app).
  replace (length k3 + 2) with (length k4) by (unfold k4; by rewrite length_app).
  split_and!.
  - rewrite <- (Nat.add_0_r (length k)). unfold w. rewrite byte_at_app_r.
    unfold encode_header. cbn [app fst]. rewrite byte_at_cons_0, code_byte_of_Z; [done|lia].
  - rewrite E1. unfold k2. rewrite length_app. apply slice_app_mid.
  - rewrite E2, <- (Nat.add_0_r (length k2)), byte_at_app_r, byte_at_cons_0.
    apply code_byte_of_Z; lia.
  - rewrite E3. apply be_u16_encode. lia.
  - rewrite E4. apply slice_app_mid.
  - unfold w. rewrite !length_app, length_encode_header. simpl. lia.
Qed.

(** One encoded header is parsed to its name and value. *)
Lemma parse_header_encode k h l hs :
  header_ok h ->
  parse_header (k ++ encode_header h ++ l) (length k) hs =
    Ok (length k + length (encode_header h), <[h.1 := h.2]> hs).
Proof.
  destruct h as [name v]. intros Hok.
  destruct (encode_header_views k name v l Hok) as (H1 & H2 & H3 & H4 & H5 & H6).
  destruct Hok as (_ & _ & Un & Uv). simpl in Un, Uv. rewrite length_encode_header.
  set (w := k ++ _ ++ l) in *. cbn [fst snd] in *.
  unfold parse_header. rewrite H1, Nat2Z.id, H6, H2, H3.
  rewrite (proj2 (Nat.ltb_ge _ (length k + 1 + length (s2l name) + 1))) by lia.
  unfold from_utf8. rewrite Un. cbn [result_bind].
  unfold parse_header_value. rewrite H4, Nat2Z.id, H6, H5.
  rewrite (proj2 (Nat.ltb_ge _ (_ + 1 + 2))) by lia.
  rewrite (proj2 (Nat.ltb_ge _ (_ + 1 + 2 + _))) by lia.
  unfold from_utf8. rewrite Uv. cbn [result_bind].
  rewrite (proj2 (Nat.ltb_ge _ (_ + 1 + 2 + _))) by lia.
  rewrite !l2s_s2l. do 2 f_equal. lia.
Qed.

Lemma parse_headers_loop_encode fuel k hs l acc :
  Forall header_ok hs -> length hs < fuel -> l = [] ->
  parse_headers_loop fuel (k ++ encode_headers hs ++ l) (length k) acc = Some (Ok (collect hs acc)).
Proof.
  intros Hok Hf ->. revert fuel k acc Hf; induction Hok as [|h hs Hh Hok IH];
    intros [|fuel] k acc Hf; try (simpl in Hf; lia); cbn [parse_headers_loop].
  - simpl. rewrite (proj2 (Nat.ltb_ge _ _)) by (rewrite length_app; simpl; lia). done.
  - unfold encode_headers. rewrite bind_cons, <- app_assoc.
    rewrite (proj2 (Nat.ltb_lt _ _)) by (rewrite !length_app, length_encode_header; lia).
    rewrite parse_header_encode by done.
    rewrite app_assoc, <- length_app. apply IH. simpl in Hf; lia.
Qed.

Lemma encode_headers_length hs : length hs <= length (encode_headers hs).
Proof.
  induction hs as [|h hs IH]; [done|]. unfold encode_headers in *.
  rewrite bind_cons, length_app, length_encode_header. simpl. lia.
Qed.

Lemma parse_headers_encode hs :
  Forall header_ok hs -> parse_headers (encode_headers hs) = Ok (collect hs ∅).
Proof.
  intros Hok. unfold parse_headers.
  pose proof (parse_headers_loop_encode (S (length (encode_headers hs))) [] hs [] ∅ Hok) as H.
  simpl app in H. rewrite app_nil_r in H. cbn [length] in H. rewrite H; [done| |done].
  pose proof (encode_headers_length hs). lia.
Qed.

Section RoundTrip.
Context (crc32 : bytes -> Z) (json_from_slice : bytes -> result value string)
        (to_string : value -> string).
Hypothesis crc32_range : forall l, (0 <= crc32 l < 4294967296)%Z.

Lemma length_encode_body hs payload :
  length (encode_body crc32 hs payload) = 12 + length (encode_headers hs) + length payload.
Proof. unfold encode_body, encode_prelude. rewrite !length_app, !length_encode_u32. lia. Qed.

Lemma length_encode_frame hs payload :
  length (encode_frame crc32 hs payload) = 16 + length (encode_headers hs) + length payload.
Proof. unfold encode_frame. rewrite length_app, length_encode_body, length_encode_u32. lia. Qed.

Lemma validate_crc_encode hs payload :
  validate_crc crc32 (encode_frame crc32 hs payload) = Ok tt.
Proof.
  unfold validate_crc.
  assert (H8 : be_u32 (encode_frame crc32 hs payload) 8 = crc32 (encode_prelude hs payload)).
  { unfold encode_frame, encode_body. rewrite <- !app_assoc.
    change 8 with (length (encode_prelude hs payload)). apply be_u32_encode, crc32_range. }
  assert (T8 : take 8 (encode_frame crc32 hs payload) = encode_prelude hs payload).
  { unfold encode_frame, encode_body. rewrite <- !app_assoc.
    change 8 with (length (encode_prelude hs payload)). apply take_app_length. }
  rewrite H8, T8, Z.eqb_refl, andb_false_r.
  assert (L : length (encode_frame crc32 hs payload) - 4
              = length (encode_body crc32 hs payload)).
  { unfold encode_frame. rewrite length_app, length_encode_u32. lia. }
  rewrite L. unfold encode_frame. rewrite take_app_length.
  pose proof (be_u32_encode (encode_body crc32 hs payload) []
                (crc32 (encode_body crc32 hs payload)) (crc32_range _)) as Hb.
  rewrite app_nil_r in Hb. by rewrite Hb, Z.eqb_refl, andb_false_r.
Qed.

Lemma frame_slices hs payload :
  let frame := encode_frame crc32 hs payload in
  let n := length (encode_headers hs) in
  slice frame 12 (12 + n) = encode_headers hs
  /\ slice frame (12 + n) (length frame - 4) = payload.
Proof.
  set (p := encode_prelude hs payload ++ encode_u32 (crc32 (encode_prelude hs payload))).
  assert (Hp : length p = 12) by done.
  assert (E : encode_frame crc32 hs payload =
              p ++ encode_headers hs ++ payload
                ++ encode_u32 (crc32 (encode_body crc32 hs payload)))
    by (unfold encode_frame, encode_body at 1, p; by rewrite <- !app_assoc).
  cbv zeta. split.
  - rewrite E, <- Hp. apply slice_app_mid.
  - replace (length (encode_frame crc32 hs payload) - 4)
      with (length (p ++ encode_headers hs) + length payload)
      by (rewrite length_encode_frame, length_app; lia).
    replace (12 + length (encode_headers hs)) with (length (p ++ encode_headers hs))
      by (rewrite length_app; lia).
    rewrite E, app_assoc. apply slice_app_mid.
Qed.

Lemma decode_frame_encode hs payload v :
  Forall header_ok hs -> json_from_slice payload = Ok v ->
  decode_frame crc32 json_from_slice to_string (encode_frame crc32 hs payload)
    (length (encode_headers hs)) = Ok (to_event to_string (collect hs ∅) v).
Proof.
  intros Hok Hj. unfold decode_frame. rewrite validate_crc_encode.
  destruct (frame_slices hs payload) as [-> ->]. cbn [result_bind].
  rewrite parse_headers_encode by done. cbn [result_bind]. by rewrite Hj.
Qed.

(** C4: Round trip of the wire format: a frame laid out by the protocol (total
    and header lengths, their CRC, string headers, payload, message CRC) is
    decoded to the event of exactly those headers and that payload, and the
    bytes that follow the frame stay in the buffer untouched. *)
Theorem decode_encode_frame hs payload v rest :
  Forall header_ok hs -> json_from_slice payload = Ok v ->
  (frame_length hs payload <= MAX_FRAME_LENGTH)%Z ->
  decode crc32 json_from_slice to_string (encode_frame crc32 hs payload ++ rest) =
    (Ok (Some (to_event to_string (collect hs ∅) v)), rest).
Proof.
  intros Hok Hj Hmax. set (frame := encode_frame crc32 hs payload).
  assert (Hlen : Z.of_nat (length frame) = frame_length hs payload)
    by (unfold frame, frame_length; rewrite length_encode_frame; lia).
  assert (Hn : Z.to_nat (frame_length hs payload) = length frame) by lia.
  assert (H0 : be_u32 (frame ++ rest) 0 = frame_length hs payload).
  { unfold frame, encode_frame, encode_body, encode_prelude. rewrite <- !app_assoc.
    apply (be_u32_encode []). unfold frame_length, MAX_FRAME_LENGTH in *. lia. }
  assert (H4 : be_u32 (frame ++ rest) 4 = Z.of_nat (length (encode_headers hs))).
  { unfold frame, encode_frame, encode_body, encode_prelude. rewrite <- !app_assoc.
    change 4 with (length (encode_u32 (frame_length hs payload))). apply be_u32_encode.
    unfold frame_length, MAX_FRAME_LENGTH in *. lia. }
  unfold decode. rewrite length_app, H0, H4, Hn, Nat2Z.id.
  pose proof (decode_frame_encode hs payload v Hok Hj) as Hd. fold frame in Hd.
  rewrite take_app_length, drop_app_length, Hd.
  unfold MIN_FRAME_LENGTH, sat_sub.
  assert (Hmin : (16 <= frame_length hs payload)%Z) by (unfold frame_length; lia).
  assert (Hh : (Z.of_nat (length (encode_headers hs)) <= frame_length hs payload - 16)%Z)
    by (unfold frame_length; lia).
  rewrite (proj2 (Z.ltb_ge (Z.of_nat (_ + _)) 16)), (proj2 (Z.leb_le 16 _)),
    (proj2 (Z.leb_le _ MAX_FRAME_LENGTH)), (proj2 (Z.ltb_ge (Z.max _ _) _)),
    (proj2 (Z.ltb_ge (Z.of_nat (_ + _)) (frame_length hs payload))) by lia.
  done.
Qed.
End RoundTrip.

(** A stand-in checksum and JSON parser for concrete frames. *)
Definition sum_checksum (l : bytes) : Z :=
  (fold_left (fun acc a => acc * 31 + code a) l 0 mod 4294967296)%Z.

Definition text_payload (l : bytes) : result value string :=
  Ok (json_object [("content", Str (l2s l))]).

Lemma sum_checksum_range l : (0 <= sum_checksum l < 4294967296)%Z.
Proof. apply Z.mod_pos_bound. lia. Qed.

Definition demo_headers : list (string * string) :=
  [(":message-type", "event"); (":event-type", "assistantResponseEvent")].

Lemma decode_encode_frame_witness :
  decode sum_checksum text_payload (fun _ => "")
    (encode_frame sum_checksum demo_headers (s2l "hello") ++ s2l "rest") =
    (Ok (Some (AssistantResponse "hello")), s2l "rest").
Proof.
  rewrite (decode_encode_frame sum_checksum text_payload (fun _ => "") sum_checksum_range
             demo_headers (s2l "hello") (json_object [("content", Str "hello")]) (s2l "rest")).
  - reflexivity.
  - repeat constructor; vm_compute; try reflexivity; lia.
  - reflexivity.
  - vm_compute. discriminate.
Defined.

(** The decoder respects frame boundaries: when it yields an event it removes
    exactly the announced frame, of a length within the limits and with room for
    the announced headers, from the front of the buffer; in every other case,
    errors included, the buffer is left as it was.  At the end of the stream,
    leftover bytes are always an error. *)
Theorem decode_frame_boundary (crc32 : bytes -> Z)
    (json_from_slice : bytes -> result value string) (to_string : value -> string)
    (source : bytes) :
  match decode crc32 json_from_slice to_string source with
  | (Ok (Some _), rest) =>
      exists frame, source = frame ++ rest
        /\ Z.of_nat (length frame) = be_u32 source 0
        /\ (MIN_FRAME_LENGTH <= Z.of_nat (length frame) <= MAX_FRAME_LENGTH)%Z
        /\ (be_u32 source 4 <= Z.of_nat (length frame) - MIN_FRAME_LENGTH)%Z
  | (_, rest) => rest = source
  end
  /\ (forall rest, decode_eof crc32 json_from_slice to_string source = (Ok None, rest) ->
        source = [] /\ rest = []).
Proof.
  assert (Hd : match decode crc32 json_from_slice to_string source with
               | (Ok (Some _), rest) =>
                   exists frame, source = frame ++ rest
                     /\ Z.of_nat (length frame) = be_u32 source 0
                     /\ (MIN_FRAME_LENGTH <= Z.of_nat (length frame) <= MAX_FRAME_LENGTH)%Z
                     /\ (be_u32 source 4 <= Z.of_nat (length frame) - MIN_FRAME_LENGTH)%Z
               | (_, rest) => rest = source
               end).
  { destruct (decode _ _ _ source) as [[[ev|]|e] r] eqn:E; unfold decode in E;
      repeat case_match; simplify_eq; try done. bool_simpl.
    exists (take (Z.to_nat (be_u32 source 0)) source).
    rewrite take_drop, length_take. split; [done|].
    unfold sat_sub, MIN_FRAME_LENGTH in *. lia. }
  split; [exact Hd|]. intros rest. unfold decode_eof.
  destruct (decode _ _ _ source) as [[[ev|]|e] r]; try done. subst r.
  destruct source; intros; by simplify_eq.
Qed.
