(* ===== verification/Account.v ===== *)
(** * Accounts and the pool's configuration

    The account model of [kproxy-core/src/account.rs], the pool's part of
    [kproxy-core/src/config.rs] and the credit policy of
    [kproxy-pool/src/pool.rs] that reads both. *)

From Stdlib Require Import ZArith Lia String.
From stdpp Require Import base list strings.
From S2P Require Import Prelude RustStr F64.

Local Open Scope string_scope.
Local Open Scope list_scope.

Inductive AuthMethod := Idc | Social | ApiKey.

#[export] Instance AuthMethod_eq_dec : EqDecision AuthMethod.
Proof. solve_decision. Defined.

Inductive SubscriptionKind := Free | Pro | ProPlus | Power | Enterprise | Teams | Unknown.

#[export] Instance SubscriptionKind_eq_dec : EqDecision SubscriptionKind.
Proof. solve_decision. Defined.

Record Credentials := {
  access_token : string;
  refresh_token : option string;
  client_id : option string;
  client_secret : option string;
  region : string;
  expires_at : Z;
  auth_method : AuthMethod;
}.

Record Usage := {
  current : f64;
  limit : f64;
  overage_cap : option f64;
  percent_used : f64;
  next_reset_date : option string;
  updated_at : Z;
}.

Definition limit_without_overage (u : Usage) : f64 :=
  F64.max (F64.sub (limit u) (unwrap_or (overage_cap u) F64.zero)) F64.zero.

Record Subscription := {
  sub_kind : SubscriptionKind;
  sub_title : option string;
  sub_raw_type : option string;
  sub_expires_at : option Z;
  sub_days_remaining : option Z;
}.

Record Account := {
  acc_id : string;
  email : string;
  label : option string;
  enabled : bool;
  machine_id : string;
  profile_arn : option string;
  upstream_user_id : option string;
  credentials : Credentials;
  usage : option Usage;
  subscription : option Subscription;
  tags : list string;
  created_at : Z;
  credit_exhausted : bool;
}.

Definition acc_set_credentials (a : Account) (c : Credentials) : Account :=
  {| acc_id := acc_id a; email := email a; label := label a; enabled := enabled a;
     machine_id := machine_id a; profile_arn := profile_arn a;
     upstream_user_id := upstream_user_id a; credentials := c; usage := usage a;
     subscription := subscription a; tags := tags a; created_at := created_at a;
     credit_exhausted := credit_exhausted a |}.

Definition acc_set_usage (a : Account) (u : option Usage) : Account :=
  {| acc_id := acc_id a; email := email a; label := label a; enabled := enabled a;
     machine_id := machine_id a; profile_arn := profile_arn a;
     upstream_user_id := upstream_user_id a; credentials := credentials a; usage := u;
     subscription := subscription a; tags := tags a; created_at := created_at a;
     credit_exhausted := credit_exhausted a |}.

Definition acc_set_credit_exhausted (a : Account) (b : bool) : Account :=
  {| acc_id := acc_id a; email := email a; label := label a; enabled := enabled a;
     machine_id := machine_id a; profile_arn := profile_arn a;
     upstream_user_id := upstream_user_id a; credentials := credentials a; usage := usage a;
     subscription := subscription a; tags := tags a; created_at := created_at a;
     credit_exhausted := b |}.

Definition display_name (a : Account) : string :=
  unwrap_or (opt_filter (fun l => negb (is_empty l)) (option_map trim (label a))) (email a).

Definition is_token_expiring (a : Account) (now before_secs : Z) : bool :=
  negb (bool_decide (auth_method (credentials a) = ApiKey))
  && (sat_sub_i64 (expires_at (credentials a)) now <=? before_secs)%Z.

(** ** Configuration *)

Record BalanceConfig := {
  weight_active : f64;
  weight_credit : f64;
  weight_idle : f64;
  idle_window_ms : Z;
}.

Definition BalanceConfig_default : BalanceConfig :=
  {| weight_active := F64.div F64.one (F64.of_Z 2);
     weight_credit := F64.div (F64.of_Z 4) F64.ten;
     weight_idle := F64.div F64.one F64.ten;
     idle_window_ms := 300000 |}.

Record CooldownConfig := {
  max_error_count : Z;
  cooldown_ms : Z;
  error_cooldown_ms : Z;
  quota_reset_ms : Z;
  quota_error_window_ms : Z;
  quota_error_threshold : Z;
}.

Definition CooldownConfig_default : CooldownConfig :=
  {| max_error_count := 3; cooldown_ms := 30000; error_cooldown_ms := 5000;
     quota_reset_ms := 300000; quota_error_window_ms := 300000; quota_error_threshold := 50 |}.

Record PoolConfig := {
  max_concurrent_per_account : Z;
  max_queue_size : Z;
  max_queue_wait_ms : Z;
  queue_full_wait_ms : Z;
  low_credit_min_remaining : f64;
  enable_overage : bool;
  max_overage_credits_per_account : option f64;
  daily_credit_limit : f64;
  credit_estimate_per_1k_tokens : f64;
  credit_estimate_output_token_cap : Z;
  auto_switch_on_quota_exhausted : bool;
  balance : BalanceConfig;
  cooldown : CooldownConfig;
}.

Definition PoolConfig_default : PoolConfig :=
  {| max_concurrent_per_account := 50; max_queue_size := 10; max_queue_wait_ms := 30000;
     queue_full_wait_ms := 5000; low_credit_min_remaining := F64.of_Z 4;
     enable_overage := false; max_overage_credits_per_account := None;
     daily_credit_limit := F64.zero; credit_estimate_per_1k_tokens := F64.one;
     credit_estimate_output_token_cap := 8192; auto_switch_on_quota_exhausted := true;
     balance := BalanceConfig_default; cooldown := CooldownConfig_default |}.

(** ** Credit policy *)

Inductive AccountCreditState := CreditAvailable | CreditProtected | CreditExhausted.

#[export] Instance AccountCreditState_eq_dec : EqDecision AccountCreditState.
Proof. solve_decision. Defined.

Definition effective_credit_limit (u : Usage) (config : PoolConfig) : f64 :=
  let base := limit_without_overage u in
  if negb (enable_overage config) then base
  else
    match overage_cap u, max_overage_credits_per_account config with
    | Some upstream_cap, Some local_cap => F64.add base (F64.min upstream_cap local_cap)
    | _, _ => limit u
    end.

Definition remaining_credit_percent (u : Usage) (config : PoolConfig) : option f64 :=
  let limit := effective_credit_limit u config in
  if F64.gtb limit F64.zero
  then Some (F64.clamp (F64.mul (F64.div (F64.sub limit (current u)) limit) F64.hundred)
               F64.zero F64.hundred)
  else None.

Definition usage_credit_exhausted (u : Usage) (config : PoolConfig) : bool :=
  let limit := effective_credit_limit u config in
  (F64.gtb limit F64.zero && F64.geb (current u) limit)
  || (F64.leb limit F64.zero && is_some (overage_cap u)).

Definition account_credit_state (a : Account) (config : PoolConfig) : AccountCreditState :=
  if enable_overage config then
    if is_some (max_overage_credits_per_account config)
       && is_some_and (usage a) (fun u => usage_credit_exhausted u config)
    then CreditExhausted
    else CreditAvailable
  else if credit_exhausted a then CreditExhausted
  else
    match usage a with
    | None => CreditAvailable
    | Some u =>
        let limit := limit_without_overage u in
        if F64.leb limit F64.zero && is_some (overage_cap u) then CreditExhausted
        else if F64.leb limit F64.zero then CreditAvailable
        else
          let remaining := F64.max (F64.sub limit (current u)) F64.zero in
          if F64.leb remaining F64.zero then CreditExhausted
          else if F64.gtb (low_credit_min_remaining config) F64.zero
                  && F64.leb remaining (low_credit_min_remaining config)
          then CreditProtected
          else CreditAvailable
    end.
