(* ===== verification/Catalog.v ===== *)
(** * The static model catalog

    [kproxy-kiro/src/catalog.rs]: the models an account is assumed to serve
    while discovery has no answer.  Slicing a [str] inside a character panics in
    Rust; the operations that slice return [Err Panicked] there. *)

From Stdlib Require Import ZArith Lia Ascii String.
From stdpp Require Import base list strings.
From S2P Require Import Prelude RustStr F64 Json Account.

Local Open Scope string_scope.
Local Open Scope list_scope.
Local Open Scope kproxy_scope.

Inductive panic := Panicked.

Record TokenLimits := { max_input_tokens : option Z; max_output_tokens : option Z }.

Record ModelInfo := {
  model_id : string;
  model_name : string;
  description : string;
  rate_multiplier : option f64;
  token_limits : option TokenLimits;
  additional_model_request_fields_schema : option value;
}.

Record StaticModel := {
  sm_id : string;
  sm_name : string;
  sm_description : string;
  sm_rate_multiplier : f64;
  sm_free_tier : bool;
}.

(** [hundredths / 100] rounds to the same double as the decimal literal. *)
Definition static_model (id name : string) (hundredths : Z) (free_tier : bool) : StaticModel :=
  {| sm_id := id; sm_name := name; sm_description := "Kiro upstream model (static fallback)";
     sm_rate_multiplier := F64.div (F64.of_Z hundredths) F64.hundred;
     sm_free_tier := free_tier |}.

Definition STATIC_MODEL_CATALOG : list StaticModel := [
  static_model "gpt-5.6-sol" "GPT-5.6 Sol" 240 false;
  static_model "gpt-5.6-terra" "GPT-5.6 Terra" 100 false;
  static_model "gpt-5.6-luna" "GPT-5.6 Luna" 10 false;
  static_model "claude-opus-5" "Claude Opus 5" 220 false;
  static_model "claude-opus-4.8" "Claude Opus 4.8" 220 false;
  static_model "claude-opus-4.7" "Claude Opus 4.7" 220 false;
  static_model "claude-opus-4.6" "Claude Opus 4.6" 220 false;
  static_model "claude-opus-4.5" "Claude Opus 4.5" 220 false;
  static_model "claude-sonnet-5" "Claude Sonnet 5" 130 false;
  static_model "claude-sonnet-4.6" "Claude Sonnet 4.6" 130 false;
  static_model "claude-sonnet-4.5" "Claude Sonnet 4.5" 130 true;
  static_model "claude-sonnet-4" "Claude Sonnet 4" 130 true;
  static_model "auto" "Auto" 100 true;
  static_model "claude-haiku-4.5" "Claude Haiku 4.5" 40 false;
  static_model "deepseek-3.2" "DeepSeek 3.2" 25 true;
  static_model "minimax-m2.5" "MiniMax M2.5" 25 true;
  static_model "glm-5" "GLM-5" 50 true;
  static_model "minimax-m2.1" "MiniMax M2.1" 15 true;
  static_model "qwen3-coder-next" "Qwen3 Coder Next" 5 true ].

Definition static_models : list ModelInfo :=
  (fun m =>
     {| model_id := sm_id m; model_name := sm_name m; description := sm_description m;
        rate_multiplier := Some (sm_rate_multiplier m); token_limits := None;
        additional_model_request_fields_schema := None |}) <$> STATIC_MODEL_CATALOG.

Definition normalize_model (model : string) : string :=
  join "-"
    (filter (fun part => is_empty part = false)
       (split (replace_chars (to_ascii_lowercase (trim model))
                 (fun a => is_char "." a || is_char "_" a) "-")
          (is_char "-"))).

(** [&suffix[..n]] *)
Definition slice_to (suffix : bytes) (n : nat) : result bytes panic :=
  if is_char_boundary suffix n then Ok (take n suffix) else Err Panicked.

Definition dated_version_suffix (requested catalog_id : string) : result bool panic :=
  match strip_prefix_l (s2l catalog_id) (s2l requested)
          ≫= fun suffix => strip_prefix_l (s2l "-") suffix with
  | None => Ok false
  | Some suffix =>
      if is_some (strip_prefix_l (s2l "v") suffix) then Ok true
      else if (8 <=? length suffix)%nat
      then (let? digits := slice_to suffix 8 in Ok (forallb is_ascii_digit digits))
      else Ok false
  end.

Definition model_matches (requested candidate : string) : result bool panic :=
  if bool_decide (requested = candidate) then Ok true
  else dated_version_suffix requested candidate.

(** [iter().any], which stops at the first match. *)
Fixpoint any_free_match (requested : string) (catalog : list StaticModel) : result bool panic :=
  match catalog with
  | [] => Ok false
  | m :: catalog =>
      if sm_free_tier m
      then (let? matched := model_matches requested (normalize_model (sm_id m)) in
            if matched then Ok true else any_free_match requested catalog)
      else any_free_match requested catalog
  end.

Definition is_paid (subscription : option SubscriptionKind) : bool :=
  match subscription with
  | Some (Pro | ProPlus | Power | Enterprise | Teams) => true
  | _ => false
  end.

Definition static_subscription_can_serve (subscription : option SubscriptionKind)
    (requested_model : string) : result bool panic :=
  if is_paid subscription then Ok true
  else any_free_match (normalize_model requested_model) STATIC_MODEL_CATALOG.

(** [filter(|model| ...).collect()] *)
Fixpoint filter_served (subscription : option SubscriptionKind) (models : list ModelInfo) :
    result (list ModelInfo) panic :=
  match models with
  | [] => Ok []
  | m :: models =>
      let? keep := static_subscription_can_serve subscription (model_id m) in
      let? rest := filter_served subscription models in
      Ok (if keep then m :: rest else rest)
  end.

Definition static_models_for_subscription (subscription : option SubscriptionKind) :
    result (list ModelInfo) panic :=
  filter_served subscription static_models.

Definition static_models_for_account (a : Account) : result (list ModelInfo) panic :=
  if bool_decide (auth_method (credentials a) = ApiKey) then Ok static_models
  else static_models_for_subscription (option_map sub_kind (subscription a)).

(** ** Properties *)

(** What it means for a normalized name to denote a catalog model: the model
    itself, a [-v...] variant, or a variant with an eight-digit date. *)
Definition denotes (requested catalog_id : bytes) : Prop :=
  requested = catalog_id
  \/ (exists rest, requested = catalog_id ++ s2l "-v" ++ rest)
  \/ exists date rest, requested = catalog_id ++ s2l "-" ++ date ++ rest
       /\ length date = 8 /\ forallb is_ascii_digit date = true.

Definition splits_character (requested catalog_id : bytes) : Prop :=
  exists suffix, requested = catalog_id ++ s2l "-" ++ suffix
    /\ is_some_and (suffix !! 8) is_continuation = true.

Lemma dated_version_suffix_spec requested catalog_id :
  match dated_version_suffix requested catalog_id with
  | Ok true => denotes (s2l requested) (s2l catalog_id)
  | Ok false => denotes (s2l requested) (s2l catalog_id) -> requested = catalog_id
  | Err _ => splits_character (s2l requested) (s2l catalog_id)
  end.
Proof.
  unfold dated_version_suffix.
  destruct (strip_prefix_l (s2l catalog_id) (s2l requested) ≫= _) as [suffix|] eqn:E.
  - apply bind_Some in E as (r & H1%strip_prefix_l_spec & H2%strip_prefix_l_spec). subst r.
    destruct (strip_prefix_l (s2l "v") suffix) as [w|] eqn:Ev.
    { apply strip_prefix_l_spec in Ev. right; left. exists w. rewrite H1, Ev. done. }
    assert (Hv : forall rest, suffix <> s2l "v" ++ rest).
    { intros rest Heq. apply strip_prefix_l_spec in Heq. congruence. }
    assert (Hcases : denotes (s2l requested) (s2l catalog_id) -> requested <> catalog_id ->
      8 <= length suffix /\ forallb is_ascii_digit (take 8 suffix) = true).
    { rewrite H1. intros [Heq|[[rest Heq]|(date & rest & Heq & Hl & Hd)]] Hne.
      - exfalso. apply Hne, s2l_inj. congruence.
      - exfalso. apply app_inv_head in Heq. injection Heq as Heq. by apply (Hv rest).
      - apply app_inv_head in Heq. injection Heq as ->.
        rewrite length_app, take_app_length' by done. split; [lia|done]. }
    destruct (8 <=? length suffix)%nat eqn:El; cbn [is_some result_bind].
    + apply Nat.leb_le in El. unfold slice_to, is_char_boundary.
      destruct (suffix !! 8) as [b|] eqn:Eb.
      * destruct (is_continuation b) eqn:Ec; cbn [negb orb Nat.eqb result_bind].
        { exists suffix. by rewrite Eb. }
        destruct (forallb _ _) eqn:Ed.
        { right; right. exists (take 8 suffix), (drop 8 suffix).
          rewrite take_drop, length_take. split_and!; [done|lia|done]. }
        intros Hden. destruct (decide (requested = catalog_id)); [done|].
        destruct (Hcases Hden) as [_ ?]; congruence.
      * apply lookup_ge_None in Eb. rewrite (proj2 (Nat.eqb_eq 8 (length suffix))) by lia.
        cbn [result_bind]. destruct (forallb _ _) eqn:Ed.
        { right; right. exists (take 8 suffix), (drop 8 suffix).
          rewrite take_drop, length_take. split_and!; [done|lia|done]. }
        intros Hden. destruct (decide (requested = catalog_id)); [done|].
        destruct (Hcases Hden) as [_ ?]; congruence.
    + apply Nat.leb_gt in El. intros Hden. destruct (decide (requested = catalog_id)); [done|].
      destruct (Hcases Hden) as [? _]; [done|lia].
  - intros Hden. apply s2l_inj. destruct Hden as [?|Hrest]; [done|]. exfalso.
    assert (exists r, s2l requested = s2l catalog_id ++ s2l "-" ++ r) as [r Hr].
    { destruct Hrest as [[rest ->]|(date & rest & -> & _)]; [|eauto].
      by exists (s2l "v" ++ rest). }
    apply strip_prefix_l_spec in Hr as Hr'. rewrite Hr' in E. simpl in E. done.
Qed.

Lemma model_matches_spec requested candidate :
  match model_matches requested candidate with
  | Ok b => b = true <-> denotes (s2l requested) (s2l candidate)
  | Err _ => splits_character (s2l requested) (s2l candidate)
  end.
Proof.
  unfold model_matches. case_bool_decide as Heq.
  { subst. split; [|done]. by left. }
  pose proof (dated_version_suffix_spec requested candidate) as H.
  destruct (dated_version_suffix _ _) as [[]|]; naive_solver.
Qed.

Lemma exists_elem_cons {A} (P : A -> Prop) x l :
  (exists y, y ∈ x :: l /\ P y) <-> P x \/ exists y, y ∈ l /\ P y.
Proof. setoid_rewrite elem_of_cons. naive_solver. Qed.

Lemma any_free_match_spec requested catalog :
  match any_free_match requested catalog with
  | Ok b => b = true <-> exists m, m ∈ catalog /\ sm_free_tier m = true
              /\ denotes (s2l requested) (s2l (normalize_model (sm_id m)))
  | Err _ => exists m, m ∈ catalog /\ sm_free_tier m = true
              /\ splits_character (s2l requested) (s2l (normalize_model (sm_id m)))
  end.
Proof.
  induction catalog as [|m catalog IH]; cbn [any_free_match].
  { split; [done|]. intros (m & Hm & _). by apply not_elem_of_nil in Hm. }
  destruct (sm_free_tier m) eqn:Ef.
  - pose proof (model_matches_spec requested (normalize_model (sm_id m))) as Hm.
    destruct (model_matches _ _) as [[]|]; cbn [result_bind].
    + rewrite exists_elem_cons. split; [|done]. intros _. left. split; [done|by apply Hm].
    + assert (~ denotes (s2l requested) (s2l (normalize_model (sm_id m)))) by (by rewrite <- Hm).
      destruct (any_free_match requested catalog); rewrite exists_elem_cons; [|by right].
      rewrite IH. split; [by right|]. by intros [[_ ?]|?].
    + rewrite exists_elem_cons. by left.
  - destruct (any_free_match requested catalog); rewrite exists_elem_cons; [|by right].
    rewrite IH. split; [by right|]. by intros [[? _]|?]; [congruence|].
Qed.

(** The static fallback decides exactly the public tier matrix: a paid
    subscription serves everything; any other one serves the models of the free
    tier, their [-v] variants and their dated variants, and nothing else.  The
    one other outcome is a panic, and only for a name with a multi-byte
    character at the eighth byte of such a variant. *)
Theorem static_subscription_can_serve_spec (subscription : option SubscriptionKind)
    (requested : string) :
  let name := s2l (normalize_model requested) in
  match static_subscription_can_serve subscription requested with
  | Ok served =>
      served = true <->
        is_paid subscription = true
        \/ exists m, m ∈ STATIC_MODEL_CATALOG /\ sm_free_tier m = true
             /\ denotes name (s2l (normalize_model (sm_id m)))
  | Err _ =>
      is_paid subscription = false
      /\ exists m, m ∈ STATIC_MODEL_CATALOG /\ sm_free_tier m = true
           /\ splits_character name (s2l (normalize_model (sm_id m)))
  end.
Proof.
  intros name. unfold static_subscription_can_serve.
  destruct (is_paid subscription); [by split; [left|]|].
  pose proof (any_free_match_spec (normalize_model requested) STATIC_MODEL_CATALOG) as H.
  destruct (any_free_match _ _); [|done]. rewrite H. split; [by right|]. by intros [?|?].
Qed.

(** A model name the client chooses can panic the eligibility check of an
    account that is on no paid subscription: the date test slices the name at
    byte 8 without checking that a character starts there. *)
Theorem static_subscription_can_serve_panics :
  static_subscription_can_serve (Some Free) "auto-1234567é" = Err Panicked.
Proof. vm_compute. reflexivity. Qed.
