(* ===== verification/Store.v ===== *)
(** * The account store

    [kproxy-store/src/accounts.rs]: the durable list of accounts, one JSON
    file that is written whole, or, once it is compressed, extended by a
    directory of small delta files, one per changed account.

    The disk is the text of the base file (when it exists) and the text of the
    files of the delta directory; a missing directory is an empty one.  The
    JSON, gzip and base64 crates are a [Codec], a record of operations, and
    what the store relies on are its [CodecLaws].  The outcome of every file
    operation is decided by an argument: it can succeed, fail without effect,
    or fail after it took effect (a rename whose directory could not be
    synchronised); a crash stops a save at the same points as an error. *)

From Stdlib Require Import ZArith Lia Ascii String.
From stdpp Require Import base list gmap strings sorting.
From S2P Require Import Prelude RustStr F64 Json Account.

Local Open Scope kproxy_scope.
Local Open Scope string_scope.
Local Open Scope list_scope.

Definition COMPRESSION_THRESHOLD : nat := 100.

Record CompressedEnvelope := { env_compressed : bool; env_data : string }.

Record AccountDelta := { delta_id : string; delta_account : option Account }.

Record AccountStore := {
  path : string;
  accounts : list Account;
  compression_threshold : nat;
  incremental_write : bool;
  dirty : gmap string (option Account);
}.

Record Disk := { base_file : option string; delta_files : gmap string string }.

Definition with_accounts (s : AccountStore) (l : list Account) (d : gmap string (option Account)) :
    AccountStore :=
  {| path := path s; accounts := l; compression_threshold := compression_threshold s;
     incremental_write := incremental_write s; dirty := d |}.

(** ** Queries and changes in memory *)

Definition all (s : AccountStore) : list Account := accounts s.

Definition store_len (s : AccountStore) : nat := length (accounts s).

Definition store_is_empty (s : AccountStore) : bool :=
  match accounts s with [] => true | _ => false end.

Definition set_compression_threshold (threshold : nat) (s : AccountStore) : AccountStore :=
  {| path := path s; accounts := accounts s; compression_threshold := threshold;
     incremental_write := incremental_write s; dirty := dirty s |}.

Definition set_incremental_write (enabled : bool) (s : AccountStore) : AccountStore :=
  {| path := path s; accounts := accounts s; compression_threshold := compression_threshold s;
     incremental_write := enabled; dirty := dirty s |}.

Definition names (id_or_email : string) (a : Account) : bool :=
  bool_decide (acc_id a = id_or_email) || bool_decide (email a = id_or_email).

Definition find_account (id_or_email : string) (s : AccountStore) : option Account :=
  head (filter (fun a => names id_or_email a = true) (accounts s)).

Definition registered_user (a : Account) : option string :=
  opt_filter (fun user_id => negb (is_empty user_id)) (option_map trim (upstream_user_id a)).

Definition insert_account (a : Account) (s : AccountStore) : AccountStore * result unit string :=
  if existsb (fun existing => bool_decide (acc_id existing = acc_id a)) (accounts s)
  then (s, Err ("account " +:+ acc_id a +:+ " already exists")) else
  if existsb (fun existing => bool_decide (email existing = email a)) (accounts s)
  then (s, Err ("account email " +:+ email a +:+ " already exists")) else
  let insert :=
    (with_accounts s (accounts s ++ [a]) (<[acc_id a := Some a]> (dirty s)), Ok tt) in
  match registered_user a with
  | None => insert
  | Some user_id =>
      match head (filter (fun existing =>
                    option_map trim (upstream_user_id existing) = Some user_id) (accounts s)) with
      | Some existing =>
          (s, Err ("Kiro identity is already registered as " +:+ email existing))
      | None => insert
      end
  end.

Definition remove_account (id_or_email : string) (s : AccountStore) :
    AccountStore * option Account :=
  match position (names id_or_email) (accounts s) with
  | None => (s, None)
  | Some index =>
      match accounts s !! index with
      | None => (s, None)
      | Some a =>
          (with_accounts s (take index (accounts s) ++ drop (S index) (accounts s))
             (<[acc_id a := None]> (dirty s)), Some a)
      end
  end.

Definition update_account (id_or_email : string) (mutate : Account -> Account)
    (s : AccountStore) : AccountStore * bool :=
  match position (names id_or_email) (accounts s) with
  | None => (s, false)
  | Some index =>
      match accounts s !! index with
      | None => (s, false)
      | Some a =>
          let a := mutate a in
          (with_accounts s (<[index := a]> (accounts s)) (<[acc_id a := Some a]> (dirty s)), true)
      end
  end.

Definition filter_by_tag (tag : string) (s : AccountStore) : list Account :=
  filter (fun a => tag ∈ tags a) (accounts s).

(** ** File names *)

Definition delta_directory (path : string) : string := path +:+ ".d".

Definition is_safe_char (c : ascii) : bool :=
  is_ascii_alphanumeric c || Ascii.eqb c "-" || Ascii.eqb c "_".

(** [id.chars().map(...)]: a character outside ASCII is one character, so the
    continuation bytes of its encoding disappear. *)
Definition delta_file_name (id : string) : string :=
  l2s (omap (fun c => if is_continuation c then None
                      else Some (if is_safe_char c then c else "_"%char)) (s2l id))
  +:+ ".json".

(** ** Encoding *)

(** The operations of [serde_json], [flate2] and [base64] the store calls. *)
Class Codec := {
  accounts_pretty : list Account -> result string string;
  accounts_from_slice : string -> result (list Account) string;
  accounts_from_value : value -> result (list Account) string;
  account_to_value : Account -> option value;
  delta_pretty : AccountDelta -> result string string;
  delta_from_str : string -> result AccountDelta string;
  envelope_pretty : CompressedEnvelope -> result string string;
  envelope_from_value : value -> result CompressedEnvelope string;
  json_from_str : string -> result value string;
  gzip : string -> result string string;
  gunzip : string -> result string string;
  base64_encode : string -> string;
  base64_decode : string -> result string string;
}.

Section Operations.
Context `{Codec}.

Definition encode_accounts (l : list Account) (threshold : nat) : result string string :=
  let? json := accounts_pretty l in
  if (threshold =? 0)%nat || (length l <=? threshold)%nat then Ok json else
  let? compressed := gzip json in
  envelope_pretty {| env_compressed := true; env_data := base64_encode compressed |}.

Definition decode_accounts (raw : string) : result (list Account) string :=
  let? v := json_from_str raw in
  match get v "__compressed" ≫= as_bool with
  | Some true =>
      let? envelope := envelope_from_value v in
      let? compressed := base64_decode (env_data envelope) in
      let? json := gunzip compressed in
      accounts_from_slice json
  | _ => accounts_from_value v
  end.

(** [serde_json::to_value(..).ok() == serde_json::to_value(..).ok()] *)
Definition same_value (v w : option value) : bool :=
  match v, w with
  | Some v, Some w => value_eqb v w
  | None, None => true
  | _, _ => false
  end.

Definition replace_if_changed (a : Account) (s : AccountStore) : AccountStore * bool :=
  match position (fun stored => bool_decide (acc_id stored = acc_id a)) (accounts s) with
  | None => (s, false)
  | Some index =>
      if same_value (accounts s !! index ≫= account_to_value) (account_to_value a)
      then (s, false)
      else
        (with_accounts s (<[index := a]> (accounts s)) (<[acc_id a := Some a]> (dirty s)), true)
  end.

(** ** Loading *)

Definition str_leb (s t : string) : bool := match str_cmp s t with Gt => false | _ => true end.

(** [paths.sort()]: the files of one directory by name. *)
Definition sorted_paths (files : gmap string string) : list (string * string) :=
  sort_by (fun x y => str_leb x.1 y.1) (map_to_list files).

Definition apply_delta (l : list Account) (d : AccountDelta) : list Account :=
  filter (fun a => acc_id a <> delta_id d) l ++ option_list (delta_account d).

(** [reads i] is the error of the [i]-th read. *)
Fixpoint apply_delta_files (reads : nat -> option string) (i : nat) (directory : string)
    (files : list (string * string)) (l : list Account) : result (list Account) string :=
  match files with
  | [] => Ok l
  | (name, raw) :: files =>
      match reads i with
      | Some e => Err e
      | None =>
          match delta_from_str raw with
          | Err _ => Err ("parse " +:+ directory +:+ "/" +:+ name)
          | Ok d => apply_delta_files reads (S i) directory files (apply_delta l d)
          end
      end
  end.

Definition apply_deltas (reads : nat -> option string) (path : string) (d : Disk)
    (l : list Account) : result (list Account) string :=
  match reads 1%nat with
  | Some e => Err e
  | None => apply_delta_files reads 2 (delta_directory path) (sorted_paths (delta_files d)) l
  end.

Definition loaded (path : string) (l : list Account) : AccountStore :=
  {| path := path; accounts := l; compression_threshold := COMPRESSION_THRESHOLD;
     incremental_write := true; dirty := ∅ |}.

Definition load (reads : nat -> option string) (path : string) (d : Disk) :
    result AccountStore string :=
  match base_file d with
  | None => Ok (loaded path [])
  | Some raw =>
      match reads 0%nat with
      | Some e => Err e
      | None =>
          let? l :=
            if is_empty (trim raw) then Ok []
            else match decode_accounts (trim raw) with
                 | Ok l => Ok l
                 | Err _ => Err ("parse " +:+ path)
                 end in
          let? l := apply_deltas reads path d l in
          Ok (loaded path l)
      end
  end.

(** ** Saving *)

(** A file operation that can fail; the last two only touch the directory. *)
Inductive FileOp :=
| WriteBase (raw : string)
| WriteDelta (name raw : string)
| RemoveDelta (name : string)
| CreateDirectory
| ReadDirectory.

Definition apply_op (op : FileOp) (d : Disk) : Disk :=
  match op with
  | WriteBase raw => {| base_file := Some raw; delta_files := delta_files d |}
  | WriteDelta name raw =>
      {| base_file := base_file d; delta_files := <[name := raw]> (delta_files d) |}
  | RemoveDelta name =>
      {| base_file := base_file d; delta_files := delete name (delta_files d) |}
  | CreateDirectory | ReadDirectory => d
  end.

Inductive IoOutcome := IoOk | IoFailed (applied : bool) (error : string).

Fixpoint run_ops (io : nat -> IoOutcome) (i : nat) (ops : list FileOp) (d : Disk) :
    Disk * result unit string :=
  match ops with
  | [] => (d, Ok tt)
  | op :: ops =>
      match io i with
      | IoOk => run_ops io (S i) ops (apply_op op d)
      | IoFailed applied e => (if applied then apply_op op d else d, Err e)
      end
  end.

(** [write_json_atomically] of each delta in the order of the [BTreeMap]; a
    delta that cannot be serialized ends the list with its error. *)
Fixpoint delta_ops (changes : list (string * option Account)) :
    list FileOp * result unit string :=
  match changes with
  | [] => ([], Ok tt)
  | (id, account) :: changes =>
      match delta_pretty {| delta_id := id; delta_account := account |} with
      | Err e => ([], Err e)
      | Ok raw =>
          let '(ops, r) := delta_ops changes in
          (WriteDelta (delta_file_name id) raw :: ops, r)
      end
  end.

Definition sorted_dirty (changes : gmap string (option Account)) :
    list (string * option Account) :=
  sort_by (fun x y => str_leb x.1 y.1) (map_to_list changes).

Definition compressed_mark : string :=
  String "034" ("__compressed" +:+ String "034" EmptyString).

Definition clear_deltas (read_dir : gmap string string -> list string) (d : Disk) : list FileOp :=
  ReadDirectory :: (RemoveDelta <$> read_dir (delta_files d)).

(** The file operations of a save, and its outcome when all of them succeed.
    A save that succeeds leaves no change pending. *)
Definition save_ops (read_ok : bool) (read_dir : gmap string string -> list string)
    (s : AccountStore) (d : Disk) : list FileOp * result unit string :=
  let exists_base := is_some (base_file d) in
  if incremental_write s && exists_base && bool_decide (dirty s = ∅) then ([], Ok tt) else
  let compressed_base :=
    if incremental_write s && (compression_threshold s <? length (accounts s))%nat && exists_base
    then read_ok && is_some_and (base_file d) (fun raw => contains raw compressed_mark)
    else false in
  if compressed_base && negb (bool_decide (dirty s = ∅))
     && (size (dirty s) <? Nat.max (compression_threshold s) 1)%nat
  then
    let '(ops, r) := delta_ops (sorted_dirty (dirty s)) in (CreateDirectory :: ops, r)
  else
    match encode_accounts (accounts s) (compression_threshold s) with
    | Err e => ([], Err e)
    | Ok bytes =>
        (WriteBase bytes :: clear_deltas read_dir d, Ok tt)
    end.

Definition save (io : nat -> IoOutcome) (read_ok : bool)
    (read_dir : gmap string string -> list string) (s : AccountStore) (d : Disk) :
    AccountStore * Disk * result unit string :=
  let '(ops, r) := save_ops read_ok read_dir s d in
  match run_ops io 0 ops d with
  | (d, Err e) => (s, d, Err e)
  | (d, Ok _) =>
      match r with
      | Ok _ => (with_accounts s (accounts s) ∅, d, Ok tt)
      | Err e => (s, d, Err e)
      end
  end.
End Operations.
