(* ===== verification/StoreFacts.v ===== *)
(** * Durability of the account store

    What a later [load] finds on disk after any sequence of changes, saves that
    succeed, fail or are cut short, and restarts. *)

From Stdlib Require Import ZArith Lia Ascii String.
From stdpp Require Import base list gmap strings sorting.
From S2P Require Import Prelude RustStr F64 Json Account Store.

Local Open Scope kproxy_scope.
Local Open Scope string_scope.
Local Open Scope list_scope.

(** What the store relies on in its codecs: printing and parsing are inverse,
    for the accounts whose values JSON can represent. *)
Class CodecLaws `{Codec} := {
  storable : Account -> Prop;
  cl_accounts l : Forall storable l ->
    exists raw v, accounts_pretty l = Ok raw /\ trim raw = raw /\ is_empty raw = false
      /\ json_from_str raw = Ok v /\ get v "__compressed" = None
      /\ accounts_from_value v = Ok l /\ accounts_from_slice raw = Ok l;
  cl_delta d : (forall a, delta_account d = Some a -> storable a) ->
    exists raw, delta_pretty d = Ok raw /\ delta_from_str raw = Ok d;
  cl_envelope e :
    exists raw v, envelope_pretty e = Ok raw /\ trim raw = raw /\ is_empty raw = false
      /\ json_from_str raw = Ok v /\ get v "__compressed" = Some (Bool (env_compressed e))
      /\ envelope_from_value v = Ok e;
  cl_gzip s : exists z, gzip s = Ok z /\ gunzip z = Ok s;
  cl_base64 s : base64_decode (base64_encode s) = Ok s;
}.

Lemma Forall_kept {A} (P Q : A -> Prop) `{forall x, Decision (Q x)} l :
  Forall P l -> Forall P (filter Q l).
Proof. rewrite !Forall_forall. intros Hl x [_ Hx]%list_elem_of_filter. by apply Hl. Qed.

(** ** Accounts by id *)

Definition account_of (id : string) (l : list Account) : option Account :=
  head (filter (fun a => acc_id a = id) l).

Lemma account_of_nil id : account_of id [] = None.
Proof. done. Qed.

Lemma account_of_cons id a l :
  account_of id (a :: l) = if decide (acc_id a = id) then Some a else account_of id l.
Proof. unfold account_of. rewrite filter_cons. by destruct (decide _). Qed.

Lemma account_of_app id l k :
  account_of id (l ++ k) = match account_of id l with Some a => Some a | None => account_of id k end.
Proof.
  induction l as [|a l IH]; [done|]. cbn [app]. rewrite !account_of_cons.
  by destruct (decide _).
Qed.

Lemma account_of_None id l : account_of id l = None <-> id ∉ acc_id <$> l.
Proof.
  induction l as [|a l IH]; [split; [intros _; apply not_elem_of_nil|done]|].
  rewrite account_of_cons, fmap_cons, not_elem_of_cons. destruct (decide _) as [->|Hne].
  - naive_solver.
  - rewrite IH. naive_solver.
Qed.

Lemma account_of_id id l a : account_of id l = Some a -> a ∈ l /\ acc_id a = id.
Proof. intros H%head_Some_elem_of. apply list_elem_of_filter in H as [??]. done. Qed.

Lemma account_of_elem l a : NoDup (acc_id <$> l) -> a ∈ l -> account_of (acc_id a) l = Some a.
Proof.
  induction l as [|b l IH]; intros Hnd Ha; [by apply not_elem_of_nil in Ha|].
  rewrite fmap_cons in Hnd. apply NoDup_cons in Hnd as [Hb Hnd]. rewrite account_of_cons.
  apply elem_of_cons in Ha as [->|Ha]; [by rewrite decide_True|].
  rewrite decide_False; [by apply IH|]. intros Heq. apply Hb. rewrite Heq.
  by apply list_elem_of_fmap_2.
Qed.

(** With unique ids, a list is determined by its accounts up to order. *)
Lemma account_of_perm l k :
  NoDup (acc_id <$> l) -> NoDup (acc_id <$> k) ->
  (forall id, account_of id l = account_of id k) -> l ≡ₚ k.
Proof.
  intros Hl Hk Heq. apply NoDup_Permutation; [by eapply NoDup_fmap_1..|].
  intros a. split; intros Ha.
  - apply (account_of_elem _ _ Hl) in Ha. rewrite Heq in Ha. by apply account_of_id in Ha as [].
  - apply (account_of_elem _ _ Hk) in Ha. rewrite <- Heq in Ha. by apply account_of_id in Ha as [].
Qed.

Lemma account_of_delta id l d :
  (forall a, delta_account d = Some a -> acc_id a = delta_id d) ->
  account_of id (apply_delta l d) =
    if decide (id = delta_id d) then delta_account d else account_of id l.
Proof.
  intros Hd. unfold apply_delta. rewrite account_of_app.
  assert (Hf : account_of id (filter (fun a => acc_id a <> delta_id d) l) =
            if decide (id = delta_id d) then None else account_of id l).
  { induction l as [|a l IH]; [by destruct (decide _)|]. rewrite filter_cons.
    destruct (decide (acc_id a <> delta_id d)) as [E|E]; rewrite ?account_of_cons, IH.
    - destruct (decide (acc_id a = id)) as [<-|]; [|done]. by rewrite decide_False.
    - destruct (decide (id = delta_id d)) as [->|Hne]; [done|].
      rewrite decide_False; [done|]. intros <-. by apply E. }
  rewrite Hf. destruct (decide (id = delta_id d)) as [->|Hne].
  - destruct (delta_account d) as [a|]; [|done]. cbn [option_list option_rect]. rewrite account_of_cons.
    by rewrite decide_True by auto.
  - destruct (account_of id l); [done|]. destruct (delta_account d) as [a|]; [|done].
    cbn [option_list option_rect]. rewrite account_of_cons, decide_False; [done|].
    rewrite (Hd a) by done. intros Heq. by apply Hne.
Qed.

Lemma apply_delta_NoDup l d :
  (forall a, delta_account d = Some a -> acc_id a = delta_id d) ->
  NoDup (acc_id <$> l) -> NoDup (acc_id <$> apply_delta l d).
Proof.
  intros Hd Hnd. unfold apply_delta. rewrite fmap_app. apply NoDup_app. split_and!.
  - eapply sublist_NoDup; [done|]. apply fmap_sublist, sublist_filter.
  - intros id (a & -> & Ha)%list_elem_of_fmap. apply list_elem_of_filter in Ha as [Hne _].
    destruct (delta_account d) as [b|]; [|apply not_elem_of_nil]. cbn [option_list option_rect].
    rewrite <- (Hd b eq_refl) in Hne. intros Hin. apply Hne. set_solver.
  - destruct (delta_account d) as [b|]; cbn [option_list option_rect]; repeat constructor.
    apply not_elem_of_nil.
Qed.

(** ** Names of delta files *)

Definition safe_id (id : string) : Prop := Forall (fun c => is_safe_char c = true) (s2l id).

Lemma safe_not_continuation c : is_safe_char c = true -> is_continuation c = false.
Proof.
  unfold is_safe_char, is_continuation. intros Hs.
  destruct (in_range 128 191 c) eqn:E; [|done]. exfalso. revert Hs E.
  unfold is_ascii_alphanumeric, is_ascii_digit, is_ascii_upper, is_ascii_lower.
  destruct c as [[] [] [] [] [] [] [] []]; vm_compute; congruence.
Qed.

Lemma delta_file_name_safe id : safe_id id -> delta_file_name id = id +:+ ".json".
Proof.
  intros Hs. unfold delta_file_name. f_equal. rewrite <- (l2s_s2l id) at 2. f_equal.
  unfold safe_id in Hs. induction Hs as [|c l Hc Hl IH]; [done|].
  cbn [omap list_omap]. rewrite safe_not_continuation, Hc by done. by f_equal.
Qed.

Lemma delta_file_name_inj id id' :
  safe_id id -> safe_id id' -> delta_file_name id = delta_file_name id' -> id = id'.
Proof.
  intros H H'. rewrite !delta_file_name_safe by done. intros Heq%(f_equal s2l).
  apply s2l_inj. unfold s2l in *. revert Heq.
  assert (Happ : forall s t, list_ascii_of_string (s +:+ t) =
            list_ascii_of_string s ++ list_ascii_of_string t)
    by (induction s as [|c s IHs]; intros t; [done|]; simpl; by rewrite IHs).
  rewrite !Happ. apply app_inv_tail.
Qed.

#[export] Instance safe_id_dec id : Decision (safe_id id).
Proof. unfold safe_id. apply _. Defined.

(** ** What the disk holds *)

Section Durability.
Context `{CodecLaws}.

Definition good (a : Account) : Prop := storable a /\ safe_id (acc_id a).

Definition good_change (id : string) (o : option Account) : Prop :=
  safe_id id /\ forall a, o = Some a -> acc_id a = id /\ storable a.

(** A delta file holds the delta of the account it is named after. *)
Definition delta_file_ok (name raw : string) : Prop :=
  exists id o, delta_from_str raw = Ok {| delta_id := id; delta_account := o |}
    /\ name = delta_file_name id /\ good_change id o.

Definition base_ok (base : option string) (bl : list Account) : Prop :=
  match base with
  | None => bl = []
  | Some raw =>
      bl = [] /\ is_empty (trim raw) = true
      \/ is_empty (trim raw) = false /\ decode_accounts (trim raw) = Ok bl
  end.

Record disk_ok (d : Disk) (bl : list Account) : Prop := {
  do_base : base_ok (base_file d) bl;
  do_unique : NoDup (acc_id <$> bl);
  do_good : Forall good bl;
  do_deltas : map_Forall delta_file_ok (delta_files d);
  do_empty : base_file d = None -> delta_files d = ∅;
}.

(** The account a load finds for an id. *)
Definition view (bl : list Account) (files : gmap string string) (id : string) : option Account :=
  match files !! delta_file_name id with
  | Some raw =>
      match delta_from_str raw with Ok d => delta_account d | Err _ => None end
  | None => account_of id bl
  end.

Definition no_errors : nat -> option string := fun _ => None.

Lemma apply_delta_files_spec directory files i l :
  NoDup files.*1 -> Forall (fun f => delta_file_ok f.1 f.2) files ->
  NoDup (acc_id <$> l) -> Forall good l ->
  exists l', apply_delta_files no_errors i directory files l = Ok l'
    /\ NoDup (acc_id <$> l') /\ Forall good l'
    /\ forall id, safe_id id -> account_of id l' = view l (list_to_map files) id.
Proof.
  intros Hnd Hok. revert i l Hnd.
  induction Hok as [|[name raw] files (id0 & o & Hraw & Hname & Hsafe & Ho) _ IH];
    intros i l Hnd Hl Hgood.
  { exists l. split_and!; [done..|]. intros id _. unfold view. simpl. by rewrite lookup_empty. }
  cbn [fst snd] in Hraw, Hname. subst name.
  change (NoDup (delta_file_name id0 :: files.*1)) in Hnd. apply NoDup_cons in Hnd as [Hnew Hnd].
  cbn [apply_delta_files no_errors snd] in *. rewrite Hraw.
  set (d := {| delta_id := id0; delta_account := o |}).
  assert (Hd : forall a, delta_account d = Some a -> acc_id a = delta_id d)
    by (intros a Ha; by apply Ho in Ha as [? _]).
  destruct (IH (S i) (apply_delta l d) Hnd) as (l' & Hrun & Hnd' & Hg & Hview).
  - by apply apply_delta_NoDup.
  - apply Forall_app. split; [by apply Forall_kept|]. destruct o as [a|]; [|constructor].
    destruct (Ho a eq_refl) as [Hid Hst]. repeat constructor; [done|]. by rewrite Hid.
  - exists l'. split_and!; [done..|]. intros id Hid. rewrite Hview by done. unfold view.
    cbn [list_to_map foldr fst snd]. rewrite account_of_delta by done.
    change (delta_id d) with id0. destruct (decide (id = id0)) as [->|Hne].
    + rewrite lookup_insert_eq, Hraw. by rewrite (not_elem_of_list_to_map_1 files) by done.
    + rewrite lookup_insert_ne; [done|]. intros Heq. apply Hne. symmetry.
      by apply delta_file_name_inj.
Qed.

Lemma sorted_paths_perm files : sorted_paths files ≡ₚ map_to_list files.
Proof. apply sort_by_perm. Qed.

Lemma list_to_map_sorted files : list_to_map (sorted_paths files) =@{gmap string string} files.
Proof.
  rewrite <- (list_to_map_to_list files) at 2. apply list_to_map_proper; [|apply sorted_paths_perm].
  rewrite sorted_paths_perm. apply NoDup_fst_map_to_list.
Qed.

(** Loading succeeds on such a disk and finds the view of every id. *)
Lemma load_view p d bl :
  disk_ok d bl ->
  exists l, load no_errors p d = Ok (loaded p l) /\ NoDup (acc_id <$> l) /\ Forall good l
    /\ forall id, safe_id id -> account_of id l = view bl (delta_files d) id.
Proof.
  intros [Hbase Hnd Hgood Hdeltas Hempty]. unfold load.
  destruct (base_file d) as [raw|]; cbn [base_ok] in Hbase.
  - destruct (apply_delta_files_spec (delta_directory p) (sorted_paths (delta_files d)) 2 bl)
      as (l & Hrun & Hl); try done.
    { rewrite sorted_paths_perm. apply NoDup_fst_map_to_list. }
    { rewrite sorted_paths_perm. apply map_Forall_to_list in Hdeltas.
      eapply Forall_impl; [done|]. by intros []. }
    exists l. rewrite list_to_map_sorted in Hl. split; [|done].
    cbn [no_errors]. unfold apply_deltas. cbn [no_errors].
    destruct Hbase as [[-> ->]|[-> ->]]; cbn [result_bind]; by rewrite Hrun.
  - subst bl. exists []. split; [done|]. split; [done|]. split; [done|].
    intros id _. unfold view. rewrite Hempty by done. by rewrite lookup_empty.
Qed.

(** ** Encoding *)

Lemma encode_decode l threshold :
  Forall good l ->
  exists raw, encode_accounts l threshold = Ok raw /\ base_ok (Some raw) l.
Proof.
  intros Hl. unfold encode_accounts.
  assert (Hst : Forall storable l) by (eapply Forall_impl; [done|]; by intros a [? _]).
  destruct (cl_accounts l Hst) as (json & v & -> & Ht & He & Hv & Hnone & Hval & Hslice).
  cbn [result_bind]. destruct (_ || _).
  - exists json. split; [done|]. right. rewrite Ht. split; [done|].
    unfold decode_accounts. rewrite Hv. cbn [result_bind]. by rewrite Hnone.
  - destruct (cl_gzip json) as (z & -> & Hz). cbn [result_bind].
    destruct (cl_envelope {| env_compressed := true; env_data := base64_encode z |})
      as (raw & w & Hraw & Ht' & He' & Hw & Hget & Hw').
    exists raw. split; [done|]. right. rewrite Ht'. split; [done|].
    unfold decode_accounts. rewrite Hw. cbn [result_bind]. rewrite Hget. cbn [mbind option_bind as_bool env_compressed].
    rewrite Hw'. cbn [result_bind env_data]. rewrite cl_base64. cbn [result_bind]. rewrite Hz. done.
Qed.

(** ** Saving *)

Lemma run_removes io i names d d' r :
  run_ops io i (RemoveDelta <$> names) d = (d', r) ->
  base_file d' = base_file d /\ delta_files d' ⊆ delta_files d
  /\ (r = Ok tt -> forall n, n ∈ names -> delta_files d' !! n = None).
Proof.
  revert i d; induction names as [|n names IH]; intros i d; cbn [fmap list_fmap run_ops].
  { intros; simplify_eq. split_and!; [done..|]. intros _ n Hn. by apply not_elem_of_nil in Hn. }
  destruct (io i) as [|applied e].
  - intros (Hb & Hsub & Hn)%IH. cbn [apply_op base_file delta_files] in *. split_and!; [done| |].
    + etrans; [done|]. apply delete_subseteq.
    + intros Hr m [->|Hm]%elem_of_cons; [|by apply Hn].
      eapply lookup_weaken_None; [|done]. apply lookup_delete_eq.
  - intros [= <- <-]. destruct applied; split_and!; try done. apply delete_subseteq.
Qed.

(** A full save: the old disk, or the new base with what is left of the deltas. *)
Lemma run_full io raw names d d' r :
  run_ops io 0 (WriteBase raw :: ReadDirectory :: (RemoveDelta <$> names)) d = (d', r) ->
  (d' = d /\ r <> Ok tt)
  \/ base_file d' = Some raw /\ delta_files d' ⊆ delta_files d
     /\ (r = Ok tt -> forall n, n ∈ names -> delta_files d' !! n = None).
Proof.
  cbn [run_ops]. destruct (io 0%nat) as [|[] e].
  - destruct (io 1%nat) as [|[] e].
    + intros (Hb & Hsub & Hn)%run_removes. by right.
    + intros [= <- <-]. by right.
    + intros [= <- <-]. by right.
  - intros [= <- <-]. by right.
  - intros [= <- <-]. by left.
Qed.

Lemma view_write bl files id0 o0 raw id :
  safe_id id0 -> safe_id id ->
  delta_from_str raw = Ok {| delta_id := id0; delta_account := o0 |} ->
  view bl (<[delta_file_name id0 := raw]> files) id =
    if decide (id = id0) then o0 else view bl files id.
Proof.
  intros H0' Hid Hraw. unfold view. destruct (decide (id = id0)) as [->|Hne].
  - by rewrite lookup_insert_eq, Hraw.
  - rewrite lookup_insert_ne; [done|]. intros Heq. apply Hne. symmetry.
    by apply delta_file_name_inj.
Qed.

(** What writing the deltas [changes] may leave behind when it ends with [r]. *)
Definition written (changes : list (string * option Account)) (r : result unit string)
    (files files' : gmap string string) : Prop :=
  forall bl id, safe_id id ->
    (id ∉ changes.*1 -> view bl files' id = view bl files id)
    /\ forall o, (id, o) ∈ changes ->
         view bl files' id = o \/ r <> Ok tt /\ view bl files' id = view bl files id.

Lemma delta_ops_ok changes :
  Forall (fun c => good_change c.1 c.2) changes -> snd (delta_ops changes) = Ok tt.
Proof.
  induction 1 as [|[id o] changes [_ Ho] _ IH]; [done|]. cbn [delta_ops].
  destruct (cl_delta {| delta_id := id; delta_account := o |}) as (raw & -> & _).
  { intros a Ha. by apply Ho in Ha as [_ ?]. }
  by destruct (delta_ops changes).
Qed.

Lemma written_one io_failed id0 o0 raw changes files :
  safe_id id0 -> id0 ∉ changes.*1 ->
  delta_from_str raw = Ok {| delta_id := id0; delta_account := o0 |} ->
  written ((id0, o0) :: changes) (Err io_failed) files (<[delta_file_name id0 := raw]> files).
Proof.
  intros Hsafe Hnew Hraw bl id Hid. rewrite (view_write bl _ id0 o0) by done.
  destruct (decide (id = id0)) as [->|Hne]; split; try done.
  - intros Hn. exfalso. apply Hn. cbn. left.
  - intros o [[= ->]|Hc]%elem_of_cons; [by left|].
    exfalso. apply Hnew. by apply (list_elem_of_fmap_2 fst) in Hc.
  - intros o _. by right.
Qed.

Lemma run_deltas io i changes d d' r :
  Forall (fun c => good_change c.1 c.2) changes -> NoDup changes.*1 ->
  run_ops io i (fst (delta_ops changes)) d = (d', r) ->
  map_Forall delta_file_ok (delta_files d) ->
  base_file d' = base_file d /\ map_Forall delta_file_ok (delta_files d')
  /\ written changes r (delta_files d) (delta_files d').
Proof.
  intros Hgood. revert i d.
  induction Hgood as [|[id0 o0] changes [Hsafe Ho] _ IH]; intros i d Hnd Hrun Hfiles.
  { cbn in Hrun. simplify_eq. split_and!; try done. intros bl id _. split; [done|].
    intros o Hin. by apply not_elem_of_nil in Hin. }
  cbn [delta_ops fst snd] in *. change (NoDup (id0 :: changes.*1)) in Hnd.
  apply NoDup_cons in Hnd as [Hnew Hnd].
  destruct (cl_delta {| delta_id := id0; delta_account := o0 |}) as (raw & Hp & Hraw).
  { intros a Ha. by apply Ho in Ha as [_ ?]. }
  rewrite Hp in Hrun. destruct (delta_ops changes) as [ops r0]. cbn [fst run_ops] in *.
  set (d1 := apply_op (WriteDelta (delta_file_name id0) raw) d) in *.
  assert (Hf1 : map_Forall delta_file_ok (delta_files d1)).
  { apply map_Forall_insert_2; [|done]. by exists id0, o0. }
  destruct (io i) as [|applied e].
  - destruct (IH _ _ Hnd Hrun Hf1) as (Hb & Hf & Hw).
    split_and!; [done..|]. intros bl id Hid. destruct (Hw bl id Hid) as [Hout Hin].
    cbn [d1 apply_op delta_files] in Hout, Hin.
    rewrite (view_write bl _ id0 o0 raw) in Hout, Hin by done.
    destruct (decide (id = id0)) as [->|Hne]; split.
    + intros Hn. exfalso. apply Hn. cbn. left.
    + intros o [[= ->]|Hc]%elem_of_cons; [left; by apply Hout|].
      exfalso. apply Hnew. by apply (list_elem_of_fmap_2 fst) in Hc.
    + intros Hn. apply Hout. intros Hc. apply Hn. cbn. by right.
    + intros o [[= -> ->]|Hc]%elem_of_cons; [done|]. by apply Hin.
  - injection Hrun as <- <-. destruct applied; split_and!; try done.
    + by apply written_one.
    + intros bl id _. split; [done|]. intros o _. by right.
Qed.

(** ** The invariant

    The accounts in memory are those on disk, overridden by the pending
    changes. *)

Record store_inv (s : AccountStore) (d : Disk) (bl : list Account) : Prop := {
  si_disk : disk_ok d bl;
  si_unique : NoDup (acc_id <$> accounts s);
  si_good : Forall good (accounts s);
  si_dirty : map_Forall good_change (dirty s);
  si_view : forall id, safe_id id ->
    account_of id (accounts s) =
      match dirty s !! id with Some o => o | None => view bl (delta_files d) id end;
}.

Lemma sorted_dirty_perm changes : sorted_dirty changes ≡ₚ map_to_list changes.
Proof. apply sort_by_perm. Qed.

Lemma good_sorted_dirty changes :
  map_Forall good_change changes ->
  Forall (fun c => good_change c.1 c.2) (sorted_dirty changes) /\ NoDup (sorted_dirty changes).*1.
Proof.
  intros Hc. rewrite sorted_dirty_perm. split; [|apply NoDup_fst_map_to_list].
  apply map_Forall_to_list in Hc. eapply Forall_impl; [done|]. by intros [].
Qed.

Lemma elem_sorted_dirty changes id o : (id, o) ∈ sorted_dirty changes <-> changes !! id = Some o.
Proof. by rewrite sorted_dirty_perm, elem_of_map_to_list. Qed.

Lemma not_dirty changes id : changes !! id = None -> id ∉ (sorted_dirty changes).*1.
Proof.
  intros Hn Hin. rewrite list_elem_of_fmap in Hin. destruct Hin as ([id' o] & Heq & Hin).
  cbn in Heq. subst id'. apply elem_sorted_dirty in Hin. congruence.
Qed.

(** The same accounts, seen on another disk with the same or no pending changes. *)
Lemma store_inv_move s d bl d' bl' (cleared : bool) :
  store_inv s d bl -> disk_ok d' bl' ->
  (forall id, safe_id id ->
     if cleared then view bl' (delta_files d') id = account_of id (accounts s)
     else dirty s !! id = None -> view bl' (delta_files d') id = account_of id (accounts s)) ->
  store_inv (if cleared then with_accounts s (accounts s) ∅ else s) d' bl'.
Proof.
  intros [Hd Hu Hg Hdi Hv] Hd' Hview. destruct cleared.
  - constructor; cbn [accounts dirty with_accounts]; [done..| |].
    + apply map_Forall_empty.
    + intros id Hid. rewrite lookup_empty. symmetry. by apply Hview.
  - constructor; [done..|]. intros id Hid. destruct (dirty s !! id) eqn:E.
    + rewrite Hv by done. by rewrite E.
    + symmetry. by apply Hview.
Qed.

(** Every account on the new disk is as it was, or as it is in memory. *)
Definition old_or_new (s : AccountStore) (bl bl' : list Account) (d d' : Disk) : Prop :=
  forall id, safe_id id ->
    view bl' (delta_files d') id = view bl (delta_files d) id
    \/ view bl' (delta_files d') id = account_of id (accounts s).

Lemma full_save_inv s d bl d' (r : result unit string) raw (names : list string) :
  store_inv s d bl -> base_ok (Some raw) (accounts s) ->
  base_file d' = Some raw -> delta_files d' ⊆ delta_files d ->
  (r = Ok tt -> forall n, n ∈ names -> delta_files d' !! n = None) ->
  (forall n, is_Some (delta_files d !! n) -> n ∈ names) ->
  disk_ok d' (accounts s) /\ old_or_new s bl (accounts s) d d'
  /\ store_inv s d' (accounts s)
  /\ (r = Ok tt -> store_inv (with_accounts s (accounts s) ∅) d' (accounts s)).
Proof.
  intros Hinv Hraw Hbase Hsub Hgone Hnames. pose proof Hinv as [Hd Hu Hg Hdi Hv].
  assert (Hd' : disk_ok d' (accounts s)).
  { constructor; [by rewrite Hbase|done..| |congruence].
    intros n x Hx. apply (do_deltas _ _ Hd). by eapply lookup_weaken. }
  assert (Hcase : forall id, safe_id id ->
            view (accounts s) (delta_files d') id = account_of id (accounts s)
            \/ r <> Ok tt /\ view (accounts s) (delta_files d') id = view bl (delta_files d) id).
  { intros id Hid. unfold view. destruct (delta_files d' !! delta_file_name id) as [x|] eqn:E;
      [|by left]. right. pose proof (lookup_weaken _ _ _ _ E Hsub) as Ed. rewrite Ed.
    split; [|done]. intros Hr. rewrite (Hgone Hr) in E; [done|]. by apply Hnames. }
  split_and!; [done| | |].
  - intros id Hid. destruct (Hcase id Hid) as [?|[_ ?]]; auto.
  - apply (store_inv_move s d bl d' (accounts s) false Hinv Hd'). intros id Hid Hnone.
    destruct (Hcase id Hid) as [?|[_ ->]]; [done|]. rewrite Hv by done. by rewrite Hnone.
  - intros Hr. apply (store_inv_move s d bl d' (accounts s) true Hinv Hd'). intros id Hid.
    by destruct (Hcase id Hid) as [?|[? _]].
Qed.

Lemma delta_save_inv s d bl d' r :
  store_inv s d bl -> base_file d' = base_file d -> is_Some (base_file d) ->
  map_Forall delta_file_ok (delta_files d') ->
  written (sorted_dirty (dirty s)) r (delta_files d) (delta_files d') ->
  disk_ok d' bl /\ old_or_new s bl bl d d' /\ store_inv s d' bl
  /\ (r = Ok tt -> store_inv (with_accounts s (accounts s) ∅) d' bl).
Proof.
  intros Hinv Hbase Hsome Hfiles Hw. pose proof Hinv as [Hd Hu Hg Hdi Hv].
  assert (Hd' : disk_ok d' bl).
  { destruct Hd as [Hb1 Hb2 Hb3 Hb4 Hb5]. constructor; try done; [by rewrite Hbase|].
    intros Hn. rewrite Hbase in Hn. by destruct Hsome; congruence. }
  assert (Hcase : forall id, safe_id id ->
            view bl (delta_files d') id = account_of id (accounts s)
            \/ r <> Ok tt /\ is_Some (dirty s !! id)
               /\ view bl (delta_files d') id = view bl (delta_files d) id).
  { intros id Hid. destruct (Hw bl id Hid) as [Hout Hin].
    rewrite (Hv id Hid). destruct (dirty s !! id) as [o|] eqn:E.
    - apply elem_sorted_dirty in E. destruct (Hin o E) as [->|[??]]; [by left|by right].
    - left. by apply Hout, not_dirty. }
  split_and!; [done| | |].
  - intros id Hid. destruct (Hcase id Hid) as [?|(_ & _ & ?)]; auto.
  - apply (store_inv_move s d bl d' bl false Hinv Hd'). intros id Hid Hnone.
    destruct (Hcase id Hid) as [?|(_ & [? ?] & _)]; [done|congruence].
  - intros Hr. apply (store_inv_move s d bl d' bl true Hinv Hd'). intros id Hid.
    by destruct (Hcase id Hid) as [?|[? _]].
Qed.

Context (read_dir : gmap string string -> list string).
Context (read_dir_all : forall m, read_dir m ≡ₚ (map_to_list m).*1).

Lemma read_dir_elem (m : gmap string string) n : is_Some (m !! n) -> n ∈ read_dir m.
Proof.
  intros [x Hx]. rewrite read_dir_all. apply list_elem_of_fmap. exists (n, x).
  split; [done|]. by apply elem_of_map_to_list.
Qed.

(** The three ways a save goes on after its operations ran. *)
Lemma save_finish io read_ok s d bl ops r0 s' d' r :
  store_inv s d bl ->
  save_ops read_ok read_dir s d = (ops, r0) -> save io read_ok read_dir s d = (s', d', r) ->
  (forall d1 r1, run_ops io 0 ops d = (d1, r1) -> r0 = Ok tt /\
     exists bl', disk_ok d1 bl' /\ old_or_new s bl bl' d d1 /\ store_inv s d1 bl'
       /\ (r1 = Ok tt -> store_inv (with_accounts s (accounts s) ∅) d1 bl')) ->
  exists bl', disk_ok d' bl' /\ old_or_new s bl bl' d d' /\ accounts s' = accounts s
    /\ path s' = path s /\ store_inv s' d' bl' /\ (r = Ok tt -> dirty s' = ∅)
    /\ ((forall i, io i = IoOk) -> r = Ok tt).
Proof.
  intros Hinv Hops Hsave Hrun. unfold save in Hsave. rewrite Hops in Hsave.
  destruct (run_ops io 0 ops d) as [d1 r1] eqn:E.
  destruct (Hrun d1 r1 eq_refl) as (-> & bl' & Hd & Hon & Hkeep & Hclear).
  exists bl'. destruct r1 as [[]|e]; simplify_eq; split_and!; try done.
  - by apply Hclear.
  - intros Hio. exfalso. revert E. clear -Hio. generalize 0 d.
    induction ops as [|op ops IH]; intros i d0; cbn [run_ops]; [done|]. rewrite Hio. apply IH.
Qed.

Lemma old_or_new_refl s bl d : old_or_new s bl bl d d.
Proof. intros id _. by left. Qed.

Lemma save_inv io read_ok s d bl s' d' r :
  store_inv s d bl -> save io read_ok read_dir s d = (s', d', r) ->
  exists bl', disk_ok d' bl' /\ old_or_new s bl bl' d d' /\ accounts s' = accounts s
    /\ path s' = path s /\ store_inv s' d' bl' /\ (r = Ok tt -> dirty s' = ∅)
    /\ ((forall i, io i = IoOk) -> r = Ok tt).
Proof.
  intros Hinv Hsave. destruct (save_ops read_ok read_dir s d) as [ops r0] eqn:Hops.
  eapply save_finish; [done..|]. intros d1 r1 Hrun. unfold save_ops in Hops.
  destruct (incremental_write s && _ && _) eqn:Eclean.
  { simplify_eq. cbn [run_ops] in Hrun. simplify_eq. split; [done|]. exists bl.
    apply andb_prop in Eclean as [_ Hempty]. apply bool_decide_eq_true in Hempty.
    split_and!; [by apply Hinv|apply old_or_new_refl|done|]. intros _.
    apply (store_inv_move s d1 bl d1 bl true Hinv (si_disk _ _ _ Hinv)). intros id Hid.
    rewrite (si_view _ _ _ Hinv id Hid), Hempty. by rewrite lookup_empty. }
  clear Eclean. destruct (_ && negb _ && _)%bool eqn:Edelta.
  - destruct (delta_ops (sorted_dirty (dirty s))) as [ops1 r2] eqn:E. simplify_eq.
    destruct (good_sorted_dirty _ (si_dirty _ _ _ Hinv)) as [Hgood Hnd].
    pose proof (delta_ops_ok _ Hgood) as Hr. rewrite E in Hr. cbn in Hr. split; [done|].
    assert (Hsome : is_Some (base_file d)).
    { destruct (base_file d); [eauto|]. cbn [is_some] in Edelta.
      rewrite andb_false_r in Edelta. done. }
    exists bl. cbn [run_ops apply_op] in Hrun. destruct (io 0%nat) as [|applied e].
    + pose proof (run_deltas io 1 (sorted_dirty (dirty s)) d d1 r1 Hgood Hnd) as Hrd.
      rewrite E in Hrd. destruct (Hrd Hrun (do_deltas _ _ (si_disk _ _ _ Hinv))) as (Hb & Hf & Hw).
      by apply (delta_save_inv s d bl d1 r1).
    + assert (d1 = d /\ r1 <> Ok tt) as [-> Hr1] by (destruct applied; by simplify_eq).
      split_and!; [by apply Hinv|apply old_or_new_refl|done|done].
  - destruct (encode_decode (accounts s) (compression_threshold s) (si_good _ _ _ Hinv))
      as (raw & Henc & Hraw). rewrite Henc in Hops. simplify_eq. split; [done|].
    apply run_full in Hrun as [[-> Hr1]|(Hb & Hsub & Hgone)].
    + exists bl. split_and!; [by apply Hinv|apply old_or_new_refl|done|done].
    + exists (accounts s). eapply full_save_inv; [done..|]. intros n. apply read_dir_elem.
Qed.

(** ** Changes in memory *)

Lemma store_change s d bl l id o :
  store_inv s d bl -> good_change id o -> NoDup (acc_id <$> l) -> Forall good l ->
  (forall id', account_of id' l = if decide (id' = id) then o else account_of id' (accounts s)) ->
  store_inv (with_accounts s l (<[id := o]> (dirty s))) d bl.
Proof.
  intros [Hd Hu Hg Hdi Hv] Hc Hnd Hgood Hl. constructor; cbn [accounts dirty with_accounts];
    [done..| |].
  - by apply map_Forall_insert_2.
  - intros id' Hid. rewrite Hl. destruct (decide (id' = id)) as [->|Hne].
    + by rewrite lookup_insert_eq.
    + rewrite lookup_insert_ne by done. by apply Hv.
Qed.

Lemma account_of_middle id k a m :
  NoDup (acc_id <$> k ++ a :: m) ->
  account_of id (k ++ a :: m) = (if decide (id = acc_id a) then Some a else account_of id (k ++ m))
  /\ account_of (acc_id a) (k ++ m) = None /\ NoDup (acc_id <$> k ++ m).
Proof.
  intros Hnd. assert (Hp : k ++ a :: m ≡ₚ a :: k ++ m) by (by rewrite Permutation_middle).
  rewrite Hp in Hnd. rewrite fmap_cons in Hnd. apply NoDup_cons in Hnd as [Hnew Hnd].
  apply account_of_None in Hnew. split_and!; [|done|done].
  rewrite account_of_app in *. rewrite account_of_cons, account_of_app.
  destruct (decide (id = acc_id a)) as [->|Hne].
  - rewrite decide_True by done. by destruct (account_of (acc_id a) k).
  - by rewrite decide_False.
Qed.

Lemma position_lookup {A} (f : A -> bool) l i :
  position f l = Some i -> exists x, l !! i = Some x /\ f x = true.
Proof.
  revert i; induction l as [|x l IH]; intros i; cbn [position]; [done|].
  destruct (f x) eqn:E; [intros [= <-]; by exists x|].
  destruct (position f l) as [j|]; [|done]. intros [= <-]. by apply IH.
Qed.

Lemma insert_account_inv a s d bl :
  good a -> store_inv s d bl -> store_inv (fst (insert_account a s)) d bl.
Proof.
  intros [Hst Hsafe] Hinv. unfold insert_account.
  destruct (existsb _ (accounts s)) eqn:E; [done|].
  destruct (existsb (fun existing => bool_decide (email existing = _)) _); [done|].
  assert (Hnew : account_of (acc_id a) (accounts s) = None).
  { apply account_of_None. intros (b & Heq & Hb)%list_elem_of_fmap.
    apply list_elem_of_In in Hb. apply not_true_iff_false in E. apply E, existsb_exists.
    exists b. split; [done|]. by apply bool_decide_eq_true. }
  assert (store_inv (with_accounts s (accounts s ++ [a]) (<[acc_id a := Some a]> (dirty s))) d bl).
  { apply store_change; [done| | | |].
    - split; [done|]. by intros b [= <-].
    - rewrite fmap_app. apply NoDup_app. split_and!; [by apply Hinv| |apply NoDup_singleton].
      intros id Hid Hin. apply list_elem_of_singleton in Hin as ->. by apply account_of_None in Hnew.
    - apply Forall_app. split; [by apply Hinv|]. by repeat constructor.
    - intros id. rewrite account_of_app, account_of_cons.
      destruct (decide (id = acc_id a)) as [->|Hne].
      + by rewrite Hnew, decide_True.
      + rewrite decide_False by done. by destruct (account_of id (accounts s)). }
  destruct (registered_user a); [|done]. by destruct (head _).
Qed.

(** Replacing the account at a position by one with the same id. *)
Lemma replace_at_inv s d bl i a b :
  store_inv s d bl -> accounts s !! i = Some a -> acc_id b = acc_id a -> storable b ->
  store_inv (with_accounts s (<[i := b]> (accounts s)) (<[acc_id b := Some b]> (dirty s))) d bl.
Proof.
  intros Hinv Hi Hid Hst. pose proof Hinv as [Hd Hu Hg Hdi Hv].
  pose proof (take_drop_middle _ _ _ Hi) as Hsplit. assert (Hsafe : safe_id (acc_id a)).
  { eapply Forall_lookup_1 in Hg; [|exact Hi]. by destruct Hg. }
  rewrite (insert_take_drop _ _ _ (lookup_lt_Some _ _ _ Hi)).
  set (k := take i (accounts s)) in *. set (m := drop (S i) (accounts s)) in *.
  assert (Hids : acc_id <$> k ++ b :: m = acc_id <$> accounts s)
    by (by rewrite <- Hsplit, !fmap_app, !fmap_cons, Hid).
  assert (Hnd : NoDup (acc_id <$> k ++ b :: m)) by (by rewrite Hids).
  apply store_change; [done| |done| |].
  - split; [by rewrite Hid|]. by intros x [= <-].
  - rewrite <- Hsplit in Hg. apply Forall_app in Hg as [Hk Ham].
    apply Forall_cons in Ham as [_ Hm]. apply Forall_app. split; [done|].
    constructor; [|done]. split; [done|]. by rewrite Hid.
  - intros id. rewrite <- Hsplit in Hu.
    replace (account_of id (accounts s)) with (account_of id (k ++ a :: m)) by (by rewrite Hsplit).
    destruct (account_of_middle id _ _ _ Hnd) as [-> _].
    destruct (account_of_middle id _ _ _ Hu) as [-> _]. rewrite Hid.
    by destruct (decide (id = acc_id a)).
Qed.

Lemma update_account_inv key mutate s d bl :
  (forall a, acc_id (mutate a) = acc_id a) -> (forall a, storable a -> storable (mutate a)) ->
  store_inv s d bl -> store_inv (fst (update_account key mutate s)) d bl.
Proof.
  intros Hid Hst Hinv. unfold update_account. destruct (position _ _) as [i|]; [|done].
  destruct (accounts s !! i) as [a|] eqn:E; [|done]. eapply replace_at_inv; [done..|].
  apply Hst. pose proof (si_good _ _ _ Hinv) as Hg. eapply Forall_lookup_1 in Hg; [|exact E].
  by destruct Hg.
Qed.

Lemma replace_if_changed_inv a s d bl :
  storable a -> store_inv s d bl -> store_inv (fst (replace_if_changed a s)) d bl.
Proof.
  intros Hst Hinv. unfold replace_if_changed. destruct (position _ _) as [i|] eqn:E; [|done].
  destruct (same_value _ _); [done|]. apply position_lookup in E as (b & Hi & Hb).
  apply bool_decide_eq_true in Hb. eapply replace_at_inv; [done..|by symmetry|done].
Qed.

Lemma remove_account_inv key s d bl :
  store_inv s d bl -> store_inv (fst (remove_account key s)) d bl.
Proof.
  intros Hinv. unfold remove_account. destruct (position _ _) as [i|]; [|done].
  destruct (accounts s !! i) as [a|] eqn:Hi; [|done]. pose proof Hinv as [Hd Hu Hg Hdi Hv].
  pose proof (take_drop_middle _ _ _ Hi) as Hsplit. cbn [fst].
  set (k := take i (accounts s)) in *. set (m := drop (S i) (accounts s)) in *.
  rewrite <- Hsplit in Hu, Hg. destruct (account_of_middle (acc_id a) _ _ _ Hu) as (_ & Hnone & Hnd).
  apply Forall_app in Hg as [Hk Ham]. apply Forall_cons in Ham as [[_ Hsafe] Hm].
  apply store_change; [done|by split|done|by apply Forall_app|].
  intros id. rewrite <- Hsplit. destruct (account_of_middle id _ _ _ Hu) as [-> _].
  by destruct (decide (id = acc_id a)) as [->|].
Qed.

(** ** The life of a store *)

Inductive sstep : AccountStore * Disk -> AccountStore * Disk -> Prop :=
| SInsert a s d : good a -> sstep (s, d) (fst (insert_account a s), d)
| SRemove key s d : sstep (s, d) (fst (remove_account key s), d)
| SUpdate key mutate s d :
    (forall a, acc_id (mutate a) = acc_id a) -> (forall a, storable a -> storable (mutate a)) ->
    sstep (s, d) (fst (update_account key mutate s), d)
| SReplace a s d : storable a -> sstep (s, d) (fst (replace_if_changed a s), d)
| SThreshold n s d : sstep (s, d) (set_compression_threshold n s, d)
| SIncremental b s d : sstep (s, d) (set_incremental_write b s, d)
| SSave io read_ok s d s' d' r :
    save io read_ok read_dir s d = (s', d', r) -> sstep (s, d) (s', d')
| SRestart reads s d s' : load reads (path s) d = Ok s' -> sstep (s, d) (s', d).

Definition empty_disk : Disk := {| base_file := None; delta_files := ∅ |}.

(** A load that succeeds met no error. *)
Lemma load_no_errors reads p d s : load reads p d = Ok s -> load no_errors p d = Ok s.
Proof.
  assert (Hfiles : forall directory files i l l',
            apply_delta_files reads i directory files l = Ok l' ->
            apply_delta_files no_errors i directory files l = Ok l').
  { intros directory files. induction files as [|[n x] files IH]; intros i l l'; [done|].
    cbn [apply_delta_files no_errors]. destruct (reads i); [done|].
    destruct (delta_from_str x); [apply IH|done]. }
  unfold load, apply_deltas. cbn [no_errors]. destruct (base_file d) as [raw|]; [|done].
  destruct (reads 0%nat); [done|]. destruct (if is_empty (trim raw) then _ else _) as [l|e]; [|done].
  cbn [result_bind]. destruct (reads 1%nat); [done|].
  destruct (apply_delta_files reads _ _ _ _) eqn:E; [|done]. by rewrite (Hfiles _ _ _ _ _ E).
Qed.

Lemma loaded_inv p d bl l :
  disk_ok d bl -> NoDup (acc_id <$> l) -> Forall good l ->
  (forall id, safe_id id -> account_of id l = view bl (delta_files d) id) ->
  store_inv (loaded p l) d bl.
Proof.
  intros Hd Hnd Hg Hv. constructor; cbn [accounts dirty loaded]; [done..|apply map_Forall_empty|].
  intros id Hid. rewrite lookup_empty. by apply Hv.
Qed.

Lemma sstep_inv x y :
  sstep x y -> (exists bl, store_inv x.1 x.2 bl) -> exists bl, store_inv y.1 y.2 bl.
Proof.
  intros Hstep [bl Hinv]. destruct Hstep as [| | | | | |io read_ok s d s' d' r Hsave|reads s d s' Hload];
    cbn [fst snd] in *.
  - exists bl. by apply insert_account_inv.
  - exists bl. by apply remove_account_inv.
  - exists bl. by apply update_account_inv.
  - exists bl. by apply replace_if_changed_inv.
  - exists bl. by destruct Hinv.
  - exists bl. by destruct Hinv.
  - destruct (save_inv _ _ _ _ _ _ _ _ Hinv Hsave) as (bl' & _ & _ & _ & _ & Hs & _). eauto.
  - destruct (load_view (path s) d bl (si_disk _ _ _ Hinv)) as (l & Hl & Hrest).
    apply load_no_errors in Hload. rewrite Hl in Hload. simplify_eq.
    exists bl. by apply loaded_inv; destruct Hrest as (? & ? & ?); try done; apply Hinv.
Qed.

Lemma reachable_inv p x :
  rtc sstep (loaded p [], empty_disk) x -> exists bl, store_inv x.1 x.2 bl.
Proof.
  intros Hr. apply rtc_ind_r with (P := fun x => exists bl, store_inv x.1 x.2 bl) in Hr; [done| |].
  - exists []. apply loaded_inv; [|constructor|constructor|done].
    constructor; [done|constructor|constructor|apply map_Forall_empty|done].
  - intros y z _ Hstep Hy. by eapply sstep_inv.
Qed.

Lemma unsafe_none l id : Forall good l -> ~ safe_id id -> account_of id l = None.
Proof.
  intros Hg Hn. destruct (account_of id l) as [a|] eqn:E; [|done].
  apply account_of_id in E as [Ha <-]. rewrite Forall_forall in Hg. by apply Hg in Ha as [].
Qed.

(** C14: The account file is durable: after any sequence of insertions,
    removals, updates, restarts, changes of the write mode and earlier saves
    that succeeded or failed, a save that succeeds leaves a disk from which a
    restart loads exactly the accounts in memory, whether it wrote the whole
    file, compressed or not, or only deltas; and a save whose file operations
    succeed, succeeds. *)
Theorem save_load_roundtrip p io read_ok s d s' d' r :
  rtc sstep (loaded p [], empty_disk) (s, d) ->
  save io read_ok read_dir s d = (s', d', r) ->
  (r = Ok tt -> exists l, load no_errors p d' = Ok (loaded p l) /\ l ≡ₚ accounts s)
  /\ ((forall i, io i = IoOk) -> r = Ok tt).
Proof.
  intros [bl Hinv]%reachable_inv Hsave. cbn [fst snd] in Hinv.
  destruct (save_inv _ _ _ _ _ _ _ _ Hinv Hsave)
    as (bl' & Hd & _ & Hacc & _ & [_ Hu Hg _ Hv] & Hclean & Hok).
  split; [|done]. intros ->. destruct (load_view p d' bl' Hd) as (l & Hl & Hnd & Hgl & Hview).
  exists l. split; [done|]. rewrite <- Hacc. apply account_of_perm; [done..|]. intros id.
  destruct (decide (safe_id id)) as [Hid|Hid].
  - rewrite Hview, Hv by done. by rewrite Hclean, lookup_empty.
  - by rewrite !unsafe_none.
Qed.

(** C15: A save that is cut short loses nothing that was durable: at whatever
    file operation it fails or the process dies, the disk can still be loaded,
    and every account found there is as the last complete state had it or as
    it is in memory. *)
Theorem save_crash_consistent p io read_ok s d s' d' r :
  rtc sstep (loaded p [], empty_disk) (s, d) ->
  save io read_ok read_dir s d = (s', d', r) ->
  exists l l', load no_errors p d = Ok (loaded p l) /\ load no_errors p d' = Ok (loaded p l')
    /\ NoDup (acc_id <$> l')
    /\ forall id, account_of id l' = account_of id l \/ account_of id l' = account_of id (accounts s).
Proof.
  intros [bl Hinv]%reachable_inv Hsave. cbn [fst snd] in Hinv.
  destruct (save_inv _ _ _ _ _ _ _ _ Hinv Hsave) as (bl' & Hd & Hon & _).
  destruct (load_view p d bl (si_disk _ _ _ Hinv)) as (l & Hl & Hnd & Hg & Hview).
  destruct (load_view p d' bl' Hd) as (l' & Hl' & Hnd' & Hg' & Hview').
  exists l, l'. split_and!; [done..|]. intros id. destruct (decide (safe_id id)) as [Hid|Hid].
  - rewrite Hview, Hview' by done. by apply Hon.
  - left. by rewrite !unsafe_none.
Qed.
End Durability.

(** ** A codec that satisfies the laws

    Accounts with an id of one character and every other field fixed, printed
    as that character between brackets. *)

Module Letters.
Definition account (id : string) : Account :=
  {| acc_id := id; email := id; label := None; enabled := true; machine_id := "m";
     profile_arn := None; upstream_user_id := None;
     credentials := {| access_token := "t"; refresh_token := None; client_id := None;
                       client_secret := None; region := "r"; expires_at := 0;
                       auth_method := Social |};
     usage := None; subscription := None; tags := []; created_at := 0;
     credit_exhausted := false |}.

Definition is_letter_account (a : Account) : Prop := exists c, a = account (String c EmptyString).

Fixpoint print_ids (l : list Account) : string :=
  match l with [] => "]" | a :: l => acc_id a +:+ print_ids l end.

(** The characters before the closing bracket. *)
Fixpoint parse_ids (s : string) : list value :=
  match s with
  | String c (String d s as rest) => Str (String c EmptyString) :: parse_ids rest
  | _ => []
  end.

(** The text before the closing brace. *)
Fixpoint drop_last (s : string) : string :=
  match s with
  | String c (String d s as rest) => String c (drop_last rest)
  | _ => EmptyString
  end.

Definition parse_value (s : string) : result value string :=
  match s with
  | String "[" s => Ok (Array (parse_ids s))
  | String "{" s =>
      match strip_prefix s compressed_mark with
      | Some (String "t" data) =>
          Ok (Object [("__compressed", Bool true); ("data", Str (drop_last data))])
      | Some (String _ data) =>
          Ok (Object [("__compressed", Bool false); ("data", Str (drop_last data))])
      | _ => Err "envelope"
      end
  | _ => Err "value"
  end.

Definition accounts_of_value (v : value) : result (list Account) string :=
  match v with
  | Array l => Ok ((fun v => account (unwrap_or (as_str v) EmptyString)) <$> l)
  | _ => Err "accounts"
  end.

#[export] Instance codec : Codec := {
  accounts_pretty l := Ok ("[" +:+ print_ids l);
  accounts_from_slice s := result_bind (parse_value s) accounts_of_value;
  accounts_from_value := accounts_of_value;
  account_to_value a := Some (Str (acc_id a));
  delta_pretty d :=
    Ok (match delta_account d with
        | Some a => "S" +:+ acc_id a +:+ delta_id d
        | None => "N" +:+ delta_id d
        end);
  delta_from_str s :=
    match s with
    | String "S" (String c id) =>
        Ok {| delta_id := id; delta_account := Some (account (String c EmptyString)) |}
    | String "N" id => Ok {| delta_id := id; delta_account := None |}
    | _ => Err "delta"
    end;
  envelope_pretty e :=
    Ok ("{" +:+ compressed_mark +:+ (if env_compressed e then "t" else "f")
        +:+ env_data e +:+ "}");
  envelope_from_value v :=
    match get v "__compressed" ≫= as_bool, get v "data" ≫= as_str with
    | Some b, Some s => Ok {| env_compressed := b; env_data := s |}
    | _, _ => Err "envelope"
    end;
  json_from_str := parse_value;
  gzip s := Ok s;
  gunzip s := Ok s;
  base64_encode s := s;
  base64_decode s := Ok s;
}.

Lemma append_assoc s t u : (s +:+ t) +:+ u = s +:+ t +:+ u.
Proof. induction s as [|c s IH]; [done|]. exact (f_equal (String c) IH). Qed.

Lemma s2l_append s t : s2l (s +:+ t) = s2l s ++ s2l t.
Proof. induction s as [|c s IH]; [done|]. simpl. by rewrite IH. Qed.

Lemma trim_bracketed c d s :
  (c = "[" /\ d = "]" \/ c = "{" /\ d = "}")%char ->
  trim (String c s +:+ String d EmptyString) = String c s +:+ String d EmptyString.
Proof.
  intros Hcd. apply s2l_inj. unfold trim. rewrite s2l_l2s, s2l_append. unfold trim_l, trim_end_l.
  rewrite trim_start_eq.
  assert (Hs : ws_step (s2l (String c s) ++ [d]) = None).
  { destruct Hcd as [[-> ->]|[-> ->]]; destruct s as [|? [|? ?]]; reflexivity. }
  change (s2l (String d EmptyString)) with [d]. rewrite Hs, trim_rev_eq.
  assert (Hr : ws_step_rev (reverse (s2l (String c s) ++ [d])) = None).
  { rewrite reverse_snoc. destruct Hcd as [[-> ->]|[-> ->]];
      destruct (reverse (s2l _)) as [|a [|b l]]; cbn [ws_step_rev]; try done;
      unfold ws1, ws2, ws3; cbn; rewrite ?andb_false_r; done. }
  rewrite Hr. apply reverse_involutive.
Qed.

Lemma print_ids_close l : exists s, print_ids l = s +:+ String "]" EmptyString.
Proof.
  induction l as [|a l (s & IH)]; [by exists EmptyString|]. exists (acc_id a +:+ s).
  cbn [print_ids]. by rewrite IH, append_assoc.
Qed.

Lemma parse_print_ids l :
  Forall is_letter_account l ->
  (fun v => account (unwrap_or (as_str v) EmptyString)) <$> parse_ids (print_ids l) = l.
Proof.
  induction 1 as [|a l [c ->] _ IH]; [done|]. cbn [print_ids account acc_id].
  destruct (print_ids_close l) as (s & Hs). rewrite Hs in *.
  change (String c EmptyString +:+ s +:+ String "]" EmptyString)
    with (String c (s +:+ String "]" EmptyString)).
  destruct s as [|d s]; exact (f_equal (cons _) IH).
Qed.

Lemma drop_last_close s d : drop_last (s +:+ String d EmptyString) = s.
Proof.
  induction s as [|c s IH]; [done|]. destruct s as [|e s]; [done|]. simpl in *. by rewrite IH.
Qed.

Lemma strip_mark s : strip_prefix (compressed_mark +:+ s) compressed_mark = Some s.
Proof.
  unfold strip_prefix. rewrite s2l_append, (proj2 (strip_prefix_l_spec _ _ (s2l s))) by done.
  cbn [fmap option_fmap option_map]. by rewrite l2s_s2l.
Qed.

#[export] Instance codec_laws : CodecLaws.
Proof.
  refine {| storable := is_letter_account |}.
  - intros l Hl. exists ("[" +:+ print_ids l), (Array (parse_ids (print_ids l))).
    assert (Hp : accounts_of_value (Array (parse_ids (print_ids l))) = Ok l)
      by (cbn [accounts_of_value]; by rewrite parse_print_ids).
    split_and!; try done. destruct (print_ids_close l) as (s & ->).
    by apply (trim_bracketed "[" "]" s); left.
  - intros [id [a|]] Ha; eexists; (split; [reflexivity|]); [|done].
    destruct (Ha a eq_refl) as [c ->]. done.
  - intros [b s]. eexists _, (Object [("__compressed", Bool b); ("data", Str s)]).
    split; [reflexivity|]. split_and!; try done.
    + destruct b; [apply (trim_bracketed "{" "}" (compressed_mark +:+ "t" +:+ s))
                  |apply (trim_bracketed "{" "}" (compressed_mark +:+ "f" +:+ s))]; by right.
    + cbn [json_from_str codec env_compressed env_data].
      change (parse_value ("{" +:+ ?x)) with (parse_value (String "{" x)).
      cbn [parse_value]. rewrite strip_mark.
      destruct b; exact (f_equal (fun s => Ok (Object [_; (_, Str s)])) (drop_last_close s "}")).
  - intros s. by exists s.
  - done.
Defined.

(** Three accounts in a compressed file, and a fourth one not yet saved. *)
Definition read_dir (m : gmap string string) : list string := (map_to_list m).*1.
Definition start : AccountStore * Disk := (loaded "p" [], empty_disk).
Definition all_ok : nat -> IoOutcome := fun _ => IoOk.
Definition three : AccountStore :=
  set_compression_threshold 2
    (fst (insert_account (account "c")
       (fst (insert_account (account "b") (fst (insert_account (account "a") (loaded "p" []))))))).
Definition saved : AccountStore * Disk :=
  let '(s, d, _) := save all_ok true read_dir three empty_disk in (s, d).
Definition four : AccountStore * Disk := (fst (insert_account (account "d") saved.1), saved.2).

Lemma letter_good c : is_safe_char c = true -> good (account (String c EmptyString)).
Proof. intros Hc. split; [by exists c|]. by repeat constructor. Qed.

Lemma reaches_four : rtc (sstep read_dir) start four.
Proof.
  eapply rtc_l; [apply (SInsert _ (account "a")), letter_good; reflexivity|].
  eapply rtc_l; [apply (SInsert _ (account "b")), letter_good; reflexivity|].
  eapply rtc_l; [apply (SInsert _ (account "c")), letter_good; reflexivity|].
  eapply rtc_l; [apply (SThreshold _ 2)|].
  eapply rtc_l with (y := saved).
  { unfold saved. fold three. destruct (save _ _ _ three _) as [[s d] r] eqn:E.
    by eapply SSave. }
  apply rtc_once. unfold four. destruct saved as [s d].
  apply (SInsert _ (account "d")), letter_good. reflexivity.
Qed.
End Letters.

#[local] Existing Instance Letters.codec.
#[local] Existing Instance Letters.codec_laws.

Lemma save_load_roundtrip_witness :
  let '(_, d', r) := save Letters.all_ok true Letters.read_dir Letters.four.1 Letters.four.2 in
  r = Ok tt /\ size (delta_files d') = 1
  /\ exists l, load no_errors "p" d' = Ok (loaded "p" l) /\ l ≡ₚ accounts Letters.four.1.
Proof.
  destruct (save _ _ _ _ _) as [[s' d'] r] eqn:E.
  assert (Hr : r = Ok tt /\ size (delta_files d') = 1) by (vm_compute in E; by simplify_eq).
  destruct Hr as [Hr Hd]. split; [done|]. split; [done|].
  apply (save_load_roundtrip Letters.read_dir (fun m => Permutation_refl _) "p" Letters.all_ok true
           Letters.four.1 Letters.four.2 s' d' r); [exact Letters.reaches_four|exact E|exact Hr].
Defined.

(** A save that dies before its first delta. *)
Lemma save_crash_consistent_witness :
  let '(_, d', r) :=
    save (fun i => if (i =? 0)%nat then IoOk else IoFailed false "crash") true Letters.read_dir
      Letters.four.1 Letters.four.2 in
  r = Err "crash"
  /\ exists l l', load no_errors "p" Letters.four.2 = Ok (loaded "p" l)
       /\ load no_errors "p" d' = Ok (loaded "p" l') /\ NoDup (acc_id <$> l')
       /\ forall id, account_of id l' = account_of id l
                     \/ account_of id l' = account_of id (accounts Letters.four.1).
Proof.
  destruct (save _ _ _ _ _) as [[s' d'] r] eqn:E.
  assert (Hr : r = Err "crash") by (vm_compute in E; by simplify_eq). split; [exact Hr|].
  apply (save_crash_consistent Letters.read_dir (fun m => Permutation_refl _) "p" _ true
           Letters.four.1 Letters.four.2 s' d' r Letters.reaches_four E).
Defined.
