(* ===== verification/Pool.v ===== *)
(** * The account pool

    [kproxy-pool/src/state.rs] and [kproxy-pool/src/pool.rs].  An
    [Arc<AccountState>] is a pointer into a heap of states, because the index
    of the pool, the candidates of a running acquisition and the leases of
    requests share states, and a lease outlives the removal of its account
    from the index.  The clocks and the jitter of the [rand] crate are read
    once per loop iteration and are arguments. *)

From Stdlib Require Import ZArith Lia Ascii String.
From stdpp Require Import base list gmap strings.
From S2P Require Import Prelude RustStr F64 Model Account Catalog.

Local Open Scope string_scope.
Local Open Scope list_scope.
Local Open Scope kproxy_scope.

(** ** [state.rs] *)

Inductive AccountHealth := Available | Cooling | Exhausted | Banned | Refreshing.

#[export] Instance AccountHealth_eq_dec : EqDecision AccountHealth.
Proof. solve_decision. Defined.

(** [health as u8] *)
Definition as_u8 (h : AccountHealth) : Z :=
  match h with Available => 0 | Cooling => 1 | Exhausted => 2 | Banned => 3 | Refreshing => 4 end.

Definition from_u8 (v : Z) : AccountHealth :=
  match v with
  | 1%Z => Cooling
  | 2%Z => Exhausted
  | 3%Z => Banned
  | 4%Z => Refreshing
  | _ => Available
  end.

Lemma from_u8_as_u8 h : from_u8 (as_u8 h) = h.
Proof. by destruct h. Qed.

(** Instants are nanoseconds of the monotonic clock. *)
Record AccountState := {
  st_account : Account;
  st_active : Z;
  st_health : Z;
  st_last_used_ms : Z;
  st_consecutive_errors : Z;
  st_cooling_until : option Z;
  st_quota_errors : list Z;
  st_supported_models : option (gset string);
}.

Definition AccountState_new (account : Account) : AccountState :=
  {| st_account := account; st_active := 0; st_health := as_u8 Available; st_last_used_ms := 0;
     st_consecutive_errors := 0; st_cooling_until := None; st_quota_errors := [];
     st_supported_models := None |}.

Definition st_set_account (s : AccountState) (a : Account) : AccountState :=
  {| st_account := a; st_active := st_active s; st_health := st_health s;
     st_last_used_ms := st_last_used_ms s; st_consecutive_errors := st_consecutive_errors s;
     st_cooling_until := st_cooling_until s; st_quota_errors := st_quota_errors s;
     st_supported_models := st_supported_models s |}.

Definition st_set_active (s : AccountState) (n : Z) : AccountState :=
  {| st_account := st_account s; st_active := n; st_health := st_health s;
     st_last_used_ms := st_last_used_ms s; st_consecutive_errors := st_consecutive_errors s;
     st_cooling_until := st_cooling_until s; st_quota_errors := st_quota_errors s;
     st_supported_models := st_supported_models s |}.

Definition st_set_last_used (s : AccountState) (ms : Z) : AccountState :=
  {| st_account := st_account s; st_active := st_active s; st_health := st_health s;
     st_last_used_ms := ms; st_consecutive_errors := st_consecutive_errors s;
     st_cooling_until := st_cooling_until s; st_quota_errors := st_quota_errors s;
     st_supported_models := st_supported_models s |}.

Definition st_set_errors (s : AccountState) (n : Z) : AccountState :=
  {| st_account := st_account s; st_active := st_active s; st_health := st_health s;
     st_last_used_ms := st_last_used_ms s; st_consecutive_errors := n;
     st_cooling_until := st_cooling_until s; st_quota_errors := st_quota_errors s;
     st_supported_models := st_supported_models s |}.

Definition st_set_cooling_until (s : AccountState) (until : option Z) : AccountState :=
  {| st_account := st_account s; st_active := st_active s; st_health := st_health s;
     st_last_used_ms := st_last_used_ms s; st_consecutive_errors := st_consecutive_errors s;
     st_cooling_until := until; st_quota_errors := st_quota_errors s;
     st_supported_models := st_supported_models s |}.

Definition st_set_quota_errors (s : AccountState) (l : list Z) : AccountState :=
  {| st_account := st_account s; st_active := st_active s; st_health := st_health s;
     st_last_used_ms := st_last_used_ms s; st_consecutive_errors := st_consecutive_errors s;
     st_cooling_until := st_cooling_until s; st_quota_errors := l;
     st_supported_models := st_supported_models s |}.

Definition health (s : AccountState) : AccountHealth := from_u8 (st_health s).

Definition set_health (h : AccountHealth) (s : AccountState) : AccountState :=
  {| st_account := st_account s; st_active := st_active s; st_health := as_u8 h;
     st_last_used_ms := st_last_used_ms s; st_consecutive_errors := st_consecutive_errors s;
     st_cooling_until := st_cooling_until s; st_quota_errors := st_quota_errors s;
     st_supported_models := st_supported_models s |}.

Definition restore_health_after_refresh (previous : AccountHealth) (s : AccountState) :
    AccountState :=
  let restored :=
    match previous with
    | Cooling | Exhausted => previous
    | Available | Banned | Refreshing => Available
    end in
  if (st_health s =? as_u8 Refreshing)%Z then set_health restored s else s.

(** [maximum == 0] means no bound of its own. *)
Definition effective_maximum (maximum : Z) : Z := if (maximum =? 0)%Z then USIZE_MAX else maximum.

Definition try_acquire_slot (maximum : Z) (s : AccountState) : AccountState * bool :=
  if (st_active s <? effective_maximum maximum)%Z
  then (st_set_active s (st_active s + 1), true)
  else (s, false).

Definition release_slot (s : AccountState) : AccountState :=
  st_set_active s (wrap_u64 (st_active s - 1)).

Definition mark_used_now (now_ms : Z) (s : AccountState) : AccountState :=
  st_set_last_used s now_ms.

Definition state_reset_health (s : AccountState) : AccountState :=
  let s := set_health Available s in
  let s := st_set_errors s 0 in
  let s := st_set_cooling_until s None in
  let s := st_set_quota_errors s [] in
  st_set_account s (acc_set_credit_exhausted (st_account s) false).

Definition set_supported_models (models : list string) (s : AccountState) : AccountState :=
  {| st_account := st_account s; st_active := st_active s; st_health := st_health s;
     st_last_used_ms := st_last_used_ms s; st_consecutive_errors := st_consecutive_errors s;
     st_cooling_until := st_cooling_until s; st_quota_errors := st_quota_errors s;
     st_supported_models := Some (list_to_set models) |}.

Definition has_model_cache (s : AccountState) : bool := is_some (st_supported_models s).

Definition cooling_expired (now : Z) (s : AccountState) : bool :=
  if negb (bool_decide (health s = Cooling)) then false
  else is_some_and (st_cooling_until s) (fun until => (until <=? now)%Z).

Definition NANOS_PER_MS : Z := 1000000.

(** [Instant::now() + Duration::from_millis(ms)] *)
Definition after_ms (now ms : Z) : Z := now + ms * NANOS_PER_MS.

Definition cool_for (now ms : Z) (s : AccountState) : AccountState :=
  st_set_cooling_until (set_health Cooling s) (Some (after_ms now ms)).

(** ** [pool.rs] *)

Inductive PoolError :=
| NoAvailableAccount (model : string)
| QueueFull
| QueueTimeout
| CreditsExhausted.

Record AccountPoolCounts := {
  total : Z;
  cnt_enabled : Z;
  available : Z;
  protected : Z;
  cooling : Z;
  exhausted : Z;
  banned : Z;
  refreshing : Z;
  disabled : Z;
}.

Record ScoreExplanation := {
  se_account_id : string;
  se_score : f64;
  se_active_factor : f64;
  se_credit_factor : f64;
  se_idle_factor : f64;
  se_eligible : bool;
  se_reason : string;
}.

(** What one iteration reads from outside the pool. *)
Record Tick := { t_instant : Z; t_now_ms : Z; t_jitter : f64 }.

(** The insertion-ordered index from account id to shared state. *)
Fixpoint index_get (id : string) (l : list (string * nat)) : option nat :=
  match l with
  | [] => None
  | (k, p) :: l => if bool_decide (k = id) then Some p else index_get id l
  end.

Fixpoint index_insert (id : string) (p : nat) (l : list (string * nat)) : list (string * nat) :=
  match l with
  | [] => [(id, p)]
  | (k, q) :: l => if bool_decide (k = id) then (k, p) :: l else (k, q) :: index_insert id p l
  end.

(** [tokio::sync::Notify] as the pool uses it: [notify_waiters] wakes the
    futures that exist when it is called and stores nothing for later ones. *)
Class Notify (N T : Type) := {
  notified : N -> T;
  notify_waiters : N -> N;
  woken : N -> T -> bool;
  notified_fresh : forall n, woken n (notified n) = false;
  notify_wakes : forall n, woken (notify_waiters n) (notified n) = true;
  notify_keeps : forall n t, woken n t = true -> woken (notify_waiters n) t = true;
}.

Section AccountPool.
Context {N T : Type} `{Notify N T}.

(** The iteration order of a [HashSet<String>]. *)
Context (iter : gset string -> list string).

Record AccountPool := {
  heap : gmap nat AccountState;
  next : nat;
  index : list (string * nat);
  config : PoolConfig;
  queued : Z;
  notify : N;
}.

Definition with_heap (p : AccountPool) (h : gmap nat AccountState) : AccountPool :=
  {| heap := h; next := next p; index := index p; config := config p; queued := queued p;
     notify := notify p |}.

Definition with_queued (p : AccountPool) (q : Z) : AccountPool :=
  {| heap := heap p; next := next p; index := index p; config := config p; queued := q;
     notify := notify p |}.

Definition notify_all (p : AccountPool) : AccountPool :=
  {| heap := heap p; next := next p; index := index p; config := config p; queued := queued p;
     notify := notify_waiters (notify p) |}.

Definition values (p : AccountPool) : list nat := snd <$> index p.

Definition update_state (ptr : nat) (f : AccountState -> AccountState) (p : AccountPool) :
    AccountPool :=
  with_heap p (alter f ptr (heap p)).

Definition get (p : AccountPool) (account_id : string) : option nat :=
  index_get account_id (index p).

(** An operation on the state of the account [account_id], when it exists. *)
Definition with_account (p : AccountPool) (account_id : string)
    (f : AccountState -> AccountState) : AccountPool :=
  match get p account_id with
  | Some ptr => update_state ptr f p
  | None => p
  end.

(** One iteration of [AccountPool::new]: allocate and insert. *)
Definition insert_new (next_index : gmap nat AccountState * nat * list (string * nat))
    (account : Account) : gmap nat AccountState * nat * list (string * nat) :=
  let '(h, n, l) := next_index in
  (<[n := AccountState_new account]> h, S n, index_insert (acc_id account) n l).

Definition AccountPool_new (accounts : list Account) (c : PoolConfig) (n0 : N) : AccountPool :=
  let '(h, n, l) := foldl insert_new (∅, 0, []) accounts in
  {| heap := h; next := n; index := l; config := c; queued := 0; notify := n0 |}.

Definition can_serve_subscription (a : Account) (model : string) : result bool panic :=
  if bool_decide (auth_method (credentials a) = ApiKey) then Ok true
  else static_subscription_can_serve (option_map sub_kind (subscription a)) model.

Definition resolve_model (s : AccountState) (model : string) : option string :=
  match st_supported_models s with
  | None => None
  | Some models => resolve_dynamic_model model (iter models)
  end.

Definition supported_models (s : AccountState) : list string :=
  sort_by (fun x y => match str_cmp x y with Gt => false | _ => true end)
    (unwrap_or (option_map iter (st_supported_models s)) []).

Definition serves_model (s : AccountState) (model : string) : result bool panic :=
  if is_empty model then Ok true
  else
    match st_supported_models s with
    | Some models => Ok (can_resolve_dynamic_model model (iter models))
    | None => can_serve_subscription (st_account s) model
    end.

Definition expire_cooling (now : Z) (s : AccountState) : AccountState :=
  if cooling_expired now s then set_health Available s else s.

Definition eligible (c : PoolConfig) (now : Z) (s : AccountState) (model : string) :
    AccountState * result bool panic :=
  let s := expire_cooling now s in
  (s,
   if negb (bool_decide (health s = Available)) then Ok false
   else if negb (enabled (st_account s)) then Ok false
   else if negb (bool_decide (account_credit_state (st_account s) c = CreditAvailable))
   then Ok false
   else serves_model s model).

Definition score (c : PoolConfig) (now_ms : Z) (s : AccountState) : ScoreExplanation :=
  let a := st_account s in
  let active_divisor :=
    if (max_concurrent_per_account c =? 0)%Z then F64.ten
    else F64.of_Z (max_concurrent_per_account c) in
  let active_factor := F64.min (F64.div (F64.of_Z (st_active s)) active_divisor) F64.one in
  let credit_factor :=
    unwrap_or
      (option_map
         (fun u =>
            let limit := effective_credit_limit u c in
            if F64.gtb limit F64.zero
            then F64.clamp (F64.div (current u) limit) F64.zero F64.one
            else F64.zero) (usage a))
      F64.zero in
  let idle_ms := sat_sub now_ms (st_last_used_ms s) in
  let idle_factor :=
    F64.sub F64.one
      (F64.min (F64.div (F64.of_Z idle_ms) (F64.of_Z (Z.max (idle_window_ms (balance c)) 1)))
         F64.one) in
  let total :=
    F64.add
      (F64.add (F64.mul (weight_active (balance c)) active_factor)
         (F64.mul (weight_credit (balance c)) credit_factor))
      (F64.mul (weight_idle (balance c)) idle_factor) in
  {| se_account_id := acc_id a; se_score := total; se_active_factor := active_factor;
     se_credit_factor := credit_factor; se_idle_factor := idle_factor; se_eligible := true;
     se_reason := "available" |}.

(** [prefer_ids] restricts the scope unless it is empty. *)
Definition preferred (prefer_ids : list string) (a : Account) : bool :=
  match prefer_ids with [] => true | _ => bool_decide (acc_id a ∈ prefer_ids) end.

Fixpoint candidates_loop (ticks : nat -> Tick) (c : PoolConfig) (model : string)
    (prefer_ids : list string) (k : nat) (ptrs : list nat) (h : gmap nat AccountState)
    (output : list (f64 * nat)) : gmap nat AccountState * result (list (f64 * nat)) panic :=
  match ptrs with
  | [] => (h, Ok output)
  | ptr :: ptrs =>
      match h !! ptr with
      | None => candidates_loop ticks c model prefer_ids (S k) ptrs h output
      | Some s =>
          if negb (preferred prefer_ids (st_account s))
          then candidates_loop ticks c model prefer_ids (S k) ptrs h output
          else
            let '(s', r) := eligible c (t_instant (ticks k)) s model in
            let h := <[ptr := s']> h in
            match r with
            | Err e => (h, Err e)
            | Ok false => candidates_loop ticks c model prefer_ids (S k) ptrs h output
            | Ok true =>
                let value :=
                  F64.add (se_score (score c (t_now_ms (ticks k)) s')) (t_jitter (ticks k)) in
                candidates_loop ticks c model prefer_ids (S k) ptrs h (output ++ [(value, ptr)])
            end
      end
  end.

Definition candidates (ticks : nat -> Tick) (p : AccountPool) (model : string)
    (prefer_ids : list string) : AccountPool * result (list (f64 * nat)) panic :=
  let '(h, r) := candidates_loop ticks (config p) model prefer_ids 0 (values p) (heap p) [] in
  (with_heap p h, r).

(** [partial_cmp(..).unwrap_or(Equal)], as a "not greater" test. *)
Definition score_le (x y : f64) : bool :=
  match F64.partial_cmp x y with Some Gt => false | _ => true end.

Fixpoint take_slot (maximum now_ms : Z) (cands : list (f64 * nat)) (h : gmap nat AccountState) :
    gmap nat AccountState * option nat :=
  match cands with
  | [] => (h, None)
  | (_, ptr) :: cands =>
      match h !! ptr with
      | None => take_slot maximum now_ms cands h
      | Some s =>
          let '(s', taken) := try_acquire_slot maximum s in
          if taken then (<[ptr := mark_used_now now_ms s']> h, Some ptr)
          else take_slot maximum now_ms cands h
      end
  end.

(** A lease is the pointer it holds. *)
Definition try_acquire (ticks : nat -> Tick) (now_ms : Z) (p : AccountPool) (model : string)
    (prefer_ids : list string) : AccountPool * result (option nat) panic :=
  let '(p, r) := candidates ticks p model prefer_ids in
  match r with
  | Err e => (p, Err e)
  | Ok cands =>
      let sorted := sort_by (fun x y : f64 * nat => score_le x.1 y.1) cands in
      let '(h, lease) := take_slot (max_concurrent_per_account (config p)) now_ms sorted (heap p) in
      (with_heap p h, Ok lease)
  end.

(** *** [acquire]

    The function is cut where it can be interleaved with other tasks: after
    its first attempts, at the head of its loop, and while it sleeps in
    [timeout(.., notified())]. *)

Record Waiter := {
  w_model : string;
  w_prefer_ids : list string;
  w_wait : Z;
  w_overflow : bool;
  w_deadline : Z;
}.

Inductive Acquire :=
| Done (r : result nat PoolError)
| AtLoop (w : Waiter)
| Sleeping (w : Waiter) (ticket : T).

(** [QueueGuard::enter] and its [Drop]. *)
Definition queue_enter (p : AccountPool) : AccountPool * Z :=
  (with_queued p (wrap_u64 (queued p + 1)), queued p).

Definition queue_leave (p : AccountPool) : AccountPool :=
  with_queued p (wrap_u64 (queued p - 1)).

Definition acquire_queue (now : Z) (p : AccountPool) (model : string) (prefer_ids : list string) :
    AccountPool * Acquire :=
  let c := config p in
  let '(p, queue_position) := queue_enter p in
  let queue_disabled := (max_queue_size c =? 0)%Z in
  let overflow := queue_disabled || (max_queue_size c <=? queue_position)%Z in
  if overflow && (queue_full_wait_ms c =? 0)%Z then (queue_leave p, Done (Err QueueFull))
  else
    let wait :=
      if queue_disabled then 0%Z
      else if overflow then queue_full_wait_ms c else max_queue_wait_ms c in
    (p, AtLoop {| w_model := model; w_prefer_ids := prefer_ids; w_wait := wait;
                  w_overflow := overflow; w_deadline := after_ms now wait |}).

Definition acquire_start (ticks ticks' : nat -> Tick) (now_ms now : Z) (p : AccountPool)
    (model : string) (prefer_ids : list string) : AccountPool * result Acquire panic :=
  let '(p, r) := candidates ticks p model prefer_ids in
  match r with
  | Err e => (p, Err e)
  | Ok [] => (p, Ok (Done (Err (NoAvailableAccount model))))
  | Ok _ =>
      let '(p, r) := try_acquire ticks' now_ms p model prefer_ids in
      match r with
      | Err e => (p, Err e)
      | Ok (Some lease) => (p, Ok (Done (Ok lease)))
      | Ok None => let '(p, a) := acquire_queue now p model prefer_ids in (p, Ok a)
      end
  end.

Definition acquire_loop_head (now : Z) (p : AccountPool) (w : Waiter) : AccountPool * Acquire :=
  if (w_wait w =? 0)%Z then
    (queue_leave p,
     Done (Err (if w_overflow w then QueueFull else NoAvailableAccount (w_model w))))
  else if (w_deadline w <=? now)%Z then (queue_leave p, Done (Err QueueTimeout))
  else (p, Sleeping w (notified (notify p))).

Definition acquire_timeout (p : AccountPool) : AccountPool * Acquire :=
  (queue_leave p, Done (Err QueueTimeout)).

Definition acquire_woken (ticks : nat -> Tick) (now_ms : Z) (p : AccountPool) (w : Waiter) :
    AccountPool * result Acquire panic :=
  let '(p, r) := try_acquire ticks now_ms p (w_model w) (w_prefer_ids w) in
  match r with
  | Err e => (queue_leave p, Err e)
  | Ok (Some lease) => (queue_leave p, Ok (Done (Ok lease)))
  | Ok None => (p, Ok (AtLoop w))
  end.

Definition snapshot (p : AccountPool) : list Account :=
  omap (fun ptr => option_map st_account (heap p !! ptr)) (values p).

Definition acquire_excluding (ticks ticks' : nat -> Tick) (now_ms now : Z) (p : AccountPool)
    (model : string) (excluded_ids : gset string) : AccountPool * result Acquire panic :=
  let candidate_ids :=
    acc_id <$> filter (fun a => acc_id a ∉ excluded_ids) (snapshot p) in
  match candidate_ids with
  | [] => (p, Ok (Done (Err (NoAvailableAccount model))))
  | _ => acquire_start ticks ticks' now_ms now p model candidate_ids
  end.

Definition acquire_scoped_excluding (ticks ticks' : nat -> Tick) (now_ms now : Z)
    (p : AccountPool) (model : string) (allowed_ids excluded_ids : gset string) :
    AccountPool * result Acquire panic :=
  let candidate_ids := filter (fun id => id ∉ excluded_ids) (iter allowed_ids) in
  match candidate_ids with
  | [] => (p, Ok (Done (Err (NoAvailableAccount model))))
  | _ => acquire_start ticks ticks' now_ms now p model candidate_ids
  end.

(** *** Leases *)

Definition drop_lease (now_ms : Z) (ptr : nat) (p : AccountPool) : AccountPool :=
  notify_all (update_state ptr (fun s => mark_used_now now_ms (release_slot s)) p).

(** [now_secs] is [None] when the wall clock is before the epoch. *)
Definition settle_usage (now_secs : option Z) (actual : f64) (u : Usage) : Usage :=
  let optimistic := F64.add (current u) actual in
  let positive := F64.gtb (limit u) F64.zero in
  let current' := if positive then F64.min optimistic (limit u) else optimistic in
  {| current := current'; limit := limit u; overage_cap := overage_cap u;
     percent_used :=
       if positive
       then F64.clamp (F64.mul (F64.div current' (limit u)) F64.hundred) F64.zero F64.hundred
       else F64.zero;
     next_reset_date := next_reset_date u;
     updated_at := unwrap_or now_secs (updated_at u) |}.

Definition settle_credits (now_secs : option Z) (actual : f64) (ptr : nat) (p : AccountPool) :
    AccountPool :=
  if negb (F64.is_finite actual) || F64.leb actual F64.zero then p
  else
    update_state ptr
      (fun s =>
         st_set_account s
           (acc_set_usage (st_account s)
              (option_map (settle_usage now_secs actual) (usage (st_account s))))) p.

(** *** Explanations *)

Definition health_name (h : AccountHealth) : string :=
  match h with
  | Available => "available" | Cooling => "cooling" | Exhausted => "exhausted"
  | Banned => "banned" | Refreshing => "refreshing"
  end.

Definition ineligible_reason (c : PoolConfig) (s : AccountState) : string :=
  let h := health s in
  if negb (enabled (st_account s)) then "disabled"
  else
    match h with
    | Cooling | Banned | Refreshing => health_name h
    | _ =>
        match account_credit_state (st_account s) c with
        | CreditExhausted => "exhausted"
        | CreditProtected => "low_credit"
        | CreditAvailable =>
            if negb (bool_decide (h = Available)) then health_name h else "model_unavailable"
        end
    end.

Fixpoint explain_loop (ticks : nat -> Tick) (c : PoolConfig) (model : string) (k : nat)
    (ptrs : list nat) (h : gmap nat AccountState) (output : list ScoreExplanation) :
    gmap nat AccountState * result (list ScoreExplanation) panic :=
  match ptrs with
  | [] => (h, Ok output)
  | ptr :: ptrs =>
      match h !! ptr with
      | None => explain_loop ticks c model (S k) ptrs h output
      | Some s =>
          let '(s', r) := eligible c (t_instant (ticks k)) s model in
          let h := <[ptr := s']> h in
          match r with
          | Err e => (h, Err e)
          | Ok b =>
              let explanation :=
                if b then score c (t_now_ms (ticks k)) s'
                else {| se_account_id := acc_id (st_account s'); se_score := F64.infinity;
                        se_active_factor := F64.zero; se_credit_factor := F64.zero;
                        se_idle_factor := F64.zero; se_eligible := false;
                        se_reason := ineligible_reason c s' |} in
              explain_loop ticks c model (S k) ptrs h (output ++ [explanation])
          end
      end
  end.

Definition explain (ticks : nat -> Tick) (p : AccountPool) (model : string) :
    AccountPool * result (list ScoreExplanation) panic :=
  let '(h, r) := explain_loop ticks (config p) model 0 (values p) (heap p) [] in
  (with_heap p h,
   let? explanations := r in
   Ok (sort_by (fun x y => score_le (se_score x) (se_score y)) explanations)).

(** *** Outcomes of requests *)

Definition success_state (s : AccountState) : AccountState :=
  let s := st_set_errors s 0 in
  if bool_decide (health s = Cooling) then set_health Available s else s.

Definition record_success (account_id : string) (p : AccountPool) : AccountPool :=
  with_account p account_id success_state.

Definition error_state (c : PoolConfig) (now : Z) (s : AccountState) : AccountState :=
  let count := wrap_u32 (st_consecutive_errors s + 1) in
  let s := st_set_errors s count in
  let ms :=
    if (max_error_count (cooldown c) <=? count)%Z then cooldown_ms (cooldown c)
    else error_cooldown_ms (cooldown c) in
  cool_for now ms s.

Definition record_error (now : Z) (account_id : string) (p : AccountPool) : AccountPool :=
  with_account p account_id (error_state (config p) now).

(** [while errors.front().is_some_and(..) { errors.pop_front(); }] *)
Fixpoint pop_expired (now window : Z) (errors : list Z) : list Z :=
  match errors with
  | [] => []
  | time :: rest => if (window <? sat_sub now time)%Z then pop_expired now window rest else errors
  end.

Definition quota_error_state (c : PoolConfig) (now now' : Z) (s : AccountState) : AccountState :=
  let window := (quota_error_window_ms (cooldown c) * NANOS_PER_MS)%Z in
  let errors := pop_expired now window (st_quota_errors s) ++ [now] in
  let s := st_set_quota_errors s errors in
  if (quota_error_threshold (cooldown c) <=? wrap_u32 (Z.of_nat (length errors)))%Z then
    let s := set_health Exhausted s in
    st_set_account s (acc_set_credit_exhausted (st_account s) true)
  else cool_for now' (error_cooldown_ms (cooldown c)) s.

Definition record_quota_error (now now' : Z) (account_id : string) (p : AccountPool) :
    AccountPool :=
  with_account p account_id (quota_error_state (config p) now now').

Definition mark_banned (account_id : string) (p : AccountPool) : AccountPool :=
  with_account p account_id (set_health Banned).

Definition reset_health (account_id : string) (p : AccountPool) : AccountPool * bool :=
  match get p account_id with
  | None => (p, false)
  | Some ptr => (notify_all (update_state ptr state_reset_health p), true)
  end.

(** *** Queries *)

Definition matching_account_ids (matches : Account -> bool) (p : AccountPool) : gset string :=
  list_to_set (acc_id <$> filter (fun a => matches a = true) (snapshot p)).

Definition in_scope (allowed_ids : option (gset string)) (a : Account) : bool :=
  match allowed_ids with Some allowed => bool_decide (acc_id a ∈ allowed) | None => true end.

Fixpoint all_matching_loop (c : PoolConfig) (model : string) (allowed_ids : option (gset string))
    (states : list AccountState) (matched : bool) : result bool panic :=
  match states with
  | [] => Ok matched
  | s :: states =>
      if negb (in_scope allowed_ids (st_account s)) || negb (enabled (st_account s))
      then all_matching_loop c model allowed_ids states matched
      else
        let? model_matches := serves_model s model in
        if negb model_matches then all_matching_loop c model allowed_ids states matched
        else if negb (bool_decide (health s = Exhausted))
                && bool_decide (account_credit_state (st_account s) c = CreditAvailable)
        then Ok false
        else all_matching_loop c model allowed_ids states true
  end.

Definition states (p : AccountPool) : list AccountState :=
  omap (fun ptr => heap p !! ptr) (values p).

Definition all_matching_credit_exhausted_in (p : AccountPool) (model : string)
    (allowed_ids : option (gset string)) : result bool panic :=
  all_matching_loop (config p) model allowed_ids (states p) false.

Fixpoint all_enabled_loop (c : PoolConfig) (states : list AccountState) (any : bool) : bool :=
  match states with
  | [] => any
  | s :: states =>
      if negb (enabled (st_account s)) then all_enabled_loop c states any
      else if negb (bool_decide (health s = Exhausted))
              && negb (bool_decide (account_credit_state (st_account s) c = CreditExhausted))
      then false
      else all_enabled_loop c states true
  end.

Definition all_enabled_credit_exhausted (p : AccountPool) : bool :=
  all_enabled_loop (config p) (states p) false.

Definition active (p : AccountPool) : Z := foldr (fun s n => st_active s + n)%Z 0%Z (states p).

(** *** Administration *)

Definition replace_one (old : list (string * nat))
    (acc : gmap nat AccountState * nat * list (string * nat)) (account : Account) :
    gmap nat AccountState * nat * list (string * nat) :=
  let '(h, n, l) := acc in
  let id := acc_id account in
  match index_get id old with
  | Some existing =>
      (alter (fun s => st_set_account s account) existing h, n, index_insert id existing l)
  | None => (<[n := AccountState_new account]> h, S n, index_insert id n l)
  end.

Definition replace_accounts (accounts : list Account) (p : AccountPool) : AccountPool :=
  let '(h, n, l) := foldl (replace_one (index p)) (heap p, next p, []) accounts in
  notify_all
    {| heap := h; next := n; index := l; config := config p; queued := queued p;
       notify := notify p |}.

Definition counts_zero : AccountPoolCounts :=
  {| total := 0; cnt_enabled := 0; available := 0; protected := 0; cooling := 0; exhausted := 0;
     banned := 0; refreshing := 0; disabled := 0 |}.

Definition counts_add (n : AccountPoolCounts) (t e a p c x b r d : Z) : AccountPoolCounts :=
  {| total := total n + t; cnt_enabled := cnt_enabled n + e; available := available n + a;
     protected := protected n + p; cooling := cooling n + c; exhausted := exhausted n + x;
     banned := banned n + b; refreshing := refreshing n + r; disabled := disabled n + d |}.

(** One iteration, after the scope test.  The columns are total, enabled,
    available, protected, cooling, exhausted, banned, refreshing, disabled. *)
Definition count_state (c : PoolConfig) (s : AccountState) (n : AccountPoolCounts) :
    AccountPoolCounts :=
  if negb (enabled (st_account s)) then counts_add n 1 0 0 0 0 0 0 0 1
  else
    match account_credit_state (st_account s) c with
    | CreditProtected => counts_add n 1 1 0 1 0 0 0 0 0
    | CreditExhausted => counts_add n 1 1 0 0 0 1 0 0 0
    | CreditAvailable =>
        match health s with
        | Available => counts_add n 1 1 1 0 0 0 0 0 0
        | Cooling => counts_add n 1 1 0 0 1 0 0 0 0
        | Exhausted => counts_add n 1 1 0 0 0 1 0 0 0
        | Banned => counts_add n 1 1 0 0 0 0 1 0 0
        | Refreshing => counts_add n 1 1 0 0 0 0 0 1 0
        end
    end.

Fixpoint counts_loop (nows : nat -> Z) (c : PoolConfig) (allowed_ids : option (gset string))
    (k : nat) (ptrs : list nat) (h : gmap nat AccountState) (n : AccountPoolCounts) :
    gmap nat AccountState * AccountPoolCounts :=
  match ptrs with
  | [] => (h, n)
  | ptr :: ptrs =>
      match h !! ptr with
      | None => counts_loop nows c allowed_ids (S k) ptrs h n
      | Some s =>
          let s := expire_cooling (nows k) s in
          let h := <[ptr := s]> h in
          if negb (in_scope allowed_ids (st_account s))
          then counts_loop nows c allowed_ids (S k) ptrs h n
          else counts_loop nows c allowed_ids (S k) ptrs h (count_state c s n)
      end
  end.

Definition scheduling_counts_in (nows : nat -> Z) (p : AccountPool)
    (allowed_ids : option (gset string)) : AccountPool * AccountPoolCounts :=
  let '(h, n) := counts_loop nows (config p) allowed_ids 0 (values p) (heap p) counts_zero in
  (with_heap p h, n).

Definition reset_daily_credits (p : AccountPool) : AccountPool := notify_all p.

Definition update_config (c : PoolConfig) (p : AccountPool) : AccountPool :=
  notify_all
    {| heap := heap p; next := next p; index := index p; config := c; queued := queued p;
       notify := notify p |}.
End AccountPool.

Arguments AccountPool : clear implicits.
