(* ===== verification/PoolSlots.v ===== *)
(** * Slots, leases and the queue of the account pool

    Two relations on the pool and what its callers hold: [astep], whose steps
    are single atomic actions on shared state, so that its runs contain every
    interleaving of concurrent callers, and [pstep], whose steps are whole
    calls of the operations.  The invariant is proved by rule induction on
    [astep]; every [pstep] is a run of [astep]. *)

From Stdlib Require Import ZArith Lia Ascii String Relation_Operators.
From stdpp Require Import base list gmap gmultiset strings relations.
From S2P Require Import Prelude RustStr F64 Model Account Catalog Pool.

Local Open Scope string_scope.
Local Open Scope list_scope.

Section Slots.
Context {N T : Type} `{Notify N T}.
Context (iter : gset string -> list string).

(** The pool, the leases held, the acquisitions in flight, and the largest
    bound on concurrency that was ever configured. *)
Record World := {
  pool : AccountPool N;
  leases : gmultiset nat;
  tasks : list (Acquire (T := T));
  peak : Z;
}.

Definition slot_bound (p : AccountPool N) : Z :=
  effective_maximum (max_concurrent_per_account (config p)).

Definition index_ok (h : gmap nat AccountState) (l : list (string * nat)) : Prop :=
  NoDup l.*1
  /\ Forall (fun e => exists s, h !! e.2 = Some s /\ acc_id (st_account s) = e.1) l.

(** The bound is a [usize]. *)
Definition in_usize (c : PoolConfig) : Prop :=
  (0 <= max_concurrent_per_account c <= USIZE_MAX)%Z.

(** The configuration is read once, before the loop over the candidates, so that a
    slot may be taken under a maximum of before. *)
Definition read_maximum (p : AccountPool N) (k maximum : Z) : Prop :=
  maximum = max_concurrent_per_account (config p) \/ (effective_maximum maximum <= k)%Z.

(** Atomic actions. *)
Inductive astep : World -> World -> Prop :=
| A_slot p L K k ptr s s' maximum :
    heap p !! ptr = Some s -> read_maximum p k maximum ->
    try_acquire_slot maximum s = (s', true) ->
    astep {| pool := p; leases := L; tasks := K; peak := k |}
          {| pool := with_heap p (<[ptr := s']> (heap p)); leases := {[+ ptr +]} ⊎ L;
             tasks := K; peak := k |}
| A_release p L K k ptr :
    astep {| pool := p; leases := {[+ ptr +]} ⊎ L; tasks := K; peak := k |}
          {| pool := update_state ptr release_slot p; leases := L; tasks := K; peak := k |}
| A_state p L K k ptr s s' :
    heap p !! ptr = Some s -> st_active s' = st_active s ->
    acc_id (st_account s') = acc_id (st_account s) ->
    astep {| pool := p; leases := L; tasks := K; peak := k |}
          {| pool := with_heap p (<[ptr := s']> (heap p)); leases := L; tasks := K; peak := k |}
| A_alloc h n l c q nt L K k account :
    astep {| pool := {| heap := h; next := n; index := l; config := c; queued := q; notify := nt |};
             leases := L; tasks := K; peak := k |}
          {| pool := {| heap := <[n := AccountState_new account]> h; next := S n; index := l;
                        config := c; queued := q; notify := nt |};
             leases := L; tasks := K; peak := k |}
| A_index h n l l' c q nt L K k :
    index_ok h l' ->
    astep {| pool := {| heap := h; next := n; index := l; config := c; queued := q; notify := nt |};
             leases := L; tasks := K; peak := k |}
          {| pool := {| heap := h; next := n; index := l'; config := c; queued := q; notify := nt |};
             leases := L; tasks := K; peak := k |}
| A_config h n l c c' q nt L K k :
    in_usize c' ->
    astep {| pool := {| heap := h; next := n; index := l; config := c; queued := q; notify := nt |};
             leases := L; tasks := K; peak := k |}
          {| pool := {| heap := h; next := n; index := l; config := c'; queued := q; notify := nt |};
             leases := L; tasks := K;
             peak := Z.max k (effective_maximum (max_concurrent_per_account c')) |}
| A_notify p L K k :
    astep {| pool := p; leases := L; tasks := K; peak := k |}
          {| pool := notify_all p; leases := L; tasks := K; peak := k |}
| A_enter p L K k a :
    astep {| pool := p; leases := L; tasks := K; peak := k |}
          {| pool := fst (queue_enter p); leases := L; tasks := a :: K; peak := k |}
| A_leave p L K k K1 K2 a :
    K = K1 ++ a :: K2 ->
    astep {| pool := p; leases := L; tasks := K; peak := k |}
          {| pool := queue_leave p; leases := L; tasks := K1 ++ K2; peak := k |}
| A_phase p L K k K1 K2 a a' :
    K = K1 ++ a :: K2 ->
    astep {| pool := p; leases := L; tasks := K; peak := k |}
          {| pool := p; leases := L; tasks := K1 ++ a' :: K2; peak := k |}.

(** ** The invariant *)

Record slots_ok (w : World) : Prop := {
  ok_active : forall ptr s, heap (pool w) !! ptr = Some s ->
    st_active s = Z.of_nat (multiplicity ptr (leases w));
  ok_peak : forall ptr s, heap (pool w) !! ptr = Some s -> (st_active s <= peak w)%Z;
  ok_leases : forall ptr, ptr ∈ leases w -> is_Some (heap (pool w) !! ptr);
  ok_bound : (0 <= slot_bound (pool w) <= peak w)%Z /\ (peak w <= USIZE_MAX)%Z;
  ok_queued : queued (pool w) = wrap_u64 (Z.of_nat (length (tasks w)));
  ok_index : index_ok (heap (pool w)) (index (pool w));
  ok_next : forall ptr, next (pool w) <= ptr -> heap (pool w) !! ptr = None;
}.

Lemma index_ok_insert h l ptr s s' :
  h !! ptr = Some s -> acc_id (st_account s') = acc_id (st_account s) ->
  index_ok h l -> index_ok (<[ptr := s']> h) l.
Proof.
  intros Hs Hid [Hnd Hall]. split; [done|]. eapply Forall_impl; [exact Hall|].
  intros [id q] (t & Ht & Hq). simpl in *. destruct (decide (q = ptr)) as [->|Hne].
  - exists s'. rewrite lookup_insert_eq. simplify_eq. by rewrite Hid.
  - exists t. by rewrite lookup_insert_ne.
Qed.

Lemma index_ok_fresh h l n s : h !! n = None -> index_ok h l -> index_ok (<[n := s]> h) l.
Proof.
  intros Hn [Hnd Hall]. split; [done|]. eapply Forall_impl; [exact Hall|].
  intros [id q] (t & Ht & Hq). exists t. rewrite lookup_insert_ne; [done|congruence].
Qed.

Lemma wrap_u64_add z d : wrap_u64 (wrap_u64 z + d) = wrap_u64 (z + d).
Proof. unfold wrap_u64. rewrite Zplus_mod_idemp_l. done. Qed.

Lemma try_acquire_slot_true maximum s s' :
  try_acquire_slot maximum s = (s', true) ->
  s' = st_set_active s (st_active s + 1) /\ (st_active s + 1 <= effective_maximum maximum)%Z.
Proof. unfold try_acquire_slot. destruct (_ <? _)%Z eqn:E; intros; simplify_eq.
  bool_simpl. split; [done|lia]. Qed.

Lemma slots_ok_slot p L K k ptr s :
  heap p !! ptr = Some s -> (st_active s + 1 <= k)%Z ->
  slots_ok {| pool := p; leases := L; tasks := K; peak := k |} ->
  slots_ok {| pool := with_heap p (<[ptr := st_set_active s (st_active s + 1)]> (heap p));
              leases := {[+ ptr +]} ⊎ L; tasks := K; peak := k |}.
Proof.
  intros Hs Hmax [Ha Hp Hl Hb Hq Hi Hn]. simpl in *. constructor; simpl; try done.
  - intros q t. rewrite lookup_insert_Some, multiplicity_disj_union.
    intros [[<- <-]|[Hne Ht]].
    + rewrite multiplicity_singleton_eq. simpl. rewrite (Ha _ _ Hs). lia.
    + rewrite multiplicity_singleton_ne by done. by rewrite (Ha _ _ Ht).
  - intros q t. rewrite lookup_insert_Some. intros [[<- <-]|[Hne Ht]]; [|eauto]. simpl. lia.
  - intros q Hin. rewrite lookup_insert_is_Some'. multiset_solver.
  - by eapply index_ok_insert.
  - intros q Hle. rewrite lookup_insert_ne; [auto|]. intros ->. rewrite Hn in Hs; done.
Qed.

Lemma slots_ok_release p L K k ptr :
  slots_ok {| pool := p; leases := {[+ ptr +]} ⊎ L; tasks := K; peak := k |} ->
  slots_ok {| pool := update_state ptr release_slot p; leases := L; tasks := K; peak := k |}.
Proof.
  intros [Ha Hp Hl Hb Hq Hi Hn]. simpl in *.
  destruct (Hl ptr) as [s Hs]; [multiset_solver|].
  assert (Hact := Ha _ _ Hs). rewrite multiplicity_disj_union, multiplicity_singleton_eq in Hact.
  assert (Hpk := Hp _ _ Hs).
  assert (Hrel : st_active (release_slot s) = (st_active s - 1)%Z).
  { simpl. apply wrap_u64_small. unfold USIZE_MAX in Hb. lia. }
  assert (Heq : alter release_slot ptr (heap p) = <[ptr := release_slot s]> (heap p)).
  { apply map_eq. intros q. destruct (decide (q = ptr)) as [->|Hne].
    - by rewrite lookup_alter_eq, lookup_insert_eq, Hs.
    - by rewrite lookup_alter_ne, lookup_insert_ne. }
  constructor; simpl; rewrite ?Heq; try done.
  - intros q t. rewrite lookup_insert_Some. intros [[<- <-]|[Hne Ht]].
    + rewrite Hrel. lia.
    + rewrite (Ha _ _ Ht), multiplicity_disj_union, multiplicity_singleton_ne by done. lia.
  - intros q t. rewrite lookup_insert_Some. intros [[<- <-]|[Hne Ht]]; [lia|eauto].
  - intros q Hin. rewrite lookup_insert_is_Some'. right. apply Hl. multiset_solver.
  - by eapply index_ok_insert.
  - intros q Hle. rewrite lookup_insert_ne; [auto|]. intros ->. rewrite Hn in Hs; done.
Qed.

Lemma slots_ok_state p L K k ptr s s' :
  heap p !! ptr = Some s -> st_active s' = st_active s ->
  acc_id (st_account s') = acc_id (st_account s) ->
  slots_ok {| pool := p; leases := L; tasks := K; peak := k |} ->
  slots_ok {| pool := with_heap p (<[ptr := s']> (heap p)); leases := L; tasks := K; peak := k |}.
Proof.
  intros Hs Hact Hid [Ha Hp Hl Hb Hq Hi Hn]. simpl in *. constructor; simpl; try done.
  - intros q t. rewrite lookup_insert_Some. intros [[<- <-]|[Hne Ht]]; [|eauto].
    rewrite Hact. eauto.
  - intros q t. rewrite lookup_insert_Some. intros [[<- <-]|[Hne Ht]]; [|eauto].
    rewrite Hact. eauto.
  - intros q Hin. rewrite lookup_insert_is_Some'. auto.
  - by eapply index_ok_insert.
  - intros q Hle. rewrite lookup_insert_ne; [auto|]. intros ->. rewrite Hn in Hs; done.
Qed.

Lemma effective_maximum_bounds c : in_usize c ->
  (0 <= effective_maximum (max_concurrent_per_account c) <= USIZE_MAX)%Z.
Proof. unfold in_usize, effective_maximum, USIZE_MAX, U64_MAX. case_match; lia. Qed.

Lemma astep_slots_ok w w' : astep w w' -> slots_ok w -> slots_ok w'.
Proof.
  intros Hstep Hok.
  destruct Hstep as [p L K k ptr s s' maximum Hs Hread Ht|p L K k ptr|p L K k ptr s s' Hs Hact Hid
    |h n l c q nt L K k account|h n l l' c q nt L K k Hl'|h n l c c' q nt L K k Hc
    |p L K k|p L K k a|p L K k K1 K2 a ->|p L K k K1 K2 a a' ->].
  - apply try_acquire_slot_true in Ht as [-> Hmax]. eapply slots_ok_slot; [done| |done].
    pose proof (ok_bound _ Hok) as [[_ Hb] _]. unfold slot_bound in Hb. cbn [pool peak] in Hb.
    destruct Hread as [->|]; lia.
  - by apply slots_ok_release.
  - by eapply slots_ok_state.
  - destruct Hok as [Ha Hp Hl Hb Hq Hi Hn]. simpl in *.
    assert (Hfresh : h !! n = None) by (apply Hn; lia).
    assert (Hzero : multiplicity n L = 0).
    { destruct (decide (n ∈ L)) as [Hin|Hin]; [|by apply not_elem_of_multiplicity].
      destruct (Hl _ Hin). congruence. }
    constructor; simpl; try done.
    + intros ptr s. rewrite lookup_insert_Some. intros [[<- <-]|[Hne Hs]]; [|eauto].
      by rewrite Hzero.
    + intros ptr s. rewrite lookup_insert_Some. intros [[<- <-]|[Hne Hs]]; [|eauto].
      simpl. lia.
    + intros ptr Hin. rewrite lookup_insert_is_Some'. auto.
    + by apply index_ok_fresh.
    + intros ptr Hle. rewrite lookup_insert_ne by lia. apply Hn. lia.
  - destruct Hok. constructor; done.
  - destruct Hok as [Ha Hp Hl Hb Hq Hi Hn]. simpl in *.
    pose proof (effective_maximum_bounds c' Hc). constructor; simpl; try done.
    + intros ptr s Hs. specialize (Hp _ _ Hs). lia.
    + unfold slot_bound. simpl. lia.
  - destruct Hok. constructor; done.
  - destruct Hok as [Ha Hp Hl Hb Hq Hi Hn]. simpl in *. constructor; simpl; try done.
    rewrite Hq, wrap_u64_add. f_equal. lia.
  - destruct Hok as [Ha Hp Hl Hb Hq Hi Hn]. simpl in *. constructor; simpl; try done.
    rewrite Hq. rewrite <- Z.add_opp_r, wrap_u64_add. f_equal. rewrite !length_app. simpl. lia.
  - destruct Hok as [Ha Hp Hl Hb Hq Hi Hn]. simpl in *. constructor; simpl; try done.
    rewrite Hq. rewrite !length_app. done.
Qed.

(** ** Calls *)

Abbreviation W p L K k := {| pool := p; leases := L; tasks := K; peak := k |}.

(** What a finished or suspended acquisition leaves with its caller. *)
Definition kept_leases (a : result (Acquire (T := T)) panic) (L : gmultiset nat) : gmultiset nat :=
  match a with Ok (Done (Ok ptr)) => {[+ ptr +]} ⊎ L | _ => L end.

Definition kept_tasks (a : result (Acquire (T := T)) panic) : list (Acquire (T := T)) :=
  match a with Ok (Done _) | Err _ => [] | Ok a => [a] end.

(** A whole call of one operation, on behalf of some caller. *)
Inductive pstep : World -> World -> Prop :=
| P_acquire p L K k ticks ticks' now_ms now model prefer_ids p' a :
    acquire_start iter ticks ticks' now_ms now p model prefer_ids = (p', a) ->
    pstep (W p L K k) (W p' (kept_leases a L) (kept_tasks a ++ K) k)
| P_acquire_excluding p L K k ticks ticks' now_ms now model excluded p' a :
    acquire_excluding iter ticks ticks' now_ms now p model excluded = (p', a) ->
    pstep (W p L K k) (W p' (kept_leases a L) (kept_tasks a ++ K) k)
| P_acquire_scoped p L K k ticks ticks' now_ms now model allowed excluded p' a :
    acquire_scoped_excluding iter ticks ticks' now_ms now p model allowed excluded = (p', a) ->
    pstep (W p L K k) (W p' (kept_leases a L) (kept_tasks a ++ K) k)
| P_loop p L K1 K2 k now w p' a :
    acquire_loop_head now p w = (p', a) ->
    pstep (W p L (K1 ++ AtLoop w :: K2) k)
          (W p' (kept_leases (Ok a) L) (K1 ++ kept_tasks (Ok a) ++ K2) k)
| P_woken p L K1 K2 k ticks now_ms w ticket p' a :
    woken (notify p) ticket = true ->
    acquire_woken iter ticks now_ms p w = (p', a) ->
    pstep (W p L (K1 ++ Sleeping w ticket :: K2) k)
          (W p' (kept_leases a L) (K1 ++ kept_tasks a ++ K2) k)
| P_timeout p L K1 K2 k w ticket p' a :
    acquire_timeout p = (p', a) ->
    pstep (W p L (K1 ++ Sleeping w ticket :: K2) k)
          (W p' (kept_leases (Ok a) L) (K1 ++ kept_tasks (Ok a) ++ K2) k)
| P_cancel p L K1 K2 k a :
    pstep (W p L (K1 ++ a :: K2) k) (W (queue_leave p) L (K1 ++ K2) k)
| P_drop p L K k now_ms ptr :
    pstep (W p ({[+ ptr +]} ⊎ L) K k) (W (drop_lease now_ms ptr p) L K k)
| P_settle p L K k now_secs actual ptr :
    pstep (W p L K k) (W (settle_credits now_secs actual ptr p) L K k)
| P_success p L K k id : pstep (W p L K k) (W (record_success id p) L K k)
| P_error p L K k now id : pstep (W p L K k) (W (record_error now id p) L K k)
| P_quota p L K k now now' id : pstep (W p L K k) (W (record_quota_error now now' id p) L K k)
| P_banned p L K k id : pstep (W p L K k) (W (mark_banned id p) L K k)
| P_reset p L K k id p' b :
    reset_health id p = (p', b) -> pstep (W p L K k) (W p' L K k)
| P_models p L K k ptr models :
    pstep (W p L K k) (W (update_state ptr (set_supported_models models) p) L K k)
| P_health p L K k ptr h : pstep (W p L K k) (W (update_state ptr (set_health h) p) L K k)
| P_restore p L K k ptr h :
    pstep (W p L K k) (W (update_state ptr (restore_health_after_refresh h) p) L K k)
| P_counts p L K k nows allowed p' n :
    scheduling_counts_in nows p allowed = (p', n) -> pstep (W p L K k) (W p' L K k)
| P_explain p L K k ticks model p' r :
    explain iter ticks p model = (p', r) -> pstep (W p L K k) (W p' L K k)
| P_replace p L K k accounts :
    pstep (W p L K k) (W (replace_accounts accounts p) L K k)
| P_config p L K k c :
    in_usize c ->
    pstep (W p L K k)
          (W (update_config c p) L K (Z.max k (effective_maximum (max_concurrent_per_account c))))
| P_daily p L K k : pstep (W p L K k) (W (reset_daily_credits p) L K k).

(** ** Calls are runs of atomic actions *)

Definition keeps_slot (f : AccountState -> AccountState) : Prop :=
  forall s, st_active (f s) = st_active s /\ acc_id (st_account (f s)) = acc_id (st_account s).

Lemma with_heap_same (p : AccountPool N) : with_heap p (heap p) = p.
Proof. by destruct p. Qed.

Lemma update_state_Some p ptr f s :
  heap p !! ptr = Some s ->
  update_state ptr f p = with_heap p (<[ptr := f s]> (heap p)) :> AccountPool N.
Proof.
  intros Hs. unfold update_state. f_equal. apply map_eq. intros q.
  destruct (decide (q = ptr)) as [->|Hne].
  - by rewrite lookup_alter_eq, lookup_insert_eq, Hs.
  - by rewrite lookup_alter_ne, lookup_insert_ne.
Qed.

Lemma update_state_None p ptr f : heap p !! ptr = None -> update_state ptr f p = p :> AccountPool N.
Proof.
  intros Hs. transitivity (with_heap p (heap p)); [|apply with_heap_same].
  unfold update_state. f_equal. apply map_eq. intros q. destruct (decide (q = ptr)) as [->|Hne].
  - by rewrite lookup_alter_eq, Hs.
  - by rewrite lookup_alter_ne.
Qed.

Lemma run_state p L K k ptr f :
  keeps_slot f -> rtc astep (W p L K k) (W (update_state ptr f p) L K k).
Proof.
  intros Hf. destruct (heap p !! ptr) as [s|] eqn:Hs.
  - rewrite (update_state_Some _ _ _ _ Hs). apply rtc_once. by eapply A_state; [|apply Hf..].
  - rewrite update_state_None by done. constructor.
Qed.

Lemma run_account p L K k id f :
  keeps_slot f -> rtc astep (W p L K k) (W (with_account p id f) L K k).
Proof.
  intros Hf. unfold with_account. destruct (get p id); [by apply run_state|constructor].
Qed.

Lemma run_insert p h L K k ptr s s' :
  h !! ptr = Some s -> st_active s' = st_active s ->
  acc_id (st_account s') = acc_id (st_account s) ->
  rtc astep (W (with_heap p h) L K k) (W (with_heap p (<[ptr := s']> h)) L K k).
Proof. intros. apply rtc_once. by eapply (A_state (with_heap p h)). Qed.

Lemma keeps_slot_id f g : keeps_slot f -> keeps_slot g -> keeps_slot (fun s => g (f s)).
Proof. intros Hf Hg s. destruct (Hf s) as [<- <-]. apply Hg. Qed.

Lemma keeps_set_health h : keeps_slot (set_health h).
Proof. done. Qed.

Lemma keeps_expire_cooling now : keeps_slot (expire_cooling now).
Proof. intros s. unfold expire_cooling. by destruct (cooling_expired now s). Qed.

Lemma keeps_success : keeps_slot success_state.
Proof. intros s. unfold success_state. by case_match. Qed.

Lemma keeps_quota_error c now now' : keeps_slot (quota_error_state c now now').
Proof. intros s. unfold quota_error_state. by case_match. Qed.

Lemma keeps_restore h : keeps_slot (restore_health_after_refresh h).
Proof. intros s. unfold restore_health_after_refresh. by case_match. Qed.

Lemma run_candidates_loop p L K k ticks c model prefer i ptrs h output h' r :
  candidates_loop iter ticks c model prefer i ptrs h output = (h', r) ->
  rtc astep (W (with_heap p h) L K k) (W (with_heap p h') L K k).
Proof.
  revert i h output. induction ptrs as [|ptr ptrs IH]; intros i h output; cbn [candidates_loop].
  { intros; simplify_eq. constructor. }
  destruct (h !! ptr) as [s|] eqn:Hs; [|apply IH].
  destruct (negb _); [apply IH|]. unfold eligible.
  destruct (keeps_expire_cooling (t_instant (ticks i)) s) as [Hact Hid].
  intros Hrun. etransitivity; [by eapply run_insert|].
  repeat (case_match; simplify_eq; try by eapply IH). constructor.
Qed.

Lemma run_candidates p L K k ticks model prefer p' r :
  candidates iter ticks p model prefer = (p', r) -> rtc astep (W p L K k) (W p' L K k).
Proof.
  unfold candidates. destruct (candidates_loop _ _ _ _ _ _ _ _ _) as [h r'] eqn:E. intros; simplify_eq.
  rewrite <- (with_heap_same p) at 1. by eapply run_candidates_loop.
Qed.

Lemma run_take_slot p L K k now_ms cands h h' lease :
  take_slot (max_concurrent_per_account (config p)) now_ms cands h = (h', lease) ->
  rtc astep (W (with_heap p h) L K k)
    (W (with_heap p h') (kept_leases (match lease with Some ptr => Ok (Done (Ok ptr)) | None => Err Panicked end) L) K k).
Proof.
  revert h. induction cands as [|[v ptr] cands IH]; intros h; cbn [take_slot].
  { intros; simplify_eq. constructor. }
  destruct (h !! ptr) as [s|] eqn:Hs; [|apply IH].
  destruct (try_acquire_slot _ s) as [s' []] eqn:Et; [|apply IH].
  intros; simplify_eq. etransitivity.
  { apply rtc_once. eapply (A_slot (with_heap p h)); [done|by left|done]. }
  rewrite <- (insert_insert_eq h ptr (mark_used_now now_ms s') s').
  eapply (run_insert p (<[ptr := s']> h)); [apply lookup_insert_eq|done..].
Qed.

Lemma run_try_acquire p L K k ticks now_ms model prefer p' r :
  try_acquire iter ticks now_ms p model prefer = (p', r) ->
  rtc astep (W p L K k)
    (W p' (kept_leases (match r with Ok (Some ptr) => Ok (Done (Ok ptr)) | _ => Err Panicked end) L) K k).
Proof.
  unfold try_acquire. destruct (candidates _ _ _ _ _) as [p1 [cands|e]] eqn:Ec.
  - destruct (take_slot _ _ _ _) as [h lease] eqn:Et. intros; simplify_eq.
    etransitivity; [by eapply run_candidates|].
    rewrite <- (with_heap_same p1) at 1. apply (run_take_slot _ L K k) in Et.
    etransitivity; [exact Et|]. destruct lease; constructor.
  - intros; simplify_eq. by eapply run_candidates.
Qed.

Lemma run_queue p L K k now model prefer p' a :
  acquire_queue now p model prefer = (p', a) ->
  rtc astep (W p L K k) (W p' (kept_leases (Ok a) L) (kept_tasks (Ok a) ++ K) k).
Proof.
  unfold acquire_queue. destruct (queue_enter p) as [p1 pos] eqn:Eq.
  assert (p1 = fst (queue_enter p)) as -> by (by rewrite Eq).
  case_match; intros; simplify_eq; simpl.
  - etransitivity; [apply rtc_once, (A_enter p L K k (Done (Err QueueFull)))|].
    apply rtc_once. by apply (A_leave _ _ _ _ [] K (Done (Err QueueFull))).
  - apply rtc_once, A_enter.
Qed.

Lemma run_start p L K k ticks ticks' now_ms now model prefer p' a :
  acquire_start iter ticks ticks' now_ms now p model prefer = (p', a) ->
  rtc astep (W p L K k) (W p' (kept_leases a L) (kept_tasks a ++ K) k).
Proof.
  unfold acquire_start. destruct (candidates _ _ _ _ _) as [p1 [cands|e]] eqn:Ec;
    [|intros; simplify_eq; by eapply run_candidates].
  intros Hrun. etransitivity; [by eapply run_candidates|]. clear Ec.
  destruct cands as [|c cands]; [simplify_eq; constructor|].
  destruct (try_acquire _ _ _ _ _ _) as [p2 r] eqn:Et. apply (run_try_acquire _ L K k) in Et.
  destruct r as [[ptr|]|e]; simplify_eq; try done.
  destruct (acquire_queue _ _ _ _) as [p3 a'] eqn:Eq. simplify_eq.
  etransitivity; [exact Et|]. by eapply run_queue.
Qed.

Lemma run_leave_phase p L K1 K2 k a a' :
  rtc astep (W p L (K1 ++ a :: K2) k)
    (W (match a' with [] => queue_leave p | _ => p end) L
       (K1 ++ match a' with [] => [] | b :: _ => [b] end ++ K2) k).
Proof.
  destruct a' as [|b l]; simpl; apply rtc_once; [by eapply A_leave|by eapply A_phase].
Qed.

Lemma run_woken p L K1 K2 k ticks now_ms w ticket p' a :
  acquire_woken iter ticks now_ms p w = (p', a) ->
  rtc astep (W p L (K1 ++ Sleeping w ticket :: K2) k)
    (W p' (kept_leases a L) (K1 ++ kept_tasks a ++ K2) k).
Proof.
  unfold acquire_woken. destruct (try_acquire _ _ _ _ _ _) as [p1 r] eqn:Et.
  apply (run_try_acquire _ L (K1 ++ Sleeping w ticket :: K2) k) in Et.
  intros Ha. etransitivity; [exact Et|].
  destruct r as [[ptr|]|e]; simplify_eq; simpl.
  - apply (run_leave_phase _ _ K1 K2 k _ []).
  - apply (run_leave_phase _ _ K1 K2 k _ [AtLoop w]).
  - apply (run_leave_phase _ _ K1 K2 k _ []).
Qed.

Lemma run_loop_head p L K1 K2 k now w p' a :
  acquire_loop_head now p w = (p', a) ->
  rtc astep (W p L (K1 ++ AtLoop w :: K2) k)
    (W p' (kept_leases (Ok a) L) (K1 ++ kept_tasks (Ok a) ++ K2) k).
Proof.
  unfold acquire_loop_head. repeat case_match; intros; simplify_eq; simpl;
    try apply (run_leave_phase _ _ K1 K2 k _ []); apply (run_leave_phase _ _ K1 K2 k _ [_]).
Qed.

Lemma run_counts_loop p L K k nows c allowed i ptrs h n h' n' :
  counts_loop nows c allowed i ptrs h n = (h', n') ->
  rtc astep (W (with_heap p h) L K k) (W (with_heap p h') L K k).
Proof.
  revert i h n. induction ptrs as [|ptr ptrs IH]; intros i h n; cbn [counts_loop].
  { intros; simplify_eq. constructor. }
  destruct (h !! ptr) as [s|] eqn:Hs; [|apply IH].
  destruct (keeps_expire_cooling (nows i) s) as [Hact Hid].
  intros Hrun. etransitivity; [by eapply run_insert|]. case_match; by eapply IH.
Qed.

Lemma run_explain_loop p L K k ticks c model i ptrs h output h' r :
  explain_loop iter ticks c model i ptrs h output = (h', r) ->
  rtc astep (W (with_heap p h) L K k) (W (with_heap p h') L K k).
Proof.
  revert i h output. induction ptrs as [|ptr ptrs IH]; intros i h output; cbn [explain_loop].
  { intros; simplify_eq. constructor. }
  destruct (h !! ptr) as [s|] eqn:Hs; [|apply IH]. unfold eligible.
  destruct (keeps_expire_cooling (t_instant (ticks i)) s) as [Hact Hid].
  intros Hrun. etransitivity; [by eapply run_insert|].
  repeat (case_match; simplify_eq; try by eapply IH). constructor.
Qed.

Lemma run_drop p L K k now_ms ptr :
  rtc astep (W p ({[+ ptr +]} ⊎ L) K k) (W (drop_lease now_ms ptr p) L K k).
Proof.
  unfold drop_lease. etransitivity; [apply rtc_once, A_release|].
  etransitivity; [|apply rtc_once, A_notify].
  etransitivity; [by apply (run_state _ _ _ _ ptr (mark_used_now now_ms))|].
  unfold update_state. simpl. rewrite alter_alter_eq. constructor.
Qed.

Lemma index_insert_keys id ptr l :
  (index_insert id ptr l).*1 = if bool_decide (id ∈ l.*1) then l.*1 else l.*1 ++ [id].
Proof.
  induction l as [|[k q] l IH]; [done|]. cbn [index_insert].
  destruct (decide (k = id)) as [->|Hne].
  - rewrite bool_decide_true by done. rewrite bool_decide_true by (simpl; set_solver). done.
  - rewrite bool_decide_false by done. rewrite !fmap_cons, IH. simpl.
    destruct (decide (id ∈ l.*1)).
    + rewrite !bool_decide_true by set_solver. done.
    + rewrite !bool_decide_false by set_solver. done.
Qed.

Lemma index_insert_elem id ptr l e : e ∈ index_insert id ptr l -> e = (id, ptr) \/ e ∈ l.
Proof.
  induction l as [|[k q] l IH]; cbn [index_insert]; [set_solver|].
  case_bool_decide; subst; set_solver.
Qed.

Lemma index_ok_index_insert h l id ptr s :
  h !! ptr = Some s -> acc_id (st_account s) = id -> index_ok h l ->
  index_ok h (index_insert id ptr l).
Proof.
  intros Hs Hid [Hnd Hall]. split.
  - rewrite index_insert_keys. case_bool_decide; [done|].
    apply NoDup_app. split_and!; [done|set_solver|apply NoDup_singleton].
  - rewrite Forall_forall in Hall |- *. intros e [->|He]%index_insert_elem; eauto.
Qed.

Lemma index_get_elem id l ptr : index_get id l = Some ptr -> (id, ptr) ∈ l.
Proof.
  induction l as [|[k q] l IH]; cbn [index_get]; [done|].
  case_bool_decide; intros; simplify_eq; set_solver.
Qed.

(** The loop of [replace_accounts], which [AccountPool::new] is an instance of. *)
Lemma run_replace_fold old accounts h n l0 c q nt L K k l :
  index_ok h old -> index_ok h l -> (forall ptr, n <= ptr -> h !! ptr = None) ->
  let '(h', n', l') := foldl (replace_one old) (h, n, l) accounts in
  rtc astep
    (W {| heap := h; next := n; index := l0; config := c; queued := q; notify := nt |} L K k)
    (W {| heap := h'; next := n'; index := l0; config := c; queued := q; notify := nt |} L K k)
  /\ index_ok h' l'.
Proof.
  revert h n l. induction accounts as [|a accounts IH]; intros h n l Hold Hl Hfresh.
  { split; [constructor|done]. }
  cbn [foldl]. unfold replace_one at 2. destruct (index_get (acc_id a) old) as [ptr|] eqn:Eg.
  - apply index_get_elem in Eg. destruct Hold as [Hnd Hall].
    rewrite Forall_forall in Hall. destruct (Hall _ Eg) as (s & Hs & Hid). simpl in Hs, Hid.
    set (p0 := {| heap := h; next := n; index := l0; config := c; queued := q; notify := nt |}).
    assert (Heq : alter (fun s => st_set_account s a) ptr h = <[ptr := st_set_account s a]> h).
    { apply (f_equal heap (update_state_Some p0 ptr (fun s => st_set_account s a) s Hs)). }
    rewrite Heq.
    assert (Hold' : index_ok (<[ptr := st_set_account s a]> h) old).
    { eapply index_ok_insert; [done|done|]. split; [done|]. by apply Forall_forall. }
    specialize (IH (<[ptr := st_set_account s a]> h) n (index_insert (acc_id a) ptr l)).
    destruct (foldl _ _ _) as [[h' n'] l']. destruct IH as [Hrun Hok]; [done|..].
    + eapply index_ok_index_insert; [apply lookup_insert_eq|done|].
      by eapply index_ok_insert.
    + intros q' Hq'. rewrite lookup_insert_ne; [auto|]. intros ->. by rewrite Hfresh in Hs.
    + split; [|done]. etransitivity; [|exact Hrun].
      eapply (run_insert p0 h); [done|done|by rewrite Hid].
  - specialize (IH (<[n := AccountState_new a]> h) (S n) (index_insert (acc_id a) n l)).
    assert (Hn : h !! n = None) by (by apply Hfresh).
    destruct (foldl _ _ _) as [[h' n'] l']. destruct IH as [Hrun Hok].
    + by apply index_ok_fresh.
    + eapply index_ok_index_insert; [apply lookup_insert_eq|done|]. by apply index_ok_fresh.
    + intros q' Hq'. rewrite lookup_insert_ne by lia. apply Hfresh. lia.
    + split; [|done]. etransitivity; [apply rtc_once, A_alloc|exact Hrun].
Qed.

Lemma index_ok_nil h : index_ok h [].
Proof. split; constructor. Qed.

Lemma run_replace p L K k accounts :
  slots_ok (W p L K k) -> rtc astep (W p L K k) (W (replace_accounts accounts p) L K k).
Proof.
  intros [_ _ _ _ _ Hi Hn]. simpl in *. unfold replace_accounts.
  pose proof (run_replace_fold (index p) accounts (heap p) (next p) (index p) (config p)
    (queued p) (notify p) L K k [] Hi (index_ok_nil _) Hn) as Hrun.
  destruct (foldl _ _ _) as [[h n] l]. destruct Hrun as [Hrun Hok].
  etransitivity; [|apply rtc_once, A_notify]. destruct p; simpl in *.
  etransitivity; [exact Hrun|]. by apply rtc_once, A_index.
Qed.

(** Every operation of the pool decomposes into the atomic actions: the calls
    add no behaviour of their own. *)
Lemma pstep_run w w' : slots_ok w -> pstep w w' -> rtc astep w w'.
Proof.
  intros Hok Hstep. destruct Hstep.
  - by eapply run_start.
  - unfold acquire_excluding in *. case_match; [simplify_eq; constructor|by eapply run_start].
  - unfold acquire_scoped_excluding in *. case_match; [simplify_eq; constructor|by eapply run_start].
  - by eapply run_loop_head.
  - by eapply run_woken.
  - unfold acquire_timeout in *. simplify_eq. apply (run_leave_phase _ _ K1 K2 k _ []).
  - apply (run_leave_phase _ _ K1 K2 k _ []).
  - apply run_drop.
  - unfold settle_credits. case_match; [constructor|by apply run_state].
  - apply run_account, keeps_success.
  - by apply run_account.
  - apply run_account, keeps_quota_error.
  - by apply run_account.
  - unfold reset_health in *. case_match; simplify_eq; [|constructor].
    etransitivity; [by apply (run_state _ _ _ _ n state_reset_health)|apply rtc_once, A_notify].
  - by apply (run_state _ _ _ _ ptr (set_supported_models models)).
  - apply run_state, keeps_set_health.
  - apply run_state, keeps_restore.
  - unfold scheduling_counts_in in *. destruct (counts_loop _ _ _ _ _ _ _) as [h n'] eqn:E. simplify_eq.
    rewrite <- (with_heap_same p) at 1. by eapply run_counts_loop.
  - unfold explain in *. destruct (explain_loop _ _ _ _ _ _ _ _) as [h r'] eqn:E. simplify_eq.
    rewrite <- (with_heap_same p) at 1. by eapply run_explain_loop.
  - by apply run_replace.
  - unfold update_config. destruct p. etransitivity; [by apply rtc_once, A_config|].
    apply rtc_once, A_notify.
  - apply rtc_once, A_notify.
Qed.

Lemma run_slots_ok w w' : rtc astep w w' -> slots_ok w -> slots_ok w'.
Proof. induction 1; eauto using astep_slots_ok. Qed.

Definition initial (accounts : list Account) (c : PoolConfig) (n0 : N) : World :=
  W (AccountPool_new accounts c n0) ∅ [] (effective_maximum (max_concurrent_per_account c)).

Lemma initial_slots_ok accounts c n0 : in_usize c -> slots_ok (initial accounts c n0).
Proof.
  intros Hc. unfold initial, AccountPool_new.
  set (k := effective_maximum _). pose proof (effective_maximum_bounds c Hc) as Hk.
  assert (Hfold : forall l x, foldl insert_new x l = foldl (replace_one []) x l).
  { induction l as [|a l IH]; intros x; [done|]. simpl. rewrite IH. by destruct x as [[? ?] ?]. }
  rewrite Hfold.
  pose proof (run_replace_fold [] accounts ∅ 0 [] c 0 n0 ∅ [] k []) as Hrun.
  destruct (foldl _ _ _) as [[h n] l].
  destruct Hrun as [Hrun Hok]; [apply index_ok_nil..|done|].
  eapply run_slots_ok.
  { etransitivity; [exact Hrun|]. by apply rtc_once, A_index. }
  constructor; simpl; try done.
  - intros ptr. multiset_solver.
  - split; [split; [apply Hk|done]|apply Hk].
  - apply index_ok_nil.
Qed.

(** ** Properties *)

(** C8: No slot is leaked, lost or shared, under every interleaving of the
    atomic actions of concurrent callers.  In every world reachable from a new
    pool, an account's counter of active requests equals the number of leases
    held on it, also for accounts that were removed while leased; it never
    exceeds the largest bound configured so far nor wraps around; the queue
    counter equals the number of acquisitions in flight; and the index maps
    distinct ids to states of accounts with those ids. *)
Theorem pool_slots_invariant (accounts : list Account) (c : PoolConfig) (n0 : N) (w : World) :
  in_usize c -> rtc astep (initial accounts c n0) w -> slots_ok w.
Proof. intros Hc Hrun. by eapply run_slots_ok, initial_slots_ok. Qed.

(** C9: Every operation of the pool, successful, failing, panicking or
    cancelled, is a run of the atomic actions that takes exactly one slot
    when it returns a lease and none otherwise, and that leaves the queue
    unless it is still waiting.  So every sequence of calls on a new pool
    keeps the slot invariant. *)
Theorem pool_calls_refine (accounts : list Account) (c : PoolConfig) (n0 : N) (w w' : World) :
  in_usize c -> rtc pstep (initial accounts c n0) w -> pstep w w' ->
  slots_ok w /\ rtc astep w w' /\ slots_ok w'.
Proof.
  intros Hc Hrun Hstep.
  assert (Hok : slots_ok w).
  { assert (Hgen : forall v v', rtc pstep v v' -> slots_ok v -> slots_ok v').
    { induction 1; eauto using run_slots_ok, pstep_run. }
    by eapply Hgen, initial_slots_ok. }
  split; [done|]. assert (Hr := pstep_run _ _ Hok Hstep). eauto using run_slots_ok.
Qed.
End Slots.
