(* ===== verification/PoolFacts.v ===== *)
(** * Facts about the operations of the account pool

    What an acquisition may return, the queue, the counters an operator sees,
    the sliding window of quota errors, and the waiting of queued requests. *)

From Stdlib Require Import ZArith Lia Ascii String Floats.SpecFloat.
From stdpp Require Import base list gmap gmultiset strings sorting relations.
From S2P Require Import Prelude RustStr F64 Model Account Catalog Pool PoolSlots.

Local Open Scope string_scope.
Local Open Scope list_scope.

Section Selection.
Context {N T : Type} `{Notify N T}.
Context (iter : gset string -> list string).

(** What makes an account servable now. *)
Definition servable (c : PoolConfig) (model : string) (s : AccountState) : Prop :=
  health s = Available /\ enabled (st_account s) = true
  /\ account_credit_state (st_account s) c = CreditAvailable
  /\ serves_model iter s model = Ok true.

Lemma eligible_true c now s model s' :
  eligible iter c now s model = (s', Ok true) <->
  s' = expire_cooling now s /\ servable c model s'.
Proof.
  unfold eligible, servable. split.
  - intros ?; simplify_eq. split; [done|]. repeat case_match; simplify_eq; bool_simpl; auto.
  - intros (-> & Hh & He & Hc & Hs).
    by rewrite Hh, He, Hc, !bool_decide_true, Hs by done.
Qed.

(** A servable account is not touched by a later expiry check. *)
Lemma expire_available now s : health s = Available -> expire_cooling now s = s.
Proof.
  intros Hh. unfold expire_cooling, cooling_expired. rewrite Hh.
  by rewrite bool_decide_false.
Qed.

Definition good_candidate (c : PoolConfig) (model : string) (prefer : list string)
    (h : gmap nat AccountState) (ptr : nat) : Prop :=
  exists s, h !! ptr = Some s /\ preferred prefer (st_account s) = true /\ servable c model s.

Lemma good_candidate_expire c model prefer h ptr q now s :
  h !! q = Some s -> good_candidate c model prefer h ptr ->
  good_candidate c model prefer (<[q := expire_cooling now s]> h) ptr.
Proof.
  intros Hq (t & Ht & Hp & Hs). destruct (decide (q = ptr)) as [->|Hne].
  - simplify_eq. exists s. rewrite lookup_insert_eq, expire_available; [done|apply Hs].
  - exists t. by rewrite lookup_insert_ne.
Qed.

Lemma candidates_loop_good ticks c model prefer i ptrs h output h' cands :
  candidates_loop iter ticks c model prefer i ptrs h output = (h', Ok cands) ->
  Forall (fun e => good_candidate c model prefer h e.2) output ->
  Forall (fun e => good_candidate c model prefer h' e.2) cands.
Proof.
  revert i h output. induction ptrs as [|ptr ptrs IH]; intros i h output; cbn [candidates_loop].
  { intros; by simplify_eq. }
  destruct (h !! ptr) as [s|] eqn:Hs; [|apply IH].
  destruct (preferred prefer (st_account s)) eqn:Hp; cbn [negb]; [|apply IH].
  destruct (eligible iter c _ s model) as [s' r] eqn:Ee.
  assert (s' = expire_cooling (t_instant (ticks i)) s) as Hs'
    by (unfold eligible in Ee; by simplify_eq).
  intros Hrun Hout.
  assert (Hout' : Forall (fun e => good_candidate c model prefer (<[ptr := s']> h) e.2) output).
  { subst s'. eapply Forall_impl; [exact Hout|]. intros e. by apply good_candidate_expire. }
  destruct r as [[]|]; [|by eapply IH|done].
  eapply IH; [exact Hrun|]. apply Forall_app. split; [done|]. apply Forall_singleton.
  apply eligible_true in Ee as [_ Hserv]. exists s'. rewrite lookup_insert_eq.
  split_and!; [done| |done]. by rewrite Hs', <- Hp; unfold expire_cooling; case_match.
Qed.

Lemma candidates_good ticks (p p' : AccountPool N) model prefer cands :
  candidates iter ticks p model prefer = (p', Ok cands) ->
  config p' = config p
  /\ Forall (fun e => good_candidate (config p) model prefer (heap p') e.2) cands.
Proof.
  unfold candidates. destruct (candidates_loop _ _ _ _ _ _ _ _ _) as [h r] eqn:E.
  intros; simplify_eq. split; [done|]. by eapply candidates_loop_good.
Qed.

Definition full (p : AccountPool N) (ptr : nat) : Prop :=
  exists s, heap p !! ptr = Some s /\ (slot_bound p <= st_active s)%Z.

Lemma take_slot_spec (p : AccountPool N) now_ms cands h' lease :
  Forall (fun e => is_Some (heap p !! e.2)) cands ->
  take_slot (max_concurrent_per_account (config p)) now_ms cands (heap p) = (h', lease) ->
  match lease with
  | Some ptr =>
      exists pre v post s, cands = pre ++ (v, ptr) :: post
        /\ Forall (fun e => full p e.2) pre /\ heap p !! ptr = Some s
        /\ (st_active s < slot_bound p)%Z
        /\ h' = <[ptr := mark_used_now now_ms (st_set_active s (st_active s + 1))]> (heap p)
  | None => Forall (fun e => full p e.2) cands /\ h' = heap p
  end.
Proof.
  induction 1 as [|[v ptr] cands [s Hs] Hall IH]; cbn [take_slot].
  { intros; simplify_eq. by split. }
  simpl in Hs. rewrite Hs. unfold try_acquire_slot. destruct (_ <? _)%Z eqn:E; bool_simpl.
  - intros; simplify_eq. exists [], v, cands, s. by repeat constructor.
  - assert (full p ptr) by (by exists s). intros Hrun. specialize (IH Hrun). destruct lease.
    + destruct IH as (pre & v' & post & s' & -> & Hpre & Hrest).
      exists ((v, ptr) :: pre), v', post, s'. split; [done|]. split; [by constructor|done].
    + destruct IH. by split; [constructor|].
Qed.

Lemma score_le_total x y :
  F64.is_nan x = false -> F64.is_nan y = false -> score_le x y = true \/ score_le y x = true.
Proof.
  intros Hx Hy. unfold score_le, F64.partial_cmp. rewrite (compare_swap x y).
  destruct (compare_number x y Hx Hy) as [[] ->]; auto.
Qed.

Lemma score_le_leb x y :
  F64.is_nan x = false -> F64.is_nan y = false -> score_le x y = F64.leb x y.
Proof.
  intros Hx Hy. unfold score_le, F64.leb, SFleb, F64.partial_cmp.
  by destruct (compare_number x y Hx Hy) as [[] ->].
Qed.

Lemma score_le_trans x y z :
  F64.is_nan x = false -> F64.is_nan y = false -> F64.is_nan z = false ->
  score_le x y = true -> score_le y z = true -> score_le x z = true.
Proof. intros Hx Hy Hz. rewrite !score_le_leb by done. apply leb_trans. Qed.

(** C10: An acquisition takes the best account it may: the account leased is
    in the scope asked for, enabled, healthy, within its credit policy and
    able to serve the model, it had a free slot, and no account with a free
    slot scores lower; when nothing is leased every candidate is full.  Scores
    are compared as numbers, so the candidates' scores must not be NaN. *)
Theorem try_acquire_best (ticks : nat -> Tick) (now_ms : Z) (p p1 p' : AccountPool N)
    (model : string) (prefer : list string) (cands : list (f64 * nat)) (lease : option nat) :
  candidates iter ticks p model prefer = (p1, Ok cands) ->
  Forall (fun e => F64.is_nan e.1 = false) cands ->
  try_acquire iter ticks now_ms p model prefer = (p', Ok lease) ->
  match lease with
  | Some ptr =>
      exists s v, (v, ptr) ∈ cands /\ heap p1 !! ptr = Some s
        /\ preferred prefer (st_account s) = true /\ servable (config p) model s
        /\ (st_active s < slot_bound p)%Z
        /\ (forall v' ptr', (v', ptr') ∈ cands -> full p1 ptr' \/ F64.leb v v' = true)
        /\ heap p' = <[ptr := mark_used_now now_ms (st_set_active s (st_active s + 1))]> (heap p1)
  | None => (forall v' ptr', (v', ptr') ∈ cands -> full p1 ptr') /\ heap p' = heap p1
  end.
Proof.
  intros Hc Hnan. unfold try_acquire. rewrite Hc.
  destruct (candidates_good _ _ _ _ _ _ Hc) as [Hcfg Hgood].
  set (sorted := sort_by _ cands).
  assert (Hperm : sorted ≡ₚ cands) by apply sort_by_perm.
  assert (Hsome : Forall (fun e => is_Some (heap p1 !! e.2)) sorted).
  { rewrite Hperm. eapply Forall_impl; [exact Hgood|]. intros e (s & -> & _). eauto. }
  destruct (take_slot _ _ _ _) as [h lease'] eqn:Et.
  apply take_slot_spec in Et; [|done]. intros Heq. injection Heq as <- <-.
  destruct lease' as [ptr|]; cbn [heap with_heap].
  - destruct Et as (pre & v & post & s & Hs & Hpre & Hptr & Hact & ->).
    assert (Hin : (v, ptr) ∈ cands) by (rewrite <- Hperm, Hs; set_solver).
    exists s, v. rewrite Forall_forall in Hgood. destruct (Hgood _ Hin) as (s' & Hs' & Hp & Hserv).
    simpl in Hs'. assert (s' = s) as -> by congruence. split_and!; try done.
    { unfold slot_bound in *. by rewrite <- Hcfg. }
    intros v' ptr' Hin'.
    assert (Hsort : StronglySorted (fun x y : f64 * nat => score_le x.1 y.1 = true) sorted).
    { apply (sort_by_sorted _ (fun e => F64.is_nan e.1 = false)); [..|done].
      - intros x y Hx Hy. by apply score_le_total.
      - intros x y z Hx Hy Hz. by apply score_le_trans.
      }
    assert (Hnv : F64.is_nan v = false) by (rewrite Forall_forall in Hnan; apply (Hnan _ Hin)).
    assert (Hnv' : F64.is_nan v' = false) by (rewrite Forall_forall in Hnan; apply (Hnan _ Hin')).
    rewrite <- Hperm in Hin'. rewrite Hs in Hsort, Hin'.
    destruct (sorted_head_first _ _ _ _ _ Hsort Hin') as [Hpre'|[[= -> ->]|Hle]].
    + rewrite Forall_forall in Hpre. left. apply (Hpre _ Hpre').
    + right. by apply leb_refl.
    + right. by rewrite <- score_le_leb.
  - destruct Et as [Hfull ->]. split; [|done]. intros v' ptr' Hin'.
    rewrite <- Hperm in Hin'. rewrite Forall_forall in Hfull. apply (Hfull _ Hin').
Qed.

Lemma try_acquire_lease ticks now_ms (p p' : AccountPool N) model prefer ptr :
  try_acquire iter ticks now_ms p model prefer = (p', Ok (Some ptr)) ->
  config p' = config p /\ good_candidate (config p) model prefer (heap p') ptr.
Proof.
  unfold try_acquire. destruct (candidates _ _ _ _ _) as [p1 [cands|]] eqn:Hc; [|done].
  destruct (candidates_good _ _ _ _ _ _ Hc) as [Hcfg Hgood].
  destruct (take_slot _ _ _ _) as [h lease'] eqn:Et. intros; simplify_eq.
  apply take_slot_spec in Et.
  - destruct Et as (pre & v & post & s & Hs & Hpre & Hptr & Hact & ->). split; [done|].
    assert (Hin : (v, ptr) ∈ cands).
    { rewrite <- (sort_by_perm (fun x y : f64 * nat => score_le x.1 y.1)), Hs. set_solver. }
    rewrite Forall_forall in Hgood. destruct (Hgood _ Hin) as (s' & Hs' & Hp & Hserv).
    simpl in Hs'. simplify_eq. simpl. eexists. rewrite lookup_insert_eq. done.
  - rewrite sort_by_perm. eapply Forall_impl; [exact Hgood|]. intros e (s & -> & _). eauto.
Qed.

Lemma preferred_in prefer a : prefer <> [] -> preferred prefer a = true -> acc_id a ∈ prefer.
Proof. destruct prefer; [done|]. intros _. unfold preferred. by rewrite bool_decide_eq_true. Qed.

(** A lease on an account whose id satisfies [P], fit to serve the model. *)
Definition leased_from (P : string -> Prop) (model : string) (p : AccountPool N) (ptr : nat) :
    Prop :=
  exists s, heap p !! ptr = Some s /\ P (acc_id (st_account s)) /\ servable (config p) model s.

Lemma acquire_start_scope (P : string -> Prop) ticks ticks' now_ms now (p : AccountPool N) model
    prefer p' (a : result (Acquire (T := T)) panic) :
  prefer <> [] -> (forall id, id ∈ prefer -> P id) ->
  acquire_start iter ticks ticks' now_ms now p model prefer = (p', a) ->
  match a with
  | Ok (Done (Ok ptr)) => leased_from P model p' ptr
  | Ok (AtLoop w) =>
      forall ticks now_ms (q q' : AccountPool N) ptr,
        acquire_woken (T := T) iter ticks now_ms q w = (q', Ok (Done (Ok ptr))) ->
        leased_from P model q' ptr
  | Ok (Sleeping _ _) => False
  | _ => True
  end.
Proof.
  intros Hne HP. unfold acquire_start.
  destruct (candidates _ _ _ _ _) as [p1 [cands|]] eqn:Hc; [|intros; by simplify_eq].
  destruct cands as [|c cands]; [intros; by simplify_eq|].
  destruct (try_acquire _ _ _ _ _ _) as [p2 [[ptr|]|]] eqn:Et; [| |intros; by simplify_eq].
  - intros; simplify_eq. apply try_acquire_lease in Et as [Hcfg (s & Hs & Hp & Hserv)].
    exists s. rewrite Hcfg. auto using preferred_in.
  - destruct (acquire_queue _ _ _ _) as [p3 a'] eqn:Eq. intros; simplify_eq.
    unfold acquire_queue in Eq. simpl in Eq. case_match; simplify_eq; [done|].
    clear Et. intros tk ms q q' ptr. unfold acquire_woken. cbn [w_model w_prefer_ids].
    destruct (try_acquire iter tk ms q model prefer) as [q1 [[ptr'|]|]] eqn:Ew; intros; simplify_eq.
    apply try_acquire_lease in Ew as [Hcfg (s & Hs & Hp & Hserv)].
    exists s. simpl. rewrite Hcfg. auto using preferred_in.
Qed.

(** A retry never lands on an account it excluded: whether the lease is
    granted at once or after any number of wake-ups and changes of the pool,
    its account is outside the excluded set and fit to serve the model at
    that moment. *)
Theorem acquire_excluding_safe (ticks ticks' : nat -> Tick) (now_ms now : Z) (p : AccountPool N)
    (model : string) (excluded : gset string) :
  let '(p', a) := acquire_excluding (T := T) iter ticks ticks' now_ms now p model excluded in
  match a with
  | Ok (Done (Ok ptr)) => leased_from (fun id => (id ∉ excluded)) model p' ptr
  | Ok (AtLoop w) =>
      forall ticks now_ms (q q' : AccountPool N) ptr,
        acquire_woken (T := T) iter ticks now_ms q w = (q', Ok (Done (Ok ptr))) ->
        leased_from (fun id => (id ∉ excluded)) model q' ptr
  | Ok (Sleeping _ _) => False
  | _ => True
  end.
Proof.
  destruct (acquire_excluding _ _ _ _ _ _ _ _) as [p' a] eqn:E. unfold acquire_excluding in E.
  remember (acc_id <$> filter _ (snapshot p)) as ids eqn:Hids.
  destruct ids as [|id0 ids]; [by simplify_eq|].
  eapply acquire_start_scope; [| |exact E]; [done|].
  rewrite Hids. intros id (a' & -> & [Ha _]%list_elem_of_filter)%list_elem_of_fmap. done.
Qed.

(** C11: A service's requests stay in the service's account scope, and out of
    the accounts already tried, in the same sense. *)
Theorem acquire_scoped_excluding_safe (ticks ticks' : nat -> Tick) (now_ms now : Z)
    (p : AccountPool N) (model : string) (allowed excluded : gset string) :
  (forall s id, id ∈ iter s <-> id ∈ s) ->
  let '(p', a) :=
    acquire_scoped_excluding (T := T) iter ticks ticks' now_ms now p model allowed excluded in
  match a with
  | Ok (Done (Ok ptr)) => leased_from (fun id => id ∈ allowed ∖ excluded) model p' ptr
  | Ok (AtLoop w) =>
      forall ticks now_ms (q q' : AccountPool N) ptr,
        acquire_woken (T := T) iter ticks now_ms q w = (q', Ok (Done (Ok ptr))) ->
        leased_from (fun id => id ∈ allowed ∖ excluded) model q' ptr
  | Ok (Sleeping _ _) => False
  | _ => True
  end.
Proof.
  intros Hiter. destruct (acquire_scoped_excluding _ _ _ _ _ _ _ _ _) as [p' a] eqn:E.
  unfold acquire_scoped_excluding in E.
  remember (filter _ (iter allowed)) as ids eqn:Hids.
  destruct ids as [|id0 ids]; [by simplify_eq|].
  eapply acquire_start_scope; [| |exact E]; [done|].
  rewrite Hids. intros id [Ha Hin]%list_elem_of_filter. apply Hiter in Hin. set_solver.
Qed.
End Selection.

(** ** Counters *)

Section Counters.
Context {N : Type}.

Lemma index_ok_values_NoDup (p : AccountPool N) :
  index_ok (heap p) (index p) -> NoDup (values p).
Proof.
  intros [Hnd Hall]. unfold values. revert Hnd Hall.
  induction (index p) as [|[id ptr] l IH]; intros Hnd Hall; [constructor|].
  apply Forall_cons in Hall as [(s & Hs & Hid) Hall]. change (NoDup (id :: l.*1)) in Hnd.
  change (NoDup (ptr :: l.*2)).
  apply NoDup_cons in Hnd as [Hnew Hnd]. constructor; [|by apply IH].
  intros ([id' ptr'] & Heq & Hin)%list_elem_of_fmap. simpl in Heq. subst ptr'.
  rewrite Forall_forall in Hall. destruct (Hall _ Hin) as (s' & Hs' & Hid'). simpl in *.
  apply Hnew. apply list_elem_of_fmap. exists (id', ptr). split; [|done]. simpl. congruence.
Qed.

(** The number of accounts of a list with a property. *)
Definition count (f : AccountState -> bool) (l : list AccountState) : Z :=
  Z.of_nat (length (filter (fun s => f s = true) l)).

Lemma tally_cons f s l : count f (s :: l) = ((if f s then 1 else 0) + count f l)%Z.
Proof.
  unfold count. rewrite filter_cons. destruct (f s) eqn:E.
  - rewrite decide_True by done. simpl. lia.
  - rewrite decide_False by done. done.
Qed.

(** Schedulable for a request that names no model. *)
Definition schedulable (c : PoolConfig) (s : AccountState) : bool :=
  bool_decide (health s = Available) && enabled (st_account s)
  && bool_decide (account_credit_state (st_account s) c = CreditAvailable).

(** Enabled, with credit left, and in the health state [x]. *)
Definition in_health (c : PoolConfig) (x : AccountHealth) (s : AccountState) : bool :=
  bool_decide (health s = x) && enabled (st_account s)
  && bool_decide (account_credit_state (st_account s) c = CreditAvailable).

(** Enabled, and held back for credit [x]. *)
Definition in_credit (c : PoolConfig) (x : AccountCreditState) (s : AccountState) : bool :=
  enabled (st_account s) && bool_decide (account_credit_state (st_account s) c = x).

(** What the counters of the accounts [l] must be. *)
Record counts_ok (c : PoolConfig) (l : list AccountState) (n : AccountPoolCounts) : Prop := {
  co_total : total n = Z.of_nat (length l);
  co_enabled : cnt_enabled n = count (fun s => enabled (st_account s)) l;
  co_available : available n = count (schedulable c) l;
  co_protected : protected n = count (in_credit c CreditProtected) l;
  co_cooling : cooling n = count (in_health c Cooling) l;
  co_exhausted : (exhausted n =
    count (in_credit c CreditExhausted) l + count (in_health c Exhausted) l)%Z;
  co_banned : banned n = count (in_health c Banned) l;
  co_refreshing : refreshing n = count (in_health c Refreshing) l;
  co_split : (total n = cnt_enabled n + disabled n)%Z;
  co_partition : (cnt_enabled n =
    available n + protected n + cooling n + exhausted n + banned n + refreshing n)%Z;
}.

Lemma count_state_ok c s l n : counts_ok c l n -> counts_ok c (s :: l) (count_state c s n).
Proof.
  intros [Ht He Ha H1 H2 H3 H4 H5 Hs Hp]. unfold count_state.
  constructor; rewrite ?tally_cons; unfold schedulable, in_health, in_credit in *;
    destruct (enabled (st_account s)), (account_credit_state (st_account s) c), (health s);
    cbn [negb counts_add total cnt_enabled available protected cooling exhausted banned
         refreshing disabled]; rewrite ?length_cons; simpl; lia.
Qed.

Lemma counts_loop_ok nows c allowed i ptrs h n seen h' n' :
  NoDup ptrs -> counts_ok c seen n ->
  counts_loop nows c allowed i ptrs h n = (h', n') ->
  (forall q, q ∉ ptrs -> h' !! q = h !! q)
  /\ exists visited,
       visited ≡ₚ filter (fun s => in_scope allowed (st_account s) = true)
                    (omap (fun ptr => h' !! ptr) ptrs) ++ seen
       /\ counts_ok c visited n'.
Proof.
  intros Hnd. revert i h n seen. induction Hnd as [|ptr ptrs Hnew Hnd IH];
    intros i h n seen Hok; cbn [counts_loop].
  { intros; simplify_eq. split; [done|]. by exists seen. }
  destruct (h !! ptr) as [s|] eqn:Hs.
  - set (s' := expire_cooling (nows i) s). intros Hrun.
    destruct (in_scope allowed (st_account s')) eqn:Esc; cbn [negb] in Hrun.
    + destruct (IH _ _ _ _ (count_state_ok c s' seen n Hok) Hrun) as [Hsame (v & Hperm & Hv)].
      split.
      { intros q Hq. rewrite Hsame by set_solver. rewrite lookup_insert_ne; [done|set_solver]. }
      exists v. split; [|done]. rewrite Hperm. cbn [omap list_omap].
      rewrite (Hsame ptr) by done. rewrite lookup_insert_eq, filter_cons_True by done.
      by rewrite <- Permutation_middle.
    + destruct (IH _ _ _ _ Hok Hrun) as [Hsame (v & Hperm & Hv)]. split.
      { intros q Hq. rewrite Hsame by set_solver. rewrite lookup_insert_ne; [done|set_solver]. }
      exists v. split; [|done]. rewrite Hperm. cbn [omap list_omap].
      rewrite (Hsame ptr) by done. rewrite lookup_insert_eq, filter_cons_False; [done|].
      by rewrite Esc.
  - intros Hrun. destruct (IH _ _ _ _ Hok Hrun) as [Hsame (v & Hperm & Hv)]. split.
    { intros q Hq. apply Hsame. set_solver. }
    exists v. split; [|done]. rewrite Hperm. cbn [omap list_omap].
    by rewrite (Hsame ptr), Hs by done.
Qed.

Lemma counts_ok_perm c l l' n : l ≡ₚ l' -> counts_ok c l n -> counts_ok c l' n.
Proof.
  intros Hp [Ht He Ha H1 H2 H3 H4 H5 Hs Hpa].
  assert (Hcount : forall f, count f l = count f l') by (intros f; unfold count; by rewrite Hp).
  constructor; rewrite <- ?Hcount, <- ?Hp; done.
Qed.

(** The counters an operator sees are exact and agree with scheduling:
    every account of the scope is counted once as enabled or disabled, every
    enabled one in exactly one of the six states, each counter is the number
    of accounts in its state (credit first, then health), and [available] is
    the number of accounts the scheduler would admit, in the pool the call
    leaves behind. *)
Theorem scheduling_counts_exact (nows : nat -> Z) (p : AccountPool N)
    (allowed : option (gset string)) :
  index_ok (heap p) (index p) ->
  let '(p', n) := scheduling_counts_in nows p allowed in
  counts_ok (config p)
    (filter (fun s => in_scope allowed (st_account s) = true) (states p')) n.
Proof.
  intros Hok. unfold scheduling_counts_in.
  destruct (counts_loop _ _ _ _ _ _ _) as [h n] eqn:E.
  apply (counts_loop_ok _ _ _ _ _ _ _ []) in E as [_ (v & Hperm & Hv)].
  - rewrite app_nil_r in Hperm. by eapply counts_ok_perm.
  - by apply index_ok_values_NoDup.
  - by constructor.
Qed.
End Counters.

(** The scheduler admits exactly the schedulable accounts. *)
Lemma eligible_schedulable iter c now s :
  snd (eligible iter c now s "") = Ok (schedulable c (expire_cooling now s)).
Proof.
  unfold eligible, schedulable. cbn [snd]. generalize (expire_cooling now s) as t. intros t.
  destruct (bool_decide (health t = Available)), (enabled (st_account t)),
    (bool_decide (account_credit_state (st_account t) c = CreditAvailable)); reflexivity.
Qed.

(** ** Quota errors *)

Lemma pop_expired_filter now window errors :
  StronglySorted Z.le errors -> Forall (fun t => t <= now)%Z errors ->
  pop_expired now window errors = filter (fun t => now - t <= window)%Z errors.
Proof.
  intros Hs Hn. induction Hs as [|t errors Hs IH Hall]; [done|].
  apply Forall_cons in Hn as [Ht Hn]. cbn [pop_expired]. rewrite filter_cons.
  unfold sat_sub. destruct (_ <? _)%Z eqn:E; bool_simpl.
  - rewrite decide_False by lia. by apply IH.
  - rewrite decide_True by lia. f_equal. symmetry. apply filter_all.
    intros u Hu. rewrite Forall_forall in Hall, Hn. specialize (Hall _ Hu). specialize (Hn _ Hu). lia.
Qed.

(** Quota errors are counted over a true sliding window: after an error at
    time [now] the account remembers exactly the earlier errors that are at
    most one window old, and the new one, in order; it is stopped for good,
    with the persisted flag set, exactly when their number reaches the
    threshold, and only cools down otherwise. *)
Theorem quota_error_window (c : PoolConfig) (now now' : Z) (s : AccountState) :
  StronglySorted Z.le (st_quota_errors s) -> Forall (fun t => t <= now)%Z (st_quota_errors s) ->
  let s' := quota_error_state c now now' s in
  let window := (quota_error_window_ms (cooldown c) * NANOS_PER_MS)%Z in
  let recent := filter (fun t => now - t <= window)%Z (st_quota_errors s) ++ [now] in
  st_quota_errors s' = recent
  /\ StronglySorted Z.le (st_quota_errors s')
  /\ if (quota_error_threshold (cooldown c) <=? wrap_u32 (Z.of_nat (length recent)))%Z
     then health s' = Exhausted /\ credit_exhausted (st_account s') = true
     else health s' = Cooling /\ st_account s' = st_account s
          /\ st_cooling_until s' = Some (after_ms now' (error_cooldown_ms (cooldown c))).
Proof.
  intros Hs Hn s' window recent.
  assert (Hrec : pop_expired now window (st_quota_errors s) ++ [now] = recent)
    by (unfold recent; by rewrite pop_expired_filter).
  assert (Hq : st_quota_errors s' = recent)
    by (unfold s', quota_error_state; fold window; rewrite Hrec; by case_match).
  split; [done|]. split.
  - rewrite Hq. unfold recent. apply StronglySorted_app_2.
    + intros x y Hx Hy. apply list_elem_of_filter in Hx as [_ Hx].
      apply list_elem_of_singleton in Hy as ->. rewrite Forall_forall in Hn. auto.
    + by apply filter_sorted.
    + repeat constructor.
  - unfold s', quota_error_state. fold window. rewrite Hrec. by case_match.
Qed.

(** ** Exhaustion *)

Section Exhaustion.
Context {N : Type}.
Context (iter : gset string -> list string).

Definition matching (model : string) (allowed : option (gset string)) (s : AccountState) : Prop :=
  in_scope allowed (st_account s) = true /\ enabled (st_account s) = true
  /\ serves_model iter s model = Ok true.

Definition stopped (c : PoolConfig) (s : AccountState) : Prop :=
  health s = Exhausted \/ account_credit_state (st_account s) c <> CreditAvailable.

Lemma all_matching_loop_spec c model allowed l matched b :
  all_matching_loop iter c model allowed l matched = Ok b ->
  b = true <->
    (matched = true \/ exists s, s ∈ l /\ matching model allowed s)
    /\ forall s, s ∈ l -> matching model allowed s -> stopped c s.
Proof.
  revert matched. induction l as [|s l IH]; intros matched; cbn [all_matching_loop].
  { intros; simplify_eq. split; [|set_solver]. intros ->. set_solver. }
  assert (Hskip : ~ matching model allowed s ->
    all_matching_loop iter c model allowed l matched = Ok b ->
    b = true <->
      (matched = true \/ exists s0, s0 ∈ s :: l /\ matching model allowed s0)
      /\ forall s0, s0 ∈ s :: l -> matching model allowed s0 -> stopped c s0).
  { intros Hno Hrun. rewrite (IH _ Hrun). setoid_rewrite elem_of_cons. split.
    - intros [Ha Hall]. split; [destruct Ha as [?|(s0 & ? & ?)]; eauto|].
      intros s0 [->|?] ?; [done|auto].
    - intros [Ha Hall]. split; [|auto].
      destruct Ha as [?|(s0 & [->|?] & ?)]; [auto|done|eauto]. }
  destruct (negb (in_scope _ _) || negb _) eqn:Esc.
  { apply Hskip. intros (Hin & Hen & _). by rewrite Hin, Hen in Esc. }
  bool_simpl. destruct (serves_model iter s model) as [[]|] eqn:Es; cbn [result_bind negb]; [| |done].
  2: { apply Hskip. intros (_ & _ & ?). congruence. }
  assert (Hm : matching model allowed s) by done.
  destruct (negb (bool_decide (health s = Exhausted)) && _) eqn:Est.
  - intros; simplify_eq. bool_simpl. split; [done|]. intros [_ Hall].
    destruct (Hall s); [set_solver|done..].
  - intros Hrun. rewrite (IH _ Hrun). setoid_rewrite elem_of_cons.
    assert (stopped c s).
    { unfold stopped. apply andb_false_iff in Est as [Est|Est]; bool_simpl; auto. }
    split.
    + intros [_ Hall]. split; [by right; exists s; auto|]. intros s0 [->|?] ?; auto.
    + intros [_ Hall]. split; [by left|]. auto.
Qed.

(** The pool reports that credits are exhausted for a model exactly when
    some enabled account of the scope serves the model and every such account
    is stopped, by its health or by its credit policy. *)
Theorem all_matching_credit_exhausted_spec (p : AccountPool N) (model : string)
    (allowed : option (gset string)) (b : bool) :
  all_matching_credit_exhausted_in iter p model allowed = Ok b ->
  b = true <->
    (exists s, s ∈ states p /\ matching model allowed s)
    /\ forall s, s ∈ states p -> matching model allowed s -> stopped (config p) s.
Proof. intros Hrun. rewrite (all_matching_loop_spec _ _ _ _ _ _ Hrun).
  split; intros [Ha Hall]; (split; [|done]); [|by right]. by destruct Ha.
Qed.
End Exhaustion.

(** ** Replacing the accounts *)

Section Replace.
Context {N T : Type} `{Notify N T}.

(** The same state but for the account's record. *)
Definition same_runtime (s s' : AccountState) : Prop := st_set_account s' (st_account s) = s.

(** The entry of [accounts] that ends up in the pool under [id]. *)
Definition last_entry (id : string) (accounts : list Account) : option Account :=
  last (filter (fun a => acc_id a = id) accounts).

Lemma last_entry_snoc id accounts a :
  last_entry id (accounts ++ [a]) = if bool_decide (acc_id a = id) then Some a else last_entry id accounts.
Proof.
  unfold last_entry. rewrite filter_app. destruct (decide (acc_id a = id)).
  - rewrite bool_decide_true, filter_cons_True by done. apply last_snoc.
  - rewrite bool_decide_false, filter_cons_False by done. by rewrite filter_nil, app_nil_r.
Qed.

Record replaced (p : AccountPool N) (accounts : list Account) (h : gmap nat AccountState)
    (n : nat) (l : list (string * nat)) : Prop := {
  re_next : next p <= n;
  re_nodup : NoDup l.*1;
  re_fresh : forall ptr, n <= ptr -> h !! ptr = None;
  re_old : forall ptr s, heap p !! ptr = Some s -> exists s', h !! ptr = Some s' /\ same_runtime s s';
  re_keys : forall id, id ∈ l.*1 <-> id ∈ acc_id <$> accounts;
  re_entries : forall id ptr, (id, ptr) ∈ l ->
    exists s a, h !! ptr = Some s /\ last_entry id accounts = Some a /\ st_account s = a
      /\ match index_get id (index p) with
         | Some old => ptr = old
         | None => next p <= ptr /\ s = AccountState_new a
         end;
}.

Lemma index_insert_keys_elem id ptr l k : k ∈ (index_insert id ptr l).*1 <-> k = id \/ k ∈ l.*1.
Proof. rewrite index_insert_keys. case_bool_decide; set_solver. Qed.

Lemma index_insert_other id ptr l k q :
  NoDup l.*1 -> (k, q) ∈ index_insert id ptr l ->
  (k = id /\ q = ptr) \/ (k <> id /\ (k, q) ∈ l).
Proof.
  induction l as [|[k' q'] l IH]; cbn [index_insert]; intros Hnd.
  { intros [=]%list_elem_of_singleton. auto. }
  change (NoDup (k' :: l.*1)) in Hnd. apply NoDup_cons in Hnd as [Hnew Hnd].
  assert (Hkey : forall q, (k', q) ∈ l -> False).
  { intros q0 Hq0. apply Hnew. apply list_elem_of_fmap. by exists (k', q0). }
  case_bool_decide as Hk; rewrite elem_of_cons.
  - subst k'. intros [[= -> ->]|Hin]; [auto|]. right. split; [|set_solver].
    intros ->. by eapply Hkey.
  - intros [[= -> ->]|Hin]; [right; split; [done|set_solver]|].
    destruct (IH Hnd Hin) as [?|[? ?]]; [auto|right; set_solver].
Qed.

Lemma index_insert_NoDup id ptr l : NoDup l.*1 -> NoDup (index_insert id ptr l).*1.
Proof.
  intros Hnd. rewrite index_insert_keys. case_bool_decide; [done|].
  apply NoDup_app. split_and!; [done|set_solver|apply NoDup_singleton].
Qed.

Lemma keys_snoc id l (accounts : list Account) a ptr :
  (forall id, id ∈ l.*1 <-> id ∈ acc_id <$> accounts) ->
  id ∈ (index_insert (acc_id a) ptr l).*1 <-> id ∈ acc_id <$> (accounts ++ [a]).
Proof.
  intros Hk. rewrite index_insert_keys_elem, fmap_app, elem_of_app, Hk.
  simpl. rewrite list_elem_of_singleton. tauto.
Qed.

(** An account that was in the pool keeps its state. *)
Lemma replaced_existing p accounts h n l a ptr :
  index_ok (heap p) (index p) -> (forall q, next p <= q -> heap p !! q = None) ->
  index_get (acc_id a) (index p) = Some ptr ->
  replaced p accounts h n l ->
  replaced p (accounts ++ [a]) (alter (fun s => st_set_account s a) ptr h) n
    (index_insert (acc_id a) ptr l).
Proof.
  intros [_ Hall] Hfresh Hget [Hnext Hnd Hfr Hold Hkeys Hent].
  apply index_get_elem in Hget as Hin. rewrite Forall_forall in Hall.
  destruct (Hall _ Hin) as (s0 & Hs0 & _). simpl in Hs0.
  assert (Hlt : ptr < next p).
  { destruct (decide (ptr < next p)); [done|]. rewrite Hfresh in Hs0 by lia. done. }
  destruct (Hold _ _ Hs0) as (s1 & Hs1 & Hrt).
  constructor; [done|by apply index_insert_NoDup|..].
  - intros q Hq. rewrite lookup_alter_ne by lia. auto.
  - intros q s Hq. destruct (decide (ptr = q)) as [<-|Hne].
    + rewrite lookup_alter_eq, Hs1. exists (st_set_account s1 a). split; [done|].
      rewrite Hs0 in Hq. injection Hq as <-. by unfold same_runtime in *.
    + rewrite lookup_alter_ne by done. auto.
  - intros id. by apply keys_snoc.
  - intros id q [[-> ->]|[Hne Hq]]%index_insert_other; [..|done].
    + exists (st_set_account s1 a), a. rewrite lookup_alter_eq, Hs1, last_entry_snoc.
      rewrite bool_decide_true, Hget by done. done.
    + destruct (Hent _ _ Hq) as (s & b & Hs & Hb & Hacc & Hm).
      rewrite last_entry_snoc, bool_decide_false by congruence.
      destruct (decide (ptr = q)) as [<-|Hpq].
      * exfalso. destruct (index_get id (index p)) as [old|] eqn:Eo; [|lia]. subst old.
        apply index_get_elem in Eo.
        destruct (Hall _ Eo) as (t & Ht & Hid). destruct (Hall _ Hin) as (t' & Ht' & Hid').
        simpl in *. congruence.
      * exists s, b. by rewrite lookup_alter_ne.
Qed.

(** An account that was not gets a new state behind a new pointer. *)
Lemma replaced_new p accounts h n l a :
  index_get (acc_id a) (index p) = None ->
  replaced p accounts h n l ->
  replaced p (accounts ++ [a]) (<[n := AccountState_new a]> h) (S n)
    (index_insert (acc_id a) n l).
Proof.
  intros Hget [Hnext Hnd Hfr Hold Hkeys Hent].
  assert (Hn : h !! n = None) by (by apply Hfr).
  constructor; [lia|by apply index_insert_NoDup|..].
  - intros q Hq. rewrite lookup_insert_ne by lia. apply Hfr. lia.
  - intros q s Hq. destruct (Hold _ _ Hq) as (s' & Hs' & Hrt). exists s'.
    rewrite lookup_insert_ne; [done|congruence].
  - intros id. by apply keys_snoc.
  - intros id q [[-> ->]|[Hne Hq]]%index_insert_other; [..|done].
    + exists (AccountState_new a), a. rewrite lookup_insert_eq, last_entry_snoc.
      rewrite bool_decide_true, Hget by done. done.
    + destruct (Hent _ _ Hq) as (s & b & Hs & Hb & Hacc & Hm). exists s, b.
      rewrite last_entry_snoc, bool_decide_false by congruence.
      rewrite lookup_insert_ne by congruence. done.
Qed.

Lemma replace_fold p accounts :
  index_ok (heap p) (index p) -> (forall q, next p <= q -> heap p !! q = None) ->
  let '(h, n, l) := foldl (replace_one (index p)) (heap p, next p, []) accounts in
  replaced p accounts h n l.
Proof.
  intros Hok Hfresh. induction accounts as [|a accounts IH] using rev_ind.
  { constructor; [done|apply NoDup_nil_2|done| |done|].
    - intros q s Hs. exists s. split; [done|by destruct s].
    - intros ? ? []%not_elem_of_nil. }
  rewrite foldl_snoc. destruct (foldl _ _ accounts) as [[h n] l]. unfold replace_one.
  destruct (index_get (acc_id a) (index p)) eqn:E.
  - by apply replaced_existing.
  - by apply replaced_new.
Qed.

(** Reloading the accounts keeps what the pool learned at run time: the
    new index holds exactly the ids of the new list, each with its last
    entry; an account that was already known keeps its shared state (slots,
    health, errors, cooldown, models) behind the same pointer, a new one
    starts with a fresh state that no lease can point to, and a state dropped
    from the index is left in place for the leases that still hold it. *)
Theorem replace_accounts_spec (p : AccountPool N) (accounts : list Account) :
  index_ok (heap p) (index p) -> (forall q, next p <= q -> heap p !! q = None) ->
  let p' := replace_accounts accounts p in
  replaced p accounts (heap p') (next p') (index p')
  /\ config p' = config p /\ queued p' = queued p.
Proof.
  intros Hok Hfresh p'. unfold p', replace_accounts.
  pose proof (replace_fold p accounts Hok Hfresh) as Hr.
  destruct (foldl _ _ accounts) as [[h n] l]. done.
Qed.
End Replace.

(** ** A concrete pool *)

(** [Notify] as a counter of the calls of [notify_waiters]. *)
#[export] Instance counter_notify : Notify nat nat.
Proof.
  refine {| notified := fun n => n; notify_waiters := S; woken := fun n t => (t <? n)%nat |}.
  - intros n. apply Nat.ltb_irrefl.
  - intros n. apply Nat.ltb_lt. lia.
  - intros n t Ht. apply Nat.ltb_lt. apply Nat.ltb_lt in Ht. lia.
Defined.

Definition demo_account (id : string) : Account :=
  {| acc_id := id; email := "a@example.com"; label := None; enabled := true; machine_id := "0";
     profile_arn := None; upstream_user_id := None;
     credentials := {| access_token := "at"; refresh_token := None; client_id := None;
                       client_secret := None; region := "us-east-1"; expires_at := 0;
                       auth_method := ApiKey |};
     usage := None; subscription := None; tags := []; created_at := 0;
     credit_exhausted := false |}.

Definition demo_config : PoolConfig :=
  {| max_concurrent_per_account := 1; max_queue_size := 10; max_queue_wait_ms := 30000;
     queue_full_wait_ms := 5000; low_credit_min_remaining := F64.of_Z 4;
     enable_overage := false; max_overage_credits_per_account := None;
     daily_credit_limit := F64.zero; credit_estimate_per_1k_tokens := F64.one;
     credit_estimate_output_token_cap := 8192; auto_switch_on_quota_exhausted := true;
     balance := BalanceConfig_default; cooldown := CooldownConfig_default |}.

Definition demo_tick : nat -> Tick :=
  fun _ => {| t_instant := 0; t_now_ms := 0; t_jitter := F64.zero |}.

Section LostWakeup.
Context {N T : Type} `{Notify N T}.
Context (iter : gset string -> list string) (n0 : N).

(** One account with one slot; the first request holds it. *)
Definition busy : AccountPool N :=
  fst (acquire_start (T := T) iter demo_tick demo_tick 0 0
         (AccountPool_new [demo_account "a"] demo_config n0) "m" []).

(** The second request has failed to get a slot and is about to wait. *)
Definition late_waiter : Waiter :=
  {| w_model := "m"; w_prefer_ids := []; w_wait := 30000; w_overflow := false;
     w_deadline := after_ms 0 30000 |}.

Definition queued_pool : AccountPool N := fst (queue_enter busy).

(** The first request ends before the second one has created its future. *)
Definition idle_pool : AccountPool N := drop_lease 0 0 queued_pool.

Lemma busy_step :
  acquire_start (T := T) iter demo_tick demo_tick 0 0
    (AccountPool_new [demo_account "a"] demo_config n0) "m" [] = (busy, Ok (Done (Ok 0))).
Proof. vm_compute. reflexivity. Qed.

Lemma queued_step :
  acquire_start (T := T) iter demo_tick demo_tick 0 0 busy "m" []
  = (queued_pool, Ok (AtLoop late_waiter)).
Proof. vm_compute. reflexivity. Qed.

Lemma sleeping_step :
  acquire_loop_head 1 idle_pool late_waiter
  = (idle_pool, Sleeping late_waiter (notified (notify idle_pool))).
Proof. vm_compute. reflexivity. Qed.

Lemma idle_slot :
  snd (try_acquire iter demo_tick 0 idle_pool "m" []) = Ok (Some 0).
Proof. vm_compute. reflexivity. Qed.

(** C40: A queued request can miss the wake-up it waits for.  The slot is
    released after the request's attempt failed and before it creates its
    future, so the notification reaches nobody; the request then sleeps
    although a slot is free, no lease is held, and an attempt would succeed at
    once, and it can end in [QueueTimeout]. *)
Theorem acquire_lost_wakeup :
  exists w K ticket,
    rtc (pstep iter) (initial [demo_account "a"] demo_config n0) w
    /\ leases w = ∅
    /\ tasks w = Sleeping late_waiter ticket :: K
    /\ woken (notify (pool w)) ticket = false
    /\ snd (try_acquire iter demo_tick 0 (pool w) "m" []) = Ok (Some 0)
    /\ snd (acquire_timeout (T := T) (pool w)) = Done (Err QueueTimeout).
Proof.
  exists {| pool := idle_pool; leases := ∅;
            tasks := [Sleeping late_waiter (notified (notify idle_pool))]; peak := 1 |}, [],
    (notified (notify idle_pool)).
  split; [|split_and!; [done|done|apply notified_fresh|apply idle_slot|done]].
  eapply rtc_l; [by eapply P_acquire, busy_step|].
  eapply rtc_l; [by eapply P_acquire, queued_step|]. simpl.
  eapply rtc_l; [eapply (P_drop iter queued_pool ∅ [AtLoop late_waiter] 1 0 0)|].
  eapply rtc_l; [by eapply (P_loop iter _ ∅ [] [] 1), sleeping_step|]. constructor.
Qed.
End LostWakeup.

(** ** The hypotheses hold *)

Definition demo_pool : AccountPool nat :=
  AccountPool_new [demo_account "a"; demo_account "b"] demo_config 0.

Lemma demo_index_ok : index_ok (heap demo_pool) (index demo_pool).
Proof.
  split; [by vm_compute; repeat constructor; set_solver|].
  vm_compute. repeat constructor; eexists; split; reflexivity.
Qed.

Lemma demo_fresh q : next demo_pool <= q -> heap demo_pool !! q = None.
Proof.
  intros Hq. change (next demo_pool) with 2 in Hq. unfold demo_pool, AccountPool_new. simpl.
  rewrite !lookup_insert_ne by lia. done.
Qed.

Lemma demo_in_usize : in_usize demo_config.
Proof. unfold in_usize. simpl. unfold USIZE_MAX, U64_MAX. lia. Qed.

Lemma pool_slots_invariant_witness :
  exists w : World (N := nat) (T := nat),
    multiplicity 0 (leases w) = 1 /\ slots_ok w.
Proof.
  eexists. split; [|apply (pool_slots_invariant [demo_account "a"] demo_config 0)].
  2: exact demo_in_usize.
  2: { eapply rtc_l; [|apply rtc_refl].
       eapply (A_slot _ _ _ _ 0); [vm_compute; reflexivity|left; reflexivity|vm_compute; reflexivity]. }
  vm_compute. reflexivity.
Defined.

Lemma pool_calls_refine_witness :
  exists w w' : World (N := nat) (T := nat),
    multiplicity 0 (leases w') = 1 /\ (slots_ok w /\ rtc astep w w' /\ slots_ok w').
Proof.
  eexists _, _. split; [|eapply (pool_calls_refine elements [demo_account "a"] demo_config 0)].
  2: exact demo_in_usize.
  2: apply rtc_refl.
  2: eapply P_acquire, (busy_step elements 0).
  vm_compute. reflexivity.
Defined.


Definition demo_score : f64 := F64.div F64.one F64.ten.

Lemma try_acquire_best_witness :
  let cands := [(demo_score, 0); (demo_score, 1)] in
  let p1 := fst (candidates elements demo_tick demo_pool "m" []) in
  exists s v, (v, 0) ∈ cands /\ heap p1 !! 0 = Some s /\ servable elements demo_config "m" s
    /\ forall v' ptr', (v', ptr') ∈ cands -> full p1 ptr' \/ F64.leb v v' = true.
Proof.
  intros cands p1.
  destruct (try_acquire_best elements demo_tick 0 demo_pool p1
              (fst (try_acquire elements demo_tick 0 demo_pool "m" [])) "m" [] cands (Some 0))
    as (s & v & Hv & Hs & Hp & Hserv & Hact & Hbest & _).
  - vm_compute. reflexivity.
  - repeat constructor.
  - vm_compute. reflexivity.
  - exists s, v. auto.
Defined.

Lemma acquire_scoped_excluding_safe_witness :
  match acquire_scoped_excluding (T := nat) elements demo_tick demo_tick 0 0 demo_pool "m"
          {["a"; "b"]} {["a"]} with
  | (p', Ok (Done (Ok ptr))) =>
      ptr = 1 /\ leased_from elements (fun id => id ∈ ({["a"; "b"]} : gset string) ∖ {["a"]}) "m" p' ptr
  | _ => False
  end.
Proof.
  pose proof (acquire_scoped_excluding_safe (N := nat) (T := nat) elements demo_tick demo_tick 0 0 demo_pool
                "m" {["a"; "b"]} {["a"]} ltac:(intros; apply elem_of_elements)) as Hsafe.
  destruct (acquire_scoped_excluding _ _ _ _ _ _ _ _ _) as [p' a] eqn:E.
  assert (Ha : a = Ok (Done (Ok 1))).
  { transitivity (snd (acquire_scoped_excluding (T := nat) elements demo_tick demo_tick 0 0 demo_pool "m"
                         {["a"; "b"]} {["a"]})); [by rewrite E|vm_compute; reflexivity]. }
  subst a. split; [reflexivity|exact Hsafe].
Defined.

Lemma scheduling_counts_exact_witness :
  let '(p', n) := scheduling_counts_in (fun _ => 0%Z) demo_pool None in
  available n = 2%Z
  /\ counts_ok demo_config
       (filter (fun s => in_scope None (st_account s) = true) (states p')) n.
Proof.
  pose proof (scheduling_counts_exact (fun _ => 0%Z) demo_pool None demo_index_ok) as Hc.
  destruct (scheduling_counts_in _ demo_pool None) as [p' n] eqn:E. split; [|exact Hc].
  transitivity (available (snd (scheduling_counts_in (fun _ => 0%Z) demo_pool None)));
    [by rewrite E|vm_compute; reflexivity].
Defined.

Lemma quota_error_window_witness :
  let s := st_set_quota_errors (AccountState_new (demo_account "a")) [0; 5]%Z in
  st_quota_errors (quota_error_state demo_config 300000000001 0 s) = [5; 300000000001]%Z.
Proof.
  intros s. destruct (quota_error_window demo_config 300000000001 0 s) as [Hq _].
  - repeat constructor; lia.
  - repeat constructor; lia.
  - rewrite Hq. vm_compute. reflexivity.
Defined.

Lemma all_matching_credit_exhausted_spec_witness :
  all_matching_credit_exhausted_in elements demo_pool "m" None = Ok false
  /\ (false = true <->
       (exists s, s ∈ states demo_pool /\ matching elements "m" None s)
       /\ forall s, s ∈ states demo_pool -> matching elements "m" None s ->
            stopped (config demo_pool) s).
Proof.
  split; [vm_compute; reflexivity|].
  apply (all_matching_credit_exhausted_spec elements demo_pool "m" None false).
  vm_compute. reflexivity.
Defined.

Lemma replace_accounts_spec_witness :
  let p' := replace_accounts [demo_account "b"; demo_account "c"] demo_pool in
  index p' = [("b", 1); ("c", 2)]
  /\ replaced demo_pool [demo_account "b"; demo_account "c"] (heap p') (next p') (index p').
Proof.
  intros p'. split; [vm_compute; reflexivity|].
  apply (replace_accounts_spec demo_pool [demo_account "b"; demo_account "c"] demo_index_ok demo_fresh).
Defined.
