(* ===== verification/Refresh.v ===== *)
(** * Token refresh

    [kproxy-pool/src/refresh.rs].  The HTTP client, the durable account store
    behind [reload] and [persist], and the clock are arguments.  The account's
    refresh lock is held throughout, but requests in flight may change the
    shared state at every [await]; what they do is an argument too. *)

From Stdlib Require Import ZArith Lia Ascii String.
From stdpp Require Import base list gmap strings.
From S2P Require Import Prelude RustStr F64 Model Account Catalog Pool.

Local Open Scope string_scope.
Local Open Scope list_scope.
Local Open Scope kproxy_scope.

Inductive RefreshError :=
| NotFound
| NotRefreshable
| Upstream (message : string)
| Persistence (message : string)
| CredentialReload (message : string).

Record RefreshedCredentials := {
  rc_account_id : string;
  rc_credentials : Credentials;
  rc_profile_arn : option string;
}.

Record ReloadedCredentials := {
  rl_credentials : Credentials;
  rl_profile_arn : option string;
}.

Record RefreshOutcome := { changed : bool; persistence_error : option string }.

Definition outcome_unchanged : RefreshOutcome := {| changed := false; persistence_error := None |}.
Definition outcome_changed : RefreshOutcome := {| changed := true; persistence_error := None |}.
Definition persisted (o : RefreshOutcome) : bool := is_none (persistence_error o).

Inductive RefreshRequestFailure :=
| RequestNotRefreshable
| RequestUpstream (status : option Z) (message : string).

Definition failure_status (f : RefreshRequestFailure) : option Z :=
  match f with RequestNotRefreshable => None | RequestUpstream status _ => status end.

Definition into_refresh_error (f : RefreshRequestFailure) : RefreshError :=
  match f with
  | RequestNotRefreshable => NotRefreshable
  | RequestUpstream _ message => Upstream message
  end.

Record RefreshResponse := {
  rr_access_token : string;
  rr_refresh_token : option string;
  rr_expires_in : Z;
  rr_profile_arn : option string;
}.

(** The request sent, and what the HTTP client makes of the answer: a status
    with its body (parsed as a [RefreshResponse], and as text), or a transport
    error. *)
Inductive TokenRequest :=
| IdcRequest (endpoint client_id client_secret grant_type refresh_token : string)
| SocialRequest (endpoint user_agent refresh_token : string).

Inductive HttpOutcome :=
| Responded (status : Z) (status_display : string) (json : result RefreshResponse string)
    (text : option string)
| TransportError (message : string).

Definition is_success (status : Z) : bool := ((200 <=? status) && (status <? 300))%Z.

(** [chars().take(n)] on UTF-8 bytes. *)
Fixpoint take_chars (n : nat) (l : bytes) : bytes :=
  match l with
  | [] => []
  | a :: l =>
      if is_continuation a then a :: take_chars n l
      else match n with 0 => [] | S n => a :: take_chars n l end
  end.

(** [kproxy-kiro/src/identity.rs] *)
Definition IDE_VERSION : string := "1.0.437".
Definition ide_auth_user_agent (machine_id : string) : string :=
  "KiroIDE-" +:+ IDE_VERSION +:+ "-" +:+ machine_id.

Record TokenRefresher := {
  before_expiry_secs : Z;
  endpoint_override : option string;
}.

Definition with_endpoint (r : TokenRefresher) (endpoint : string) : TokenRefresher :=
  {| before_expiry_secs := before_expiry_secs r; endpoint_override := Some endpoint |}.

Definition request_endpoint (r : TokenRefresher) (prefix host : string) (suffix : string) : string :=
  unwrap_or (endpoint_override r) (prefix +:+ host +:+ suffix).

Definition request_tokens (send : TokenRequest -> HttpOutcome) (r : TokenRefresher)
    (snapshot : Account) : result RefreshResponse RefreshRequestFailure :=
  let c := credentials snapshot in
  match refresh_token c with
  | None => Err RequestNotRefreshable
  | Some token =>
      let? request :=
        match auth_method c with
        | ApiKey => Err RequestNotRefreshable
        | Idc =>
            match client_id c, client_secret c with
            | Some id, Some secret =>
                Ok (IdcRequest
                      (request_endpoint r "https://oidc." (region c) ".amazonaws.com/token")
                      id secret "refresh_token" token)
            | _, _ => Err RequestNotRefreshable
            end
        | Social =>
            Ok (SocialRequest
                  (request_endpoint r "https://prod." (region c)
                     ".auth.desktop.kiro.dev/refreshToken")
                  (ide_auth_user_agent (machine_id snapshot)) token)
        end in
      match send request with
      | Responded status display json text =>
          if is_success status then
            match json with
            | Ok tokens => Ok tokens
            | Err message => Err (RequestUpstream (Some status) message)
            end
          else
            Err (RequestUpstream (Some status)
                   ("HTTP " +:+ display +:+ ": "
                    +:+ l2s (take_chars 500 (s2l (unwrap_or text "")))))
      | TransportError message => Err (RequestUpstream None message)
      end
  end.

Definition validate_refreshable (a : Account) : result unit RefreshError :=
  let c := credentials a in
  if bool_decide (auth_method c = ApiKey) || is_none (refresh_token c) then Err NotRefreshable
  else if bool_decide (auth_method c = Idc)
          && (is_none (client_id c) || is_none (client_secret c))
  then Err NotRefreshable
  else Ok tt.

Definition refresh_inputs_changed (previous reloaded : Credentials) : bool :=
  negb (bool_decide (refresh_token previous = refresh_token reloaded))
  || negb (bool_decide (client_id previous = client_id reloaded))
  || negb (bool_decide (client_secret previous = client_secret reloaded))
  || negb (bool_decide (region previous = region reloaded))
  || negb (bool_decide (auth_method previous = auth_method reloaded)).

Definition acc_set_profile_arn (a : Account) (arn : option string) : Account :=
  {| acc_id := acc_id a; email := email a; label := label a; enabled := enabled a;
     machine_id := machine_id a; profile_arn := arn;
     upstream_user_id := upstream_user_id a; credentials := credentials a; usage := usage a;
     subscription := subscription a; tags := tags a; created_at := created_at a;
     credit_exhausted := credit_exhausted a |}.

(** [i64] addition in a release build. *)
Definition wrap_i64 (z : Z) : Z := (z - I64_MIN) mod 2 ^ 64 + I64_MIN.

(** The tokens are written over the credentials now in the shared account. *)
Definition apply_tokens (now : Z) (tokens : RefreshResponse) (a : Account) : Account :=
  let c := credentials a in
  let a :=
    acc_set_credentials a
      {| access_token := rr_access_token tokens;
         refresh_token := or_else (rr_refresh_token tokens) (refresh_token c);
         client_id := client_id c; client_secret := client_secret c; region := region c;
         expires_at := wrap_i64 (now + rr_expires_in tokens);
         auth_method := auth_method c |} in
  match rr_profile_arn tokens with
  | Some arn => acc_set_profile_arn a (Some arn)
  | None => a
  end.

Definition apply_reloaded (reloaded : ReloadedCredentials) (a : Account) : Account :=
  acc_set_profile_arn (acc_set_credentials a (rl_credentials reloaded)) (rl_profile_arn reloaded).

(** What happens outside the refresh: the changes other tasks make to the
    shared state at each [await], and the readings of the clock. *)
Record RefreshEnv := {
  during_request : AccountState -> AccountState;
  during_reload : AccountState -> AccountState;
  during_retry : AccountState -> AccountState;
  during_persist : AccountState -> AccountState;
  now_check : Z;
  now_tokens : Z;
  now_failure : Z;
}.

Section RefreshAccount.
Context (r : TokenRefresher) (env : RefreshEnv).
(** The answers to the first request and to the one after a reload. *)
Context (send send_retry : TokenRequest -> HttpOutcome).
Context (reload : result (option ReloadedCredentials) string).
Context (persist : RefreshedCredentials -> result unit string).

Definition on_account (f : Account -> Account) (s : AccountState) : AccountState :=
  st_set_account s (f (st_account s)).

(** The last [match]: [snapshot] is the account the request was made for. *)
Definition finish_refresh (force : bool) (before : AccountHealth) (snapshot : Account)
    (outcome : result RefreshResponse RefreshRequestFailure) (s : AccountState) :
    AccountState * result RefreshOutcome RefreshError :=
  match outcome with
  | Ok tokens =>
      let s := on_account (apply_tokens (now_tokens env) tokens) s in
      let refreshed :=
        {| rc_account_id := acc_id (st_account s); rc_credentials := credentials (st_account s);
           rc_profile_arn := rr_profile_arn tokens |} in
      let error := match persist refreshed with Ok _ => None | Err e => Some e end in
      let s := during_persist env s in
      (restore_health_after_refresh before s,
       Ok {| changed := true; persistence_error := error |})
  | Err failure =>
      (if force || (expires_at (credentials snapshot) <=? now_failure env)%Z
       then set_health Banned s
       else restore_health_after_refresh before s,
       Err (into_refresh_error failure))
  end.

(** The fallback for a rejected IdC refresh token. *)
Definition reload_and_retry (force : bool) (before : AccountHealth) (snapshot : Account)
    (outcome : result RefreshResponse RefreshRequestFailure) (s : AccountState) :
    AccountState * result RefreshOutcome RefreshError :=
  let s := during_reload env s in
  match reload with
  | Err error => (set_health Banned s, Err (CredentialReload error))
  | Ok None => finish_refresh force before snapshot outcome s
  | Ok (Some reloaded) =>
      let access_token_changed :=
        negb (bool_decide (access_token (rl_credentials reloaded) =
                           access_token (credentials snapshot))) in
      let inputs_changed :=
        refresh_inputs_changed (credentials snapshot) (rl_credentials reloaded) in
      if access_token_changed || inputs_changed then
        let s := on_account (apply_reloaded reloaded) s in
        let snapshot := st_account s in
        if access_token_changed then
          (restore_health_after_refresh before s, Ok outcome_changed)
        else
          match validate_refreshable snapshot with
          | Err error => (set_health Banned s, Err error)
          | Ok _ =>
              let outcome := request_tokens send_retry r snapshot in
              finish_refresh force before snapshot outcome (during_retry env s)
          end
      else finish_refresh force before snapshot outcome s
  end.

(** [refresh_account_with_hooks] once the account's state is found and its
    refresh lock is held. *)
Definition refresh_state (force : bool) (rejected_access_token : option string)
    (s : AccountState) : AccountState * result RefreshOutcome RefreshError :=
  let snapshot := st_account s in
  if is_some_and rejected_access_token
       (fun rejected => negb (bool_decide (access_token (credentials snapshot) = rejected)))
  then (s, Ok outcome_unchanged)
  else if negb force
          && negb (is_token_expiring snapshot (now_check env) (before_expiry_secs r))
  then (s, Ok outcome_unchanged)
  else
    match validate_refreshable snapshot with
    | Err error => (s, Err error)
    | Ok _ =>
        let before := health s in
        let s := set_health Refreshing s in
        let outcome := request_tokens send r snapshot in
        let s := during_request env s in
        let rejected :=
          match outcome with
          | Err failure => bool_decide (failure_status failure = Some 400%Z)
          | Ok _ => false
          end in
        if bool_decide (auth_method (credentials snapshot) = Idc) && rejected
        then reload_and_retry force before snapshot outcome s
        else finish_refresh force before snapshot outcome s
    end.

Definition refresh_account_with_hooks {N : Type} (p : AccountPool N) (account_id : string)
    (force : bool) (rejected_access_token : option string) :
    AccountPool N * result RefreshOutcome RefreshError :=
  match get p account_id with
  | None => (p, Err NotFound)
  | Some ptr =>
      match heap p !! ptr with
      | None => (p, Err NotFound)
      | Some s =>
          let '(s, r) := refresh_state force rejected_access_token s in
          (with_heap p (<[ptr := s]> (heap p)), r)
      end
  end.
End RefreshAccount.

(** [refresh_account]: no reload, nothing persisted. *)
Definition refresh_account {N : Type} (r : TokenRefresher) (env : RefreshEnv)
    (send send_retry : TokenRequest -> HttpOutcome) (p : AccountPool N) (account_id : string)
    (force : bool) : AccountPool N * result bool RefreshError :=
  let '(p, outcome) :=
    refresh_account_with_hooks r env send send_retry (Ok None) (fun _ => Ok tt) p account_id force
      None in
  (p, let? o := outcome in Ok (changed o)).

(** [refresh_expiring] over the accounts of a snapshot; the environment and
    the answers are those of each account's refresh. *)
Fixpoint refresh_expiring_loop {N : Type} (r : TokenRefresher) (env : nat -> RefreshEnv)
    (nows : nat -> Z) (send send_retry : nat -> TokenRequest -> HttpOutcome) (k : nat)
    (accounts : list Account) (p : AccountPool N) (failures : list (string * RefreshError)) :
    AccountPool N * list (string * RefreshError) :=
  match accounts with
  | [] => (p, failures)
  | a :: accounts =>
      if is_token_expiring a (nows k) (before_expiry_secs r) then
        let '(p, outcome) := refresh_account r (env k) (send k) (send_retry k) p (acc_id a) false in
        refresh_expiring_loop r env nows send send_retry (S k) accounts p
          (match outcome with Ok _ => failures | Err e => failures ++ [(acc_id a, e)] end)
      else refresh_expiring_loop r env nows send send_retry (S k) accounts p failures
  end.

Definition refresh_expiring {N : Type} (r : TokenRefresher) (env : nat -> RefreshEnv)
    (nows : nat -> Z) (send send_retry : nat -> TokenRequest -> HttpOutcome) (p : AccountPool N) :
    AccountPool N * list (string * RefreshError) :=
  refresh_expiring_loop r env nows send send_retry 0 (snapshot p) p [].

(** ** Properties *)

Lemma health_set_health h s : health (set_health h s) = h.
Proof. unfold health. simpl. apply from_u8_as_u8. Qed.

Lemma restore_not_refreshing before s : health (restore_health_after_refresh before s) <> Refreshing.
Proof.
  unfold restore_health_after_refresh. destruct (_ =? _)%Z eqn:E.
  - rewrite health_set_health. by destruct before.
  - unfold health, from_u8. apply Z.eqb_neq in E. simpl in E.
    destruct (st_health s) as [|[q|q|]|]; try done; repeat (destruct q as [q|q|]; try done).
Qed.

(** The state the refresh starts its request from, when it makes one. *)
Definition requests (r : TokenRefresher) (env : RefreshEnv) (force : bool)
    (rejected_access_token : option string) (s : AccountState) : bool :=
  negb (is_some_and rejected_access_token
          (fun t => negb (bool_decide (access_token (credentials (st_account s)) = t))))
  && (force || is_token_expiring (st_account s) (now_check env) (before_expiry_secs r))
  && is_ok (validate_refreshable (st_account s)).

Section Properties.
Context (r : TokenRefresher) (env : RefreshEnv).
Context (send send_retry : TokenRequest -> HttpOutcome).
Context (reload : result (option ReloadedCredentials) string).
Context (persist : RefreshedCredentials -> result unit string).

Abbreviation refresh := (refresh_state r env send send_retry reload persist).
Abbreviation finish := (finish_refresh env persist).

Lemma refresh_idle force rejected s :
  requests r env force rejected s = false -> fst (refresh force rejected s) = s.
Proof.
  unfold requests, refresh_state. destruct (is_some_and _ _); [done|].
  destruct force, (is_token_expiring _ _ _); cbn [negb andb orb]; try done;
    destruct (validate_refreshable _); done.
Qed.

Lemma finish_not_refreshing force before snapshot outcome s :
  health (fst (finish force before snapshot outcome s)) <> Refreshing.
Proof.
  unfold finish_refresh. destruct outcome; simpl; [apply restore_not_refreshing|].
  case_match; [by rewrite health_set_health|apply restore_not_refreshing].
Qed.

(** C12: A refresh always hands the account back: whatever the answers, the
    reload, the persistence and the concurrent changes are, an account that a
    refresh has marked [Refreshing] is not left in that state when it returns,
    so no account is lost to the scheduler. *)
Theorem refresh_hands_back (force : bool) (rejected : option string) (s : AccountState) :
  if requests r env force rejected s
  then health (fst (refresh force rejected s)) <> Refreshing
  else fst (refresh force rejected s) = s.
Proof.
  destruct (requests r env force rejected s) eqn:E; [|by apply refresh_idle].
  unfold requests in E. bool_simpl. unfold refresh_state.
  destruct (is_some_and _ _); [done|].
  destruct (negb force && _) eqn:Ef.
  { destruct force; [done|]. bool_simpl. simpl in *. congruence. }
  destruct (validate_refreshable _) as [[]|]; [|done].
  case_match; [|apply finish_not_refreshing]. unfold reload_and_retry.
  destruct reload as [[rl|]|]; [|apply finish_not_refreshing|cbn [fst]; by rewrite health_set_health].
  repeat case_match; try apply finish_not_refreshing; cbn [fst];
    first [apply restore_not_refreshing|by rewrite health_set_health].
Qed.

Lemma restore_account before s :
  st_account (restore_health_after_refresh before s) = st_account s.
Proof. unfold restore_health_after_refresh. by case_match. Qed.

(** The account as the first request is sent with it, and with the durable
    credentials put over it. *)
Definition asking (s : AccountState) : AccountState := during_request env (set_health Refreshing s).

Definition reread (reloaded : ReloadedCredentials) (s : AccountState) : AccountState :=
  on_account (apply_reloaded reloaded) (during_reload env (asking s)).

(** [answered s tokens t]: in a refresh of [s] the service answers with [tokens],
    at the first request or at the one made with reread credentials, at which
    moment the account is [t]. *)
Definition answered (s : AccountState) (tokens : RefreshResponse) (t : AccountState) : Prop :=
  (request_tokens send r (st_account s) = Ok tokens /\ t = asking s)
  \/ exists reloaded, reload = Ok (Some reloaded)
       /\ request_tokens send_retry r (st_account (reread reloaded s)) = Ok tokens
       /\ t = during_retry env (reread reloaded s).

(** The tokens of an answer were written over the credentials in memory, and what
    was in memory then was handed to [persist]; behind it stand only the changes
    that other tasks made while it was written. *)
Definition committed (s : AccountState) (o : RefreshOutcome) (s' : AccountState) : Prop :=
  exists tokens t, answered s tokens t
    /\ let t := on_account (apply_tokens (now_tokens env) tokens) t in
       let a := st_account t in
       persist {| rc_account_id := acc_id a; rc_credentials := credentials a;
                  rc_profile_arn := rr_profile_arn tokens |}
       = match persistence_error o with Some e => Err e | None => Ok tt end
       /\ st_account s' = st_account (during_persist env t).

(** The durable copy had another access token, and the account has that now. *)
Definition adopted (s : AccountState) (o : RefreshOutcome) (s' : AccountState) : Prop :=
  exists reloaded, reload = Ok (Some reloaded)
    /\ access_token (rl_credentials reloaded) <> access_token (credentials (st_account s))
    /\ st_account s' = st_account (reread reloaded s)
    /\ credentials (st_account s') = rl_credentials reloaded
    /\ persistence_error o = None.

Lemma finish_committed force before snapshot outcome s t s' o :
  (forall tokens, outcome = Ok tokens -> answered s tokens t) ->
  finish force before snapshot outcome t = (s', Ok o) -> committed s o s'.
Proof.
  intros Ha. unfold finish_refresh. destruct outcome as [tokens|] eqn:E; [|done].
  intros; simplify_eq. exists tokens, t. split; [by apply Ha|].
  rewrite restore_account. split; [|done]. simpl. by destruct (persist _) as [[]|].
Qed.

Lemma reload_committed force before s s' failure o :
  reload_and_retry r env send_retry reload persist force before (st_account s) (Err failure) (asking s)
  = (s', Ok o) -> committed s o s' \/ adopted s o s'.
Proof.
  unfold reload_and_retry. destruct reload as [[rl|]|] eqn:Er; [|done|done].
  destruct (_ || _); [|done]. destruct (bool_decide _) eqn:Hsame; cbn [negb].
  - destruct (validate_refreshable _); [|done]. intros H. left. eapply finish_committed; [|exact H].
    intros tokens Ht. right. by exists rl.
  - intros [= <- <-]. right. exists rl. rewrite restore_account. apply bool_decide_eq_false in Hsame. done.
Qed.

(** C13: New tokens are never lost and never silently undurable.  When a refresh
    reports a change, then either the durable copy had another access token than
    the account and its credentials replaced those in memory; or the upstream
    service answered, asked with the account's credentials or with those of the
    durable copy, the tokens were written over the credentials in memory as they
    are then, exactly what was then in memory was handed to [persist], a failure of
    which is reported in the outcome, and the account's record is what other tasks
    made of that while it was persisted (the tokens themselves if nobody touched
    it); a failed [persist] takes nothing back. *)
Theorem refresh_commits (force : bool) (rejected : option string) (s s' : AccountState)
    (o : RefreshOutcome) :
  refresh force rejected s = (s', Ok o) -> changed o = true ->
  committed s o s' \/ adopted s o s'.
Proof.
  unfold refresh_state. destruct (is_some_and _ _); [by intros [= <- <-]|].
  destruct (negb force && _); [by intros [= <- <-]|]. destruct (validate_refreshable _); [|done].
  fold (asking s). destruct (request_tokens send r (st_account s)) as [tokens|failure] eqn:E.
  - rewrite andb_false_r. intros H _. left. eapply finish_committed; [|exact H].
    intros ? [= <-]. by left.
  - destruct (_ && _); [intros H _; by eapply reload_committed|done].
Qed.

(** A failed proactive refresh costs nothing: when the refresh was not
    forced and the access token is still valid, an error leaves the account's
    record untouched and its health as it was, so that the account keeps
    serving.  (Nobody else changes the account meanwhile, and there is no
    durable copy to reload.) *)
Theorem refresh_proactive_failure (s s' : AccountState) (e : RefreshError) :
  (forall s, during_request env s = s) -> (forall s, during_reload env s = s) ->
  reload = Ok None ->
  health s = Available \/ health s = Cooling \/ health s = Exhausted ->
  (now_failure env < expires_at (credentials (st_account s)))%Z ->
  refresh false None s = (s', Err e) ->
  st_account s' = st_account s /\ health s' = health s.
Proof.
  intros Hreq Hrel -> Hh Hexp.
  assert (Hfin : forall outcome t t', st_account t = st_account s -> st_health t = 4%Z ->
            finish false (health s) (st_account s) outcome t = (t', Err e) ->
            st_account t' = st_account s /\ health t' = health s).
  { intros outcome t t' Ha Ht. unfold finish_refresh. destruct outcome; [done|]. simpl.
    destruct (_ <=? _)%Z eqn:E; bool_simpl; [lia|]. intros; simplify_eq.
    rewrite restore_account. split; [done|]. unfold restore_health_after_refresh. rewrite Ht.
    simpl. rewrite health_set_health. destruct Hh as [-> | [-> | ->]]; done. }
  unfold refresh_state, reload_and_retry. intros Hrun. rewrite Hreq, Hrel in Hrun.
  cbn [is_some_and] in Hrun. destruct (negb false && _); [done|].
  destruct (validate_refreshable _); [|by simplify_eq].
  destruct (bool_decide _ && _); (eapply Hfin; [| |exact Hrun]; done).
Qed.
End Properties.

(** ** The hypotheses hold *)

Definition demo_refresher : TokenRefresher := {| before_expiry_secs := 300; endpoint_override := None |}.

Definition quiet_env : RefreshEnv :=
  {| during_request := fun s => s; during_reload := fun s => s; during_retry := fun s => s;
     during_persist := fun s => s; now_check := 800; now_tokens := 800; now_failure := 801 |}.

Definition social_state : AccountState :=
  AccountState_new
    {| acc_id := "acc_1"; email := "a@example.com"; label := None; enabled := true;
       machine_id := "0"; profile_arn := None; upstream_user_id := None;
       credentials := {| access_token := "at-1"; refresh_token := Some "rt-1"; client_id := None;
                         client_secret := None; region := "us-east-1"; expires_at := 1000;
                         auth_method := Social |};
       usage := None; subscription := None; tags := []; created_at := 0;
       credit_exhausted := false |}.

Definition send_tokens (_ : TokenRequest) : HttpOutcome :=
  Responded 200 "200 OK"
    (Ok {| rr_access_token := "at-2"; rr_refresh_token := Some "rt-2"; rr_expires_in := 3600;
           rr_profile_arn := None |}) None.

Definition send_failure (_ : TokenRequest) : HttpOutcome :=
  Responded 500 "500 Internal Server Error" (Err "no body") (Some "oops").

Lemma refresh_commits_witness :
  exists s' o,
    refresh_state demo_refresher quiet_env send_tokens send_tokens (Ok None)
      (fun _ => Err "disk full") false None social_state = (s', Ok o)
    /\ access_token (credentials (st_account s')) = "at-2"
    /\ persistence_error o = Some "disk full"
    /\ (committed demo_refresher quiet_env send_tokens send_tokens (Ok None) (fun _ => Err "disk full")
           social_state o s'
         \/ adopted quiet_env (Ok None) social_state o s').
Proof.
  eexists _, _. split_and!; [reflexivity|reflexivity|reflexivity|].
  eapply (refresh_commits demo_refresher quiet_env send_tokens send_tokens (Ok None)
            (fun _ => Err "disk full") false None social_state); reflexivity.
Defined.

Lemma refresh_proactive_failure_witness :
  exists s',
    refresh_state demo_refresher quiet_env send_failure send_failure (Ok None) (fun _ => Ok tt)
      false None social_state = (s', Err (Upstream "HTTP 500 Internal Server Error: oops"))
    /\ st_account s' = st_account social_state /\ health s' = health social_state.
Proof.
  eexists. split; [reflexivity|].
  eapply (refresh_proactive_failure demo_refresher quiet_env send_failure send_failure (Ok None)
            (fun _ => Ok tt) social_state _ (Upstream "HTTP 500 Internal Server Error: oops"));
    try reflexivity. left. reflexivity.
Defined.

(** A failed proactive refresh also lifts a ban: an account that was
    [Banned] before the refresh and whose token is still valid becomes
    [Available] although nothing about it improved, because restoring the
    health treats [Banned] like [Available] on failure as well. *)
Theorem refresh_failure_lifts_ban :
  let banned := set_health Banned social_state in
  let '(s', r) :=
    refresh_state demo_refresher quiet_env send_failure send_failure (Ok None) (fun _ => Ok tt)
      false None banned in
  r = Err (Upstream "HTTP 500 Internal Server Error: oops") /\ health s' = Available.
Proof. vm_compute. split; reflexivity. Qed.
