(* ===== verification/Meter.v ===== *)
(** * Credits and usage

    [kproxyd/src/meter.rs]: API keys, credit reservations and bounded usage
    statistics.  A [HashMap] is a [gmap] and its iteration order is an argument;
    a [BTreeMap] is a list in key order.  SHA-256, the clock, the file system
    behind [persist] and [load] are arguments; the mutexes of the source make
    each operation here one step, except where a step relation is given. *)

From Stdlib Require Import ZArith Lia Ascii String.
From stdpp Require Import base list gmap strings.
From S2P Require Import Prelude RustStr F64 Json.

Local Open Scope string_scope.
Local Open Scope list_scope.
Local Open Scope kproxy_scope.

Definition MAX_USAGE_DAYS : nat := 366.
Definition MAX_USAGE_DIMENSION_KEYS : nat := 256.
Definition MAX_HISTORY : nat := 100.
Definition OTHER_USAGE_DIMENSION : string := "other".

(** ** API key configuration ([kproxy-core/src/config.rs]) *)

Inductive ApiKeyFormat := Sk | Simple | Token.

Record ApiKeyConfig := {
  k_id : option string;
  k_name : string;
  k_key : string;
  k_format : ApiKeyFormat;
  k_enabled : bool;
  k_skip_user_agent_check : bool;
  k_credits_limit : option f64;
  k_allowed_providers : list string;
  k_allowed_models : list string;
}.

Definition ApiKeyConfig_default : ApiKeyConfig :=
  {| k_id := None; k_name := ""; k_key := ""; k_format := Sk; k_enabled := true;
     k_skip_user_agent_check := false; k_credits_limit := None; k_allowed_providers := [];
     k_allowed_models := [] |}.

(** ** Usage *)

Inductive MeterError := Unauthorized | LimitExceeded | DailyLimitExceeded | Persist (message : string).

Record UsageBucket := {
  b_requests : Z;
  b_credits : f64;
  b_input_tokens : Z;
  b_output_tokens : Z;
}.

Definition UsageBucket_default : UsageBucket :=
  {| b_requests := 0; b_credits := F64.zero; b_input_tokens := 0; b_output_tokens := 0 |}.

Record ProviderBilling := {
  pb_schema_version : Z;
  pb_source : string;
  pb_unit : option string;
  pb_amount : option Z;
  pb_raw : value;
}.

Record UsageRecord := {
  u_timestamp : Z;
  u_provider_id : string;
  u_model : string;
  u_original_model : option string;
  u_kiro_model : option string;
  u_input_tokens : Z;
  u_output_tokens : Z;
  u_credits : f64;
  u_cache_read_tokens : option Z;
  u_cache_write_tokens : option Z;
  u_reasoning_tokens : option Z;
  u_token_usage_source : string;
  u_provider_billing : option ProviderBilling;
  u_path : string;
}.

(** The [u64] additions wrap, as in a release build. *)
Definition bucket_add (r : UsageRecord) (b : UsageBucket) : UsageBucket :=
  {| b_requests := wrap_u64 (b_requests b + 1);
     b_credits := F64.add (b_credits b) (u_credits r);
     b_input_tokens := wrap_u64 (b_input_tokens b + u_input_tokens r);
     b_output_tokens := wrap_u64 (b_output_tokens b + u_output_tokens r) |}.

Definition bucket_merge (other b : UsageBucket) : UsageBucket :=
  {| b_requests := sat_add U64_MAX (b_requests b) (b_requests other);
     b_credits := F64.add (b_credits b) (b_credits other);
     b_input_tokens := sat_add U64_MAX (b_input_tokens b) (b_input_tokens other);
     b_output_tokens := sat_add U64_MAX (b_output_tokens b) (b_output_tokens other) |}.

(** *** Dates *)

(** [i64::div_euclid] with a positive divisor is [Z.div]; [/] is [Z.quot]. *)
Definition civil_from_days (days : Z) : Z * Z * Z :=
  let z := (days + 719468)%Z in
  let era := Z.quot (if (0 <=? z)%Z then z else z - 146096)%Z 146097 in
  let day_of_era := (z - era * 146097)%Z in
  let year_of_era :=
    Z.quot (day_of_era - Z.quot day_of_era 1460 + Z.quot day_of_era 36524
            - Z.quot day_of_era 146096) 365 in
  let year := (year_of_era + era * 400)%Z in
  let day_of_year :=
    (day_of_era - (365 * year_of_era + Z.quot year_of_era 4 - Z.quot year_of_era 100))%Z in
  let month_prime := Z.quot (5 * day_of_year + 2) 153 in
  let day := (day_of_year - Z.quot (153 * month_prime + 2) 5 + 1)%Z in
  let month := (month_prime + if (month_prime <? 10)%Z then 3 else -9)%Z in
  let year := (year + if (month <=? 2)%Z then 1 else 0)%Z in
  (year, month, day).

Definition utc_day (timestamp : Z) : string :=
  let '(year, month, day) := civil_from_days (timestamp / 86400) in
  show_padded 4 year +:+ "-" +:+ show_padded 2 month +:+ "-" +:+ show_padded 2 day.

(** *** Maps *)

(** [BTreeMap::entry(key).or_default()], modified in place. *)
Fixpoint btree_update {A : Type} (key : string) (default : A) (f : A -> A) (m : list (string * A)) :
    list (string * A) :=
  match m with
  | [] => [(key, f default)]
  | (k, v) :: m =>
      match str_cmp key k with
      | Lt => (key, f default) :: (k, v) :: m
      | Eq => (k, f v) :: m
      | Gt => (k, v) :: btree_update key default f m
      end
  end.

(** [while map.len() > max { map.pop_first(); }], also for a [VecDeque]. *)
Fixpoint pop_while_longer {A : Type} (max : nat) (l : list A) : list A :=
  match l with
  | [] => []
  | x :: rest => if (max <? length l)%nat then pop_while_longer max rest else l
  end.

(** The key an entry of a bounded dimension is filed under. *)
Definition dimension_key {A : Type} (m : gmap string A) (key : string) : string :=
  if is_some (m !! key)
     || (negb (bool_decide (key = OTHER_USAGE_DIMENSION))
         && (size m <? MAX_USAGE_DIMENSION_KEYS - 1)%nat)
  then key
  else OTHER_USAGE_DIMENSION.

(** [entry(bounded_key).or_default()], modified in place. *)
Definition dimension_update {A : Type} (default : A) (f : A -> A) (key : string)
    (m : gmap string A) : gmap string A :=
  let k := dimension_key m key in
  <[k := f (unwrap_or (m !! k) default)]> m.

Abbreviation dimension := (gmap string UsageBucket).

Definition usage_dimension_entry (f : UsageBucket -> UsageBucket) (key : string) (m : dimension) :
    dimension :=
  dimension_update UsageBucket_default f key m.

Record ProviderApiKeyUsage := {
  pu_total : UsageBucket;
  pu_daily : list (string * UsageBucket);
  pu_by_model : dimension;
  pu_by_original_model : dimension;
  pu_by_kiro_model : dimension;
  pu_by_path : dimension;
}.

Definition ProviderApiKeyUsage_default : ProviderApiKeyUsage :=
  {| pu_total := UsageBucket_default; pu_daily := []; pu_by_model := ∅;
     pu_by_original_model := ∅; pu_by_kiro_model := ∅; pu_by_path := ∅ |}.

Record ApiKeyUsage := {
  total_requests : Z;
  total_credits : f64;
  total_input_tokens : Z;
  total_output_tokens : Z;
  daily : list (string * UsageBucket);
  by_provider : dimension;
  provider_details : gmap string ProviderApiKeyUsage;
  by_model : dimension;
  by_original_model : dimension;
  by_kiro_model : dimension;
  by_path : dimension;
  usage_history : list UsageRecord;
}.

Definition ApiKeyUsage_default : ApiKeyUsage :=
  {| total_requests := 0; total_credits := F64.zero; total_input_tokens := 0;
     total_output_tokens := 0; daily := []; by_provider := ∅; provider_details := ∅;
     by_model := ∅; by_original_model := ∅; by_kiro_model := ∅; by_path := ∅;
     usage_history := [] |}.

Definition provider_usage_entry (f : ProviderApiKeyUsage -> ProviderApiKeyUsage)
    (provider : string) (m : gmap string ProviderApiKeyUsage) : gmap string ProviderApiKeyUsage :=
  dimension_update ProviderApiKeyUsage_default f provider m.

Definition daily_add (r : UsageRecord) (m : list (string * UsageBucket)) :
    list (string * UsageBucket) :=
  pop_while_longer MAX_USAGE_DAYS
    (btree_update (utc_day (u_timestamp r)) UsageBucket_default (bucket_add r) m).

Definition opt_dimension_add (r : UsageRecord) (key : option string) (m : dimension) : dimension :=
  match key with Some k => usage_dimension_entry (bucket_add r) k m | None => m end.

Definition provider_usage_add (r : UsageRecord) (u : ProviderApiKeyUsage) : ProviderApiKeyUsage :=
  {| pu_total := bucket_add r (pu_total u);
     pu_daily := daily_add r (pu_daily u);
     pu_by_model := usage_dimension_entry (bucket_add r) (u_model r) (pu_by_model u);
     pu_by_original_model := opt_dimension_add r (u_original_model r) (pu_by_original_model u);
     pu_by_kiro_model := opt_dimension_add r (u_kiro_model r) (pu_by_kiro_model u);
     pu_by_path := usage_dimension_entry (bucket_add r) (u_path r) (pu_by_path u) |}.

(** The provider a record counts for; records without one are Kiro's. *)
Definition record_provider (r : UsageRecord) : string :=
  if is_empty (u_provider_id r) then "kiro" else u_provider_id r.

Definition usage_add (r : UsageRecord) (u : ApiKeyUsage) : ApiKeyUsage :=
  let provider := record_provider r in
  {| total_requests := wrap_u64 (total_requests u + 1);
     total_credits := F64.add (total_credits u) (u_credits r);
     total_input_tokens := wrap_u64 (total_input_tokens u + u_input_tokens r);
     total_output_tokens := wrap_u64 (total_output_tokens u + u_output_tokens r);
     daily := daily_add r (daily u);
     by_provider := usage_dimension_entry (bucket_add r) provider (by_provider u);
     provider_details :=
       provider_usage_entry (provider_usage_add r) provider (provider_details u);
     by_model := usage_dimension_entry (bucket_add r) (u_model r) (by_model u);
     by_original_model := opt_dimension_add r (u_original_model r) (by_original_model u);
     by_kiro_model := opt_dimension_add r (u_kiro_model r) (by_kiro_model u);
     by_path := usage_dimension_entry (bucket_add r) (u_path r) (by_path u);
     usage_history := pop_while_longer MAX_HISTORY (usage_history u ++ [r]) |}.

Definition migrate_legacy_kiro_dimensions (u : ApiKeyUsage) : ApiKeyUsage :=
  if (total_requests u =? 0)%Z || negb (bool_decide (by_provider u = ∅))
     || negb (bool_decide (dom (provider_details u) = ∅))
  then u
  else
    let total :=
      {| b_requests := total_requests u; b_credits := total_credits u;
         b_input_tokens := total_input_tokens u; b_output_tokens := total_output_tokens u |} in
    {| total_requests := total_requests u; total_credits := total_credits u;
       total_input_tokens := total_input_tokens u; total_output_tokens := total_output_tokens u;
       daily := daily u;
       by_provider := <["kiro" := total]> (by_provider u);
       provider_details :=
         <["kiro" :=
             {| pu_total := total; pu_daily := daily u; pu_by_model := by_model u;
                pu_by_original_model := by_original_model u; pu_by_kiro_model := by_kiro_model u;
                pu_by_path := by_path u |}]> (provider_details u);
       by_model := by_model u; by_original_model := by_original_model u;
       by_kiro_model := by_kiro_model u; by_path := by_path u;
       usage_history := usage_history u |}.

Definition retain_provider (provider : string) (u : ApiKeyUsage) : ApiKeyUsage :=
  let fallback := unwrap_or (by_provider u !! provider) UsageBucket_default in
  let details := provider_details u !! provider in
  let total := match details with Some d => pu_total d | None => fallback end in
  let field {A : Type} (f : ProviderApiKeyUsage -> A) (none : A) : A :=
    match details with Some d => f d | None => none end in
  {| total_requests := b_requests total; total_credits := b_credits total;
     total_input_tokens := b_input_tokens total; total_output_tokens := b_output_tokens total;
     daily := field pu_daily [];
     by_provider := filter (fun e => e.1 = provider) (by_provider u);
     provider_details := filter (fun e => e.1 = provider) (provider_details u);
     by_model := field pu_by_model ∅;
     by_original_model := field pu_by_original_model ∅;
     by_kiro_model := field pu_by_kiro_model ∅;
     by_path := field pu_by_path ∅;
     usage_history := filter (fun r => record_provider r = provider) (usage_history u) |}.

Section Iteration.
Context (iter : forall A : Type, gmap string A -> list (string * A)).

(** [for (key, bucket) in entries { entry(target, key).merge(bucket) }] *)
Definition merge_entries (entries : list (string * UsageBucket)) (target : dimension) :
    dimension :=
  foldl (fun m e => usage_dimension_entry (bucket_merge e.2) e.1 m) target entries.

Definition merge_usage_dimensions (source target : dimension) : dimension :=
  merge_entries (iter _ source) target.

Definition bound_usage_dimensions (m : dimension) : dimension :=
  if (size m <? MAX_USAGE_DIMENSION_KEYS)%nat then m else merge_entries (iter _ m) ∅.

Definition provider_usage_merge (other u : ProviderApiKeyUsage) : ProviderApiKeyUsage :=
  {| pu_total := bucket_merge (pu_total other) (pu_total u);
     pu_daily :=
       pop_while_longer MAX_USAGE_DAYS
         (foldl (fun m e => btree_update e.1 UsageBucket_default (bucket_merge e.2) m)
            (pu_daily u) (pu_daily other));
     pu_by_model := merge_usage_dimensions (pu_by_model other) (pu_by_model u);
     pu_by_original_model :=
       merge_usage_dimensions (pu_by_original_model other) (pu_by_original_model u);
     pu_by_kiro_model := merge_usage_dimensions (pu_by_kiro_model other) (pu_by_kiro_model u);
     pu_by_path := merge_usage_dimensions (pu_by_path other) (pu_by_path u) |}.

Definition provider_usage_bound (u : ProviderApiKeyUsage) : ProviderApiKeyUsage :=
  {| pu_total := pu_total u;
     pu_daily := pop_while_longer MAX_USAGE_DAYS (pu_daily u);
     pu_by_model := bound_usage_dimensions (pu_by_model u);
     pu_by_original_model := bound_usage_dimensions (pu_by_original_model u);
     pu_by_kiro_model := bound_usage_dimensions (pu_by_kiro_model u);
     pu_by_path := bound_usage_dimensions (pu_by_path u) |}.

Definition bound_provider_usage (m : gmap string ProviderApiKeyUsage) :
    gmap string ProviderApiKeyUsage :=
  if (size m <? MAX_USAGE_DIMENSION_KEYS)%nat then provider_usage_bound <$> m
  else
    provider_usage_bound <$>
      foldl (fun m e => provider_usage_entry (provider_usage_merge e.2) e.1 m) ∅ (iter _ m).

Definition usage_bound (u : ApiKeyUsage) : ApiKeyUsage :=
  {| total_requests := total_requests u; total_credits := total_credits u;
     total_input_tokens := total_input_tokens u; total_output_tokens := total_output_tokens u;
     daily := pop_while_longer MAX_USAGE_DAYS (daily u);
     by_provider := bound_usage_dimensions (by_provider u);
     provider_details := bound_provider_usage (provider_details u);
     by_model := bound_usage_dimensions (by_model u);
     by_original_model := bound_usage_dimensions (by_original_model u);
     by_kiro_model := bound_usage_dimensions (by_kiro_model u);
     by_path := bound_usage_dimensions (by_path u);
     usage_history := pop_while_longer MAX_HISTORY (usage_history u) |}.
End Iteration.

(** ** The meter *)

Record KeyState := {
  ks_id : string;
  ks_config : ApiKeyConfig;
  ks_usage : ApiKeyUsage;
  ks_reserved : f64;
}.

Definition ks_set_reserved (s : KeyState) (x : f64) : KeyState :=
  {| ks_id := ks_id s; ks_config := ks_config s; ks_usage := ks_usage s; ks_reserved := x |}.

Definition ks_set_usage (s : KeyState) (u : ApiKeyUsage) : KeyState :=
  {| ks_id := ks_id s; ks_config := ks_config s; ks_usage := u; ks_reserved := ks_reserved s |}.

Record ServiceCreditState := { sv_day : string; sv_used : f64; sv_reserved : f64; sv_limit : f64 }.

Definition sv_set_reserved (s : ServiceCreditState) (x : f64) : ServiceCreditState :=
  {| sv_day := sv_day s; sv_used := sv_used s; sv_reserved := x; sv_limit := sv_limit s |}.

Definition sv_set_used (s : ServiceCreditState) (x : f64) : ServiceCreditState :=
  {| sv_day := sv_day s; sv_used := x; sv_reserved := sv_reserved s; sv_limit := sv_limit s |}.

Record ServiceDailyUsage := { sd_day : string; sd_used : f64 }.

Record Persisted := {
  ps_api_keys : gmap string ApiKeyUsage;
  ps_service_daily : ServiceDailyUsage;
}.

Definition Persisted_default : Persisted :=
  {| ps_api_keys := ∅; ps_service_daily := {| sd_day := ""; sd_used := F64.zero |} |}.

Record Meter := {
  m_keys : gmap string KeyState;
  m_service : ServiceCreditState;
  m_persist_scheduled : bool;
  m_dirty_generation : Z;
  m_recovery_error : option string;
}.

Definition with_keys (m : Meter) (k : gmap string KeyState) : Meter :=
  {| m_keys := k; m_service := m_service m; m_persist_scheduled := m_persist_scheduled m;
     m_dirty_generation := m_dirty_generation m; m_recovery_error := m_recovery_error m |}.

Definition with_service (m : Meter) (s : ServiceCreditState) : Meter :=
  {| m_keys := m_keys m; m_service := s; m_persist_scheduled := m_persist_scheduled m;
     m_dirty_generation := m_dirty_generation m; m_recovery_error := m_recovery_error m |}.

Definition with_recovery (m : Meter) (e : option string) : Meter :=
  {| m_keys := m_keys m; m_service := m_service m; m_persist_scheduled := m_persist_scheduled m;
     m_dirty_generation := m_dirty_generation m; m_recovery_error := e |}.

Record CreditReservation := { cr_key_id : option string; cr_estimate : f64 }.

Record AuthenticatedApiKey := {
  au_id : string;
  au_skip_user_agent_check : bool;
  au_allowed_providers : list string;
  au_allowed_models : list string;
}.

Record ApiKeyView := {
  v_id : string;
  v_name : string;
  v_enabled : bool;
  v_skip_user_agent_check : bool;
  v_credits_limit : option f64;
  v_allowed_providers : list string;
  v_allowed_models : list string;
  v_reserved_credits : f64;
  v_usage : ApiKeyUsage;
}.

Definition reset_service_day_if_needed (now : Z) (s : ServiceCreditState) : ServiceCreditState :=
  let today := utc_day now in
  if negb (bool_decide (sv_day s = today))
  then {| sv_day := today; sv_used := F64.zero; sv_reserved := sv_reserved s; sv_limit := sv_limit s |}
  else s.

(** [(reserved - amount).max(0.0)] *)
Definition release (reserved amount : f64) : f64 := F64.max (F64.sub reserved amount) F64.zero.

Fixpoint constant_time_loop (expected presented : list ascii) (difference : Z) (n i : nat) : Z :=
  match n with
  | 0 => difference
  | S n =>
      let byte (l : list ascii) : Z := unwrap_or (option_map code (l !! i)) 0%Z in
      constant_time_loop expected presented
        (Z.lor difference (Z.lxor (byte expected) (byte presented))) n (S i)
  end.

Definition constant_time_eq (expected presented : string) : bool :=
  let e := s2l expected in
  let p := s2l presented in
  let difference := Z.lxor (Z.of_nat (length e)) (Z.of_nat (length p)) in
  (constant_time_loop e p difference (Nat.max (length e) (length p)) 0 =? 0)%Z.

Section Operations.
Context (sha256 : string -> list ascii).
Context (iter : forall A : Type, gmap string A -> list (string * A)).

Definition key_id (key : string) : string :=
  foldl (fun output byte => output +:+ show_hex_byte byte) "ak_" (take 8 (sha256 key)).

Definition legacy_key_id (key : string) : string :=
  "ak_" +:+ foldl (fun output byte => output +:+ show_hex_byte byte) "" (take 2 (sha256 key)).

Definition config_id (c : ApiKeyConfig) : string :=
  match k_id c with Some id => id | None => key_id (k_key c) end.

(** [configs.iter().map(..).collect()]: a later entry replaces an earlier one. *)
Definition collect_keys (usage : ApiKeyConfig -> ApiKeyUsage) (configs : list ApiKeyConfig) :
    gmap string KeyState :=
  foldl (fun m c =>
           <[config_id c := {| ks_id := config_id c; ks_config := c; ks_usage := usage c;
                               ks_reserved := F64.zero |}]> m) ∅ configs.

Definition fail_closed (now : Z) (configs : list ApiKeyConfig) (error : string) : Meter :=
  {| m_keys := collect_keys (fun _ => ApiKeyUsage_default) configs;
     m_service := {| sv_day := utc_day now; sv_used := F64.zero; sv_reserved := F64.zero;
                     sv_limit := F64.zero |};
     m_persist_scheduled := false; m_dirty_generation := 0; m_recovery_error := Some error |}.

(** What reading and parsing the usage file gives. *)
Inductive ReadOutcome :=
| ReadParsed (p : Persisted)
| ReadBlank
| ReadNotFound
| ReadInvalid (message : string)
| ReadFailed (message : string).

Definition loaded_usage (persisted : Persisted) (c : ApiKeyConfig) : ApiKeyUsage :=
  let stored := ps_api_keys persisted in
  let usage :=
    unwrap_or
      (or_else (stored !! config_id c)
         (if is_none (k_id c) then stored !! legacy_key_id (k_key c) else None))
      ApiKeyUsage_default in
  usage_bound iter (migrate_legacy_kiro_dimensions usage).

Definition load (now : Z) (read : ReadOutcome) (configs : list ApiKeyConfig) :
    result Meter MeterError :=
  let? persisted :=
    match read with
    | ReadParsed p => Ok p
    | ReadBlank | ReadNotFound => Ok Persisted_default
    | ReadInvalid message | ReadFailed message => Err (Persist message)
    end in
  let today := utc_day now in
  let service_used :=
    if bool_decide (sd_day (ps_service_daily persisted) = today)
    then F64.max (sd_used (ps_service_daily persisted)) F64.zero
    else F64.zero in
  Ok {| m_keys := collect_keys (loaded_usage persisted) configs;
        m_service := {| sv_day := today; sv_used := service_used; sv_reserved := F64.zero;
                        sv_limit := F64.zero |};
        m_persist_scheduled := false; m_dirty_generation := 0; m_recovery_error := None |}.

Definition set_daily_limit (limit : f64) (m : Meter) : Meter :=
  let s := m_service m in
  with_service m
    {| sv_day := sv_day s; sv_used := sv_used s; sv_reserved := sv_reserved s;
       sv_limit := F64.max limit F64.zero |}.

Definition recovery_message (error : string) : string :=
  "metering is in fail-closed recovery mode: " +:+ error.

Definition persisted_of (m : Meter) : Persisted :=
  {| ps_api_keys := ks_usage <$> m_keys m;
     ps_service_daily := {| sd_day := sv_day (m_service m); sd_used := sv_used (m_service m) |} |}.

Definition persist (write : Persisted -> result unit string) (m : Meter) : result unit MeterError :=
  match m_recovery_error m with
  | Some error => Err (Persist (recovery_message error))
  | None => match write (persisted_of m) with Ok _ => Ok tt | Err e => Err (Persist e) end
  end.

Definition reset_daily (write : Persisted -> result unit string) (now : Z) (m : Meter) :
    Meter * result unit MeterError :=
  let previous_recovery := m_recovery_error m in
  let m := with_recovery m None in
  let s := m_service m in
  let m :=
    with_service m
      {| sv_day := utc_day now; sv_used := F64.zero; sv_reserved := sv_reserved s;
         sv_limit := sv_limit s |} in
  match persist write m with
  | Err error =>
      (match previous_recovery with
       | Some previous => with_recovery m (Some previous)
       | None => m
       end, Err error)
  | Ok _ => (m, Ok tt)
  end.

Definition authenticate (m : Meter) (presented : option string) :
    result (option AuthenticatedApiKey) MeterError :=
  if bool_decide (dom (m_keys m) = ∅) then Ok None
  else
    match presented with
    | None => Err Unauthorized
    | Some presented =>
        match head (filter (fun e => k_enabled (ks_config e.2)
                              && constant_time_eq (k_key (ks_config e.2)) presented = true)
                      (iter _ (m_keys m))) with
        | Some (_, s) =>
            Ok (Some {| au_id := ks_id s;
                        au_skip_user_agent_check := k_skip_user_agent_check (ks_config s);
                        au_allowed_providers := k_allowed_providers (ks_config s);
                        au_allowed_models := k_allowed_models (ks_config s) |})
        | None => Err Unauthorized
        end
    end.

(** The service's part of a reservation of [amount]. *)
Definition reserve_service (now : Z) (amount : f64) (s : ServiceCreditState) :
    ServiceCreditState * bool :=
  let s := reset_service_day_if_needed now s in
  if F64.gtb (sv_limit s) F64.zero
     && F64.gtb (F64.add (F64.add (sv_used s) (sv_reserved s)) amount) (sv_limit s)
  then (s, false)
  else (sv_set_reserved s (F64.add (sv_reserved s) amount), true).

(** The key's part, which gives the service's part back when it fails. *)
Definition reserve_key (key : option string) (amount : f64) (m : Meter) :
    Meter * result unit MeterError :=
  match key with
  | None => (m, Ok tt)
  | Some id =>
      let s := m_service m in
      let back := with_service m (sv_set_reserved s (release (sv_reserved s) amount)) in
      match m_keys m !! id with
      | None => (back, Err Unauthorized)
      | Some state =>
          if is_some_and (k_credits_limit (ks_config state))
               (fun limit =>
                  F64.gtb (F64.add (F64.add (total_credits (ks_usage state)) (ks_reserved state))
                             amount) limit)
          then (back, Err LimitExceeded)
          else
            (with_keys m
               (<[id := ks_set_reserved state (F64.add (ks_reserved state) amount)]> (m_keys m)),
             Ok tt)
      end
  end.

Definition reserve (now : Z) (key : option string) (estimate : f64) (m : Meter) :
    Meter * result CreditReservation MeterError :=
  match m_recovery_error m with
  | Some error => (m, Err (Persist (recovery_message error)))
  | None =>
      let estimate := F64.max estimate F64.zero in
      let '(s, admitted) := reserve_service now estimate (m_service m) in
      let m := with_service m s in
      if negb admitted then (m, Err DailyLimitExceeded)
      else
        let '(m, r) := reserve_key key estimate m in
        (m, let? _ := r in Ok {| cr_key_id := key; cr_estimate := estimate |})
  end.

Definition extend (now : Z) (additional : f64) (c : CreditReservation) (m : Meter) :
    Meter * CreditReservation * result unit MeterError :=
  let additional := F64.max additional F64.zero in
  if F64.eqb additional F64.zero then (m, c, Ok tt)
  else
    let '(s, admitted) := reserve_service now additional (m_service m) in
    let m := with_service m s in
    if negb admitted then (m, c, Err DailyLimitExceeded)
    else
      let '(m, r) := reserve_key (cr_key_id c) additional m in
      match r with
      | Err e => (m, c, Err e)
      | Ok _ =>
          (m, {| cr_key_id := cr_key_id c; cr_estimate := F64.add (cr_estimate c) additional |},
           Ok tt)
      end.

(** [Drop] of a reservation that was not settled. *)
Definition drop_reservation (c : CreditReservation) (m : Meter) : Meter :=
  let s := m_service m in
  let m := with_service m (sv_set_reserved s (release (sv_reserved s) (cr_estimate c))) in
  match cr_key_id c with
  | None => m
  | Some id =>
      with_keys m
        (alter (fun k => ks_set_reserved k (release (ks_reserved k) (cr_estimate c))) id
           (m_keys m))
  end.

(** The synchronous part of [mark_dirty]; the flag says whether the
    persisting task is spawned. *)
Definition mark_dirty (m : Meter) : Meter * bool :=
  ({| m_keys := m_keys m; m_service := m_service m; m_persist_scheduled := true;
      m_dirty_generation := wrap_u64 (m_dirty_generation m + 1);
      m_recovery_error := m_recovery_error m |},
   negb (m_persist_scheduled m)).

Definition settle (write : Persisted -> result unit string) (now : Z) (c : CreditReservation)
    (record : UsageRecord) (m : Meter) : Meter * result unit MeterError :=
  let s := reset_service_day_if_needed now (m_service m) in
  let s := sv_set_reserved s (release (sv_reserved s) (cr_estimate c)) in
  let s := sv_set_used s (F64.add (sv_used s) (F64.max (u_credits record) F64.zero)) in
  let m := with_service m s in
  let durable := F64.gtb (sv_limit s) F64.zero in
  let '(m, durable) :=
    match cr_key_id c with
    | None => (m, durable)
    | Some id =>
        match m_keys m !! id with
        | None => (m, durable)
        | Some state =>
            let state := ks_set_reserved state (release (ks_reserved state) (cr_estimate c)) in
            let state := ks_set_usage state (usage_add record (ks_usage state)) in
            (with_keys m (<[id := state]> (m_keys m)),
             durable || is_some (k_credits_limit (ks_config state)))
        end
    end in
  if durable then (m, persist write m) else (fst (mark_dirty m), Ok tt).

Definition view_le (x y : ApiKeyView) : bool :=
  match
    match str_cmp (to_ascii_lowercase (v_name x)) (to_ascii_lowercase (v_name y)) with
    | Eq => match str_cmp (v_name x) (v_name y) with
            | Eq => str_cmp (v_id x) (v_id y)
            | c => c
            end
    | c => c
    end
  with Gt => false | _ => true end.

Definition list_keys (m : Meter) : list ApiKeyView :=
  sort_by view_le
    ((fun e : string * KeyState =>
        let s := e.2 in
        {| v_id := ks_id s; v_name := k_name (ks_config s); v_enabled := k_enabled (ks_config s);
           v_skip_user_agent_check := k_skip_user_agent_check (ks_config s);
           v_credits_limit := k_credits_limit (ks_config s);
           v_allowed_providers := k_allowed_providers (ks_config s);
           v_allowed_models := k_allowed_models (ks_config s);
           v_reserved_credits := ks_reserved s; v_usage := ks_usage s |})
       <$> iter _ (m_keys m)).

Definition reset_usage (write : Persisted -> result unit string) (id_or_name : string)
    (m : Meter) : Meter * result bool MeterError :=
  match head (filter (fun e => ks_id e.2 = id_or_name \/ k_name (ks_config e.2) = id_or_name)
                (iter _ (m_keys m))) with
  | None => (m, Ok false)
  | Some (id, _) =>
      let m := with_keys m (alter (fun s => ks_set_usage s ApiKeyUsage_default) id (m_keys m)) in
      (m, let? _ := persist write m in Ok true)
  end.

(** One configuration takes its key's usage and reservations along. *)
Definition replace_config (acc : gmap string KeyState * gmap string KeyState) (c : ApiKeyConfig) :
    gmap string KeyState * gmap string KeyState :=
  let '(keys, next) := acc in
  let id := config_id c in
  let old := keys !! id in
  (delete id keys,
   <[id := {| ks_id := id; ks_config := c;
              ks_usage := unwrap_or (option_map ks_usage old) ApiKeyUsage_default;
              ks_reserved := unwrap_or (option_map ks_reserved old) F64.zero |}]> next).

Definition replace_configs (configs : list ApiKeyConfig) (m : Meter) : Meter :=
  with_keys m (snd (foldl replace_config (m_keys m, ∅) configs)).
End Operations.
