(* ===== verification/MeterFacts.v ===== *)
(** * Facts about the meter

    The ledger of reservations, the bounds and the conservation of the usage
    statistics, authentication, and the calendar. *)

From Stdlib Require Import ZArith Lia Ascii String.
From stdpp Require Import base list gmap strings relations.
From S2P Require Import Prelude RustStr F64 Json Meter.

Local Open Scope string_scope.
Local Open Scope list_scope.

(** ** Bounded dimensions *)

Section Dimensions.
Context {A : Type}.
Implicit Types (m : gmap string A).

(** At most 255 named keys, besides ["other"]. *)
Definition dim_ok m : Prop := size (delete OTHER_USAGE_DIMENSION m) <= 255.

Lemma dim_ok_size m : dim_ok m -> size m <= MAX_USAGE_DIMENSION_KEYS.
Proof.
  unfold dim_ok, MAX_USAGE_DIMENSION_KEYS. rewrite map_size_delete.
  case_match; simpl; intros; lia.
Qed.

Lemma dim_ok_small m : size m < MAX_USAGE_DIMENSION_KEYS -> dim_ok m.
Proof.
  unfold dim_ok, MAX_USAGE_DIMENSION_KEYS. rewrite map_size_delete.
  case_match; simpl; intros; lia.
Qed.

Lemma dim_ok_empty : dim_ok ∅.
Proof. apply dim_ok_small. rewrite map_size_empty. unfold MAX_USAGE_DIMENSION_KEYS. lia. Qed.

Lemma dimension_update_ok default f key m : dim_ok m -> dim_ok (dimension_update default f key m).
Proof.
  intros Hok. unfold dimension_update, dimension_key.
  destruct (m !! key) as [v|] eqn:Hk; simpl.
  - destruct (decide (key = OTHER_USAGE_DIMENSION)) as [->|Hne]; unfold dim_ok.
    + by rewrite delete_insert_eq.
    + rewrite delete_insert_ne by done. rewrite map_size_insert_Some; [done|].
      rewrite lookup_delete_ne by done. by exists v.
  - destruct (negb _ && _) eqn:E; unfold dim_ok; [|by rewrite delete_insert_eq].
    bool_simpl. apply Nat.ltb_lt in H0. unfold MAX_USAGE_DIMENSION_KEYS in H0.
    rewrite delete_insert_ne by done. rewrite map_size_insert_None.
    + rewrite map_size_delete. case_match; simpl; lia.
    + by rewrite lookup_delete_ne.
Qed.
End Dimensions.

Lemma usage_dimension_ok f key m : dim_ok m -> dim_ok (usage_dimension_entry f key m).
Proof. apply dimension_update_ok. Qed.

Lemma provider_usage_ok f key m : dim_ok m -> dim_ok (provider_usage_entry f key m).
Proof. apply dimension_update_ok. Qed.

Lemma merge_entries_ok entries m : dim_ok m -> dim_ok (merge_entries entries m).
Proof.
  revert m. induction entries as [|e entries IH]; intros m Hm; [done|].
  apply IH, dimension_update_ok, Hm.
Qed.

Lemma pop_while_longer_length {A} max (l : list A) : length (pop_while_longer max l) <= max.
Proof.
  induction l as [|x l IH]; cbn [pop_while_longer]; [simpl; lia|].
  destruct (max <? length (x :: l))%nat eqn:E; [done|]. by apply Nat.ltb_ge in E.
Qed.

Section Bounds.
Context (iter : forall A : Type, gmap string A -> list (string * A)).

Lemma bound_usage_dimensions_ok m : dim_ok (bound_usage_dimensions iter m).
Proof.
  unfold bound_usage_dimensions. destruct (_ <? _)%nat eqn:E.
  - apply dim_ok_small. by apply Nat.ltb_lt in E.
  - apply merge_entries_ok, dim_ok_empty.
Qed.

Record provider_ok (u : ProviderApiKeyUsage) : Prop := {
  po_daily : length (pu_daily u) <= MAX_USAGE_DAYS;
  po_model : dim_ok (pu_by_model u);
  po_original : dim_ok (pu_by_original_model u);
  po_kiro : dim_ok (pu_by_kiro_model u);
  po_path : dim_ok (pu_by_path u);
}.

(** Everything kept for one API key is bounded. *)
Record usage_ok (u : ApiKeyUsage) : Prop := {
  uo_daily : length (daily u) <= MAX_USAGE_DAYS;
  uo_provider : dim_ok (by_provider u);
  uo_details : dim_ok (provider_details u);
  uo_each : map_Forall (fun _ d => provider_ok d) (provider_details u);
  uo_model : dim_ok (by_model u);
  uo_original : dim_ok (by_original_model u);
  uo_kiro : dim_ok (by_kiro_model u);
  uo_path : dim_ok (by_path u);
  uo_history : length (usage_history u) <= MAX_HISTORY;
}.

Lemma opt_dimension_ok r key m : dim_ok m -> dim_ok (opt_dimension_add r key m).
Proof. destruct key; [apply dimension_update_ok|done]. Qed.

Lemma provider_add_ok r u : provider_ok u -> provider_ok (provider_usage_add r u).
Proof.
  intros []. constructor; simpl; auto using usage_dimension_ok, provider_usage_ok, opt_dimension_ok.
  apply pop_while_longer_length.
Qed.

Lemma provider_default_ok : provider_ok ProviderApiKeyUsage_default.
Proof. constructor; simpl; try apply dim_ok_empty. unfold MAX_USAGE_DAYS. lia. Qed.

Lemma usage_add_ok r u : usage_ok u -> usage_ok (usage_add r u).
Proof.
  intros []. constructor; simpl; auto using usage_dimension_ok, provider_usage_ok, opt_dimension_ok;
    try apply pop_while_longer_length.
  apply map_Forall_insert_2; [|done]. apply provider_add_ok.
  destruct (provider_details u !! _) eqn:E; simpl; [by eapply uo_each0|apply provider_default_ok].
Qed.

Lemma usage_default_ok : usage_ok ApiKeyUsage_default.
Proof.
  constructor; simpl; try apply dim_ok_empty; try done;
    unfold MAX_USAGE_DAYS, MAX_HISTORY; lia.
Qed.

Lemma provider_bound_ok u : provider_ok (provider_usage_bound iter u).
Proof.
  constructor; simpl; auto using bound_usage_dimensions_ok. apply pop_while_longer_length.
Qed.

Lemma fmap_dim_ok {A B} (f : A -> B) (m : gmap string A) : dim_ok m -> dim_ok (f <$> m).
Proof. unfold dim_ok. by rewrite <- fmap_delete, map_size_fmap. Qed.

Lemma merge_providers_ok entries m :
  dim_ok m ->
  dim_ok (foldl (fun m e => provider_usage_entry (provider_usage_merge iter e.2) e.1 m) m entries).
Proof.
  revert m. induction entries as [|e entries IH]; intros m Hm; [done|].
  apply IH, dimension_update_ok, Hm.
Qed.

Lemma usage_bound_ok u : usage_ok (usage_bound iter u).
Proof.
  constructor; simpl; auto using bound_usage_dimensions_ok;
    try apply pop_while_longer_length; unfold bound_provider_usage.
  - destruct (_ <? _)%nat eqn:E; apply fmap_dim_ok.
    + apply dim_ok_small. by apply Nat.ltb_lt in E.
    + apply merge_providers_ok, dim_ok_empty.
  - destruct (_ <? _)%nat; apply map_Forall_fmap; intros k d _; apply provider_bound_ok.
Qed.
End Bounds.

(** ** Conservation *)

(** The requests counted over all keys of a dimension. *)
Definition requests (m : dimension) : Z := map_fold (fun _ b n => b_requests b + n)%Z 0%Z m.

Lemma requests_empty : requests ∅ = 0%Z.
Proof. apply map_fold_empty. Qed.

Lemma requests_insert_new k b m : m !! k = None -> requests (<[k := b]> m) = (b_requests b + requests m)%Z.
Proof.
  intros Hk. unfold requests.
  rewrite (map_fold_insert_L _ _ _ _ m); [done| |done]. intros. lia.
Qed.

Lemma requests_delete k b m : m !! k = Some b -> requests m = (b_requests b + requests (delete k m))%Z.
Proof.
  intros Hk. rewrite <- (insert_delete_id m k b Hk) at 1.
  apply requests_insert_new. apply lookup_delete_eq.
Qed.

Lemma requests_insert k b m :
  requests (<[k := b]> m) =
    (requests m + (b_requests b - b_requests (unwrap_or (m !! k) UsageBucket_default)))%Z.
Proof.
  destruct (m !! k) as [b0|] eqn:Hk; simpl.
  - rewrite (requests_delete k b0 m Hk), (requests_delete k b (<[k := b]> m))
      by apply lookup_insert_eq.
    rewrite delete_insert_eq. lia.
  - rewrite requests_insert_new by done. lia.
Qed.

(** Counters are [u64]s. *)
Definition dim_u64 (m : dimension) : Prop := map_Forall (fun _ b => (0 <= b_requests b)%Z) m.

Lemma requests_nonneg m : dim_u64 m -> (0 <= requests m)%Z.
Proof.
  induction m as [|k b m Hk IH] using map_ind; intros Hm.
  { rewrite requests_empty. lia. }
  rewrite requests_insert_new by done. apply map_Forall_insert in Hm as [Hb Hm]; [|done].
  specialize (IH Hm). lia.
Qed.

Lemma requests_lookup m k :
  dim_u64 m ->
  (0 <= b_requests (unwrap_or (m !! k) UsageBucket_default) <= requests m)%Z.
Proof.
  intros Hm. destruct (m !! k) as [b|] eqn:Hk; simpl.
  - rewrite (requests_delete k b m Hk).
    pose proof (requests_nonneg _ (map_Forall_delete _ m k Hm)). specialize (Hm _ _ Hk). simpl in Hm. lia.
  - pose proof (requests_nonneg m Hm). lia.
Qed.

Lemma requests_add r key m :
  dim_u64 m -> (requests m < U64_MAX)%Z ->
  requests (usage_dimension_entry (bucket_add r) key m) = (requests m + 1)%Z
  /\ dim_u64 (usage_dimension_entry (bucket_add r) key m).
Proof.
  intros Hm Hlt. unfold usage_dimension_entry, dimension_update. set (k := dimension_key m key).
  pose proof (requests_lookup m k Hm) as Hk.
  assert (Hw : b_requests (bucket_add r (unwrap_or (m !! k) UsageBucket_default)) =
    (b_requests (unwrap_or (m !! k) UsageBucket_default) + 1)%Z).
  { simpl. apply wrap_u64_small. lia. }
  rewrite requests_insert, Hw. split; [lia|]. apply map_Forall_insert_2; [lia|done].
Qed.

Lemma requests_merge b key m :
  dim_u64 m -> (0 <= b_requests b)%Z -> (requests m + b_requests b <= U64_MAX)%Z ->
  requests (usage_dimension_entry (bucket_merge b) key m) = (requests m + b_requests b)%Z
  /\ dim_u64 (usage_dimension_entry (bucket_merge b) key m).
Proof.
  intros Hm Hb Hle. unfold usage_dimension_entry, dimension_update. set (k := dimension_key m key).
  pose proof (requests_lookup m k Hm) as Hk.
  assert (Hw : b_requests (bucket_merge b (unwrap_or (m !! k) UsageBucket_default)) =
    (b_requests (unwrap_or (m !! k) UsageBucket_default) + b_requests b)%Z).
  { simpl. unfold sat_add. lia. }
  rewrite requests_insert, Hw. split; [lia|]. apply map_Forall_insert_2; [lia|done].
Qed.

Definition sum_requests (entries : list (string * UsageBucket)) : Z :=
  foldr (fun e n => b_requests e.2 + n)%Z 0%Z entries.

Lemma sum_requests_perm k l : k ≡ₚ l -> sum_requests k = sum_requests l.
Proof. induction 1; simpl in *; lia. Qed.

Lemma sum_requests_map m : sum_requests (map_to_list m) = requests m.
Proof.
  unfold requests. rewrite map_fold_foldr. unfold sum_requests.
  induction (map_to_list m) as [|[k b] l IH]; simpl; [done|]. by rewrite IH.
Qed.

Lemma merge_entries_requests entries m :
  dim_u64 m -> Forall (fun e => 0 <= b_requests e.2)%Z entries ->
  (requests m + sum_requests entries <= U64_MAX)%Z ->
  requests (merge_entries entries m) = (requests m + sum_requests entries)%Z
  /\ dim_u64 (merge_entries entries m).
Proof.
  intros Hm Hall. revert m Hm. induction Hall as [|[k b] entries Hb Hall IH]; intros m Hm Hle.
  { simpl in *. split; [lia|done]. }
  assert (Hsum : (0 <= sum_requests entries)%Z).
  { clear -Hall. induction Hall; simpl in *; lia. }
  simpl in Hle, Hb. destruct (requests_merge b k m) as [Hr Hd]; [done|done|lia|].
  destruct (IH _ Hd) as [Hr' Hd']; [lia|]. simpl. split; [|exact Hd'].
  transitivity (requests (usage_dimension_entry (bucket_merge b) k m) + sum_requests entries)%Z;
    [exact Hr'|lia].
Qed.

Lemma bound_requests (iter : forall A, gmap string A -> list (string * A)) m :
  (forall A (m : gmap string A), iter A m ≡ₚ map_to_list m) ->
  dim_u64 m -> (requests m <= U64_MAX)%Z ->
  requests (bound_usage_dimensions iter m) = requests m
  /\ dim_u64 (bound_usage_dimensions iter m).
Proof.
  intros Hiter Hm Hle. unfold bound_usage_dimensions. destruct (_ <? _)%nat; [done|].
  assert (Hsum : sum_requests (iter _ m) = requests m)
    by (rewrite <- sum_requests_map; by apply sum_requests_perm).
  destruct (merge_entries_requests (iter _ m) ∅) as [Hr Hd].
  - apply map_Forall_empty.
  - rewrite Hiter. apply Forall_forall. intros [k b] Hin%elem_of_map_to_list. by apply (Hm _ _ Hin).
  - rewrite requests_empty, Hsum. done.
  - rewrite Hr, requests_empty, Hsum. done.
Qed.

(** The breakdowns by provider, model and path each account for every request. *)
Record breakdown_ok (u : ApiKeyUsage) : Prop := {
  bo_provider_u64 : dim_u64 (by_provider u);
  bo_model_u64 : dim_u64 (by_model u);
  bo_path_u64 : dim_u64 (by_path u);
  bo_provider : requests (by_provider u) = total_requests u;
  bo_model : requests (by_model u) = total_requests u;
  bo_path : requests (by_path u) = total_requests u;
}.

Lemma usage_add_breakdown r u :
  breakdown_ok u -> (total_requests u < U64_MAX)%Z ->
  breakdown_ok (usage_add r u) /\ total_requests (usage_add r u) = (total_requests u + 1)%Z.
Proof.
  intros [Hp Hm Hq Ep Em Eq] Hlt.
  assert (Hw : wrap_u64 (total_requests u + 1) = (total_requests u + 1)%Z).
  { apply wrap_u64_small. pose proof (requests_nonneg _ Hp). lia. }
  destruct (requests_add r (record_provider r) (by_provider u)) as [Hp' Dp]; [done|lia|].
  destruct (requests_add r (u_model r) (by_model u)) as [Hm' Dm]; [done|lia|].
  destruct (requests_add r (u_path r) (by_path u)) as [Hq' Dq]; [done|lia|].
  split; [|exact Hw]. constructor; simpl; try done; rewrite Hw; lia.
Qed.

Lemma usage_bound_breakdown iter u :
  (forall A (m : gmap string A), iter A m ≡ₚ map_to_list m) ->
  breakdown_ok u -> (total_requests u <= U64_MAX)%Z -> breakdown_ok (usage_bound iter u).
Proof.
  intros Hiter [Hp Hm Hq Ep Em Eq] Hle.
  destruct (bound_requests iter (by_provider u) Hiter Hp) as [Rp Dp]; [lia|].
  destruct (bound_requests iter (by_model u) Hiter Hm) as [Rm Dm]; [lia|].
  destruct (bound_requests iter (by_path u) Hiter Hq) as [Rq Dq]; [lia|].
  constructor; simpl; first [done|congruence].
Qed.

(** What is kept for an API key is bounded whatever is recorded: starting
    from any usage read from disk, after any sequence of requests, at most 366
    days, 100 history entries and 256 keys per dimension are kept, also inside
    the breakdown of each provider. *)
Theorem usage_bounded (iter : forall A : Type, gmap string A -> list (string * A))
    (stored : ApiKeyUsage) (records : list UsageRecord) :
  let u := foldl (fun u r => usage_add r u)
             (usage_bound iter (migrate_legacy_kiro_dimensions stored)) records in
  usage_ok u
  /\ size (by_provider u) <= 256 /\ size (provider_details u) <= 256
  /\ size (by_model u) <= 256 /\ size (by_original_model u) <= 256
  /\ size (by_kiro_model u) <= 256 /\ size (by_path u) <= 256.
Proof.
  intros u. assert (Hok : usage_ok u).
  { unfold u. generalize (usage_bound_ok iter (migrate_legacy_kiro_dimensions stored)).
    generalize (usage_bound iter (migrate_legacy_kiro_dimensions stored)).
    induction records as [|r records IH]; intros v Hv; [done|]. apply IH, usage_add_ok, Hv. }
  split; [done|]. destruct Hok. split_and!; by apply dim_ok_size.
Qed.

(** Bounding the statistics loses no request: through any sequence of
    requests and a final bounding, whatever order the maps are iterated in, the
    breakdowns by provider, by model and by path still add up to the total,
    which has grown by the number of requests. *)
Theorem usage_conserved (iter : forall A : Type, gmap string A -> list (string * A))
    (u : ApiKeyUsage) (records : list UsageRecord) :
  (forall A (m : gmap string A), iter A m ≡ₚ map_to_list m) ->
  breakdown_ok u -> (total_requests u + Z.of_nat (length records) <= U64_MAX)%Z ->
  let u' := usage_bound iter (foldl (fun u r => usage_add r u) u records) in
  breakdown_ok u' /\ total_requests u' = (total_requests u + Z.of_nat (length records))%Z.
Proof.
  intros Hiter Hu Hle u'.
  assert (Hfold : breakdown_ok (foldl (fun u r => usage_add r u) u records)
    /\ total_requests (foldl (fun u r => usage_add r u) u records) =
         (total_requests u + Z.of_nat (length records))%Z).
  { revert u Hu Hle u'. induction records as [|r records IH]; intros u Hu Hle u'; simpl in *.
    { split; [done|lia]. }
    destruct (usage_add_breakdown r u Hu) as [Hok Ht]; [lia|].
    destruct (IH _ Hok) as [Hb Ht']; [lia|]. split; [done|lia]. }
  destruct Hfold as [Hb Ht]. split; [|exact Ht]. apply usage_bound_breakdown; [done|done|lia].
Qed.

Definition demo_record (model : string) : UsageRecord :=
  {| u_timestamp := 0; u_provider_id := ""; u_model := model; u_original_model := None;
     u_kiro_model := None; u_input_tokens := 1; u_output_tokens := 1; u_credits := F64.one;
     u_cache_read_tokens := None; u_cache_write_tokens := None; u_reasoning_tokens := None;
     u_token_usage_source := "upstream"; u_provider_billing := None; u_path := "/v1/messages" |}.

Lemma usage_conserved_witness :
  let u' := usage_bound (fun A m => map_to_list m)
              (foldl (fun u r => usage_add r u) ApiKeyUsage_default
                 [demo_record "a"; demo_record "b"]) in
  breakdown_ok u' /\ total_requests u' = 2%Z.
Proof.
  apply (usage_conserved (fun A m => map_to_list m) ApiKeyUsage_default
           [demo_record "a"; demo_record "b"]).
  - intros A m. reflexivity.
  - constructor; first [exact requests_empty|exact (map_Forall_empty _)].
  - vm_compute. discriminate.
Defined.

(** ** The ledger *)

Record service_ok (s : ServiceCreditState) : Prop := {
  so_used : F64.nonneg (sv_used s) = true;
  so_reserved : F64.nonneg (sv_reserved s) = true;
  so_limit : F64.nonneg (sv_limit s) = true;
}.

(** Neither negative nor NaN. *)
Record ledger_ok (m : Meter) : Prop := {
  lo_service : service_ok (m_service m);
  lo_keys : map_Forall (fun _ k => F64.nonneg (ks_reserved k) = true) (m_keys m);
}.

Lemma release_nonneg r x : F64.nonneg (release r x) = true.
Proof. apply nonneg_max_zero. Qed.

Lemma zero_nonneg : F64.nonneg F64.zero = true.
Proof. reflexivity. Qed.

#[local] Hint Resolve release_nonneg zero_nonneg nonneg_max_zero add_nonneg : kproxy.

Lemma reset_day_ok now s : service_ok s -> service_ok (reset_service_day_if_needed now s).
Proof.
  intros []. unfold reset_service_day_if_needed. case_match; constructor; simpl; auto with kproxy.
Qed.

Lemma reserve_service_ok now amount s s' b :
  F64.nonneg amount = true -> service_ok s -> reserve_service now amount s = (s', b) -> service_ok s'.
Proof.
  intros Ha Hs. unfold reserve_service. pose proof (reset_day_ok now s Hs) as [].
  case_match; intros; simplify_eq; constructor; simpl; auto with kproxy.
Qed.

Lemma reserve_key_ok key amount m m' r :
  F64.nonneg amount = true -> ledger_ok m -> reserve_key key amount m = (m', r) -> ledger_ok m'.
Proof.
  intros Ha [[] Hk]. unfold reserve_key. repeat case_match; intros; simplify_eq;
    constructor; simpl; try done; try (constructor; simpl; auto with kproxy).
  apply map_Forall_insert_2; [|done]. simpl. apply add_nonneg; [|done]. by eapply Hk.
Qed.

Section Ledger.
Context (sha256 : string -> list ascii).
Context (iter : forall A : Type, gmap string A -> list (string * A)).

Lemma collect_keys_ok usage configs :
  map_Forall (fun _ k => F64.nonneg (ks_reserved k) = true) (collect_keys sha256 usage configs).
Proof.
  unfold collect_keys. generalize (map_Forall_empty (M := gmap string)
    (fun (_ : string) k => F64.nonneg (ks_reserved k) = true)).
  generalize (∅ : gmap string KeyState). induction configs as [|c configs IH]; intros m Hm; [done|].
  apply IH. by apply map_Forall_insert_2.
Qed.

(** One operation on the meter, by any caller. *)
Inductive mstep : Meter -> Meter -> Prop :=
| M_limit m limit : mstep m (set_daily_limit limit m)
| M_reset m m' write now r : reset_daily write now m = (m', r) -> mstep m m'
| M_reserve m m' now key estimate r : reserve now key estimate m = (m', r) -> mstep m m'
| M_extend m m' now additional c c' r : extend now additional c m = (m', c', r) -> mstep m m'
| M_settle m m' write now c record r : settle write now c record m = (m', r) -> mstep m m'
| M_drop m c : mstep m (drop_reservation c m)
| M_reset_usage m m' write id r : reset_usage iter write id m = (m', r) -> mstep m m'
| M_replace m configs : mstep m (replace_configs sha256 configs m).

Lemma replace_configs_ok configs keys next :
  map_Forall (fun _ k => F64.nonneg (ks_reserved k) = true) keys ->
  map_Forall (fun _ k => F64.nonneg (ks_reserved k) = true) next ->
  map_Forall (fun _ k => F64.nonneg (ks_reserved k) = true)
    (snd (foldl (replace_config sha256) (keys, next) configs)).
Proof.
  revert keys next. induction configs as [|c configs IH]; intros keys next Hk Hn; [done|].
  apply IH; [by apply map_Forall_delete|]. apply map_Forall_insert_2; [|done]. simpl.
  destruct (keys !! _) eqn:E; simpl; [by eapply Hk|done].
Qed.

Lemma settle_ok write now c record m m' r :
  ledger_ok m -> settle write now c record m = (m', r) -> ledger_ok m'.
Proof.
  intros [Hs Hk]. unfold settle. pose proof (reset_day_ok now _ Hs) as [].
  set (s1 := sv_set_used _ _). assert (Hs1 : service_ok s1)
    by (constructor; simpl; auto with kproxy).
  destruct (cr_key_id c) as [id|];
    [destruct (m_keys (with_service m s1) !! id) as [k|] eqn:E|]; intros Hrun;
    match type of Hrun with (if ?b then _ else _) = _ => destruct b end;
    simplify_eq; constructor; try done;
    (apply map_Forall_insert_2; [simpl; auto with kproxy|done]).
Qed.

Lemma mstep_ledger_ok m m' : mstep m m' -> ledger_ok m -> ledger_ok m'.
Proof.
  intros Hstep Hok. assert (Hok' := Hok). destruct Hok' as [Hs Hk].
  destruct Hstep as [m limit|m m' write now r E|m m' now key estimate r E
    |m m' now additional c c' r E|m m' write now c record r E|m c|m m' write id r E|m configs].
  - destruct Hs. constructor; [|done]. constructor; simpl; auto with kproxy.
  - unfold reset_daily in E. destruct Hs.
    repeat case_match; simplify_eq; constructor; simpl; try done; constructor; simpl; auto with kproxy.
  - unfold reserve in E. case_match; [by simplify_eq|].
    destruct (reserve_service _ _ _) as [s b] eqn:Es.
    apply reserve_service_ok in Es; [|by auto with kproxy|done].
    destruct b; simpl in E; [|simplify_eq; by constructor].
    destruct (reserve_key _ _ _) as [m1 r1] eqn:Ek. simplify_eq.
    eapply reserve_key_ok; [| |exact Ek]; [by auto with kproxy|by constructor].
  - unfold extend in E. case_match; [by simplify_eq|].
    destruct (reserve_service _ _ _) as [s b] eqn:Es.
    apply reserve_service_ok in Es; [|by auto with kproxy|done].
    destruct b; simpl in E; [|simplify_eq; by constructor].
    destruct (reserve_key _ _ _) as [m1 r1] eqn:Ek.
    assert (ledger_ok m1).
    { eapply reserve_key_ok; [| |exact Ek]; [by auto with kproxy|by constructor]. }
    by destruct r1; simplify_eq.
  - by eapply settle_ok.
  - unfold drop_reservation. destruct Hs. destruct (cr_key_id c);
      (constructor; simpl; [constructor; simpl; auto with kproxy|]); [|done].
    intros id k. rewrite lookup_alter_Some. intros [(-> & k0 & Hk0 & ->)|[Hne Hid]];
      [simpl; auto with kproxy|by eapply Hk].
  - unfold reset_usage in E. case_match; [|by simplify_eq].
    destruct p as [id0 k0]. simplify_eq. constructor; [done|]. simpl.
    intros id' k. rewrite lookup_alter_Some. intros [(-> & k1 & Hk1 & ->)|[Hne Hid]];
      [simpl; by eapply Hk|by eapply Hk].
  - constructor; [done|]. simpl. apply replace_configs_ok; [done|]. apply map_Forall_empty.
Qed.

(** The ledger never goes negative or NaN: from any usage file, corrupt
    numbers included, and after any sequence of reservations, extensions,
    settlements, cancellations, resets and configuration changes, the credits
    used and reserved by the service and reserved by each key, and the limit,
    are numbers that are not below zero. *)
Theorem ledger_nonnegative (now : Z) (read : ReadOutcome) (configs : list ApiKeyConfig)
    (m0 m : Meter) :
  load sha256 iter now read configs = Ok m0 -> rtc mstep m0 m -> ledger_ok m.
Proof.
  intros Hload Hrun. assert (H0 : ledger_ok m0).
  { unfold load in Hload. destruct (match read with ReadParsed p => _ | _ => _ end); [|done].
    simpl in Hload. simplify_eq. constructor; simpl; [|apply collect_keys_ok].
    constructor; simpl; auto with kproxy. case_match; auto with kproxy. }
  clear Hload. induction Hrun; eauto using mstep_ledger_ok.
Qed.
End Ledger.

(** ** Admission *)

(** [x + y + z <= limit], as the code tests it. *)
Definition within (x y z limit : f64) : Prop :=
  F64.gtb (F64.add (F64.add x y) z) limit = false.

(** A reservation is admitted only within both limits, and a refused one
    changes nothing that matters.  On success the amount is added exactly once
    to the service's and to the key's reservations, after both limits were
    checked with it included.  On every error no key has changed, and the
    service's reservations are as they were, or as they were plus and minus the
    amount. *)
Theorem reserve_admission (now : Z) (key : option string) (estimate : f64) (m : Meter) :
  let s := reset_service_day_if_needed now (m_service m) in
  let amount := F64.max estimate F64.zero in
  let '(m', r) := reserve now key estimate m in
  match r with
  | Ok c =>
      m_recovery_error m = None /\ c = {| cr_key_id := key; cr_estimate := amount |}
      /\ (F64.gtb (sv_limit s) F64.zero = true ->
          within (sv_used s) (sv_reserved s) amount (sv_limit s))
      /\ m_service m' = sv_set_reserved s (F64.add (sv_reserved s) amount)
      /\ match key with
         | None => m_keys m' = m_keys m
         | Some id =>
             exists k, m_keys m !! id = Some k
               /\ m_keys m' = <[id := ks_set_reserved k (F64.add (ks_reserved k) amount)]> (m_keys m)
               /\ forall limit, k_credits_limit (ks_config k) = Some limit ->
                    within (total_credits (ks_usage k)) (ks_reserved k) amount limit
         end
  | Err e =>
      m_keys m' = m_keys m
      /\ (m' = m \/ m_service m' = s
          \/ m_service m' = sv_set_reserved s (release (F64.add (sv_reserved s) amount) amount))
  end.
Proof.
  intros s amount. unfold reserve. destruct (m_recovery_error m) as [e|] eqn:Er; [by auto|].
  fold amount. unfold reserve_service. fold s. destruct (_ && _) eqn:El; simpl; [by auto|].
  assert (Hlim : F64.gtb (sv_limit s) F64.zero = true ->
    within (sv_used s) (sv_reserved s) amount (sv_limit s)).
  { intros Hl. rewrite Hl in El. exact El. }
  unfold reserve_key. destruct key as [id|]; simpl; [|by auto].
  destruct (m_keys m !! id) as [k|] eqn:Ek; simpl; [|by auto].
  destruct (is_some_and _ _) eqn:Ec; simpl; [by auto|].
  split_and!; try done. exists k. split_and!; try done. intros limit Hl.
  rewrite Hl in Ec. exact Ec.
Qed.

(** Cancelling gives back what was reserved: dropping a reservation right
    after it was granted restores the service's and the key's ledgers exactly,
    whenever the floating-point sums involved are exact. *)
Theorem reserve_drop_roundtrip (now : Z) (key : option string) (estimate : f64) (m m' : Meter)
    (c : CreditReservation) :
  let exact x := release (F64.add x (F64.max estimate F64.zero)) (F64.max estimate F64.zero) = x in
  exact (sv_reserved (m_service m)) ->
  (forall id k, key = Some id -> m_keys m !! id = Some k -> exact (ks_reserved k)) ->
  reserve now key estimate m = (m', Ok c) ->
  drop_reservation c m' = with_service m (reset_service_day_if_needed now (m_service m)).
Proof.
  intros exact Hs Hk Hrun.
  assert (Hres : sv_reserved (reset_service_day_if_needed now (m_service m)) =
                 sv_reserved (m_service m)) by (unfold reset_service_day_if_needed; by case_match).
  unfold reserve in Hrun. destruct (m_recovery_error m) eqn:Er; [done|].
  unfold reserve_service in Hrun. set (s := reset_service_day_if_needed now (m_service m)) in *.
  destruct (_ && _); [done|]. simpl in Hrun. unfold reserve_key in Hrun.
  assert (Hback : sv_set_reserved (sv_set_reserved s (F64.add (sv_reserved s)
      (F64.max estimate F64.zero)))
    (release (F64.add (sv_reserved s) (F64.max estimate F64.zero)) (F64.max estimate F64.zero)) = s).
  { rewrite Hres. unfold exact in Hs. rewrite Hs, <- Hres. by destruct s. }
  destruct key as [id|]; simpl in Hrun.
  - destruct (m_keys m !! id) as [k|] eqn:Ek; [|done].
    destruct (is_some_and _ _); [done|]. simpl in Hrun. simplify_eq.
    unfold drop_reservation. simpl. rewrite Hback. unfold with_keys, with_service. simpl. f_equal.
    apply map_eq. intros q. destruct (decide (id = q)) as [<-|Hne].
    + rewrite lookup_alter_eq, lookup_insert_eq, Ek. simpl. f_equal.
      unfold ks_set_reserved. simpl. specialize (Hk id k eq_refl Ek). unfold exact in Hk.
      rewrite Hk. by destruct k.
    + by rewrite lookup_alter_ne, lookup_insert_ne.
  - simplify_eq. unfold drop_reservation. simpl. rewrite Hback. done.
Qed.

(** ** Authentication *)

Lemma constant_time_loop_zero e p d n i :
  constant_time_loop e p d n i = 0%Z <->
  d = 0%Z /\ forall j, i <= j < i + n ->
    unwrap_or (option_map code (e !! j)) 0%Z = unwrap_or (option_map code (p !! j)) 0%Z.
Proof.
  revert d i. induction n as [|n IH]; intros d i; cbn [constant_time_loop].
  { split; [|tauto]. intros ->. split; [done|]. lia. }
  rewrite IH, Z.lor_eq_0_iff, Z.lxor_eq_0_iff. split.
  - intros [[-> Hi] Hj]. split; [done|]. intros j Hle.
    destruct (decide (j = i)) as [->|Hne]; [done|]. apply Hj. lia.
  - intros [-> Hj]. split_and!; [done|apply Hj; lia|]. intros j Hle. apply Hj. lia.
Qed.

Lemma constant_time_eq_iff expected presented :
  constant_time_eq expected presented = true <-> expected = presented.
Proof.
  unfold constant_time_eq. rewrite Z.eqb_eq, constant_time_loop_zero, Z.lxor_eq_0_iff. split.
  - intros [Hlen Hbytes]. apply s2l_inj, list_eq. intros i.
    destruct (decide (i < length (s2l expected))) as [Hi|Hi].
    + destruct (lookup_lt_is_Some_2 (s2l expected) i) as [a Ha]; [done|].
      destruct (lookup_lt_is_Some_2 (s2l presented) i) as [b Hb]; [lia|].
      specialize (Hbytes i). rewrite Ha, Hb in Hbytes. simpl in Hbytes.
      rewrite Ha, Hb. f_equal. apply code_inj, Hbytes. lia.
    + rewrite !lookup_ge_None_2 by lia. done.
  - intros ->. done.
Qed.

(** The constant-time comparison is equality of the two strings. *)
Theorem constant_time_eq_correct (expected presented : string) :
  constant_time_eq expected presented = bool_decide (expected = presented).
Proof.
  apply eq_true_iff_eq. by rewrite constant_time_eq_iff, bool_decide_eq_true.
Qed.

Section Authentication.
Context (iter : forall A : Type, gmap string A -> list (string * A)).

(** Authentication fails closed: once any key is configured, a request
    is accepted only with the secret of an enabled key, and is given that
    key's identity and restrictions; it is refused without a secret, and when
    no enabled key has the presented one.  Only a meter without keys lets
    anonymous requests through. *)
Theorem authenticate_sound (m : Meter) (presented : option string) :
  (forall A (m : gmap string A), iter A m ≡ₚ map_to_list m) ->
  match authenticate iter m presented with
  | Ok None => m_keys m = ∅
  | Ok (Some auth) =>
      exists id k, m_keys m !! id = Some k /\ k_enabled (ks_config k) = true
        /\ presented = Some (k_key (ks_config k)) /\ au_id auth = ks_id k
        /\ au_allowed_providers auth = k_allowed_providers (ks_config k)
        /\ au_allowed_models auth = k_allowed_models (ks_config k)
  | Err e =>
      e = Unauthorized /\ m_keys m <> ∅
      /\ forall id k, m_keys m !! id = Some k -> k_enabled (ks_config k) = true ->
           presented <> Some (k_key (ks_config k))
  end.
Proof.
  intros Hiter. unfold authenticate. case_bool_decide as Hd.
  { by apply dom_empty_inv_L in Hd. }
  assert (Hne : m_keys m <> ∅) by (intros He; by rewrite He, dom_empty_L in Hd).
  destruct presented as [secret|]; [|done].
  destruct (head _) as [[id k]|] eqn:E.
  - apply head_Some_elem_of in E. apply list_elem_of_filter in E as [Hk Hin].
    rewrite Hiter in Hin. apply elem_of_map_to_list in Hin. simpl in Hk.
    apply andb_true_iff in Hk as [Hen Heq]. apply constant_time_eq_iff in Heq.
    exists id, k. subst secret. done.
  - apply head_None in E. split; [done|]. split; [done|]. intros id k Hk Hen Heq.
    assert (Hin : (id, k) ∈ filter (fun e => k_enabled (ks_config e.2)
      && constant_time_eq (k_key (ks_config e.2)) secret = true) (iter _ (m_keys m))).
    { apply list_elem_of_filter. simpl. split.
      - rewrite Hen. simplify_eq. by apply constant_time_eq_iff.
      - rewrite Hiter. by apply elem_of_map_to_list. }
    rewrite E in Hin. by apply not_elem_of_nil in Hin.
Qed.
End Authentication.

(** ** The hypotheses hold *)

Definition demo_key : ApiKeyConfig :=
  {| k_id := Some "ak_1"; k_name := "demo"; k_key := "sk-1"; k_format := Sk; k_enabled := true;
     k_skip_user_agent_check := false; k_credits_limit := Some (F64.of_Z 10);
     k_allowed_providers := []; k_allowed_models := [] |}.

Definition demo_meter : Meter :=
  {| m_keys := {["ak_1" := {| ks_id := "ak_1"; ks_config := demo_key;
                              ks_usage := ApiKeyUsage_default; ks_reserved := F64.of_Z 3 |}]};
     m_service := {| sv_day := "1970-01-01"; sv_used := F64.zero; sv_reserved := F64.of_Z 3;
                     sv_limit := F64.of_Z 20 |};
     m_persist_scheduled := false; m_dirty_generation := 0; m_recovery_error := None |}.

Lemma ledger_nonnegative_witness :
  exists m, rtc (mstep (fun _ => []) (fun A m => map_to_list m))
              (match load (fun _ => []) (fun A m => map_to_list m) 0 ReadBlank [demo_key] with
               | Ok m0 => m0 | Err _ => demo_meter end) m
    /\ sv_reserved (m_service m) = F64.of_Z 4 /\ ledger_ok m.
Proof.
  eexists. split; [|split].
  - eapply rtc_l; [|apply rtc_refl].
    eapply (M_reserve _ _ _ _ 0 (Some "ak_1") (F64.of_Z 4)). reflexivity.
  - vm_compute. reflexivity.
  - eapply (ledger_nonnegative (fun _ => []) (fun A m => map_to_list m) 0 ReadBlank [demo_key]);
      [reflexivity|].
    eapply rtc_l; [|apply rtc_refl].
    eapply (M_reserve _ _ _ _ 0 (Some "ak_1") (F64.of_Z 4)). reflexivity.
Defined.

Lemma reserve_drop_roundtrip_witness :
  exists m' c, reserve 0 (Some "ak_1") (F64.of_Z 5) demo_meter = (m', Ok c)
    /\ drop_reservation c m' = demo_meter.
Proof.
  eexists _, _. split; [reflexivity|].
  refine (reserve_drop_roundtrip 0 (Some "ak_1") (F64.of_Z 5) demo_meter _ _ _ _ _).
  - vm_compute. reflexivity.
  - intros id k [= <-] Hk. vm_compute in Hk. injection Hk as <-. vm_compute. reflexivity.
  - reflexivity.
Defined.

Lemma authenticate_sound_witness :
  exists id k, m_keys demo_meter !! id = Some k /\ k_enabled (ks_config k) = true
    /\ Some "sk-1" = Some (k_key (ks_config k)).
Proof.
  assert (E : authenticate (fun A m => map_to_list m) demo_meter (Some "sk-1") =
    Ok (Some {| au_id := "ak_1"; au_skip_user_agent_check := false; au_allowed_providers := [];
                au_allowed_models := [] |})) by reflexivity.
  pose proof (authenticate_sound (fun A m => map_to_list m) demo_meter (Some "sk-1")
                (fun A m => reflexivity _)) as H.
  rewrite E in H. destruct H as (id & k & Hk & Hen & Hkey & _). exists id, k. auto.
Defined.
