(* ===== verification/Persister.v ===== *)
(** * The deferred persistence of the meter

    [Meter::mark_dirty] of [kproxyd/src/meter.rs] as a step relation: callers
    bump a generation and claim a flag; the task they spawn sleeps, reads the
    generation, tries to write the state, and gives the flag up only after it has
    seen no newer generation.  A write may fail, before or after it took effect
    (or be refused while the meter recovers); that is logged and forgotten.  Every step is one atomic access, so runs contain all
    interleavings.  The generation is unbounded here: the code's [u64] would
    have to wrap around within one iteration to differ. *)

From Stdlib Require Import Lia.
From stdpp Require Import base list relations.
From S2P Require Import Prelude.

(** Where a spawned task is in its loop. *)
Inductive Worker :=
| Sleeping
| Loaded (generation : nat)
| Attempted (generation : nat)
| Checked (generation : nat)
| Cleared (generation : nat)
| Contending.

(** The file holds the data of generation [saved]; the last attempt to write it was
    made at generation [tried], and [worked] or not. *)
Record Disk := { saved : nat; tried : nat; worked : bool }.

Record DirtyState := {
  generation : nat;
  scheduled : bool;
  claims : nat;
  workers : list Worker;
  disk : Disk;
}.

Definition DirtyState_new : DirtyState :=
  {| generation := 0; scheduled := false; claims := 0; workers := [];
     disk := {| saved := 0; tried := 0; worked := true |} |}.

(** How [persist()] ends: the file is replaced; nothing is; or the file is replaced
    and the directory cannot be synchronized, which is an error too. *)
Inductive Write := Written | Unwritten | Unsynced.

(** [persist()] at generation [g]: it writes what is there now, or fails. *)
Definition attempt (write : Write) (g : nat) (d : Disk) : Disk :=
  {| saved := match write with Unwritten => saved d | _ => g end; tried := g;
     worked := match write with Written => true | _ => false end |}.

Inductive dstep : DirtyState -> DirtyState -> Prop :=
(* [dirty_generation.fetch_add(1)] *)
| D_mark g s c w v :
    dstep {| generation := g; scheduled := s; claims := c; workers := w; disk := v |}
          {| generation := S g; scheduled := s; claims := S c; workers := w; disk := v |}
(* [persist_scheduled.compare_exchange(false, true)] succeeds: spawn *)
| D_claim g c w v :
    dstep {| generation := g; scheduled := false; claims := S c; workers := w; disk := v |}
          {| generation := g; scheduled := true; claims := c; workers := Sleeping :: w; disk := v |}
(* ... and fails *)
| D_skip g c w v :
    dstep {| generation := g; scheduled := true; claims := S c; workers := w; disk := v |}
          {| generation := g; scheduled := true; claims := c; workers := w; disk := v |}
(* [let generation = dirty_generation.load()] after the sleep *)
| D_load g s c w1 w2 v :
    dstep {| generation := g; scheduled := s; claims := c; workers := w1 ++ Sleeping :: w2; disk := v |}
          {| generation := g; scheduled := s; claims := c; workers := w1 ++ Loaded g :: w2; disk := v |}
(* [persist()], whose error is only logged *)
| D_write write g s c w1 w2 h v :
    dstep {| generation := g; scheduled := s; claims := c; workers := w1 ++ Loaded h :: w2; disk := v |}
          {| generation := g; scheduled := s; claims := c; workers := w1 ++ Attempted h :: w2; disk := attempt write g v |}
(* [if dirty_generation.load() != generation { continue; }] *)
| D_check g s c w1 w2 h v :
    dstep {| generation := g; scheduled := s; claims := c; workers := w1 ++ Attempted h :: w2; disk := v |}
          {| generation := g; scheduled := s; claims := c;
             workers := w1 ++ (if decide (g = h) then Checked h else Sleeping) :: w2; disk := v |}
(* [persist_scheduled.store(false)] *)
| D_clear g s c w1 w2 h v :
    dstep {| generation := g; scheduled := s; claims := c; workers := w1 ++ Checked h :: w2; disk := v |}
          {| generation := g; scheduled := false; claims := c; workers := w1 ++ Cleared h :: w2; disk := v |}
(* [dirty_generation.load() != generation && ..] or [break] *)
| D_recheck g s c w1 w2 h v :
    dstep {| generation := g; scheduled := s; claims := c; workers := w1 ++ Cleared h :: w2; disk := v |}
          {| generation := g; scheduled := s; claims := c;
             workers := if decide (g = h) then w1 ++ w2 else w1 ++ Contending :: w2; disk := v |}
(* [compare_exchange(false, true)]: continue, or break when another task has it *)
| D_reclaim g s c w1 w2 v :
    dstep {| generation := g; scheduled := s; claims := c; workers := w1 ++ Contending :: w2; disk := v |}
          {| generation := g; scheduled := true; claims := c;
             workers := if s then w1 ++ w2 else w1 ++ Sleeping :: w2; disk := v |}
(* a synchronous [persist()] of [settle] or of an administrator *)
| D_sync write g s c w v :
    dstep {| generation := g; scheduled := s; claims := c; workers := w; disk := v |}
          {| generation := g; scheduled := s; claims := c; workers := w; disk := attempt write g v |}.

(** The task that holds the flag. *)
Definition holds_flag (w : Worker) : bool :=
  match w with Sleeping | Loaded _ | Attempted _ | Checked _ => true | Cleared _ | Contending => false end.

Definition holders (l : list Worker) : nat := length (filter (fun w => holds_flag w = true) l).

(** What a task has seen is at most current, and was tried once it is past its write. *)
Definition worker_ok (g v : nat) (w : Worker) : Prop :=
  match w with
  | Loaded h => h <= g
  | Attempted h | Checked h | Cleared h => h <= v
  | Sleeping | Contending => True
  end.

Record dirty_ok (d : DirtyState) : Prop := {
  do_tried : tried (disk d) <= generation d;
  do_saved : saved (disk d) <= tried (disk d) /\ (worked (disk d) = true -> saved (disk d) = tried (disk d));
  do_workers : Forall (worker_ok (generation d) (tried (disk d))) (workers d);
  do_flag : holders (workers d) = if scheduled d then 1 else 0;
  do_covered : tried (disk d) = generation d \/ claims d <> 0 \/ workers d <> [];
}.

Lemma holders_app k l : holders (k ++ l) = holders k + holders l.
Proof. unfold holders. by rewrite filter_app, length_app. Qed.

Lemma holders_cons w l : holders (w :: l) = (if holds_flag w then 1 else 0) + holders l.
Proof.
  unfold holders. rewrite filter_cons. destruct (holds_flag w) eqn:E;
    [rewrite decide_True by done|rewrite decide_False by done]; done.
Qed.

Lemma holders_pos l : holders l <> 0 -> l <> [].
Proof. intros H ->. done. Qed.

(** A task may see older data than there is. *)
Lemma worker_ok_mono g g' v v' w : g <= g' -> v <= v' -> worker_ok g v w -> worker_ok g' v' w.
Proof. destruct w; simpl; lia. Qed.

Lemma workers_replace g v w w' w1 w2 :
  Forall (worker_ok g v) (w1 ++ w :: w2) -> (worker_ok g v w -> worker_ok g v w') ->
  Forall (worker_ok g v) (w1 ++ w' :: w2).
Proof. rewrite !Forall_app, !Forall_cons. naive_solver. Qed.

Lemma workers_remove g v w w1 w2 :
  Forall (worker_ok g v) (w1 ++ w :: w2) -> Forall (worker_ok g v) (w1 ++ w2) /\ worker_ok g v w.
Proof. rewrite !Forall_app, !Forall_cons. naive_solver. Qed.

Lemma workers_mono g g' v v' l :
  g <= g' -> v <= v' -> Forall (worker_ok g v) l -> Forall (worker_ok g' v') l.
Proof.
  intros Hg Hv Hl. eapply Forall_impl; [exact Hl|]. intros w. by apply worker_ok_mono.
Qed.

Lemma app_cons_not_nil' {A} (l1 l2 : list A) x : l1 ++ x :: l2 <> [].
Proof. by destruct l1. Qed.

Lemma attempt_ok write g d :
  saved d <= tried d -> tried d <= g ->
  let d' := attempt write g d in
  tried d' = g /\ saved d' <= tried d' /\ (worked d' = true -> saved d' = tried d').
Proof. intros. destruct write; cbn; split_and!; lia || done. Qed.

Lemma dstep_ok d d' : dstep d d' -> dirty_ok d -> dirty_ok d'.
Proof.
  intros Hstep [Ht [Hs1 Hs2] Hw Hf Hc].
  destruct Hstep as [g s c w v|g c w v|g c w v|g s c w1 w2 v|write g s c w1 w2 h v|g s c w1 w2 h v
    |g s c w1 w2 h v|g s c w1 w2 h v|g s c w1 w2 v|write g s c w v]; cbn [generation scheduled claims workers disk] in *;
    rewrite ?holders_app, ?holders_cons in Hf; cbn [holds_flag] in Hf;
    try (destruct (attempt_ok write g v Hs1 Ht) as (Ha & Ha1 & Ha2)).
  - constructor; cbn [generation scheduled claims workers disk]; [lia|done|eapply workers_mono; [| |exact Hw]; lia|done|lia].
  - constructor; cbn [generation scheduled claims workers disk]; [done|done|by constructor| |by right; right].
    rewrite holders_cons. simpl. lia.
  - constructor; cbn [generation scheduled claims workers disk]; [done|done|done|done|]. right; right. apply holders_pos. lia.
  - constructor; cbn [generation scheduled claims workers disk]; [done|done| | |right; right; apply app_cons_not_nil'].
    + eapply workers_replace; [exact Hw|]. simpl. lia.
    + by rewrite holders_app, holders_cons.
  - constructor; cbn [generation scheduled claims workers disk]; [lia|done| | |by left].
    + eapply workers_replace; [eapply workers_mono; [| |exact Hw]; lia|]. simpl. lia.
    + by rewrite holders_app, holders_cons.
  - constructor; cbn [generation scheduled claims workers disk]; [done|done| | |right; right; apply app_cons_not_nil'].
    + eapply workers_replace; [exact Hw|]. by case_decide.
    + rewrite holders_app, holders_cons. by case_decide.
  - assert (s = true) as -> by (destruct s; [done|lia]).
    constructor; cbn [generation scheduled claims workers disk]; [done|done| | |right; right; apply app_cons_not_nil'].
    + eapply workers_replace; [exact Hw|]. done.
    + rewrite holders_app, holders_cons. simpl. lia.
  - case_decide as Hg; constructor; cbn [generation scheduled claims workers disk]; try done.
    + by apply workers_remove in Hw as [Hw _].
    + by rewrite holders_app.
    + left. apply workers_remove in Hw as [_ Hh]. simpl in Hh. lia.
    + eapply workers_replace; [exact Hw|]. done.
    + by rewrite holders_app, holders_cons.
    + right; right. apply app_cons_not_nil'.
  - destruct s; constructor; cbn [generation scheduled claims workers disk]; try done.
    + by apply workers_remove in Hw as [Hw _].
    + by rewrite holders_app.
    + right; right. apply holders_pos. rewrite holders_app. lia.
    + eapply workers_replace; [exact Hw|]. done.
    + rewrite holders_app, holders_cons. simpl. lia.
    + right; right. apply app_cons_not_nil'.
  - constructor; cbn [generation scheduled claims workers disk]; [lia|done| |done|by left].
    eapply workers_mono; [| |exact Hw]; lia.
Qed.

(** C37: Deferred persistence never forgets to write.  Under every interleaving of
    callers and persisting tasks, whichever of the writes fail: when all of the
    callers and tasks have finished, the last attempt to write was made at the
    newest generation, so that the file holds the newest changes if that attempt
    succeeded (an attempt that fails is only logged: [failed_write_is_final]); the
    file never holds anything newer than the last attempt; and at no time do two
    tasks hold the right to write. *)
Theorem mark_dirty_no_lost_update (d : DirtyState) :
  rtc dstep DirtyState_new d ->
  (claims d = 0 -> workers d = [] ->
     tried (disk d) = generation d /\ (worked (disk d) = true -> saved (disk d) = generation d))
  /\ saved (disk d) <= tried (disk d) <= generation d
  /\ holders (workers d) <= 1.
Proof.
  intros Hrun. assert (Hok : dirty_ok d).
  { assert (H0 : dirty_ok DirtyState_new) by (constructor; simpl; auto).
    revert H0. induction Hrun; eauto using dstep_ok. }
  destruct Hok as [Ht [Hs1 Hs2] Hw Hf Hc]. split; [|split; [lia|rewrite Hf; case_match; lia]].
  intros Hclaims Hworkers. destruct Hc as [Hc|[Hc|Hc]]; [|done|by rewrite Hworkers in Hc].
  split; [done|]. intros Hworked. by rewrite Hs2.
Qed.

(** A change made after the task's last check, and picked up by the recheck. *)
Lemma mark_dirty_no_lost_update_witness :
  let d := {| generation := 2; scheduled := false; claims := 0; workers := [];
              disk := {| saved := 2; tried := 2; worked := true |} |} in
  rtc dstep DirtyState_new d /\ tried (disk d) = generation d /\ saved (disk d) = generation d.
Proof.
  intros d. assert (H : rtc dstep DirtyState_new d).
  { eapply rtc_l; [apply D_mark|]; eapply rtc_l; [apply D_claim|];
    eapply rtc_l; [apply (D_load _ _ _ [] [])|]; eapply rtc_l; [apply (D_write Unwritten _ _ _ [] [])|];
    eapply rtc_l; [apply (D_check _ _ _ [] [])|]; eapply rtc_l; [apply D_mark|];
    eapply rtc_l; [apply D_skip|]; eapply rtc_l; [apply (D_clear _ _ _ [] [])|];
    eapply rtc_l; [apply (D_recheck _ _ _ [] [])|]; eapply rtc_l; [apply (D_reclaim _ _ _ [] [])|];
    eapply rtc_l; [apply (D_load _ _ _ [] [])|]; eapply rtc_l; [apply (D_write Written _ _ _ [] [])|];
    eapply rtc_l; [apply (D_check _ _ _ [] [])|]; eapply rtc_l; [apply (D_clear _ _ _ [] [])|];
    eapply rtc_l; [apply (D_recheck _ _ _ [] [])|]; apply rtc_refl. }
  split; [exact H|]. destruct (mark_dirty_no_lost_update d H) as (Hd & _).
  destruct (Hd eq_refl eq_refl) as [H1 H2]. split; [exact H1|]. apply H2. reflexivity.
Defined.

(** A deferred write that fails is not tried again: everyone is done, and the file
    lacks the change until another one is made. *)
Theorem failed_write_is_final :
  exists d, rtc dstep DirtyState_new d /\ claims d = 0 /\ workers d = [] /\ scheduled d = false
    /\ saved (disk d) < generation d.
Proof.
  exists {| generation := 1; scheduled := false; claims := 0; workers := [];
            disk := {| saved := 0; tried := 1; worked := false |} |}.
  split; [|cbn; auto].
  eapply rtc_l; [apply D_mark|]; eapply rtc_l; [apply D_claim|];
  eapply rtc_l; [apply (D_load _ _ _ [] [])|]; eapply rtc_l; [apply (D_write Unwritten _ _ _ [] [])|];
  eapply rtc_l; [apply (D_check _ _ _ [] [])|]; eapply rtc_l; [apply (D_clear _ _ _ [] [])|];
  eapply rtc_l; [apply (D_recheck _ _ _ [] [])|]; apply rtc_refl.
Qed.
