(* ===== verification/Calendar.v ===== *)
(** * The calendar of the usage statistics

    [civil_from_days] of [kproxyd/src/meter.rs] is the proleptic Gregorian
    calendar: day zero is 1970-01-01 and every day is followed by the next one. *)

From Stdlib Require Import ZArith Lia Ascii String.
From stdpp Require Import base list.
From S2P Require Import Prelude RustStr F64 Json Meter.

Local Open Scope Z_scope.

(** ** The Gregorian calendar *)

Definition leap (year : Z) : bool :=
  (year mod 4 =? 0) && (negb (year mod 100 =? 0) || (year mod 400 =? 0)).

Definition days_in_month (year month : Z) : Z :=
  if month =? 2 then (if leap year then 29 else 28)
  else if (month =? 4) || (month =? 6) || (month =? 9) || (month =? 11) then 30 else 31.

Definition next_day (date : Z * Z * Z) : Z * Z * Z :=
  let '(year, month, day) := date in
  if day <? days_in_month year month then (year, month, day + 1)
  else if month <? 12 then (year, month + 1, 1)
  else (year + 1, 1, 1).

(** ** One era of 400 years

    Years start in March here, so that the leap day is the last of its year. *)

(** The first day of year [y] of the era. *)
Definition year_start (y : Z) : Z := 365 * y + y / 4 - y / 100.

(** The year of a day of the era, before the final division by 365. *)
Definition year_numerator (d : Z) : Z := d - d / 1460 + d / 36524 - d / 146096.

(** Month and day of the [n]th day of such a year, and whether the month is in
    the next calendar year. *)
Definition month_day (n : Z) : Z * Z * Z :=
  let month_prime := (5 * n + 2) / 153 in
  let month := month_prime + if month_prime <? 10 then 3 else -9 in
  (if month <=? 2 then 1 else 0, month, n - (153 * month_prime + 2) / 5 + 1).

Definition civil_at (year n : Z) : Z * Z * Z :=
  let '(carry, month, day) := month_day n in (year + carry, month, day).

Fixpoint check_from (f : Z -> bool) (n : nat) (d : Z) : bool :=
  match n with
  | O => true
  | S n => f d && check_from f n (d + 1)
  end.

Lemma check_from_spec f n d x : check_from f n d = true -> d <= x < d + Z.of_nat n -> f x = true.
Proof.
  revert d. induction n as [|n IH]; intros d; cbn [check_from]; [lia|].
  intros [Hf Hn]%andb_true_iff Hx. destruct (Z.eq_dec x d) as [->|Hne]; [done|].
  apply (IH (d + 1)); [done|lia].
Qed.

Lemma year_numerator_step d : year_numerator d <= year_numerator (d + 1).
Proof.
  unfold year_numerator. replace 146096 with (36524 * 4) by done.
  rewrite <- !Z.div_div by lia. Z.to_euclidean_division_equations. lia.
Qed.

Lemma year_numerator_mono d d' : d <= d' -> year_numerator d <= year_numerator d'.
Proof.
  intros Hle. rewrite <- (Zplus_minus d d'). generalize (Z.le_add_le_sub_l d 0 d'). intros H.
  assert (Hn : 0 <= d' - d) by lia. revert Hn. generalize (d' - d). clear.
  apply natlike_ind; [rewrite Z.add_0_r; lia|]. intros k Hk IH.
  pose proof (year_numerator_step (d + k)). replace (d + Z.succ k) with (d + k + 1) by lia. lia.
Qed.

(** The first and the last day of each of the 400 years, by computation. *)
Definition year_check (y : Z) : bool :=
  (year_numerator (year_start y) / 365 =? y)
  && (year_numerator (year_start (y + 1) - 1) / 365 =? y)
  && (year_start (y + 1) - year_start y =? if leap (y + 1) then 366 else 365).

Lemma year_checks : check_from year_check 399 0 = true.
Proof. vm_compute. reflexivity. Qed.

Lemma last_year_check :
  year_numerator (year_start 399) / 365 = 399 /\ year_numerator 146096 / 365 = 399
  /\ year_start 399 + 366 = 146097.
Proof. by vm_compute. Qed.

Definition year_length (y : Z) : Z := if leap (y + 1) then 366 else 365.

Lemma year_check_at y : 0 <= y < 399 ->
  year_numerator (year_start y) / 365 = y /\ year_numerator (year_start (y + 1) - 1) / 365 = y
  /\ year_start (y + 1) = year_start y + year_length y.
Proof.
  intros Hy. pose proof (check_from_spec year_check 399 0 y year_checks ltac:(lia)) as H.
  unfold year_check in H. bool_simpl. unfold year_length. split_and!; [done|done|lia].
Qed.

(** A day between the first and the last day of a year belongs to it. *)
Lemma year_between d first last y :
  year_numerator first / 365 = y -> year_numerator last / 365 = y -> first <= d <= last ->
  year_numerator d / 365 = y.
Proof.
  intros Hf Hl [H1 H2]. apply year_numerator_mono in H1, H2.
  pose proof (Z.div_le_mono _ _ 365 ltac:(lia) H1).
  pose proof (Z.div_le_mono _ _ 365 ltac:(lia) H2). lia.
Qed.

Definition in_year (d y n : Z) : Prop :=
  0 <= d < 146097 /\ 0 <= y < 400 /\ 0 <= n < year_length y /\ d = year_start y + n /\ year_numerator d / 365 = y.

Lemma in_year_intro y n :
  0 <= y < 400 -> 0 <= n < year_length y -> in_year (year_start y + n) y n.
Proof.
  intros Hy Hn. destruct (Z.eq_dec y 399) as [->|Hne].
  - destruct last_year_check as (Hf & Hl & Hs). change (year_length 399) with 366 in *.
    assert (0 <= year_start 399) by done.
    unfold in_year. change (year_length 399) with 366. split_and!; try done; try lia.
    eapply year_between; [exact Hf|exact Hl|lia].
  - destruct (year_check_at y ltac:(lia)) as (Hf & Hl & Hs).
    assert (0 <= year_start y /\ year_start (y + 1) <= 146097)
      by (unfold year_start; Z.to_euclidean_division_equations; lia).
    split_and!; try done; try lia. eapply year_between; [exact Hf|exact Hl|lia].
Qed.

Lemma in_year_exists d : 0 <= d < 146097 ->
  exists y n, 0 <= y < 400 /\ 0 <= n < year_length y /\ d = year_start y + n.
Proof.
  intros Hd. destruct (Z.lt_ge_cases d (year_start 399)) as [Hlt|Hge].
  - assert (Hbelow : forall k, 0 <= k -> k <= 399 -> d < year_start k ->
      exists y n, 0 <= y < 400 /\ 0 <= n < year_length y /\ d = year_start y + n).
    { apply (natlike_ind (fun k => k <= 399 -> d < year_start k -> _)).
      - change (year_start 0) with 0. lia.
      - intros k Hk IH Hle Hdk. destruct (Z.lt_ge_cases d (year_start k)); [apply IH; lia|].
        destruct (year_check_at k ltac:(lia)) as (_ & _ & Hs).
        replace (Z.succ k) with (k + 1) in Hdk by lia. exists k, (d - year_start k). lia. }
    apply (Hbelow 399); lia.
  - exists 399, (d - year_start 399). destruct last_year_check as (_ & _ & Hs).
    change (year_length 399) with 366. lia.
Qed.

Lemma leap_period y era : leap (y + 400 * era) = leap y.
Proof.
  unfold leap.
  replace (y + 400 * era) with (y + (100 * era) * 4) at 1 by lia. rewrite Z.mod_add by lia.
  replace (y + 400 * era) with (y + (4 * era) * 100) at 1 by lia. rewrite Z.mod_add by lia.
  replace (y + 400 * era) with (y + era * 400) by lia. by rewrite Z.mod_add by lia.
Qed.

(** ** One year *)

(** [next_day] relative to a year whose last February has a leap day or not. *)
Definition next_in_year (leap_day : bool) (date : Z * Z * Z) : Z * Z * Z :=
  let '(carry, month, day) := date in
  let length :=
    if month =? 2 then (if leap_day then 29 else 28)
    else if (month =? 4) || (month =? 6) || (month =? 9) || (month =? 11) then 30 else 31 in
  if day <? length then (carry, month, day + 1)
  else if month <? 12 then (carry, month + 1, 1)
  else (carry + 1, 1, 1).

Definition day_check (leap_day : bool) (n : Z) : bool :=
  let '(carry, month, day) := month_day n in
  bool_decide (month = 2 -> carry = 1)
  && bool_decide (next_in_year leap_day (month_day n) =
       if n + 1 <? (if leap_day then 366 else 365) then month_day (n + 1) else (1, 3, 1)).

Lemma day_checks :
  check_from (day_check true) 366 0 = true /\ check_from (day_check false) 365 0 = true.
Proof. split; vm_compute; reflexivity. Qed.

Lemma next_day_civil_at year n :
  0 <= n < (if leap (year + 1) then 366 else 365) ->
  next_day (civil_at year n) =
    if n + 1 <? (if leap (year + 1) then 366 else 365)
    then civil_at year (n + 1) else civil_at (year + 1) 0.
Proof.
  intros Hn. set (b := leap (year + 1)) in *.
  assert (H : day_check b n = true).
  { destruct day_checks as [H1 H2]. destruct b.
    - apply (check_from_spec _ _ _ _ H1). lia.
    - apply (check_from_spec _ _ _ _ H2). lia. }
  unfold day_check in H. unfold civil_at at 1. destruct (month_day n) as [[carry month] day] eqn:E.
  apply andb_true_iff in H as [Hfeb Hnext]. rewrite bool_decide_eq_true in Hfeb, Hnext.
  assert (Hmap : next_day (year + carry, month, day) =
    let '(c, m, d) := next_in_year b (carry, month, day) in (year + c, m, d)).
  { unfold next_day, next_in_year, days_in_month. destruct (month =? 2) eqn:Em.
    - apply Z.eqb_eq in Em. rewrite (Hfeb Em). fold b. destruct b, (day <? _), (month <? 12);
        f_equal; f_equal; lia.
    - destruct (_ || _), (day <? _), (month <? 12); f_equal; f_equal; lia. }
  rewrite Hmap, Hnext. destruct (n + 1 <? _).
  - unfold civil_at. by destruct (month_day (n + 1)) as [[c m] d].
  - unfold civil_at. change (month_day 0) with (0, 3, 1). f_equal. f_equal. lia.
Qed.

(** ** The conversion *)

Lemma civil_from_days_at days era y n :
  days + 719468 = 146097 * era + (year_start y + n) -> in_year (year_start y + n) y n ->
  civil_from_days days = civil_at (y + 400 * era) n.
Proof.
  intros Hz (Hd & Hy & Hn & _ & Hnum). unfold civil_from_days. rewrite Hz.
  set (d := year_start y + n) in *.
  assert (Hera : Z.quot (if 0 <=? 146097 * era + d then 146097 * era + d
                         else 146097 * era + d - 146096) 146097 = era).
  { destruct (0 <=? _) eqn:E; bool_simpl; Z.to_euclidean_division_equations; lia. }
  rewrite Hera. replace (146097 * era + d - era * 146097) with d by lia.
  assert (Hnn : 0 <= year_numerator d).
  { change 0 with (year_numerator 0). apply year_numerator_mono. lia. }
  rewrite (Z.quot_div_nonneg d 1460), (Z.quot_div_nonneg d 36524), (Z.quot_div_nonneg d 146096) by lia.
  fold (year_numerator d). rewrite (Z.quot_div_nonneg (year_numerator d) 365), Hnum by lia.
  rewrite (Z.quot_div_nonneg y 4), (Z.quot_div_nonneg y 100) by lia. fold (year_start y).
  replace (d - year_start y) with n by lia.
  rewrite (Z.quot_div_nonneg (5 * n + 2) 153) by lia.
  rewrite (Z.quot_div_nonneg (153 * _ + 2) 5).
  - unfold civil_at, month_day. f_equal. f_equal. lia.
  - pose proof (Z.div_pos (5 * n + 2) 153). lia.
  - lia.
Qed.

(** Usage is filed under the right date: [civil_from_days] is the
    Gregorian calendar, for every day before and after the epoch.  Day zero is
    1970-01-01, and the day after a date is the next date, through month ends,
    leap years and the changes of century. *)
Theorem civil_from_days_gregorian (days : Z) :
  civil_from_days 0 = (1970, 1, 1)
  /\ civil_from_days (days + 1) = next_day (civil_from_days days).
Proof.
  split; [reflexivity|]. set (z := days + 719468).
  set (era := z / 146097). set (d := z mod 146097).
  assert (Hz : z = 146097 * era + d) by (apply Z.div_mod; lia).
  assert (Hd : 0 <= d < 146097) by (apply Z.mod_pos_bound; lia).
  destruct (in_year_exists d Hd) as (y & n & Hy & Hn & Hyn).
  rewrite (civil_from_days_at days era y n); [|lia|by apply in_year_intro].
  assert (Hleap : leap (y + 400 * era + 1) = leap (y + 1)).
  { replace (y + 400 * era + 1) with (y + 1 + 400 * era) by lia. apply leap_period. }
  rewrite next_day_civil_at by (by rewrite Hleap). rewrite Hleap. fold (year_length y).
  destruct (n + 1 <? year_length y) eqn:E; bool_simpl.
  - apply civil_from_days_at; [lia|]. apply in_year_intro; lia.
  - destruct (Z.eq_dec y 399) as [->|Hne].
    + destruct last_year_check as (_ & _ & Hs). change (year_length 399) with 366 in *.
      rewrite (civil_from_days_at (days + 1) (era + 1) 0 0).
      * f_equal. lia.
      * change (year_start 0) with 0. lia.
      * by apply in_year_intro.
    + destruct (year_check_at y ltac:(lia)) as (_ & _ & Hs).
      rewrite (civil_from_days_at (days + 1) era (y + 1) 0).
      * f_equal. lia.
      * lia.
      * apply in_year_intro; [lia|]. unfold year_length. case_match; lia.
Qed.
