(* ===== verification/CompactionReplay.v ===== *)
(** * Replay of compaction checkpoints

    [kproxyd/src/http/compaction_replay.rs]: when a client drops the
    [compaction] block of an earlier answer, the proxy puts the checkpoint back
    at the assistant message that follows the history it replaced, recognised
    by a digest.

    SHA-256, the JSON printer and the iteration order of the hash map are
    arguments; an [Instant] is a number of nanoseconds.  The lock is released
    in the middle of [find], so what other requests do there is an argument of
    it too. *)

From Stdlib Require Import ZArith Lia Ascii String.
From stdpp Require Import base list gmap strings.
From S2P Require Import Prelude RustStr F64 Json Protocol.

Local Open Scope kproxy_scope.
Local Open Scope string_scope.
Local Open Scope list_scope.

Definition REPLAY_TTL : Z := 60 * 60 * 1000000000.
Definition MAX_REPLAY_ENTRIES : nat := 256.
Definition MAX_CHECKPOINT_BYTES : Z := 128 * 1024.

Record CompactionReplaySource := { src_message_count : nat; src_digest : string }.

Record CompactionReplayApplied := {
  ap_source_message_count : nat;
  ap_incoming_message_count : nat;
  ap_checkpoint_bytes : nat;
}.

Record CompactionReplay := {
  cr_source_message_count : nat;
  cr_incoming_message_count : nat;
  cr_checkpoint : string;
}.

Record ReplayEntry := {
  re_source : CompactionReplaySource;
  re_checkpoint : string;
  re_expires_at : Z;
  re_last_used_at : Z;
}.

Abbreviation Entries := (gmap string ReplayEntry).

(** ** Message contents *)

Definition completed_block (block : value) : bool :=
  bool_decide (get_str block "type" = Some "compaction")
  && is_some_and (get_str block "content") (fun content => negb (is_empty content)).

Definition has_completed_compaction (content : value) : bool :=
  is_some_and (as_array content) (existsb completed_block).

Definition boundary (checkpoint : string) : value :=
  json_object [("type", Str "compaction"); ("content", Str checkpoint)].

Definition prepend_compaction (content : value) (checkpoint : string) : option value :=
  match content with
  | Array blocks => Some (Array (boundary checkpoint :: blocks))
  | Str text =>
      Some (Array (if is_empty text then [boundary checkpoint]
                   else [boundary checkpoint;
                         json_object [("type", Str "text"); ("text", Str text)]]))
  | _ => None
  end.

Definition apply_to (r : CompactionReplay) (messages : list ClaudeMessage) :
    list ClaudeMessage * option CompactionReplayApplied :=
  match messages !! cr_source_message_count r with
  | None => (messages, None)
  | Some assistant =>
      if negb (bool_decide (cm_role assistant = "assistant"))
         || has_completed_compaction (cm_content assistant)
      then (messages, None) else
      match prepend_compaction (cm_content assistant) (cr_checkpoint r) with
      | None => (messages, None)
      | Some content =>
          (<[cr_source_message_count r := cm_set_content assistant content]> messages,
           Some {| ap_source_message_count := cr_source_message_count r;
                   ap_incoming_message_count := cr_incoming_message_count r;
                   ap_checkpoint_bytes := len (cr_checkpoint r) |})
      end
  end.

(** ** The tracker *)

Section Tracker.
Context (sha256 : string -> string) (to_json : list ClaudeMessage -> option string).
Context (iter : Entries -> list (string * ReplayEntry)).

Definition digest_messages (messages : list ClaudeMessage) : option string :=
  match to_json messages with
  | None => None
  | Some json =>
      Some (sha256 (("kproxy-compaction-replay-v1" +:+ String "000" EmptyString) +:+ json))
  end.

Definition capture (messages : list ClaudeMessage) : option CompactionReplaySource :=
  match digest_messages messages with
  | None => None
  | Some digest => Some {| src_message_count := length messages; src_digest := digest |}
  end.

Definition prune_expired (now : Z) (entries : Entries) : Entries :=
  filter (fun '(_, entry) => (now < re_expires_at entry)%Z) entries.

(** [while entries.len() > MAX_REPLAY_ENTRIES]; every round removes one entry. *)
Fixpoint evict (fuel : nat) (entries : Entries) : Entries :=
  if (size entries <=? MAX_REPLAY_ENTRIES)%nat then entries else
  match fuel with
  | O => entries
  | S fuel =>
      match min_by_key (fun e : string * ReplayEntry => re_last_used_at e.2) (iter entries) with
      | None => entries
      | Some (oldest, _) => evict fuel (delete oldest entries)
      end
  end.

Definition remember (now : Z) (scope : string) (source : CompactionReplaySource)
    (checkpoint : string) (entries : Entries) : Entries * bool :=
  if is_empty checkpoint || (MAX_CHECKPOINT_BYTES <? Z.of_nat (len checkpoint))%Z then (entries, false) else
  let entries :=
    <[scope := {| re_source := source; re_checkpoint := checkpoint;
                  re_expires_at := now + REPLAY_TTL; re_last_used_at := now |}]>
      (prune_expired now entries) in
  (evict (size entries) entries, true).

(** The second critical section of [find]. *)
Definition touch (now : Z) (scope digest : string) (entries : Entries) : Entries :=
  match entries !! scope with
  | None => entries
  | Some current =>
      if bool_decide (src_digest (re_source current) = digest) then
        <[scope := {| re_source := re_source current; re_checkpoint := re_checkpoint current;
                      re_expires_at := now + REPLAY_TTL; re_last_used_at := now |}]> entries
      else entries
  end.

Definition find (now : Z) (between : Entries -> Entries) (scope : string)
    (messages : list ClaudeMessage) (entries : Entries) : Entries * option CompactionReplay :=
  let entries := prune_expired now entries in
  match entries !! scope with
  | None => (between entries, None)
  | Some entry =>
      let entries := between entries in
      let count := src_message_count (re_source entry) in
      if (length messages <=? count)%nat then (entries, None) else
      match messages !! count with
      | None => (entries, None)
      | Some assistant =>
          if negb (bool_decide (cm_role assistant = "assistant"))
             || has_completed_compaction (cm_content assistant)
          then (entries, None) else
          match digest_messages (take count messages) with
          | None => (entries, None)
          | Some digest =>
              if negb (bool_decide (digest = src_digest (re_source entry)))
              then (entries, None)
              else
                (touch now scope (src_digest (re_source entry)) entries,
                 Some {| cr_source_message_count := count;
                         cr_incoming_message_count := length messages;
                         cr_checkpoint := re_checkpoint entry |})
          end
      end
  end.

Definition apply (now : Z) (between : Entries -> Entries) (scope : string)
    (messages : list ClaudeMessage) (entries : Entries) :
    Entries * list ClaudeMessage * option CompactionReplayApplied :=
  let '(entries, replay) := find now between scope messages entries in
  match replay with
  | None => (entries, messages, None)
  | Some replay =>
      let '(messages, applied) := apply_to replay messages in (entries, messages, applied)
  end.

(** ** Properties *)

(** The trackers that callers can reach, with what was remembered on the way;
    the last two steps are the critical sections of [find]. *)
Inductive reached : list (string * list ClaudeMessage * string) -> Entries -> Prop :=
| reached_new : reached [] ∅
| reached_remember hist entries now scope messages source checkpoint :
    reached hist entries -> capture messages = Some source ->
    reached ((scope, messages, checkpoint) :: hist)
      (fst (remember now scope source checkpoint entries))
| reached_prune hist entries now :
    reached hist entries -> reached hist (prune_expired now entries)
| reached_touch hist entries now scope digest :
    reached hist entries -> reached hist (touch now scope digest entries).

(** An entry holds a checkpoint remembered for its scope and the digest of the
    history that went with it. *)
Record entry_ok (hist : list (string * list ClaudeMessage * string)) (scope : string)
    (entry : ReplayEntry) : Prop := {
  eo_source : exists messages,
    (scope, messages, re_checkpoint entry) ∈ hist /\ capture messages = Some (re_source entry);
  eo_nonempty : is_empty (re_checkpoint entry) = false;
  eo_small : (Z.of_nat (len (re_checkpoint entry)) <= MAX_CHECKPOINT_BYTES)%Z;
  eo_ttl : re_expires_at entry = (re_last_used_at entry + REPLAY_TTL)%Z;
}.

Lemma evict_subseteq fuel entries : evict fuel entries ⊆ entries.
Proof.
  revert entries; induction fuel as [|fuel IH]; intros entries; cbn [evict];
    (case_match; [done|]); [done|].
  destruct (min_by_key _ _) as [[oldest e]|]; [|done]. etrans; [apply IH|]. apply delete_subseteq.
Qed.

Lemma entry_ok_more hist x scope entry : entry_ok hist scope entry -> entry_ok (x :: hist) scope entry.
Proof.
  intros [(messages & Hin & Hc) ? ? ?]. constructor; try done. exists messages.
  split; [by right|done].
Qed.

Lemma reached_entries hist entries :
  reached hist entries -> map_Forall (entry_ok hist) entries.
Proof.
  induction 1 as [|hist entries now scope messages source cp _ IH Hcap|hist entries now _ IH
                  |hist entries now scope digest _ IH].
  - apply map_Forall_empty.
  - assert (IH' : map_Forall (entry_ok ((scope, messages, cp) :: hist)) entries)
      by (eapply map_Forall_impl; [done|]; intros; by apply entry_ok_more).
    unfold remember. destruct (is_empty cp || _) eqn:E; [done|].
    apply orb_false_elim in E as [He Hl]. apply Z.ltb_ge in Hl. intros k x Hx.
    pose proof (lookup_weaken _ _ _ _ Hx (evict_subseteq _ _)) as Hx'.
    apply lookup_insert_Some in Hx' as [[<- <-]|[_ Hk]].
    + constructor; cbn; [|done..]. exists messages. split; [left|done].
    + apply map_lookup_filter_Some in Hk as [Hk _]. by apply IH'.
  - intros k x Hx. apply map_lookup_filter_Some in Hx as [Hx _]. by apply IH.
  - unfold touch. destruct (entries !! scope) as [current|] eqn:E; [|done].
    case_bool_decide; [|done]. apply map_Forall_insert_2; [|done].
    destruct (IH _ _ E) as [? ? ? ?]. by constructor.
Qed.

Context (iter_perm : forall m, iter m ≡ₚ map_to_list m).

Lemma evict_size fuel entries :
  size entries <= fuel + MAX_REPLAY_ENTRIES -> size (evict fuel entries) <= MAX_REPLAY_ENTRIES.
Proof.
  revert entries; induction fuel as [|fuel IH]; intros entries Hsize; cbn [evict].
  { case_match; lia. }
  destruct (size entries <=? MAX_REPLAY_ENTRIES)%nat eqn:E; [by apply Nat.leb_le|].
  apply Nat.leb_gt in E.
  destruct (min_by_key _ (iter entries)) as [[oldest e]|] eqn:Hmin.
  - apply min_by_key_spec in Hmin as [Hin _]. rewrite iter_perm in Hin.
    apply elem_of_map_to_list in Hin. apply IH. rewrite map_size_delete_Some by eauto. lia.
  - apply min_by_key_None in Hmin. assert (Hp := iter_perm entries). rewrite Hmin in Hp.
    apply Permutation_nil_l in Hp. apply (f_equal length) in Hp.
    rewrite length_map_to_list in Hp. cbn in Hp. lia.
Qed.

Lemma reached_size hist entries : reached hist entries -> size entries <= MAX_REPLAY_ENTRIES.
Proof.
  induction 1 as [|hist entries now scope messages source cp _ IH Hcap|hist entries now _ IH
                  |hist entries now scope digest _ IH].
  - rewrite map_size_empty. lia.
  - unfold remember. destruct (is_empty cp || _); [done|]. cbn [fst]. apply evict_size. lia.
  - etrans; [|done]. apply map_subseteq_size, map_filter_subseteq.
  - unfold touch. destruct (entries !! scope) eqn:E; [|done]. case_bool_decide; [|done].
    rewrite map_size_insert_Some by eauto. done.
Qed.
(** What the tracker keeps is bounded and expires: however many checkpoints
    are remembered, there are at most 256 entries, each with a checkpoint that
    is not empty and of at most 128 KiB, and each entry lives for one hour
    after it was last used. *)
Theorem replay_entries_bounded hist entries :
  reached hist entries ->
  size entries <= MAX_REPLAY_ENTRIES
  /\ map_Forall (fun _ entry =>
       is_empty (re_checkpoint entry) = false
       /\ (Z.of_nat (len (re_checkpoint entry)) <= MAX_CHECKPOINT_BYTES)%Z
       /\ re_expires_at entry = (re_last_used_at entry + REPLAY_TTL)%Z) entries.
Proof.
  intros Hr. split; [by eapply reached_size|]. eapply map_Forall_impl; [by apply reached_entries|].
  by intros scope entry [_ ? ? ?].
Qed.

(** The content blocks of a message. *)
Definition blocks_of (content : value) : list value :=
  match content with
  | Array blocks => blocks
  | Str text =>
      if is_empty text then [] else [json_object [("type", Str "text"); ("text", Str text)]]
  | _ => []
  end.

Lemma prepend_blocks content checkpoint v :
  prepend_compaction content checkpoint = Some v ->
  v = Array (boundary checkpoint :: blocks_of content).
Proof.
  destruct content as [| | |text|blocks|]; cbn; intros; simplify_eq; [|done].
  by destruct (is_empty text).
Qed.

Lemma boundary_completed checkpoint blocks :
  is_empty checkpoint = false ->
  has_completed_compaction (Array (boundary checkpoint :: blocks)) = true.
Proof.
  intros Hne. unfold has_completed_compaction. cbn [as_array is_some_and existsb].
  replace (completed_block (boundary checkpoint)) with true; [done|].
  unfold completed_block. change (get_str (boundary checkpoint) "type") with (Some "compaction").
  change (get_str (boundary checkpoint) "content") with (Some checkpoint).
  cbn [is_some_and]. by rewrite Hne.
Qed.

(** What [find] has checked when it answers. *)
Lemma find_Some now between scope messages entries entries' r :
  find now between scope messages entries = (entries', Some r) ->
  exists entry, entries !! scope = Some entry /\ (now < re_expires_at entry)%Z
    /\ digest_messages (take (src_message_count (re_source entry)) messages)
         = Some (src_digest (re_source entry))
    /\ src_message_count (re_source entry) < length messages
    /\ cr_source_message_count r = src_message_count (re_source entry)
    /\ cr_incoming_message_count r = length messages
    /\ cr_checkpoint r = re_checkpoint entry
    /\ entries' = touch now scope (src_digest (re_source entry)) (between (prune_expired now entries)).
Proof.
  unfold find. destruct (prune_expired now entries !! scope) as [entry|] eqn:E; [|done].
  destruct (_ <=? _)%nat eqn:Hlen; [done|]. apply Nat.leb_gt in Hlen.
  destruct (messages !! _) as [assistant|]; [|done]. destruct (_ || _); [done|].
  destruct (digest_messages _) as [digest|] eqn:Hd; [|done].
  case_bool_decide; [|done]. cbn [negb]. intros [= <- <-].
  apply map_lookup_filter_Some in E as [E Hlive]. subst digest. by exists entry.
Qed.

(** What [apply] has checked and done when it succeeds. *)
Lemma apply_Some hist entries now between scope messages entries' messages' applied :
  reached hist entries ->
  apply now between scope messages entries = (entries', messages', Some applied) ->
  exists source checkpoint assistant rest digest,
    (scope, source, checkpoint) ∈ hist
    /\ is_empty checkpoint = false
    /\ length source < length messages
    /\ messages = take (length source) messages ++ assistant :: rest
    /\ digest_messages (take (length source) messages) = digest_messages source
    /\ cm_role assistant = "assistant"
    /\ has_completed_compaction (cm_content assistant) = false
    /\ messages' = take (length source) messages
         ++ cm_set_content assistant
              (Array (boundary checkpoint :: blocks_of (cm_content assistant))) :: rest
    /\ (exists entry, entries !! scope = Some entry /\ (now < re_expires_at entry)%Z)
    /\ applied = {| ap_source_message_count := length source;
                    ap_incoming_message_count := length messages;
                    ap_checkpoint_bytes := len checkpoint |}
    /\ entries' = touch now scope digest (between (prune_expired now entries)).
Proof.
  intros Hr. unfold apply. destruct (find _ _ _ _ _) as [e' [r|]] eqn:Hf; [|done].
  apply find_Some in Hf as (entry & Hentry & Hlive & Hdig & Hlen & Hcount & Hin & Hcp & ->).
  pose proof (reached_entries _ _ Hr _ _ Hentry) as [(source & Hsource & Hcap) Hne _ _].
  unfold capture in Hcap. destruct (digest_messages source) as [digest|] eqn:Hd; [|done].
  injection Hcap as Hcap. rewrite <- Hcap in *. cbn [src_message_count src_digest] in *.
  destruct (apply_to r messages) as [ms ap] eqn:Ha. intros [= <- <- ->].
  unfold apply_to in Ha. rewrite Hcount in Ha.
  destruct (messages !! length source) as [assistant|] eqn:Hm; [|done].
  destruct (_ || _) eqn:Erole; [done|]. apply orb_false_elim in Erole as [Hrole Hfresh].
  apply negb_false_iff, bool_decide_eq_true in Hrole.
  destruct (prepend_compaction _ _) as [v|] eqn:Hp; [|done]. apply prepend_blocks in Hp.
  injection Ha as <- <-. rewrite Hcp in *. subst v.
  exists source, (re_checkpoint entry), assistant, (drop (S (length source)) messages), digest.
  rewrite (insert_take_drop _ _ _ Hlen). split_and!; try done.
  - symmetry. by apply take_drop_middle.
  - by rewrite Hdig.
  - by exists entry.
  - by rewrite Hin.
Qed.

(** C38: A checkpoint is replayed only on the history it summarises: the scope
    had remembered it, for a history with the digest and the length of the
    part of the request it now replaces, and it has not expired.  The one
    message changed is the assistant message after that part, which keeps its
    blocks behind the checkpoint, and a second application does nothing.
    Whatever other requests do in the middle, the tracker stays one that
    callers can reach. *)
Theorem compaction_replay_sound hist hist' entries now between scope messages
    entries' messages' applied :
  reached hist entries ->
  (forall e, reached hist e -> reached hist' (between e)) ->
  apply now between scope messages entries = (entries', messages', Some applied) ->
  reached hist' entries'
  /\ exists source checkpoint assistant rest,
       (scope, source, checkpoint) ∈ hist
       /\ messages = take (length source) messages ++ assistant :: rest
       /\ digest_messages (take (length source) messages) = digest_messages source
       /\ cm_role assistant = "assistant"
       /\ messages' = take (length source) messages
            ++ cm_set_content assistant
                 (Array (boundary checkpoint :: blocks_of (cm_content assistant))) :: rest
       /\ (exists entry, entries !! scope = Some entry /\ (now < re_expires_at entry)%Z)
       /\ applied = {| ap_source_message_count := length source;
                       ap_incoming_message_count := length messages;
                       ap_checkpoint_bytes := len checkpoint |}
       /\ forall r, cr_source_message_count r = length source ->
            apply_to r messages' = (messages', None).
Proof.
  intros Hr Hbetween Happly.
  destruct (apply_Some _ _ _ _ _ _ _ _ _ Hr Happly) as (source & checkpoint & assistant & rest & digest
    & Hsource & Hne & Hlen & Hm & Hdig & Hrole & _ & Hm' & Hentry & Hap & ->).
  split; [apply reached_touch, Hbetween, reached_prune, Hr|].
  exists source, checkpoint, assistant, rest. split_and!; try done.
  intros r' Hr'. unfold apply_to. rewrite Hr', Hm'.
  rewrite lookup_app_r by (rewrite length_take; lia).
  rewrite length_take, Nat.min_l, Nat.sub_diag by lia.
  change ((?x :: ?l) !! 0%nat) with (Some x). cbn [cm_content cm_set_content].
  by rewrite boundary_completed, orb_true_r.
Qed.
End Tracker.

(** ** A concrete conversation *)

Definition demo_message (role text : string) : ClaudeMessage :=
  {| cm_role := role; cm_content := Str text; cm_cache_control := None;
     cm_output_config := None; cm_extra := [] |}.

Definition demo_json (messages : list ClaudeMessage) : option string :=
  Some (join "," ((fun m => cm_role m +:+ ":" +:+ unwrap_or (as_str (cm_content m)) "") <$> messages)).

Definition demo_source : list ClaudeMessage := [demo_message "user" "old"].

Definition demo_digest : string :=
  unwrap_or (digest_messages (fun s => s) demo_json demo_source) EmptyString.

Definition demo_entries : Entries :=
  fst (remember map_to_list 0 "scope"
         {| src_message_count := 1; src_digest := demo_digest |} "checkpoint" ∅).

Definition demo_request : list ClaudeMessage :=
  demo_source ++ [demo_message "assistant" "answer"; demo_message "user" "go on"].

Lemma demo_reached :
  reached (fun s => s) demo_json map_to_list [("scope", demo_source, "checkpoint")] demo_entries.
Proof. apply reached_remember; [constructor|reflexivity]. Qed.

Lemma replay_entries_bounded_witness : size demo_entries = 1 /\ size demo_entries <= MAX_REPLAY_ENTRIES.
Proof.
  split; [reflexivity|].
  apply (replay_entries_bounded (fun s => s) demo_json map_to_list (fun m => Permutation_refl _)
           _ _ demo_reached).
Defined.

Lemma compaction_replay_sound_witness :
  let '(entries', messages', applied) :=
    apply (fun s => s) demo_json 5 (fun e => e) "scope" demo_request demo_entries in
  applied = Some {| ap_source_message_count := 1; ap_incoming_message_count := 3;
                    ap_checkpoint_bytes := 10 |}
  /\ reached (fun s => s) demo_json map_to_list [("scope", demo_source, "checkpoint")] entries'.
Proof.
  destruct (apply _ _ _ _ _ _ _) as [[entries' messages'] applied] eqn:E.
  assert (Ha : applied = Some {| ap_source_message_count := 1; ap_incoming_message_count := 3;
                                 ap_checkpoint_bytes := 10 |})
    by (vm_compute in E; by simplify_eq).
  split; [exact Ha|]. rewrite Ha in E.
  apply (compaction_replay_sound (fun s => s) demo_json map_to_list _
           [("scope", demo_source, "checkpoint")] demo_entries 5 (fun e => e) "scope" demo_request
           entries' messages' _ demo_reached (fun e He => He) E).
Defined.
