(* ===== verification/Endpoint.v ===== *)
(** * Endpoints

    [kproxy-kiro/src/endpoint.rs]: the region and URL an account is served
    from, the order in which its endpoints are tried, and the bounded cache of
    what worked and what was rejected.

    The hash maps are [gmap]s and the insertion orders lists, oldest first; an
    [Instant] is a number, and every reading of the clock is an argument.  The
    cache is one mutex, so every operation is a step of its own. *)

From Stdlib Require Import ZArith Lia Ascii String.
From stdpp Require Import base list gmap strings countable relations.
From S2P Require Import Prelude RustStr F64 Account.

Local Open Scope kproxy_scope.
Local Open Scope string_scope.
Local Open Scope list_scope.

Definition CODEWHISPERER_URL : string :=
  "https://codewhisperer.us-east-1.amazonaws.com/generateAssistantResponse".
Definition AMAZONQ_URL : string := "https://q.us-east-1.amazonaws.com/generateAssistantResponse".
Definition MAX_ENDPOINT_CACHE_SIZE : nat := 500.

Inductive EndpointKey := Codewhisperer | Amazonq | Runtime.

#[export] Instance EndpointKey_eq_dec : EqDecision EndpointKey.
Proof. solve_decision. Defined.

#[export] Instance EndpointKey_countable : Countable EndpointKey.
Proof.
  refine (inj_countable' (fun k => match k with Codewhisperer => 0 | Amazonq => 1 | Runtime => 2 end)
    (fun n => match n with 0 => Codewhisperer | 1 => Amazonq | _ => Runtime end) _).
  by intros [].
Defined.

Inductive EndpointPurpose := Generation | Models.

#[export] Instance EndpointPurpose_eq_dec : EqDecision EndpointPurpose.
Proof. solve_decision. Defined.

#[export] Instance EndpointPurpose_countable : Countable EndpointPurpose.
Proof.
  refine (inj_countable' (fun p => match p with Generation => true | Models => false end)
    (fun b : bool => if b then Generation else Models) _).
  by intros [].
Defined.

Record KiroError := { ke_status : option Z; ke_endpoint : string; ke_message : string }.

Record EndpointDefinition := {
  ed_key : EndpointKey;
  ed_url : string;
  ed_origin : string;
  ed_amz_target : string;
  ed_name : string;
}.

Record EndpointOverrides := {
  codewhisperer_url : option string;
  amazonq_url : option string;
  mcp_url : option string;
  runtime_url : option string;
  management_url : option string;
}.

(** ** Regions and URLs *)

Definition is_region_byte (a : ascii) : bool := is_ascii_alphanumeric a || Ascii.eqb a "-".

Definition valid_region (region : string) : bool :=
  negb (is_empty region) && forallb is_region_byte (s2l region).

Definition invalid_region : KiroError :=
  {| ke_status := Some 400%Z; ke_endpoint := "region";
     ke_message := "account has an invalid API region" |}.

(** The region of a profile ARN, when it is one. *)
Definition arn_region (arn : string) : option string :=
  let parts := split arn (is_char ":") in
  match parts with
  | p0 :: p1 :: p2 :: p3 :: _ =>
      if (6 <=? length parts)%nat && bool_decide (p0 = "arn")
         && (bool_decide (p1 = "aws") || bool_decide (p1 = "aws-us-gov"))
         && bool_decide (p2 = "codewhisperer")
      then Some p3 else None
  | _ => None
  end.

Definition account_api_region (a : Account) : result string KiroError :=
  let credential_region := trim (region (credentials a)) in
  if negb (valid_region credential_region) then Err invalid_region else
  let profile_region := profile_arn a ≫= arn_region in
  let region :=
    if starts_with credential_region "us-gov-"
       || bool_decide (auth_method (credentials a) = ApiKey)
    then credential_region
    else unwrap_or profile_region
           (if starts_with credential_region "eu-" then "eu-central-1" else "us-east-1") in
  if negb (valid_region region) then Err invalid_region else Ok region.

Definition for_key (key : EndpointKey) (o : EndpointOverrides) : EndpointDefinition :=
  match key with
  | Codewhisperer =>
      {| ed_key := key; ed_url := unwrap_or (codewhisperer_url o) CODEWHISPERER_URL;
         ed_origin := "AI_EDITOR";
         ed_amz_target := "AmazonCodeWhispererStreamingService.GenerateAssistantResponse";
         ed_name := "CodeWhisperer" |}
  | Amazonq =>
      {| ed_key := key; ed_url := unwrap_or (amazonq_url o) AMAZONQ_URL;
         ed_origin := "AI_EDITOR"; ed_amz_target := ""; ed_name := "AmazonQ" |}
  | Runtime =>
      {| ed_key := key; ed_url := unwrap_or (runtime_url o) "https://runtime.us-east-1.kiro.dev/";
         ed_origin := "KIRO_CLI";
         ed_amz_target := "AmazonCodeWhispererStreamingService.GenerateAssistantResponse";
         ed_name := "KiroRuntime" |}
  end.

(** The URL template of an endpoint before ["{region}"] is filled in. *)
Definition account_url (key : EndpointKey) (o : EndpointOverrides) (region : string) : string :=
  match key with
  | Codewhisperer =>
      unwrap_or (codewhisperer_url o)
        ("https://codewhisperer." +:+ region +:+ ".amazonaws.com/generateAssistantResponse")
  | Amazonq =>
      unwrap_or (amazonq_url o)
        ("https://q." +:+ region +:+ ".amazonaws.com/generateAssistantResponse")
  | Runtime => unwrap_or (runtime_url o) ("https://runtime." +:+ region +:+ ".kiro.dev/")
  end.

Definition for_account (key : EndpointKey) (o : EndpointOverrides) (a : Account) :
    result EndpointDefinition KiroError :=
  let? region := account_api_region a in
  let endpoint := for_key key o in
  Ok {| ed_key := ed_key endpoint;
        ed_url := replace (account_url key o region) "{region}" region;
        ed_origin := ed_origin endpoint; ed_amz_target := ed_amz_target endpoint;
        ed_name := ed_name endpoint |}.

Definition endpoint_for_auth (method : AuthMethod) : EndpointKey :=
  match method with Idc => Amazonq | Social => Codewhisperer | ApiKey => Runtime end.

Definition other (endpoint : EndpointKey) : EndpointKey :=
  match endpoint with Codewhisperer => Amazonq | Amazonq => Codewhisperer | Runtime => Amazonq end.

(** ** The cache *)

Abbreviation PurposeKey := (string * EndpointPurpose)%type.

Record EndpointCacheState := {
  ec_preferred : gmap PurposeKey EndpointKey;
  ec_preferred_order : list PurposeKey;
  ec_disabled : gmap PurposeKey (gmap EndpointKey Z);
  ec_disabled_order : list PurposeKey;
  ec_revisions : gmap string Z;
  ec_revision_order : list string;
}.

Definition EndpointCacheState_default : EndpointCacheState :=
  {| ec_preferred := ∅; ec_preferred_order := []; ec_disabled := ∅; ec_disabled_order := [];
     ec_revisions := ∅; ec_revision_order := [] |}.

Definition DEFAULT_DISABLED_TTL_SECS : Z := 600.

(** [order.retain(|key| key != k)] *)
Definition without {A} `{EqDecision A} (k : A) (l : list A) : list A := filter (fun x => x <> k) l.

Definition set_preferred (s : EndpointCacheState) (m : gmap PurposeKey EndpointKey)
    (o : list PurposeKey) : EndpointCacheState :=
  {| ec_preferred := m; ec_preferred_order := o; ec_disabled := ec_disabled s;
     ec_disabled_order := ec_disabled_order s; ec_revisions := ec_revisions s;
     ec_revision_order := ec_revision_order s |}.

Definition set_disabled (s : EndpointCacheState) (m : gmap PurposeKey (gmap EndpointKey Z))
    (o : list PurposeKey) : EndpointCacheState :=
  {| ec_preferred := ec_preferred s; ec_preferred_order := ec_preferred_order s;
     ec_disabled := m; ec_disabled_order := o; ec_revisions := ec_revisions s;
     ec_revision_order := ec_revision_order s |}.

Definition set_revisions (s : EndpointCacheState) (m : gmap string Z) (o : list string) :
    EndpointCacheState :=
  {| ec_preferred := ec_preferred s; ec_preferred_order := ec_preferred_order s;
     ec_disabled := ec_disabled s; ec_disabled_order := ec_disabled_order s;
     ec_revisions := m; ec_revision_order := o |}.

(** [if map.len() >= MAX { if let Some(oldest) = order.pop_front() { map.remove(oldest) } }] *)
Definition evict_oldest {K V} `{Countable K} (m : gmap K V) (o : list K) : gmap K V * list K :=
  if (MAX_ENDPOINT_CACHE_SIZE <=? size m)%nat then
    match o with [] => (m, o) | oldest :: o => (delete oldest m, o) end
  else (m, o).

Definition evict_oldest_preferred_if_full (s : EndpointCacheState) : EndpointCacheState :=
  let '(m, o) := evict_oldest (ec_preferred s) (ec_preferred_order s) in set_preferred s m o.

Definition evict_oldest_disabled_if_full (s : EndpointCacheState) : EndpointCacheState :=
  let '(m, o) := evict_oldest (ec_disabled s) (ec_disabled_order s) in set_disabled s m o.

Definition clear_endpoint_failure (k : PurposeKey) (e : EndpointKey) (s : EndpointCacheState) :
    EndpointCacheState :=
  match ec_disabled s !! k with
  | None => s
  | Some failures =>
      let failures := delete e failures in
      if bool_decide (failures = ∅)
      then set_disabled s (delete k (ec_disabled s)) (without k (ec_disabled_order s))
      else set_disabled s (<[k := failures]> (ec_disabled s)) (ec_disabled_order s)
  end.

Definition is_disabled (now : Z) (k : PurposeKey) (e : EndpointKey) (s : EndpointCacheState) :
    EndpointCacheState * bool :=
  match ec_disabled s !! k ≫= lookup e with
  | None => (s, false)
  | Some until =>
      if (now <? until)%Z then (s, true) else (clear_endpoint_failure k e s, false)
  end.

Definition mark_success_locked (id : string) (p : EndpointPurpose) (e : EndpointKey)
    (s : EndpointCacheState) : EndpointCacheState :=
  let k := (id, p) in
  let s := clear_endpoint_failure k e s in
  let s := if is_some (ec_preferred s !! k) then s else evict_oldest_preferred_if_full s in
  set_preferred s (<[k := e]> (ec_preferred s)) (without k (ec_preferred_order s) ++ [k]).

Definition mark_disabled_locked (now ttl : Z) (id : string) (p : EndpointPurpose)
    (e : EndpointKey) (s : EndpointCacheState) : EndpointCacheState :=
  let k := (id, p) in
  let s := if is_some (ec_disabled s !! k) then s else evict_oldest_disabled_if_full s in
  let failures := unwrap_or (ec_disabled s !! k) ∅ in
  let s := set_disabled s (<[k := <[e := (now + ttl)%Z]> failures]> (ec_disabled s))
             (without k (ec_disabled_order s) ++ [k]) in
  if bool_decide (ec_preferred s !! k = Some e)
  then set_preferred s (delete k (ec_preferred s)) (without k (ec_preferred_order s))
  else s.

Definition revision (id : string) (s : EndpointCacheState) : Z :=
  unwrap_or (ec_revisions s !! id) 0%Z.

Definition bump_revision (id : string) (s : EndpointCacheState) : EndpointCacheState :=
  let s :=
    if is_some (ec_revisions s !! id) then s
    else
      let '(m, o) := evict_oldest (ec_revisions s) (ec_revision_order s) in
      set_revisions s m (o ++ [id]) in
  set_revisions s (<[id := wrap_u64 (revision id s + 1)]> (ec_revisions s)) (ec_revision_order s).

Definition remove_failures (id : string) (s : EndpointCacheState) : EndpointCacheState :=
  set_disabled s (filter (fun '((i, _), _) => i <> id) (ec_disabled s))
    (filter (fun k : PurposeKey => k.1 <> id) (ec_disabled_order s)).

Definition clear_failures (id : string) (s : EndpointCacheState) : EndpointCacheState :=
  remove_failures id (bump_revision id s).

Definition clear_account (id : string) (s : EndpointCacheState) : EndpointCacheState :=
  let s := bump_revision id s in
  remove_failures id
    (set_preferred s (filter (fun '((i, _), _) => i <> id) (ec_preferred s))
       (filter (fun k : PurposeKey => k.1 <> id) (ec_preferred_order s))).

Definition preferred (id : string) (p : EndpointPurpose) (s : EndpointCacheState) :
    option EndpointKey := ec_preferred s !! (id, p).

Definition mark_success := mark_success_locked.
Definition mark_disabled := mark_disabled_locked.

Definition mark_success_if_revision (id : string) (p : EndpointPurpose) (e : EndpointKey)
    (expected : Z) (s : EndpointCacheState) : EndpointCacheState * bool :=
  if negb (revision id s =? expected)%Z then (s, false) else (mark_success_locked id p e s, true).

Definition mark_disabled_if_revision (now ttl : Z) (id : string) (p : EndpointPurpose)
    (e : EndpointKey) (expected : Z) (s : EndpointCacheState) : EndpointCacheState * bool :=
  if negb (revision id s =? expected)%Z then (s, false)
  else (mark_disabled_locked now ttl id p e s, true).

(** The loop of [order]; [nows i] is the clock at the [i]-th candidate. *)
Fixpoint order_loop (nows : nat -> Z) (i : nat) (k : PurposeKey) (candidates acc : list EndpointKey)
    (s : EndpointCacheState) : EndpointCacheState * list EndpointKey :=
  match candidates with
  | [] => (s, acc)
  | candidate :: candidates =>
      if bool_decide (candidate ∈ acc) then order_loop nows (S i) k candidates acc s else
      let '(s, disabled) := is_disabled (nows i) k candidate s in
      order_loop nows (S i) k candidates (if disabled then acc else acc ++ [candidate]) s
  end.

(** The candidates of an account that may use the commercial endpoints. *)
Definition order_candidates (a : Account) (explicit cached : option EndpointKey) :
    list EndpointKey :=
  let inferred := endpoint_for_auth (auth_method (credentials a)) in
  option_list explicit ++ option_list (if is_some explicit then None else cached)
    ++ [inferred; other inferred].

Definition runtime_only (a : Account) : bool :=
  bool_decide (auth_method (credentials a) = ApiKey)
  || match account_api_region a with
     | Ok region => starts_with region "us-gov-"
     | Err _ => false
     end.

Definition order (nows : nat -> Z) (a : Account) (explicit : option EndpointKey)
    (p : EndpointPurpose) (s : EndpointCacheState) : EndpointCacheState * list EndpointKey :=
  let k := (acc_id a, p) in
  let cached := ec_preferred s !! k in
  if runtime_only a then
    let '(s, disabled) := is_disabled (nows 0%nat) k Runtime s in
    (s, if disabled then [] else [Runtime])
  else order_loop nows 0 k (order_candidates a explicit cached) [] s.
