(* ===== verification/EndpointFacts.v ===== *)
(** * Facts about endpoints

    The cache is three first-in-first-out maps with a bound; regions are safe
    to put into a host name; the order in which endpoints are tried; answers
    that arrive after an account's state was cleared are ignored. *)

From Stdlib Require Import ZArith Lia Ascii String.
From stdpp Require Import base list gmap strings countable relations.
From S2P Require Import Prelude RustStr F64 Account Endpoint.

Local Open Scope kproxy_scope.
Local Open Scope string_scope.
Local Open Scope list_scope.

(** ** Bounded first-in-first-out maps *)

Section Fifo.
Context {K V : Type} `{Countable K}.
Implicit Types (m : gmap K V) (o : list K).

Record fifo_ok m o : Prop := {
  fo_unique : NoDup o;
  fo_keys : forall k, k ∈ o <-> is_Some (m !! k);
  fo_bound : size m <= MAX_ENDPOINT_CACHE_SIZE;
}.

Lemma fifo_empty : fifo_ok ∅ [].
Proof.
  split; [constructor| |by rewrite map_size_empty; unfold MAX_ENDPOINT_CACHE_SIZE; lia].
  intros k. rewrite lookup_empty. split; [intros Hk; by apply not_elem_of_nil in Hk|].
  by intros [? ?].
Qed.

Lemma elem_of_without k k' o : k' ∈ without k o <-> k' <> k /\ k' ∈ o.
Proof. unfold without. by rewrite list_elem_of_filter. Qed.

Lemma NoDup_without k o : NoDup o -> NoDup (without k o).
Proof. apply NoDup_filter. Qed.

Lemma fifo_insert m o k v :
  fifo_ok m o -> is_Some (m !! k) \/ size m < MAX_ENDPOINT_CACHE_SIZE ->
  fifo_ok (<[k := v]> m) (without k o ++ [k]).
Proof.
  intros [Hu Hk Hb] Hroom. split.
  - apply NoDup_app. split_and!; [by apply NoDup_without| |apply NoDup_singleton].
    intros x [Hne _]%elem_of_without Hx. by apply list_elem_of_singleton in Hx.
  - intros x. rewrite elem_of_app, elem_of_without, list_elem_of_singleton, lookup_insert_is_Some, Hk.
    destruct (decide (x = k)); naive_solver.
  - destruct (m !! k) eqn:E.
    + by rewrite map_size_insert_Some by eauto.
    + rewrite map_size_insert_None by done. destruct Hroom as [[? ?]|?]; [done|lia].
Qed.

Lemma fifo_update m o k v : fifo_ok m o -> is_Some (m !! k) -> fifo_ok (<[k := v]> m) o.
Proof.
  intros [Hu Hk Hb] Hsome. split; [done| |by rewrite map_size_insert_Some].
  intros x. rewrite Hk, lookup_insert_is_Some. destruct (decide (k = x)); naive_solver.
Qed.

Lemma fifo_delete m o k : fifo_ok m o -> fifo_ok (delete k m) (without k o).
Proof.
  intros [Hu Hk Hb]. split; [by apply NoDup_without| |].
  - intros x. rewrite elem_of_without, lookup_delete_is_Some, Hk. naive_solver.
  - etrans; [|done]. apply map_subseteq_size, delete_subseteq.
Qed.

Lemma fifo_filter (P : K -> Prop) `{forall k, Decision (P k)} m o :
  fifo_ok m o -> fifo_ok (filter (fun kv => P kv.1) m) (filter P o).
Proof.
  intros [Hu Hk Hb]. split; [by apply NoDup_filter| |].
  - intros x. rewrite list_elem_of_filter, Hk. split.
    + intros [HP [v Hv]]. exists v. by apply map_lookup_filter_Some.
    + intros [v Hv]. apply map_lookup_filter_Some in Hv as [Hv HP]. eauto.
  - etrans; [|done]. apply map_subseteq_size, map_filter_subseteq.
Qed.

(** Evicting makes room, and takes the oldest key only. *)
Lemma fifo_evict m o m' o' :
  fifo_ok m o -> evict_oldest m o = (m', o') ->
  fifo_ok m' o' /\ size m' < MAX_ENDPOINT_CACHE_SIZE
  /\ m' ⊆ m /\ (size m < MAX_ENDPOINT_CACHE_SIZE -> m' = m).
Proof.
  intros Hok. pose proof Hok as [Hu Hk Hb]. unfold evict_oldest.
  destruct (_ <=? _)%nat eqn:E; [apply Nat.leb_le in E|apply Nat.leb_gt in E].
  - destruct o as [|k o]; intros; simplify_eq.
    + exfalso. assert (m' = ∅) as ->.
      { apply map_empty. intros k. apply eq_None_not_Some. rewrite <- Hk. apply not_elem_of_nil. }
      rewrite map_size_empty in E. unfold MAX_ENDPOINT_CACHE_SIZE in E. lia.
    + apply NoDup_cons in Hu as [Hnew Hu]. assert (is_Some (m !! k)) as Hsome by (apply Hk; left).
      split_and!; [|rewrite map_size_delete_Some by done; destruct (size m) eqn:Es;
        [apply map_size_empty_inv in Es as ->; rewrite lookup_empty in Hsome; by destruct Hsome|];
        simpl; lia|apply delete_subseteq|lia].
      replace o' with (without k (k :: o')); [by apply fifo_delete|].
      unfold without. rewrite filter_cons_False by auto. apply filter_all.
      intros x Hx ->. done.
  - intros; simplify_eq. done.
Qed.
End Fifo.

(** ** The invariant of the cache *)

Definition failures (s : EndpointCacheState) (k : PurposeKey) : gmap EndpointKey Z :=
  unwrap_or (ec_disabled s !! k) ∅.

Record cache_ok (s : EndpointCacheState) : Prop := {
  ck_preferred : fifo_ok (ec_preferred s) (ec_preferred_order s);
  ck_disabled : fifo_ok (ec_disabled s) (ec_disabled_order s);
  ck_revisions : fifo_ok (ec_revisions s) (ec_revision_order s);
  ck_failures : forall k m, ec_disabled s !! k = Some m -> m <> ∅;
  ck_exclusive : forall k e, ec_preferred s !! k = Some e -> failures s k !! e = None;
  ck_u64 : forall id n, ec_revisions s !! id = Some n -> (0 <= n <= U64_MAX)%Z;
}.

Lemma cache_ok_default : cache_ok EndpointCacheState_default.
Proof.
  split; cbn; try apply fifo_empty; intros *; rewrite ?lookup_empty; done.
Qed.

Lemma clear_failure_ok k e s : cache_ok s -> cache_ok (clear_endpoint_failure k e s).
Proof.
  intros Hok. pose proof Hok as [Hp Hd Hr Hf Hx Hu]. unfold clear_endpoint_failure.
  destruct (ec_disabled s !! k) as [m|] eqn:E; [|done]. case_bool_decide as Hm.
  - split; cbn; try done; [by apply fifo_delete| |].
    + intros k' m'. rewrite lookup_delete_Some. intros [_ Hk]. by eapply Hf.
    + intros k' e' Hk'. unfold failures. cbn. specialize (Hx k' e' Hk'). unfold failures in Hx.
      destruct (decide (k = k')) as [<-|Hne]; [by rewrite lookup_delete_eq|].
      by rewrite lookup_delete_ne.
  - split; cbn; try done; [apply fifo_update; eauto| |].
    + intros k' m' [[<- <-]|[_ Hk]]%lookup_insert_Some; [done|by eapply Hf].
    + intros k' e' Hk'. unfold failures. cbn. specialize (Hx k' e' Hk'). unfold failures in Hx.
      destruct (decide (k = k')) as [<-|Hne]; [|by rewrite lookup_insert_ne].
      rewrite lookup_insert_eq. rewrite E in Hx. cbn in *.
      apply lookup_delete_None. auto.
Qed.

Lemma clear_failure_gone k e s : failures (clear_endpoint_failure k e s) k !! e = None.
Proof.
  unfold clear_endpoint_failure, failures. destruct (ec_disabled s !! k) as [m|] eqn:E.
  - case_bool_decide; cbn; [by rewrite lookup_delete_eq|].
    rewrite lookup_insert_eq. cbn. apply lookup_delete_eq.
  - rewrite E. done.
Qed.

(** Clearing a failure changes no preference and no revision. *)
Lemma clear_failure_rest k e s :
  let s' := clear_endpoint_failure k e s in
  ec_preferred s' = ec_preferred s /\ ec_preferred_order s' = ec_preferred_order s
  /\ ec_revisions s' = ec_revisions s /\ ec_revision_order s' = ec_revision_order s.
Proof.
  unfold clear_endpoint_failure. destruct (ec_disabled s !! k); [|done]. by case_bool_decide.
Qed.

(** Fewer preferences and the same failures. *)
Lemma preferred_shrink s m o :
  cache_ok s -> fifo_ok m o -> m ⊆ ec_preferred s -> cache_ok (set_preferred s m o).
Proof.
  intros [Hp Hd Hr Hf Hx Hu] Hm Hsub. split; cbn; try done.
  intros k e Hk. unfold failures. cbn. apply Hx. by eapply lookup_weaken.
Qed.

(** Fewer failures. *)
Lemma disabled_shrink s m o :
  cache_ok s -> fifo_ok m o -> m ⊆ ec_disabled s -> cache_ok (set_disabled s m o).
Proof.
  intros [Hp Hd Hr Hf Hx Hu] Hm Hsub. split; cbn; try done.
  - intros k x Hk. eapply Hf. by eapply lookup_weaken.
  - intros k e Hk. specialize (Hx k e Hk). unfold failures in *. cbn.
    destruct (m !! k) as [x|] eqn:E; [|done]. by rewrite (lookup_weaken _ _ _ _ E Hsub) in Hx.
Qed.

Lemma mark_success_ok id p e s : cache_ok s -> cache_ok (mark_success_locked id p e s).
Proof.
  intros Hok. unfold mark_success_locked. set (k := (id, p)).
  pose proof (clear_failure_ok k e s Hok) as Hok1. pose proof (clear_failure_gone k e s) as Hgone.
  generalize dependent (clear_endpoint_failure k e s). clear s Hok. intros s Hok Hgone.
  assert (Hroom : exists s', cache_ok s'
    /\ (is_Some (ec_preferred s' !! k) \/ size (ec_preferred s') < MAX_ENDPOINT_CACHE_SIZE)
    /\ ec_disabled s' = ec_disabled s
    /\ s' = if is_some (ec_preferred s !! k) then s else evict_oldest_preferred_if_full s).
  { eexists. split_and!; [| | |reflexivity].
    all: destruct (ec_preferred s !! k) eqn:E; cbn [is_some]; try done; [eauto|..].
    all: unfold evict_oldest_preferred_if_full; destruct (evict_oldest _ _) as [m o] eqn:Ev.
    all: pose proof (fifo_evict _ _ _ _ (ck_preferred _ Hok) Ev) as (Hf & Hs & Hsub & _).
    - by apply preferred_shrink.
    - by right.
    - done. }
  destruct Hroom as (s' & Hok' & Hroom & Hsame & <-). pose proof Hok' as [Hp Hd Hr Hf Hx Hu].
  split; cbn; try done; [by apply fifo_insert|].
  intros k' e' [[<- <-]|[_ Hk]]%lookup_insert_Some; unfold failures in *; cbn.
  - by rewrite Hsame.
  - by apply Hx.
Qed.

Lemma mark_disabled_ok now ttl id p e s :
  cache_ok s -> cache_ok (mark_disabled_locked now ttl id p e s).
Proof.
  intros Hok. unfold mark_disabled_locked. set (k := (id, p)).
  assert (Hroom : exists s', cache_ok s'
    /\ (is_Some (ec_disabled s' !! k) \/ size (ec_disabled s') < MAX_ENDPOINT_CACHE_SIZE)
    /\ s' = if is_some (ec_disabled s !! k) then s else evict_oldest_disabled_if_full s).
  { eexists. split_and!; [| |reflexivity].
    all: destruct (ec_disabled s !! k) eqn:E; cbn [is_some]; try done; [eauto|..].
    all: unfold evict_oldest_disabled_if_full; destruct (evict_oldest _ _) as [m o] eqn:Ev.
    all: pose proof (fifo_evict _ _ _ _ (ck_disabled _ Hok) Ev) as (Hf & Hs & Hsub & _).
    - by apply disabled_shrink.
    - by right. }
  destruct Hroom as (s' & Hok' & Hroom & <-). clear s Hok. pose proof Hok' as [Hp Hd Hr Hf Hx Hu].
  assert (Hfifo := fifo_insert _ _ k (<[e := (now + ttl)%Z]> (failures s' k)) Hd Hroom).
  assert (Hne : forall k' m', <[k := <[e := (now + ttl)%Z]> (failures s' k)]> (ec_disabled s') !! k'
            = Some m' -> m' <> ∅).
  { intros k' m' [[<- <-]|[_ Hk]]%lookup_insert_Some; [apply insert_non_empty|by eapply Hf]. }
  assert (Hex : forall k' e', ec_preferred s' !! k' = Some e' -> (k', e') <> (k, e) ->
            unwrap_or (<[k := <[e := (now + ttl)%Z]> (failures s' k)]> (ec_disabled s') !! k') ∅ !! e'
            = None).
  { intros k' e' Hk' Hdiff. specialize (Hx k' e' Hk'). unfold failures in Hx.
    destruct (decide (k = k')) as [<-|Hk]; [|by rewrite lookup_insert_ne].
    rewrite lookup_insert_eq. cbn. rewrite lookup_insert_ne; [done|]. intros <-. by apply Hdiff. }
  cbn [ec_preferred set_disabled]. case_bool_decide as Hpref.
  - split; cbn; try done; [by apply fifo_delete|].
    intros k' e' [Hdiff Hk']%lookup_delete_Some. apply Hex; [done|]. intros [= ? ?]. by subst.
  - split; cbn; try done. intros k' e' Hk'. apply Hex; [done|]. intros [= -> ->]. done.
Qed.

Lemma wrap_u64_range n : (0 <= wrap_u64 n <= U64_MAX)%Z.
Proof. unfold wrap_u64, U64_MAX. pose proof (Z.mod_pos_bound n (2 ^ 64)). lia. Qed.

Lemma bump_revision_ok id s : cache_ok s -> cache_ok (bump_revision id s).
Proof.
  intros [Hp Hd Hr Hf Hx Hu]. unfold bump_revision.
  destruct (ec_revisions s !! id) eqn:E; cbn [is_some].
  - split; cbn; try done; [by apply fifo_update; [|eauto]|].
    intros id' n [[<- <-]|[_ Hk]]%lookup_insert_Some; [apply wrap_u64_range|by eapply Hu].
  - destruct (evict_oldest _ _) as [m o] eqn:Ev.
    destruct (fifo_evict _ _ _ _ Hr Ev) as (Hm & Hs & Hsub & _).
    assert (Hnone : m !! id = None) by (by eapply lookup_weaken_None).
    split; cbn; try done.
    + replace (o ++ [id]) with (without id o ++ [id]); [apply fifo_insert; auto|].
      f_equal. apply filter_all. intros x Hx' ->. apply (fo_keys _ _ Hm) in Hx' as [? ?]. congruence.
    + intros id' n [[<- <-]|[_ Hk]]%lookup_insert_Some; [apply wrap_u64_range|].
      eapply Hu. by eapply lookup_weaken.
Qed.

Lemma filter_id_eq {V} (id : string) (m : gmap PurposeKey V) :
  filter (fun '((i, _), _) => i <> id) m = filter (fun kv => kv.1.1 <> id) m.
Proof.
  apply map_filter_strong_ext. intros [i p] v. split; intros [? ?]; done.
Qed.

Lemma remove_failures_ok id s : cache_ok s -> cache_ok (remove_failures id s).
Proof.
  intros Hok. apply disabled_shrink; [done| |apply map_filter_subseteq]. rewrite filter_id_eq.
  exact (fifo_filter (fun k : PurposeKey => k.1 <> id) _ _ (ck_disabled _ Hok)).
Qed.

Lemma clear_account_ok id s : cache_ok s -> cache_ok (clear_account id s).
Proof.
  intros Hok%(bump_revision_ok id). apply remove_failures_ok, preferred_shrink;
    [done| |apply map_filter_subseteq].
  rewrite filter_id_eq.
  exact (fifo_filter (fun k : PurposeKey => k.1 <> id) _ _ (ck_preferred _ Hok)).
Qed.

Lemma is_disabled_ok now k e s : cache_ok s -> cache_ok (fst (is_disabled now k e s)).
Proof.
  intros Hok. unfold is_disabled. destruct (_ ≫= _); [|done]. case_match; [done|].
  by apply clear_failure_ok.
Qed.

Lemma order_loop_ok nows i k cands acc s :
  cache_ok s -> cache_ok (fst (order_loop nows i k cands acc s)).
Proof.
  revert i acc s; induction cands as [|c cands IH]; intros i acc s Hok; cbn [order_loop]; [done|].
  case_bool_decide; [by apply IH|]. pose proof (is_disabled_ok (nows i) k c s Hok) as Hok'.
  destruct (is_disabled _ _ _ _) as [s' d]. by apply IH.
Qed.

Lemma order_ok nows a explicit p s : cache_ok s -> cache_ok (fst (order nows a explicit p s)).
Proof.
  intros Hok. unfold order. destruct (runtime_only a); [|by apply order_loop_ok].
  pose proof (is_disabled_ok (nows 0%nat) (acc_id a, p) Runtime s Hok).
  by destruct (is_disabled _ _ _ _).
Qed.

(** The operations of the cache that change it. *)
Inductive CacheOp :=
| OpOrder (nows : nat -> Z) (a : Account) (explicit : option EndpointKey) (p : EndpointPurpose)
| OpSuccess (id : string) (p : EndpointPurpose) (e : EndpointKey)
| OpSuccessIf (id : string) (p : EndpointPurpose) (e : EndpointKey) (expected : Z)
| OpDisabled (now ttl : Z) (id : string) (p : EndpointPurpose) (e : EndpointKey)
| OpDisabledIf (now ttl : Z) (id : string) (p : EndpointPurpose) (e : EndpointKey) (expected : Z)
| OpClearFailures (id : string)
| OpClearAccount (id : string).

Definition cache_step (s : EndpointCacheState) (op : CacheOp) : EndpointCacheState :=
  match op with
  | OpOrder nows a explicit p => fst (order nows a explicit p s)
  | OpSuccess id p e => mark_success id p e s
  | OpSuccessIf id p e expected => fst (mark_success_if_revision id p e expected s)
  | OpDisabled now ttl id p e => mark_disabled now ttl id p e s
  | OpDisabledIf now ttl id p e expected => fst (mark_disabled_if_revision now ttl id p e expected s)
  | OpClearFailures id => clear_failures id s
  | OpClearAccount id => clear_account id s
  end.

Lemma cache_step_ok s op : cache_ok s -> cache_ok (cache_step s op).
Proof.
  intros Hok. destruct op; cbn.
  - by apply order_ok.
  - by apply mark_success_ok.
  - unfold mark_success_if_revision. case_match; [done|]. by apply mark_success_ok.
  - by apply mark_disabled_ok.
  - unfold mark_disabled_if_revision. case_match; [done|]. by apply mark_disabled_ok.
  - by apply remove_failures_ok, bump_revision_ok.
  - by apply clear_account_ok.
Qed.

Lemma foldl_cache_ok ops s : cache_ok s -> cache_ok (foldl cache_step s ops).
Proof.
  revert s; induction ops as [|op ops IH]; intros s Hok; [done|]. by apply IH, cache_step_ok.
Qed.

(** The endpoint cache stays well formed under every sequence of
    operations: each of its three maps has at most 500 keys, which are exactly
    the keys of its insertion order, each once; no account has an empty record
    of failures; revisions are 64-bit numbers; and an endpoint is never
    preferred for an account and recorded as rejected for it at the same
    time. *)
Theorem endpoint_cache_invariant (ops : list CacheOp) :
  cache_ok (foldl cache_step EndpointCacheState_default ops).
Proof.
  apply foldl_cache_ok, cache_ok_default.
Qed.

(** ** Regions *)

Definition no_brace (s : string) : bool := forallb (fun b => negb (Ascii.eqb "{" b)) (s2l s).

Lemma valid_no_brace region : valid_region region = true -> no_brace region = true.
Proof.
  unfold valid_region, no_brace. intros [_ Hall]%andb_prop.
  rewrite forallb_forall in *. intros b Hb%Hall. destruct (Ascii.eqb_spec "{" b) as [<-|]; [|done].
  discriminate Hb.
Qed.

(** Whatever an account record holds, a region it is served from is made of
    letters, digits and hyphens, so that it cannot change the host of the URL
    it is put into; a GovCloud or API-key account keeps the region of its
    credentials; and without overrides the URL is a host of Amazon or Kiro in
    that region. *)
Theorem account_region_safe (a : Account) (region : string) :
  account_api_region a = Ok region ->
  valid_region region = true
  /\ (starts_with (trim (Account.region (credentials a))) "us-gov-" = true
      \/ auth_method (credentials a) = ApiKey ->
      region = trim (Account.region (credentials a)))
  /\ forall key,
       for_account key {| codewhisperer_url := None; amazonq_url := None; mcp_url := None;
                          runtime_url := None; management_url := None |} a
       = Ok {| ed_key := key;
               ed_url := match key with
                         | Codewhisperer => "https://codewhisperer." +:+ region
                             +:+ ".amazonaws.com/generateAssistantResponse"
                         | Amazonq => "https://q." +:+ region
                             +:+ ".amazonaws.com/generateAssistantResponse"
                         | Runtime => "https://runtime." +:+ region +:+ ".kiro.dev/"
                         end;
               ed_origin := if bool_decide (key = Runtime) then "KIRO_CLI" else "AI_EDITOR";
               ed_amz_target := if bool_decide (key = Amazonq) then ""
                 else "AmazonCodeWhispererStreamingService.GenerateAssistantResponse";
               ed_name := match key with Codewhisperer => "CodeWhisperer" | Amazonq => "AmazonQ"
                          | Runtime => "KiroRuntime" end |}.
Proof.
  intros Hreg. assert (Hvalid : valid_region region = true).
  { unfold account_api_region in Hreg. destruct (negb _); [done|].
    destruct (negb (valid_region _)) eqn:E; [done|]. apply negb_false_iff in E. by simplify_eq. }
  split_and!; [done| |].
  - unfold account_api_region in Hreg. destruct (negb _); [done|].
    intros Hgov. replace (starts_with _ _ || _) with true in Hreg.
    + destruct (negb _); [done|]. by simplify_eq.
    + symmetry. apply orb_true_iff. destruct Hgov as [?|?]; [by left|right].
      by apply bool_decide_eq_true.
  - intros key. unfold for_account. rewrite Hreg. cbn [result_bind].
    assert (Hno : forall pre post, no_brace pre = true -> no_brace post = true ->
              replace (pre +:+ region +:+ post) "{region}" region = pre +:+ region +:+ post).
    { intros pre post Hpre Hpost. unfold replace. change (s2l "{region}") with
        ("{"%char :: s2l "region}"). rewrite replace_l_absent; [apply l2s_s2l|].
      rewrite !s2l_app, !forallb_app.
      change (no_brace pre && (no_brace region && no_brace post) = true).
      by rewrite Hpre, Hpost, valid_no_brace. }
    destruct key; cbn [account_url codewhisperer_url amazonq_url runtime_url unwrap_or];
      rewrite Hno by reflexivity; reflexivity.
Qed.

(** ** The order of endpoints *)

(** A failure still in force, or none any more, at one of the readings. *)
Definition rejected (nows : nat -> Z) (s : EndpointCacheState) (k : PurposeKey) (e : EndpointKey) :
    Prop :=
  exists i until, failures s k !! e = Some until /\ (nows i < until)%Z.

Definition usable (nows : nat -> Z) (s : EndpointCacheState) (k : PurposeKey) (e : EndpointKey) :
    Prop :=
  failures s k !! e = None \/ exists i until, failures s k !! e = Some until /\ (until <= nows i)%Z.

Lemma disabled_lookup s k e : ec_disabled s !! k ≫= lookup e = failures s k !! e.
Proof. unfold failures. by destruct (ec_disabled s !! k). Qed.

Lemma clear_failure_other k e e' s :
  e <> e' -> failures (clear_endpoint_failure k e s) k !! e' = failures s k !! e'.
Proof.
  intros Hne. unfold clear_endpoint_failure, failures.
  destruct (ec_disabled s !! k) as [m|] eqn:E; [|by rewrite E]. case_bool_decide as Hm; cbn.
  - rewrite lookup_delete_eq. cbn. rewrite <- (lookup_delete_ne m e e') by done. by rewrite Hm.
  - rewrite lookup_insert_eq. cbn. by rewrite lookup_delete_ne.
Qed.

(** One test either reports a failure in force and changes nothing, or finds the
    endpoint usable and leaves the failures of the others alone. *)
Lemma is_disabled_spec now k e s s' d :
  is_disabled now k e s = (s', d) ->
  if d then s' = s /\ exists until, failures s k !! e = Some until /\ (now < until)%Z
  else (failures s k !! e = None
        \/ exists until, failures s k !! e = Some until /\ (until <= now)%Z)
       /\ forall e', e <> e' -> failures s' k !! e' = failures s k !! e'.
Proof.
  unfold is_disabled. rewrite disabled_lookup. destruct (failures s k !! e) as [until|] eqn:E.
  - destruct (Z.ltb_spec now until); intros [= <- <-]; [eauto|]. split; [eauto|].
    intros e' Hne. by apply clear_failure_other.
  - intros [= <- <-]. auto.
Qed.

Lemma order_loop_spec nows i k cands acc s s' l :
  order_loop nows i k cands acc s = (s', l) -> NoDup acc ->
  exists new, l = acc ++ new /\ new `sublist_of` cands /\ NoDup l
    /\ Forall (usable nows s k) new
    /\ forall e, e ∈ cands -> e ∈ l \/ rejected nows s k e.
Proof.
  revert i acc s; induction cands as [|c cands IH]; intros i acc s; cbn [order_loop].
  { intros [= <- <-] Hnd. exists []. rewrite app_nil_r. split_and!; try done.
    intros e He. by apply not_elem_of_nil in He. }
  case_bool_decide as Hin.
  - intros Hrun Hnd. destruct (IH _ _ _ Hrun Hnd) as (new & -> & Hsub & Hnd' & Huse & Hall).
    exists new. split_and!; try done; [by apply sublist_cons|].
    intros e [->|He]%elem_of_cons; [left; set_solver|by apply Hall].
  - destruct (is_disabled (nows i) k c s) as [s1 d] eqn:Ed. apply is_disabled_spec in Ed.
    intros Hrun Hnd. destruct d.
    + destruct Ed as [-> Hrej]. destruct (IH _ _ _ Hrun Hnd) as (new & -> & Hsub & Hnd' & Huse & Hall).
      exists new. split_and!; try done; [by apply sublist_cons|].
      intros e [->|He]%elem_of_cons; [right; exists i; naive_solver|by apply Hall].
    + destruct Ed as [Hc Hsame].
      assert (Hnd1 : NoDup (acc ++ [c])).
      { apply NoDup_app. split_and!; [done| |apply NoDup_singleton]. set_solver. }
      destruct (IH _ _ _ Hrun Hnd1) as (new & -> & Hsub & Hnd' & Huse & Hall).
      assert (Hcnew : c ∉ new).
      { apply NoDup_app in Hnd' as (_ & Hd & _). intros ?. apply (Hd c); set_solver. }
      exists (c :: new). rewrite <- app_assoc. cbn [app]. split_and!; [done|by apply sublist_skip| | |].
      * by rewrite <- app_assoc in Hnd'.
      * constructor; [destruct Hc as [?|(u & ? & ?)]; [by left|right; eauto]|].
        rewrite Forall_forall in *. intros e He. specialize (Huse e He). unfold usable in *.
        rewrite Hsame in Huse; [done|]. by intros <-.
      * intros e [->|He]%elem_of_cons; [left; set_solver|].
        destruct (decide (c = e)) as [<-|Hne]; [left; set_solver|].
        destruct (Hall e He) as [?|(j & u & Hu)]; [left; set_solver|].
        right. exists j, u. by rewrite Hsame in Hu.
Qed.

(** The endpoints an account may use, by preference. *)
Definition permitted (a : Account) (explicit : option EndpointKey) (p : EndpointPurpose)
    (s : EndpointCacheState) : list EndpointKey :=
  if runtime_only a then [Runtime]
  else order_candidates a explicit (ec_preferred s !! (acc_id a, p)).

(** The endpoints to try are the permitted ones, in order of preference and
    without repetition, less exactly those with a failure in force: API-key
    and GovCloud accounts are only ever sent to the runtime endpoint; other
    accounts try the endpoint asked for or else the one that worked last, the
    one of their login method, and the other commercial one. *)
Theorem order_spec (nows : nat -> Z) (a : Account) (explicit : option EndpointKey)
    (p : EndpointPurpose) (s : EndpointCacheState) :
  let k := (acc_id a, p) in
  let l := snd (order nows a explicit p s) in
  NoDup l /\ l `sublist_of` permitted a explicit p s
  /\ Forall (usable nows s k) l
  /\ (forall e, e ∈ permitted a explicit p s -> e ∈ l \/ rejected nows s k e)
  /\ (runtime_only a = true -> forall e, e ∈ l -> e = Runtime).
Proof.
  cbv zeta. unfold order, permitted. destruct (runtime_only a).
  - destruct (is_disabled _ _ _ _) as [s1 d] eqn:E. apply is_disabled_spec in E. cbn [snd].
    destruct d.
    + destruct E as [-> Hrej].
      split_and!; [constructor|apply sublist_nil_l|constructor| |].
      * intros e ->%list_elem_of_singleton. right. exists 0%nat. naive_solver.
      * intros _ e He. by apply not_elem_of_nil in He.
    + destruct E as [Huse _]. split_and!; [apply NoDup_singleton|done| | |].
      * constructor; [|done]. destruct Huse as [?|(u & ? & ?)]; [by left|right; eauto].
      * intros e He. by left.
      * intros _ e. by rewrite list_elem_of_singleton.
  - destruct (order_loop _ _ _ _ _ _) as [s1 l] eqn:E.
    apply order_loop_spec in E as (new & -> & Hsub & Hnd & Huse & Hall); [|constructor].
    cbn [snd app] in *. by split_and!.
Qed.

(** ** Revisions *)

Definition cleared (op : CacheOp) : option string :=
  match op with OpClearFailures id | OpClearAccount id => Some id | _ => None end.

(** How often an account was cleared, and how often any was. *)
Definition clears (id : string) (ops : list CacheOp) : Z :=
  Z.of_nat (length (filter (fun op => cleared op = Some id) ops)).
Definition all_clears (ops : list CacheOp) : nat :=
  length (filter (fun op => is_Some (cleared op)) ops).

Lemma is_disabled_revisions now k e s :
  ec_revisions (fst (is_disabled now k e s)) = ec_revisions s.
Proof.
  unfold is_disabled. destruct (_ ≫= _); [|done]. case_match; [done|]. apply clear_failure_rest.
Qed.

Lemma order_revisions nows a explicit p s :
  ec_revisions (fst (order nows a explicit p s)) = ec_revisions s.
Proof.
  unfold order. destruct (runtime_only a).
  - pose proof (is_disabled_revisions (nows 0%nat) (acc_id a, p) Runtime s).
    by destruct (is_disabled _ _ _ _).
  - generalize (order_candidates a explicit (ec_preferred s !! (acc_id a, p))) as cands.
    intros cands. generalize 0%nat (@nil EndpointKey) s.
    induction cands as [|c cands IH]; intros i acc s'; cbn [order_loop]; [done|]. case_bool_decide; [apply IH|].
    pose proof (is_disabled_revisions (nows i) (acc_id a, p) c s') as E.
    destruct (is_disabled _ _ _ _) as [s1 d]. rewrite IH. exact E.
Qed.

Lemma mark_success_revisions id p e s : ec_revisions (mark_success_locked id p e s) = ec_revisions s.
Proof.
  unfold mark_success_locked. cbn. destruct (clear_failure_rest (id, p) e s) as (_ & _ & <- & _).
  generalize (clear_endpoint_failure (id, p) e s). intros s'.
  destruct (is_some _); [done|]. unfold evict_oldest_preferred_if_full. by destruct (evict_oldest _ _).
Qed.

Lemma mark_disabled_revisions now ttl id p e s :
  ec_revisions (mark_disabled_locked now ttl id p e s) = ec_revisions s.
Proof.
  unfold mark_disabled_locked. cbn. destruct (is_some (ec_disabled s !! (id, p))).
  - by case_bool_decide.
  - unfold evict_oldest_disabled_if_full. destruct (evict_oldest _ _). by case_bool_decide.
Qed.

Lemma bump_revisions id s :
  cache_ok s -> size (ec_revisions s) < MAX_ENDPOINT_CACHE_SIZE ->
  ec_revisions (bump_revision id s) = <[id := wrap_u64 (revision id s + 1)]> (ec_revisions s).
Proof.
  intros Hok Hsize. unfold bump_revision. destruct (is_some _); [done|].
  destruct (evict_oldest _ _) as [m o] eqn:E.
  destruct (fifo_evict _ _ _ _ (ck_revisions _ Hok) E) as (_ & _ & _ & Hsame).
  unfold revision. cbn. by rewrite Hsame.
Qed.

Lemma cache_step_revisions s op :
  cache_ok s -> size (ec_revisions s) < MAX_ENDPOINT_CACHE_SIZE \/ cleared op = None ->
  ec_revisions (cache_step s op) =
    match cleared op with
    | Some id => <[id := wrap_u64 (revision id s + 1)]> (ec_revisions s)
    | None => ec_revisions s
    end.
Proof.
  intros Hok Hsize. destruct op; cbn.
  - apply order_revisions.
  - apply mark_success_revisions.
  - unfold mark_success_if_revision. case_match; [done|]. apply mark_success_revisions.
  - apply mark_disabled_revisions.
  - unfold mark_disabled_if_revision. case_match; [done|]. apply mark_disabled_revisions.
  - destruct Hsize; [|done]. by apply bump_revisions.
  - destruct Hsize; [|done]. by apply bump_revisions.
Qed.

(** Without evictions the revision counts the clearings, modulo 2^64. *)
Lemma revision_counts ops s id :
  cache_ok s -> size (ec_revisions s) + all_clears ops <= MAX_ENDPOINT_CACHE_SIZE ->
  revision id (foldl cache_step s ops) = wrap_u64 (revision id s + clears id ops).
Proof.
  revert s; induction ops as [|op ops IH]; intros s Hok Hsize.
  { cbn. unfold clears. cbn. rewrite Z.add_0_r. symmetry. apply wrap_u64_small. unfold revision.
    destruct (ec_revisions s !! id) eqn:E; cbn; [by eapply ck_u64|]. unfold U64_MAX. lia. }
  cbn [foldl]. unfold all_clears, clears in *. rewrite filter_cons in Hsize.
  rewrite IH; [|by apply cache_step_ok|].
  - rewrite filter_cons. unfold revision at 1. rewrite cache_step_revisions; [|done|].
    + destruct (cleared op) as [id'|] eqn:E; [|by rewrite decide_False].
      destruct (decide (id' = id)) as [->|Hne].
      * rewrite decide_True, lookup_insert_eq by done. cbn [unwrap_or length].
        unfold wrap_u64. rewrite Zplus_mod_idemp_l. f_equal. lia.
      * rewrite decide_False, lookup_insert_ne by congruence. done.
    + destruct (cleared op) as [id'|]; [left|by right].
      rewrite decide_True in Hsize by eauto. cbn in Hsize. lia.
  - rewrite cache_step_revisions; [|done|].
    + destruct (cleared op) as [id'|]; [|by rewrite decide_False in Hsize by (by intros [? ?])].
      rewrite decide_True in Hsize by eauto. cbn [length] in Hsize.
      etrans; [|exact Hsize]. rewrite map_size_insert.
      destruct (ec_revisions s !! id'); simpl; lia.
    + destruct (cleared op) as [id'|]; [left|by right].
      rewrite decide_True in Hsize by eauto. cbn in Hsize. lia.
Qed.

(** An answer that was asked for before an account's credentials changed
    leaves no trace: once the account was cleared, marking an endpoint as
    working or as rejected with the revision read before is refused and
    changes nothing, whatever else happened in between, as long as the table
    of 500 revisions did not overflow and the counter did not wrap. *)
Theorem stale_answer_ignored (before ops : list CacheOp) (id : string) (p : EndpointPurpose)
    (e : EndpointKey) (now ttl : Z) :
  let s0 := foldl cache_step EndpointCacheState_default before in
  let s := foldl cache_step s0 ops in
  size (ec_revisions s0) + all_clears ops <= MAX_ENDPOINT_CACHE_SIZE ->
  (0 < clears id ops <= U64_MAX)%Z ->
  mark_success_if_revision id p e (revision id s0) s = (s, false)
  /\ mark_disabled_if_revision now ttl id p e (revision id s0) s = (s, false).
Proof.
  cbv zeta. intros Hsize Hclears.
  assert (Hok : cache_ok (foldl cache_step EndpointCacheState_default before)).
  { apply (foldl_cache_ok before _ cache_ok_default). }
  generalize dependent (foldl cache_step EndpointCacheState_default before). intros s0 Hsize Hok.
  assert (Hne : (revision id (foldl cache_step s0 ops) =? revision id s0)%Z = false).
  { rewrite revision_counts by done. apply Z.eqb_neq. unfold wrap_u64.
    assert (0 <= revision id s0 <= U64_MAX)%Z.
    { unfold revision. destruct (ec_revisions s0 !! id) eqn:E; cbn; [by eapply ck_u64|].
      unfold U64_MAX. lia. }
    unfold U64_MAX in *.
    destruct (Z_lt_le_dec (revision id s0 + clears id ops) (2 ^ 64)).
    - rewrite Z.mod_small by lia. lia.
    - rewrite <- (Z.mod_unique _ (2 ^ 64) 1 (revision id s0 + clears id ops - 2 ^ 64)); lia. }
  unfold mark_success_if_revision, mark_disabled_if_revision. by rewrite Hne.
Qed.

(** ** A GovCloud account *)

Definition gov_account : Account :=
  {| acc_id := "acc_1"; email := "e"; label := None; enabled := true; machine_id := "m";
     profile_arn := Some "arn:aws:codewhisperer:us-east-1:1:profile/x"; upstream_user_id := None;
     credentials := {| access_token := "t"; refresh_token := None; client_id := None;
                       client_secret := None; region := " us-gov-west-1 "; expires_at := 0;
                       auth_method := Idc |};
     usage := None; subscription := None; tags := []; created_at := 0;
     credit_exhausted := false |}.

Lemma account_region_safe_witness :
  account_api_region gov_account = Ok "us-gov-west-1" /\ valid_region "us-gov-west-1" = true.
Proof.
  split; [vm_compute; reflexivity|].
  apply (account_region_safe gov_account "us-gov-west-1"). vm_compute. reflexivity.
Defined.

Lemma stale_answer_ignored_witness :
  let s0 := foldl cache_step EndpointCacheState_default [OpSuccess "acc_1" Generation Amazonq] in
  let s := foldl cache_step s0 [OpClearAccount "acc_1"; OpClearFailures "acc_2"] in
  mark_success_if_revision "acc_1" Generation Amazonq (revision "acc_1" s0) s = (s, false).
Proof.
  refine (proj1 (stale_answer_ignored [OpSuccess "acc_1" Generation Amazonq]
            [OpClearAccount "acc_1"; OpClearFailures "acc_2"] "acc_1" Generation Amazonq 0 0 _ _)).
  - apply Nat.leb_le. vm_compute. reflexivity.
  - vm_compute. split; [reflexivity|discriminate].
Defined.
