(* ===== verification/Context.v ===== *)
(** * Claude context management

    [kproxy-translate/src/context.rs]: the edits a client asks for in
    [context_management] (clearing old thinking and old tool results), and the
    compaction boundary behind which a conversation is dropped.  The loops that
    run backwards over messages and blocks are folds from the right.  The size
    of the JSON encoding of a request is an argument. *)

From Stdlib Require Import ZArith Lia Ascii String.
From stdpp Require Import base list gmap sets strings.
From S2P Require Import Prelude RustStr F64 Json Protocol.

Local Open Scope kproxy_scope.
Local Open Scope string_scope.
Local Open Scope list_scope.

Definition DEFAULT_COMPACT_TRIGGER_TOKENS : Z := 150000.
Definition MIN_COMPACT_TRIGGER_TOKENS : Z := 50000.
Definition DEFAULT_TOOL_CLEAR_TRIGGER_TOKENS : Z := 100000.
Definition DEFAULT_TOOL_USES_TO_KEEP : Z := 3.
Definition CLEARED_TOOL_RESULT_TEXT : string :=
  "[Older tool result omitted by Claude context management.]".

Record ClaudeContextEditStats := {
  cleared_tool_results : Z;
  cleared_tool_inputs : Z;
  cleared_tool_input_tokens : Z;
  cleared_thinking_turns : Z;
  cleared_thinking_input_tokens : Z;
  tool_edit_type : option string;
  thinking_edit_type : option string;
}.

Definition ClaudeContextEditStats_default : ClaudeContextEditStats :=
  {| cleared_tool_results := 0; cleared_tool_inputs := 0; cleared_tool_input_tokens := 0;
     cleared_thinking_turns := 0; cleared_thinking_input_tokens := 0;
     tool_edit_type := None; thinking_edit_type := None |}.

Definition stats_changed (s : ClaudeContextEditStats) : bool :=
  ((0 <? cleared_tool_results s) || (0 <? cleared_tool_inputs s)
   || (0 <? cleared_thinking_turns s))%Z.

Definition cleared_input_tokens (s : ClaudeContextEditStats) : Z :=
  sat_add U64_MAX (cleared_tool_input_tokens s) (cleared_thinking_input_tokens s).

Definition unsigned (n : Z) : value := Number (PosInt n).

Definition applied_edits (s : ClaudeContextEditStats) : list value :=
  (if (0 <? cleared_thinking_turns s)%Z then
     [json_object [("type", Str (unwrap_or (thinking_edit_type s) "clear_thinking_20251015"));
                   ("cleared_thinking_turns", unsigned (cleared_thinking_turns s));
                   ("cleared_input_tokens", unsigned (cleared_thinking_input_tokens s))]]
   else [])
  ++ (if (0 <? cleared_tool_results s)%Z then
        [json_object [("type", Str (unwrap_or (tool_edit_type s) "clear_tool_uses_20250919"));
                      ("cleared_tool_uses", unsigned (cleared_tool_results s));
                      ("cleared_input_tokens", unsigned (cleared_tool_input_tokens s))]]
      else []).

(** ** Edits *)

Definition is_compact_edit_type (edit_type : string) : bool := starts_with edit_type "compact_".

Definition edits_of (context_management : option value) : option (list value) :=
  v ← context_management; edits ← get v "edits"; as_array edits.

(** [context_management?.get("edits")?.as_array()?.iter().find(..)] on the type. *)
Definition find_edit (f : string -> bool) (context_management : option value) : option value :=
  edits_of context_management ≫= fun edits => head (filter (fun edit => is_some_and (get_str edit "type") f = true) edits).

Definition pointer_u64 (v : value) (path : list string) : option Z := pointer v path ≫= as_u64.
Definition pointer_str (v : value) (path : list string) : option string := pointer v path ≫= as_str.

Definition compact_trigger_tokens (context_management : option value) : option Z :=
  (fun edit => unwrap_or (pointer_u64 edit ["trigger"; "value"]) DEFAULT_COMPACT_TRIGGER_TOKENS)
    <$> find_edit is_compact_edit_type context_management.

Definition has_context_management_edits (context_management : option value) : bool :=
  is_some_and (edits_of context_management)
    (fun edits => match edits with [] => false | _ => true end).

Inductive ClearToolInputsPlan := InputsNone | InputsAll | InputsSelected (names : gset string).

Definition includes (plan : ClearToolInputsPlan) (tool_name : option string) : bool :=
  match plan with
  | InputsNone => false
  | InputsAll => true
  | InputsSelected names => is_some_and tool_name (fun name => bool_decide (name ∈ names))
  end.

Inductive ClearToolUsesTrigger := InputTokens (value : Z) | ToolUses (value : Z).

Definition activated (t : ClearToolUsesTrigger) (input_tokens tool_uses : Z) : bool :=
  match t with
  | InputTokens value => (value <=? input_tokens)%Z
  | ToolUses value => (value <=? tool_uses)%Z
  end.

Record ClearToolUsesPlan := {
  pl_edit_type : string;
  pl_trigger : ClearToolUsesTrigger;
  pl_keep : Z;
  pl_clear_at_least : option Z;
  pl_exclude_tools : gset string;
  pl_clear_tool_inputs : ClearToolInputsPlan;
}.

Record ClearThinkingPlan := { tp_edit_type : string; tp_keep : option Z }.

Definition strings_of (values : list value) : gset string := list_to_set (omap as_str values).

Definition clear_tool_uses_plan (context_management : option value) : option ClearToolUsesPlan :=
  edit ← find_edit (fun kind => matches_type_family kind "clear_tool_uses") context_management;
  let trigger :=
    if bool_decide (pointer_str edit ["trigger"; "type"] = Some "tool_uses")
    then ToolUses (unwrap_or (pointer_u64 edit ["trigger"; "value"]) 1%Z)
    else InputTokens (unwrap_or (pointer_u64 edit ["trigger"; "value"])
                        DEFAULT_TOOL_CLEAR_TRIGGER_TOKENS) in
  let keep :=
    if bool_decide (pointer_str edit ["keep"; "type"] = Some "tool_uses")
    then unwrap_or (pointer_u64 edit ["keep"; "value"]) DEFAULT_TOOL_USES_TO_KEEP
    else DEFAULT_TOOL_USES_TO_KEEP in
  edit_type ← get_str edit "type";
  Some {| pl_edit_type := edit_type; pl_trigger := trigger; pl_keep := keep;
          pl_clear_at_least := pointer_u64 edit ["clear_at_least"; "value"];
          pl_exclude_tools := strings_of (unwrap_or (get edit "exclude_tools" ≫= as_array) []);
          pl_clear_tool_inputs :=
            match get edit "clear_tool_inputs" with
            | Some (Bool true) => InputsAll
            | Some (Array names) => InputsSelected (strings_of names)
            | _ => InputsNone
            end |}.

Definition model_family_version_at_least (model family : string) (major minor : Z) : bool :=
  let normalized := replace_chars (to_ascii_lowercase model) (is_char ".") "-" in
  match after_first normalized family with
  | None => false
  | Some suffix =>
      match omap (parse_unsigned U64_MAX) (split (trim_start_matches suffix "-") (is_char "-")) with
      | [] => false
      | m :: rest =>
          let n :=
            match rest with
            | value :: _ => if (value <=? 99)%Z then value else 0%Z
            | [] => 0%Z
            end in
          ((major <? m) || ((m =? major) && (minor <=? n)))%Z
      end
  end.

Definition default_thinking_turns_to_keep (model : string) : option Z :=
  if model_family_version_at_least model "opus" 4 5
     || model_family_version_at_least model "sonnet" 4 6
  then None else Some 1%Z.

Definition clear_thinking_plan (r : ClaudeRequest) : option ClearThinkingPlan :=
  edit ← find_edit (fun kind => matches_type_family kind "clear_thinking") (rq_context_management r);
  let keep :=
    match get edit "keep" with
    | Some keep =>
        if bool_decide (as_str keep = Some "all") || bool_decide (get_str keep "type" = Some "all")
        then None else get keep "value" ≫= as_u64
    | None => default_thinking_turns_to_keep (rq_model r)
    end in
  edit_type ← get_str edit "type";
  Some {| tp_edit_type := edit_type; tp_keep := keep |}.

(** ** Loops over lists *)

(** Elements rewritten from the last to the first, with a state. *)
Fixpoint map_accum_r {S A : Type} (f : S -> A -> S * A) (s : S) (l : list A) : S * list A :=
  match l with
  | [] => (s, [])
  | x :: l =>
      let '(s, l) := map_accum_r f s l in
      let '(s, x) := f s x in
      (s, x :: l)
  end.

(** The same from the first to the last. *)
Fixpoint map_accum_l {S A : Type} (f : S -> A -> S * A) (s : S) (l : list A) : S * list A :=
  match l with
  | [] => (s, [])
  | x :: l =>
      let '(s, x) := f s x in
      let '(s, l) := map_accum_l f s l in
      (s, x :: l)
  end.

(** The index of the last element with a property. *)
Fixpoint last_index {A : Type} (f : A -> bool) (l : list A) : option nat :=
  match l with
  | [] => None
  | x :: l =>
      match last_index f l with
      | Some i => Some (S i)
      | None => if f x then Some 0 else None
      end
  end.

(** A loop over the content blocks of a message. *)
Definition on_blocks {S : Type} (f : S -> list value -> S * list value) (s : S)
    (m : ClaudeMessage) : S * ClaudeMessage :=
  match cm_content m with
  | Array blocks => let '(s, blocks) := f s blocks in (s, cm_set_content m (Array blocks))
  | _ => (s, m)
  end.

Definition blocks_of_message (m : ClaudeMessage) : list value :=
  unwrap_or (as_array (cm_content m)) [].

Definition all_blocks (messages : list ClaudeMessage) : list value :=
  messages ≫= blocks_of_message.

Definition has_type (kind : string) (block : value) : bool :=
  bool_decide (get_str block "type" = Some kind).

(** [block.as_object_mut()] followed by [insert]. *)
Definition block_insert (k : string) (v block : value) : value :=
  match block with Object m => Object (obj_insert k v m) | _ => block end.

(** ** Tool results *)

Definition tool_result_is_cleared (block : value) : bool :=
  bool_decide (get_str block "content" = Some CLEARED_TOOL_RESULT_TEXT).

(** The names of the tools called, by call id; a later call wins. *)
Definition tool_names (messages : list ClaudeMessage) : gmap string string :=
  foldl (fun names block =>
           match get_str block "id", get_str block "name" with
           | Some id, Some name => <[id := name]> names
           | _, _ => names
           end) ∅ (filter (fun block => has_type "tool_use" block = true) (all_blocks messages)).

Definition excluded_call (names : gmap string string) (excluded : gset string) (id : string) :
    bool :=
  is_some_and (names !! id) (fun name => bool_decide (name ∈ excluded)).

Definition count_clearable_tool_results (messages : list ClaudeMessage) (excluded : gset string) :
    Z :=
  let names := tool_names messages in
  Z.of_nat (length (filter (fun block =>
    has_type "tool_result" block && negb (tool_result_is_cleared block)
    && is_none_or (get_str block "tool_use_id" ≫= fun id => names !! id)
         (fun name => negb (bool_decide (name ∈ excluded))) = true)
    (all_blocks messages))).

(** One round of the backward loop: the results still to keep, and the ids
    cleared so far. *)
Definition clear_result (names : gmap string string) (excluded : gset string)
    (st : Z * gset string) (block : value) : (Z * gset string) * value :=
  if negb (has_type "tool_result" block) || tool_result_is_cleared block then (st, block) else
  match get_str block "tool_use_id" with
  | None => (st, block)
  | Some id =>
      if excluded_call names excluded id then (st, block) else
      if (0 <? st.1)%Z then ((st.1 - 1, st.2)%Z, block) else
      ((st.1, {[id]} ∪ st.2), block_insert "content" (Str CLEARED_TOOL_RESULT_TEXT) block)
  end.

Definition clear_tool_results (names : gmap string string) (excluded : gset string) (keep : Z)
    (messages : list ClaudeMessage) : (Z * gset string) * list ClaudeMessage :=
  map_accum_r (on_blocks (map_accum_r (clear_result names excluded))) (keep, ∅) messages.

Definition clear_input (plan : ClearToolInputsPlan) (ids : gset string) (count : Z)
    (block : value) : Z * value :=
  if negb (has_type "tool_use" block)
     || negb (is_some_and (get_str block "id") (fun id => bool_decide (id ∈ ids)))
  then (count, block) else
  if negb (includes plan (get_str block "name")) then (count, block) else
  ((count + 1)%Z, block_insert "input" (Object []) block).

Definition clear_inputs (plan : ClearToolInputsPlan) (ids : gset string)
    (messages : list ClaudeMessage) : Z * list ClaudeMessage :=
  if bool_decide (ids = ∅) then (0%Z, messages)
  else map_accum_l (on_blocks (map_accum_l (clear_input plan ids))) 0%Z messages.

(** ** Thinking *)

Definition is_thinking (block : value) : bool :=
  has_type "thinking" block || has_type "redacted_thinking" block.

(** One round: the turns still to keep and the turns cleared. *)
Definition clear_thinking_turn (st : Z * Z) (m : ClaudeMessage) : (Z * Z) * ClaudeMessage :=
  if negb (bool_decide (cm_role m = "assistant")) then (st, m) else
  match cm_content m with
  | Array blocks =>
      if negb (existsb is_thinking blocks) then (st, m) else
      if (0 <? st.1)%Z then ((st.1 - 1, st.2)%Z, m) else
      ((st.1, st.2 + 1)%Z,
       cm_set_content m (Array (filter (fun block => is_thinking block = false) blocks)))
  | _ => (st, m)
  end.

Definition not_emptied (m : ClaudeMessage) : bool :=
  negb (bool_decide (cm_role m = "assistant"))
  || is_none_or (as_array (cm_content m)) (fun blocks => match blocks with [] => false | _ => true end).

Definition clear_thinking_turns (messages : list ClaudeMessage) (keep : Z) :
    list ClaudeMessage * Z :=
  let '((_, cleared), messages) := map_accum_r clear_thinking_turn (keep, 0%Z) messages in
  (filter (fun m => not_emptied m = true) messages, cleared).

(** ** Applying the edits *)

Section Edits.
Context (encoded_len : ClaudeRequest -> option Z).

Definition estimate_context_management_input_tokens (r : ClaudeRequest) : Z :=
  Z.max (match encoded_len r with Some n => (n + 3) / 4 | None => 1 end) 1.

Definition apply_thinking_edit (r : ClaudeRequest) : ClaudeRequest * ClaudeContextEditStats :=
  match clear_thinking_plan r with
  | Some {| tp_edit_type := edit_type; tp_keep := Some keep |} =>
      let before := estimate_context_management_input_tokens r in
      let '(messages, cleared) := clear_thinking_turns (rq_messages r) keep in
      let r := rq_set_messages r messages in
      (r, {| cleared_tool_results := 0; cleared_tool_inputs := 0; cleared_tool_input_tokens := 0;
             cleared_thinking_turns := cleared;
             cleared_thinking_input_tokens :=
               if (0 <? cleared)%Z
               then sat_sub before (estimate_context_management_input_tokens r) else 0;
             tool_edit_type := None;
             thinking_edit_type := if (0 <? cleared)%Z then Some edit_type else None |})
  | _ => (r, ClaudeContextEditStats_default)
  end.

Definition apply_tool_edit (r : ClaudeRequest) (plan : ClearToolUsesPlan)
    (stats : ClaudeContextEditStats) : ClaudeRequest * ClaudeContextEditStats :=
  let before_tokens := estimate_context_management_input_tokens r in
  let names := tool_names (rq_messages r) in
  let '((_, ids), messages) :=
    clear_tool_results names (pl_exclude_tools plan) (pl_keep plan) (rq_messages r) in
  let '(inputs, messages) := clear_inputs (pl_clear_tool_inputs plan) ids messages in
  let edited := rq_set_messages r messages in
  let tokens := sat_sub before_tokens (estimate_context_management_input_tokens edited) in
  if is_some_and (pl_clear_at_least plan) (fun minimum => (tokens <? minimum)%Z) then (r, stats)
  else
    (edited,
     if bool_decide (ids = ∅) then stats
     else {| cleared_tool_results := Z.of_nat (size ids); cleared_tool_inputs := inputs;
             cleared_tool_input_tokens := tokens;
             cleared_thinking_turns := cleared_thinking_turns stats;
             cleared_thinking_input_tokens := cleared_thinking_input_tokens stats;
             tool_edit_type := Some (pl_edit_type plan);
             thinking_edit_type := thinking_edit_type stats |}).

Definition apply_context_management_edits (r : ClaudeRequest) (original_input_tokens : Z) :
    ClaudeRequest * ClaudeContextEditStats :=
  let '(r, stats) := apply_thinking_edit r in
  match clear_tool_uses_plan (rq_context_management r) with
  | None => (r, stats)
  | Some plan =>
      let tool_use_count := count_clearable_tool_results (rq_messages r) (pl_exclude_tools plan) in
      if negb (activated (pl_trigger plan) original_input_tokens tool_use_count) then (r, stats)
      else apply_tool_edit r plan stats
  end.
End Edits.

(** ** The compaction boundary *)

Record ClaudeCompactionNormalizationStats := {
  boundary_applied : bool;
  removed_noop_blocks : Z;
  removed_noop_messages : Z;
}.

Definition normalization_changed (s : ClaudeCompactionNormalizationStats) : bool :=
  boundary_applied s || (0 <? removed_noop_blocks s)%Z || (0 <? removed_noop_messages s)%Z.

Definition completed_compaction (block : value) : bool :=
  has_type "compaction" block
  && is_some_and (get_str block "content") (fun content => negb (is_empty content)).

(** The last completed block of a message, when it is an assistant's. *)
Definition boundary_block (m : ClaudeMessage) : option nat :=
  if bool_decide (cm_role m = "assistant")
  then as_array (cm_content m) ≫= last_index completed_compaction
  else None.

Definition find_boundary (messages : list ClaudeMessage) : option (nat * nat) :=
  i ← last_index (fun m => is_some (boundary_block m)) messages;
  m ← messages !! i;
  j ← boundary_block m;
  Some (i, j).

(** The effort of the last system message that sets one. *)
Definition last_effort (messages : list ClaudeMessage) : option string :=
  last (omap (fun m => if bool_decide (cm_role m = "system")
                       then cm_output_config m ≫= oc_effort else None) messages).

Definition carry_effort (config : option ClaudeOutputConfig) (effort : option string) :
    option ClaudeOutputConfig :=
  match effort with
  | None => config
  | Some effort =>
      Some {| oc_effort := Some effort;
              oc_extra := match config with Some c => oc_extra c | None => [] end |}
  end.

Definition drop_blocks (n : nat) (messages : list ClaudeMessage) : list ClaudeMessage :=
  match messages with
  | m :: rest =>
      match cm_content m with
      | Array blocks => cm_set_content m (Array (drop n blocks)) :: rest
      | _ => messages
      end
  | [] => []
  end.

Definition apply_boundary (r : ClaudeRequest) (i j : nat) : ClaudeRequest :=
  rq_set r (drop_blocks j (drop i (rq_messages r)))
    (carry_effort (rq_output_config r) (last_effort (take i (rq_messages r)))).

Definition noop_compaction (block : value) : bool :=
  has_type "compaction" block
  && match get block "content" with None | Some Null => true | _ => false end.

(** What is left of a message, if it is kept, and the blocks removed from it. *)
Definition remove_noops (m : ClaudeMessage) : option ClaudeMessage * Z :=
  if negb (bool_decide (cm_role m = "assistant")) then (Some m, 0%Z) else
  match cm_content m with
  | Array blocks =>
      let kept := filter (fun block => noop_compaction block = false) blocks in
      let removed := Z.of_nat (length blocks - length kept) in
      (match blocks, kept with
       | _ :: _, [] => None
       | _, _ => Some (cm_set_content m (Array kept))
       end, removed)
  | _ => (Some m, 0%Z)
  end.

Definition remove_noop_blocks (messages : list ClaudeMessage) : list ClaudeMessage :=
  omap (fun m => fst (remove_noops m)) messages.

Definition normalize_compaction_boundary (r : ClaudeRequest) :
    ClaudeRequest * ClaudeCompactionNormalizationStats :=
  let boundary := find_boundary (rq_messages r) in
  let r := match boundary with Some (i, j) => apply_boundary r i j | None => r end in
  let messages := remove_noop_blocks (rq_messages r) in
  (rq_set_messages r messages,
   {| boundary_applied := is_some boundary;
      removed_noop_blocks :=
        foldl (fun n m => n + snd (remove_noops m))%Z 0%Z (rq_messages r);
      removed_noop_messages := Z.of_nat (length (rq_messages r) - length messages) |}).

Definition apply_compaction_boundary (r : ClaudeRequest) : ClaudeRequest * bool :=
  let '(r, stats) := normalize_compaction_boundary r in (r, boundary_applied stats).

(** ** Claude Code's summary instruction *)

Definition SUMMARY_PREFIX : string :=
  "Your task is to create a detailed summary of the conversation so far,".
Definition TEXT_ONLY_PREFIX : string :=
  "CRITICAL: Respond with TEXT ONLY. Do NOT call any tools.".

Definition newline : string := String "010" EmptyString.

Definition is_compaction_instruction (text : string) : bool :=
  let text := l2s (trim_start_l (s2l text)) in
  contains text "<summary>"
  && (starts_with text SUMMARY_PREFIX
      || (starts_with text TEXT_ONLY_PREFIX
          && contains text (newline +:+ newline +:+ SUMMARY_PREFIX))).
