(* ===== verification/ContextFacts.v ===== *)
(** * Facts about context management

    Which tool results an edit clears and keeps, and that the compaction
    boundary is a normal form. *)

From Stdlib Require Import ZArith Lia Ascii String.
From stdpp Require Import base list gmap sets strings.
From S2P Require Import Prelude RustStr F64 Json Protocol Context.

Local Open Scope kproxy_scope.
Local Open Scope string_scope.
Local Open Scope list_scope.

(** ** Loops *)

Section Loops.
Context {S A : Type} (f : S -> A -> S * A).

Lemma map_accum_r_app s l k :
  map_accum_r f s (l ++ k) =
    let '(s2, k') := map_accum_r f s k in
    let '(s1, l') := map_accum_r f s2 l in
    (s1, l' ++ k').
Proof.
  induction l as [|x l IH]; cbn [app map_accum_r].
  - by destruct (map_accum_r f s k).
  - rewrite IH. destruct (map_accum_r f s k) as [s2 k'].
    destruct (map_accum_r f s2 l) as [s1 l']. by destruct (f s1 x).
Qed.

Lemma map_accum_l_app s l k :
  map_accum_l f s (l ++ k) =
    let '(s1, l') := map_accum_l f s l in
    let '(s2, k') := map_accum_l f s1 k in
    (s2, l' ++ k').
Proof.
  revert s; induction l as [|x l IH]; intros s; cbn [app map_accum_l].
  - by destruct (map_accum_l f s k).
  - destruct (f s x) as [s1 x']. rewrite IH. destruct (map_accum_l f s1 l) as [s2 l'].
    by destruct (map_accum_l f s2 k).
Qed.

(** Every element is related to its image when one round relates them. *)
Lemma map_accum_r_Forall2 (R : A -> A -> Prop) s l :
  (forall s x, R x (snd (f s x))) -> Forall2 R l (snd (map_accum_r f s l)).
Proof.
  intros HR. induction l as [|x l IH]; cbn [map_accum_r]; [constructor|].
  destruct (map_accum_r f s l) as [s1 l']. specialize (HR s1 x).
  destruct (f s1 x) as [s2 x']. by constructor.
Qed.

Lemma map_accum_l_Forall2 (R : A -> A -> Prop) s l :
  (forall s x, R x (snd (f s x))) -> Forall2 R l (snd (map_accum_l f s l)).
Proof.
  intros HR. revert s; induction l as [|x l IH]; intros s; cbn [map_accum_l]; [constructor|].
  pose proof (HR s x) as Hx. destruct (f s x) as [s1 x']. specialize (IH s1).
  destruct (map_accum_l f s1 l) as [s2 l']. by constructor.
Qed.
End Loops.

Lemma all_blocks_cons m ms : all_blocks (m :: ms) = blocks_of_message m ++ all_blocks ms.
Proof. done. Qed.

Lemma on_blocks_map {S} (f : S -> list value -> S * list value) s m :
  f s [] = (s, []) ->
  fst (on_blocks f s m) = fst (f s (blocks_of_message m))
  /\ blocks_of_message (snd (on_blocks f s m)) = snd (f s (blocks_of_message m)).
Proof.
  intros Hnil. unfold on_blocks, blocks_of_message.
  destruct (cm_content m) as [| | | |blocks|] eqn:E; cbn [as_array unwrap_or];
    rewrite ?Hnil; cbn [fst snd]; rewrite ?E; try done.
  by destruct (f s blocks) as [s' blocks'].
Qed.

(** A loop over the blocks of the messages is the loop over all blocks. *)
Lemma map_accum_r_blocks {S} (f : S -> value -> S * value) s ms :
  let '(s', ms') := map_accum_r (on_blocks (map_accum_r f)) s ms in
  map_accum_r f s (all_blocks ms) = (s', all_blocks ms').
Proof.
  induction ms as [|m ms IH]; [done|]. cbn [map_accum_r].
  destruct (map_accum_r (on_blocks _) s ms) as [s1 ms1].
  rewrite all_blocks_cons, map_accum_r_app, IH.
  destruct (on_blocks_map (map_accum_r f) s1 m eq_refl) as [Hs Hb].
  destruct (on_blocks _ s1 m) as [s2 m2]. cbn [fst snd] in *. subst.
  rewrite all_blocks_cons, Hb. by destruct (map_accum_r f s1 _).
Qed.

Lemma map_accum_l_blocks {S} (f : S -> value -> S * value) s ms :
  let '(s', ms') := map_accum_l (on_blocks (map_accum_l f)) s ms in
  map_accum_l f s (all_blocks ms) = (s', all_blocks ms').
Proof.
  revert s; induction ms as [|m ms IH]; intros s; [done|]. cbn [map_accum_l].
  destruct (on_blocks_map (map_accum_l f) s m eq_refl) as [Hs Hb].
  destruct (on_blocks _ s m) as [s1 m1]. cbn [fst snd] in *. specialize (IH s1).
  destruct (map_accum_l (on_blocks _) s1 ms) as [s2 ms2].
  rewrite !all_blocks_cons, map_accum_l_app, Hb. rewrite Hs in IH.
  destruct (map_accum_l f s _) as [s3 bs]. cbn [fst snd] in *. by rewrite IH.
Qed.

(** ** Blocks *)

Lemma get_str_insert_ne k k' v block :
  k <> k' -> get_str (block_insert k v block) k' = get_str block k'.
Proof.
  intros Hne. destruct block; try done. unfold get_str, get, block_insert.
  by rewrite obj_get_insert_ne.
Qed.

Lemma has_type_insert k v kind block :
  k <> "type" -> has_type kind (block_insert k v block) = has_type kind block.
Proof. intros Hne. unfold has_type. by rewrite get_str_insert_ne. Qed.

Lemma get_str_insert_eq k s block :
  get_str block "type" <> None -> get_str (block_insert k (Str s) block) k = Some s.
Proof.
  intros Ht. destruct block; try (by destruct Ht). unfold get_str, get, block_insert.
  by rewrite obj_get_insert_eq.
Qed.

(** ** Tool results *)

(** A result an edit may clear: not cleared yet, and not of an excluded tool. *)
Definition clearable (names : gmap string string) (excluded : gset string) (block : value) : bool :=
  has_type "tool_result" block && negb (tool_result_is_cleared block)
  && is_some_and (get_str block "tool_use_id") (fun id => negb (excluded_call names excluded id)).

(** What an edit may do to a block, given the ids of the results it cleared. *)
Definition block_edited (names : gmap string string) (plan : ClearToolUsesPlan)
    (ids : gset string) (block block' : value) : Prop :=
  block' = block
  \/ (clearable names (pl_exclude_tools plan) block = true
      /\ (exists id, get_str block "tool_use_id" = Some id /\ id ∈ ids)
      /\ block' = block_insert "content" (Str CLEARED_TOOL_RESULT_TEXT) block)
  \/ (has_type "tool_use" block = true
      /\ (exists id, get_str block "id" = Some id /\ id ∈ ids)
      /\ includes (pl_clear_tool_inputs plan) (get_str block "name") = true
      /\ block' = block_insert "input" (Object []) block).

Lemma clear_result_cases names excluded st block :
  if clearable names excluded block then
    exists id, get_str block "tool_use_id" = Some id
      /\ clear_result names excluded st block =
           if (0 <? st.1)%Z then ((st.1 - 1, st.2)%Z, block)
           else ((st.1, {[id]} ∪ st.2),
                 block_insert "content" (Str CLEARED_TOOL_RESULT_TEXT) block)
  else clear_result names excluded st block = (st, block).
Proof.
  unfold clearable, clear_result.
  destruct (has_type "tool_result" block); [|done].
  destruct (tool_result_is_cleared block); [done|]. cbn [negb andb orb].
  destruct (get_str block "tool_use_id") as [id|]; [|done]. cbn [is_some_and].
  destruct (excluded_call names excluded id); [done|]. exists id. split; [done|].
  by destruct (0 <? st.1)%Z.
Qed.

Lemma cleared_not_clearable names excluded block :
  clearable names excluded block = true ->
  clearable names excluded (block_insert "content" (Str CLEARED_TOOL_RESULT_TEXT) block) = false.
Proof.
  unfold clearable at 1. intros [[Ht _]%andb_prop _]%andb_prop. unfold clearable.
  replace (tool_result_is_cleared _) with true; [by rewrite andb_false_r|].
  symmetry. apply bool_decide_eq_true, get_str_insert_eq.
  unfold has_type in Ht. apply bool_decide_eq_true in Ht. by rewrite Ht.
Qed.

Abbreviation clearable_of names excluded l :=
  (filter (fun block => clearable names excluded block = true) l).

(** The backward loop keeps the last results it may clear, as many as asked,
    and clears exactly the others. *)
Lemma clear_results_spec names excluded keep ids l :
  (0 <= keep)%Z ->
  let '((rest, ids'), l') := map_accum_r (clear_result names excluded) (keep, ids) l in
  rest = Z.max 0 (keep - Z.of_nat (length (clearable_of names excluded l)))
  /\ clearable_of names excluded l' =
       drop (length (clearable_of names excluded l) - Z.to_nat keep) (clearable_of names excluded l)
  /\ ids ⊆ ids'
  /\ Forall2 (fun b b' => b' = b
       \/ clearable names excluded b = true
          /\ (exists id, get_str b "tool_use_id" = Some id /\ id ∈ ids')
          /\ b' = block_insert "content" (Str CLEARED_TOOL_RESULT_TEXT) b) l l'.
Proof.
  intros Hkeep. induction l as [|x l IH]; cbn [map_accum_r].
  { split_and!; [simpl; lia|done|done|constructor]. }
  destruct (map_accum_r _ _ l) as [[rest ids1] l1]. destruct IH as (Hrest & Hkept & Hids & Hall).
  pose proof (clear_result_cases names excluded (rest, ids1) x) as Hx. rewrite !filter_cons.
  destruct (clearable names excluded x) eqn:Ex.
  - destruct Hx as (id & Hid & ->). rewrite (decide_True (P := true = true)) by done.
    cbn [fst snd length] in *. destruct (Z.ltb_spec 0 rest).
    + rewrite filter_cons_True by done. split_and!; [lia| |done|].
      * rewrite Hkept. replace (_ - _) with 0 by lia. by replace (_ - _) with 0 by lia.
      * constructor; [by left|done].
    + rewrite filter_cons_False by (by rewrite cleared_not_clearable). split_and!; [lia| |set_solver|].
      * rewrite Hkept. by replace (S _ - _) with (S (length (clearable_of names excluded l)
          - Z.to_nat keep)) by lia.
      * constructor; [right; split_and!; [done| |done]; exists id; set_solver|].
        eapply Forall2_impl; [done|]. intros b b' [?|(? & (i & ? & ?) & ?)]; [by left|right].
        split_and!; [done| |done]. exists i. set_solver.
  - rewrite Hx. rewrite (decide_False (P := false = true)) by done.
    rewrite filter_cons_False by (by rewrite Ex). split_and!; [done..|].
    constructor; [by left|done].
Qed.

Definition input_edited (plan : ClearToolInputsPlan) (ids : gset string) (block block' : value) :
    Prop :=
  block' = block
  \/ has_type "tool_use" block = true
     /\ (exists id, get_str block "id" = Some id /\ id ∈ ids)
     /\ includes plan (get_str block "name") = true
     /\ block' = block_insert "input" (Object []) block.

Lemma clear_input_spec plan ids n block :
  input_edited plan ids block (snd (clear_input plan ids n block)).
Proof.
  unfold clear_input, input_edited. destruct (has_type "tool_use" block); [|by left].
  destruct (get_str block "id") as [id|]; [|by left]. cbn [negb orb is_some_and].
  case_bool_decide as Hid; [|by left]. cbn [negb].
  destruct (includes _ _) eqn:E; [|by left]. right. split_and!; try done. by exists id.
Qed.

Lemma has_type_unique a b block : has_type a block = true -> has_type b block = true -> a = b.
Proof. unfold has_type. rewrite !bool_decide_eq_true. congruence. Qed.

Lemma clearable_insert_input names excluded block :
  has_type "tool_use" block = true ->
  clearable names excluded (block_insert "input" (Object []) block) = false
  /\ clearable names excluded block = false.
Proof.
  intros Ht. unfold clearable. rewrite has_type_insert by done.
  destruct (has_type "tool_result" block) eqn:E; [|done].
  by pose proof (has_type_unique _ _ _ Ht E).
Qed.

Lemma Forall2_compose {A} (R1 R2 R : A -> A -> Prop) l k m :
  Forall2 R1 l k -> Forall2 R2 k m -> (forall x y z, R1 x y -> R2 y z -> R x z) -> Forall2 R l m.
Proof.
  intros H1 H2 H. revert m H2. induction H1; intros m H2; inversion H2; subst; constructor; eauto.
Qed.

(** Clearing inputs leaves the results that may be cleared alone. *)
Lemma clear_inputs_spec plan ids ms :
  let ms' := snd (clear_inputs plan ids ms) in
  Forall2 (input_edited plan ids) (all_blocks ms) (all_blocks ms')
  /\ forall names excluded,
       clearable_of names excluded (all_blocks ms') = clearable_of names excluded (all_blocks ms).
Proof.
  cbv zeta. unfold clear_inputs. case_bool_decide as Hids.
  { split; [|done]. apply Forall_Forall2_diag, Forall_forall. by left. }
  pose proof (map_accum_l_blocks (clear_input plan ids) 0%Z ms) as Hb.
  destruct (map_accum_l (on_blocks _) 0%Z ms) as [n ms']. cbn [snd].
  pose proof (map_accum_l_Forall2 (clear_input plan ids) (input_edited plan ids) 0%Z (all_blocks ms)
                (clear_input_spec plan ids)) as Hall.
  rewrite Hb in Hall. cbn [snd] in Hall. split; [exact Hall|]. intros names excluded.
  clear Hb. induction Hall as [|b b' l l' Hb _ IH]; [done|]. rewrite !filter_cons.
  destruct Hb as [->|(Ht & _ & _ & ->)]; [by case_decide; rewrite IH|].
  destruct (clearable_insert_input names excluded b Ht) as [-> ->]. by rewrite IH.
Qed.

(** ** Messages keep their frame *)

Definition same_frame (m m' : ClaudeMessage) : Prop :=
  m' = cm_set_content m (cm_content m')
  /\ length (blocks_of_message m') = length (blocks_of_message m).

Lemma same_frame_trans m1 m2 m3 : same_frame m1 m2 -> same_frame m2 m3 -> same_frame m1 m3.
Proof.
  intros [H1 L1] [H2 L2]. split; [|congruence]. rewrite H2, H1. by destruct m1.
Qed.

Lemma on_blocks_frame {S} (f : S -> list value -> S * list value) s m :
  (forall s l, length (snd (f s l)) = length l) -> same_frame m (snd (on_blocks f s m)).
Proof.
  intros Hlen. unfold on_blocks, same_frame, blocks_of_message.
  destruct (cm_content m) eqn:E; try (cbn [snd]; split; [by destruct m|by rewrite E]).
  specialize (Hlen s l). destruct (f s l) as [s' l']. cbn in *. by rewrite Hlen.
Qed.

Lemma map_accum_r_length {S A} (f : S -> A -> S * A) s l :
  length (snd (map_accum_r f s l)) = length l.
Proof.
  symmetry. eapply Forall2_length, (map_accum_r_Forall2 f (fun _ _ => True)). done.
Qed.

Lemma map_accum_l_length {S A} (f : S -> A -> S * A) s l :
  length (snd (map_accum_l f s l)) = length l.
Proof.
  symmetry. eapply Forall2_length, (map_accum_l_Forall2 f (fun _ _ => True)). done.
Qed.

Lemma clear_inputs_frame plan ids ms : Forall2 same_frame ms (snd (clear_inputs plan ids ms)).
Proof.
  unfold clear_inputs. case_bool_decide.
  - apply Forall_Forall2_diag, Forall_forall. intros m _. split; [by destruct m|done].
  - apply map_accum_l_Forall2. intros s m. apply on_blocks_frame. intros. apply map_accum_l_length.
Qed.

Lemma clear_results_frame names excluded keep ms :
  Forall2 same_frame ms (snd (clear_tool_results names excluded keep ms)).
Proof.
  apply map_accum_r_Forall2. intros s m. apply on_blocks_frame. intros. apply map_accum_r_length.
Qed.

(** ** Thinking *)

Abbreviation said l := (filter (fun block => is_thinking block = false) l).

Lemma clear_thinking_turn_said st m :
  said (blocks_of_message (snd (clear_thinking_turn st m))) = said (blocks_of_message m).
Proof.
  unfold clear_thinking_turn, blocks_of_message. case_bool_decide; [|done]. cbn [negb].
  destruct (cm_content m) as [| | | |blocks|] eqn:E; cbn [snd]; rewrite ?E; try done.
  destruct (existsb _ _); [|by cbn [negb snd]; rewrite E]. cbn [negb].
  destruct (0 <? st.1)%Z; cbn [snd cm_set_content cm_content]; rewrite ?E; [done|].
  cbn [as_array unwrap_or]. apply filter_all. intros b [? _]%list_elem_of_filter. done.
Qed.

(** Only thinking is removed: what the messages said is kept, in order. *)
Lemma clear_thinking_said ms keep :
  said (all_blocks (fst (clear_thinking_turns ms keep))) = said (all_blocks ms).
Proof.
  unfold clear_thinking_turns.
  assert (H : said (all_blocks (snd (map_accum_r clear_thinking_turn (keep, 0%Z) ms)))
              = said (all_blocks ms)).
  { induction ms as [|m ms IH]; [done|]. cbn [map_accum_r].
    destruct (map_accum_r _ _ ms) as [st ms1]. pose proof (clear_thinking_turn_said st m) as Hm.
    destruct (clear_thinking_turn st m) as [st' m1]. cbn [snd] in *.
    by rewrite !all_blocks_cons, !filter_app, Hm, IH. }
  destruct (map_accum_r _ _ ms) as [[rest cleared] ms']. cbn [fst snd] in *. rewrite <- H. clear H.
  induction ms' as [|m ms' IH]; [done|]. rewrite filter_cons.
  destruct (not_emptied m) eqn:E; rewrite all_blocks_cons.
  - rewrite (decide_True (P := true = true)) by done. by rewrite all_blocks_cons, !filter_app, IH.
  - rewrite (decide_False (P := false = true)) by done. rewrite IH.
    unfold not_emptied in E. apply orb_false_elim in E as [_ E]. unfold blocks_of_message.
    by destruct (as_array (cm_content m)) as [[|]|].
Qed.

Lemma thinking_edit_frame encoded_len r :
  rq_context_management (fst (apply_thinking_edit encoded_len r)) = rq_context_management r
  /\ said (all_blocks (rq_messages (fst (apply_thinking_edit encoded_len r))))
     = said (all_blocks (rq_messages r)).
Proof.
  unfold apply_thinking_edit. destruct (clear_thinking_plan r) as [[edit_type [keep|]]|]; try done.
  pose proof (clear_thinking_said (rq_messages r) keep) as H.
  by destruct (clear_thinking_turns (rq_messages r) keep).
Qed.

(** Context edits remove only what they may.  The thinking edit keeps
    everything else that was said.  The tool edit runs only when its trigger
    is reached; it keeps every message and block in place and the results
    asked to be kept, which are exactly the most recent ones; it clears only
    results of tools that are not excluded, and inputs only of calls whose
    result it cleared; and when the saving falls short of the minimum asked
    for, nothing is changed. *)
Theorem context_edit_keeps_recent (encoded_len : ClaudeRequest -> option Z) (r : ClaudeRequest)
    (tokens : Z) (plan : ClearToolUsesPlan) :
  clear_tool_uses_plan (rq_context_management r) = Some plan -> (0 <= pl_keep plan)%Z ->
  let r1 := fst (apply_thinking_edit encoded_len r) in
  let r' := fst (apply_context_management_edits encoded_len r tokens) in
  let estimate := estimate_context_management_input_tokens encoded_len in
  let names := tool_names (rq_messages r1) in
  let results q := clearable_of names (pl_exclude_tools plan) (all_blocks (rq_messages q)) in
  said (all_blocks (rq_messages r1)) = said (all_blocks (rq_messages r))
  /\ (r' = r1
      \/ activated (pl_trigger plan) tokens
           (count_clearable_tool_results (rq_messages r1) (pl_exclude_tools plan)) = true
         /\ Forall2 same_frame (rq_messages r1) (rq_messages r')
         /\ results r' = drop (length (results r1) - Z.to_nat (pl_keep plan)) (results r1)
         /\ (exists ids, Forall2 (block_edited names plan ids)
                           (all_blocks (rq_messages r1)) (all_blocks (rq_messages r')))
         /\ forall minimum, pl_clear_at_least plan = Some minimum ->
              (minimum <= sat_sub (estimate r1) (estimate r'))%Z).
Proof.
  intros Hplan Hkeep. cbv zeta. destruct (thinking_edit_frame encoded_len r) as [Hcm Hsaid].
  split; [done|]. unfold apply_context_management_edits.
  destruct (apply_thinking_edit encoded_len r) as [r1 stats]. cbn [fst] in *. rewrite Hcm, Hplan.
  destruct (activated _ _ _) eqn:Eact; [|by left]. cbn [negb]. unfold apply_tool_edit.
  set (names := tool_names (rq_messages r1)). unfold clear_tool_results.
  pose proof (map_accum_r_blocks (clear_result names (pl_exclude_tools plan)) (pl_keep plan, ∅)
                (rq_messages r1)) as Hflat.
  pose proof (clear_results_frame names (pl_exclude_tools plan) (pl_keep plan) (rq_messages r1)) as Hfr.
  unfold clear_tool_results in Hfr.
  destruct (map_accum_r (on_blocks _) _ (rq_messages r1)) as [[rest ids] ms1].
  pose proof (clear_results_spec names (pl_exclude_tools plan) (pl_keep plan) ∅
                (all_blocks (rq_messages r1)) Hkeep) as Hspec.
  rewrite Hflat in Hspec. destruct Hspec as (_ & Hkept & _ & Hall).
  destruct (clear_inputs_spec (pl_clear_tool_inputs plan) ids ms1) as [Hin Hsame].
  pose proof (clear_inputs_frame (pl_clear_tool_inputs plan) ids ms1) as Hfr2.
  destruct (clear_inputs _ ids ms1) as [inputs ms2]. cbn [snd] in *.
  destruct (is_some_and (pl_clear_at_least plan) _) eqn:Emin; [by left|]. right.
  cbn [fst rq_messages rq_set_messages rq_set]. split_and!; [done| | | |].
  - eapply Forall2_compose; [done..|]. intros *. apply same_frame_trans.
  - rewrite Hsame. exact Hkept.
  - exists ids. eapply Forall2_compose; [done..|]. intros x y z [->|(Hc & Hid & ->)] Hz.
    + destruct Hz as [->|?]; [by left|by right; right].
    + right; left. destruct Hz as [->|(Ht & _)]; [done|]. rewrite has_type_insert in Ht by done.
      destruct (clearable_insert_input names (pl_exclude_tools plan) x Ht) as [_ E].
      by rewrite E in Hc.
  - intros minimum Hm. rewrite Hm in Emin. cbn in Emin. by apply Z.ltb_ge in Emin.
Qed.

(** ** The compaction boundary *)

Lemma last_index_Some {A} (f : A -> bool) l i :
  last_index f l = Some i ->
  exists pre x post, l = pre ++ x :: post /\ length pre = i /\ f x = true
    /\ Forall (fun y => f y = false) post.
Proof.
  assert (Hnone : forall k, last_index f k = None -> Forall (fun y => f y = false) k).
  { induction k as [|y k IHk]; cbn [last_index]; [constructor|].
    destruct (last_index f k); [done|]. destruct (f y) eqn:E; [done|]. constructor; auto. }
  revert i; induction l as [|x l IH]; intros i; cbn [last_index]; [done|].
  destruct (last_index f l) as [j|] eqn:E.
  - intros [= <-]. destruct (IH j eq_refl) as (pre & y & post & -> & <- & Hy & Hpost).
    by exists (x :: pre), y, post.
  - destruct (f x) eqn:Ex; [|done]. intros [= <-]. exists [], x, l. by auto.
Qed.

Lemma last_index_None {A} (f : A -> bool) l :
  last_index f l = None <-> Forall (fun y => f y = false) l.
Proof.
  induction l as [|x l IH]; cbn [last_index]; [by split|].
  destruct (last_index f l).
  - split; [done|]. intros [_ Hl]%Forall_cons. by apply IH in Hl.
  - destruct (f x) eqn:Ex; split; try done; [by intros [? _]%Forall_cons; congruence|].
    intros _. constructor; [done|]. by apply IH.
Qed.

Lemma last_index_middle {A} (f : A -> bool) pre x post :
  f x = true -> Forall (fun y => f y = false) post ->
  last_index f (pre ++ x :: post) = Some (length pre).
Proof.
  intros Hx Hpost%last_index_None. induction pre as [|y pre IH]; cbn [app last_index length].
  - by rewrite Hpost, Hx.
  - by rewrite IH.
Qed.

(** A conversation in which the message after [pre] holds the last completed
    compaction. *)
Record boundary_at (messages pre : list ClaudeMessage) (m : ClaudeMessage)
    (bpre : list value) (b : value) (bpost : list value) (post : list ClaudeMessage) : Prop := {
  ba_messages : messages = pre ++ m :: post;
  ba_role : cm_role m = "assistant";
  ba_content : cm_content m = Array (bpre ++ b :: bpost);
  ba_completed : completed_compaction b = true;
  ba_blocks : Forall (fun b => completed_compaction b = false) bpost;
  ba_post : Forall (fun m => boundary_block m = None) post;
}.

Lemma boundary_at_block messages pre m bpre b bpost post :
  boundary_at messages pre m bpre b bpost post -> boundary_block m = Some (length bpre).
Proof.
  intros [_ Hr Hc Hb Hbs _]. unfold boundary_block. rewrite bool_decide_true by done.
  rewrite Hc. cbn [as_array mbind option_bind]. by apply last_index_middle.
Qed.

Lemma find_boundary_at messages pre m bpre b bpost post :
  boundary_at messages pre m bpre b bpost post ->
  find_boundary messages = Some (length pre, length bpre).
Proof.
  intros Hba. pose proof (boundary_at_block _ _ _ _ _ _ _ Hba) as Hm.
  destruct Hba as [-> _ _ _ _ Hpost]. unfold find_boundary.
  rewrite last_index_middle; [|by rewrite Hm|].
  - cbn [mbind option_bind]. rewrite list_lookup_middle by done. cbn. by rewrite Hm.
  - eapply Forall_impl; [done|]. intros x Hx. cbn beta in *. by rewrite Hx.
Qed.

Lemma find_boundary_Some messages i j :
  find_boundary messages = Some (i, j) ->
  exists pre m bpre b bpost post, boundary_at messages pre m bpre b bpost post
    /\ length pre = i /\ length bpre = j.
Proof.
  unfold find_boundary. destruct (last_index _ messages) as [i'|] eqn:E; [|done].
  apply last_index_Some in E as (pre & m & post & -> & Hlen & Hm & Hpost).
  cbn [mbind option_bind]. rewrite list_lookup_middle by done. cbn.
  destruct (boundary_block m) as [j'|] eqn:Hb; [|done]. intros [= -> ->].
  unfold boundary_block in Hb. case_bool_decide as Hr; [|done].
  destruct (cm_content m) as [| | | |blocks|] eqn:Hc; try done. cbn in Hb.
  apply last_index_Some in Hb as (bpre & b & bpost & -> & Hl & Hcomp & Hbpost).
  exists pre, m, bpre, b, bpost, post. split; [|done]. split; try done.
  eapply Forall_impl; [done|]. intros x Hx. cbn beta in *. by destruct (boundary_block x).
Qed.

Lemma find_boundary_None messages :
  find_boundary messages = None <-> Forall (fun m => boundary_block m = None) messages.
Proof.
  unfold find_boundary. destruct (last_index _ messages) as [i|] eqn:E.
  - pose proof (last_index_Some _ _ _ E) as (pre & m & post & -> & Hlen & Hm & _).
    cbn [mbind option_bind]. rewrite list_lookup_middle by done. cbn.
    destruct (boundary_block m) eqn:Hb; [|done]. split; [done|].
    intros (_ & [Hn _]%Forall_cons)%Forall_app. congruence.
  - apply last_index_None in E. split; [intros _|done]. eapply Forall_impl; [done|].
    intros m' Hm'. cbn beta in *. by destruct (boundary_block m').
Qed.

Lemma apply_boundary_messages messages pre m bpre b bpost post :
  boundary_at messages pre m bpre b bpost post ->
  drop_blocks (length bpre) (drop (length pre) messages) =
    cm_set_content m (Array (b :: bpost)) :: post.
Proof.
  intros [-> _ Hc _ _ _]. rewrite drop_app_length. cbn [drop_blocks]. rewrite Hc.
  by rewrite drop_app_length.
Qed.

(** ** Blocks without effect *)

Definition clean (m : ClaudeMessage) : Prop := remove_noops m = (Some m, 0%Z).

Lemma set_same_content m : cm_set_content m (cm_content m) = m.
Proof. by destruct m. Qed.

Lemma remove_noops_Some m m' :
  fst (remove_noops m) = Some m' ->
  (m' = m /\ (cm_role m <> "assistant" \/ as_array (cm_content m) = None))
  \/ exists blocks, cm_role m = "assistant" /\ cm_content m = Array blocks
       /\ m' = cm_set_content m (Array (filter (fun b => noop_compaction b = false) blocks))
       /\ (blocks = [] \/ filter (fun b => noop_compaction b = false) blocks <> []).
Proof.
  unfold remove_noops. case_bool_decide as Hr; cbn [negb fst].
  2: { intros [= <-]. auto. }
  destruct (cm_content m) as [| | | |blocks|] eqn:Hc; cbn [fst];
    try (intros [= <-]; left; auto; fail).
  intros H. right. exists blocks. destruct blocks as [|x blocks].
  - injection H as <-. auto.
  - destruct (filter _ (x :: blocks)) eqn:E; [done|]. injection H as <-. auto.
Qed.

Lemma remove_noops_clean m m' : fst (remove_noops m) = Some m' -> clean m'.
Proof.
  unfold clean. intros [(-> & Hm)|(blocks & Hr & Hc & -> & Hk)]%remove_noops_Some; unfold remove_noops.
  - case_bool_decide; [|done]. cbn [negb]. destruct Hm as [?|Hm]; [done|].
    by destruct (cm_content m).
  - rewrite bool_decide_true by done. cbn [negb cm_content cm_set_content].
    rewrite (filter_all _ (filter _ blocks)), Nat.sub_diag.
    + destruct Hk as [->|Hk]; [done|]. by destruct (filter _ blocks).
    + intros x [Hx _]%list_elem_of_filter. done.
Qed.

Lemma clean_noop_blocks messages :
  Forall clean messages ->
  remove_noop_blocks messages = messages
  /\ foldl (fun n m => n + snd (remove_noops m))%Z 0%Z messages = 0%Z.
Proof.
  intros Hc. split.
  - induction Hc as [|m l Hm _ IH]; [done|]. unfold remove_noop_blocks in *. cbn [omap list_omap].
    rewrite Hm. cbn [fst]. by f_equal.
  - induction Hc as [|m l Hm _ IH]; [done|]. cbn [foldl]. by rewrite Hm.
Qed.

Lemma remove_noop_blocks_clean messages : Forall clean (remove_noop_blocks messages).
Proof.
  apply Forall_forall. intros m' (m & _ & Hm)%list_elem_of_omap. by eapply remove_noops_clean.
Qed.

(** Removing blocks creates no boundary. *)
Lemma remove_noops_boundary m m' :
  fst (remove_noops m) = Some m' -> boundary_block m = None -> boundary_block m' = None.
Proof.
  intros [(-> & _)|(blocks & Hr & Hc & -> & _)]%remove_noops_Some; [done|].
  unfold boundary_block. cbn [cm_role cm_content cm_set_content].
  rewrite Hr, Hc. cbn [as_array mbind option_bind]. rewrite bool_decide_true by done.
  rewrite !last_index_None, !Forall_forall. intros Hall x [_ Hx]%list_elem_of_filter. by apply Hall.
Qed.

Lemma remove_noop_blocks_boundary messages :
  Forall (fun m => boundary_block m = None) messages ->
  Forall (fun m => boundary_block m = None) (remove_noop_blocks messages).
Proof.
  rewrite !Forall_forall. intros Hall m' (m & Hm & Hr)%list_elem_of_omap.
  eapply remove_noops_boundary; [done|]. by apply Hall.
Qed.

(** The boundary itself is not removed. *)
Lemma remove_noops_head m b bpost :
  cm_role m = "assistant" -> completed_compaction b = true ->
  remove_noops (cm_set_content m (Array (b :: bpost))) =
    (Some (cm_set_content m (Array (b :: filter (fun x => noop_compaction x = false) bpost))),
     Z.of_nat (length bpost - length (filter (fun x => noop_compaction x = false) bpost))).
Proof.
  intros Hr Hb. unfold remove_noops. cbn [cm_role cm_set_content cm_content].
  rewrite bool_decide_true by done. cbn [negb]. rewrite filter_cons_True; [done|].
  unfold completed_compaction in Hb. apply andb_prop in Hb as [Ht Hc].
  unfold noop_compaction. rewrite Ht. cbn [andb]. unfold get_str in Hc.
  by destruct (get b "content") as [[]|].
Qed.

(** What normalizing leaves of a conversation with a boundary. *)
Lemma normalize_at r pre m bpre b bpost post :
  boundary_at (rq_messages r) pre m bpre b bpost post ->
  let '(r', stats) := normalize_compaction_boundary r in
  boundary_applied stats = true
  /\ r' = rq_set r
       (cm_set_content m (Array (b :: filter (fun x => noop_compaction x = false) bpost))
        :: remove_noop_blocks post)
       (carry_effort (rq_output_config r) (last_effort pre)).
Proof.
  intros Hba. unfold normalize_compaction_boundary.
  rewrite (find_boundary_at _ _ _ _ _ _ _ Hba). split; [done|].
  cbn [rq_messages rq_set_messages rq_set apply_boundary].
  rewrite (apply_boundary_messages _ _ _ _ _ _ _ Hba).
  unfold remove_noop_blocks. cbn [omap list_omap].
  rewrite (remove_noops_head m b bpost (ba_role _ _ _ _ _ _ _ Hba) (ba_completed _ _ _ _ _ _ _ Hba)).
  unfold apply_boundary. rewrite (ba_messages _ _ _ _ _ _ _ Hba), take_app_length. reflexivity.
Qed.

(** What is left begins at the boundary. *)
Lemma normalized_boundary messages pre m bpre b bpost post :
  boundary_at messages pre m bpre b bpost post ->
  find_boundary (cm_set_content m (Array (b :: filter (fun x => noop_compaction x = false) bpost))
                 :: remove_noop_blocks post) = Some (0, 0).
Proof.
  intros [_ Hr _ Hcomp Hbs Hpost].
  set (m' := cm_set_content m _).
  apply (find_boundary_at (m' :: remove_noop_blocks post) [] m' []
           b (filter (fun x => noop_compaction x = false) bpost) (remove_noop_blocks post)).
  split; try done; [|by apply remove_noop_blocks_boundary].
  rewrite Forall_forall in *. intros x [_ Hx]%list_elem_of_filter. by apply Hbs.
Qed.

Lemma normalize_clean r :
  Forall clean (rq_messages r) ->
  (find_boundary (rq_messages r) = None \/ find_boundary (rq_messages r) = Some (0, 0)) ->
  normalize_compaction_boundary r =
    (r, {| boundary_applied := is_some (find_boundary (rq_messages r));
           removed_noop_blocks := 0; removed_noop_messages := 0 |}).
Proof.
  intros Hc Hb. destruct (clean_noop_blocks _ Hc) as [Hsame Hsum].
  assert (Hr : match find_boundary (rq_messages r) with
               | Some (i, j) => apply_boundary r i j | None => r end = r).
  { destruct Hb as [->| ->]; [done|]. unfold apply_boundary. rewrite drop_0, take_0.
    change (last_effort []) with (@None string). cbn [carry_effort].
    replace (drop_blocks 0 (rq_messages r)) with (rq_messages r); [by destruct r|].
    unfold drop_blocks. destruct (rq_messages r) as [|m l]; [done|].
    destruct (cm_content m) eqn:E; try done. rewrite drop_0, <- E. by rewrite set_same_content. }
  unfold normalize_compaction_boundary. rewrite Hr, Hsame, Hsum, Nat.sub_diag.
  by destruct r.
Qed.

(** Normalizing the compaction boundary is a normal form: a second pass
    changes nothing and removes nothing, and it finds a boundary exactly when
    the first pass did. *)
Theorem normalize_boundary_idempotent (r : ClaudeRequest) :
  let '(r', stats) := normalize_compaction_boundary r in
  normalize_compaction_boundary r' =
    (r', {| boundary_applied := boundary_applied stats;
            removed_noop_blocks := 0; removed_noop_messages := 0 |}).
Proof.
  destruct (normalize_compaction_boundary r) as [r' stats] eqn:E.
  assert (Hclean : Forall clean (rq_messages r')).
  { unfold normalize_compaction_boundary in E. simplify_eq. apply remove_noop_blocks_clean. }
  assert (Hb : find_boundary (rq_messages r') = if boundary_applied stats then Some (0, 0) else None).
  { destruct (find_boundary (rq_messages r)) as [[i j]|] eqn:Eb.
    - apply find_boundary_Some in Eb as (pre & m & bpre & b & bpost & post & Hba & _).
      pose proof (normalize_at _ _ _ _ _ _ _ Hba) as Hn. rewrite E in Hn. destruct Hn as [-> ->].
      by eapply normalized_boundary.
    - unfold normalize_compaction_boundary in E. rewrite Eb in E. simplify_eq. cbn.
      by apply find_boundary_None, remove_noop_blocks_boundary, find_boundary_None. }
  rewrite normalize_clean by (try done; rewrite Hb; destruct (boundary_applied stats); auto).
  rewrite Hb. by destruct (boundary_applied stats).
Qed.

(** ** A concrete request *)

Definition demo_use (id name : string) : value :=
  json_object [("type", Str "tool_use"); ("id", Str id); ("name", Str name); ("input", Object [])].
Definition demo_result (id text : string) : value :=
  json_object [("type", Str "tool_result"); ("tool_use_id", Str id); ("content", Str text)].

Definition demo_management : value :=
  json_object
    [("edits", Array
        [json_object
           [("type", Str "clear_tool_uses_20250919");
            ("trigger", json_object [("type", Str "tool_uses"); ("value", unsigned 2)]);
            ("keep", json_object [("type", Str "tool_uses"); ("value", unsigned 1)]);
            ("exclude_tools", Array [Str "Memory"])]])].

Definition demo_turn (role : string) (blocks : list value) : ClaudeMessage :=
  {| cm_role := role; cm_content := Array blocks; cm_cache_control := None;
     cm_output_config := None; cm_extra := [] |}.

Definition demo_request (messages : list ClaudeMessage) : ClaudeRequest :=
  {| rq_model := "claude-sonnet-4.5"; rq_messages := messages; rq_max_tokens := 1024;
     rq_temperature := None; rq_top_p := None; rq_top_k := None; rq_stop_sequences := [];
     rq_stream := false; rq_system := None; rq_tools := []; rq_tool_choice := None;
     rq_thinking := None; rq_output_config := None; rq_cache_control := None;
     rq_service_tier := None; rq_metadata := None; rq_conversation_id := None;
     rq_context_management := Some demo_management; rq_extra := [] |}.

Definition demo_calls : list ClaudeMessage :=
  [demo_turn "assistant" [demo_use "a" "Memory"; demo_use "b" "Read"; demo_use "c" "Read"];
   demo_turn "user" [demo_result "a" "one"; demo_result "b" "two"; demo_result "c" "three"]].

Lemma context_edit_keeps_recent_witness :
  let r := demo_request demo_calls in
  let r' := fst (apply_context_management_edits (fun _ => Some 400%Z) r 10) in
  rq_messages r' =
    [demo_turn "assistant" [demo_use "a" "Memory"; demo_use "b" "Read"; demo_use "c" "Read"];
     demo_turn "user" [demo_result "a" "one"; demo_result "b" CLEARED_TOOL_RESULT_TEXT;
                       demo_result "c" "three"]]
  /\ exists plan, clear_tool_uses_plan (rq_context_management r) = Some plan
     /\ pl_keep plan = 1%Z
     /\ said (all_blocks (rq_messages (fst (apply_thinking_edit (fun _ => Some 400%Z) r))))
        = said (all_blocks (rq_messages r)).
Proof.
  cbv zeta. split; [vm_compute; reflexivity|].
  destruct (clear_tool_uses_plan (rq_context_management (demo_request demo_calls))) as [plan|] eqn:E.
  2: { exfalso. vm_compute in E. discriminate E. }
  assert (Hk : pl_keep plan = 1%Z) by (vm_compute in E; by simplify_eq).
  exists plan. split; [reflexivity|]. split; [exact Hk|].
  refine (proj1 (context_edit_keeps_recent (fun _ => Some 400%Z) (demo_request demo_calls) 10 plan E _)).
  rewrite Hk. lia.
Defined.
