(* ===== verification/Compaction.v ===== *)
(** * The effective history of a Claude request

    What [kproxyd/src/http/handlers/request.rs] does with a request's messages
    before it validates them: the checkpoint of an earlier compaction is
    replayed when the client did not keep it ([CompactionReplay]), and the
    conversation is cut at its last compaction boundary ([Context]).  Here the
    two components meet, and the theorem is about both. *)

From Stdlib Require Import ZArith Lia String.
From stdpp Require Import base list gmap sets strings.
From S2P Require Import Prelude RustStr F64 Json Protocol CompactionReplay Context ContextFacts.

Local Open Scope kproxy_scope.
Local Open Scope string_scope.
Local Open Scope list_scope.

Section Effective.
Context (sha256 : string -> string) (to_json : list ClaudeMessage -> option string).
Context (iter : Entries -> list (string * ReplayEntry)).

(** [replay_scope.as_deref().and_then(..)] followed by
    [normalize_compaction_boundary(&mut request)]. *)
Definition effective_request (now : Z) (between : Entries -> Entries) (scope : option string)
    (r : ClaudeRequest) (entries : Entries) :
    Entries * (ClaudeRequest * ClaudeCompactionNormalizationStats)
    * option CompactionReplayApplied :=
  match scope with
  | None => (entries, normalize_compaction_boundary r, None)
  | Some scope =>
      let '(entries, messages, applied) :=
        apply sha256 to_json now between scope (rq_messages r) entries in
      (entries, normalize_compaction_boundary (rq_set_messages r messages), applied)
  end.

Lemma completed_same block : completed_compaction block = completed_block block.
Proof. reflexivity. Qed.

Lemma blocks_not_completed content :
  has_completed_compaction content = false ->
  Forall (fun b => completed_compaction b = false) (blocks_of content).
Proof.
  destruct content as [| | |text|blocks|]; cbn [blocks_of]; try by constructor.
  - intros _. destruct (is_empty text); repeat constructor.
  - unfold has_completed_compaction. cbn [as_array is_some_and]. intros H.
    induction blocks as [|b blocks IH]; constructor; cbn [existsb] in H;
      apply orb_false_elim in H as [H1 H2]; auto.
Qed.

(** A replayed checkpoint is the boundary of the messages it is put into. *)
Lemma replayed_boundary pre assistant checkpoint rest :
  is_empty checkpoint = false -> cm_role assistant = "assistant" ->
  has_completed_compaction (cm_content assistant) = false ->
  Forall (fun m => boundary_block m = None) rest ->
  let m := cm_set_content assistant
             (Array (boundary checkpoint :: blocks_of (cm_content assistant))) in
  boundary_at (pre ++ m :: rest) pre m [] (boundary checkpoint)
    (blocks_of (cm_content assistant)) rest.
Proof.
  intros Hne Hrole Hfresh Hrest m. split; try done.
  - pose proof (boundary_completed checkpoint [] Hne) as H.
    unfold has_completed_compaction in H. cbn [as_array is_some_and existsb] in H.
    rewrite orb_false_r in H. exact H.
  - by apply blocks_not_completed.
Qed.

(** A replayed checkpoint replaces exactly the history it summarises.
    When a remembered checkpoint is replayed into a request whose later turns
    hold no completed compaction, the effective request begins with the
    assistant message after that history, the checkpoint before its own
    blocks, and goes on with every later message; only blocks and messages
    without effect are left out.  Everything else of the request is as it was,
    except for the effort that the last dropped system message had set. *)
Theorem replay_drops_covered_history hist entries now between scope r
    entries' r' stats applied :
  reached sha256 to_json iter hist entries ->
  effective_request now between (Some scope) r entries = (entries', (r', stats), Some applied) ->
  Forall (fun m => boundary_block m = None)
    (drop (S (ap_source_message_count applied)) (rq_messages r)) ->
  exists source checkpoint assistant,
    (scope, source, checkpoint) ∈ hist
    /\ digest_messages sha256 to_json (take (length source) (rq_messages r))
       = digest_messages sha256 to_json source
    /\ rq_messages r !! length source = Some assistant
    /\ boundary_applied stats = true
    /\ r' = rq_set r
        (cm_set_content assistant
           (Array (boundary checkpoint
                   :: filter (fun b => noop_compaction b = false)
                        (blocks_of (cm_content assistant))))
         :: remove_noop_blocks (drop (S (length source)) (rq_messages r)))
        (carry_effort (rq_output_config r) (last_effort (take (length source) (rq_messages r)))).
Proof.
  intros Hr. unfold effective_request.
  destruct (apply _ _ _ _ _ _ _) as [[e ms] ap] eqn:Ha. intros Heq. simplify_eq.
  rename H0 into Hn.
  destruct (apply_Some _ _ _ _ _ _ _ _ _ _ _ _ Hr Ha) as (source & checkpoint & assistant & rest & digest
    & Hsource & Hne & Hlen & Hm & Hdig & Hrole & Hfresh & -> & _ & -> & _).
  cbn [ap_source_message_count]. intros Hrest.
  assert (Hat : drop (length source) (rq_messages r) = assistant :: rest).
  { apply (app_inv_head (take (length source) (rq_messages r))). by rewrite take_drop. }
  assert (Hd : drop (S (length source)) (rq_messages r) = rest).
  { rewrite <- Nat.add_1_r, <- drop_drop. by rewrite Hat. }
  assert (Hlook : rq_messages r !! length source = Some assistant).
  { rewrite <- (Nat.add_0_r (length source)), <- lookup_drop. by rewrite Hat. }
  rewrite Hd in *. exists source, checkpoint, assistant.
  match type of Hn with normalize_compaction_boundary ?q = _ => pose proof (normalize_at q _ _ _ _ _ _
    (replayed_boundary (take (length source) (rq_messages r)) _ _ _ Hne Hrole Hfresh Hrest)) as Hb end.
  rewrite Hn in Hb. destruct Hb as [-> ->]. rewrite Hd. by split_and!.
Qed.
End Effective.

(** ** A concrete replay *)

Definition demo_effective :
    Entries * (ClaudeRequest * ClaudeCompactionNormalizationStats)
    * option CompactionReplayApplied :=
  effective_request (fun s => s) demo_json 5 (fun e => e) (Some "scope")
    (ContextFacts.demo_request CompactionReplay.demo_request) demo_entries.

Definition demo_applied : CompactionReplayApplied :=
  {| ap_source_message_count := 1; ap_incoming_message_count := 3; ap_checkpoint_bytes := 10 |}.

Lemma demo_effective_eq :
  demo_effective = (demo_effective.1.1, (demo_effective.1.2.1, demo_effective.1.2.2), Some demo_applied).
Proof. vm_compute. reflexivity. Qed.

Lemma replay_drops_covered_history_witness :
  rq_messages demo_effective.1.2.1 =
    [demo_turn "assistant"
       [boundary "checkpoint"; json_object [("type", Str "text"); ("text", Str "answer")]];
     demo_message "user" "go on"]
  /\ exists source checkpoint, (("scope", source, checkpoint)
        : string * list ClaudeMessage * string) ∈ [("scope", demo_source, "checkpoint")].
Proof.
  split; [vm_compute; reflexivity|].
  destruct (replay_drops_covered_history (fun s => s) demo_json map_to_list
              [("scope", demo_source, "checkpoint")] demo_entries 5 (fun e => e) "scope"
              (ContextFacts.demo_request CompactionReplay.demo_request) _ _ _ demo_applied
              demo_reached demo_effective_eq) as (source & checkpoint & _ & Hin & _).
  - repeat constructor.
  - by exists source, checkpoint.
Defined.
