(* ===== verification/ToolNames.v ===== *)
(** * Tool names

    The part of [kproxy-translate/src/translate/common.rs] that names tools:
    Kiro accepts at most 64 bytes out of a restricted alphabet, clients do not
    keep to that, and the registry of a request maps the names both ways.
    SHA-256 is an argument; a digest is a string of bytes. *)

From Stdlib Require Import ZArith Lia Ascii String Sorting.Sorted.
From stdpp Require Import base list gmap sets strings.
From S2P Require Import Prelude RustStr F64 Json Protocol.

Local Open Scope kproxy_scope.
Local Open Scope string_scope.
Local Open Scope list_scope.

Definition MAX_KIRO_TOOL_NAME : nat := 64.
Definition MAX_KIRO_DESCRIPTION : nat := 1024.

Definition is_name_char (a : ascii) : bool :=
  is_ascii_alphanumeric a || Ascii.eqb a "_" || Ascii.eqb a "-".

(** Each character outside the alphabet becomes one underscore. *)
Definition normalize_name (name : string) : string :=
  l2s ((fun a => if is_name_char a then a else "_"%char)
         <$> filter (fun a => is_continuation a = false) (s2l name)).

(** A prefix of the normalized name, cut so that the hash fits. *)
Definition with_suffix (normalized suffix : string) : string :=
  let prefix_length := MAX_KIRO_TOOL_NAME - len suffix - 1 in
  let prefix := l2s (take prefix_length (s2l normalized)) in
  (if is_empty prefix then "tool" else prefix) +:+ "_" +:+ suffix.

(** [BTreeSet<String>]: the distinct elements in order. *)
Fixpoint set_insert (x : string) (l : list string) : list string :=
  match l with
  | [] => [x]
  | y :: l' =>
      match str_cmp x y with
      | Lt => x :: l
      | Eq => l
      | Gt => y :: set_insert x l'
      end
  end.

Definition btree_set (l : list string) : list string :=
  fold_left (fun set x => set_insert x set) l [].

Record ToolNameRegistry := {
  original_to_kiro : gmap string string;
  kiro_to_original : gmap string string;
}.

Definition registry_default : ToolNameRegistry :=
  {| original_to_kiro := ∅; kiro_to_original := ∅ |}.

Section Names.
Context (sha256 : string -> string).

Definition tool_name (name : string) : string :=
  let normalized := normalize_name name in
  if (len normalized <=? MAX_KIRO_TOOL_NAME)%nat && negb (is_empty normalized) then normalized
  else with_suffix normalized (show_hex (take 6 (s2l (sha256 name)))).

Definition collision_tool_name (name : string) (nonce : Z) : string :=
  with_suffix (normalize_name name)
    (show_hex (take 8 (s2l (sha256 (name +:+ String "000" EmptyString
                                      +:+ show_nat (Z.to_nat nonce)))))).

Definition base_counts (originals : list string) : gmap string nat :=
  fold_left (fun counts original =>
               let base := tool_name original in
               <[base := S (unwrap_or (counts !! base) 0)]> counts) originals ∅.

(** The loop that tries candidates until one is free. *)
Fixpoint free_name (fuel : nat) (original : string) (needs_hash : bool)
    (taken : gmap string string) (nonce : Z) : option string :=
  match fuel with
  | O => None
  | S fuel =>
      let candidate :=
        if needs_hash || (0 <? nonce)%Z then collision_tool_name original nonce
        else tool_name original in
      if is_some (taken !! candidate)
      then free_name fuel original needs_hash taken (sat_add U32_MAX nonce 1)
      else Some candidate
  end.

Definition register (fuel : nat) (counts : gmap string nat) (registry : ToolNameRegistry)
    (original : string) : option ToolNameRegistry :=
  let base := tool_name original in
  let needs_hash :=
    (1 <? unwrap_or (counts !! base) 0)%nat || is_some (kiro_to_original registry !! base) in
  match free_name fuel original needs_hash (kiro_to_original registry) 0 with
  | None => None
  | Some kiro =>
      Some {| original_to_kiro := <[original := kiro]> (original_to_kiro registry);
              kiro_to_original := <[kiro := original]> (kiro_to_original registry) |}
  end.

Fixpoint register_all (fuel : nat) (counts : gmap string nat) (registry : ToolNameRegistry)
    (originals : list string) : option ToolNameRegistry :=
  match originals with
  | [] => Some registry
  | original :: originals =>
      registry ← register fuel counts registry original;
      register_all fuel counts registry originals
  end.

Definition originals_of (names : list string) : list string :=
  btree_set (filter (fun name => is_empty name = false) names).

(** [ToolNameRegistry::new]; [None] when a search for a free name needs more
    than [fuel] rounds. *)
Definition new (fuel : nat) (names : list string) : option ToolNameRegistry :=
  let originals := originals_of names in
  register_all fuel (base_counts originals) registry_default originals.

Definition kiro_name (registry : ToolNameRegistry) (original : string) : string :=
  unwrap_or (original_to_kiro registry !! original) (tool_name original).

Definition contains_original (registry : ToolNameRegistry) (original : string) : bool :=
  is_some (original_to_kiro registry !! original).

Definition restore_map (registry : ToolNameRegistry) : gmap string string :=
  kiro_to_original registry.

(** ** Tool definitions *)

Definition newline : string := String "010" EmptyString.

Definition kiro_tool_named (original_name kiro_name description : string) (schema : value) :
    KiroTool * option string :=
  let '(description, documentation) :=
    if (MAX_KIRO_DESCRIPTION <? char_count description)%nat then
      ("[Full documentation in system prompt under '## Tool: " +:+ original_name +:+ "']",
       Some ("## Tool: " +:+ original_name +:+ newline +:+ newline +:+ description))
    else if is_empty (trim description) then ("Tool " +:+ original_name +:+ ".", None)
    else (description, None) in
  (Specification {| ts_name := kiro_name; ts_description := description;
                    ts_input_schema := schema |}, documentation).

Definition kiro_tool (name description : string) (schema : value) : KiroTool * option string :=
  kiro_tool_named name (tool_name name) description schema.

(** ** The alphabet and the length *)

(** A name Kiro accepts. *)
Definition kiro_name_ok (name : string) : Prop :=
  name <> EmptyString /\ len name <= MAX_KIRO_TOOL_NAME
  /\ forallb is_name_char (s2l name) = true.

Lemma name_char_code a : is_name_char a = true -> ws1 a = false /\ (code a < 128)%Z.
Proof.
  unfold is_name_char. destruct (Ascii.eqb_spec a "_") as [->|]; [done|].
  destruct (Ascii.eqb_spec a "-") as [->|]; [done|]. rewrite !orb_false_r.
  unfold is_ascii_alphanumeric, is_ascii_digit, is_ascii_upper, is_ascii_lower, in_range. intros H.
  assert (48 <= code a <= 122)%Z
    by (repeat (apply orb_prop in H as [H|H]); apply andb_prop in H as [?%Z.leb_le ?%Z.leb_le]; lia).
  split; [|lia]. unfold ws1, in_range.
  rewrite (proj2 (Z.leb_gt (code a) 13)), (proj2 (Z.leb_gt (code a) 32)), !andb_false_r by lia. done.
Qed.

Lemma name_char_ws2 a b : is_name_char a = true -> ws2 a b = false.
Proof. intros [_ H]%name_char_code. unfold ws2. rewrite (proj2 (Z.eqb_neq _ _)) by lia. done. Qed.

Lemma name_char_ws3 a b c : is_name_char a = true -> ws3 a b c = false.
Proof.
  intros [_ H]%name_char_code. unfold ws3.
  rewrite !(proj2 (Z.eqb_neq (code a) _)) by lia. done.
Qed.

(** Nothing is trimmed off a name Kiro accepts. *)
Lemma kiro_name_trim name : kiro_name_ok name -> trim name = name.
Proof.
  intros (_ & _ & Hc). unfold trim, trim_l, trim_end_l.
  assert (Hstart : forall l, forallb is_name_char l = true -> ws_step l = None).
  { intros [|a [|b [|c l]]]; cbn [forallb ws_step]; try done;
      intros [Ha _]%andb_prop; pose proof (name_char_code a Ha) as [-> _];
      rewrite ?name_char_ws2 by done; rewrite ?name_char_ws3 by done; done. }
  assert (Hend : forall l, forallb is_name_char l = true -> ws_step_rev l = None).
  { intros [|a [|b [|c l]]]; cbn [forallb ws_step_rev]; try done; intros [Ha Hl]%andb_prop;
      pose proof (name_char_code a Ha) as [-> _]; try done; apply andb_prop in Hl as [Hb Hl];
      rewrite name_char_ws2 by done; try done; apply andb_prop in Hl as [Hc' _];
      by rewrite name_char_ws3. }
  assert (Hrev : forallb is_name_char (reverse (s2l name)) = true).
  { rewrite forallb_forall in *. intros a Ha. apply Hc. rewrite <- list_elem_of_In in *.
    by apply elem_of_reverse. }
  rewrite trim_start_eq, Hstart, trim_rev_eq, Hend by done.
  by rewrite reverse_involutive, l2s_s2l.
Qed.

Lemma normalize_name_chars name : forallb is_name_char (s2l (normalize_name name)) = true.
Proof.
  unfold normalize_name. rewrite s2l_l2s. apply forallb_forall. intros a Ha.
  apply list_elem_of_In, list_elem_of_fmap in Ha as (b & -> & _). by destruct (is_name_char b) eqn:E.
Qed.

Lemma hex_digit_name_char n : n < 16 -> is_name_char (hex_digit n) = true.
Proof. intros H. do 16 (destruct n as [|n]; [done|]). lia. Qed.

Lemma show_hex_chars l : forallb is_name_char (s2l (show_hex l)) = true.
Proof.
  unfold show_hex. assert (forallb is_name_char (s2l EmptyString) = true) as H by done.
  revert H. generalize EmptyString. induction l as [|a l IH]; intros s Hs; cbn [fold_left]; [done|].
  apply IH. rewrite s2l_app, forallb_app, Hs. cbn [andb show_hex_byte s2l list_ascii_of_string forallb].
  pose proof (nat_ascii_bounded a).
  rewrite !hex_digit_name_char; [done|apply Nat.mod_upper_bound; lia|apply Nat.Div0.div_lt_upper_bound; lia].
Qed.

Lemma with_suffix_ok normalized suffix :
  forallb is_name_char (s2l normalized) = true -> forallb is_name_char (s2l suffix) = true ->
  len suffix <= 59 -> kiro_name_ok (with_suffix normalized suffix).
Proof.
  intros Hn Hs Hlen. unfold with_suffix.
  set (prefix := if is_empty _ then _ else _).
  assert (Hp : prefix <> EmptyString /\ len prefix <= MAX_KIRO_TOOL_NAME - len suffix - 1
               /\ forallb is_name_char (s2l prefix) = true).
  { unfold prefix. destruct (is_empty _) eqn:E.
    - split_and!; [done|cbv [MAX_KIRO_TOOL_NAME]; cbn [len String.length]; lia|done].
    - apply is_empty_false in E. split_and!; [done| |].
      + rewrite len_s2l, s2l_l2s, length_take. lia.
      + rewrite s2l_l2s. apply forallb_forall. intros a Ha. rewrite forallb_forall in Hn. apply Hn.
        apply list_elem_of_In. apply list_elem_of_In in Ha.
        apply elem_of_take in Ha as (i & Hi & _). by eapply list_elem_of_lookup_2. }
  clearbody prefix. destruct Hp as (Hne & Hl & Hc). split_and!.
  - intros H%(f_equal len). rewrite !len_app in H. change (len "_") with 1 in H. cbn in H. lia.
  - rewrite !len_app. change (len "_") with 1. unfold MAX_KIRO_TOOL_NAME in *. lia.
  - rewrite !s2l_app, !forallb_app, Hc, Hs. done.
Qed.

Lemma tool_name_ok name : kiro_name_ok (tool_name name).
Proof.
  unfold tool_name. destruct (_ && _) eqn:E.
  - apply andb_prop in E as [Hl%Nat.leb_le He%negb_true_iff%is_empty_false].
    split_and!; [done|done|apply normalize_name_chars].
  - apply with_suffix_ok; [apply normalize_name_chars|apply show_hex_chars|].
    rewrite len_show_hex, length_take. lia.
Qed.

Lemma collision_tool_name_ok name nonce : kiro_name_ok (collision_tool_name name nonce).
Proof.
  apply with_suffix_ok; [apply normalize_name_chars|apply show_hex_chars|].
  rewrite len_show_hex, length_take. lia.
Qed.

(** ** The set of names *)

Lemma elem_of_set_insert x y l : x ∈ set_insert y l <-> x = y \/ x ∈ l.
Proof.
  induction l as [|z l IH]; cbn [set_insert]; [set_solver|].
  destruct (str_cmp y z) eqn:E; [|set_solver..]. apply str_cmp_eq in E as ->. set_solver.
Qed.

Lemma elem_of_btree_set x l : x ∈ btree_set l <-> x ∈ l.
Proof.
  unfold btree_set. assert (forall l acc, x ∈ fold_left (fun set x => set_insert x set) l acc
    <-> x ∈ acc \/ x ∈ l) as H; [|rewrite H; set_solver].
  clear l. induction l as [|y l IH]; intros acc; cbn [fold_left]; [set_solver|].
  rewrite IH, elem_of_set_insert. set_solver.
Qed.

Lemma cmp_l_trans k l m : cmp_l k l = Lt -> cmp_l l m = Lt -> cmp_l k m = Lt.
Proof.
  revert l m; induction k as [|a k IH]; intros [|b l] [|c m]; cbn [cmp_l]; try done.
  destruct (Z.compare_spec (code a) (code b)), (Z.compare_spec (code b) (code c)),
    (Z.compare_spec (code a) (code c)); try done; try lia. apply IH.
Qed.

Lemma cmp_l_swap k l : cmp_l l k = CompOpp (cmp_l k l).
Proof.
  revert l; induction k as [|a k IH]; intros [|b l]; cbn [cmp_l]; try done.
  rewrite (Z.compare_antisym (code a) (code b)). destruct (Z.compare _ _); cbn; [apply IH|done..].
Qed.

Definition str_lt (x y : string) : Prop := str_cmp x y = Lt.

Lemma set_insert_sorted x l : StronglySorted str_lt l -> StronglySorted str_lt (set_insert x l).
Proof.
  induction 1 as [|y l Hl IH Hall]; cbn [set_insert]; [by repeat constructor|].
  destruct (str_cmp x y) eqn:E; [by constructor| |].
  - repeat constructor; try done. eapply Forall_impl; [done|]. intros z. by apply cmp_l_trans.
  - constructor; [done|]. apply Forall_forall. intros z [->|Hz]%elem_of_set_insert.
    + unfold str_lt, str_cmp in *. by rewrite cmp_l_swap, E.
    + by eapply Forall_forall.
Qed.

Lemma btree_set_NoDup (l : list string) : NoDup (btree_set l).
Proof.
  assert (H : StronglySorted str_lt (btree_set l)).
  { unfold btree_set. assert (StronglySorted str_lt []) as H by constructor. revert H.
    generalize (@nil string). induction l as [|x l IH]; intros acc Hacc; cbn [fold_left]; [done|].
    by apply IH, set_insert_sorted. }
  induction H as [|x l' _ IH Hall]; constructor; [|done]. intros Hx.
  rewrite Forall_forall in Hall. specialize (Hall x Hx). unfold str_lt, str_cmp in Hall.
  clear -Hall. induction (s2l x) as [|a k IH]; cbn [cmp_l] in Hall; [done|].
  rewrite Z.compare_refl in Hall. auto.
Qed.

Lemma length_set_insert x l : length (set_insert x l) <= S (length l).
Proof. induction l as [|y l IH]; cbn [set_insert length]; [done|]. destruct (str_cmp x y); cbn; lia. Qed.

Lemma length_btree_set l : length (btree_set l) <= length l.
Proof.
  unfold btree_set. assert (forall l acc, length (fold_left (fun set x => set_insert x set) l acc)
    <= length acc + length l) as H; [|by rewrite H].
  clear l. induction l as [|y l IH]; intros acc; cbn [fold_left length]; [lia|].
  rewrite IH. pose proof (length_set_insert y acc). lia.
Qed.

Lemma elem_of_originals x names : x ∈ originals_of names <-> x ∈ names /\ x <> EmptyString.
Proof.
  unfold originals_of. rewrite elem_of_btree_set, list_elem_of_filter, is_empty_false. naive_solver.
Qed.

(** ** The registry *)

(** Both maps, read as one relation, with the names chosen. *)
Record registry_ok (registry : ToolNameRegistry) : Prop := {
  rk_inverse : forall original kiro,
    original_to_kiro registry !! original = Some kiro <->
    kiro_to_original registry !! kiro = Some original;
  rk_chosen : forall original kiro, original_to_kiro registry !! original = Some kiro ->
    kiro = tool_name original \/ exists nonce, kiro = collision_tool_name original nonce;
}.

Lemma free_name_free fuel original needs_hash taken nonce kiro :
  free_name fuel original needs_hash taken nonce = Some kiro ->
  taken !! kiro = None
  /\ (kiro = tool_name original \/ exists nonce, kiro = collision_tool_name original nonce).
Proof.
  revert nonce; induction fuel as [|fuel IH]; intros nonce; cbn [free_name]; [done|].
  case_match eqn:E; [apply IH|]. intros [= <-]. split; [by destruct (taken !! _)|].
  destruct (needs_hash || _); eauto.
Qed.

Lemma register_ok fuel counts registry original registry' :
  registry_ok registry -> original_to_kiro registry !! original = None ->
  register fuel counts registry original = Some registry' ->
  registry_ok registry'
  /\ exists kiro, original_to_kiro registry' = <[original := kiro]> (original_to_kiro registry).
Proof.
  intros [Hinv Hch] Hnew. unfold register. destruct (free_name _ _ _ _ _) as [kiro|] eqn:E; [|done].
  apply free_name_free in E as [Hfree Hkiro]. intros [= <-]. split; [|by exists kiro].
  split; cbn [original_to_kiro kiro_to_original].
  - intros o k. rewrite !lookup_insert_Some. split.
    + intros [[<- <-]|[Hne Ho]]; [by left|right]. split; [|by apply Hinv].
      intros <-. apply Hinv in Ho. congruence.
    + intros [[<- <-]|[Hne Hk]]; [by left|right]. split; [|by apply Hinv].
      intros <-. apply Hinv in Hk. congruence.
  - intros o k [[<- <-]|[_ Ho]]%lookup_insert_Some; [done|by apply Hch].
Qed.

Lemma register_all_ok fuel counts originals registry registry' :
  registry_ok registry -> NoDup originals ->
  (forall o, o ∈ originals -> original_to_kiro registry !! o = None) ->
  register_all fuel counts registry originals = Some registry' ->
  registry_ok registry'
  /\ forall o, is_Some (original_to_kiro registry' !! o) <->
       is_Some (original_to_kiro registry !! o) \/ o ∈ originals.
Proof.
  intros Hok Hnd. revert registry Hok.
  induction Hnd as [|x originals Hx _ IH]; intros registry Hok Hnew; cbn [register_all].
  { intros [= <-]. split; [done|]. intros o. rewrite elem_of_nil. naive_solver. }
  destruct (register _ _ _ _) as [r1|] eqn:E; cbn [mbind option_bind]; [|done].
  apply register_ok in E as [Hok1 [kiro Hk]]; [|done|apply Hnew; by left].
  intros Hall. apply IH in Hall as [Hok' Hdom]; [|done|].
  - split; [done|]. intros o. rewrite Hdom, Hk, lookup_insert_is_Some, elem_of_cons. clear.
    destruct (decide (x = o)); naive_solver.
  - intros o Ho. rewrite Hk, lookup_insert_ne by (intros ->; done). apply Hnew. by right.
Qed.

Lemma registry_default_ok : registry_ok registry_default.
Proof. split; cbn; [intros; split; intros H|intros ? ? H]; by rewrite lookup_empty in H. Qed.

Lemma new_ok fuel names registry :
  new fuel names = Some registry ->
  registry_ok registry
  /\ forall o, is_Some (original_to_kiro registry !! o) <-> o ∈ names /\ o <> EmptyString.
Proof.
  intros H. apply register_all_ok in H as [Hok Hdom];
    [|apply registry_default_ok|apply btree_set_NoDup|intros; apply lookup_empty].
  split; [done|]. intros o. rewrite Hdom, elem_of_originals.
  split; [|auto]. intros [[? H]|H]; [|done]. cbn in H. by rewrite lookup_empty in H.
Qed.

Lemma kiro_name_ok_all registry name : registry_ok registry -> kiro_name_ok (kiro_name registry name).
Proof.
  intros [_ Hch]. unfold kiro_name. destruct (_ !! name) as [kiro|] eqn:E; [|apply tool_name_ok].
  apply Hch in E as [->|[nonce ->]]; [apply tool_name_ok|apply collision_tool_name_ok].
Qed.

(** ** The search for a free name ends *)

Definition candidate (original : string) (needs_hash : bool) (nonce : nat) : string :=
  if needs_hash || (0 <? Z.of_nat nonce)%Z then collision_tool_name original (Z.of_nat nonce)
  else tool_name original.

Lemma free_name_taken fuel original needs_hash taken nonce :
  (Z.of_nat (nonce + fuel) <= U32_MAX)%Z ->
  free_name fuel original needs_hash taken (Z.of_nat nonce) = None ->
  Forall (fun n => is_Some (taken !! candidate original needs_hash n)) (seq nonce fuel).
Proof.
  revert nonce; induction fuel as [|fuel IH]; intros nonce Hb; cbn [free_name seq]; [constructor|].
  fold (candidate original needs_hash nonce).
  destruct (taken !! candidate _ _ _) as [o|] eqn:E; cbn [is_some]; [|done].
  intros H. constructor; [by exists o|]. apply IH; [lia|].
  replace (Z.of_nat (S nonce)) with (sat_add U32_MAX (Z.of_nat nonce) 1) by (unfold sat_add; lia).
  done.
Qed.

(** With no collision among the first hashes of a name, [size taken + 2]
    rounds suffice: each round but the first finds a different name taken. *)
Lemma free_name_ends fuel original needs_hash taken :
  (Z.of_nat fuel <= U32_MAX)%Z -> S (size taken) < fuel ->
  NoDup (collision_tool_name original ∘ Z.of_nat <$> seq 1 (fuel - 1)) ->
  is_Some (free_name fuel original needs_hash taken 0).
Proof.
  intros Hb Hsize Hnd. destruct (free_name _ _ _ _ _) eqn:E; [done|exfalso].
  apply (free_name_taken fuel original needs_hash taken 0) in E; [|done].
  destruct fuel as [|fuel]; [lia|]. cbn [seq] in E. apply Forall_cons in E as [_ E].
  rewrite Nat.sub_succ, Nat.sub_0_r in Hnd.
  set (keys := collision_tool_name original ∘ Z.of_nat <$> seq 1 fuel) in *.
  assert (Hsub : (list_to_set keys : gset string) ⊆ dom taken).
  { intros k (n & -> & Hn)%elem_of_list_to_set%list_elem_of_fmap. apply elem_of_dom.
    rewrite Forall_forall in E. specialize (E n Hn). apply elem_of_seq in Hn.
    unfold candidate in E. rewrite (proj2 (Z.ltb_lt _ _)), orb_true_r in E by lia. done. }
  apply subseteq_size in Hsub. rewrite size_dom, size_list_to_set in Hsub by done.
  unfold keys in Hsub. rewrite length_fmap, length_seq in Hsub. lia.
Qed.

(** ** Legal names *)

Lemma legal_tool_name name : kiro_name_ok name -> tool_name name = name.
Proof.
  intros (Hne & Hlen & Hc). assert (Hn : normalize_name name = name).
  { unfold normalize_name. rewrite forallb_forall in Hc. rewrite filter_all.
    - rewrite <- (l2s_s2l name) at 2. f_equal. revert Hc. generalize (s2l name). clear.
      induction l as [|a l IH]; intros Hc; [done|]. rewrite fmap_cons, IH by auto with datatypes.
      by rewrite (Hc a) by (by left).
    - intros a Ha%list_elem_of_In%Hc. revert Ha. clear. destruct a as [[] [] [] [] [] [] [] []]; done. }
  unfold tool_name. rewrite Hn. apply is_empty_false in Hne. rewrite Hne.
  by apply Nat.leb_le in Hlen as ->.
Qed.

Definition sharing (base : string) (originals : list string) : list string :=
  filter (fun o => tool_name o = base) originals.

Lemma base_counts_lookup originals base :
  unwrap_or (base_counts originals !! base) 0 = length (sharing base originals).
Proof.
  unfold base_counts.
  assert (forall l (counts : gmap string nat),
    unwrap_or (fold_left (fun counts original =>
       <[tool_name original := S (unwrap_or (counts !! tool_name original) 0)]> counts) l counts
       !! base) 0 = unwrap_or (counts !! base) 0 + length (sharing base l)) as H;
    [|rewrite H, lookup_empty; done].
  induction l as [|o l IH]; intros counts; cbn [fold_left]; [unfold sharing; cbn; lia|].
  rewrite IH. unfold sharing. rewrite filter_cons, lookup_insert.
  repeat case_decide; subst; try done; cbn [unwrap_or length]; lia.
Qed.

Lemma sharing_alone base originals :
  NoDup originals -> (forall o, o ∈ originals -> tool_name o = base -> o = base) ->
  length (sharing base originals) <= 1.
Proof.
  intros Hnd%(NoDup_filter (fun o => tool_name o = base)) Ho. fold (sharing base originals) in Hnd.
  assert (Hall : Forall (fun o => o = base) (sharing base originals)).
  { apply Forall_forall. intros o [? ?]%list_elem_of_filter. auto. }
  destruct (sharing base originals) as [|x [|y l]]; cbn [length]; [lia..|exfalso].
  apply Forall_cons in Hall as [-> [-> _]%Forall_cons].
  apply NoDup_cons in Hnd as [Hx _]. apply Hx. by left.
Qed.

Lemma register_all_kept fuel counts originals registry registry' name :
  register_all fuel counts registry originals = Some registry' -> name ∉ originals ->
  original_to_kiro registry' !! name = original_to_kiro registry !! name.
Proof.
  revert registry; induction originals as [|x originals IH]; intros registry; cbn [register_all].
  { by intros [= <-]. }
  unfold register. destruct (free_name _ _ _ _ _) as [kiro|]; cbn [mbind option_bind]; [|done].
  intros H Hn. rewrite (IH _ H) by set_solver. cbn [original_to_kiro].
  apply lookup_insert_ne. set_solver.
Qed.

Lemma register_all_app fuel counts pre post registry registry' :
  register_all fuel counts registry (pre ++ post) = Some registry' ->
  exists r, register_all fuel counts registry pre = Some r
    /\ register_all fuel counts r post = Some registry'.
Proof.
  revert registry; induction pre as [|x pre IH]; intros registry; cbn [app register_all]; [eauto|].
  destruct (register _ _ _ x); cbn [mbind option_bind]; [apply IH|done].
Qed.

(** The name of an original that is registered at its turn. *)
Lemma new_at fuel names registry name :
  new fuel names = Some registry -> name ∈ names -> name <> EmptyString ->
  exists pre post r kiro, originals_of names = pre ++ name :: post
    /\ registry_ok r
    /\ (forall o, is_Some (original_to_kiro r !! o) <-> o ∈ pre)
    /\ free_name fuel name
         ((1 <? unwrap_or (base_counts (originals_of names) !! tool_name name) 0)%nat
          || is_some (kiro_to_original r !! tool_name name)) (kiro_to_original r) 0 = Some kiro
    /\ original_to_kiro registry !! name = Some kiro.
Proof.
  intros H Hin Hne. assert (Ho : name ∈ originals_of names) by by apply elem_of_originals.
  pose proof (btree_set_NoDup (filter (fun name => is_empty name = false) names)) as Hnd.
  unfold new in H. fold (originals_of names) in *.
  apply list_elem_of_split in Ho as (pre & post & Hsplit). rewrite Hsplit in Hnd.
  rewrite Hsplit in H at 2. apply NoDup_app in Hnd as (Hpre & Hdis & [Hpost _]%NoDup_cons).
  apply register_all_app in H as (r & Hr & H).
  apply register_all_ok in Hr as [Hok Hdom];
    [|apply registry_default_ok|done|intros; apply lookup_empty].
  cbn [register_all] in H. unfold register in H at 1.
  destruct (free_name _ _ _ _ _) as [kiro|] eqn:E; cbn [mbind option_bind] in H; [|done].
  exists pre, post, r, kiro. split_and!; try done.
  - intros o. rewrite Hdom. split; [|auto]. intros [[? Hx]|?]; [|done]. cbn in Hx.
    by rewrite lookup_empty in Hx.
  - rewrite (register_all_kept _ _ _ _ _ _ H) by done. cbn [original_to_kiro]. by rewrite lookup_insert_eq.
Qed.

Lemma register_all_ends fuel counts originals registry :
  (Z.of_nat fuel <= U32_MAX)%Z ->
  size (kiro_to_original registry) + length originals < fuel ->
  Forall (fun o => NoDup (collision_tool_name o ∘ Z.of_nat <$> seq 1 (fuel - 1))) originals ->
  is_Some (register_all fuel counts registry originals).
Proof.
  intros Hb. revert registry; induction originals as [|o originals IH];
    intros registry Hsize Hnd; cbn [register_all]; [done|].
  apply Forall_cons in Hnd as [Ho Hnd]. cbn [length] in Hsize. unfold register.
  assert (Hs : S (size (kiro_to_original registry)) < fuel) by lia.
  match goal with |- context [free_name fuel o ?h ?t 0] =>
    destruct (free_name_ends fuel o h t Hb Hs Ho) as [kiro ->] end.
  cbn [mbind option_bind]. apply IH; [|done]. cbn [kiro_to_original].
  eapply Nat.le_lt_trans; [|exact Hsize]. rewrite map_size_insert. destruct (_ !! kiro); cbn; lia.
Qed.

(** C36: Tool names survive the round trip through Kiro.  Every tool of a
    request gets a name of its own out of Kiro's alphabet and of at most 64
    bytes, and restoring that name gives back the client's; nothing else is
    ever restored.  A name that is legal already stays as it is, unless
    another tool of the request is mapped onto it. *)
Theorem registry_roundtrip (fuel : nat) (names : list string) (registry : ToolNameRegistry) :
  new fuel names = Some registry ->
  (forall name, name ∈ names -> name <> EmptyString ->
     restore_map registry !! kiro_name registry name = Some name)
  /\ (forall kiro original, restore_map registry !! kiro = Some original ->
        original ∈ names /\ original <> EmptyString /\ kiro_name registry original = kiro)
  /\ (forall name, kiro_name_ok (kiro_name registry name))
  /\ (forall name, name ∈ names -> kiro_name_ok name ->
        (forall other, other ∈ names -> other <> name ->
           tool_name other <> name /\ forall nonce, collision_tool_name other nonce <> name) ->
        kiro_name registry name = name).
Proof.
  intros Hnew. pose proof (new_ok _ _ _ Hnew) as [Hreg Hdom]. destruct (Hreg) as [Hinv Hch].
  unfold restore_map. split_and!; [..|by intros name; apply kiro_name_ok_all|]; unfold kiro_name.
  - intros name Hin Hne. destruct (proj2 (Hdom name) (conj Hin Hne)) as [kiro Hk].
    rewrite Hk. by apply Hinv.
  - intros kiro original H%Hinv. rewrite H. split_and!; try done; by apply (Hdom original).
  - intros name Hin Hok Hother. pose proof Hok as (Hne & _).
    destruct (new_at _ _ _ _ Hnew Hin Hne) as (pre & post & r & kiro & Hsplit & [Hinvr Hchr] & Hdomr
      & Hfree & ->). cbn [unwrap_or].
    pose proof (btree_set_NoDup (filter (fun name => is_empty name = false) names)) as Hnd.
    fold (originals_of names) in Hnd.
    assert (Hfresh : kiro_to_original r !! name = None).
    { destruct (_ !! name) as [o|] eqn:E; [|done]. apply Hinvr in E as Ho.
      assert (Hpre : o ∈ pre) by (apply Hdomr; eauto).
      assert (Hoin : o ∈ originals_of names) by (rewrite Hsplit; set_solver).
      apply elem_of_originals in Hoin as [Hoin _].
      assert (o <> name).
      { intros ->. rewrite Hsplit in Hnd. apply NoDup_app in Hnd as (_ & Hdis & _).
        apply (Hdis name); [done|by left]. }
      destruct (Hother o) as [Ht Hc]; [done..|]. apply Hchr in Ho as [->|[nonce ->]]; [done|].
      by destruct (Hc nonce). }
    rewrite legal_tool_name, Hfresh, base_counts_lookup in Hfree by done.
    rewrite (proj2 (Nat.ltb_ge _ _)) in Hfree.
    + destruct fuel; [done|]. cbn in Hfree. rewrite legal_tool_name, Hfresh in Hfree by done.
      by injection Hfree.
    + apply sharing_alone; [done|]. intros o Ho Ht. destruct (decide (o = name)) as [->|Hn]; [done|].
      apply elem_of_originals in Ho as [Ho _]. by destruct (Hother o Ho Hn).
Qed.

(** Naming ends.  If the hashes tried for a name do not collide with one
    another, one round more than there are tools finds a free name for each
    of them, whatever the names are. *)
Theorem registry_terminates (fuel : nat) (names : list string) :
  length names < fuel -> (Z.of_nat fuel <= U32_MAX)%Z ->
  (forall name, name ∈ names -> NoDup (collision_tool_name name ∘ Z.of_nat <$> seq 1 (fuel - 1))) ->
  is_Some (new fuel names).
Proof.
  intros Hlen Hb Hnd. unfold new. apply register_all_ends; [done| |].
  - cbn [kiro_to_original registry_default]. rewrite map_size_empty. unfold originals_of.
    pose proof (length_btree_set (filter (fun name => is_empty name = false) names)).
    pose proof (length_filter (fun name => is_empty name = false) names). lia.
  - apply Forall_forall. intros name [Hin _]%elem_of_originals. by apply Hnd.
Qed.
End Names.

(** ** A concrete catalog *)

(** A hash good enough for a few names: the last bytes, where the nonce is. *)
Definition demo_hash (s : string) : string := l2s (reverse (s2l s) ++ replicate 32 "0"%char).

Definition demo_names : list string := ["mcp.a/read"; "mcp_a/read"; "Read"; ""].

Definition demo_registry : ToolNameRegistry :=
  unwrap_or (new demo_hash 5 demo_names) registry_default.

Lemma registry_roundtrip_witness :
  kiro_name demo_hash demo_registry "mcp.a/read" = "mcp_a_read_3000646165722f61"
  /\ restore_map demo_registry !! "mcp_a_read_3000646165722f61" = Some "mcp.a/read"
  /\ restore_map demo_registry !! kiro_name demo_hash demo_registry "Read" = Some "Read".
Proof.
  split; [vm_compute; reflexivity|]. split; [vm_compute; reflexivity|].
  refine (proj1 (registry_roundtrip demo_hash 5 demo_names demo_registry _) "Read" _ _).
  - vm_compute. reflexivity.
  - right. right. left.
  - discriminate.
Defined.

Lemma registry_terminates_witness : is_Some (new demo_hash 5 demo_names).
Proof.
  apply (registry_terminates demo_hash 5 demo_names); [vm_compute; lia|vm_compute; discriminate|].
  intros name Hname. unfold demo_names in Hname.
  repeat (apply elem_of_cons in Hname as [->|Hname];
          [apply (bool_decide_unpack (NoDup _)); vm_compute; exact I|]).
  by apply elem_of_nil in Hname.
Defined.
