(* ===== verification/ToolSearch.v ===== *)
(** * Tool Search

    [kproxy-translate/src/translate/tool_search.rs]: the catalog of deferred
    tools the proxy keeps out of a request, and the two searches that load
    definitions out of it, by regular expression and by BM25 score.  The
    regular expression engines, the Unicode tables of [tokenize], the logarithm,
    the clock, the JSON printer and the iteration order of a hash set are
    arguments. *)

From Stdlib Require Import ZArith Lia Ascii String.
From stdpp Require Import base list gmap sets strings.
From S2P Require Import Prelude RustStr F64 Json Protocol ToolNames.

Local Open Scope kproxy_scope.
Local Open Scope string_scope.
Local Open Scope list_scope.

Definition DEFAULT_SEARCH_RESULTS : nat := 5.
Definition MAX_SEARCH_RESULTS : Z := 10000.
Definition MAX_REGEX_PATTERN_CHARS : nat := 200.
Definition MAX_BM25_QUERY_CHARS : nat := 500.
Definition MAX_FANCY_REGEX_SEARCH_MILLIS : Z := 100.

Inductive SearchKind := Regex | Bm25.
#[global] Instance SearchKind_eq_dec : EqDecision SearchKind.
Proof. solve_decision. Defined.

Record SearchTool := { st_kind : SearchKind; st_response_name : string }.

Record DeferredTool := {
  dt_source_name : string;
  dt_document : string;
  dt_term_frequencies : gmap string Z;
  dt_document_length : nat;
  dt_translated : KiroTool;
  dt_documentation : option string;
  dt_load_bytes : Z;
}.

Definition dt_kiro_name (t : DeferredTool) : string :=
  unwrap_or (ts_name <$> specification (dt_translated t)) EmptyString.

Record ClaudeToolSearchBudget := { max_tools : Z; max_bytes : Z }.

Definition budget_default : ClaudeToolSearchBudget :=
  {| max_tools := USIZE_MAX; max_bytes := USIZE_MAX |}.

Inductive ClaudeServerToolEmission := Complete | Pending | ResultOnly.

Record ClaudeToolSearchError := { se_code : string; se_message : string }.

Record ClaudeToolSearchTrace := {
  tt_id : string;
  tt_name : string;
  tt_input : value;
  tt_references : list string;
  tt_error : option ClaudeToolSearchError;
  tt_requested_limit : nat;
  tt_matched_count : nat;
  tt_budget_truncated : bool;
  tt_emission : ClaudeServerToolEmission;
}.

Definition trace_pending (id name : string) (input : value) : ClaudeToolSearchTrace :=
  {| tt_id := id; tt_name := name; tt_input := input; tt_references := []; tt_error := None;
     tt_requested_limit := DEFAULT_SEARCH_RESULTS; tt_matched_count := 0;
     tt_budget_truncated := false; tt_emission := Pending |}.

Definition trace_result_only (t : ClaudeToolSearchTrace) : ClaudeToolSearchTrace :=
  {| tt_id := tt_id t; tt_name := tt_name t; tt_input := tt_input t;
     tt_references := tt_references t; tt_error := tt_error t;
     tt_requested_limit := tt_requested_limit t; tt_matched_count := tt_matched_count t;
     tt_budget_truncated := tt_budget_truncated t; tt_emission := ResultOnly |}.

Record ClaudeToolSearchOutcome := {
  so_trace : ClaudeToolSearchTrace;
  so_tools : list KiroTool;
  so_documentation : list string;
  so_truncated : bool;
}.

Record ClaudeToolSearchCatalog := {
  cat_search_tools : gmap string SearchTool;
  cat_deferred : list DeferredTool;
  cat_document_frequencies : gmap string nat;
  cat_average_document_length : f64;
}.

(** ** The search tools themselves *)

Definition search_kind (kind : option string) : option SearchKind :=
  kind ← kind;
  if matches_type_family kind "tool_search_tool_regex" then Some Regex
  else if matches_type_family kind "tool_search_tool_bm25" then Some Bm25
  else None.

Definition is_tool_search_type (kind : string) : bool := is_some (search_kind (Some kind)).

Definition is_tool_search_tool (tool : ClaudeTool) : bool :=
  is_some_and (ct_type tool) is_tool_search_type.

Definition number_of (n : Z) : value := Number (PosInt n).

Definition limit_schema : value :=
  json_object [("type", Str "integer"); ("minimum", number_of 1);
               ("maximum", number_of MAX_SEARCH_RESULTS);
               ("default", number_of (Z.of_nat DEFAULT_SEARCH_RESULTS))].

Definition search_schema (field : string) (max_length : nat) : value :=
  json_object
    [("type", Str "object");
     ("properties", json_object
        [(field, json_object [("type", Str "string"); ("maxLength", number_of (Z.of_nat max_length))]);
         ("limit", limit_schema)]);
     ("additionalProperties", Bool false);
     ("required", Array [Str field])].

Definition search_description (how : string) : string :=
  "Search deferred tools " +:+ how +:+ ". Call this tool alone when the required tool is not currently loaded. The optional limit defaults to 5 and may be set from 1 to 10000; the proxy may return fewer definitions when the request budget is exhausted.".

Definition tool_search_kiro_tool_named (tool : ClaudeTool) (kiro_name : string) :
    option KiroTool :=
  kind ← search_kind (ct_type tool);
  let '(description, schema) :=
    match kind with
    | Regex => (search_description "by regular expression", search_schema "pattern" MAX_REGEX_PATTERN_CHARS)
    | Bm25 => (search_description "using a natural-language query", search_schema "query" MAX_BM25_QUERY_CHARS)
    end in
  Some (fst (kiro_tool_named (ct_name tool) kiro_name description schema)).

Definition error_outcome (tool_use : KiroToolUse) (response_name code message : string) :
    ClaudeToolSearchOutcome :=
  {| so_trace :=
       {| tt_id := tu_tool_use_id tool_use; tt_name := response_name; tt_input := tu_input tool_use;
          tt_references := []; tt_error := Some {| se_code := code; se_message := message |};
          tt_requested_limit := DEFAULT_SEARCH_RESULTS; tt_matched_count := 0;
          tt_budget_truncated := false; tt_emission := Complete |};
     so_tools := []; so_documentation := []; so_truncated := false |}.

Definition search_error : Type := string * string.

Definition invalid_input (message : string) : search_error := ("invalid_tool_input", message).

Definition is_object_value (v : value) : option (list (string * value)) :=
  match v with Object m => Some m | _ => None end.

Definition validate_search_input (input : value) (query_field : string) :
    result nat search_error :=
  match is_object_value input with
  | None => Err (invalid_input "tool search input must be an object")
  | Some object =>
      match find_map (fun '(field, _) =>
              if bool_decide (field <> query_field) && bool_decide (field <> "limit")
              then Some field else None) object with
      | Some field => Err (invalid_input ("unsupported tool search input field '" +:+ field +:+ "'"))
      | None =>
          match obj_get object "limit" with
          | None => Ok DEFAULT_SEARCH_RESULTS
          | Some limit =>
              let out_of_range := Err (invalid_input "tool search limit must be an integer from 1 to 10000") in
              match as_u64 limit with
              | None => out_of_range
              | Some limit =>
                  if negb ((1 <=? limit) && (limit <=? MAX_SEARCH_RESULTS))%Z then out_of_range
                  else Ok (Z.to_nat limit)
              end
          end
      end
  end.

Section ToolSearch.
Context (sha256 : string -> string) (json_string : value -> string)
        (json_pretty : list value -> string) (tool_bytes : KiroTool -> option nat).

(** *** Searching *)

Context (linear_regex : string -> option (string -> bool))
        (fancy_regex : string -> result (string -> result bool string) string)
        (words : string -> list string) (ln : f64 -> f64)
        (hash_order : list string -> list string).

(** The characters [split] cuts at and [to_lowercase] are the argument [words],
    which yields the pieces; empty ones are dropped here. *)
Definition tokenize (input : string) : list string :=
  filter (fun word => is_empty word = false) (words input).

Definition deferred_matches (f : DeferredTool -> bool) (loaded : gset string)
    (deferred : list DeferredTool) : list nat :=
  omap (fun '(index, tool) =>
          if bool_decide (dt_kiro_name tool ∈ loaded) then None
          else if f tool then Some index else None)
    (zip (seq 0 (length deferred)) deferred).

(** The loop over the catalog with the backtracking engine: [elapsed] is the
    time read before each document. *)
Fixpoint fancy_loop (is_match : string -> result bool string) (elapsed : nat -> Z)
    (loaded : gset string) (limit : nat) (index : nat) (deferred : list DeferredTool)
    (matches : list nat) : result (list nat) search_error :=
  match deferred with
  | [] => Ok matches
  | tool :: deferred =>
      if bool_decide (dt_kiro_name tool ∈ loaded)
      then fancy_loop is_match elapsed loaded limit (S index) deferred matches else
      if (MAX_FANCY_REGEX_SEARCH_MILLIS <? elapsed index)%Z
      then Err ("execution_time_exceeded", "regex matching exceeded the safe execution time limit") else
      match is_match (dt_document tool) with
      | Err error =>
          Err ("execution_time_exceeded",
               "regex matching exceeded the safe execution limit: " +:+ error)
      | Ok false => fancy_loop is_match elapsed loaded limit (S index) deferred matches
      | Ok true =>
          let matches := matches ++ [index] in
          if (limit <=? length matches)%nat then Ok matches
          else fancy_loop is_match elapsed loaded limit (S index) deferred matches
      end
  end.

Definition regex_search (c : ClaudeToolSearchCatalog) (elapsed : nat -> Z) (input : value)
    (loaded : gset string) : result (list nat * nat) search_error :=
  match get_str input "pattern" with
  | None => Err (invalid_input "tool search requires a string pattern")
  | Some pattern =>
      if (MAX_REGEX_PATTERN_CHARS <? char_count pattern)%nat
      then Err (invalid_input ("tool search pattern exceeds "
                               +:+ show_nat MAX_REGEX_PATTERN_CHARS +:+ " characters")) else
      let? requested_limit := validate_search_input input "pattern" in
      match linear_regex pattern with
      | Some is_match =>
          Ok (take requested_limit
                (deferred_matches (fun tool => is_match (dt_document tool)) loaded (cat_deferred c)),
              requested_limit)
      | None =>
          match fancy_regex ("(?i:" +:+ pattern +:+ ")") with
          | Err error => Err (invalid_input ("invalid regex pattern: " +:+ error))
          | Ok is_match =>
              let? matches :=
                fancy_loop is_match elapsed loaded requested_limit 0 (cat_deferred c) [] in
              Ok (matches, requested_limit)
          end
      end
  end.

(** **** BM25 *)

Definition ratio (n d : Z) : f64 := F64.div (F64.of_Z n) (F64.of_Z d).

(** What one query term adds to the score of a document. *)
Definition term_score (c : ClaudeToolSearchCatalog) (entry : DeferredTool) (score : f64)
    (term : string) : f64 :=
  let document_count := F64.of_Z (Z.of_nat (length (cat_deferred c))) in
  let length := F64.of_Z (Z.of_nat (Nat.max (dt_document_length entry) 1)) in
  let term_frequency := F64.of_Z (unwrap_or (dt_term_frequencies entry !! term) 0%Z) in
  if F64.eqb term_frequency F64.zero then score else
  let containing := F64.of_Z (Z.of_nat (unwrap_or (cat_document_frequencies c !! term) 0)) in
  let inverse :=
    ln (F64.add (F64.div (F64.add (F64.sub document_count containing) (ratio 1 2))
                   (F64.add containing (ratio 1 2))) F64.one) in
  let normalized :=
    F64.div (F64.mul term_frequency (ratio 22 10))
      (F64.add term_frequency
         (F64.mul (ratio 12 10)
            (F64.add (ratio 1 4)
               (F64.div (F64.mul (ratio 3 4) length) (cat_average_document_length c))))) in
  F64.add score (F64.mul inverse normalized).

Definition score_of (c : ClaudeToolSearchCatalog) (query_terms : list string)
    (entry : DeferredTool) : f64 :=
  fold_left (term_score c entry) query_terms F64.zero.

(** Higher scores first, equal ones in catalog order. *)
Definition score_le (a b : nat * f64) : bool :=
  match F64.partial_cmp b.2 a.2 with
  | Some Lt => true
  | Some Gt => false
  | _ => (a.1 <=? b.1)%nat
  end.

Definition bm25_search (c : ClaudeToolSearchCatalog) (input : value) (loaded : gset string) :
    result (list nat * nat) search_error :=
  match get_str input "query" with
  | None => Err (invalid_input "tool search requires a string query")
  | Some query =>
      if (MAX_BM25_QUERY_CHARS <? char_count query)%nat
      then Err (invalid_input ("tool search query exceeds "
                               +:+ show_nat MAX_BM25_QUERY_CHARS +:+ " characters")) else
      let? requested_limit := validate_search_input input "query" in
      match hash_order (remove_dups (tokenize query)) with
      | [] => Ok ([], requested_limit)
      | query_terms =>
          let scores :=
            omap (fun '(index, entry) =>
                    if bool_decide (dt_kiro_name entry ∈ loaded) then None else
                    let score := score_of c query_terms entry in
                    if F64.gtb score F64.zero then Some (index, score) else None)
              (zip (seq 0 (length (cat_deferred c))) (cat_deferred c)) in
          Ok (fst <$> take requested_limit (sort_by score_le scores), requested_limit)
      end
  end.

(** *** Outcomes *)

(** The definitions that fit, in the order of the matches, up to the first one
    that does not.  Indexing out of range would panic; the matches are indices
    of the catalog ([matches_ok]). *)
Fixpoint load_matches (c : ClaudeToolSearchCatalog) (budget : ClaudeToolSearchBudget)
    (loaded_tools : nat) (loaded_bytes : Z) (matches : list nat) : list DeferredTool :=
  match matches with
  | [] => []
  | index :: matches =>
      match cat_deferred c !! index with
      | None => []
      | Some tool =>
          if ((max_tools budget <=? Z.of_nat loaded_tools)
              || (max_bytes budget <? sat_add USIZE_MAX loaded_bytes (dt_load_bytes tool)))%Z
          then []
          else tool :: load_matches c budget (S loaded_tools)
                         (sat_add USIZE_MAX loaded_bytes (dt_load_bytes tool)) matches
      end
  end.

Definition success_outcome (c : ClaudeToolSearchCatalog) (tool_use : KiroToolUse)
    (response_name : string) (matches : list nat) (requested_limit : nat)
    (budget : ClaudeToolSearchBudget) : ClaudeToolSearchOutcome :=
  let match_count := length matches in
  let selected := load_matches c budget 0 0 matches in
  let references := dt_source_name <$> selected in
  let truncated := (length references <? match_count)%nat in
  {| so_trace :=
       {| tt_id := tu_tool_use_id tool_use; tt_name := response_name; tt_input := tu_input tool_use;
          tt_references := references;
          tt_error :=
            if (0 <? match_count)%nat && (length references =? 0)%nat
            then Some {| se_code := "unavailable";
                         se_message := "matching tool definitions exceed the remaining request budget" |}
            else None;
          tt_requested_limit := requested_limit; tt_matched_count := match_count;
          tt_budget_truncated := truncated; tt_emission := Complete |};
     so_tools := dt_translated <$> selected;
     so_documentation := omap dt_documentation selected;
     so_truncated := truncated |}.

Definition response_name_of (c : ClaudeToolSearchCatalog) (tool_use : KiroToolUse) : string :=
  unwrap_or (st_response_name <$> cat_search_tools c !! tu_name tool_use) (tu_name tool_use).

Definition pending_trace (c : ClaudeToolSearchCatalog) (tool_use : KiroToolUse) :
    ClaudeToolSearchTrace :=
  trace_pending (tu_tool_use_id tool_use) (response_name_of c tool_use) (tu_input tool_use).

Definition unavailable_outcome (c : ClaudeToolSearchCatalog) (tool_use : KiroToolUse)
    (message : string) : ClaudeToolSearchOutcome :=
  error_outcome tool_use (response_name_of c tool_use) "unavailable" message.

Definition search_with_budget_excluding (c : ClaudeToolSearchCatalog) (elapsed : nat -> Z)
    (tool_use : KiroToolUse) (budget : ClaudeToolSearchBudget) (loaded_kiro_names : gset string) :
    ClaudeToolSearchOutcome :=
  match cat_search_tools c !! tu_name tool_use with
  | None => error_outcome tool_use (tu_name tool_use) "unavailable" "unknown tool search implementation"
  | Some search =>
      let result :=
        match st_kind search with
        | Regex => regex_search c elapsed (tu_input tool_use) loaded_kiro_names
        | Bm25 => bm25_search c (tu_input tool_use) loaded_kiro_names
        end in
      match result with
      | Ok (matches, requested_limit) =>
          success_outcome c tool_use (st_response_name search) matches requested_limit budget
      | Err (code, message) => error_outcome tool_use (st_response_name search) code message
      end
  end.

Definition search_with_budget (c : ClaudeToolSearchCatalog) (elapsed : nat -> Z)
    (tool_use : KiroToolUse) (budget : ClaudeToolSearchBudget) : ClaudeToolSearchOutcome :=
  search_with_budget_excluding c elapsed tool_use budget ∅.

Definition search (c : ClaudeToolSearchCatalog) (elapsed : nat -> Z) (tool_use : KiroToolUse) :
    ClaudeToolSearchOutcome :=
  search_with_budget c elapsed tool_use budget_default.

Definition deferred_len (c : ClaudeToolSearchCatalog) : nat := length (cat_deferred c).

Definition is_search_tool (c : ClaudeToolSearchCatalog) (name : string) : bool :=
  is_some (cat_search_tools c !! name).

(** *** Building the catalog *)

Definition tool_description (tool : ClaudeTool) : string :=
  match ct_input_examples tool with
  | None | Some [] => ct_description tool
  | Some examples =>
      let examples := json_pretty examples in
      if is_empty (trim (ct_description tool))
      then "Input examples:" +:+ newline +:+ examples
      else trim (ct_description tool) +:+ newline +:+ newline +:+ "Input examples:"
           +:+ newline +:+ examples
  end.

Definition one_string_schema (field description : string) : value :=
  json_object
    [("type", Str "object");
     ("properties", json_object
        [(field, json_object [("type", Str "string"); ("description", Str description)])]);
     ("required", Array [Str field])].

Definition translate_deferred_tool (tool : ClaudeTool) (kiro_name : string) :
    KiroTool * option string :=
  if is_some_and (ct_type tool) (fun kind => matches_type_family kind "web_search") then
    kiro_tool sha256 "web_search"
      "Search the web for real-time information. Returns relevant search results with titles, URLs, and snippets."
      (one_string_schema "query" "The search query")
  else if is_some_and (ct_type tool) (fun kind => matches_type_family kind "web_fetch") then
    kiro_tool sha256 "web_fetch"
      "Fetch and read content from a specific URL. Returns the page content in readable text format."
      (one_string_schema "url" "The URL to fetch content from")
  else
    kiro_tool_named (ct_name tool) kiro_name (tool_description tool) (ct_input_schema tool).

Definition search_document (tool : ClaudeTool) : string :=
  ct_name tool +:+ newline +:+ ct_description tool +:+ newline +:+ json_string (ct_input_schema tool).

(** How often each term occurs; a [u32]. *)
Definition term_counts (terms : list string) : gmap string Z :=
  fold_left (fun counts term =>
               <[term := wrap_u32 (unwrap_or (counts !! term) 0%Z + 1)]> counts) terms ∅.

Definition defer (search_tools : gmap string SearchTool) (names : ToolNameRegistry)
    (source : ClaudeTool) : DeferredTool :=
  let has kind := existsb (fun '(_, s) => bool_decide (st_kind s = kind)) (map_to_list search_tools) in
  let searchable_text := search_document source in
  let terms := if has Bm25 then tokenize searchable_text else [] in
  let '(translated, documentation) :=
    translate_deferred_tool source (kiro_name sha256 names (ct_name source)) in
  {| dt_source_name := ct_name source;
     dt_document := if has Regex then searchable_text else EmptyString;
     dt_term_frequencies := term_counts terms;
     dt_document_length := length terms;
     dt_translated := translated;
     dt_documentation := documentation;
     dt_load_bytes :=
       sat_add USIZE_MAX (unwrap_or (Z.of_nat <$> tool_bytes translated) USIZE_MAX)
         (Z.of_nat (unwrap_or (len <$> documentation) 0)) |}.

Definition document_frequencies (deferred : list DeferredTool) : gmap string nat :=
  fold_left (fun counts entry =>
               fold_left (fun counts '(term, _) => <[term := S (unwrap_or (counts !! term) 0)]> counts)
                 (map_to_list (dt_term_frequencies entry)) counts) deferred ∅.

Definition build_catalog (search_tools : gmap string SearchTool) (deferred : list ClaudeTool)
    (names : ToolNameRegistry) : option ClaudeToolSearchCatalog :=
  if bool_decide (search_tools = ∅) then None else
  let deferred := defer search_tools names <$> deferred in
  Some {| cat_search_tools := search_tools;
          cat_deferred := deferred;
          cat_document_frequencies := document_frequencies deferred;
          cat_average_document_length :=
            F64.div (F64.of_Z (Z.of_nat (Nat.max (sum_list (dt_document_length <$> deferred)) 1)))
              (F64.of_Z (Z.of_nat (Nat.max (length deferred) 1))) |}.

Definition search_tools_of (names : ToolNameRegistry) (tools : list ClaudeTool) :
    gmap string SearchTool :=
  fold_left (fun found tool =>
               match search_kind (ct_type tool) with
               | Some kind =>
                   <[kiro_name sha256 names (ct_name tool) :=
                       {| st_kind := kind; st_response_name := ct_name tool |}]> found
               | None => found
               end) tools ∅.

Definition is_deferred (tool : ClaudeTool) : bool :=
  ct_defer_loading tool && negb (is_tool_search_tool tool).

(** [names] is the registry of the request's tool names. *)
Definition from_request (names : ToolNameRegistry) (r : ClaudeRequest) :
    option ClaudeToolSearchCatalog :=
  build_catalog (search_tools_of names (rq_tools r))
    (filter (fun tool => is_deferred tool = true) (rq_tools r)) names.

Definition take_from_request (names : ToolNameRegistry) (r : ClaudeRequest) :
    ClaudeRequest * option ClaudeToolSearchCatalog :=
  let search_tools := search_tools_of names (rq_tools r) in
  if bool_decide (search_tools = ∅) then (r, None) else
  let deferred := filter (fun tool => is_deferred tool = true) (rq_tools r) in
  let loaded := filter (fun tool => is_deferred tool = false) (rq_tools r) in
  (rq_set_tools r loaded, build_catalog search_tools deferred names).

Definition tool_search_kiro_tool (tool : ClaudeTool) : option KiroTool :=
  tool_search_kiro_tool_named tool (tool_name sha256 (ct_name tool)).

(** ** What a search finds *)

(** Indices of the catalog, each once, of tools that are not loaded yet. *)
Record matches_ok (deferred : list DeferredTool) (loaded : gset string) (matches : list nat) :
    Prop := {
  mo_unloaded : Forall (fun i => exists t, deferred !! i = Some t /\ dt_kiro_name t ∉ loaded) matches;
  mo_NoDup : NoDup matches;
}.

Lemma matches_ok_sub deferred loaded matches matches' :
  (exists l, matches ≡ₚ l /\ matches' `sublist_of` l) ->
  matches_ok deferred loaded matches -> matches_ok deferred loaded matches'.
Proof.
  intros (l & Hp & Hs) [Hu Hnd]. rewrite Hp in Hu, Hnd. split.
  - rewrite Forall_forall in *. intros i Hi. apply Hu.
    eapply elem_of_submseteq; [exact Hi|]. by apply sublist_submseteq.
  - by eapply sublist_NoDup.
Qed.

(** A filter over the numbered catalog keeps its order. *)
Lemma numbered_ok {B} (f : nat * DeferredTool -> option B) (index : B -> nat) deferred loaded :
  (forall i t b, f (i, t) = Some b -> index b = i /\ dt_kiro_name t ∉ loaded) ->
  matches_ok deferred loaded (index <$> omap f (zip (seq 0 (length deferred)) deferred)).
Proof.
  intros Hf. split.
  - apply Forall_fmap, Forall_forall. intros b ([i t] & Hin & Hb)%list_elem_of_omap.
    apply Hf in Hb as [Hi Hl]. cbn. rewrite Hi. exists t. split; [|done].
    apply list_elem_of_lookup in Hin as [k Hk]. apply lookup_zip_Some in Hk as [Hk Ht].
    apply lookup_seq in Hk as [-> _]. done.
  - assert (Hsub : index <$> omap f (zip (seq 0 (length deferred)) deferred)
                   `sublist_of` seq 0 (length deferred)).
    { generalize 0. induction deferred as [|t deferred IH]; intros k; cbn; [constructor|].
      destruct (f (k, t)) as [b|] eqn:Eb; cbn; [|by constructor].
      apply Hf in Eb as [-> _]. by constructor. }
    by eapply sublist_NoDup; [apply NoDup_seq|].
Qed.

Lemma fancy_loop_ok is_match elapsed loaded limit deferred matches pre matches' :
  matches_ok (pre ++ deferred) loaded matches -> Forall (fun i => i < length pre) matches ->
  length matches < limit ->
  fancy_loop is_match elapsed loaded limit (length pre) deferred matches = Ok matches' ->
  matches_ok (pre ++ deferred) loaded matches' /\ length matches' <= limit.
Proof.
  revert pre matches. induction deferred as [|t deferred IH]; intros pre matches Hm Hlt Hlen;
    cbn [fancy_loop].
  { intros [= <-]. split; [done|lia]. }
  assert (Heq : pre ++ t :: deferred = (pre ++ [t]) ++ deferred) by by rewrite <- app_assoc.
  rewrite Heq in *.
  assert (Hnext : forall ms, Forall (fun i => i < length pre) ms ->
                   Forall (fun i => i < length (pre ++ [t])) ms).
  { intros ms H. eapply Forall_impl; [exact H|]. intros i Hi. cbn beta in *. rewrite length_app. cbn. lia. }
  replace (S (length pre)) with (length (pre ++ [t])) by (rewrite length_app; cbn; lia).
  case_bool_decide as Hl; [by apply IH; auto|].
  destruct (_ <? _)%Z; [done|]. destruct (is_match _) as [[]|]; [|by apply IH; auto|done].
  assert (Hm' : matches_ok ((pre ++ [t]) ++ deferred) loaded (matches ++ [length pre])).
  { destruct Hm as [Hu Hnd]. split.
    - apply Forall_app. split; [done|]. apply Forall_singleton. exists t. split; [|done].
      rewrite <- app_assoc. by apply list_lookup_middle.
    - apply NoDup_app. split_and!; [done| |apply NoDup_singleton]. intros i Hi ->%list_elem_of_singleton.
      rewrite Forall_forall in Hlt. specialize (Hlt _ Hi). lia. }
  destruct (limit <=? _)%nat eqn:E.
  - intros [= <-]. split; [done|]. rewrite length_app. cbn. lia.
  - apply Nat.leb_gt in E. apply IH; [done| |done]. apply Forall_app. split; [by apply Hnext|].
    apply Forall_singleton. rewrite length_app. cbn. lia.
Qed.

Lemma limit_bounds input field n :
  validate_search_input input field = Ok n -> 1 <= n /\ (Z.of_nat n <= MAX_SEARCH_RESULTS)%Z.
Proof.
  unfold validate_search_input. destruct (is_object_value _); [|done]. destruct (find_map _ _); [done|].
  destruct (obj_get _ _); [|intros [= <-]; unfold DEFAULT_SEARCH_RESULTS, MAX_SEARCH_RESULTS; lia].
  destruct (as_u64 _) as [k|]; [|done]. destruct (negb _) eqn:E; [done|]. intros [= <-].
  apply negb_false_iff, andb_prop in E as [?%Z.leb_le ?%Z.leb_le]. lia.
Qed.

Lemma regex_search_ok c elapsed input loaded matches limit :
  regex_search c elapsed input loaded = Ok (matches, limit) ->
  matches_ok (cat_deferred c) loaded matches /\ length matches <= limit
  /\ (Z.of_nat limit <= MAX_SEARCH_RESULTS)%Z.
Proof.
  unfold regex_search. destruct (get_str _ _) as [pattern|]; [|done].
  destruct (_ <? _)%nat; [done|]. destruct (validate_search_input _ _) as [n|] eqn:E; cbn; [|done].
  apply limit_bounds in E as [Hpos Hmax]. destruct (linear_regex pattern) as [is_match|].
  - intros [= <- <-]. split_and!; [|rewrite length_take; lia|done].
    apply (matches_ok_sub _ _
             (deferred_matches (fun tool => is_match (dt_document tool)) loaded (cat_deferred c)));
      [eexists; split; [done|apply sublist_take]|].
    unfold deferred_matches. rewrite <- (list_fmap_id (omap _ _)). apply numbered_ok.
    intros i t b. case_bool_decide; [done|]. destruct (is_match _); [|done]. by intros [= <-].
  - destruct (fancy_regex _) as [is_match|]; [|done].
    destruct (fancy_loop _ _ _ _ _ _ _) as [ms|] eqn:Ef; cbn; [|done]. intros [= <- <-].
    apply (fancy_loop_ok is_match elapsed loaded n (cat_deferred c) [] [] ms) in Ef as [? ?]; [done|..].
    + split; constructor.
    + constructor.
    + done.
Qed.

Lemma bm25_search_ok c input loaded matches limit :
  bm25_search c input loaded = Ok (matches, limit) ->
  matches_ok (cat_deferred c) loaded matches /\ length matches <= limit
  /\ (Z.of_nat limit <= MAX_SEARCH_RESULTS)%Z.
Proof.
  unfold bm25_search. destruct (get_str _ _) as [query|]; [|done].
  destruct (_ <? _)%nat; [done|]. destruct (validate_search_input _ _) as [n|] eqn:E; cbn [result_bind]; [|done].
  apply limit_bounds in E as [_ Hmax]. destruct (hash_order _) as [|t ts].
  { intros [= <- <-]. split_and!; [by split; constructor|cbn; lia|done]. }
  intros [= <- <-]. split_and!; [|rewrite length_fmap, length_take; lia|done].
  eapply matches_ok_sub; [|apply (numbered_ok (B := nat * f64)
    (fun '(index, entry) => if bool_decide (dt_kiro_name entry ∈ loaded) then None else
       if F64.gtb (score_of c (t :: ts) entry) F64.zero
       then Some (index, score_of c (t :: ts) entry) else None) fst)].
  - eexists. split; [symmetry; apply fmap_Permutation, (sort_by_perm score_le)|].
    rewrite fmap_take. apply sublist_take.
  - intros i tool b. case_bool_decide; [done|]. destruct (F64.gtb _ _); [|done]. by intros [= <-].
Qed.

(** ** What an outcome loads *)

Definition total_bytes (ts : list DeferredTool) : Z :=
  foldr (fun t n => dt_load_bytes t + n)%Z 0%Z ts.

Definition sizes_ok (c : ClaudeToolSearchCatalog) : Prop :=
  Forall (fun t => 0 <= dt_load_bytes t)%Z (cat_deferred c).

Lemma load_matches_spec c budget loaded n b matches :
  sizes_ok c -> matches_ok (cat_deferred c) loaded matches -> (max_bytes budget < USIZE_MAX)%Z ->
  (Z.of_nat n <= max_tools budget)%Z -> (0 <= b <= max_bytes budget)%Z ->
  let selected := load_matches c budget n b matches in
  Forall2 (fun i t => cat_deferred c !! i = Some t /\ dt_kiro_name t ∉ loaded)
    (take (length selected) matches) selected
  /\ (Z.of_nat (n + length selected) <= max_tools budget)%Z
  /\ (b + total_bytes selected <= max_bytes budget)%Z.
Proof.
  intros Hsizes [Hu _] Hmax. revert n b. induction matches as [|i matches IH]; intros n b Hn Hb; cbn zeta.
  { cbn. split_and!; [constructor|lia..]. }
  apply Forall_cons in Hu as [(t & Ht & Hl) Hu]. cbn [load_matches]. rewrite Ht.
  pose proof (Forall_lookup_1 _ _ _ _ Hsizes Ht) as Hpos. cbn beta in Hpos.
  destruct (_ || _) eqn:E; [cbn; split_and!; [constructor|lia..]|].
  apply orb_false_elim in E as [En%Z.leb_gt Eb%Z.ltb_ge].
  assert (Hsat : sat_add USIZE_MAX b (dt_load_bytes t) = (b + dt_load_bytes t)%Z).
  { unfold sat_add in *. lia. }
  rewrite Hsat in *. destruct (IH Hu (S n) (b + dt_load_bytes t)%Z) as (H2 & H3 & H4); [lia..|].
  cbn [length take total_bytes foldr]. split_and!; [by constructor|lia|]. unfold total_bytes in H4. lia.
Qed.

Lemma load_matches_elem c budget n b matches t :
  t ∈ load_matches c budget n b matches -> t ∈ cat_deferred c.
Proof.
  revert n b. induction matches as [|i matches IH]; intros n b; cbn [load_matches];
    [by intros ?%elem_of_nil|]. destruct (cat_deferred c !! i) as [t'|] eqn:E; [|by intros ?%elem_of_nil].
  destruct (_ || _); [by intros ?%elem_of_nil|]. intros [->|Ht]%elem_of_cons; [|by eapply IH].
  by eapply list_elem_of_lookup_2.
Qed.

(** A search loads entries of the catalog, whatever the budget. *)
Lemma outcome_tools c elapsed tool_use budget loaded tool :
  tool ∈ so_tools (search_with_budget_excluding c elapsed tool_use budget loaded) ->
  tool ∈ dt_translated <$> cat_deferred c.
Proof.
  unfold search_with_budget_excluding.
  destruct (cat_search_tools c !! _) as [found|]; [|by intros ?%elem_of_nil].
  destruct (match st_kind found with Regex => _ | Bm25 => _ end) as [[matches limit]|[code message]];
    [|by intros ?%elem_of_nil].
  intros (t & -> & Ht)%list_elem_of_fmap. apply list_elem_of_fmap_2. by eapply load_matches_elem.
Qed.

(** What a Tool Search loads is sound and within its budget.  The tools of
    an outcome are distinct entries of the catalog that the conversation had not
    loaded, with the names and the documentation of exactly those entries; they
    are at most as many as was asked for and as the budget allows, and no larger
    in total than the budget; truncation is reported, an error is reported when
    nothing that matched fits, and an outcome with an error loads nothing. *)
Theorem search_outcome_sound (c : ClaudeToolSearchCatalog) (elapsed : nat -> Z)
    (tool_use : KiroToolUse) (budget : ClaudeToolSearchBudget) (loaded : gset string) :
  sizes_ok c -> (0 <= max_tools budget)%Z -> (0 <= max_bytes budget < USIZE_MAX)%Z ->
  let o := search_with_budget_excluding c elapsed tool_use budget loaded in
  let trace := so_trace o in
  exists indices selected,
    NoDup indices
    /\ Forall2 (fun i t => cat_deferred c !! i = Some t /\ dt_kiro_name t ∉ loaded) indices selected
    /\ so_tools o = dt_translated <$> selected
    /\ tt_references trace = dt_source_name <$> selected
    /\ so_documentation o = omap dt_documentation selected
    /\ length selected <= tt_requested_limit trace
    /\ (Z.of_nat (tt_requested_limit trace) <= MAX_SEARCH_RESULTS)%Z
    /\ (Z.of_nat (length selected) <= max_tools budget)%Z
    /\ (total_bytes selected <= max_bytes budget)%Z
    /\ so_truncated o = (length selected <? tt_matched_count trace)%nat
    /\ (is_Some (tt_error trace) -> selected = [])
    /\ (selected = [] -> 0 < tt_matched_count trace -> is_Some (tt_error trace))
    /\ tt_id trace = tu_tool_use_id tool_use.
Proof.
  intros Hsizes Hn Hb. cbv zeta.
  assert (Herr : forall name code message,
    let o := error_outcome tool_use name code message in
    so_tools o = [] /\ so_documentation o = [] /\ tt_references (so_trace o) = []
    /\ tt_requested_limit (so_trace o) = 5 /\ tt_matched_count (so_trace o) = 0
    /\ so_truncated o = false /\ tt_id (so_trace o) = tu_tool_use_id tool_use) by done.
  unfold search_with_budget_excluding.
  destruct (cat_search_tools c !! tu_name tool_use) as [found|].
  2: { exists [], []. split_and!; try done; cbn; unfold MAX_SEARCH_RESULTS, DEFAULT_SEARCH_RESULTS;
         try lia; constructor. }
  destruct (match st_kind found with Regex => _ | Bm25 => _ end) as [[matches limit]|[code message]] eqn:E.
  2: { exists [], []. split_and!; try done; cbn; unfold MAX_SEARCH_RESULTS, DEFAULT_SEARCH_RESULTS;
         try lia; constructor. }
  assert (matches_ok (cat_deferred c) loaded matches /\ length matches <= limit
          /\ (Z.of_nat limit <= MAX_SEARCH_RESULTS)%Z) as (Hm & Hlen & Hmax)
    by (destruct (st_kind found); [by eapply regex_search_ok|by eapply bm25_search_ok]).
  destruct (load_matches_spec c budget loaded 0 0 matches Hsizes Hm) as (H2 & H3 & H4); [lia..|].
  exists (take (length (load_matches c budget 0 0 matches)) matches), (load_matches c budget 0 0 matches).
  pose proof (Forall2_length _ _ _ H2) as Hl2. rewrite length_take in Hl2.
  split_and!; try done; cbn [success_outcome so_trace so_tools so_documentation so_truncated tt_references
    tt_requested_limit tt_matched_count tt_error tt_id]; rewrite ?length_fmap; try done; try lia.
  - eapply sublist_NoDup; [apply (mo_NoDup _ _ _ Hm)|apply sublist_take].
  - destruct (load_matches _ _ _ _ _); [done|]. cbn. rewrite andb_false_r. by intros [].
  - intros -> Hpos. apply Nat.ltb_lt in Hpos. rewrite Hpos. by eexists.
Qed.

(** ** Names in a built catalog *)

Lemma kiro_tool_named_name original kiro description schema :
  ts_name <$> specification (fst (kiro_tool_named original kiro description schema)) = Some kiro.
Proof. unfold kiro_tool_named. by repeat case_match; simplify_eq. Qed.

Lemma defer_name search_tools fuel names registry source :
  new sha256 fuel names = Some registry ->
  exists spec, specification (dt_translated (defer search_tools registry source)) = Some spec
    /\ kiro_name_ok (ts_name spec).
Proof.
  intros Hnew. destruct (new_ok _ _ _ _ Hnew) as [Hreg _].
  unfold defer. destruct (translate_deferred_tool _ _) as [translated documentation] eqn:E.
  cbn [dt_translated].
  assert (exists n, ts_name <$> specification translated = Some n /\ kiro_name_ok n) as (n & Hn & Hok).
  { replace translated with (fst (translate_deferred_tool source (kiro_name sha256 registry (ct_name source))))
      by (by rewrite E).
    unfold translate_deferred_tool, kiro_tool. repeat case_match; rewrite kiro_tool_named_name;
      eexists; split; try done; try apply tool_name_ok. by apply kiro_name_ok_all. }
  destruct (specification translated) as [spec|]; [|done]. exists spec.
  cbn in Hn. simplify_eq. done.
Qed.

Lemma build_catalog_ok search_tools deferred fuel names registry c :
  new sha256 fuel names = Some registry ->
  build_catalog search_tools deferred registry = Some c ->
  sizes_ok c
  /\ Forall (fun t => exists spec, specification (dt_translated t) = Some spec
                 /\ kiro_name_ok (ts_name spec)) (cat_deferred c).
Proof.
  intros Hnew. unfold build_catalog. case_bool_decide; [done|]. intros [= <-].
  split; unfold sizes_ok; cbn [cat_deferred]; apply Forall_fmap, Forall_forall; intros source _; cbn.
  - unfold defer. destruct (translate_deferred_tool _ _). cbn [dt_load_bytes]. unfold sat_add, USIZE_MAX, U64_MAX.
    destruct (tool_bytes _); cbn; lia.
  - by eapply defer_name.
Qed.
End ToolSearch.

(** ** A concrete catalog *)

Definition demo_tool (kind : option string) (name description : string) (defer : bool) :
    ClaudeTool :=
  {| ct_type := kind; ct_name := name; ct_description := description;
     ct_input_schema := Object []; ct_cache_control := None; ct_strict := None;
     ct_input_examples := None; ct_defer_loading := defer; ct_allowed_callers := None;
     ct_eager_input_streaming := None; ct_max_uses := None; ct_allowed_domains := None;
     ct_blocked_domains := None; ct_user_location := None; ct_response_inclusion := None;
     ct_extra := [] |}.

Definition demo_tools : list ClaudeTool :=
  [demo_tool (Some "tool_search_tool_regex_20251119") "find" "" false;
   demo_tool None "db.query" "Run a query." true;
   demo_tool None "db.drop" "Drop a table." true;
   demo_tool None "Read" "Read a file." false].

Definition demo_search_registry : ToolNameRegistry :=
  unwrap_or (new demo_hash 6 (ct_name <$> demo_tools)) registry_default.

Definition demo_json_string (v : value) : string := "{}".
Definition demo_json_pretty (l : list value) : string := "[]".

Definition demo_catalog : ClaudeToolSearchCatalog :=
  unwrap_or
    (build_catalog demo_hash demo_json_string demo_json_pretty (fun _ => Some 40) (fun s => [s])
       (search_tools_of demo_hash demo_search_registry demo_tools)
       (filter (fun tool => is_deferred tool = true) demo_tools) demo_search_registry)
    {| cat_search_tools := ∅; cat_deferred := []; cat_document_frequencies := ∅;
       cat_average_document_length := F64.one |}.

(** A search by substring. *)
Definition demo_search (use : KiroToolUse) (budget : ClaudeToolSearchBudget)
    (loaded : gset string) : ClaudeToolSearchOutcome :=
  search_with_budget_excluding (fun pattern => Some (fun document => contains document pattern))
    (fun _ => Err EmptyString) (fun s => [s]) (fun x => x) (fun l => l)
    demo_catalog (fun _ => 0%Z) use budget loaded.

Definition demo_search_use : KiroToolUse :=
  {| tu_tool_use_id := "srv1"; tu_name := "find"; tu_input := json_object [("pattern", Str "db.")] |}.

Lemma search_outcome_sound_witness :
  let o := demo_search demo_search_use {| max_tools := 1; max_bytes := 1000 |} ∅ in
  tt_references (so_trace o) = ["db.query"] /\ so_truncated o = true
  /\ exists selected, so_tools o = dt_translated <$> selected /\ length selected <= 1.
Proof.
  cbv zeta. split; [vm_compute; reflexivity|]. split; [vm_compute; reflexivity|].
  destruct (search_outcome_sound (fun pattern => Some (fun document => contains document pattern))
    (fun _ => Err EmptyString) (fun s => [s]) (fun x => x) (fun l => l)
    demo_catalog (fun _ => 0%Z) demo_search_use {| max_tools := 1; max_bytes := 1000 |} ∅)
    as (indices & selected & _ & _ & Htools & _ & _ & _ & _ & Hn & _).
  - unfold sizes_ok. vm_compute. repeat constructor; discriminate.
  - cbn. lia.
  - vm_compute. split; [discriminate|reflexivity].
  - exists selected. split; [exact Htools|]. cbn [max_tools] in Hn. lia.
Defined.
