(* ===== verification/AutoContinue.v ===== *)
(** * Internal continuations

    [kproxy-translate/src/translate/auto_continue.rs]: the payload of the next
    round after the model called tools that the proxy answers itself, by a fixed
    acknowledgement or by the outcome of a Tool Search. *)

From Stdlib Require Import ZArith Lia Ascii String.
From stdpp Require Import base list gmap sets strings.
From S2P Require Import Prelude RustStr F64 Json Protocol ToolHistory ToolHistoryFacts.
From S2P Require Import ToolNames ToolSearch.

Local Open Scope kproxy_scope.
Local Open Scope string_scope.
Local Open Scope list_scope.

Definition ASSISTANT_CHARS : Z := 48000.
Definition HISTORY_LIMIT : nat := 30.

Definition history_user_without_tools (message : KiroUserInputMessage) : KiroUserInputMessage :=
  match um_context message with
  | None => message
  | Some context =>
      um_set_context message
        (match ctx_tool_results context with
         | [] => None
         | results => Some {| ctx_tool_results := results; ctx_tools := []; ctx_env_state := None |}
         end)
  end.

Definition tail_chars (value : string) (maximum : Z) : string :=
  let character_count := Z.of_nat (char_count value) in
  if (character_count <=? maximum)%Z then value
  else skip_chars (Z.to_nat (character_count - maximum)) value.

(** The steps the continuations share: the current turn and the assistant's
    answer join the history, and the next user turn holds the results. *)
Definition continue_turn (payload : KiroPayload) (assistant_content : string)
    (tool_uses : list KiroToolUse) (tool_results : list KiroToolResult) (tools : list KiroTool)
    (content : string) : KiroPayload :=
  let state := p_conversation_state payload in
  let previous_user := cs_current_message state in
  let current :=
    {| um_content := content; um_model_id := um_model_id previous_user;
       um_origin := um_origin previous_user; um_images := []; um_documents := [];
       um_cache_point := None; um_client_cache_config := None;
       um_context :=
         Some {| ctx_tool_results := tool_results; ctx_tools := tools;
                 ctx_env_state := um_context previous_user ≫= ctx_env_state |} |} in
  let history :=
    cs_history state
    ++ [{| hm_user := Some (history_user_without_tools previous_user); hm_assistant := None |};
        {| hm_user := None;
           hm_assistant :=
             Some {| am_content := tail_chars assistant_content ASSISTANT_CHARS;
                     am_cache_point := None; am_tool_uses := tool_uses |} |}] in
  truncate_history_preserving_protected_prefix
    (p_set_state payload (cs_set_messages state current history)) HISTORY_LIMIT.

Definition done_result (tool : KiroToolUse) : KiroToolResult :=
  {| tr_content := [{| kt_text := "Done. Continue with the next step." |}];
     tr_status := "success"; tr_tool_use_id := tu_tool_use_id tool |}.

Definition auto_continue_payload (payload : KiroPayload) (assistant_content : string)
    (tool_uses : list KiroToolUse) : KiroPayload :=
  continue_turn payload assistant_content tool_uses (done_result <$> tool_uses)
    (tools_of (cs_current_message (p_conversation_state payload)))
    "Continue with the next step.".

Definition tool_search_kiro_result (tool_use : KiroToolUse) (outcome : ClaudeToolSearchOutcome) :
    KiroToolResult :=
  let '(status, text) :=
    match tt_error (so_trace outcome) with
    | Some error =>
        ("error", "Tool Search failed (" +:+ se_code error +:+ "): " +:+ se_message error)
    | None =>
        match tt_references (so_trace outcome) with
        | [] => ("success", "Tool Search found no matching tools.")
        | references =>
            ("success", "Tool Search loaded these tools: " +:+ join ", " references
                        +:+ ". Their complete definitions are now available.")
        end
    end in
  {| tr_content := [{| kt_text := text |}]; tr_status := status;
     tr_tool_use_id := tu_tool_use_id tool_use |}.

(** A definition joins the tools unless one of that name is there. *)
Definition add_tool (tools : list KiroTool) (found : KiroTool) : list KiroTool :=
  match specification found with
  | None => tools
  | Some tool =>
      if existsb (fun existing => bool_decide (ts_name existing = ts_name tool))
           (omap specification tools)
      then tools else tools ++ [found]
  end.

Definition tool_search_continue_payload_batch (payload : KiroPayload) (assistant_content : string)
    (searches : list (KiroToolUse * ClaudeToolSearchOutcome)) : KiroPayload :=
  let documentation := searches ≫= fun '(_, outcome) => so_documentation outcome in
  continue_turn payload assistant_content (fst <$> searches)
    ((fun '(tool_use, outcome) => tool_search_kiro_result tool_use outcome) <$> searches)
    (fold_left add_tool (searches ≫= fun '(_, outcome) => so_tools outcome)
       (tools_of (cs_current_message (p_conversation_state payload))))
    (match documentation with
     | [] => "Continue using the Tool Search result."
     | _ => "Continue using the Tool Search result." +:+ newline +:+ newline
            +:+ join (newline +:+ newline) documentation
     end).

Definition tool_search_continue_payload (payload : KiroPayload) (assistant_content : string)
    (tool_use : KiroToolUse) (outcome : ClaudeToolSearchOutcome) : KiroPayload :=
  tool_search_continue_payload_batch payload assistant_content [(tool_use, outcome)].

(** The result of a pending search joins the current turn. *)
Definition resume_tool_search_payload (payload : KiroPayload) (tool_use : KiroToolUse)
    (outcome : ClaudeToolSearchOutcome) : KiroPayload :=
  let state := p_conversation_state payload in
  let current := cs_current_message state in
  let context := unwrap_or (um_context current) KiroMessageContext_default in
  let context :=
    {| ctx_tool_results := ctx_tool_results context ++ [tool_search_kiro_result tool_use outcome];
       ctx_tools := fold_left add_tool (so_tools outcome) (ctx_tools context);
       ctx_env_state := ctx_env_state context |} in
  let content :=
    match so_documentation outcome with
    | [] => um_content current
    | documentation =>
        um_content current +:+ newline +:+ newline +:+ join (newline +:+ newline) documentation
    end in
  p_set_state payload
    (cs_set_messages state (um_set_content (um_set_context current (Some context)) content)
       (cs_history state)).

(** ** What the validator has checked *)

Lemma size_list_to_set_le (l : list string) : size (list_to_set l : gset string) <= length l.
Proof.
  induction l as [|x l IH]; cbn [list_to_set length]; [by rewrite size_empty|].
  rewrite size_union_alt, size_singleton.
  pose proof (subseteq_size (list_to_set l ∖ {[x]}) (list_to_set l : gset string) ltac:(set_solver)). lia.
Qed.

Lemma size_NoDup (l : list string) : size (list_to_set l : gset string) = length l -> NoDup l.
Proof.
  induction l as [|x l IH]; cbn [list_to_set length]; [constructor|]. intros H.
  pose proof (size_list_to_set_le l). destruct (decide (x ∈ l)) as [Hx|Hx].
  - replace ({[x]} ∪ list_to_set l : gset string) with (list_to_set l : gset string) in H by set_solver. lia.
  - constructor; [done|]. apply IH. rewrite size_union, size_singleton in H by set_solver. lia.
Qed.

Lemma validate_results_inv results expected all location location' all' :
  validate_results_loop results expected all location = Ok all' ->
  validate_results_loop results expected all location' = Ok all'
  /\ all' = list_to_set (result_ids results) ∪ all
  /\ (forall id, id ∈ result_ids results -> id ∈ expected).
Proof.
  unfold result_ids. revert all. induction results as [|r results IH]; intros all; cbn [validate_results_loop].
  { intros [= <-]. split_and!; [done|set_solver|]. intros id Hid. by apply elem_of_nil in Hid. }
  destruct (is_empty _); [done|]. destruct (negb (_ || _)); [done|]. destruct (is_nil _); [done|].
  case_bool_decide as Hin; [|done]. cbn [negb]. case_bool_decide; [done|].
  intros Hrest%IH. destruct Hrest as (-> & -> & Hsub). rewrite fmap_cons. split_and!; [done|set_solver|].
  intros id [->|Hid]%elem_of_cons; [done|by apply Hsub].
Qed.

Lemma validate_user_inv user expected all location location' all' :
  validate_user_results user expected all location = Ok all' ->
  validate_user_results user expected all location' = Ok all'
  /\ all' ⊆ list_to_set expected ∪ all.
Proof.
  unfold validate_user_results. destruct (negb _); [done|]. intros H.
  destruct (validate_results_inv _ _ _ _ location' _ H) as (H' & -> & Hsub). split; [done|].
  intros id [Hid%elem_of_list_to_set|Hid]%elem_of_union; [|set_solver].
  apply Hsub in Hid. set_solver.
Qed.

Lemma validate_uses_inv uses active active' all location ids all' :
  active ⊆ active' -> validate_assistant_uses uses active all location = Ok (ids, all') ->
  validate_assistant_uses uses active' all location = Ok (ids, all')
  /\ ids = use_ids uses /\ all' = list_to_set ids ∪ all.
Proof.
  intros Hact. unfold use_ids. revert all ids.
  induction uses as [|u uses IH]; intros all ids; cbn [validate_assistant_uses].
  { intros [= <- <-]. split_and!; [done..|set_solver]. }
  destruct (_ || _); [done|]. destruct (negb (is_object _)); [done|].
  case_bool_decide as Hin; [|done]. rewrite (bool_decide_true (_ ∈ active')) by set_solver.
  cbn [negb]. case_bool_decide; [done|].
  destruct (validate_assistant_uses _ _ _ _) as [[ids1 all1]|] eqn:E; cbn [result_bind]; [|done].
  intros [= <- <-]. destruct (IH _ _ E) as (-> & -> & ->). cbn [result_bind].
  split_and!; [done|by rewrite fmap_cons|set_solver].
Qed.

(** What a validated history says about the ids seen so far. *)
Record vs_ok (items : list KiroHistoryMessage) (vs : ValidateState) : Prop := {
  vo_uses : vs_all_use_ids vs = list_to_set (use_ids (items ≫= item_uses));
  vo_previous : list_to_set (vs_previous_uses vs) ⊆ vs_all_use_ids vs;
  vo_results : vs_all_result_ids vs ⊆ vs_all_use_ids vs;
}.

Lemma item_uses_assistant a : item_uses {| hm_user := None; hm_assistant := Some a |} = am_tool_uses a.
Proof. done. Qed.

Lemma validate_step_inv active active' index items item vs vs' :
  active ⊆ active' -> vs_ok items vs -> validate_step active index item vs = Ok vs' ->
  validate_step active' index item vs = Ok vs' /\ vs_ok (items ++ [item]) vs'.
Proof.
  intros Hact [Hu Hp Hr]. unfold validate_step.
  destruct item as [[user|] [assistant|]]; cbn [hm_user hm_assistant]; try done.
  - destruct (vs_previous_was_user vs); [done|]. destruct (negb _); [done|].
    destruct (validate_user_results _ _ _ _) as [all|] eqn:E; cbn [result_bind]; [|done].
    intros [= <-]. apply (validate_user_inv _ _ _ _ (history_location index)) in E as [_ Hall].
    split; [done|]. split; cbn [vs_all_use_ids vs_previous_uses vs_all_result_ids].
    + rewrite Hu, bind_app. cbn [mbind list_bind]. unfold item_uses. cbn. by rewrite !app_nil_r.
    + set_solver.
    + set_solver.
  - destruct (_ || _); [done|].
    destruct (validate_assistant_uses _ _ _ _) as [[ids all]|] eqn:E; cbn [result_bind]; [|done].
    intros [= <-]. apply (validate_uses_inv _ _ active') in E as (-> & -> & ->); [|done]. cbn [result_bind].
    split; [done|]. split; cbn [vs_all_use_ids vs_previous_uses vs_all_result_ids]; [|set_solver..].
    rewrite Hu, bind_app. cbn [mbind list_bind]. rewrite item_uses_assistant, app_nil_r. unfold use_ids.
    rewrite fmap_app, list_to_set_app_L. set_solver.
Qed.

Lemma validate_loop_inv active active' items vs :
  active ⊆ active' -> validate_loop active 0 items validate_start = Ok vs ->
  validate_loop active' 0 items validate_start = Ok vs /\ vs_ok items vs.
Proof.
  intros Hact. revert vs. induction items as [|item items IH] using rev_ind; intros vs.
  { cbn. intros [= <-]. split; [done|]. by split. }
  rewrite !validate_loop_snoc. destruct (validate_loop active _ _ _) as [vs1|]; cbn [result_bind]; [|done].
  intros H. destruct (IH _ eq_refl) as [-> Hok]. cbn [result_bind].
  by apply (validate_step_inv active).
Qed.

(** What an accepted payload is. *)
Lemma validate_inv payload active' :
  validate_kiro_tool_history payload = Ok tt ->
  let current := cs_current_message (p_conversation_state payload) in
  let names := spec_names (tools_of current) in
  let active : gset string := list_to_set names in
  active ⊆ active' ->
  NoDup names /\ Forall (fun name => is_empty (trim name) = false) names
  /\ exists vs all, validate_loop active' 0 (history payload) validate_start = Ok vs
       /\ vs_ok (history payload) vs
       /\ vs_previous_was_user vs = false
       /\ (forall location, validate_user_results current (vs_previous_uses vs)
                              (vs_all_result_ids vs) location = Ok all)
       /\ all ⊆ vs_all_use_ids vs.
Proof.
  unfold validate_kiro_tool_history. cbv zeta.
  set (current := cs_current_message _). set (names := spec_names _).
  destruct (existsb _ names) eqn:Hempty; [done|].
  destruct (negb _) eqn:Hsize; [done|]. apply negb_false_iff, Nat.eqb_eq in Hsize.
  destruct (validate_loop _ 0 _ _) as [vs|] eqn:Hloop; cbn [result_bind]; [|done].
  intros H Hact. destruct (validate_loop_inv _ active' _ _ Hact Hloop) as [Hloop' [Hu Hp Hr]].
  split; [|split].
  - apply size_NoDup. by rewrite <- Hsize.
  - apply Forall_forall. intros n Hn. apply not_true_is_false. intros Hn'.
    assert (existsb (fun name => is_empty (trim name)) names = true); [|congruence].
    apply existsb_exists. exists n. split; [by apply list_elem_of_In|done].
  - destruct (_ && negb (is_nil _)) eqn:E1; [done|]. destruct (negb (is_nil (history payload)) && _) eqn:E2; [done|].
    assert (Hrole : vs_previous_was_user vs = false).
    { destruct (history payload); [by injection Hloop' as <-|]. by cbn in E2. }
    assert (Hprev : (if negb (vs_previous_was_user vs) && is_nil (history payload)
                     then [] else vs_previous_uses vs) = vs_previous_uses vs).
    { destruct (history payload); [|by rewrite andb_false_r]. injection Hloop' as <-. done. }
    rewrite Hprev in H. destruct (validate_user_results _ _ _ _) as [all|] eqn:Ev; [|done].
    exists vs, all. split_and!; try done.
    + intros location. by apply (validate_user_inv _ _ _ _ location) in Ev as [? _].
    + apply (validate_user_inv _ _ _ _ EmptyString) in Ev as [_ Hall]. set_solver.
Qed.

(** ** The next round keeps the contract *)

Definition current_tools (p : KiroPayload) : list KiroTool :=
  tools_of (cs_current_message (p_conversation_state p)).

(** The tools the model may call. *)
Definition active_names (tools : list KiroTool) : gset string := list_to_set (spec_names tools).

Lemma without_tools user :
  tools_of (history_user_without_tools user) = []
  /\ results_of (history_user_without_tools user) = results_of user.
Proof.
  destruct user as [? ? ? ? ? ? ? [[[|r rs] tools env]|]]; done.
Qed.

Lemma continue_valid payload assistant_content uses results tools content :
  validate_kiro_tool_history payload = Ok tt ->
  length (history payload) + 2 <= HISTORY_LIMIT ->
  active_names (current_tools payload) ⊆ active_names tools ->
  NoDup (spec_names tools) -> Forall (fun n => is_empty (trim n) = false) (spec_names tools) ->
  Forall (good_use (active_names tools)) uses -> Forall good_result results ->
  result_ids results = use_ids uses -> NoDup (use_ids uses) ->
  (forall id, id ∈ use_ids uses -> id ∉ use_ids (history_uses payload)) ->
  validate_kiro_tool_history (continue_turn payload assistant_content uses results tools content) = Ok tt.
Proof.
  intros Hvalid Hlen Hact Hnd Hne Huses Hgood Hids Hndu Hfresh.
  destruct (validate_inv _ (active_names tools) Hvalid Hact)
    as (_ & _ & vs & all & Hloop & [Hu Hp Hr] & Hrole & Hcur & Hall).
  unfold continue_turn. set (state := p_conversation_state payload) in *.
  set (U := {| hm_user := Some (history_user_without_tools _); hm_assistant := None |}).
  set (A := {| hm_user := None; hm_assistant := Some _ |}).
  set (next := p_set_state payload _).
  assert (Hh : history next = (history payload ++ [U]) ++ [A]) by (unfold next; cbn; by rewrite <- app_assoc).
  assert (Hnext : truncate_history_preserving_protected_prefix next HISTORY_LIMIT = next).
  { unfold truncate_history_preserving_protected_prefix. rewrite Hh.
    rewrite (proj2 (Nat.leb_le _ _)); [done|]. rewrite !length_app. cbn [length]. lia. }
  rewrite Hnext. unfold validate_kiro_tool_history. rewrite Hh.
  change (tools_of (cs_current_message (p_conversation_state next))) with tools.
  replace (existsb _ (spec_names tools)) with false.
  2: { symmetry. apply not_true_is_false. intros (n & Hn & He)%existsb_exists.
       rewrite Forall_forall in Hne. apply list_elem_of_In in Hn. by rewrite (Hne n Hn) in He. }
  rewrite size_list_to_set, Nat.eqb_refl by done. cbn [negb].
  fold (active_names tools). rewrite !validate_loop_snoc, Hloop. cbn [result_bind].
  destruct (without_tools (cs_current_message state)) as [Ht Hres].
  assert (HU : forall index, validate_step (active_names tools) index U vs =
    Ok {| vs_previous_was_user := true; vs_previous_uses := [];
          vs_all_use_ids := vs_all_use_ids vs; vs_all_result_ids := all |}).
  { intros index. unfold validate_step, U. cbn [hm_user hm_assistant]. rewrite Hrole, Ht. cbn [is_nil negb].
    unfold validate_user_results. rewrite Hres.
    fold (validate_user_results (cs_current_message state) (vs_previous_uses vs)
            (vs_all_result_ids vs) (history_location index)). by rewrite Hcur. }
  rewrite HU. cbn [result_bind]. unfold validate_step, A. cbn [hm_user hm_assistant vs_previous_was_user].
  rewrite length_app, Nat.add_1_r. cbn [Nat.add Nat.eqb orb negb].
  cbn [am_tool_uses vs_all_use_ids vs_all_result_ids].
  rewrite validate_assistant_uses_ok; [|done|done|].
  2: { intros id Hid. rewrite Hu, elem_of_list_to_set. by apply Hfresh. }
  cbn [result_bind vs_previous_was_user vs_previous_uses vs_all_result_ids negb andb].
  rewrite <- app_assoc. replace (is_nil (history payload ++ _)) with false by (by destruct (history payload)).
  cbn [negb andb]. rewrite validate_user_results_ok; [done|done|done|done|].
  intros id Hid Hin%Hall. apply (Hfresh id Hid). rewrite Hu in Hin. by apply elem_of_list_to_set in Hin.
Qed.

Lemma continue_shape payload assistant_content uses results tools content :
  length (history payload) + 2 <= HISTORY_LIMIT -> result_ids results = use_ids uses ->
  let next := continue_turn payload assistant_content uses results tools content in
  history_uses next = history_uses payload ++ uses
  /\ result_ids (results_of (cs_current_message (p_conversation_state next))) = use_ids uses
  /\ current_tools next = tools.
Proof.
  intros Hlen Hids. cbv zeta. unfold continue_turn, truncate_history_preserving_protected_prefix.
  set (next := p_set_state _ _).
  assert (Hh : length (history next) <= HISTORY_LIMIT) by (unfold next; cbn [history p_conversation_state p_set_state cs_history cs_set_messages];
      rewrite length_app; exact Hlen).
  apply Nat.leb_le in Hh as ->. split_and!; [|done..]. unfold history_uses, next. cbn [history p_conversation_state
    p_set_state cs_history cs_set_messages]. rewrite bind_app. cbn. by rewrite app_nil_r.
Qed.

(** The automatic continuation of an accepted payload is accepted.  When
    the calls of the round are well formed, go to declared tools and have ids
    of their own, and the history has room for the round, the next payload
    satisfies Kiro's tool history contract as it is: its history has exactly
    those calls more, each with its result, and the same tools are declared. *)
Theorem auto_continue_valid (payload : KiroPayload) (assistant_content : string)
    (tool_uses : list KiroToolUse) :
  validate_kiro_tool_history payload = Ok tt ->
  length (history payload) + 2 <= HISTORY_LIMIT ->
  Forall (good_use (active_names (current_tools payload))) tool_uses ->
  NoDup (use_ids tool_uses) ->
  (forall id, id ∈ use_ids tool_uses -> id ∉ use_ids (history_uses payload)) ->
  let next := auto_continue_payload payload assistant_content tool_uses in
  validate_kiro_tool_history next = Ok tt
  /\ history_uses next = history_uses payload ++ tool_uses
  /\ result_ids (results_of (cs_current_message (p_conversation_state next))) = use_ids tool_uses
  /\ current_tools next = current_tools payload.
Proof.
  intros Hvalid Hlen Hgood Hnd Hfresh. cbv zeta.
  destruct (validate_inv _ _ Hvalid (reflexivity _)) as (Hn & Hne & _).
  assert (Hids : result_ids (done_result <$> tool_uses) = use_ids tool_uses).
  { unfold result_ids, use_ids. by rewrite <- list_fmap_compose. }
  split; [|by apply continue_shape].
  apply continue_valid; try done.
  apply Forall_fmap, Forall_forall. intros u Hu. rewrite Forall_forall in Hgood.
  destruct (Hgood u Hu). split; [done|by left|done].
Qed.

(** ** Loading definitions *)

Lemma add_tool_spec tools found :
  (forall t, specification found = Some t -> kiro_name_ok (ts_name t)) ->
  NoDup (spec_names tools) -> Forall (fun n => is_empty (trim n) = false) (spec_names tools) ->
  let tools' := add_tool tools found in
  NoDup (spec_names tools') /\ Forall (fun n => is_empty (trim n) = false) (spec_names tools')
  /\ active_names tools ⊆ active_names tools'
  /\ (forall t, specification found = Some t -> ts_name t ∈ active_names tools').
Proof.
  intros Hok Hnd Hne. unfold add_tool. cbv zeta.
  destruct (specification found) as [t|] eqn:E; [|done].
  assert (Hnames : spec_names (tools ++ [found]) = spec_names tools ++ [ts_name t]).
  { unfold spec_names. rewrite omap_app. cbn. by rewrite E. }
  assert (Hin : forall l, existsb (fun existing => bool_decide (ts_name existing = ts_name t))
                  (omap specification l) = bool_decide (ts_name t ∈ spec_names l)).
  { clear. unfold spec_names. induction l as [|x l IH]; [done|]. cbn.
    destruct (specification x) as [s|]; cbn; [|apply IH]. rewrite IH.
    repeat case_bool_decide; try done; set_solver. }
  rewrite Hin. case_bool_decide as Hx.
  - split_and!; [done..|]. intros t' [= <-]. by apply elem_of_list_to_set.
  - unfold active_names. rewrite Hnames. split_and!.
    + apply NoDup_app. split_and!; [done|set_solver|apply NoDup_singleton].
    + apply Forall_app. split; [done|]. apply Forall_singleton. pose proof (Hok t eq_refl) as Ht.
      rewrite kiro_name_trim by done. by apply is_empty_false, Ht.
    + rewrite list_to_set_app_L. set_solver.
    + intros t' [= <-]. set_solver.
Qed.

Lemma add_tools_spec founds tools :
  Forall (fun found => exists t, specification found = Some t /\ kiro_name_ok (ts_name t)) founds ->
  NoDup (spec_names tools) -> Forall (fun n => is_empty (trim n) = false) (spec_names tools) ->
  let tools' := fold_left add_tool founds tools in
  NoDup (spec_names tools') /\ Forall (fun n => is_empty (trim n) = false) (spec_names tools')
  /\ active_names tools ⊆ active_names tools'
  /\ active_names founds ⊆ active_names tools'.
Proof.
  intros Hok. revert tools. induction Hok as [|found founds (t & Ht & Hn) _ IH]; intros tools Hnd Hne; cbn zeta.
  { by split_and!. }
  cbn [fold_left]. destruct (add_tool_spec tools found) as (H1 & H2 & H3 & H4); [|done..|].
  { intros t' Ht'. rewrite Ht in Ht'. by injection Ht' as <-. }
  destruct (IH _ H1 H2) as (H5 & H6 & H7 & H8). split_and!; try done; [set_solver|].
  unfold active_names at 1, spec_names. cbn. rewrite Ht. cbn. specialize (H4 t Ht).
  unfold active_names at 1 in H8. unfold spec_names in H8. set_solver.
Qed.

Lemma search_results_good uses (outcome : KiroToolUse -> ClaudeToolSearchOutcome) active :
  Forall (good_use active) uses ->
  let results := (fun '(u, o) => tool_search_kiro_result u o) <$> ((fun u => (u, outcome u)) <$> uses) in
  Forall good_result results /\ result_ids results = use_ids uses.
Proof.
  intros Hgood. cbv zeta. unfold result_ids, use_ids. rewrite <- list_fmap_compose. split.
  - apply Forall_fmap. eapply Forall_impl; [done|]. intros u [Hid _ _ _]. cbn. unfold tool_search_kiro_result.
    destruct (tt_error _); [|destruct (tt_references _)]; split; cbn; auto.
  - rewrite <- list_fmap_compose. apply list_fmap_ext. intros i u _. cbn. unfold tool_search_kiro_result.
    by destruct (tt_error _); [|destruct (tt_references _)].
Qed.

Section SearchRound.
Context (sha256 : string -> string) (json_string : value -> string)
        (json_pretty : list value -> string) (tool_bytes : KiroTool -> option nat)
        (linear_regex : string -> option (string -> bool))
        (fancy_regex : string -> result (string -> result bool string) string)
        (words : string -> list string) (ln : f64 -> f64)
        (hash_order : list string -> list string).

(** A round of Tool Searches keeps the contract.  For a catalog built from a
    request's tools, an accepted payload with room for the round, and well
    formed calls with ids of their own, the payload that carries the outcomes
    back is accepted, whatever the searches find, one by one or in parallel:
    the calls join the history, each is answered, every definition found can
    be called in the next round, and no declared tool is lost or declared
    twice. *)
Theorem tool_search_continue_valid fuel names registry search_tools deferred catalog payload
    assistant_content uses (elapsed : KiroToolUse -> nat -> Z)
    (budget : KiroToolUse -> ClaudeToolSearchBudget) (loaded : KiroToolUse -> gset string) :
  new sha256 fuel names = Some registry ->
  build_catalog sha256 json_string json_pretty tool_bytes words search_tools deferred registry
    = Some catalog ->
  validate_kiro_tool_history payload = Ok tt ->
  length (history payload) + 2 <= HISTORY_LIMIT ->
  Forall (good_use (active_names (current_tools payload))) uses ->
  NoDup (use_ids uses) ->
  (forall id, id ∈ use_ids uses -> id ∉ use_ids (history_uses payload)) ->
  let outcome u :=
    search_with_budget_excluding linear_regex fancy_regex words ln hash_order catalog
      (elapsed u) u (budget u) (loaded u) in
  let next :=
    tool_search_continue_payload_batch payload assistant_content ((fun u => (u, outcome u)) <$> uses) in
  validate_kiro_tool_history next = Ok tt
  /\ history_uses next = history_uses payload ++ uses
  /\ result_ids (results_of (cs_current_message (p_conversation_state next))) = use_ids uses
  /\ active_names (current_tools payload) ⊆ active_names (current_tools next)
  /\ active_names (uses ≫= fun u => so_tools (outcome u)) ⊆ active_names (current_tools next)
  /\ NoDup (spec_names (current_tools next)).
Proof.
  intros Hnew Hbuild Hvalid Hlen Hgood Hnd Hfresh outcome. cbv zeta.
  destruct (validate_inv _ _ Hvalid (reflexivity _)) as (Hn & Hne & _).
  destruct (build_catalog_ok _ _ _ _ _ _ _ _ _ _ _ Hnew Hbuild) as [_ Hcat].
  destruct (search_results_good uses outcome _ Hgood) as [Hres Hids].
  assert (Hfounds : ((fun u => (u, outcome u)) <$> uses) ≫= (fun '(_, o) => so_tools o)
                    = uses ≫= fun u => so_tools (outcome u)).
  { clear. induction uses as [|u us IH]; [done|]. cbn. by f_equal. }
  destruct (add_tools_spec (uses ≫= fun u => so_tools (outcome u)) (current_tools payload))
    as (H1 & H2 & H3 & H4); [|done..|].
  { apply Forall_forall. intros tool (u & Ht & _)%list_elem_of_bind. apply outcome_tools in Ht.
    apply list_elem_of_fmap in Ht as (t & -> & Ht). by eapply Forall_forall in Hcat. }
  unfold tool_search_continue_payload_batch. rewrite Hfounds.
  replace (fst <$> ((fun u => (u, outcome u)) <$> uses)) with uses
    by (rewrite <- list_fmap_compose; symmetry; apply list_fmap_id).
  match goal with |- context [continue_turn payload assistant_content uses ?rs ?ts ?c] =>
    destruct (continue_shape payload assistant_content uses rs ts c Hlen Hids) as (Hh & Hr & Hc) end.
  rewrite Hc. split_and!; try done. apply continue_valid; try done.
  eapply Forall_impl; [exact Hgood|]. intros u [? ? ? ?]. split; try done. set_solver.
Qed.
End SearchRound.

(** ** A concrete round *)

Definition demo_spec (name : string) : KiroTool :=
  Specification {| ts_name := name; ts_description := "d"; ts_input_schema := Object [] |}.

Definition demo_round_user : KiroUserInputMessage :=
  {| um_content := "go"; um_model_id := "m"; um_origin := "AI_EDITOR"; um_images := [];
     um_documents := []; um_cache_point := None; um_client_cache_config := None;
     um_context := Some {| ctx_tool_results := []; ctx_tools := [demo_spec "find"; demo_spec "Read"];
                           ctx_env_state := None |} |}.

Definition demo_round : KiroPayload :=
  {| p_conversation_state :=
       {| cs_agent_continuation_id := None; cs_agent_task_type := None;
          cs_chat_trigger_type := "MANUAL"; cs_conversation_id := "c";
          cs_current_message := demo_round_user; cs_history := [] |};
     p_profile_arn := None; p_inference_config := None; p_additional_model_request_fields := None;
     p_model_request_intent := None; p_protected_history_messages := 0 |}.

Definition demo_read : KiroToolUse :=
  {| tu_tool_use_id := "t1"; tu_name := "Read"; tu_input := Object [] |}.

Lemma demo_good use :
  use = demo_read \/ use = demo_search_use ->
  good_use (active_names (current_tools demo_round)) use.
Proof.
  intros [->| ->]; (split; [reflexivity..|]);
    apply elem_of_list_to_set; [right; left|left].
Qed.

Lemma auto_continue_valid_witness :
  validate_kiro_tool_history (auto_continue_payload demo_round "reading" [demo_read]) = Ok tt.
Proof.
  refine (proj1 (auto_continue_valid demo_round "reading" [demo_read] _ _ _ _ _)).
  - vm_compute. reflexivity.
  - cbn. unfold HISTORY_LIMIT. lia.
  - apply Forall_singleton, demo_good. by left.
  - apply NoDup_singleton.
  - intros id _. by intros ?%elem_of_nil.
Defined.

Lemma tool_search_continue_valid_witness :
  let next :=
    tool_search_continue_payload_batch demo_round "searching"
      [(demo_search_use, demo_search demo_search_use budget_default ∅)] in
  spec_names (current_tools next) = ["find"; "Read"; "db_query"; "db_drop"]
  /\ validate_kiro_tool_history next = Ok tt.
Proof.
  cbv zeta. split; [vm_compute; reflexivity|].
  refine (proj1 (tool_search_continue_valid demo_hash demo_json_string demo_json_pretty
    (fun _ => Some 40) (fun pattern => Some (fun document => contains document pattern))
    (fun _ => Err EmptyString) (fun s => [s]) (fun x => x) (fun l => l)
    6 (ct_name <$> demo_tools) demo_search_registry
    (search_tools_of demo_hash demo_search_registry demo_tools)
    (filter (fun tool => is_deferred tool = true) demo_tools) demo_catalog demo_round "searching"
    [demo_search_use] (fun _ _ => 0%Z) (fun _ => budget_default) (fun _ => ∅) _ _ _ _ _ _ _)).
  - vm_compute. reflexivity.
  - vm_compute. reflexivity.
  - vm_compute. reflexivity.
  - cbn. unfold HISTORY_LIMIT. lia.
  - apply Forall_singleton, demo_good. by right.
  - apply NoDup_singleton.
  - intros id _. by intros ?%elem_of_nil.
Defined.
