(* ===== verification/Notify.v ===== *)
(** * Notifications

    [kproxy-notify/src/lib.rs]: webhook targets, the incidents that suppress a
    repeated alert, their file, and the batches of the delivery workers.  The
    outcome of every file operation is an argument, as are the clock, SHA-256
    and what the network answers.  The interface [Incidents] is what the alert
    policy relies on; [NotifyFacts] shows that a notifier keeps it. *)

From Stdlib Require Import ZArith Lia Ascii String.
From stdpp Require Import base list gmap sets strings.
From S2P Require Import Prelude RustStr.

Local Open Scope kproxy_scope.
Local Open Scope string_scope.
Local Open Scope list_scope.

Inductive WebhookEventKind :=
  AccountCreditProtected | AccountQuotaExhausted | ServiceQuotaExhausted | TokenRefreshFailed | Test.

#[global] Instance WebhookEventKind_eq_dec : EqDecision WebhookEventKind.
Proof. solve_decision. Defined.

Definition kind_str (kind : WebhookEventKind) : string :=
  match kind with
  | AccountCreditProtected => "account-credit-protected"
  | AccountQuotaExhausted => "account-quota-exhausted"
  | ServiceQuotaExhausted => "service-quota-exhausted"
  | TokenRefreshFailed => "token-refresh-failed"
  | Test => "test"
  end.

Definition matches_subscription (kind : WebhookEventKind) (configured : string) : bool :=
  bool_decide (configured = kind_str kind)
  || match kind with
     | AccountCreditProtected => bool_decide (configured = "low-credit")
     | AccountQuotaExhausted => bool_decide (configured = "quota-exhausted")
     | ServiceQuotaExhausted =>
         bool_decide (configured = "quota-exhausted") || bool_decide (configured = "service-degraded")
     | TokenRefreshFailed =>
         bool_decide (configured = "token-expired") || bool_decide (configured = "account-banned")
     | Test => false
     end.

Record WebhookEvent := {
  ev_kind : WebhookEventKind;
  ev_title : string;
  ev_message : string;
  ev_account_id : option string;
  ev_timestamp : Z;
}.

Definition WebhookEvent_new (kind : WebhookEventKind) (title message : string) (now_secs : Z) :
    WebhookEvent :=
  {| ev_kind := kind; ev_title := title; ev_message := message; ev_account_id := None;
     ev_timestamp := now_secs |}.

Record WebhookConfig := {
  wh_name : string;
  wh_kind : string;
  wh_url : string;
  wh_enabled : bool;
  wh_events : list string;
  wh_dingtalk_sign : option string;
  wh_telegram_chat_id : option string;
  wh_custom_template : option string;
}.

Record DeliveryLog := {
  dl_timestamp : Z;
  dl_target : string;
  dl_event : WebhookEventKind;
  dl_success : bool;
  dl_attempts : Z;
  dl_error : option string;
}.

Record Delivery := { dv_target : WebhookConfig; dv_event : WebhookEvent }.

(** ** What a client may rely on

    The alert policy sees the notifier through these operations: whether an
    incident is active, how it ends, and that an event may start one.  The laws
    hold on states that are [incidents_ok]; an event never ends an incident, and
    ending one kind of an account's incidents leaves the other kinds. *)
Class Incidents (N : Type) := {
  incident_active : WebhookEventKind -> option string -> N -> bool;
  resolve_incident : WebhookEventKind -> option string -> N -> N;
  emit : WebhookEvent -> N -> N;
  incidents_ok : N -> Prop;
  resolve_ok : forall kind account n, incidents_ok n -> incidents_ok (resolve_incident kind account n);
  emit_ok : forall event n, incidents_ok n -> incidents_ok (emit event n);
  resolve_ends : forall kind account n,
    incidents_ok n -> incident_active kind account (resolve_incident kind account n) = false;
  resolve_other_kind : forall kind kind' account n,
    incidents_ok n -> kind <> kind' ->
    incident_active kind account (resolve_incident kind' account n) = incident_active kind account n;
  emit_keeps : forall event kind account n,
    incidents_ok n -> incident_active kind account n = true ->
    incident_active kind account (emit event n) = true;
}.

(** ** The incident file *)

(** What the file holds: JSON of the current form with a version, or something
    that does not parse. *)
Inductive IncidentFile :=
| Missing
| Corrupt
| Persisted (version : Z) (incidents : gmap string Z).

Definition incident_state_version : Z := 1.

(** A write replaces the file by renaming a synced temporary file; it can fail
    before the rename or after it, when the directory is synced. *)
Inductive WriteOutcome :=
| WriteDone
| WriteFailed (error : string)
| WriteUnsynced (error : string).

Record FileIo := {
  io_lock_error : option string;
  io_read_error : option string;
  io_quarantined : bool;
  io_write : WriteOutcome;
}.

Definition io_ok : FileIo :=
  {| io_lock_error := None; io_read_error := None; io_quarantined := true; io_write := WriteDone |}.

Section Io.
Context (show_version : Z -> string).

Definition read_incidents (io : FileIo) (disk : IncidentFile) :
    IncidentFile * result (gmap string Z) string :=
  match io_read_error io with
  | Some error => (disk, Err error)
  | None =>
      match disk with
      | Missing => (disk, Ok ∅)
      | Persisted version incidents =>
          if (version =? incident_state_version)%Z then (disk, Ok incidents)
          else (disk, Err ("unsupported webhook incident state version " +:+ show_version version))
      | Corrupt => (if io_quarantined io then Missing else Corrupt, Ok ∅)
      end
  end.

Definition write_incidents (io : FileIo) (incidents : gmap string Z) (disk : IncidentFile) :
    IncidentFile * result unit string :=
  let written := Persisted incident_state_version incidents in
  match io_write io with
  | WriteDone => (written, Ok tt)
  | WriteFailed error => (disk, Err error)
  | WriteUnsynced error => (written, Err error)
  end.

Definition mutate_incidents {T : Type} (io : FileIo) (disk : IncidentFile)
    (mutate : gmap string Z -> gmap string Z * (T * bool)) :
    IncidentFile * result (gmap string Z * T) string :=
  match io_lock_error io with
  | Some error => (disk, Err error)
  | None =>
      match read_incidents io disk with
      | (disk, Err error) => (disk, Err error)
      | (disk, Ok incidents) =>
          let '(incidents, (value, changed)) := mutate incidents in
          if changed
          then let '(disk, r) := write_incidents io incidents disk in
               (disk, let? _ := r in Ok (incidents, value))
          else (disk, Ok (incidents, value))
      end
  end.

Definition load_incidents (io : FileIo) (disk : IncidentFile) : IncidentFile * gmap string Z :=
  match read_incidents io disk with
  | (disk, Ok incidents) => (disk, incidents)
  | (disk, Err _) => (disk, ∅)
  end.

(** ** The notifier *)

(** What the clones of a notifier and its reconfigured successors share, and
    the file behind it. *)
Record Shared := {
  sh_active : gmap string Z;
  sh_disk : IncidentFile;
  sh_history : list DeliveryLog;
}.

(** The queues of the workers by target name, each with room for [nt_capacity]
    deliveries. *)
Record Notifier := {
  nt_targets : list WebhookConfig;
  nt_queues : gmap string (list Delivery);
  nt_capacity : nat;
  nt_persistent : bool;
  nt_shared : Shared;
}.

Definition with_state (targets : list WebhookConfig) (queue_size : nat) (persistent : bool)
    (shared : Shared) : Notifier :=
  {| nt_targets := targets;
     nt_queues := fold_left (fun queues target => <[wh_name target := []]> queues) targets ∅;
     nt_capacity := Nat.max queue_size 1;
     nt_persistent := persistent;
     nt_shared := shared |}.

Definition new (targets : list WebhookConfig) (queue_size : nat) : Notifier :=
  with_state targets queue_size false {| sh_active := ∅; sh_disk := Missing; sh_history := [] |}.

Definition persistent (targets : list WebhookConfig) (queue_size : nat) (io : FileIo)
    (disk : IncidentFile) : Notifier :=
  let '(disk, incidents) := load_incidents io disk in
  with_state targets queue_size true {| sh_active := incidents; sh_disk := disk; sh_history := [] |}.

Definition reconfigured (targets : list WebhookConfig) (queue_size : nat) (n : Notifier) : Notifier :=
  with_state targets queue_size (nt_persistent n) (nt_shared n).

Definition set_incidents (n : Notifier) (active : gmap string Z) (disk : IncidentFile) : Notifier :=
  {| nt_targets := nt_targets n; nt_queues := nt_queues n; nt_capacity := nt_capacity n;
     nt_persistent := nt_persistent n;
     nt_shared := {| sh_active := active; sh_disk := disk; sh_history := sh_history (nt_shared n) |} |}.

Definition set_queues (n : Notifier) (queues : gmap string (list Delivery)) : Notifier :=
  {| nt_targets := nt_targets n; nt_queues := queues; nt_capacity := nt_capacity n;
     nt_persistent := nt_persistent n; nt_shared := nt_shared n |}.

Definition active (n : Notifier) : gmap string Z := sh_active (nt_shared n).
Definition disk (n : Notifier) : IncidentFile := sh_disk (nt_shared n).

(** A change of the incidents: on the file when there is one, and on the map
    in memory alone when there is none or the file cannot be changed. *)
Definition change_incidents {T : Type} (io : FileIo)
    (mutate : gmap string Z -> gmap string Z * (T * bool)) (n : Notifier) : Notifier * T :=
  let in_memory disk :=
    let '(incidents, (value, _)) := mutate (active n) in (set_incidents n incidents disk, value) in
  if nt_persistent n then
    match mutate_incidents io (disk n) mutate with
    | (disk, Ok (incidents, value)) => (set_incidents n incidents disk, value)
    | (disk, Err _) => in_memory disk
    end
  else in_memory (disk n).

Definition insert_new (key : string) (now : Z) (incidents : gmap string Z) :
    gmap string Z * (bool * bool) :=
  if is_some (incidents !! key) then (incidents, (false, false))
  else (<[key := now]> incidents, (true, true)).

Definition remove_mark (key : string) (timestamp : Z) (incidents : gmap string Z) :
    gmap string Z * (unit * bool) :=
  if bool_decide (incidents !! key = Some timestamp) then (delete key incidents, (tt, true))
  else (incidents, (tt, false)).

Definition without_suffix (suffix : string) (incidents : gmap string Z) : gmap string Z :=
  filter (fun '(key, _) => ends_with key suffix = false) incidents.

Definition retain_others (suffix : string) (incidents : gmap string Z) :
    gmap string Z * (unit * bool) :=
  let kept := without_suffix suffix incidents in
  (kept, (tt, negb (size kept =? size incidents)%nat)).

Definition account_key (account : option string) : string := unwrap_or account "global".

Definition incident_suffix (kind : WebhookEventKind) (account : option string) : string :=
  ":" +:+ kind_str kind +:+ ":" +:+ account_key account.

Definition resolve (io : FileIo) (kind : WebhookEventKind) (account : option string)
    (n : Notifier) : Notifier :=
  fst (change_incidents io (retain_others (incident_suffix kind account)) n).

Definition is_active (kind : WebhookEventKind) (account : option string) (n : Notifier) : bool :=
  existsb (fun '(key, _) => ends_with key (incident_suffix kind account)) (map_to_list (active n)).

Section Sending.
Context (sha256 : string -> string).

Definition target_incident_identity (target : WebhookConfig) : string :=
  let zero := String "000" EmptyString in
  show_hex (take 16 (s2l (sha256 (to_ascii_lowercase (trim (wh_kind target)) +:+ zero
                                  +:+ trim (wh_url target) +:+ zero
                                  +:+ unwrap_or (trim <$> wh_telegram_chat_id target) EmptyString)))).

Definition incident_key (target : WebhookConfig) (event : WebhookEvent) : string :=
  target_incident_identity target +:+ incident_suffix (ev_kind event) (ev_account_id event).

(** [Some key] when the event may be sent and is marked. *)
Definition mark_send (io : FileIo) (now : Z) (target : WebhookConfig) (event : WebhookEvent)
    (n : Notifier) : Notifier * option string :=
  let key := incident_key target event in
  let '(n, inserted) := change_incidents io (insert_new key now) n in
  (n, if inserted then Some key else None).

Definition rollback_mark (io : FileIo) (mark : option string) (timestamp : Z) (n : Notifier) :
    Notifier :=
  match mark with
  | None => n
  | Some key => fst (change_incidents io (remove_mark key timestamp) n)
  end.

(** [try_send]: fails on a full queue, and without a worker. *)
Definition try_send (delivery : Delivery) (n : Notifier) : option Notifier :=
  let name := wh_name (dv_target delivery) in
  queue ← nt_queues n !! name;
  if (nt_capacity n <=? length queue)%nat then None
  else Some (set_queues n (<[name := queue ++ [delivery]]> (nt_queues n))).

(** One target of [emit_matching_inner]: the delivery queued, if any.  [io] is
    used for the mark and for its rollback. *)
Definition emit_target (name : option string) (event : WebhookEvent) (is_test : bool)
    (io : FileIo * FileIo) (now : Z) (target : WebhookConfig) (n : Notifier) :
    Notifier * option Delivery :=
  if is_some_and name (fun name => negb (bool_decide (wh_name target = name)))
     || negb (wh_enabled target)
     || (negb is_test && negb (existsb (matches_subscription (ev_kind event)) (wh_events target)))
  then (n, None) else
  let '(n, marked) :=
    if is_test then (n, Some None)
    else match mark_send io.1 now target event n with
         | (n, None) => (n, None)
         | (n, Some key) => (n, Some (Some key))
         end in
  match marked with
  | None => (n, None)
  | Some mark =>
      let delivery := {| dv_target := target; dv_event := event |} in
      match try_send delivery n with
      | Some n => (n, Some delivery)
      | None => (rollback_mark io.2 mark now n, None)
      end
  end.

Fixpoint emit_targets (name : option string) (event : WebhookEvent) (is_test : bool)
    (io : nat -> FileIo * FileIo) (now : nat -> Z) (index : nat) (targets : list WebhookConfig)
    (n : Notifier) : Notifier * list Delivery :=
  match targets with
  | [] => (n, [])
  | target :: targets =>
      let '(n, queued) := emit_target name event is_test (io index) (now index) target n in
      let '(n, rest) := emit_targets name event is_test io now (S index) targets n in
      (n, option_list queued ++ rest)
  end.

Definition emit_matching_inner (name : option string) (event : WebhookEvent) (is_test : bool)
    (io : nat -> FileIo * FileIo) (now : nat -> Z) (n : Notifier) : Notifier * list Delivery :=
  emit_targets name event is_test io now 0 (nt_targets n) n.

Definition emit_event (event : WebhookEvent) := emit_matching_inner None event false.
Definition emit_to (name : string) (event : WebhookEvent) := emit_matching_inner (Some name) event false.
Definition emit_test (name : option string) (event : WebhookEvent) := emit_matching_inner name event true.
End Sending.
End Io.

(** ** The workers *)

Definition is_matching_account_event (kind : WebhookEventKind) (delivery : Delivery) : bool :=
  bool_decide (ev_kind (dv_event delivery) = kind) && is_some (ev_account_id (dv_event delivery)).

Definition newline : string := String "010" EmptyString.

Definition numbered_message (index : nat) (message : string) : string :=
  "**账号 " +:+ show_nat (index + 1) +:+ "**" +:+ newline +:+ message.

(** One delivery for a batch; [first] is its first element. *)
Definition aggregate_account_events (first : Delivery) (others : list Delivery) : Delivery :=
  match others with
  | [] => first
  | _ =>
      let count := S (length others) in
      let event := dv_event first in
      let messages := ev_message event :: ((fun d => ev_message (dv_event d)) <$> others) in
      {| dv_target := dv_target first;
         dv_event :=
           {| ev_kind := ev_kind event;
              ev_title := ev_title event +:+ "（" +:+ show_nat count +:+ " 个账号）";
              ev_message :=
                "- **涉及账号：** " +:+ show_nat count +:+ " 个" +:+ newline +:+ newline
                +:+ join (newline +:+ newline +:+ "---" +:+ newline +:+ newline)
                      (imap numbered_message messages);
              ev_account_id := None;
              ev_timestamp := ev_timestamp event |} |}
  end.

(** The batch of a delivery, what stays pending and what stays in the channel.
    The channel is read after the aggregation window. *)
Definition collect_account_event_batch (channel pending : list Delivery) (first : Delivery) :
    (Delivery * list Delivery) * list Delivery * list Delivery :=
  if is_none (ev_account_id (dv_event first)) then ((first, []), pending, channel) else
  let matching := is_matching_account_event (ev_kind (dv_event first)) in
  ((first, filter (fun d => matching d = true) (pending ++ channel)),
   filter (fun d => matching d = false) (pending ++ channel), []).

Inductive SendOutcome := Sent | SendFailed (message : string) (retryable_before_delivery : bool).

Definition MAX_LOGS : nat := 1000.

Definition record_delivery (now_secs : Z) (delivery : Delivery) (success : bool) (attempts : Z)
    (error : option string) (history : list DeliveryLog) : list DeliveryLog :=
  let history :=
    history ++ [{| dl_timestamp := now_secs; dl_target := wh_name (dv_target delivery);
                   dl_event := ev_kind (dv_event delivery); dl_success := success;
                   dl_attempts := attempts; dl_error := error |}] in
  drop (length history - MAX_LOGS) history.

(** Attempts [attempt] to 2; [send] is what each attempt answers. *)
Fixpoint deliver_from (remaining attempt : nat) (send : nat -> SendOutcome) (now_secs : Z)
    (delivery : Delivery) (history : list DeliveryLog) : list DeliveryLog :=
  match remaining with
  | O => history
  | S remaining =>
      match send attempt with
      | Sent => record_delivery now_secs delivery true (Z.of_nat attempt + 1) None history
      | SendFailed message retryable =>
          if (attempt <? 2)%nat && retryable
          then deliver_from remaining (S attempt) send now_secs delivery history
          else record_delivery now_secs delivery false (Z.of_nat attempt + 1) (Some message) history
      end
  end.

Definition deliver := deliver_from 3 0.

(** One round of a worker: the next delivery comes from what is pending or from
    the channel; [arrived] is what is sent to the channel during the window. *)
Definition worker_round (send : nat -> SendOutcome) (now_secs : Z) (arrived : list Delivery)
    (channel pending : list Delivery) (history : list DeliveryLog) :
    option (Delivery * list Delivery) * list Delivery * list Delivery * list DeliveryLog :=
  let next :=
    match pending, channel with
    | first :: pending, _ => Some (first, pending, channel)
    | [], first :: channel => Some (first, [], channel)
    | [], [] => None
    end in
  match next with
  | None => (None, channel ++ arrived, pending, history)
  | Some (first, pending, channel) =>
      let '(batch, pending, channel) :=
        collect_account_event_batch (channel ++ arrived) pending first in
      (Some batch, channel, pending,
       deliver send now_secs (aggregate_account_events batch.1 batch.2) history)
  end.

Definition logs (tail : nat) (history : list DeliveryLog) : list DeliveryLog :=
  take (Nat.min tail MAX_LOGS) (reverse history).
