(* ===== verification/NotifyFacts.v ===== *)
(** * A notifier keeps its promises

    Incidents in memory and on disk stay the same set as long as the file can be
    written, across reconfiguration and restarts; and a notifier is an instance
    of [Notify.Incidents]. *)

From Stdlib Require Import ZArith Lia Ascii String.
From stdpp Require Import base list gmap sets strings.
From S2P Require Import Prelude RustStr Notify.

Local Open Scope kproxy_scope.
Local Open Scope string_scope.
Local Open Scope list_scope.

(** ** Suffixes *)

Lemma ends_with_spec s p : ends_with s p = true <-> exists r, s2l s = r ++ s2l p.
Proof.
  unfold ends_with. split.
  - destruct (strip_prefix_l _ _) as [r|] eqn:E; [|done]. intros _. apply strip_prefix_l_spec in E.
    exists (reverse r). apply (f_equal reverse) in E. by rewrite reverse_app, !reverse_involutive in E.
  - intros [r Hr]. destruct (strip_prefix_l _ _) as [r'|] eqn:E; [done|]. exfalso.
    assert (strip_prefix_l (reverse (s2l p)) (reverse (s2l s)) = Some (reverse r)) as H; [|congruence].
    apply strip_prefix_l_spec. by rewrite Hr, reverse_app.
Qed.

(** Kinds have no colon, so that different kinds never share a suffix. *)
Lemma kind_suffix_disjoint kind kind' account key :
  kind <> kind' -> ends_with key (incident_suffix kind account) = true ->
  ends_with key (incident_suffix kind' account) = false.
Proof.
  intros Hne [r Hr]%ends_with_spec. apply not_true_is_false. intros [r' Hr']%ends_with_spec.
  rewrite Hr in Hr'. unfold incident_suffix in Hr'. rewrite !s2l_app in Hr'.
  rewrite !app_assoc in Hr'. apply app_inv_tail in Hr'. rewrite <- !app_assoc in Hr'.
  apply (f_equal reverse) in Hr'. rewrite !reverse_app, <- !app_assoc in Hr'.
  apply Hne. clear -Hr'. destruct kind, kind'; try done; vm_compute in Hr'; discriminate.
Qed.

(** ** Memory and file *)

Section Facts.
Context (show_version : Z -> string) (sha256 : string -> string).

(** The file, when there is one, reads as what is in memory. *)
Definition synced (n : Notifier) : Prop :=
  nt_persistent n = true -> snd (read_incidents show_version io_ok (disk n)) = Ok (active n).

Definition honest {T : Type} (mutate : gmap string Z -> gmap string Z * (T * bool)) : Prop :=
  forall m, snd (snd (mutate m)) = false -> fst (mutate m) = m.

Lemma insert_new_honest key now : honest (insert_new key now).
Proof. intros m. unfold insert_new. by destruct (is_some _). Qed.

Lemma remove_mark_honest key now : honest (remove_mark key now).
Proof. intros m. unfold remove_mark. by case_bool_decide. Qed.

Lemma retain_others_honest suffix : honest (retain_others suffix).
Proof.
  intros m. unfold retain_others. cbn. intros Hsize%negb_false_iff%Nat.eqb_eq.
  apply map_subseteq_size_eq; [apply map_filter_subseteq|].
  change (size m <= size (without_suffix suffix m)). by rewrite Hsize.
Qed.

(** What a change leaves alone. *)
Definition same_queues (n n' : Notifier) : Prop :=
  nt_targets n' = nt_targets n /\ nt_queues n' = nt_queues n
  /\ nt_capacity n' = nt_capacity n /\ nt_persistent n' = nt_persistent n.

Lemma change_incidents_ok {T} (mutate : gmap string Z -> gmap string Z * (T * bool)) n :
  honest mutate -> synced n ->
  let '(n', value) := change_incidents show_version io_ok mutate n in
  active n' = fst (mutate (active n)) /\ value = fst (snd (mutate (active n)))
  /\ synced n' /\ same_queues n n'.
Proof.
  intros Hh Hs. unfold change_incidents, synced in *.
  destruct (nt_persistent n) eqn:Hp.
  2: { destruct (mutate (active n)) as [incidents [value changed]]. cbn. rewrite Hp. done. }
  specialize (Hs eq_refl). unfold mutate_incidents. cbn [io_lock_error io_ok].
  destruct (read_incidents show_version io_ok (disk n)) as [d r] eqn:Er. cbn in Hs. subst r.
  specialize (Hh (active n)). destruct (mutate (active n)) as [incidents [value changed]]. cbn in Hh.
  destruct changed; cbn.
  - done.
  - rewrite Hh by done. split_and!; try done. intros _. unfold disk, active, set_incidents. cbn.
    unfold read_incidents in Er |- *. cbn in Er |- *. fold (disk n) in Er. fold (active n).
    destruct (disk n) as [| |version m]; cbn in Er; [| |destruct (version =? _)%Z eqn:Ev];
      inversion Er; subst; cbn; rewrite ?Ev; done.
Qed.

(** ** Events *)

Definition healthy : nat -> FileIo * FileIo := fun _ => (io_ok, io_ok).

(** A target either queues a delivery whose incident was not active and now
    is, or leaves the incidents as they were. *)
Lemma emit_target_ok name event is_test now target n :
  synced n ->
  let '(n', queued) :=
    emit_target show_version sha256 name event is_test (io_ok, io_ok) now target n in
  synced n' /\ nt_targets n' = nt_targets n
  /\ match queued with
     | None => active n' = active n
     | Some delivery =>
         delivery = {| dv_target := target; dv_event := event |}
         /\ if is_test then active n' = active n
            else active n !! incident_key sha256 target event = None
                 /\ active n' = <[incident_key sha256 target event := now]> (active n)
     end.
Proof.
  intros Hs. unfold emit_target. destruct (_ || _ || _); [done|]. set (key := incident_key _ _ _).
  unfold mark_send. fold key. cbn [fst snd].
  pose proof (change_incidents_ok (insert_new key now) n (insert_new_honest key now) Hs) as Hm.
  destruct (change_incidents _ io_ok (insert_new key now) n) as [n1 inserted].
  destruct Hm as (Ha & Hv & Hs1 & Ht1 & _).
  assert (Hsend : forall n d n', try_send d n = Some n' -> active n' = active n
            /\ (synced n -> synced n') /\ nt_targets n' = nt_targets n).
  { clear. intros n d n'. unfold try_send. destruct (nt_queues n !! _) as [q|]; [|done]. cbn.
    destruct (_ <=? _)%nat; [done|]. by intros [= <-]. }
  destruct is_test.
  - destruct (try_send _ n) as [n'|] eqn:E; [|done]. apply Hsend in E as (-> & Hs' & ->). auto.
  - unfold insert_new in Ha, Hv. destruct (active n !! key) as [old|] eqn:Ek; cbn in Ha, Hv; subst inserted.
    + cbn. split_and!; [done|done|by rewrite Ha].
    + destruct (try_send _ n1) as [n'|] eqn:E.
      * apply Hsend in E as (Ha' & Hs' & Ht'). rewrite Ha', Ht', Ha. auto.
      * cbn. pose proof (change_incidents_ok (remove_mark key now) n1 (remove_mark_honest key now) Hs1) as Hr.
        destruct (change_incidents _ io_ok (remove_mark key now) n1) as [n2 []].
        destruct Hr as (Ha2 & _ & Hs2 & Ht2 & _). cbn. split_and!; [done|by rewrite Ht2|].
        rewrite Ha2, Ha. unfold remove_mark. rewrite bool_decide_true by apply lookup_insert_eq.
        cbn. by rewrite delete_insert_id by done.
Qed.

(** ** The abstract incident set *)

Inductive Label := Queued (key : string) | Resolved (suffix : string).

(** What a list of labels does to the set of active incidents; [None] when an
    incident that is active is queued again. *)
Fixpoint accepts (incidents : gset string) (labels : list Label) : option (gset string) :=
  match labels with
  | [] => Some incidents
  | Queued key :: labels =>
      if bool_decide (key ∈ incidents) then None else accepts ({[key]} ∪ incidents) labels
  | Resolved suffix :: labels =>
      accepts (filter (fun key => ends_with key suffix = false) incidents) labels
  end.

Lemma accepts_app incidents k l :
  accepts incidents (k ++ l) = accepts incidents k ≫= fun incidents => accepts incidents l.
Proof.
  revert incidents. induction k as [|[key|suffix] k IH]; intros incidents; cbn; [done| |apply IH].
  case_bool_decide; [done|apply IH].
Qed.

(** An active incident that is queued again was resolved in between. *)
Lemma accepts_twice key A mid post A' :
  accepts ({[key]} ∪ A) (mid ++ Queued key :: post) = Some A' ->
  exists suffix, Resolved suffix ∈ mid /\ ends_with key suffix = true.
Proof.
  assert (Hk : key ∈ ({[key]} ∪ A : gset string)) by set_solver. revert Hk.
  generalize ({[key]} ∪ A : gset string). clear A.
  induction mid as [|[k|suffix] mid IH]; intros A Hk; cbn.
  - by rewrite bool_decide_true.
  - case_bool_decide; [done|]. intros Hr. destruct (IH ({[k]} ∪ A) ltac:(set_solver) Hr) as (s & Hs & He).
    exists s. split; [by right|done].
  - intros H. destruct (ends_with key suffix) eqn:E.
    + exists suffix. split; [left|done].
    + destruct (IH (filter (fun key => ends_with key suffix = false) A)) as (s & Hs & He); [|done|].
      * by apply elem_of_filter.
      * exists s. split; [by right|done].
Qed.

Definition incidents (n : Notifier) : gset string := dom (active n).

Definition queued_label (d : Delivery) : Label := Queued (incident_key sha256 (dv_target d) (dv_event d)).

Lemma emit_targets_ok name event is_test now index targets n :
  synced n ->
  let '(n', queued) :=
    emit_targets show_version sha256 name event is_test healthy now index targets n in
  synced n'
  /\ accepts (incidents n) (if is_test then [] else queued_label <$> queued) = Some (incidents n').
Proof.
  revert index n. induction targets as [|target targets IH]; intros index n Hs; cbn [emit_targets].
  { by destruct is_test. }
  unfold healthy at 1. pose proof (emit_target_ok name event is_test (now index) target n Hs) as Ht.
  destruct (emit_target _ _ _ _ _ _ _ _ n) as [n1 q]. destruct Ht as (Hs1 & _ & Hq).
  specialize (IH (S index) n1 Hs1). destruct (emit_targets _ _ _ _ _ _ _ _ _ n1) as [n2 rest].
  destruct IH as [Hs2 Hacc]. split; [done|]. destruct q as [d|]; cbn.
  - destruct Hq as [-> Hq]. destruct is_test; [unfold incidents in *; by rewrite <- Hq|].
    destruct Hq as [Hnew Ha]. cbn. unfold incidents in *. rewrite bool_decide_false by by apply not_elem_of_dom.
    by rewrite Ha, dom_insert_L in Hacc.
  - unfold incidents in *. by rewrite <- Hq.
Qed.

Lemma retained_incidents n n' suffix :
  active n' = without_suffix suffix (active n) ->
  incidents n' = filter (fun key => ends_with key suffix = false) (incidents n).
Proof.
  intros Ha. unfold incidents. rewrite Ha. unfold without_suffix. apply set_eq. intros key.
  rewrite elem_of_filter, !elem_of_dom. unfold is_Some. setoid_rewrite map_lookup_filter_Some. naive_solver.
Qed.

(** What happens to a notifier while its file can be written: events, to all
    targets or to one; tests; recoveries; new targets; a restart, which loads
    the file; and whatever the workers do to their queues and the log. *)
Inductive nstep : Notifier -> list Label -> Notifier -> Prop :=
| nstep_emit n name event now n' queued :
    emit_matching_inner show_version sha256 name event false healthy now n = (n', queued) ->
    nstep n (queued_label <$> queued) n'
| nstep_test n name event now :
    nstep n [] (fst (emit_test show_version sha256 name event healthy now n))
| nstep_resolve n kind account :
    nstep n [Resolved (incident_suffix kind account)] (resolve show_version io_ok kind account n)
| nstep_reconfigured n targets queue_size : nstep n [] (reconfigured targets queue_size n)
| nstep_restart n targets queue_size :
    nt_persistent n = true ->
    nstep n [] (persistent show_version targets queue_size io_ok (disk n))
| nstep_workers n queues history :
    nstep n []
      {| nt_targets := nt_targets n; nt_queues := queues; nt_capacity := nt_capacity n;
         nt_persistent := nt_persistent n;
         nt_shared := {| sh_active := active n; sh_disk := disk n; sh_history := history |} |}.

Inductive nrun : Notifier -> list Label -> Notifier -> Prop :=
| nrun_done n : nrun n [] n
| nrun_step n labels n1 rest n2 :
    nstep n labels n1 -> nrun n1 rest n2 -> nrun n (labels ++ rest) n2.

Lemma nstep_accepts n labels n' :
  nstep n labels n' -> synced n -> synced n' /\ accepts (incidents n) labels = Some (incidents n').
Proof.
  destruct 1 as [n name event now n' queued E|n name event now|n kind account|n targets size
                |n targets size Hp|n queues history]; intros Hs.
  - unfold emit_matching_inner in E. pose proof (emit_targets_ok name event false now 0 (nt_targets n) n Hs) as H.
    by rewrite E in H.
  - pose proof (emit_targets_ok name event true now 0 (nt_targets n) n Hs) as H.
    unfold emit_test, emit_matching_inner. by destruct (emit_targets _ _ _ _ _ _ _ _ _ n).
  - unfold resolve. pose proof (change_incidents_ok _ n (retain_others_honest (incident_suffix kind account)) Hs) as H.
    destruct (change_incidents _ _ _ n) as [n' []]. destruct H as (Ha & _ & Hs' & _). split; [done|].
    cbn. f_equal. symmetry. by apply retained_incidents.
  - done.
  - specialize (Hs Hp). unfold persistent, load_incidents.
    destruct (read_incidents _ _ _) as [d r] eqn:Er. cbn in Hs. subst r.
    split; [|done]. intros _. unfold disk, active. cbn.
    unfold read_incidents in Er |- *. cbn in Er |- *. fold (active n).
    destruct (disk n) as [| |version m]; cbn in Er; [| |destruct (version =? _)%Z eqn:Ev];
      inversion Er; subst; cbn; rewrite ?Ev; done.
  - done.
Qed.

(** C39: Alerts are sent once per incident.  While the incident file can be
    written, whatever happens (events, tests, recoveries, new targets,
    restarts, workers at any speed), the active incidents behave as a plain
    set: a delivery is queued for a target only when its incident is not
    active, and makes it active; a delivery that cannot be queued leaves no
    trace; and only a recovery takes incidents out, so that between two
    deliveries of the same incident there is a recovery of it.  (A step is a whole
    call; other tasks between the mark of an event and its queueing are left out.) *)
Theorem alert_once (n : Notifier) (labels : list Label) (n' : Notifier) :
  synced n -> nrun n labels n' ->
  synced n'
  /\ accepts (incidents n) labels = Some (incidents n')
  /\ forall pre key mid post, labels = pre ++ Queued key :: mid ++ Queued key :: post ->
       exists suffix, Resolved suffix ∈ mid /\ ends_with key suffix = true.
Proof.
  intros Hs Hrun. assert (H : synced n' /\ accepts (incidents n) labels = Some (incidents n')).
  { induction Hrun as [n|n labels n1 rest n2 Hstep _ IH]; [done|].
    destruct (nstep_accepts _ _ _ Hstep Hs) as [Hs1 Ha]. destruct (IH Hs1) as [Hs2 Ha2].
    split; [done|]. rewrite accepts_app, Ha. exact Ha2. }
  destruct H as [Hs' Ha]. split_and!; [done..|]. intros pre key mid post ->.
  rewrite accepts_app in Ha. destruct (accepts _ pre) as [A|]; [|done]. cbn in Ha.
  case_bool_decide; [done|]. by eapply accepts_twice.
Qed.

(** ** The interface of the alert policy *)

Lemma is_active_incidents kind account n :
  is_active kind account n = true
  <-> exists key, key ∈ incidents n /\ ends_with key (incident_suffix kind account) = true.
Proof.
  unfold is_active, incidents. rewrite existsb_exists. split.
  - intros ([key t] & Hin & Hk). apply list_elem_of_In, elem_of_map_to_list in Hin.
    exists key. split; [|done]. apply elem_of_dom. eauto.
  - intros (key & [t Ht]%elem_of_dom & Hk). exists (key, t). split; [|done].
    by apply list_elem_of_In, elem_of_map_to_list.
Qed.

Lemma resolve_incidents kind account n :
  synced n ->
  synced (resolve show_version io_ok kind account n)
  /\ incidents (resolve show_version io_ok kind account n)
     = filter (fun key => ends_with key (incident_suffix kind account) = false) (incidents n).
Proof.
  intros Hs. destruct (nstep_accepts _ _ _ (nstep_resolve n kind account) Hs) as [Hs' Ha].
  split; [done|]. cbn in Ha. by injection Ha.
Qed.

Lemma accepts_grows A labels A' key :
  Forall (fun l => match l with Queued _ => True | Resolved _ => False end) labels ->
  accepts A labels = Some A' -> key ∈ A -> key ∈ A'.
Proof.
  revert A. induction labels as [|[k|suffix] labels IH]; intros A Hl; cbn; [by intros [= ->]| |].
  - apply Forall_cons in Hl as [_ Hl]. case_bool_decide; [done|]. intros Ha Hk. eapply IH; [done|done|set_solver].
  - by apply Forall_cons in Hl as [? _].
Qed.

(** A notifier whose file can be written. *)
#[export] Program Instance notifier_incidents (now : nat -> Z) : Incidents Notifier := {|
  Notify.incident_active := is_active;
  Notify.resolve_incident := resolve show_version io_ok;
  Notify.emit := fun event n => fst (emit_event show_version sha256 event healthy now n);
  Notify.incidents_ok := synced;
|}.
Next Obligation. intros. by apply resolve_incidents. Qed.
Next Obligation.
  intros now event n Hs. destruct (emit_event show_version sha256 event healthy now n) as [n' queued] eqn:E.
  cbn beta. rewrite E.
  exact (proj1 (nstep_accepts n _ n' (nstep_emit n None event now n' queued E) Hs)).
Qed.
Next Obligation.
  intros now kind account n Hs. apply not_true_is_false. intros (key & Hin & Hk)%is_active_incidents.
  rewrite (proj2 (resolve_incidents _ _ _ Hs)), elem_of_filter in Hin. destruct Hin. congruence.
Qed.
Next Obligation.
  intros now kind kind' account n Hs Hne. apply eq_true_iff_eq. rewrite !is_active_incidents.
  rewrite (proj2 (resolve_incidents _ _ _ Hs)). setoid_rewrite elem_of_filter. split.
  - intros (key & [_ Hin] & Hk). eauto.
  - intros (key & Hin & Hk). exists key. split_and!; try done. by eapply kind_suffix_disjoint.
Qed.
Next Obligation.
  intros now event kind account n Hs. rewrite !is_active_incidents. intros (key & Hin & Hk).
  exists key. split; [|done]. destruct (emit_event show_version sha256 event healthy now n) as [n' queued] eqn:E.
  destruct (nstep_accepts _ _ _ (nstep_emit n None event now n' queued E) Hs) as [_ Ha].
  cbn. eapply accepts_grows; [|exact Ha|exact Hin]. apply Forall_fmap, Forall_forall. done.
Qed.
End Facts.

(** ** Workers *)

Lemma filter_partition {A} (f : A -> bool) (l : list A) :
  l ≡ₚ filter (fun x => f x = true) l ++ filter (fun x => f x = false) l.
Proof.
  induction l as [|x l IH]; [done|]. destruct (f x) eqn:E.
  - rewrite filter_cons_True, filter_cons_False by congruence. cbn [app]. by constructor.
  - rewrite filter_cons_False, filter_cons_True by congruence.
    rewrite <- Permutation_middle. by constructor.
Qed.

Lemma record_one now_secs delivery success attempts error history :
  exists entry, dl_target entry = wh_name (dv_target delivery)
    /\ dl_event entry = ev_kind (dv_event delivery)
    /\ record_delivery now_secs delivery success attempts error history
       = drop (length history + 1 - MAX_LOGS) (history ++ [entry]).
Proof.
  eexists. split; [|split; [|unfold record_delivery; cbv zeta; rewrite length_app; reflexivity]]; reflexivity.
Qed.

Lemma deliver_one send now_secs delivery history :
  exists entry, dl_target entry = wh_name (dv_target delivery)
    /\ dl_event entry = ev_kind (dv_event delivery)
    /\ deliver send now_secs delivery history
       = drop (length history + 1 - MAX_LOGS) (history ++ [entry]).
Proof.
  unfold deliver. cbn [deliver_from Nat.ltb Nat.leb andb].
  destruct (send 0) as [|? []]; [apply record_one| |apply record_one].
  destruct (send 1) as [|? []]; [apply record_one| |apply record_one].
  destruct (send 2); apply record_one.
Qed.

Lemma aggregate_target first others :
  dv_target (aggregate_account_events first others) = dv_target first
  /\ ev_kind (dv_event (aggregate_account_events first others)) = ev_kind (dv_event first).
Proof. by destruct others. Qed.

(** The workers lose nothing and repeat nothing.  Each round takes one
    batch out of what is pending and what has arrived, in order of arrival,
    and writes exactly one log entry for it, after at most three attempts;
    whatever is not in the batch stays for a later round, a batch only joins
    events of one kind, and the log keeps the last thousand entries. *)
Theorem worker_round_conserves send now_secs arrived channel pending history batch channel'
    pending' history' :
  worker_round send now_secs arrived channel pending history
    = (Some batch, channel', pending', history') ->
  (pending ++ channel) ++ arrived ≡ₚ (batch.1 :: batch.2) ++ pending' ++ channel'
  /\ head (pending ++ channel) = Some batch.1
  /\ batch.1 :: batch.2 `sublist_of` (pending ++ channel) ++ arrived
  /\ Forall (fun d => ev_kind (dv_event d) = ev_kind (dv_event batch.1)) batch.2
  /\ exists entry, dl_target entry = wh_name (dv_target batch.1)
       /\ dl_event entry = ev_kind (dv_event batch.1)
       /\ history' = drop (length history + 1 - MAX_LOGS) (history ++ [entry]).
Proof.
  unfold worker_round. intros H.
  assert (exists first rest1 rest2, pending ++ channel = first :: rest1 ++ rest2
    /\ (let '(b, p, c) := collect_account_event_batch (rest2 ++ arrived) rest1 first in
        (Some b, c, p, deliver send now_secs (aggregate_account_events b.1 b.2) history))
       = (Some batch, channel', pending', history')) as (first & rest1 & rest2 & Hpc & Hb).
  { destruct pending as [|first pending]; [destruct channel as [|first channel]; [done|]|].
    - by exists first, [], channel.
    - by exists first, pending, channel. }
  clear H. rewrite Hpc.
  assert (Hlog : forall b, b.1 = first ->
    exists entry, dl_target entry = wh_name (dv_target first) /\ dl_event entry = ev_kind (dv_event first)
      /\ deliver send now_secs (aggregate_account_events b.1 b.2) history
         = drop (length history + 1 - MAX_LOGS) (history ++ [entry])).
  { intros b <-. destruct (deliver_one send now_secs (aggregate_account_events b.1 b.2) history)
      as (entry & Ht & He & ->). destruct (aggregate_target b.1 b.2) as [<- <-]. by exists entry. }
  unfold collect_account_event_batch in Hb. destruct (is_none _).
  - injection Hb as <- <- <- <-. cbn [fst snd]. split_and!; try done.
    + cbn. by rewrite app_assoc.
    + cbn. apply sublist_skip, sublist_nil_l.
    + by apply (Hlog (first, [])).
  - injection Hb as <- <- <- <-. cbn [fst snd]. rewrite app_nil_r. split_and!; try done.
    + cbn. rewrite <- app_assoc. apply Permutation_cons; [done|]. apply filter_partition.
    + cbn. apply sublist_skip. rewrite <- app_assoc. apply sublist_filter.
    + apply Forall_forall. intros d [Hd _]%list_elem_of_filter.
      unfold is_matching_account_event in Hd. apply andb_prop in Hd as [Hd _].
      by apply bool_decide_eq_true in Hd.
    + by eapply (Hlog (first, _)).
Qed.

(** ** A concrete notifier *)

Definition demo_target : WebhookConfig :=
  {| wh_name := "ops"; wh_kind := "custom"; wh_url := "https://example.test"; wh_enabled := true;
     wh_events := ["quota-exhausted"]; wh_dingtalk_sign := None; wh_telegram_chat_id := None;
     wh_custom_template := None |}.

Definition demo_event : WebhookEvent :=
  {| ev_kind := AccountQuotaExhausted; ev_title := "t"; ev_message := "m";
     ev_account_id := Some "a1"; ev_timestamp := 0 |}.

Definition demo_version (v : Z) : string := "?".

Definition demo_notifier : Notifier := persistent demo_version [demo_target] 4 io_ok Missing.

Definition demo_key : string := incident_key (fun s => s) demo_target demo_event.

Definition demo_emit (n : Notifier) : Notifier * list Delivery :=
  emit_matching_inner demo_version (fun s => s) None demo_event false healthy (fun _ => 7%Z) n.

(** The second of two events in a row is suppressed. *)
Definition demo_labels : list Label :=
  [Queued demo_key] ++ [] ++ [Resolved (incident_suffix AccountQuotaExhausted (Some "a1"))]
  ++ [Queued demo_key] ++ [].

Lemma alert_once_witness :
  exists n', nrun demo_version (fun s => s) demo_notifier demo_labels n'
    /\ accepts ∅ demo_labels = Some (incidents n').
Proof.
  set (n1 := fst (demo_emit demo_notifier)). set (n2 := fst (demo_emit n1)).
  set (n3 := resolve demo_version io_ok AccountQuotaExhausted (Some "a1") n2).
  set (n4 := fst (demo_emit n3)).
  assert (Hrun : nrun demo_version (fun s => s) demo_notifier demo_labels n4).
  { unfold demo_labels. eapply nrun_step; [|eapply nrun_step; [|eapply nrun_step; [|eapply nrun_step]]].
    - change [Queued demo_key] with (queued_label (fun s => s) <$> snd (demo_emit demo_notifier)).
      apply (nstep_emit _ _ demo_notifier None demo_event (fun _ => 7%Z) n1 _). reflexivity.
    - change (@nil Label) with (queued_label (fun s => s) <$> snd (demo_emit n1)).
      apply (nstep_emit _ _ n1 None demo_event (fun _ => 7%Z) n2 _). reflexivity.
    - apply nstep_resolve.
    - change [Queued demo_key] with (queued_label (fun s => s) <$> snd (demo_emit n3)).
      apply (nstep_emit _ _ n3 None demo_event (fun _ => 7%Z) n4 _). reflexivity.
    - apply nrun_done. }
  exists n4. split; [exact Hrun|].
  refine (proj1 (proj2 (alert_once demo_version (fun s => s) demo_notifier demo_labels n4 _ Hrun))).
  intros _. reflexivity.
Defined.

Lemma worker_round_conserves_witness :
  let delivery := {| dv_target := demo_target; dv_event := demo_event |} in
  let '(batch, channel, pending, history) :=
    worker_round (fun _ => Sent) 9 [delivery] [delivery] [] [] in
  batch = Some (delivery, [delivery]) /\ channel = [] /\ pending = []
  /\ [delivery] ++ [delivery] ≡ₚ [delivery; delivery] ++ pending ++ channel.
Proof.
  cbv zeta. destruct (worker_round _ _ _ _ _ _) as [[[batch channel] pending] history] eqn:E.
  assert (H : batch = Some ({| dv_target := demo_target; dv_event := demo_event |},
                            [{| dv_target := demo_target; dv_event := demo_event |}])
              /\ channel = [] /\ pending = []) by (vm_compute in E; by simplify_eq).
  destruct H as (-> & Hc & Hp). split; [reflexivity|]. split; [exact Hc|]. split; [exact Hp|].
  exact (proj1 (worker_round_conserves _ _ _ _ _ _ _ _ _ _ E)).
Defined.
