(* ===== verification/Alerts.v ===== *)
(** * Quota alerts

    [kproxyd/src/alerts.rs], with the observations of [kproxyd/src/state.rs] it
    keeps and the account pools of services ([kproxy-core/src/config.rs]).  The
    notifier is anything that keeps the interface [Notify.Incidents]; the
    printer of amounts and the clock are arguments.  Synchronizations hold one
    lock, so each is one step. *)

From Stdlib Require Import ZArith Lia Ascii String.
From stdpp Require Import base list gmap sets strings.
From S2P Require Import Prelude RustStr F64 Account Notify.

Local Open Scope kproxy_scope.
Local Open Scope string_scope.
Local Open Scope list_scope.

Definition RECOVERY_CONFIRMATIONS : Z := 2.

(** ** Services *)

Inductive ServiceAccountTags := One (tag : string) | Many (tags : list string).

Definition tags_of (t : ServiceAccountTags) : list string :=
  match t with One tag => [tag] | Many tags => tags end.

Record ProxyServiceConfig := {
  sv_id : string;
  sv_name : string;
  sv_host : string;
  sv_port : Z;
  sv_enabled : bool;
  sv_skip_user_agent_check : bool;
  sv_api_key_ids : list string;
  sv_account_tag : option ServiceAccountTags;
  sv_account_ids : list string;
  sv_excluded_account_ids : list string;
  sv_default_provider : string;
  sv_allowed_providers : list string;
  sv_created_at : Z;
}.

Definition selected_account_tags (s : ProxyServiceConfig) : list string :=
  unwrap_or (tags_of <$> sv_account_tag s) [].

Definition uses_global_account_pool (s : ProxyServiceConfig) : bool := is_none (sv_account_tag s).

Definition includes_account (s : ProxyServiceConfig) (a : Account) : bool :=
  if bool_decide (acc_id a ∈ sv_excluded_account_ids s) then false
  else if bool_decide (acc_id a ∈ sv_account_ids s) then true
  else uses_global_account_pool s
       || existsb (fun tag => bool_decide (tag ∈ tags a)) (selected_account_tags s).

(** ** Observations *)

Record AuthoritativeUsageObservation := { ao_usage : Usage; ao_generation : Z }.

Record PendingCreditObservation := {
  po_generation : Z;
  po_state : AccountCreditState;
  po_consecutive : Z;
}.

Inductive CreditObservation :=
| ObservedUnknown
| Known (state : AccountCreditState) (usage : option Usage) (generation : option Z).

(** The part of the daemon's state alerts read and write. *)
Record AlertState (N : Type) := {
  al_notifier : N;
  al_usage : gmap string AuthoritativeUsageObservation;
  al_usage_generation : Z;
  al_pending : gmap string PendingCreditObservation;
}.
Arguments al_notifier {N} _.
Arguments al_usage {N} _.
Arguments al_usage_generation {N} _.
Arguments al_pending {N} _.

Section Alerts.
Context {N : Type} `{!Incidents N}.
Context (fmt2 : f64 -> string) (now_secs : Z).

Definition set_notifier (n : N) (s : AlertState N) : AlertState N :=
  {| al_notifier := n; al_usage := al_usage s; al_usage_generation := al_usage_generation s;
     al_pending := al_pending s |}.

Definition set_pending (p : gmap string PendingCreditObservation) (s : AlertState N) : AlertState N :=
  {| al_notifier := al_notifier s; al_usage := al_usage s;
     al_usage_generation := al_usage_generation s; al_pending := p |}.

Definition notify (f : N -> N) (s : AlertState N) : AlertState N := set_notifier (f (al_notifier s)) s.

(** The counter wraps, the generation taken from it saturates. *)
Definition record_authoritative_usage (account_id : string) (u : Usage) (s : AlertState N) :
    AlertState N :=
  {| al_notifier := al_notifier s;
     al_usage :=
       <[account_id := {| ao_usage := u;
                          ao_generation := sat_add U64_MAX (al_usage_generation s) 1 |}]> (al_usage s);
     al_usage_generation := wrap_u64 (al_usage_generation s + 1);
     al_pending := al_pending s |}.

Definition authoritative_usage (account_id : string) (s : AlertState N) :
    option AuthoritativeUsageObservation := al_usage s !! account_id.

Definition observe_credit_transition (account_id : string) (generation : Z)
    (state : AccountCreditState) (s : AlertState N) : AlertState N * Z :=
  let observation :=
    unwrap_or (al_pending s !! account_id)
      {| po_generation := generation; po_state := state; po_consecutive := 1 |} in
  if (po_generation observation =? generation)%Z
  then (set_pending (<[account_id := observation]> (al_pending s)) s, po_consecutive observation)
  else
    let consecutive :=
      if bool_decide (po_state observation = state)
      then sat_add U8_MAX (po_consecutive observation) 1 else 1%Z in
    (set_pending (<[account_id := {| po_generation := generation; po_state := state;
                                     po_consecutive := consecutive |}]> (al_pending s)) s,
     consecutive).

Definition clear_credit_transition (account_id : string) (s : AlertState N) : AlertState N :=
  set_pending (delete account_id (al_pending s)) s.

Definition transition_confirmed (account_id : string) (generation : option Z)
    (observed : AccountCreditState) (s : AlertState N) : AlertState N * bool :=
  match generation with
  | None => (s, false)
  | Some generation =>
      let '(s, n) := observe_credit_transition account_id generation observed s in
      (s, (RECOVERY_CONFIRMATIONS <=? n)%Z)
  end.

Definition at_limit (u : Usage) (config : PoolConfig) : bool :=
  let limit := effective_credit_limit u config in
  F64.gtb limit F64.zero && F64.geb (current u) limit.

Definition authoritative_credit_observation (account : Account) (config : PoolConfig)
    (upstream_exhausted : bool) (s : AlertState N) : CreditObservation :=
  let authoritative := authoritative_usage (acc_id account) s in
  let exhausted_usage :=
    opt_filter (fun u => at_limit u config) (ao_usage <$> authoritative) in
  if upstream_exhausted || (credit_exhausted account && negb (enable_overage config))
  then Known CreditExhausted exhausted_usage (ao_generation <$> authoritative)
  else
    match authoritative with
    | None => ObservedUnknown
    | Some o =>
        let observed := acc_set_credit_exhausted (acc_set_usage account (Some (ao_usage o))) false in
        Known (account_credit_state observed config) (Some (ao_usage o)) (Some (ao_generation o))
    end.

(** ** Events *)

Definition markdown_code (value : string) : string :=
  trim (replace_chars (replace_chars (replace_chars value (is_char "013") " ") (is_char "010") " ")
          (is_char "`") "'").

Definition account_event (kind : WebhookEventKind) (title message account_id : string) :
    WebhookEvent :=
  {| ev_kind := kind; ev_title := title; ev_message := message; ev_account_id := Some account_id;
     ev_timestamp := now_secs |}.

Definition account_lines (name id : string) : string :=
  "- **账号：** `" +:+ markdown_code name +:+ "`" +:+ newline
  +:+ "- **账号 ID：** `" +:+ markdown_code id +:+ "`" +:+ newline.

Definition account_quota_event (account : Account) (u : option Usage) (config : PoolConfig) :
    WebhookEvent :=
  let credit :=
    match u with
    | Some u => fmt2 (current u) +:+ " / " +:+ fmt2 (effective_credit_limit u config) +:+ " credits"
    | None => "上游已返回额度耗尽"
    end in
  account_event AccountQuotaExhausted "KProxy 账号额度耗尽"
    (account_lines (display_name account) (acc_id account)
     +:+ "- **额度：** `" +:+ credit +:+ "`" +:+ newline
     +:+ "- **影响：** 该账号已停止参与请求调度") (acc_id account).

Definition account_credit_protected_event (account : Account) (u : Usage) (config : PoolConfig) :
    option WebhookEvent :=
  let limit := effective_credit_limit u config in
  if F64.leb limit F64.zero then None else
  let remaining := F64.max (F64.sub limit (current u)) F64.zero in
  let remaining_percent :=
    F64.clamp (F64.mul (F64.div remaining limit) F64.hundred) F64.zero F64.hundred in
  Some (account_event AccountCreditProtected "KProxy 账号剩余额度保护"
    (account_lines (display_name account) (acc_id account)
     +:+ "- **额度：** " +:+ fmt2 (current u) +:+ " / " +:+ fmt2 limit +:+ " credits" +:+ newline
     +:+ "- **剩余：** " +:+ fmt2 remaining +:+ " credits（" +:+ fmt2 remaining_percent +:+ "%）"
     +:+ newline
     +:+ "- **保护阈值：** 剩余额度 ≤ " +:+ fmt2 (low_credit_min_remaining config) +:+ " credits"
     +:+ newline
     +:+ "- **影响：** 账号仍有额度，但已暂停参与请求调度，以保留最后可用额度") (acc_id account)).

Definition emit_account_quota (account : Account) (u : option Usage) (config : PoolConfig) :
    AlertState N -> AlertState N :=
  notify (emit (account_quota_event account u config)).

Definition emit_account_credit_protected (account : Account) (u : Usage) (config : PoolConfig)
    (s : AlertState N) : AlertState N :=
  match account_credit_protected_event account u config with
  | None => s
  | Some event => notify (emit event) s
  end.

Definition emit_token_refresh_failure (account_id account_name error : string) :
    AlertState N -> AlertState N :=
  notify (emit (account_event TokenRefreshFailed "KProxy 账号 Token 刷新失败"
    (account_lines account_name account_id
     +:+ "- **失败原因：** `" +:+ markdown_code error +:+ "`" +:+ newline
     +:+ "- **影响：** Token 无法自动续期，该账号可能无法继续代理请求") account_id)).

Definition resolve_token_refresh_failure (account_id : string) : AlertState N -> AlertState N :=
  notify (resolve_incident TokenRefreshFailed (Some account_id)).

(** ** Accounts *)

Definition resolve_account_credit_incidents (account_id : string) (s : AlertState N) : AlertState N :=
  notify (fun n => resolve_incident AccountQuotaExhausted (Some account_id)
                     (resolve_incident AccountCreditProtected (Some account_id) n)) s.

Definition sync_account_credit_incident (account : Account) (config : PoolConfig)
    (upstream_exhausted : bool) (s : AlertState N) : AlertState N :=
  let id := acc_id account in
  if negb (enabled account)
  then clear_credit_transition id (resolve_account_credit_incidents id s) else
  let exhausted_active := incident_active AccountQuotaExhausted (Some id) (al_notifier s) in
  let protected_active := incident_active AccountCreditProtected (Some id) (al_notifier s) in
  match authoritative_credit_observation account config upstream_exhausted s with
  | ObservedUnknown => s
  | Known CreditAvailable _ generation =>
      let '(s, confirmed) :=
        if exhausted_active || protected_active
        then transition_confirmed id generation CreditAvailable s else (s, true) in
      if negb confirmed then s
      else clear_credit_transition id (resolve_account_credit_incidents id s)
  | Known CreditProtected (Some u) generation =>
      let '(s, confirmed) :=
        if exhausted_active
        then transition_confirmed id generation CreditProtected s else (s, true) in
      if negb confirmed then s
      else
        let s := notify (resolve_incident AccountQuotaExhausted (Some id)) s in
        clear_credit_transition id (emit_account_credit_protected account u config s)
  | Known CreditExhausted u _ =>
      let s := notify (resolve_incident AccountCreditProtected (Some id)) s in
      clear_credit_transition id (emit_account_quota account u config s)
  | Known CreditProtected None _ => s
  end.

(** [account] is the pool's entry, if it has one, and its health. *)
Definition sync_account_quota (account_id : string) (account : option (Account * bool))
    (config : PoolConfig) (s : AlertState N) : AlertState N :=
  match account with
  | None => resolve_account_credit_incidents account_id s
  | Some (account, upstream_exhausted) =>
      sync_account_credit_incident account config upstream_exhausted s
  end.

(** ** Services *)

Definition SERVICE_KEY : string := "__service_quota__".

Definition is_exhausted (o : CreditObservation) : bool :=
  match o with Known CreditExhausted _ _ => true | _ => false end.
Definition is_unknown (o : CreditObservation) : bool :=
  match o with ObservedUnknown => true | _ => false end.
Definition generation_of (o : CreditObservation) : option Z :=
  match o with Known _ _ generation => generation | ObservedUnknown => None end.

Definition max_generation (gs : list Z) : option Z :=
  match gs with [] => None | g :: gs => Some (fold_left Z.max gs g) end.

(** What the loop over the services finds. *)
Record ServiceScan := {
  sc_exhausted : list (string * nat);
  sc_nonempty : bool;
  sc_authoritative : bool;
  sc_generation : option Z;
}.

Definition scan_service (config : PoolConfig) (quota_exhausted : string -> bool)
    (accounts : list Account) (s : AlertState N) (scan : ServiceScan)
    (service : ProxyServiceConfig) : ServiceScan :=
  match filter (fun a => enabled a && includes_account service a = true) accounts with
  | [] => scan
  | members =>
      let observations :=
        (fun a => authoritative_credit_observation a config (quota_exhausted (acc_id a)) s) <$> members in
      if forallb is_exhausted observations then
        {| sc_exhausted := sc_exhausted scan ++ [(trim (sv_name service), length members)];
           sc_nonempty := true; sc_authoritative := sc_authoritative scan;
           sc_generation := sc_generation scan |}
      else
        {| sc_exhausted := sc_exhausted scan; sc_nonempty := true;
           sc_authoritative :=
             sc_authoritative scan && forallb (fun o => negb (is_unknown o)) observations;
           sc_generation := max_generation (omap generation_of observations
                                              ++ option_list (sc_generation scan)) |}
  end.

Definition scan_services (config : PoolConfig) (quota_exhausted : string -> bool)
    (accounts : list Account) (s : AlertState N) (services : list ProxyServiceConfig) : ServiceScan :=
  fold_left (scan_service config quota_exhausted accounts s) services
    {| sc_exhausted := []; sc_nonempty := false; sc_authoritative := true; sc_generation := None |}.

Definition active_services (services : list ProxyServiceConfig) : list ProxyServiceConfig :=
  sort_by (fun a b => negb (bool_decide (str_cmp (to_ascii_lowercase (sv_name a))
                                                 (to_ascii_lowercase (sv_name b)) = Gt)))
    (filter (fun s => sv_enabled s && negb (is_empty (trim (sv_name s))) = true) services).

Definition service_quota_event (exhausted : list (string * nat)) : WebhookEvent :=
  let service_names :=
    join "、" ((fun '(name, count) =>
                  "`" +:+ markdown_code name +:+ "`（" +:+ show_nat count +:+ " / "
                  +:+ show_nat count +:+ "）") <$> exhausted) in
  {| ev_kind := ServiceQuotaExhausted; ev_title := "KProxy API 代理服务额度耗尽";
     ev_message :=
       "- **代理服务：** " +:+ service_names +:+ newline
       +:+ "- **账号池状态：** " +:+ show_nat (length exhausted)
       +:+ " 个服务的启用账号已全部额度耗尽" +:+ newline
       +:+ "- **影响：** 上述服务没有可用额度账号，新的 API 代理请求将被拒绝" +:+ newline
       +:+ "- **处理建议：** 补充对应账号池的额度，或向服务加入有额度的账号";
     ev_account_id := None; ev_timestamp := now_secs |}.

Definition resolve_service_quota (s : AlertState N) : AlertState N :=
  clear_credit_transition SERVICE_KEY (notify (resolve_incident ServiceQuotaExhausted None) s).

Definition sync_service_quota_inner (config : PoolConfig) (services : list ProxyServiceConfig)
    (quota_exhausted : string -> bool) (accounts : list Account) (s : AlertState N) : AlertState N :=
  match active_services services with
  | [] => resolve_service_quota s
  | services =>
      let scan := scan_services config quota_exhausted accounts s services in
      match sc_exhausted scan with
      | _ :: _ =>
          notify (emit (service_quota_event (sc_exhausted scan))) (clear_credit_transition SERVICE_KEY s)
      | [] =>
          if negb (sc_nonempty scan) then resolve_service_quota s else
          if negb (sc_authoritative scan) then s else
          let '(s, confirmed) :=
            if incident_active ServiceQuotaExhausted None (al_notifier s)
            then transition_confirmed SERVICE_KEY (sc_generation scan) CreditAvailable s
            else (s, true) in
          if negb confirmed then s else resolve_service_quota s
      end
  end.

Definition sync_quota_incidents (config : PoolConfig) (services : list ProxyServiceConfig)
    (quota_exhausted : string -> bool) (accounts : list Account) (s : AlertState N) : AlertState N :=
  let s :=
    fold_left (fun s account =>
                 sync_account_credit_incident account config (quota_exhausted (acc_id account)) s)
      accounts s in
  sync_service_quota_inner config services quota_exhausted accounts s.

(** ** Runs *)

(** An observation a synchronization of an enabled account acted on. *)
Definition Observation : Type := string * AccountCreditState * option Z.

Definition observed_by_sync (account : Account) (config : PoolConfig) (upstream_exhausted : bool)
    (s : AlertState N) : list Observation :=
  if enabled account then
    match authoritative_credit_observation account config upstream_exhausted s with
    | Known state _ generation => [(acc_id account, state, generation)]
    | ObservedUnknown => []
    end
  else [].

(** The steps of the daemon that alerts see: synchronizations, new usage from
    the quota endpoint, and whatever else happens to the notifier. *)
Inductive alstep : AlertState N -> list Observation -> AlertState N -> Prop :=
| al_sync s account config upstream_exhausted :
    acc_id account <> SERVICE_KEY ->
    alstep s (observed_by_sync account config upstream_exhausted s)
      (sync_account_credit_incident account config upstream_exhausted s)
| al_missing s account_id config : alstep s [] (sync_account_quota account_id None config s)
| al_service s config services quota_exhausted accounts :
    alstep s [] (sync_service_quota_inner config services quota_exhausted accounts s)
| al_record s account_id u : alstep s [] (record_authoritative_usage account_id u s)
| al_notifier_changed s n : alstep s [] (set_notifier n s).

Inductive alrun : AlertState N -> list Observation -> AlertState N -> Prop :=
| alrun_done s : alrun s [] s
| alrun_step s trace s1 labels s2 :
    alrun s trace s1 -> alstep s1 labels s2 -> alrun s (trace ++ labels) s2.

(** A pending recovery of an account was observed once, and no exhaustion
    since. *)
Definition pending_ok (trace : list Observation) (id : string) (o : PendingCreditObservation) :
    Prop :=
  po_consecutive o = 1%Z /\ po_state o <> CreditExhausted
  /\ exists pre post, trace = pre ++ (id, po_state o, Some (po_generation o)) :: post
       /\ forall g, (id, CreditExhausted, g) ∉ post.

Definition pendings_ok (trace : list Observation) (s : AlertState N) : Prop :=
  forall id o, id <> SERVICE_KEY -> al_pending s !! id = Some o -> pending_ok trace id o.

Lemma pending_ok_snoc trace id o label :
  pending_ok trace id o -> (forall g, label <> (id, CreditExhausted, g)) ->
  pending_ok (trace ++ [label]) id o.
Proof.
  intros (Hc & Hs & pre & post & -> & Hno) Hl. split_and!; [done..|].
  exists pre, (post ++ [label]). split; [by rewrite <- app_assoc|].
  intros g [Hin|Hin%list_elem_of_singleton]%elem_of_app; [by eapply Hno|]. by apply (Hl g).
Qed.

(** What observing a candidate state does, and when it confirms it. *)
Lemma transition_confirmed_spec trace id generation state s :
  pendings_ok trace s -> id <> SERVICE_KEY -> state <> CreditExhausted ->
  let '(s', confirmed) := transition_confirmed id generation state s in
  al_notifier s' = al_notifier s
  /\ (forall k, k <> id -> al_pending s' !! k = al_pending s !! k)
  /\ (confirmed = false -> pendings_ok (trace ++ [(id, state, generation)]) s')
  /\ (confirmed = true -> exists g old, generation = Some g /\ al_pending s !! id = Some old
        /\ po_state old = state /\ po_generation old <> g).
Proof.
  intros Hp Hid Hst. unfold transition_confirmed.
  assert (Hkeep : forall k o, k <> SERVICE_KEY -> al_pending s !! k = Some o ->
                    pending_ok (trace ++ [(id, state, generation)]) k o).
  { intros k o Hk Ho. apply pending_ok_snoc; [by apply Hp|]. intros g [= _ Hs _]. by rewrite Hs in Hst. }
  destruct generation as [g|].
  2: { split_and!; try done. }
  unfold observe_credit_transition. destruct (al_pending s !! id) as [old|] eqn:Eo; cbn [unwrap_or].
  - destruct (Hp id old Hid Eo) as (Hc & _ & _).
    destruct (po_generation old =? g)%Z eqn:Eg.
    + rewrite Hc. cbn. split_and!; try done.
      * intros k Hk. by apply lookup_insert_ne.
      * intros _ k o Hk. cbn. intros [[<- <-]|[_ Ho]]%lookup_insert_Some; by apply Hkeep.
    + apply Z.eqb_neq in Eg. case_bool_decide as Es; rewrite ?Hc; cbn; split_and!; try done.
      * intros k Hk. by apply lookup_insert_ne.
      * intros _. by exists g, old.
      * intros k Hk. by apply lookup_insert_ne.
      * intros _ k o Hk. cbn. intros [[<- <-]|[_ Ho]]%lookup_insert_Some; [|by apply Hkeep].
        split_and!; [done..|]. exists trace, []. split; [done|]. by intros g' ?%elem_of_nil.
  - cbn [po_generation po_consecutive]. rewrite Z.eqb_refl. cbn. split_and!; try done.
    + intros k Hk. by apply lookup_insert_ne.
    + intros _ k o Hk. cbn. intros [[<- <-]|[_ Ho]]%lookup_insert_Some; [|by apply Hkeep].
      split_and!; [done..|]. exists trace, []. split; [done|]. by intros g' ?%elem_of_nil.
Qed.

Lemma pendings_same trace s s' :
  (forall k, k <> SERVICE_KEY -> al_pending s' !! k = al_pending s !! k) ->
  pendings_ok trace s -> pendings_ok trace s'.
Proof. intros He Hp id o Hid Ho. rewrite He in Ho by done. by apply Hp. Qed.

(** The same observations, with the pending one of [id] cleared. *)
Lemma pendings_cleared trace id state generation s s' :
  al_pending s' !! id = None -> (forall k, k <> id -> al_pending s' !! k = al_pending s !! k) ->
  pendings_ok trace s -> pendings_ok (trace ++ [(id, state, generation)]) s'.
Proof.
  intros Hn He Hp k o Hk Ho. destruct (decide (k = id)) as [->|Hne]; [congruence|].
  rewrite He in Ho by done. apply pending_ok_snoc; [by apply Hp|]. intros g [=]. congruence.
Qed.

Lemma transition_confirmed_other id generation state s k :
  k <> id -> al_pending (fst (transition_confirmed id generation state s)) !! k = al_pending s !! k.
Proof.
  intros Hk. unfold transition_confirmed. destruct generation as [g|]; [|done].
  unfold observe_credit_transition. destruct (_ =? _)%Z; cbn; by apply lookup_insert_ne.
Qed.

Lemma service_other config services quota_exhausted accounts s k :
  k <> SERVICE_KEY ->
  al_pending (sync_service_quota_inner config services quota_exhausted accounts s) !! k
  = al_pending s !! k.
Proof.
  intros Hk. unfold sync_service_quota_inner.
  assert (Hr : forall s, al_pending (resolve_service_quota s) !! k = al_pending s !! k)
    by (intros; by apply lookup_delete_ne).
  destruct (active_services services) as [|v vs]; [apply Hr|].
  destruct (sc_exhausted _); [|by apply lookup_delete_ne].
  destruct (negb _); [apply Hr|]. destruct (negb _); [done|].
  destruct (incident_active _ _ _); cbn [negb]; [|apply Hr].
  pose proof (transition_confirmed_other SERVICE_KEY
    (sc_generation (scan_services config quota_exhausted accounts s (v :: vs))) CreditAvailable s k Hk) as Ht.
  destruct (transition_confirmed _ _ _ _) as [s' []]; cbn [negb fst] in *; [by rewrite Hr|done].
Qed.

Lemma emit_protected_pending account u config s :
  al_pending (emit_account_credit_protected account u config s) = al_pending s.
Proof. unfold emit_account_credit_protected. by case_match. Qed.

Lemma alstep_pendings trace s labels s' :
  alstep s labels s' -> pendings_ok trace s -> pendings_ok (trace ++ labels) s'.
Proof.
  destruct 1 as [s account config up Hid|s id config|s config services qe accounts|s id u|s n]; intros Hp;
    rewrite ?app_nil_r; try done.
  2: { eapply pendings_same; [|done]. intros k Hk. by apply service_other. }
  unfold observed_by_sync, sync_account_credit_incident. destruct (enabled account); cbn [negb].
  2: { rewrite app_nil_r. intros k o Hk Ho. cbn in Ho. apply lookup_delete_Some in Ho as [_ Ho]. by apply Hp. }
  set (id := acc_id account) in *.
  assert (Hclear : forall st g s1, (forall k, k <> id -> al_pending s1 !! k = al_pending s !! k) ->
    pendings_ok (trace ++ [(id, st, g)]) (clear_credit_transition id s1)).
  { intros st g s1 H1. eapply pendings_cleared; [apply lookup_delete_eq| |done].
    intros k Hk. unfold clear_credit_transition, set_pending. cbn. rewrite lookup_delete_ne by done. by apply H1. }
  destruct (authoritative_credit_observation account config up s) as [|[] u g] eqn:Eobs.
  - by rewrite app_nil_r.
  - destruct (_ || _).
    + pose proof (transition_confirmed_spec trace id g CreditAvailable s Hp Hid ltac:(done)) as Ht.
      destruct (transition_confirmed _ _ _ _) as [s1 []]; destruct Ht as (_ & Ho & Hf & _); cbn [negb]; [|by apply Hf].
      apply Hclear. intros k Hk. by apply Ho.
    + by apply Hclear.
  - destruct u as [u|].
    + destruct (incident_active _ _ _).
      * pose proof (transition_confirmed_spec trace id g CreditProtected s Hp Hid ltac:(done)) as Ht.
        destruct (transition_confirmed _ _ _ _) as [s1 []]; destruct Ht as (_ & Ho & Hf & _); cbn [negb]; [|by apply Hf].
        apply Hclear. intros k Hk. rewrite emit_protected_pending. by apply Ho.
      * apply Hclear. intros k Hk. by rewrite emit_protected_pending.
    + intros k o Hk Ho. apply pending_ok_snoc; [by apply Hp|]. done.
  - by apply Hclear.
Qed.

Lemma alrun_pendings s trace s' :
  alrun s trace s' -> pendings_ok [] s -> pendings_ok trace s'.
Proof. induction 1 as [|s trace s1 labels s2 _ IH Hstep]; [done|]. eauto using alstep_pendings. Qed.

(** An exhausted account is not declared recovered on one observation.
    Start with nothing pending and let any synchronizations, usage reports and
    notifications happen.  When synchronizing an enabled account ends its
    exhaustion incident, the quota endpoint has just reported a better state,
    an earlier synchronization had acted on the same state from a different
    report, and no synchronization in between saw the account exhausted:
    repeating a synchronization on one report never confirms anything.  This
    holds for every notifier that keeps the interface. *)
Theorem recovery_confirmed s0 trace s account config upstream_exhausted :
  al_pending s0 = ∅ -> alrun s0 trace s ->
  incidents_ok (al_notifier s) -> enabled account = true -> acc_id account <> SERVICE_KEY ->
  let id := acc_id account in
  let s' := sync_account_credit_incident account config upstream_exhausted s in
  incident_active AccountQuotaExhausted (Some id) (al_notifier s) = true ->
  incident_active AccountQuotaExhausted (Some id) (al_notifier s') = false ->
  exists state u g g' pre post,
    authoritative_credit_observation account config upstream_exhausted s = Known state u (Some g)
    /\ state <> CreditExhausted
    /\ trace = pre ++ (id, state, Some g') :: post
    /\ g' <> g
    /\ forall h, (id, CreditExhausted, h) ∉ post.
Proof.
  intros Hempty Hrun Hok Hen Hid id s' Hact Hgone.
  assert (Hp : pendings_ok trace s).
  { eapply alrun_pendings; [done|]. intros k o _ Ho. by rewrite Hempty, lookup_empty in Ho. }
  assert (Hconf : forall g state s1, transition_confirmed id g state s = (s1, true) ->
    state <> CreditExhausted ->
    exists h g' pre post, g = Some h /\ trace = pre ++ (id, state, Some g') :: post /\ g' <> h
      /\ forall h, (id, CreditExhausted, h) ∉ post).
  { intros g state s1 E Hst. pose proof (transition_confirmed_spec trace id g state s Hp Hid Hst) as Ht.
    rewrite E in Ht. destruct Ht as (_ & _ & _ & (h & old & -> & Ho & Hs & Hg)); [done|].
    destruct (Hp id old Hid Ho) as (_ & _ & pre & post & Htr & Hno). rewrite Hs in Htr.
    by exists h, (po_generation old), pre, post. }
  assert (Hsame : forall g state s1, transition_confirmed id g state s = (s1, false) ->
    al_notifier s1 = al_notifier s).
  { intros g state s1 E. revert E. unfold transition_confirmed, observe_credit_transition.
    destruct g; [|by intros [= <-]]. destruct (_ =? _)%Z; by intros [= <- _]. }
  subst s'. unfold sync_account_credit_incident in Hgone. rewrite Hen in Hgone. cbn [negb] in Hgone.
  fold id in Hgone. rewrite Hact in Hgone. cbn [orb] in Hgone.
  destruct (authoritative_credit_observation account config upstream_exhausted s) as [|[] u g] eqn:Eobs.
  - congruence.
  - destruct (transition_confirmed id g CreditAvailable s) as [s1 []] eqn:E; cbn [negb] in Hgone.
    + destruct (Hconf _ _ _ E ltac:(done)) as (h & g' & pre & post & -> & H).
      by exists CreditAvailable, u, h, g', pre, post.
    + rewrite (Hsame _ _ _ E) in Hgone. congruence.
  - destruct u as [u|]; [|congruence].
    destruct (transition_confirmed id g CreditProtected s) as [s1 []] eqn:E; cbn [negb] in Hgone.
    + destruct (Hconf _ _ _ E ltac:(done)) as (h & g' & pre & post & -> & H).
      by exists CreditProtected, (Some u), h, g', pre, post.
    + rewrite (Hsame _ _ _ E) in Hgone. congruence.
  - exfalso. cbn in Hgone.
    rewrite emit_keeps in Hgone; [done| |].
    + by apply resolve_ok.
    + by rewrite resolve_other_kind.
Qed.
End Alerts.

(** ** A concrete recovery, over the notifier of [NotifyFacts] *)

From S2P Require Import NotifyFacts.

#[local] Instance demo_incidents : Incidents Notifier :=
  notifier_incidents demo_version (fun s => s) (fun _ => 7%Z).

Definition demo_usage (used : Z) : Usage :=
  {| current := F64.of_Z used; limit := F64.hundred; overage_cap := None;
     percent_used := F64.of_Z used; next_reset_date := None; updated_at := 0 |}.

Definition demo_account : Account :=
  {| acc_id := "a1"; email := "a@example.test"; label := None; enabled := true; machine_id := "m";
     profile_arn := None; upstream_user_id := None;
     credentials :=
       {| access_token := "t"; refresh_token := None; client_id := None; client_secret := None;
          region := "us-east-1"; expires_at := 0; auth_method := Idc |};
     usage := None; subscription := None; tags := []; created_at := 0; credit_exhausted := false |}.

Definition demo_sync (s : AlertState Notifier) : AlertState Notifier :=
  sync_account_credit_incident (fun _ => "0.00") 0 demo_account PoolConfig_default false s.

Definition demo_report (used : Z) (s : AlertState Notifier) : AlertState Notifier :=
  record_authoritative_usage "a1" (demo_usage used) s.

Definition demo_start : AlertState Notifier :=
  {| al_notifier := demo_notifier; al_usage := ∅; al_usage_generation := 0; al_pending := ∅ |}.

(** Exhausted on the first report, better on the second and the third. *)
Definition demo_exhausted := demo_sync (demo_report 100 demo_start).
Definition demo_better := demo_sync (demo_report 10 demo_exhausted).
Definition demo_again := demo_report 11 demo_better.

Definition demo_trace : list Observation :=
  (((([] ++ []) ++ [("a1", CreditExhausted, Some 1%Z)]) ++ []) ++ [("a1", CreditAvailable, Some 2%Z)]) ++ [].

Definition demo_is_active (s : AlertState Notifier) : bool :=
  incident_active AccountQuotaExhausted (Some "a1") (al_notifier s).

Lemma demo_run : alrun (fun _ => "0.00") 0 demo_start demo_trace demo_again.
Proof.
  unfold demo_trace, demo_again, demo_better, demo_exhausted.
  apply alrun_step with (s1 := demo_better); [|apply al_record].
  apply alrun_step with (s1 := demo_report 10 demo_exhausted).
  2: { replace [("a1", CreditAvailable, Some 2%Z)]
         with (observed_by_sync demo_account PoolConfig_default false (demo_report 10 demo_exhausted))
         by (vm_compute; reflexivity). apply al_sync. discriminate. }
  apply alrun_step with (s1 := demo_exhausted); [|apply al_record].
  apply alrun_step with (s1 := demo_report 100 demo_start).
  2: { replace [("a1", CreditExhausted, Some 1%Z)]
         with (observed_by_sync demo_account PoolConfig_default false (demo_report 100 demo_start))
         by (vm_compute; reflexivity). apply al_sync. discriminate. }
  apply alrun_step with (s1 := demo_start); [apply alrun_done|apply al_record].
Qed.

Lemma recovery_confirmed_witness :
  demo_is_active demo_better = true
  /\ demo_is_active (demo_sync (demo_sync demo_better)) = true
  /\ demo_is_active (demo_sync demo_again) = false
  /\ exists state g g' pre post,
       demo_trace = pre ++ ("a1", state, Some g') :: post /\ g' <> g.
Proof.
  split; [vm_compute; reflexivity|]. split; [vm_compute; reflexivity|].
  split; [vm_compute; reflexivity|].
  destruct (recovery_confirmed (fun _ => "0.00") 0 demo_start demo_trace demo_again demo_account
              PoolConfig_default false) as (state & u & g & g' & pre & post & _ & _ & Htr & Hg & _).
  - reflexivity.
  - exact demo_run.
  - intros _. vm_compute. reflexivity.
  - reflexivity.
  - discriminate.
  - vm_compute. reflexivity.
  - vm_compute. reflexivity.
  - exists state, g, g', pre, post. split; [exact Htr|exact Hg].
Defined.
