(* ===== verification/Text.v ===== *)
(** * Text operations of the translators

    Further operations of [str] that the translation of client requests uses:
    splitting at strings and lines, characters, trimming of chosen characters,
    and the escaping of markup.  They work on the UTF-8 bytes, as [RustStr]
    does. *)

From Stdlib Require Import ZArith Lia Ascii String.
From stdpp Require Import base list strings.
From S2P Require Import Prelude RustStr.

Local Open Scope string_scope.
Local Open Scope list_scope.

Definition newline : string := String "010" EmptyString.

(** [format!("{n}")] of a signed integer. *)
Definition show_Z (z : Z) : string := show_padded 0 z.

Lemma str_app_assoc (s t u : string) : s +:+ (t +:+ u) = (s +:+ t) +:+ u.
Proof. induction s as [|c s IH]; [done|]. exact (f_equal (String c) IH). Qed.

(** ** Splitting *)

(** What comes before and after the first occurrence of [sep]:
    [str::split_once] with a string. *)
Fixpoint split_once_str_l (sep l : bytes) : option (bytes * bytes) :=
  match strip_prefix_l sep l with
  | Some r => Some ([], r)
  | None =>
      match l with
      | [] => None
      | a :: l => (fun '(u, v) => (a :: u, v)) <$> split_once_str_l sep l
      end
  end.

Definition split_once_str (s sep : string) : option (string * string) :=
  (fun '(u, v) => (l2s u, l2s v)) <$> split_once_str_l (s2l sep) (s2l s).

(** [str::split] with a string that is not empty.  Every piece but the last is
    followed by the separator, so the number of bytes is fuel enough. *)
Fixpoint split_str_l (fuel : nat) (sep l : bytes) : list bytes :=
  match fuel with
  | O => [l]
  | S fuel =>
      match split_once_str_l sep l with
      | None => [l]
      | Some (u, v) => u :: split_str_l fuel sep v
      end
  end.

Definition split_str (s sep : string) : list string :=
  l2s <$> split_str_l (len s) (s2l sep) (s2l s).

(** [str::rsplit_once] on an ASCII character. *)
Definition rsplit_once (s : string) (sep : ascii) : option (string * string) :=
  (fun '(u, v) => (l2s (reverse v), l2s (reverse u))) <$> split_once_l sep (reverse (s2l s)).

(** [str::lines]: split at line feeds, without the empty piece after the last
    one and without a carriage return before a line feed. *)
Definition strip_cr (l : bytes) : bytes :=
  match reverse l with
  | a :: r => if Ascii.eqb a "013" then reverse r else l
  | [] => l
  end.

Fixpoint lines_l (pieces : list bytes) : list bytes :=
  match pieces with
  | [] => []
  | [last] => match last with [] => [] | _ => [last] end
  | piece :: pieces => strip_cr piece :: lines_l pieces
  end.

Definition lines (s : string) : list string :=
  l2s <$> lines_l (split_l (fun a => Ascii.eqb a "010") (s2l s)).

(** ** Characters *)

(** The characters of a string, each as its bytes: a byte and the continuation
    bytes behind it. *)
Fixpoint chars_l (l : bytes) : list bytes :=
  match l with
  | [] => []
  | a :: l =>
      match chars_l l with
      | (b :: c) :: rest => if is_continuation b then (a :: b :: c) :: rest else [a] :: (b :: c) :: rest
      | rest => [a] :: rest
      end
  end.

Definition chars (s : string) : list bytes := chars_l (s2l s).

(** [char::is_whitespace]. *)
Definition char_is_whitespace (c : bytes) : bool :=
  match c with
  | [a] => ws1 a
  | [a; b] => ws2 a b
  | [a; b; c] => ws3 a b c
  | _ => false
  end.

(** [str::trim_matches] with a set of ASCII characters. *)
Fixpoint drop_matches (f : ascii -> bool) (l : bytes) : bytes :=
  match l with
  | a :: l' => if f a then drop_matches f l' else l
  | [] => []
  end.

Definition trim_matches (f : ascii -> bool) (l : bytes) : bytes :=
  reverse (drop_matches f (reverse (drop_matches f l))).

Lemma drop_matches_suffix f l : drop_matches f l `suffix_of` l.
Proof.
  induction l as [|a l IH]; cbn [drop_matches]; [done|]. destruct (f a); [|done]. by apply suffix_cons_r.
Qed.

Lemma drop_matches_head f l a k : drop_matches f l = a :: k -> f a = false.
Proof.
  induction l as [|b l IH]; cbn [drop_matches]; [done|]. destruct (f b) eqn:E; [done|]. by intros [= <- _].
Qed.

Lemma trim_matches_prefix f l : trim_matches f l `prefix_of` drop_matches f l.
Proof.
  unfold trim_matches. generalize (drop_matches f l). clear. intros l.
  destruct (drop_matches_suffix f (reverse l)) as [k Hk]. exists (reverse k).
  apply (f_equal reverse) in Hk. by rewrite reverse_involutive, reverse_app in Hk.
Qed.

(** Trimming leaves a piece out of the middle, which no trimmed character ends. *)
Lemma trim_matches_infix f l : exists k r, l = k ++ trim_matches f l ++ r.
Proof.
  destruct (drop_matches_suffix f l) as [k Hk]. destruct (trim_matches_prefix f l) as [r Hr].
  exists k, r. by rewrite <- Hr.
Qed.

Lemma trim_matches_ends f l a :
  head (trim_matches f l) = Some a \/ last (trim_matches f l) = Some a -> f a = false.
Proof.
  intros [H|H].
  - destruct (trim_matches_prefix f l) as [r Hr]. destruct (trim_matches f l) as [|b t]; [done|].
    injection H as ->. by eapply drop_matches_head.
  - unfold trim_matches in H. destruct (drop_matches f (reverse _)) as [|b t] eqn:E; [done|].
    rewrite reverse_cons, last_snoc in H. injection H as ->. by eapply drop_matches_head.
Qed.

(** ** Markup *)

(** How often a byte occurs. *)
Definition count_byte (a : ascii) (s : string) : nat := count_occ ascii_dec (s2l s) a.

Lemma count_byte_app a s t : count_byte a (s +:+ t) = count_byte a s + count_byte a t.
Proof. unfold count_byte. by rewrite s2l_app, count_occ_app. Qed.

Lemma replace_byte c rep l :
  replace_l [c] rep 0 l = flat_map (fun a => if Ascii.eqb c a then rep else [a]) l.
Proof.
  induction l as [|a l IH]; [done|]. cbn [replace_l strip_prefix_l flat_map].
  destruct (Ascii.eqb c a); cbn [is_some length Nat.sub]; by rewrite IH.
Qed.

(** [.replace('&', "&amp;").replace('<', "&lt;").replace('>', "&gt;")]. *)
Definition escape_angles (s : string) : string :=
  replace (replace (replace s "&" "&amp;") "<" "&lt;") ">" "&gt;".

Lemma count_replace_other a c rep s :
  a <> c -> count_byte a rep = 0 -> count_byte a (replace s (String c EmptyString) rep) = count_byte a s.
Proof.
  intros Hac Hrep. unfold count_byte, replace. rewrite s2l_l2s.
  change (s2l (String c EmptyString)) with [c]. rewrite replace_byte.
  induction (s2l s) as [|b l IH]; [done|]. cbn [flat_map]. rewrite count_occ_app, IH.
  destruct (Ascii.eqb_spec c b) as [<-|Hb].
  - unfold count_byte in Hrep. rewrite Hrep. by rewrite count_occ_cons_neq.
  - cbn [count_occ]. destruct (ascii_dec b a); lia.
Qed.

Lemma count_replace_same c rep s :
  count_byte c rep = 0 -> count_byte c (replace s (String c EmptyString) rep) = 0.
Proof.
  intros Hrep. unfold count_byte, replace. rewrite s2l_l2s.
  change (s2l (String c EmptyString)) with [c]. rewrite replace_byte.
  induction (s2l s) as [|b l IH]; [done|]. cbn [flat_map]. rewrite count_occ_app, IH, Nat.add_0_r.
  destruct (Ascii.eqb_spec c b) as [<-|Hb]; [done|]. cbn. destruct (ascii_dec b c); congruence.
Qed.

(** Escaped text opens and closes no markup. *)
Lemma escape_angles_inert s a : a = "<"%char \/ a = ">"%char -> count_byte a (escape_angles s) = 0.
Proof.
  unfold escape_angles. intros [->| ->].
  - rewrite count_replace_other by done. by apply count_replace_same.
  - by apply count_replace_same.
Qed.

(** Decimal numbers hold no markup either. *)
Lemma count_digits a fuel n acc :
  (code a < 48)%Z \/ (57 < code a)%Z -> count_byte a (digits_of fuel n acc) = count_byte a acc.
Proof.
  intros Ha. revert n acc. induction fuel as [|fuel IH]; intros n acc; cbn [digits_of]; [done|].
  assert (Hd : forall s, count_byte a (String (ascii_of_nat (48 + n mod 10)) s) = count_byte a s).
  { intros s. unfold count_byte. cbn [s2l list_ascii_of_string]. rewrite count_occ_cons_neq; [done|].
    intros <-. unfold code in Ha. rewrite nat_ascii_embedding in Ha;
      pose proof (Nat.mod_upper_bound n 10 ltac:(lia)); lia. }
  destruct (n <? 10)%nat; [apply Hd|]. rewrite IH. apply Hd.
Qed.

Lemma count_show_nat a n :
  (code a < 48)%Z \/ (57 < code a)%Z -> count_byte a (show_nat n) = 0.
Proof. intros Ha. unfold show_nat. by rewrite count_digits. Qed.

Lemma count_show_N a n :
  (code a < 48)%Z \/ (57 < code a)%Z -> count_byte a (show_N n) = 0.
Proof.
  intros Ha.
  assert (Hd : forall n s, count_byte a (String (ascii_of_N (48 + n mod 10)%N) s) = count_byte a s).
  { clear n. intros n s. unfold count_byte. cbn [s2l list_ascii_of_string].
    rewrite count_occ_cons_neq; [done|]. intros <-. unfold code, nat_of_ascii in Ha.
    pose proof (N.mod_upper_bound n 10 ltac:(lia)) as Hm. revert Ha Hm. generalize (n mod 10)%N.
    intros d Ha Hm. rewrite N_ascii_embedding, N_nat_Z in Ha by lia. lia. }
  unfold show_N. match goal with |- context [?go (N.to_nat (N.size n)) _ _] =>
    assert (H : forall fuel n acc, count_byte a (go fuel n acc) = count_byte a acc) end.
  { clear n. induction fuel as [|fuel IH]; intros n acc; [done|].
    destruct (n <? 10)%N; [apply Hd|]. rewrite IH. apply Hd. }
  destruct (n <? 10)%N; [apply (Hd n EmptyString)|]. rewrite H. apply (Hd n EmptyString).
Qed.

Lemma count_show_Z a z :
  (code a < 45)%Z \/ (57 < code a)%Z -> count_byte a (show_Z z) = 0.
Proof.
  intros Ha. unfold show_Z, show_padded. rewrite !count_byte_app, count_show_N by lia.
  cbn [Nat.sub repeat_char replicate]. change (count_byte a (repeat_char "0" 0)) with 0.
  destruct (z <? 0)%Z; [|done]. unfold count_byte. cbn [s2l list_ascii_of_string].
  rewrite Nat.add_0_r, count_occ_cons_neq; [done|]. intros <-. vm_compute in Ha. destruct Ha; discriminate.
Qed.
