(* ===== verification/Content.v ===== *)
(** * Message content

    The part of [kproxy-translate/src/translate/common.rs] that takes the
    content of a client message apart: text, images, documents, tool results and
    cache markers, and the smaller pieces of a Kiro payload.  Content blocks nest
    (a tool result holds blocks, a document can), and every function recurses on
    the JSON value itself.  Base64 and the JSON printer are arguments. *)

From Stdlib Require Import ZArith Lia Ascii String.
From stdpp Require Import base list strings.
From S2P Require Import Prelude RustStr F64 Json Text Protocol.

Local Open Scope kproxy_scope.
Local Open Scope string_scope.
Local Open Scope list_scope.

(** ** Blocks *)

(** [block.get(k).and_then(f)], in a form that recursive functions can use. *)
Definition get_then {A} (f : value -> option A) (v : value) (k : string) : option A :=
  match v with
  | Object m =>
      (fix go (m : list (string * value)) : option A :=
         match m with
         | [] => None
         | (k', w) :: m => if bool_decide (k' = k) then f w else go m
         end) m
  | _ => None
  end.

Lemma get_then_get {A} (f : value -> option A) v k : get_then f v k = get v k ≫= f.
Proof.
  destruct v as [| | | | |m]; try done. cbn. induction m as [|[k' w] m IH]; [done|]. cbn.
  by case_bool_decide.
Qed.

(** [block.get("type").and_then(Value::as_str)]. *)
Definition kind_of (block : value) : option string := get_str block "type".
Definition is_kind (kind : string) (block : value) : bool := bool_decide (kind_of block = Some kind).

(** A document whose source is a list of blocks. *)
Definition has_content_source (block : value) : bool :=
  is_kind "document" block
  && bool_decide ((pointer block ["source"; "type"] ≫= as_str) = Some "content").

(** ** Text *)

Definition system_text (system : option value) : string :=
  match system with
  | Some (Str text) => text
  | Some (Array blocks) => join newline (omap (fun block => get_str block "text") blocks)
  | _ => EmptyString
  end.

Section Json.
Context (json_string : value -> string).

Definition option_value (v : option value) : value := unwrap_or v Null.

Definition search_result_text (block : value) : string :=
  "Client-provided search result (source data):" +:+ newline
  +:+ json_string (json_object
        [("source", option_value (get block "source"));
         ("title", option_value (get block "title"));
         ("content", Array (Str <$> omap (fun part => get_str part "text")
                               (unwrap_or (get block "content" ≫= as_array) [])))]).

Definition block_text (block : value) : option string :=
  if is_kind "text" block || is_kind "thinking" block || is_kind "compaction" block
  then or_else (or_else (get block "text") (get block "thinking")) (get block "content") ≫= as_str
  else if is_kind "refusal" block then get_str block "refusal"
  else if is_kind "search_result" block then Some (search_result_text block)
  else None.

Definition content_text (content : value) : string :=
  match content with
  | Str text => text
  | Array blocks => join newline (omap block_text blocks)
  | _ => EmptyString
  end.
End Json.

(** ** Cache markers *)

Definition kiro_cache_point (control : option value) : option KiroCachePoint :=
  control ← control;
  if bool_decide (kind_of control = Some "ephemeral") then Some KiroCachePoint_new else None.

Definition merged_cache_point (first second : option KiroCachePoint) : option KiroCachePoint :=
  or_else second first.

(** [block_cache_point] and [content_cache_point], which call each other: the
    marker of a value used as content, and of one used as a block. *)
Fixpoint block_cache_point (block : value) : option KiroCachePoint :=
  let content_cache_point content :=
    match content with
    | Array blocks => last (flat_map (fun b => option_list (block_cache_point b)) blocks)
    | Object _ => kiro_cache_point (get content "cache_control")
    | _ => None
    end in
  let nested :=
    if is_kind "tool_result" block || is_kind "search_result" block
    then get_then content_cache_point block "content"
    else if has_content_source block
    then get_then (fun source => get_then content_cache_point source "content") block "source"
    else None in
  merged_cache_point nested (kiro_cache_point (get block "cache_control")).

Definition content_cache_point (content : value) : option KiroCachePoint :=
  match content with
  | Array blocks => last (omap block_cache_point blocks)
  | Object _ => kiro_cache_point (get content "cache_control")
  | _ => None
  end.

(** ** Documents *)

Definition document_format_from_media_type (media_type : string) : option string :=
  let media_type :=
    to_ascii_lowercase (trim (unwrap_or (head (split media_type (is_char ";"))) media_type)) in
  if bool_decide (media_type = "application/pdf") then Some "pdf"
  else if bool_decide (media_type ∈ ["text/csv"; "application/csv"]) then Some "csv"
  else if bool_decide (media_type ∈ ["text/markdown"; "text/x-markdown"]) then Some "md"
  else if bool_decide (media_type = "text/html") then Some "html"
  else if bool_decide (media_type = "application/msword") then Some "doc"
  else if bool_decide (media_type
         = "application/vnd.openxmlformats-officedocument.wordprocessingml.document") then Some "docx"
  else if bool_decide (media_type = "application/vnd.ms-excel") then Some "xls"
  else if bool_decide (media_type
         = "application/vnd.openxmlformats-officedocument.spreadsheetml.sheet") then Some "xlsx"
  else if starts_with media_type "text/" then Some "txt"
  else None.

Definition document_format_from_name (name : string) : option string :=
  '(_, extension) ← rsplit_once name ".";
  let extension := to_ascii_lowercase (trim extension) in
  if bool_decide (extension ∈ ["pdf"; "csv"; "md"; "html"; "txt"; "doc"; "docx"; "xls"; "xlsx"])
  then Some extension
  else if bool_decide (extension = "markdown") then Some "md"
  else if bool_decide (extension = "htm") then Some "html"
  else None.

Definition labels (block : value) : list string := omap (get_str block) ["name"; "title"].

Definition claude_document_format (block : value) : option string :=
  source ← get block "source";
  if bool_decide (get_str source "type" = Some "content") then Some "txt" else
  or_else (get_str source "media_type" ≫= document_format_from_media_type)
    (head (omap document_format_from_name (labels block))).

Definition claude_document_label (block : value) : option string :=
  find (fun name => negb (is_empty name)) (trim <$> labels block).

Definition MAX_DOCUMENT_NAME : nat := 200.

Definition is_name_byte (a : ascii) : bool :=
  is_ascii_alphanumeric a || bool_decide (a ∈ ["-"; "("; ")"; "["; "]"]%char).

(** One character of the label: the name so far and whether it ends in a space
    that stands for white space. *)
Definition name_step (st : bytes * bool) (c : bytes) : bytes * bool :=
  let '(output, previous_space) := st in
  let started := negb (bool_decide (output = [])) in
  if (MAX_DOCUMENT_NAME <=? length output)%nat then st
  else if match c with [a] => is_name_byte a | _ => false end then (output ++ c, false)
  else if char_is_whitespace c then
    if negb previous_space && started then (output ++ [" "%char], true) else st
  else if negb (bool_decide (last output = Some "-"%char)) && started
  then (output ++ ["-"%char], false) else st.

Definition strip_extension (format label : string) : string :=
  let suffix := "." +:+ format in
  let trimmed := trim label in
  if ends_with (to_ascii_lowercase trimmed) suffix
  then l2s (take (len trimmed - len suffix) (s2l trimmed)) else trimmed.

Definition neutral_document_name (label : option string) (format : string) : string :=
  let label := unwrap_or (strip_extension format <$> label) "document" in
  let '(output, _) := fold_left name_step (chars label) ([], false) in
  let output := trim_matches (fun a => bool_decide (a ∈ [" "; "-"]%char)) output in
  if bool_decide (output = []) then "document" else l2s output.

Section Base64.
Context (b64_encode : string -> string) (b64_decodes : string -> bool).

(** One block of [custom_document_text]; [image_index] counts the images seen. *)
Definition custom_block (image_index : Z) (block : value) : Z * option string :=
  if is_kind "text" block then (image_index, get_str block "text")
  else if is_kind "image" block then
    let image_index := sat_add USIZE_MAX image_index 1 in
    (image_index, Some ("[Message image " +:+ show_Z image_index +:+ "]"))
  else (image_index, None).

Fixpoint custom_blocks (image_index : Z) (blocks : list value) : Z * list string :=
  match blocks with
  | [] => (image_index, [])
  | block :: blocks =>
      let '(image_index, text) := custom_block image_index block in
      let '(image_index, rest) := custom_blocks image_index blocks in
      (image_index, option_list text ++ rest)
  end.

Definition custom_document_text (content : value) (image_index : Z) : Z * string :=
  match content with
  | Str text => (image_index, text)
  | Array blocks =>
      let '(image_index, texts) := custom_blocks image_index blocks in
      (image_index, join (newline +:+ newline) texts)
  | _ => (image_index, EmptyString)
  end.

(** The bytes of a document in base64; [custom_document_text] moves the index. *)
Definition document_bytes (source : value) (image_index : Z) : Z * option string :=
  match get_str source "type" with
  | Some "base64" =>
      (image_index, opt_filter b64_decodes (get_str source "data"))
  | Some "text" => (image_index, b64_encode <$> get_str source "data")
  | Some "content" =>
      match get source "content" with
      | None => (image_index, None)
      | Some content =>
          let '(image_index, text) := custom_document_text content image_index in
          (image_index, Some (b64_encode text))
      end
  | _ => (image_index, None)
  end%string.

Definition claude_document (block : value) (image_index : Z) : Z * option KiroDocument :=
  match get block "source" with
  | None => (image_index, None)
  | Some source =>
      let '(image_index, bytes) := document_bytes source image_index in
      (image_index,
       bytes ← bytes;
       format ← claude_document_format block;
       Some {| doc_format := format;
               doc_name := neutral_document_name (claude_document_label block) format;
               doc_bytes := bytes;
               doc_citations_enabled := pointer block ["citations"; "enabled"] ≫= as_bool |})
  end.

(** One block of [collect_claude_documents]; a tool result holds blocks. *)
Fixpoint collect_document (st : Z * list KiroDocument) (block : value) : Z * list KiroDocument :=
  let '(image_index, documents) := st in
  if is_kind "image" block then (sat_add USIZE_MAX image_index 1, documents)
  else if is_kind "document" block then
    let '(image_index, document) := claude_document block image_index in
    (image_index, documents ++ option_list document)
  else if is_kind "tool_result" block then
    unwrap_or
      (get_then (fun content =>
         match content with
         | Array blocks => Some (fold_left collect_document blocks st)
         | _ => None
         end) block "content") st
  else st.

Definition collect_claude_documents (content : value) (st : Z * list KiroDocument) :
    Z * list KiroDocument :=
  match content with Array blocks => fold_left collect_document blocks st | _ => st end.

Definition extract_documents (content : value) : list KiroDocument :=
  snd (collect_claude_documents content (0%Z, [])).

(** ** Images *)

Definition claude_image (block : value) : option KiroImage :=
  source ← get block "source";
  if negb (bool_decide (get_str source "type" = Some "base64")) then None else
  media ← get_str source "media_type";
  bytes ← opt_filter b64_decodes (get_str source "data");
  Some {| img_format := unwrap_or (strip_prefix media "image/") media; img_bytes := bytes |}.

(** The images of one block, of [collect_claude_images]. *)
Fixpoint block_images (block : value) : list KiroImage :=
  let content_images content :=
    match content with Array blocks => Some (flat_map block_images blocks) | _ => None end in
  if is_kind "image" block then option_list (claude_image block)
  else if is_kind "tool_result" block then unwrap_or (get_then content_images block "content") []
  else if has_content_source block
  then unwrap_or (get_then (fun source => get_then content_images source "content") block "source") []
  else [].

Definition collect_claude_images (content : value) : list KiroImage :=
  match content with Array blocks => flat_map block_images blocks | _ => [] end.

Definition extract_images (content : value) : list KiroImage := collect_claude_images content.
End Base64.

(** ** Document context *)

Section Context.
Context (json_string : value -> string).

Definition document_context (block : value) : option value :=
  context ← opt_filter (fun context => negb (is_empty (trim context))) (get_str block "context");
  Some (json_object
    [("document_name",
      Str (neutral_document_name (claude_document_label block)
             (unwrap_or (claude_document_format block) "txt")));
     ("context", Str context)]).

Fixpoint block_contexts (block : value) : list value :=
  if is_kind "document" block then option_list (document_context block)
  else if is_kind "tool_result" block then
    unwrap_or
      (get_then (fun content =>
         match content with Array blocks => Some (flat_map block_contexts blocks) | _ => None end)
         block "content") []
  else [].

Definition document_context_text (content : value) : string :=
  match match content with Array blocks => flat_map block_contexts blocks | _ => [] end with
  | [] => EmptyString
  | contexts =>
      "Client-provided document context (JSON; separate from document contents):" +:+ newline
      +:+ json_string (Array contexts)
  end.

(** ** Tool results *)

(** Whether a block is or holds an image. *)
Fixpoint block_has_image (block : value) : bool :=
  let content_has_image content :=
    match content with Array blocks => Some (existsb block_has_image blocks) | _ => None end in
  if is_kind "image" block then true
  else if is_kind "tool_result" block
  then unwrap_or (get_then content_has_image block "content") false
  else if has_content_source block
  then unwrap_or (get_then (fun source => get_then content_has_image source "content") block "source")
         false
  else false.

Definition content_contains_claude_image (content : value) : bool :=
  match content with Array blocks => existsb block_has_image blocks | _ => false end.

Definition result_text (block : value) : string :=
  let content := get block "content" in
  let text := unwrap_or (content_text json_string <$> content) EmptyString in
  let has_images := is_some_and content content_contains_claude_image in
  let has_documents :=
    is_some_and (content ≫= as_array) (existsb (is_kind "document")) in
  if is_empty text then
    match has_images, has_documents with
    | true, true => "(image and document results attached)"
    | true, false => "(image result attached)"
    | false, true => "(document result attached)"
    | false, false => "(empty result)"
    end
  else text.

Definition tool_result (block : value) : option KiroToolResult :=
  if negb (is_kind "tool_result" block) then None else
  tool_use_id ← get_str block "tool_use_id";
  Some {| tr_content := [{| kt_text := result_text block |}];
          tr_status :=
            if bool_decide ((get block "is_error" ≫= as_bool) = Some true) then "error" else "success";
          tr_tool_use_id := tool_use_id |}.

Definition extract_tool_results (content : value) : list KiroToolResult :=
  omap tool_result (unwrap_or (as_array content) []).
End Context.

(** ** Parts of a payload *)

Definition context (tools : list KiroTool) (tool_results : list KiroToolResult) :
    option KiroMessageContext :=
  match tools, tool_results with
  | [], [] => None
  | _, _ => Some {| ctx_tool_results := tool_results; ctx_tools := tools; ctx_env_state := None |}
  end.

Definition inference (requested : option Z) (temperature top_p : option f64) :
    option KiroInferenceConfig :=
  let max_tokens := opt_filter (fun maximum => 0 <? maximum)%Z requested in
  if is_none max_tokens && is_none temperature && is_none top_p then None
  else Some {| ic_max_tokens := max_tokens; ic_temperature := temperature; ic_top_p := top_p |}.

Definition needs_chunked_write_hint (name : string) : bool :=
  bool_decide (to_ascii_lowercase name ∈ ["write"; "edit"; "multiedit"; "notebookedit"]).

Definition CHUNKED_WRITE_HINT : string :=
  "Write/create/edit tool arguments must stay small; split large writes into chunks.".

Definition enhance_system (system : string) (chunked_write_hint : bool) : string :=
  let system :=
    if contains (to_ascii_lowercase system) "claude code" then system
    else system +:+ newline +:+ newline
         +:+ "Execute the user's request directly and use provided tools when needed." in
  let system :=
    if chunked_write_hint
       && negb (contains system "Write/create/edit tool arguments must stay small")
    then system +:+ newline +:+ newline +:+ CHUNKED_WRITE_HINT else system in
  trim system.

(** ** Images of OpenAI messages *)

Definition MAX_IMAGE_BYTES : Z := 5 * 1024 * 1024.

Definition normalize_image_format (format : string) : string :=
  let format := to_ascii_lowercase format in
  if bool_decide (format ∈ ["jpg"; "jpeg"]) then "jpeg"
  else if bool_decide (format ∈ ["png"; "gif"; "webp"]) then format
  else "png".

(** [decoded_len] is the length of what base64 text decodes to. *)
Definition openai_image (decoded_len : string -> option Z) (block : value) : option KiroImage :=
  if negb (is_kind "image_url" block) then None else
  image_url ← get block "image_url";
  url ← get_str image_url "url";
  encoded ← strip_prefix url "data:image/";
  '(format, bytes) ← split_once_str encoded ";base64,";
  n ← decoded_len bytes;
  if (MAX_IMAGE_BYTES <? n)%Z then None
  else Some {| img_format := normalize_image_format format; img_bytes := bytes |}.

Definition extract_openai_images (decoded_len : string -> option Z) (content : value) :
    list KiroImage :=
  omap (openai_image decoded_len) (unwrap_or (as_array content) []).

(** ** Document names *)

Definition safe_byte (a : ascii) : bool := is_name_byte a || Ascii.eqb a " ".

(** No two spaces in a row. *)
Definition single_spaced (l : bytes) : Prop :=
  forall k r, l <> k ++ " "%char :: " "%char :: r.

(** The name under construction. *)
Record name_ok (st : bytes * bool) : Prop := {
  no_length : length st.1 <= MAX_DOCUMENT_NAME;
  no_safe : Forall (fun a => safe_byte a = true) st.1;
  no_spaced : single_spaced st.1;
  no_space : last st.1 = Some " "%char -> st.2 = true;
}.

Lemma single_spaced_snoc l a :
  single_spaced l -> (a = " "%char -> last l <> Some " "%char) -> single_spaced (l ++ [a]).
Proof.
  intros Hl Ha k r. destruct r as [|b r _] using rev_ind.
  - intros H. change (" "%char :: [" "%char]) with ([" "%char] ++ [" "%char]) in H.
    rewrite app_assoc in H. apply app_inj_tail in H as [-> ->].
    apply Ha; [done|]. by rewrite last_snoc.
  - rewrite !app_comm_cons, app_assoc. intros [H _]%app_inj_tail. by apply (Hl k r).
Qed.

Lemma name_push st a b :
  name_ok st -> length st.1 < MAX_DOCUMENT_NAME -> safe_byte a = true ->
  (a = " "%char -> st.2 = false /\ b = true) -> name_ok (st.1 ++ [a], b).
Proof.
  intros [Hlen Hsafe Hsp Hl] Hlt Ha Hspace. split; cbn [fst snd].
  - rewrite length_app. cbn. lia.
  - apply Forall_app. by repeat constructor.
  - apply single_spaced_snoc; [done|]. intros [Hps _]%Hspace H%Hl. congruence.
  - rewrite last_snoc. intros [= ->]. by apply Hspace.
Qed.

Lemma name_step_ok st c : name_ok st -> name_ok (name_step st c).
Proof.
  destruct st as [output ps]. intros H. unfold name_step.
  destruct (MAX_DOCUMENT_NAME <=? length output)%nat eqn:Elen; [done|].
  apply Nat.leb_gt in Elen.
  assert (Hpush : forall a b, safe_byte a = true -> (a = " "%char -> ps = false /\ b = true) ->
                              name_ok (output ++ [a], b)) by (intros; by apply (name_push (output, ps))).
  destruct (match c with [a] => is_name_byte a | _ => false end) eqn:Ec.
  - destruct c as [|a [|? ?]]; try done. apply Hpush; [unfold safe_byte; by rewrite Ec|].
    intros ->. vm_compute in Ec. discriminate.
  - destruct (char_is_whitespace c).
    + destruct (negb ps && _) eqn:E; [|done]. apply andb_prop in E as [E%negb_true_iff _]. by apply Hpush.
    + destruct (_ && _); [|done]. apply Hpush; [reflexivity|done].
Qed.

Lemma name_steps_ok cs st : name_ok st -> name_ok (fold_left name_step cs st).
Proof. revert st. induction cs as [|c cs IH]; intros st H; [done|]. by apply IH, name_step_ok. Qed.

(** A document name given to Kiro is inert.  Whatever label and format the
    client sends, the name is not empty, has at most 200 bytes, all of them
    letters, digits, brackets, hyphens or spaces, has no two spaces in a row and
    neither starts nor ends with a space or a hyphen. *)
Theorem neutral_document_name_safe (label : option string) (format : string) :
  let name := s2l (neutral_document_name label format) in
  0 < length name <= MAX_DOCUMENT_NAME
  /\ Forall (fun a => safe_byte a = true) name
  /\ single_spaced name
  /\ forall a, head name = Some a \/ last name = Some a -> a <> " "%char /\ a <> "-"%char.
Proof.
  cbv zeta. unfold neutral_document_name.
  set (text := unwrap_or (strip_extension format <$> label) "document").
  destruct (fold_left name_step (chars text) ([], false)) as [output ps] eqn:E.
  assert (Hok : name_ok (output, ps)).
  { rewrite <- E. apply name_steps_ok. split; cbn; [lia|constructor|by intros [] ?|done]. }
  clear E. case_bool_decide as Hnil.
  - vm_compute s2l. unfold single_spaced. split_and!; [apply Nat.leb_le; reflexivity..| | |].
    + by repeat constructor.
    + intros k r H. repeat (destruct k as [|? k]; [discriminate|]; injection H as _ H).
      by destruct k.
    + intros a [[= <-]|[= <-]]; done.
  - rewrite s2l_l2s. set (f := fun a => bool_decide (a ∈ [" "; "-"]%char)) in *.
    destruct (trim_matches_infix f output) as (k & r & Hkr). destruct Hok as [Hlen Hsafe Hsp _].
    cbn [fst] in *. rewrite Hkr in Hlen, Hsafe. split_and!.
    + destruct (trim_matches f output); [done|cbn; lia].
    + rewrite !length_app in Hlen. lia.
    + apply Forall_app in Hsafe as [_ [Hs _]%Forall_app]. exact Hs.
    + intros k' r' H. apply (Hsp (k ++ k') (r' ++ r)). rewrite Hkr, H. by rewrite <- !app_assoc.
    + intros a Ha. assert (Hf : f a = false) by by apply (trim_matches_ends f output).
      apply bool_decide_eq_false_1 in Hf. split; intros ->; apply Hf; repeat constructor.
Qed.
