(* ===== verification/TranslateFacts.v ===== *)
(** * What the translation of a Claude request keeps

    The history of the payload alternates between user and assistant; no tool
    call, tool result or image of the client's conversation is lost, invented or
    reordered; and a conversation that meets Claude's contract for tools becomes
    a payload that meets Kiro's without any repair. *)

From Stdlib Require Import ZArith Lia Ascii String Sorting.Sorted.
From stdpp Require Import base list gmap sets strings.
From S2P Require Import Prelude RustStr F64 Json Text Protocol Model ToolHistory ToolHistoryFacts.
From S2P Require Import Context ToolNames ToolSearch AutoContinue WebSearch Content Translate.

Local Open Scope kproxy_scope.
Local Open Scope string_scope.
Local Open Scope list_scope.

Lemma omap_bind {A B} (f : A -> option B) l : omap f l = l ≫= fun x => option_list (f x).
Proof.
  induction l as [|x l IH]; [done|]. rewrite bind_cons, <- IH. cbn. by destruct (f x).
Qed.

(** ** Well-formed conversations *)

Definition content_ok (m : ClaudeMessage) : Prop :=
  match cm_content m with Str _ | Array _ => True | _ => False end.

Definition role_ok (m : ClaudeMessage) : Prop :=
  cm_role m = "user" \/ cm_role m = "assistant" \/ cm_role m = "system".

(** What the blocks of the messages of one role hold. *)
Definition gather {A} (role : string) (g : value -> list A) (messages : list ClaudeMessage) : list A :=
  messages ≫= fun m => if bool_decide (cm_role m = role) then message_blocks m ≫= g else [].

(** A text block as the translation makes it of a plain string. *)
Definition plain_block (text : string) : value := json_object [("type", Str "text"); ("text", Str text)].

Section Gather.
Context {A : Type} (g : value -> list A) (Hg : forall text, g (plain_block text) = []).

Lemma blocks_gathered m :
  content_ok m -> content_as_blocks (cm_content m) ≫= g = message_blocks m ≫= g.
Proof.
  unfold content_ok, message_blocks, content_as_blocks. destruct (cm_content m); try done.
  intros _. cbn [mbind list_bind as_array unwrap_or]. fold (plain_block s). by rewrite Hg.
Qed.

Lemma merge_gathered previous m :
  content_ok previous -> content_ok m ->
  content_ok (merge_message previous m)
  /\ message_blocks (merge_message previous m) ≫= g
     = (message_blocks previous ≫= g) ++ (message_blocks m ≫= g).
Proof.
  intros Hp Hm. split; [done|]. unfold message_blocks at 1. cbn [merge_message cm_content as_array
    merge_claude_content unwrap_or]. by rewrite bind_app, !blocks_gathered.
Qed.

Lemma normalize_gathered role previous messages :
  content_ok previous -> Forall content_ok messages ->
  gather role g (normalize_from previous messages) = gather role g (previous :: messages).
Proof.
  intros Hp Hms. revert previous Hp. induction Hms as [|m messages Hm _ IH]; intros previous Hp; [done|].
  cbn [normalize_from]. case_bool_decide as Hrole.
  - destruct (merge_gathered _ _ Hp Hm) as [Hok Hb]. rewrite IH by done.
    unfold gather. cbn [mbind list_bind]. cbn [cm_role merge_message]. rewrite <- Hrole, Hb.
    case_bool_decide; [|done]. by rewrite app_assoc.
  - unfold gather in *. cbn [mbind list_bind]. f_equal. by apply IH.
Qed.

Lemma non_system_gathered role messages :
  role <> "system" ->
  gather role g (filter (fun m => cm_role m <> "system") messages) = gather role g messages.
Proof.
  intros Hrole. unfold gather. induction messages as [|m messages IH]; [done|].
  rewrite filter_cons. case_decide as Hm; cbn [mbind list_bind]; [by f_equal|].
  rewrite bool_decide_false; [done|]. intros Heq. congruence.
Qed.

Lemma normalized_gathered role messages :
  role <> "system" -> Forall content_ok messages ->
  gather role g (normalized_non_system_messages messages) = gather role g messages.
Proof.
  intros Hrole Hok. rewrite <- (non_system_gathered role messages Hrole).
  assert (Hf : Forall content_ok (filter (fun m => cm_role m <> "system") messages)).
  { apply Forall_forall. intros m [_ Hm]%list_elem_of_filter. by eapply Forall_forall in Hok. }
  clear Hok. unfold normalized_non_system_messages.
  destruct (filter _ messages) as [|m ms]; [done|]. apply Forall_cons in Hf as [??].
  by apply normalize_gathered.
Qed.

Lemma split_gathered role m :
  (forall block, is_kind "text" block = true -> g block = []) ->
  gather role g (split_instruction m) = gather role g [m].
Proof.
  intros Htext. unfold split_instruction. case_bool_decide as Hrole; [|done]. cbn [negb].
  destruct (cm_content m) as [| | | |blocks|] eqn:Ec; try done.
  destruct (reverse blocks) as [|block [|b rest]] eqn:Er; try done.
  destruct (_ && _) eqn:E; [|done]. apply andb_prop in E as [Hk _].
  apply (f_equal reverse) in Er. rewrite reverse_involutive, reverse_cons in Er.
  unfold gather. cbn [mbind list_bind cm_role]. rewrite Hrole. case_bool_decide; [|done].
  unfold message_blocks. cbn [cm_content as_array unwrap_or]. rewrite Ec, Er. cbn [as_array unwrap_or].
  rewrite bind_app. cbn [mbind list_bind]. rewrite Htext by done. by rewrite ?app_nil_r.
Qed.

Lemma separate_gathered role messages :
  (forall block, is_kind "text" block = true -> g block = []) ->
  gather role g (separate_compaction_instruction messages) = gather role g messages.
Proof.
  intros Htext. induction messages as [|m messages IH]; [done|].
  destruct messages as [|m' messages]; [by apply split_gathered|].
  unfold gather in *. cbn [separate_compaction_instruction mbind list_bind] in *. by rewrite IH.
Qed.
End Gather.

Lemma turns_gathered {A} (g : value -> list A) role r options :
  (forall block, is_kind "text" block = true -> g block = []) ->
  role <> "system" -> Forall content_ok (rq_messages r) ->
  gather role g (turns r options) = gather role g (rq_messages r).
Proof.
  intros Htext Hrole Hok.
  assert (Hplain : forall text, g (plain_block text) = []) by (intros; by apply Htext).
  unfold turns. destruct (op_separate_compaction_instruction options);
    rewrite ?separate_gathered by done; by apply normalized_gathered.
Qed.


(** ** The parts of a payload *)

Lemma adaptive_state payload schema enabled :
  let p := fst (apply_adaptive_thinking payload schema enabled) in
  p_conversation_state p = p_conversation_state payload
  /\ p_protected_history_messages p = p_protected_history_messages payload.
Proof.
  unfold apply_adaptive_thinking. cbn zeta. destruct (should_enable_thinking _ _) as [[] ?]; [|done].
  cbn [negb]. by destruct (native_thinking_fields _ _ _) as [[? ?]|].
Qed.

Definition history_results (p : KiroPayload) : list KiroToolResult :=
  history p ≫= fun item => match hm_user item with Some u => results_of u | None => [] end.
Definition history_images (p : KiroPayload) : list KiroImage :=
  history p ≫= fun item => match hm_user item with Some u => um_images u | None => [] end.
Definition current_message (p : KiroPayload) : KiroUserInputMessage :=
  cs_current_message (p_conversation_state p).

(** No instruction is split off, so that the history ends before the user's turn. *)
Definition nothing_split (r : ClaudeRequest) (options : TranslationOptions) : bool :=
  (length (turns r options) =? length (normalized_non_system_messages (rq_messages r)))%nat.

Section Payload.
Context (sha256 : string -> string) (json_string : value -> string)
        (json_pretty : list value -> string)
        (b64_encode : string -> string) (b64_decodes : string -> bool).
Context `{ReplayPrimitives}.
Context (continuation_id conversation_id : string) (tool_names : ToolNameRegistry).
Context (r : ClaudeRequest) (options : TranslationOptions).

Definition payload : KiroPayload :=
  claude_to_kiro sha256 json_string json_pretty b64_encode b64_decodes continuation_id
    conversation_id tool_names r options.

Definition payload_tools : list KiroTool :=
  translate_tools sha256 json_pretty options tool_names (claude_loaded_tools r).

Definition request_context : TurnContext :=
  {| tx_options := options; tx_tools := payload_tools; tx_completed := completed_server_tool_ids r;
     tx_names := tool_names; tx_official := official_from_request r |}.

Definition projected : list KiroHistoryMessage * KiroUserInputMessage :=
  project sha256 json_string b64_encode b64_decodes request_context (initial_current options)
    (turns r options).

Lemma payload_parts : exists system cache_point env,
  current_message payload = finish_current r options payload_tools env (snd projected)
  /\ (history payload, p_protected_history_messages payload)
     = inject_system (sanitize_history (fst projected) options) system cache_point options.
Proof.
  unfold payload, claude_to_kiro. destruct (client_system json_string r options) as [system cp].
  set (prompt := system_prompt _ _ _ _ _ _ _). fold payload_tools request_context projected.
  exists prompt, cp, (parse_env_state system). clearbody prompt.
  destruct projected as [h c]. cbn [fst snd].
  destruct (inject_system (sanitize_history h options) prompt cp options) as [h' n].
  unfold current_message, history.
  match goal with |- context [apply_adaptive_thinking ?p ?s ?b] =>
    destruct (adaptive_state p s b) as [-> ->] end.
  done.
Qed.

(** The messages put in front of the conversation hold no tool call, no result
    and no image. *)
Lemma payload_history {A} (f : KiroHistoryMessage -> list A) :
  (forall text cp, f (user_item (user_message text [] [] [] cp options)) = []) ->
  f (assistant_item {| am_content := SYSTEM_PROMPT_ACKNOWLEDGEMENT; am_cache_point := None;
                       am_tool_uses := [] |}) = [] ->
  history payload ≫= f = fst projected ≫= f.
Proof.
  intros Hu Ha. destruct payload_parts as (system & cp & env & _ & Hh). revert Hh.
  assert (Hs : sanitize_history (fst projected) options ≫= f = fst projected ≫= f).
  { unfold sanitize_history. destruct (fst projected) as [|item h]; [done|].
    destruct (hm_assistant item); [|done]. cbn [is_some]. rewrite bind_cons, Hu. done. }
  rewrite <- Hs. unfold inject_system. destruct (is_empty _); intros [= -> _]; [done|].
  by rewrite !bind_cons, Hu, Ha.
Qed.

Lemma payload_current_results : results_of (current_message payload) = results_of (snd projected).
Proof.
  destruct payload_parts as (system & cp & env & -> & _).
  unfold results_of, finish_current. cbn [um_context].
  destruct (um_context (snd projected)) as [c|]; cbn [or_else].
  - by destruct (is_some env).
  - unfold context. destruct payload_tools; cbn; by destruct (is_some env).
Qed.

Lemma payload_current_images : um_images (current_message payload) = um_images (snd projected).
Proof. by destruct payload_parts as (system & cp & env & -> & _). Qed.

(** ** What the loop over the messages keeps *)

Lemma project_uses tx current messages :
  fst (project sha256 json_string b64_encode b64_decodes tx current messages) ≫= item_uses
  = gather "assistant" (fun block => option_list
      (history_tool_use sha256 (tx_completed tx) (tx_names tx) (tx_official tx) block)) messages.
Proof.
  unfold gather. induction messages as [|m messages IH]; [done|]. cbn [project].
  rewrite bind_cons. revert IH. case_bool_decide as Hu.
  - rewrite (bool_decide_false (_ = "assistant")) by congruence. cbn [app].
    destruct messages as [|m' messages]; [done|].
    destruct (project sha256 json_string b64_encode b64_decodes tx current (m' :: messages)) as [h c]. cbn [fst]. by rewrite bind_cons.
  - destruct (project sha256 json_string b64_encode b64_decodes tx current messages) as [h c]. cbn [fst]. intros IH.
    case_bool_decide; cbn [fst]; [|done]. rewrite bind_cons, <- IH. f_equal.
    unfold item_uses, assistant_turn. cbn. by rewrite omap_bind.
Qed.

Lemma project_user {A} (f : KiroUserInputMessage -> list A) (g : value -> list A) tx current messages :
  f current = [] ->
  (forall m, f (user_turn json_string b64_encode b64_decodes tx m) = message_blocks m ≫= g) ->
  (forall m, f (current_turn json_string b64_encode b64_decodes tx m) = message_blocks m ≫= g) ->
  (fst (project sha256 json_string b64_encode b64_decodes tx current messages)
     ≫= fun item => match hm_user item with Some u => f u | None => [] end)
  ++ f (snd (project sha256 json_string b64_encode b64_decodes tx current messages))
  = gather "user" g messages.
Proof.
  intros Hc Hf Hf'. unfold gather. induction messages as [|m messages IH]; [done|].
  cbn [project]. rewrite bind_cons. revert IH. case_bool_decide as Hu.
  - destruct messages as [|m' messages].
    + intros _. cbn [fst snd]. by rewrite Hf', app_nil_r.
    + destruct (project sha256 json_string b64_encode b64_decodes tx current (m' :: messages)) as [h c]. cbn [fst snd]. intros IH.
      rewrite bind_cons. cbn [hm_user user_item]. by rewrite Hf, <- app_assoc, IH.
  - destruct (project sha256 json_string b64_encode b64_decodes tx current messages) as [h c]. cbn [fst snd]. intros <-.
    case_bool_decide; cbn [fst snd]; [|done]. by rewrite bind_cons.
Qed.

(** ** The roles of the history *)

Definition item_role (item : KiroHistoryMessage) : option bool :=
  match hm_user item, hm_assistant item with
  | Some _, None => Some true
  | None, Some _ => Some false
  | _, _ => None
  end.

(** Whose turn it is after the items, when they alternate: the user's, if [true]. *)
Fixpoint turn_after (user : bool) (items : list KiroHistoryMessage) : option bool :=
  match items with
  | [] => Some user
  | item :: items =>
      if bool_decide (item_role item = Some user) then turn_after (negb user) items else None
  end.

Definition side (m : ClaudeMessage) : bool := bool_decide (cm_role m = "user").

Fixpoint alternating (user : bool) (messages : list ClaudeMessage) : bool :=
  match messages with
  | [] => true
  | m :: messages => Bool.eqb (side m) user && alternating (negb user) messages
  end.

Definition speaks (m : ClaudeMessage) : Prop := cm_role m = "user" \/ cm_role m = "assistant".

Lemma speaks_differ m m' : speaks m -> speaks m' -> cm_role m <> cm_role m' -> side m' = negb (side m).
Proof. unfold speaks, side. intros [-> | ->] [-> | ->]; done. Qed.

Lemma normalize_alternating previous messages :
  speaks previous -> Forall speaks messages ->
  alternating (side previous) (normalize_from previous messages) = true
  /\ Forall speaks (normalize_from previous messages).
Proof.
  intros Hp Hms. revert previous Hp. induction Hms as [|m messages Hm _ IH]; intros previous Hp.
  { cbn. rewrite Bool.eqb_reflx. split; [done|by constructor]. }
  cbn [normalize_from]. case_bool_decide as Hrole.
  - by apply (IH (merge_message previous m)).
  - destruct (IH m Hm) as [Ha Hs]. cbn [alternating]. rewrite Bool.eqb_reflx.
    rewrite <- (speaks_differ previous m) by done. split; [done|by constructor].
Qed.

Lemma normalized_alternating :
  Forall role_ok (rq_messages r) ->
  let messages := normalized_non_system_messages (rq_messages r) in
  (exists user, alternating user messages = true) /\ Forall speaks messages.
Proof.
  intros Hok. unfold normalized_non_system_messages.
  assert (Hf : Forall speaks (filter (fun m => cm_role m <> "system") (rq_messages r))).
  { apply Forall_forall. intros m [Hne Hm]%list_elem_of_filter.
    rewrite Forall_forall in Hok. destruct (Hok m Hm) as [?|[?|?]]; [by left|by right|done]. }
  destruct (filter _ (rq_messages r)) as [|m ms]; [split; [by exists true|done]|].
  apply Forall_cons in Hf as [Hm Hms]. destruct (normalize_alternating m ms Hm Hms).
  split; [by exists (side m)|done].
Qed.

(** An instruction that is split off stands behind the user's turn it was part of. *)
Lemma separate_shape messages :
  separate_compaction_instruction messages = messages
  \/ exists front m a b, messages = front ++ [m]
       /\ separate_compaction_instruction messages = front ++ [a; b]
       /\ cm_role m = "user" /\ cm_role a = "user" /\ cm_role b = "user".
Proof.
  induction messages as [|m messages IH]; [by left|]. destruct messages as [|m' messages].
  - cbn [separate_compaction_instruction]. unfold split_instruction.
    destruct (bool_decide (cm_role m = "user")) eqn:Hrole; cbn [negb]; [|by left].
    apply bool_decide_eq_true in Hrole. destruct (cm_content m); try by left.
    destruct (reverse _) as [|block [|b rest]]; try by left. destruct (_ && _); [|by left].
    right. exists [], m. eexists _, _. split_and!; done.
  - change (separate_compaction_instruction (m :: m' :: messages))
      with (m :: separate_compaction_instruction (m' :: messages)).
    destruct IH as [->|(front & m1 & a & b & -> & -> & Hroles)]; [by left|].
    right. by exists (m :: front), m1, a, b.
Qed.

Lemma project_split tx current user front m a b :
  alternating user (front ++ [m]) = true -> Forall speaks (front ++ [m]) ->
  cm_role m = "user" -> cm_role a = "user" -> cm_role b = "user" ->
  let h := fst (project sha256 json_string b64_encode b64_decodes tx current (front ++ [a; b])) in
  turn_after user h = Some false /\ h <> [].
Proof.
  intros Ha Hs Hm Hra Hrb. revert user Ha Hs; induction front as [|x front IH]; intros user Ha Hs.
  - cbn [app alternating] in Ha. unfold side in Ha. rewrite Hm in Ha.
    destruct user; [|done]. cbn [app project]. by rewrite Hra, Hrb.
  - cbn [app alternating] in Ha, Hs. apply andb_prop in Ha as [Hu%Bool.eqb_prop Ha].
    apply Forall_cons in Hs as [Hx Hs]. destruct (IH _ Ha Hs) as [IH' _]. revert IH'.
    assert (Hne : front ++ [a; b] <> []) by (by destruct front).
    cbn [app project]. destruct (front ++ [a; b]) as [|y rest]; [done|].
    unfold side in Hu. case_bool_decide as Hrole; subst user;
      destruct (project _ _ _ _ tx current (y :: rest)) as [h c]; intros IH'; [done|].
    destruct Hx as [?|Hx]; [done|]. by rewrite (bool_decide_true (cm_role x = "assistant")).
Qed.

Lemma project_turns tx current user messages :
  alternating user messages = true -> Forall speaks messages -> messages <> [] \/ user = true ->
  turn_after user (fst (project sha256 json_string b64_encode b64_decodes tx current messages))
  = Some true.
Proof.
  intros Ha Hs. revert user Ha. induction Hs as [|m messages Hm Hms IH]; intros user Ha.
  { by intros [? | ->]. }
  cbn [alternating] in Ha. apply andb_prop in Ha as [Hu%Bool.eqb_prop Ha]. intros _.
  unfold side in Hu. cbn [project]. case_bool_decide as Hrole; subst user.
  - destruct messages as [|m' messages]; [done|].
    specialize (IH false Ha ltac:(by left)). revert IH.
    destruct (project _ _ _ _ tx current (m' :: messages)) as [h c]. done.
  - specialize (IH true Ha (or_intror eq_refl)). revert IH.
    destruct Hm as [?|Hm]; [done|]. rewrite (bool_decide_true (cm_role m = "assistant")) by done.
    destruct (project _ _ _ _ tx current messages) as [h c]. done.
Qed.

Lemma turns_shape :
  let messages := normalized_non_system_messages (rq_messages r) in
  (turns r options = messages /\ nothing_split r options = true)
  \/ nothing_split r options = false
     /\ exists front m a b, messages = front ++ [m] /\ turns r options = front ++ [a; b]
       /\ cm_role m = "user" /\ cm_role a = "user" /\ cm_role b = "user".
Proof.
  intros messages. unfold nothing_split. fold messages. unfold turns. fold messages.
  destruct (op_separate_compaction_instruction options); [|left; by rewrite Nat.eqb_refl].
  destruct (separate_shape messages) as [->|(front & m & a & b & -> & -> & Hroles)]; [left; by rewrite Nat.eqb_refl|].
  right. split; [|by exists front, m, a, b]. rewrite !length_app. cbn. apply Nat.eqb_neq. lia.
Qed.

Lemma turns_after :
  Forall role_ok (rq_messages r) ->
  (turns r options = [] /\ nothing_split r options = true)
  \/ exists user, turn_after user (fst projected) = Some (nothing_split r options)
                 /\ (fst projected = [] -> nothing_split r options = true).
Proof.
  intros Hok. destruct (normalized_alternating Hok) as [[user Ha] Hs]. unfold projected.
  destruct turns_shape as [[-> ->]|(-> & front & m & a & b & Hm & -> & ? & ? & ?)].
  - destruct (normalized_non_system_messages _) as [|m ms]; [by left|]. right. exists user.
    split; [|done]. apply project_turns; [done..|by left].
  - right. exists user. rewrite Hm in Ha, Hs.
    edestruct (project_split request_context (initial_current options) user front m a b) as [Hturn Hne]; done.
Qed.

Lemma turns_alternating :
  nothing_split r options = true -> Forall role_ok (rq_messages r) ->
  (exists user, alternating user (turns r options) = true) /\ Forall speaks (turns r options).
Proof.
  intros Hn Hok. destruct turns_shape as [[-> _]|[? _]]; [by apply normalized_alternating|congruence].
Qed.
End Payload.

(** The history alternates from the user on, behind the system prompt. *)
Lemma claude_history_alternates sha256 json_string json_pretty b64_encode b64_decodes
    `{ReplayPrimitives} continuation_id conversation_id tool_names r options :
  Forall role_ok (rq_messages r) ->
  let p := claude_to_kiro sha256 json_string json_pretty b64_encode b64_decodes continuation_id
             conversation_id tool_names r options in
  turn_after true (history p) = Some (nothing_split r options)
  /\ (p_protected_history_messages p = 0
      \/ p_protected_history_messages p = 2 /\ exists prompt cache_point rest,
           is_empty (trim prompt) = false
           /\ history p = user_item (user_message (trim prompt) [] [] [] cache_point options)
                :: assistant_item {| am_content := SYSTEM_PROMPT_ACKNOWLEDGEMENT;
                                     am_cache_point := None; am_tool_uses := [] |} :: rest).
Proof.
  intros Hok p.
  destruct (payload_parts sha256 json_string json_pretty b64_encode b64_decodes continuation_id
    conversation_id tool_names r options) as (prompt & cp & env & _ & Hh).
  unfold payload in Hh. fold p in Hh. set (h := fst (projected _ _ _ _ _ _ _ _)) in Hh.
  assert (Hproj : turn_after true (sanitize_history h options) = Some (nothing_split r options)).
  { destruct (turns_after sha256 json_string json_pretty b64_encode b64_decodes tool_names r options Hok)
      as [[Et Hn]|(user & Hu & Hempty)].
    { subst h. unfold projected. by rewrite Et, Hn. }
    fold h in Hu, Hempty.
    destruct h as [|item h]; [by rewrite Hempty|]. clear Hempty. revert Hu. unfold sanitize_history.
    cbn [turn_after]. case_bool_decide as Hi; [|done]. intros Hu.
    unfold item_role in Hi. destruct (hm_user item) eqn:E1, (hm_assistant item) eqn:E2; try done;
      cbn [is_some]; cbn [turn_after]; unfold item_role; rewrite E1, E2; simplify_eq; done. }
  revert Hh. unfold inject_system. destruct (is_empty (trim prompt)) eqn:Ep; intros [= -> ->].
  - split; [done|by left].
  - split; [done|]. right. split; [done|]. exists prompt, cp. eauto.
Qed.

(** ** Calls, results and images *)

Lemma is_kind_other kind kind' block :
  is_kind kind block = true -> kind <> kind' -> is_kind kind' block = false.
Proof.
  unfold is_kind. intros H%bool_decide_eq_true Hne. apply bool_decide_eq_false. congruence.
Qed.

Ltac other_kinds H :=
  rewrite ?(is_kind_other _ "tool_use" _ H), ?(is_kind_other _ "server_tool_use" _ H),
    ?(is_kind_other _ "tool_result" _ H), ?(is_kind_other _ "image" _ H),
    ?(is_kind_other _ "document" _ H) by done.

(** No call, result or image of the conversation is lost, added or moved. *)
Lemma claude_calls_results_kept sha256 json_string json_pretty b64_encode b64_decodes
    `{ReplayPrimitives} continuation_id conversation_id tool_names r options :
  Forall content_ok (rq_messages r) ->
  let p := claude_to_kiro sha256 json_string json_pretty b64_encode b64_decodes continuation_id
             conversation_id tool_names r options in
  history_uses p
  = gather "assistant" (fun block => option_list (history_tool_use sha256
      (completed_server_tool_ids r) tool_names (official_from_request r) block)) (rq_messages r)
  /\ history_results p ++ results_of (current_message p)
     = gather "user" (fun block => option_list (tool_result json_string block)) (rq_messages r)
  /\ history_images p ++ um_images (current_message p)
     = gather "user" (block_images b64_decodes) (rq_messages r).
Proof.
  intros Hok p.
  assert (Hp : p = payload sha256 json_string json_pretty b64_encode b64_decodes continuation_id
    conversation_id tool_names r options) by done.
  rewrite Hp. split_and!.
  - unfold history_uses. rewrite payload_history by done. unfold projected.
    rewrite project_uses. apply turns_gathered; [|done..].
    intros block Hb. unfold history_tool_use. other_kinds Hb. done.
  - unfold history_results. rewrite payload_history, payload_current_results by done.
    unfold projected. rewrite (project_user _ _ _ _ results_of (fun block => option_list (tool_result json_string block))).
    + apply turns_gathered; [|done..]. intros block Hb. unfold tool_result. other_kinds Hb. done.
    + done.
    + intros m. rewrite <- omap_bind. unfold results_of, user_turn, user_message. cbn [um_context context].
      unfold message_blocks, extract_tool_results. by destruct (omap _ _).
    + intros m. rewrite <- omap_bind. unfold results_of, current_turn, context. cbn.
      unfold message_blocks, extract_tool_results. destruct payload_tools, (omap _ _); done.
  - unfold history_images. rewrite payload_history, payload_current_images by done.
    unfold projected. rewrite (project_user _ _ _ _ um_images (block_images b64_decodes)).
    + apply turns_gathered; [|done..]. intros block Hb. destruct block; cbn [block_images];
        unfold has_content_source; other_kinds Hb; done.
    + done.
    + intros m. cbn. unfold message_blocks, extract_images, collect_claude_images.
      by destruct (cm_content m).
    + intros m. cbn. unfold message_blocks, extract_images, collect_claude_images.
      by destruct (cm_content m).
Qed.

(** ** Names that two tools would share *)

Section Shared.
Context (sha256 : string -> string).

Lemma free_name_hashed fuel original taken nonce kiro :
  free_name sha256 fuel original true taken nonce = Some kiro ->
  exists n, kiro = collision_tool_name sha256 original n.
Proof.
  revert nonce; induction fuel as [|fuel IH]; intros nonce; cbn [free_name orb]; [done|].
  destruct (is_some _); [apply IH|]. intros [= <-]. eauto.
Qed.

(** Two tools whose names Kiro would not tell apart both get a hash. *)
Lemma shared_name_hashed fuel names registry a b :
  new sha256 fuel names = Some registry -> a ∈ names -> b ∈ names -> a <> b ->
  a <> EmptyString -> b <> EmptyString -> tool_name sha256 a = tool_name sha256 b ->
  exists n, kiro_name sha256 registry a = collision_tool_name sha256 a n.
Proof.
  intros Hnew Ha Hb Hab Hea Heb Htn.
  destruct (new_at _ _ _ _ _ Hnew Ha Hea) as (pre & post & r1 & kiro & Ho & _ & _ & Hfree & Hk).
  unfold kiro_name. rewrite Hk. cbn [unwrap_or]. revert Hfree.
  rewrite base_counts_lookup, (proj2 (Nat.ltb_lt 1 _)); [apply free_name_hashed|].
  assert (Hsub : [a; b] ⊆+ sharing sha256 (tool_name sha256 a) (originals_of names)).
  { apply NoDup_submseteq; [apply NoDup_cons; split; [by rewrite list_elem_of_singleton|apply NoDup_singleton]|].
    intros x Hx. unfold sharing. apply list_elem_of_filter. rewrite (elem_of_originals sha256).
    apply elem_of_cons in Hx as [->|Hx%list_elem_of_singleton]; [done|]. by subst x. }
  apply submseteq_length in Hsub. cbn [length] in Hsub. lia.
Qed.

Lemma show_hex_digits l : Forall (fun a => in_range 48 57 a || in_range 97 102 a = true) (s2l (show_hex l)).
Proof.
  unfold show_hex. assert (Forall (fun a => in_range 48 57 a || in_range 97 102 a = true) (s2l EmptyString))
    as H by constructor. revert H. generalize EmptyString.
  induction l as [|a l IH]; intros s Hs; cbn [fold_left]; [done|]. apply IH.
  rewrite s2l_app. apply Forall_app; split; [done|]. clear. destruct a as [[] [] [] [] [] [] [] []];
    repeat constructor.
Qed.

(** A hashed name ends in a digit of the hash. *)
Lemma collision_not_web_search original n : collision_tool_name sha256 original n <> "web_search".
Proof.
  unfold collision_tool_name, with_suffix. set (prefix := if is_empty _ then _ else _).
  set (hash := show_hex _). intros H%(f_equal s2l)%(f_equal last). rewrite !s2l_app in H.
  pose proof (show_hex_digits (take 8 (s2l (sha256 (original +:+ String "000" EmptyString
    +:+ show_nat (Z.to_nat n)))))) as Hd. fold hash in Hd.
  destruct (s2l hash) as [|x l _] eqn:E using rev_ind.
  - rewrite app_nil_r in H. change (s2l "_") with ["_"%char] in H. by rewrite last_snoc in H.
  - rewrite !app_assoc, last_snoc in H. injection H as ->.
    rewrite Forall_app, Forall_singleton in Hd. destruct Hd as [_ Hd]. vm_compute in Hd. discriminate.
Qed.
End Shared.

(** ** A conversation that pairs its calls and results *)

Section Contract.
Context (sha256 : string -> string) (json_string : value -> string)
        (json_pretty : list value -> string)
        (b64_encode : string -> string) (b64_decodes : string -> bool).
Context `{ReplayPrimitives}.
Context (r : ClaudeRequest) (options : TranslationOptions) (tool_names : ToolNameRegistry).

Let tx : TurnContext := request_context sha256 json_pretty tool_names r options.

Definition block_call (block : value) : option KiroToolUse :=
  history_tool_use sha256 (completed_server_tool_ids r) tool_names (official_from_request r) block.

(** The calls of an assistant's turn, and the results of a user's. *)
Definition turn_calls (m : ClaudeMessage) : list KiroToolUse := omap block_call (message_blocks m).
Definition turn_results (m : ClaudeMessage) : list KiroToolResult :=
  extract_tool_results json_string (cm_content m).

(** A block calls a tool by its name; a server tool is called by a block of its
    own kind. *)
Definition calls_tool (block : value) (tool : ClaudeTool) : Prop :=
  get_str block "name" = Some (ct_name tool)
  /\ (of_family "web_search" tool = true -> is_kind "server_tool_use" block = true)
  /\ (is_kind "server_tool_use" block = true ->
      matches_type_family (ct_name tool) "web_search" = true -> of_family "web_search" tool = true).

(** A call has an id, an object for input and the name of a tool on offer. *)
Definition call_ok (block : value) : Prop :=
  forall u, block_call block = Some u ->
    is_empty (trim (tu_tool_use_id u)) = false /\ is_object (tu_input u) = true
    /\ exists tool, tool ∈ claude_loaded_tools r /\ calls_tool block tool.

(** [due] are the ids of the calls of the previous turn, [used] those of all. *)
Fixpoint well_paired (due : list string) (used : gset string) (messages : list ClaudeMessage) :
    Prop :=
  match messages with
  | [] => due = []
  | m :: messages =>
      if side m then
        result_ids (turn_results m) ≡ₚ due /\ well_paired [] used messages
      else
        let ids := use_ids (turn_calls m) in
        Forall call_ok (message_blocks m) /\ NoDup ids /\ (forall id, id ∈ ids -> id ∉ used)
        /\ well_paired ids (list_to_set ids ∪ used) messages
  end.

(** What validation ensures of the tools. *)
Record tools_ok : Prop := {
  to_named : Forall (fun tool => ct_name tool <> EmptyString) (rq_tools r);
  to_unique : NoDup (ct_name <$> rq_tools r);
  to_web : Forall (fun tool => of_family "web_search" tool = true -> ct_name tool = "web_search")
             (rq_tools r);
  to_no_fetch : Forall (fun tool => of_family "web_fetch" tool = false) (rq_tools r);
}.

Context (Htools : tools_ok) (fuel : nat)
        (Hnew : new sha256 fuel (ct_name <$> rq_tools r) = Some tool_names).

Lemma registry_of_request :
  registry_ok sha256 tool_names
  /\ forall name, name ∈ (ct_name <$> rq_tools r) -> is_Some (original_to_kiro tool_names !! name).
Proof.
  destruct (new_ok _ _ _ _ Hnew) as [Hreg Hdom]. split; [done|].
  intros name Hin. apply Hdom. split; [done|]. apply list_elem_of_fmap in Hin as (tool & -> & Ht).
  destruct Htools as [Hne _ _]. rewrite Forall_forall in Hne. auto.
Qed.

Lemma loaded_sublist : claude_loaded_tools r `sublist_of` rq_tools r.
Proof.
  unfold claude_loaded_tools. repeat case_bool_decide; [apply sublist_nil_l|apply sublist_filter..].
Qed.

Lemma loaded_tool tool : tool ∈ claude_loaded_tools r -> tool ∈ rq_tools r.
Proof. intros Ht. eapply elem_of_submseteq; [done|]. apply sublist_submseteq, loaded_sublist. Qed.

Lemma no_fetch : ow_fetch (official_from_request r) = false.
Proof.
  destruct Htools as [_ _ _ Ho]. cbn. apply not_true_is_false.
  intros (tool & Hin%list_elem_of_In & Hf)%existsb_exists. rewrite Forall_forall in Ho.
  rewrite (Ho tool Hin) in Hf. done.
Qed.

(** The name Kiro knows a tool by. *)
Definition offered_name (tool : ClaudeTool) : string :=
  if of_family "web_search" tool then "web_search" else kiro_name sha256 tool_names (ct_name tool).

Lemma web_search_ok : kiro_name_ok "web_search".
Proof. split; [done|]. split; [|by vm_compute]. unfold MAX_KIRO_TOOL_NAME. vm_compute. lia. Qed.

Lemma offered_name_ok tool : kiro_name_ok (offered_name tool).
Proof.
  unfold offered_name. destruct (of_family _ _); [apply web_search_ok|].
  apply kiro_name_ok_all, registry_of_request.
Qed.

(** No other tool is offered under the name of the web search. *)
Lemma offered_name_inj x y :
  x ∈ rq_tools r -> y ∈ rq_tools r -> offered_name x = offered_name y -> ct_name x = ct_name y.
Proof.
  assert (Hweb : forall x y, x ∈ rq_tools r -> y ∈ rq_tools r ->
    of_family "web_search" x = true -> of_family "web_search" y = false ->
    kiro_name sha256 tool_names (ct_name y) = "web_search" -> ct_name x = ct_name y).
  { intros x0 y0 Hx Hy Hfx Hfy Hk. destruct (decide (ct_name x0 = ct_name y0)) as [|Hne]; [done|exfalso].
    destruct Htools as [Hnamed _ Hw _]. rewrite Forall_forall in Hw, Hnamed.
    pose proof (Hw x0 Hx Hfx) as Hxn. destruct registry_of_request as [Hreg Hdom].
    destruct (Hdom (ct_name y0)) as [k Hk2]; [apply list_elem_of_fmap; eauto|].
    assert (k = "web_search") as ->. { unfold kiro_name in Hk. rewrite Hk2 in Hk. done. }
    apply (rk_chosen sha256 _ Hreg) in Hk2 as [Ht|[n Hc]]; [|by apply (collision_not_web_search sha256 (ct_name y0) n)].
    destruct (shared_name_hashed sha256 fuel _ tool_names (ct_name y0) (ct_name x0) Hnew) as [n Hn];
      [apply list_elem_of_fmap; eauto..|congruence|auto|auto| |].
    - rewrite <- Ht, Hxn. symmetry. apply legal_tool_name, web_search_ok.
    - rewrite Hk in Hn. by apply (collision_not_web_search sha256 (ct_name y0) n). }
  intros Hx Hy. unfold offered_name.
  destruct (of_family "web_search" x) eqn:Ex, (of_family "web_search" y) eqn:Ey; intros Heq.
  - destruct Htools as [_ _ Hw _]. rewrite Forall_forall in Hw. by rewrite !Hw.
  - by apply Hweb.
  - symmetry. by apply Hweb.
  - destruct registry_of_request as [Hreg Hdom].
    destruct (Hdom (ct_name x)) as [k Hk]; [apply list_elem_of_fmap; eauto|].
    destruct (Hdom (ct_name y)) as [k' Hk']; [apply list_elem_of_fmap; eauto|].
    unfold kiro_name in Heq. rewrite Hk, Hk' in Heq. cbn in Heq. subst k'.
    apply Hreg in Hk, Hk'. congruence.
Qed.

Lemma search_kind_family tool kind :
  search_kind (ct_type tool) = Some kind -> of_family "web_search" tool = false.
Proof.
  unfold search_kind, of_family. destruct (ct_type tool) as [t|]; cbn [mbind option_bind]; [|done].
  cbn [is_some_and]. intros Hk. apply not_true_is_false. unfold matches_type_family in *.
  assert (Hp : forall base, bool_decide (t = base) || is_some_and (strip_prefix t base)
      (fun suffix => starts_with suffix "_") = true -> s2l base `prefix_of` s2l t).
  { intros base [->%bool_decide_eq_true|Hs]%orb_prop; [done|]. unfold strip_prefix in Hs.
    destruct (strip_prefix_l _ _) as [l|] eqn:E; [|done]. apply strip_prefix_l_spec in E.
    rewrite E. by apply prefix_app_r. }
  intros Hw%Hp. assert (Ht : s2l "tool" `prefix_of` s2l t).
  { destruct (bool_decide _ || _) eqn:E1 in Hk.
    - apply Hp in E1. by apply (prefix_app_l _ _ (s2l "_search_tool_regex")).
    - destruct (bool_decide _ || _) eqn:E2 in Hk; [|done]. apply Hp in E2.
      by apply (prefix_app_l _ _ (s2l "_search_tool_bm25")). }
  destruct Hw as [l1 Hw], Ht as [l2 Ht]. rewrite Hw in Ht. done.
Qed.

Lemma offered_names :
  spec_names (payload_tools sha256 json_pretty tool_names r options)
  = offered_name <$> claude_loaded_tools r.
Proof.
  destruct Htools as [_ _ _ Ho]. unfold payload_tools, translate_tools.
  assert (Hl : Forall (fun tool => of_family "web_fetch" tool = false) (claude_loaded_tools r))
    by (apply Forall_forall; intros tool Ht; rewrite Forall_forall in Ho; by apply Ho, loaded_tool).
  clear Ho. induction Hl as [|tool tools Hf _ IH]; [done|].
  rewrite bind_cons, fmap_cons, <- IH. unfold spec_names. rewrite omap_app.
  unfold translate_tool at 1, translate_definition. rewrite Hf.
  unfold tool_search_kiro_tool_named, kiro_tool, kiro_tool_named, offered_name.
  rewrite (legal_tool_name sha256 "web_search") by apply web_search_ok.
  destruct (search_kind (ct_type tool)) as [kind|] eqn:Ek.
  - apply search_kind_family in Ek as ->.
    destruct (op_enable_prompt_cache options); [destruct (kiro_cache_point (ct_cache_control tool))|];
      destruct kind; cbn [mbind option_bind]; repeat case_match; simplify_eq; done.
  - cbn [mbind option_bind].
    destruct (op_enable_prompt_cache options); [destruct (kiro_cache_point (ct_cache_control tool))|];
      (destruct (of_family "web_search" tool); repeat case_match; simplify_eq; done).
Qed.

Definition offered : gset string :=
  list_to_set (spec_names (payload_tools sha256 json_pretty tool_names r options)).

Lemma NoDup_fmap_via {A B C} (f : A -> B) (g : A -> C) (l : list A) :
  NoDup (g <$> l) -> (forall x y, x ∈ l -> y ∈ l -> f x = f y -> g x = g y) -> NoDup (f <$> l).
Proof.
  induction l as [|x l IH]; [constructor|]. rewrite !fmap_cons. intros [Hx Hnd]%NoDup_cons Hinj.
  apply NoDup_cons. split.
  - intros (y & Heq & Hy)%list_elem_of_fmap. apply Hx, list_elem_of_fmap. exists y. split; [|done].
    apply Hinj; [by left|by right|done].
  - apply IH; [done|]. intros y z Hy Hz. apply Hinj; by right.
Qed.

Lemma offered_ok :
  existsb (fun name => is_empty (trim name))
    (spec_names (payload_tools sha256 json_pretty tool_names r options)) = false
  /\ NoDup (spec_names (payload_tools sha256 json_pretty tool_names r options)).
Proof.
  rewrite offered_names. split.
  - apply not_true_is_false. intros (name & Hin & Hblank)%existsb_exists.
    apply list_elem_of_In, list_elem_of_fmap in Hin as (tool & -> & _). revert Hblank.
    pose proof (offered_name_ok tool) as Hok.
    rewrite kiro_name_trim by done. destruct Hok as [Hne _]. apply is_empty_false in Hne. congruence.
  - apply (NoDup_fmap_via offered_name ct_name).
    + eapply sublist_NoDup; [apply Htools|]. apply fmap_sublist, loaded_sublist.
    + intros x y Hx%loaded_tool Hy%loaded_tool. by apply offered_name_inj.
Qed.

Lemma block_call_name block u tool :
  block_call block = Some u -> tool ∈ rq_tools r -> calls_tool block tool ->
  tu_name u = offered_name tool.
Proof.
  unfold block_call, history_tool_use. intros Hu Ht (Hn & Hserver & Hkind). rewrite Hn in Hu.
  destruct (_ || _); [|done]. destruct (get_str block "id"); cbn [mbind option_bind] in Hu; [|done].
  injection Hu as <-. cbn [tu_name]. unfold normalize_history_tool_name, offered_name.
  rewrite no_fetch. cbn [andb]. rewrite andb_false_r.
  destruct (of_family "web_search" tool) eqn:Ef.
  - rewrite Hserver by done. destruct Htools as [_ _ Hw _]. rewrite Forall_forall in Hw.
    rewrite Hw by done. replace (ow_search (official_from_request r)) with true; [done|].
    symmetry. cbn. apply existsb_exists. exists tool. split; [by apply list_elem_of_In|done].
  - destruct (is_kind "server_tool_use" block); cbn [andb].
    + destruct (matches_type_family _ _) eqn:Em; [by specialize (Hkind eq_refl eq_refl)|].
      rewrite andb_false_r. by destruct (contains_original _ _).
    + assert (Hc : contains_original tool_names (ct_name tool) = true).
      { destruct registry_of_request as [_ Hd]. unfold contains_original.
        destruct (Hd (ct_name tool)) as [k ->]; [apply list_elem_of_fmap; eauto|done]. }
      by rewrite Hc.
Qed.

Lemma calls_good m : Forall call_ok (message_blocks m) -> Forall (good_use offered) (turn_calls m).
Proof.
  intros Hok. apply Forall_forall. intros u (block & Hb & Hu)%list_elem_of_omap.
  rewrite Forall_forall in Hok. destruct (Hok block Hb u Hu) as (Hid & Hobj & tool & Hin & Hcalls).
  pose proof (block_call_name block u tool Hu (loaded_tool _ Hin) Hcalls) as Hname.
  pose proof (offered_name_ok tool) as Hko.
  split; [done| |done|].
  - rewrite Hname, kiro_name_trim by done. destruct Hko as [Hne _]. by apply is_empty_false.
  - rewrite Hname. unfold offered. rewrite offered_names.
    apply elem_of_list_to_set, list_elem_of_fmap. by exists tool.
Qed.

Lemma results_good m :
  Forall (fun id => is_empty (trim id) = false) (result_ids (turn_results m)) ->
  Forall good_result (turn_results m).
Proof.
  rewrite !Forall_forall. intros Hids result Hr. split.
  - apply Hids. apply list_elem_of_fmap. eauto.
  - unfold turn_results, extract_tool_results in Hr.
    apply list_elem_of_omap in Hr as (block & _ & Hb). unfold tool_result in Hb.
    destruct (negb _); [done|]. destruct (get_str _ _); [|done]. injection Hb as <-. cbn.
    case_bool_decide; auto.
  - unfold turn_results, extract_tool_results in Hr.
    apply list_elem_of_omap in Hr as (block & _ & Hb). unfold tool_result in Hb.
    destruct (negb _); [done|]. destruct (get_str _ _); [|done]. by injection Hb as <-.
Qed.

(** The validator's state between two turns. *)
Record ready (user : bool) (due : list string) (used : gset string) (vs : ValidateState) : Prop := {
  rd_turn : vs_previous_was_user vs = negb user;
  rd_due : vs_previous_uses vs = due;
  rd_used : vs_all_use_ids vs = used;
  rd_results : forall id, id ∈ vs_all_result_ids vs -> id ∈ used /\ id ∉ due;
  rd_nodup : NoDup due;
  rd_sub : forall id, id ∈ due -> id ∈ used /\ is_empty (trim id) = false;
}.

Lemma results_validate user due used vs results u location :
  ready user due used vs -> results_of u = results -> result_ids results ≡ₚ due ->
  Forall good_result results ->
  validate_user_results u (vs_previous_uses vs) (vs_all_result_ids vs) location
  = Ok (list_to_set due ∪ vs_all_result_ids vs).
Proof.
  intros [_ -> _ Hres Hnd _] Hu Hperm Hgood. unfold validate_user_results. rewrite Hu.
  rewrite (proj2 (Nat.eqb_eq _ _)) by (rewrite <- Hperm; unfold result_ids; by rewrite length_fmap).
  cbn [negb]. rewrite validate_results_loop_ok; [|done|by rewrite Hperm|].
  - f_equal. apply set_eq. intros id. by rewrite !elem_of_union, !elem_of_list_to_set, Hperm.
  - intros id. rewrite Hperm, elem_of_list_to_set. intros Hid. split; [done|].
    intros [_ Hn]%Hres. done.
Qed.

Abbreviation project_turns_of messages :=
  (project sha256 json_string b64_encode b64_decodes tx (initial_current options) messages).

(** The history of a projection is accepted and the current message answers it. *)
Definition accepted (index : nat) (items : list KiroHistoryMessage) (current : KiroUserInputMessage)
    (vs : ValidateState) : Prop :=
  exists vs' all,
    validate_loop offered index items vs = Ok vs' /\ vs_previous_was_user vs' = false
    /\ validate_user_results current (vs_previous_uses vs') (vs_all_result_ids vs')
         "current message" = Ok all.

Lemma turn_results_of m :
  results_of (user_turn json_string b64_encode b64_decodes tx m) = turn_results m
  /\ results_of (current_turn json_string b64_encode b64_decodes tx m) = turn_results m
  /\ tools_of (user_turn json_string b64_encode b64_decodes tx m) = [].
Proof.
  unfold user_turn, current_turn, user_message, turn_results, context, results_of, tools_of. cbn.
  destruct (extract_tool_results _ _), payload_tools; done.
Qed.

Lemma due_good user due used vs m :
  ready user due used vs -> result_ids (turn_results m) ≡ₚ due -> Forall good_result (turn_results m).
Proof.
  intros [] Hperm. apply results_good. rewrite Hperm. apply Forall_forall. intros id Hid.
  by apply rd_sub0.
Qed.

Lemma accepted_step index item items current vs vs1 :
  validate_step offered index item vs = Ok vs1 -> accepted (S index) items current vs1 ->
  accepted index (item :: items) current vs.
Proof. intros Hs (vs' & all & Hl & ?). exists vs', all. cbn [validate_loop]. by rewrite Hs. Qed.

Lemma user_step index due used vs u results :
  ready true due used vs -> results_of u = results -> tools_of u = [] ->
  result_ids results ≡ₚ due -> Forall good_result results ->
  exists vs1, validate_step offered index (user_item u) vs = Ok vs1 /\ ready false [] used vs1.
Proof.
  intros Hr Hu Ht Hperm Hgood. unfold validate_step. cbn [hm_user hm_assistant user_item].
  pose proof Hr as [-> _ <- Hres _ Hsub]. cbn [negb]. rewrite Ht. cbn [is_nil negb].
  rewrite (results_validate true due (vs_all_use_ids vs) vs results u) by done. cbn.
  eexists; split; [done|]. split; cbn; try done; [|constructor|by intros ? ?%elem_of_nil].
  intros id [Hid%elem_of_list_to_set|Hid]%elem_of_union; split; try apply not_elem_of_nil.
  - by apply Hsub.
  - by apply Hres.
Qed.

Lemma assistant_step index due used vs a :
  ready false due used vs -> index <> 0 -> Forall (good_use offered) (am_tool_uses a) ->
  NoDup (use_ids (am_tool_uses a)) -> (forall id, id ∈ use_ids (am_tool_uses a) -> id ∉ used) ->
  exists vs1, validate_step offered index (assistant_item a) vs = Ok vs1
    /\ ready true (use_ids (am_tool_uses a)) (list_to_set (use_ids (am_tool_uses a)) ∪ used) vs1.
Proof.
  intros [Ht _ Hu Hres _ _] Hi Hgood Hnd Hfresh. unfold validate_step.
  cbn [hm_user hm_assistant assistant_item]. rewrite Ht. cbn [negb].
  rewrite (proj2 (Nat.eqb_neq index 0)) by done. cbn [orb].
  rewrite Hu, validate_assistant_uses_ok by done. cbn.
  eexists; split; [done|]. split; cbn; try done.
  - intros id Hid. destruct (Hres id Hid) as [Hused _].
    split; [by apply elem_of_union_r|]. intros Hin. by apply (Hfresh id).
  - intros id Hid. split; [by apply elem_of_union_l, elem_of_list_to_set|].
    apply list_elem_of_fmap in Hid as (u & -> & Hin).
    rewrite Forall_forall in Hgood. apply Hgood, Hin.
Qed.

Lemma project_accepted messages user due used vs index :
  ready user due used vs -> alternating user messages = true -> Forall speaks messages ->
  well_paired due used messages -> messages <> [] \/ user = true -> index <> 0 \/ user = true ->
  accepted index (fst (project_turns_of messages)) (snd (project_turns_of messages)) vs.
Proof.
  intros Hready Ha Hs. revert user due used vs index Hready Ha.
  induction Hs as [|m messages Hm Hms IH]; intros user due used vs index Hready Ha Hp Hne Hi.
  { destruct Hne as [?| ->]; [done|]. cbn in Hp. subst due. exists vs. eexists.
    split_and!; [done|by destruct Hready|]. by apply (results_validate true [] used vs []). }
  cbn [alternating] in Ha. apply andb_prop in Ha as [Hu%Bool.eqb_prop Ha]. cbn [well_paired] in Hp.
  destruct (turn_results_of m) as (Hr1 & Hr2 & Ht). unfold side in Hu, Hp.
  cbn [project]. case_bool_decide as Hrole; subst user.
  - destruct Hp as [Hperm Hp]. pose proof (due_good _ _ _ _ m Hready Hperm) as Hgood.
    destruct messages as [|m' messages].
    { exists vs. eexists. split_and!; [done|by destruct Hready|].
      by apply (results_validate true due used vs (turn_results m)). }
    destruct (user_step index due used vs _ _ Hready Hr1 Ht Hperm Hgood) as (vs1 & Hstep & Hready1).
    specialize (IH false [] used vs1 (S index) Hready1 Ha Hp ltac:(by left) ltac:(by left)).
    revert IH. destruct (project_turns_of (m' :: messages)). by apply accepted_step.
  - destruct Hm as [?|Hm]; [done|]. rewrite (bool_decide_true (cm_role m = "assistant")) by done.
    destruct Hp as (Hok & Hnd & Hfresh & Hp). destruct Hi as [Hi|?]; [|done].
    assert (Huses : am_tool_uses (assistant_turn sha256 tx m) = turn_calls m) by done.
    destruct (assistant_step index due used vs (assistant_turn sha256 tx m) Hready Hi)
      as (vs1 & Hstep & Hready1); rewrite ?Huses in *; [by apply calls_good|done..|].
    specialize (IH true _ _ vs1 (S index) Hready1 Ha Hp ltac:(by right) ltac:(by right)).
    revert IH. destruct (project_turns_of messages). by apply accepted_step.
Qed.

Lemma start_ready : ready true [] ∅ validate_start.
Proof. split; try done; [constructor|by intros ? ?%elem_of_nil]. Qed.

Lemma sanitized_accepted user vs index :
  ready true [] ∅ vs -> alternating user (turns r options) = true -> Forall speaks (turns r options) ->
  well_paired [] ∅ (turns r options) ->
  let h := project_turns_of (turns r options) in
  accepted index (sanitize_history (fst h) options) (snd h) vs.
Proof.
  intros Hready Ha Hs Hp h.
  assert (Hh : turns r options <> [] \/ user = true -> turn_after user (fst h) = Some true)
    by (intros; by apply project_turns).
  destruct (turns r options) as [|m ms] eqn:Et.
  { apply (project_accepted [] true [] ∅); auto. }
  specialize (Hh ltac:(by left)). destruct user.
  - replace (sanitize_history (fst h) options) with (fst h).
    { apply (project_accepted (m :: ms) true [] ∅); auto. }
    unfold sanitize_history. destruct (fst h) as [|item items]; [done|]. cbn [turn_after] in Hh.
    case_bool_decide as Hrole; [|done]. unfold item_role in Hrole.
    by destruct (hm_user item), (hm_assistant item).
  - destruct (user_step index [] ∅ vs (user_message "Begin conversation" [] [] [] None options) [])
      as (vs1 & Hstep & Hready1); try done.
    pose proof (project_accepted (m :: ms) false [] ∅ vs1 (S index) Hready1 Ha Hs Hp
      ltac:(by left) ltac:(by left)) as Hacc. fold h in Hacc.
    unfold sanitize_history. destruct (fst h) as [|item items]; [done|]. cbn [turn_after] in Hh.
    case_bool_decide as Hrole; [|done]. unfold item_role in Hrole.
    destruct (hm_user item), (hm_assistant item); try done. by eapply accepted_step.
Qed.
End Contract.

Lemma project_tools sha256 json_string b64_encode b64_decodes `{ReplayPrimitives} tx current messages :
  um_context current = None ->
  let u := snd (project sha256 json_string b64_encode b64_decodes tx current messages) in
  um_context u = None \/ tools_of u = tx_tools tx.
Proof.
  intros Hc. induction messages as [|m messages IH]; [by left|]. cbn [project].
  case_bool_decide.
  - destruct messages as [|m' messages].
    + cbn [snd]. unfold tools_of, current_turn, context. cbn.
      destruct (tx_tools tx), (extract_tool_results _ _); auto.
    + by destruct (project _ _ _ _ _ _ (m' :: messages)).
  - by destruct (project _ _ _ _ _ _ messages).
Qed.

Lemma finished_tools r options tools env current :
  um_context current = None \/ tools_of current = tools ->
  tools_of (finish_current r options tools env current) = tools.
Proof.
  unfold tools_of, finish_current. cbn [um_context]. intros [-> | <-]; cbn [or_else].
  - unfold context. destruct tools; cbn; by destruct (is_some env).
  - destruct (um_context current) as [c|]; cbn; by destruct (is_some env).
Qed.

Lemma payload_accepted sha256 json_string json_pretty b64_encode b64_decodes
    `{ReplayPrimitives} continuation_id conversation_id fuel tool_names r options user :
  tools_ok r -> new sha256 fuel (ct_name <$> rq_tools r) = Some tool_names ->
  alternating user (turns r options) = true -> Forall speaks (turns r options) ->
  well_paired sha256 json_string r tool_names [] ∅ (turns r options) ->
  let p := payload sha256 json_string json_pretty b64_encode b64_decodes continuation_id
             conversation_id tool_names r options in
  accepted sha256 json_pretty r options tool_names 0 (history p) (current_message p) validate_start.
Proof.
  intros Htools Hnew Ha Hs Hp p.
  destruct (payload_parts sha256 json_string json_pretty b64_encode b64_decodes continuation_id
    conversation_id tool_names r options) as (prompt & cp & env & Hcur & Hh). fold p in Hcur, Hh.
  assert (Hsan : forall index vs, ready true [] ∅ vs ->
    accepted sha256 json_pretty r options tool_names index
      (sanitize_history (fst (projected sha256 json_string json_pretty b64_encode b64_decodes
         tool_names r options)) options) (current_message p) vs).
  { intros index vs Hready. unfold accepted, validate_user_results. rewrite Hcur.
    destruct (sanitized_accepted sha256 json_string json_pretty b64_encode b64_decodes r options
      tool_names Htools fuel Hnew user vs index Hready Ha Hs Hp) as (vs' & all & Hl & Hturn & Hv).
    exists vs', all. split_and!; [done..|]. unfold validate_user_results in Hv.
    rewrite <- Hcur. subst p. rewrite payload_current_results. exact Hv. }
  revert Hh. unfold inject_system. destruct (is_empty (trim prompt)); intros [= -> _];
    [apply Hsan, start_ready|].
  destruct (user_step sha256 json_pretty r options tool_names 0 [] ∅ validate_start
    (user_message (trim prompt) [] [] [] cp options) []) as (vs1 & Hs1 & Hr1);
    [apply start_ready|done..|].
  destruct (assistant_step sha256 json_pretty r options tool_names 1 [] ∅ vs1
    {| am_content := SYSTEM_PROMPT_ACKNOWLEDGEMENT; am_cache_point := None; am_tool_uses := [] |})
    as (vs2 & Hs2 & Hr2); cbn [am_tool_uses use_ids fmap list_fmap];
    [done|done|constructor|constructor|by intros ? ?%elem_of_nil|].
  eapply accepted_step; [exact Hs1|]. eapply accepted_step; [exact Hs2|]. apply Hsan.
  cbn in Hr2. by rewrite union_empty_l_L in Hr2.
Qed.

(** A conversation that pairs its calls and results makes a payload that Kiro's
    contract accepts. *)
Lemma claude_paired_valid sha256 json_string json_pretty b64_encode b64_decodes
    `{ReplayPrimitives} continuation_id conversation_id fuel tool_names r options :
  nothing_split r options = true -> Forall role_ok (rq_messages r) ->
  tools_ok r -> new sha256 fuel (ct_name <$> rq_tools r) = Some tool_names ->
  well_paired sha256 json_string r tool_names [] ∅ (turns r options) ->
  validate_kiro_tool_history
    (claude_to_kiro sha256 json_string json_pretty b64_encode b64_decodes continuation_id
       conversation_id tool_names r options) = Ok tt.
Proof.
  intros Hsep Hroles Htools Hnew Hp.
  destruct (turns_alternating r options Hsep Hroles) as [[user Ha] Hs].
  destruct (offered_ok sha256 json_pretty r options tool_names Htools fuel Hnew) as [Hblank Hnd].
  fold (payload sha256 json_string json_pretty b64_encode b64_decodes continuation_id
    conversation_id tool_names r options).
  destruct (payload_parts sha256 json_string json_pretty b64_encode b64_decodes continuation_id
    conversation_id tool_names r options) as (prompt & cp & env & Hcur & Hh).
  set (p := payload _ _ _ _ _ _ _ _ _ _) in *.
  assert (Hacc := payload_accepted sha256 json_string json_pretty b64_encode b64_decodes
    continuation_id conversation_id fuel tool_names r options user Htools Hnew Ha Hs Hp).
  cbn zeta in Hacc. fold p in Hacc.
  destruct Hacc as (vs' & all & Hloop & Hturn & Hv). unfold validate_kiro_tool_history.
  change (cs_current_message (p_conversation_state p)) with (current_message p).
  assert (Htc : tools_of (current_message p) = payload_tools sha256 json_pretty tool_names r options).
  { rewrite Hcur. apply finished_tools. apply project_tools. done. }
  rewrite Htc, Hblank, size_list_to_set, Nat.eqb_refl by done. cbn [negb].
  unfold offered in Hloop. rewrite Hloop. cbn. rewrite Hturn. cbn [negb andb]. rewrite andb_false_r.
  replace (if is_nil (history p) then [] else vs_previous_uses vs') with (vs_previous_uses vs');
    [by rewrite Hv|].
  destruct (history p); [|done]. cbn in Hloop. by injection Hloop as <-.
Qed.
