(* ===== verification/Schema.v ===== *)
(** * Validation errors, models and tool schemas

    The part of [kproxy-translate/src/validate.rs] that every protocol shares:
    the errors and their texts, the limits, the check of a model name and the
    bounded walk over a tool schema, which the code does with a stack of its own
    so that a hostile schema cannot exhaust the thread's. *)

From Stdlib Require Import ZArith Lia Ascii String.
From stdpp Require Import base list strings.
From S2P Require Import Prelude RustStr F64 Json Text.

Local Open Scope kproxy_scope.
Local Open Scope string_scope.
Local Open Scope list_scope.

(** ** Limits *)

Definition MAX_SCHEMA_DEPTH : Z := 64.
Definition MAX_SCHEMA_NODES : Z := 50000.
Definition MAX_TOOL_DOC_CHARS : Z := 512000.
Definition MAX_TOOLS : Z := 512.
Definition MAX_DEFERRED_TOOLS : Z := 10000.
Definition MAX_LOADED_TOOL_BYTES : Z := 4 * 1024 * 1024.
Definition MAX_DEFERRED_TOOL_BYTES : Z := 32 * 1024 * 1024.
Definition MAX_TOOL_BYTES : Z := 256 * 1024.
Definition MAX_TOOL_NAME_CHARS : Z := 128.
Definition MAX_STOP_SEQUENCES : Z := 64.
Definition MAX_STOP_SEQUENCE_BYTES : Z := 4 * 1024.
Definition MAX_STOP_SEQUENCE_TOTAL_BYTES : Z := 64 * 1024.
Definition MAX_DOCUMENTS_PER_MESSAGE : Z := 5.
Definition MAX_DOCUMENT_BYTES : Z := 4500000.
Definition MAX_IMAGE_BYTES : Z := 5 * 1024 * 1024.
Definition MAX_IMAGES_PER_REQUEST : Z := 100.
Definition MAX_DOCUMENTS_PER_REQUEST : Z := 5.
Definition MAX_CACHE_BREAKPOINTS : Z := 4.
Definition MAX_MODEL_BYTES : Z := 256.

(** ** Errors *)

Inductive ValidationError :=
| MissingModel
| MissingMessages
| TooManyTools
| TooManyDeferredTools
| LoadedToolDefinitionsTooLarge
| DeferredToolDefinitionsTooLarge
| ToolDefinitionTooLarge
| ToolNameTooLong
| ToolDocumentationTooLarge
| SchemaTooDeep
| SchemaTooLarge
| InvalidRole (role : string)
| InvalidField (field message : string).

(** The text of an error, from its [error] attribute. *)
Definition error_to_string (e : ValidationError) : string :=
  match e with
  | MissingModel => "model is required"
  | MissingMessages => "messages must not be empty"
  | TooManyTools => "too many tools: maximum is " +:+ show_Z MAX_TOOLS
  | TooManyDeferredTools => "too many deferred tools: maximum is " +:+ show_Z MAX_DEFERRED_TOOLS
  | LoadedToolDefinitionsTooLarge =>
      "loaded tool definitions exceed the " +:+ show_Z MAX_LOADED_TOOL_BYTES
      +:+ " byte limit; enable Anthropic Tool Search and defer MCP tools"
  | DeferredToolDefinitionsTooLarge =>
      "deferred tool catalog exceeds the " +:+ show_Z MAX_DEFERRED_TOOL_BYTES +:+ " byte limit"
  | ToolDefinitionTooLarge =>
      "a single tool definition exceeds the " +:+ show_Z MAX_TOOL_BYTES +:+ " byte limit"
  | ToolNameTooLong => "tool name exceeds " +:+ show_Z MAX_TOOL_NAME_CHARS +:+ " characters"
  | ToolDocumentationTooLarge =>
      "tool documentation exceeds " +:+ show_Z MAX_TOOL_DOC_CHARS +:+ " characters"
  | SchemaTooDeep => "tool schema exceeds maximum depth " +:+ show_Z MAX_SCHEMA_DEPTH
  | SchemaTooLarge => "tool schema exceeds maximum node count " +:+ show_Z MAX_SCHEMA_NODES
  | InvalidRole role => "message role is not supported: " +:+ role
  | InvalidField field message => "invalid value for " +:+ field +:+ ": " +:+ message
  end.

Definition invalid {A} (field message : string) : result A ValidationError :=
  Err (InvalidField field message).

(** [if condition { return invalid(..) }]. *)
Definition reject_if (condition : bool) (field message : string) : result unit ValidationError :=
  if condition then invalid field message else Ok tt.

Lemma reject_if_ok condition field message :
  reject_if condition field message = Ok tt <-> condition = false.
Proof. unfold reject_if. by destruct condition. Qed.

(** ** Models *)

(** [char::is_control]: C0, delete, C1. *)
Definition char_is_control (c : bytes) : bool :=
  match c with
  | [a] => in_range 0 31 a || in_range 127 127 a
  | [a; b] => (code a =? 194)%Z && in_range 128 159 b
  | _ => false
  end.

Definition validate_model (model : string) : result unit ValidationError :=
  if is_empty (trim model) then Err MissingModel
  else if (MAX_MODEL_BYTES <? Z.of_nat (len model))%Z
  then invalid "model" ("must be at most " +:+ show_Z MAX_MODEL_BYTES +:+ " bytes")
  else if existsb (fun c => char_is_whitespace c || char_is_control c) (chars model)
  then invalid "model" "must not contain whitespace or control characters"
  else Ok tt.

Definition common (model : string) (messages_empty : bool) : result unit ValidationError :=
  validate_model model ;? if messages_empty then Err MissingMessages else Ok tt.

(** ** Tool schemas *)

(** What the walk puts on the stack for a value. *)
Definition children (v : value) : list value :=
  match v with Array values => values | Object m => m.*2 | _ => [] end.

(** The loop over the stack, whose top is the head; [None] when the fuel runs
    out. *)
Fixpoint walk_schema (fuel : nat) (stack : list (value * Z)) (nodes : Z) :
    option (result unit ValidationError) :=
  match fuel with
  | O => None
  | S fuel =>
      match stack with
      | [] => Some (Ok tt)
      | (v, depth) :: stack =>
          let nodes := (nodes + 1)%Z in
          if (MAX_SCHEMA_NODES <? nodes)%Z then Some (Err SchemaTooLarge)
          else if (MAX_SCHEMA_DEPTH <? depth)%Z then Some (Err SchemaTooDeep)
          else walk_schema fuel (reverse ((fun child => (child, depth + 1)%Z) <$> children v) ++ stack)
                 nodes
      end
  end.

(** Each round visits a node, and the round after [MAX_SCHEMA_NODES] returns. *)
Definition schema_fuel : nat := S (S (Z.to_nat MAX_SCHEMA_NODES)).

Definition validate_tool (name : string) (schema : value) : result unit ValidationError :=
  if (MAX_TOOL_NAME_CHARS <? Z.of_nat (char_count name))%Z then Err ToolNameTooLong
  else unwrap_or (walk_schema schema_fuel [(schema, 1%Z)] 0) (Err SchemaTooLarge).

(** ** The measures the walk bounds *)

Fixpoint nodes_of (v : value) : Z :=
  match v with
  | Array values => 1 + foldr (fun child n => nodes_of child + n) 0 values
  | Object m => 1 + foldr (fun entry n => nodes_of (entry.2) + n) 0 m
  | _ => 1
  end%Z.

Fixpoint depth_of (v : value) : Z :=
  match v with
  | Array values => 1 + foldr (fun child n => Z.max (depth_of child) n) 0 values
  | Object m => 1 + foldr (fun entry n => Z.max (depth_of (entry.2)) n) 0 m
  | _ => 1
  end%Z.

Definition total (stack : list (value * Z)) : Z := foldr (fun e n => (nodes_of e.1 + n)%Z) 0%Z stack.

Lemma nodes_of_children v : nodes_of v = (1 + foldr (fun child n => nodes_of child + n) 0 (children v))%Z.
Proof.
  destruct v as [| | | | |m]; cbn [nodes_of children foldr]; try lia. f_equal.
  induction m as [|e m IH]; [done|]. cbn [foldr fmap list_fmap]. by rewrite IH.
Qed.

Lemma depth_of_children v :
  depth_of v = (1 + foldr (fun child n => Z.max (depth_of child) n) 0 (children v))%Z.
Proof.
  destruct v as [| | | | |m]; cbn [depth_of children foldr]; try lia. f_equal.
  induction m as [|e m IH]; [done|]. cbn [foldr fmap list_fmap]. by rewrite IH.
Qed.

Lemma max_depth_nonneg (l : list value) : (0 <= foldr (fun child n => Z.max (depth_of child) n) 0 l)%Z.
Proof. induction l as [|x l IH]; cbn [foldr]; lia. Qed.

Lemma max_depth_le (l : list value) d :
  (0 <= d)%Z ->
  (foldr (fun child n => Z.max (depth_of child) n) 0 l <= d)%Z
  <-> Forall (fun child => depth_of child <= d)%Z l.
Proof.
  intros Hd. induction l as [|x l IH]; cbn [foldr]; [by split; [constructor|lia]|].
  rewrite Forall_cons, <- IH. lia.
Qed.

Fixpoint nodes_pos (v : value) : (1 <= nodes_of v)%Z.
Proof.
  destruct v as [| | | |values|m]; cbn [nodes_of]; try lia.
  - assert (0 <= foldr (fun child n => nodes_of child + n) 0 values)%Z; [|lia].
    induction values as [|x values IH]; cbn [foldr]; [lia|]. pose proof (nodes_pos x). lia.
  - assert (0 <= foldr (fun entry n => nodes_of (entry.2) + n) 0 m)%Z; [|lia].
    induction m as [|[k x] m IH]; cbn [foldr]; [lia|]. pose proof (nodes_pos x). cbn [snd]. lia.
Qed.

Lemma total_app k l : total (k ++ l) = (total k + total l)%Z.
Proof. unfold total. induction k as [|e k IH]; cbn [foldr app]; lia. Qed.

Lemma total_reverse l : total (reverse l) = total l.
Proof.
  induction l as [|e l IH]; [done|]. rewrite reverse_cons, total_app, IH. unfold total; cbn [foldr]. lia.
Qed.

Lemma total_children v d :
  total ((fun child => (child, d)) <$> children v) = (nodes_of v - 1)%Z.
Proof.
  rewrite nodes_of_children. unfold total. rewrite Z.add_simpl_l.
  induction (children v) as [|x l IH]; cbn [foldr fmap list_fmap]; [done|]. cbn [fst]. by rewrite IH.
Qed.

Lemma total_nonneg stack : (0 <= total stack)%Z.
Proof.
  unfold total. induction stack as [|e stack IH]; cbn [foldr]; [lia|]. pose proof (nodes_pos e.1). lia.
Qed.

(** An entry of the stack whose deepest node is within the limit. *)
Definition shallow (e : value * Z) : Prop := (e.2 + depth_of e.1 - 1 <= MAX_SCHEMA_DEPTH)%Z.

Lemma shallow_children v d :
  (d <= MAX_SCHEMA_DEPTH)%Z ->
  Forall shallow ((fun child => (child, d + 1)%Z) <$> children v) <-> shallow (v, d).
Proof.
  intros Hd. unfold shallow. cbn [fst snd]. rewrite depth_of_children, Forall_fmap.
  unfold compose. cbn [fst snd].
  transitivity (Forall (fun child => depth_of child <= MAX_SCHEMA_DEPTH - d)%Z (children v)).
  - apply Forall_iff. intros child. lia.
  - rewrite <- max_depth_le by lia. lia.
Qed.

Lemma walk_schema_spec fuel stack nodes :
  (0 <= nodes <= MAX_SCHEMA_NODES)%Z -> (MAX_SCHEMA_NODES - nodes < Z.of_nat fuel - 1)%Z ->
  exists r, walk_schema fuel stack nodes = Some r
    /\ (r = Ok tt <-> (nodes + total stack <= MAX_SCHEMA_NODES)%Z /\ Forall shallow stack).
Proof.
  revert stack nodes; induction fuel as [|fuel IH]; intros stack nodes Hn Hf; [lia|].
  cbn [walk_schema]. destruct stack as [|[v d] stack].
  { eexists; split; [done|]. cbn. split; [|done]. intros _. split; [lia|constructor]. }
  pose proof (nodes_pos v) as Hv. pose proof (total_nonneg stack) as Ht.
  change (total ((v, d) :: stack)) with (nodes_of v + total stack)%Z.
  destruct (Z.ltb_spec MAX_SCHEMA_NODES (nodes + 1)).
  { eexists; split; [done|]. split; [done|]. intros [Hle _]. lia. }
  destruct (Z.ltb_spec MAX_SCHEMA_DEPTH d) as [Hd|Hd].
  { eexists; split; [done|]. split; [done|]. intros [_ [Hs _]%Forall_cons]. unfold shallow in Hs.
    cbn [fst snd] in Hs. rewrite depth_of_children in Hs.
    pose proof (max_depth_nonneg (children v)). lia. }
  destruct (IH (reverse ((fun child => (child, d + 1)%Z) <$> children v) ++ stack) (nodes + 1)%Z)
    as (r & -> & Hr); [lia..|].
  exists r. split; [done|]. rewrite Hr, total_app, total_reverse, total_children, Forall_app.
  rewrite Forall_reverse, shallow_children, Forall_cons by lia.
  split; intros [? ?]; (split; [lia|done]).
Qed.

(** The walk over a tool's schema with a stack of its own accepts exactly the
    schemas with at most 50000 values nested at most 64 deep, under a name of at
    most 128 characters; it ends after at most 50001 rounds on any schema, so no
    schema can make the proxy recurse or loop without bound. *)
Theorem validate_tool_spec (name : string) (schema : value) :
  is_Some (walk_schema schema_fuel [(schema, 1%Z)] 0)
  /\ (validate_tool name schema = Ok tt <->
      (Z.of_nat (char_count name) <= MAX_TOOL_NAME_CHARS)%Z
      /\ (nodes_of schema <= MAX_SCHEMA_NODES)%Z /\ (depth_of schema <= MAX_SCHEMA_DEPTH)%Z).
Proof.
  destruct (walk_schema_spec schema_fuel [(schema, 1%Z)] 0) as (r & Hw & Hr);
    [unfold MAX_SCHEMA_NODES; lia|unfold schema_fuel, MAX_SCHEMA_NODES; lia|].
  unfold validate_tool. rewrite Hw. split; [done|]. cbn [unwrap_or].
  destruct (Z.ltb_spec MAX_TOOL_NAME_CHARS (Z.of_nat (char_count name))); [split; [done|lia]|].
  rewrite Hr, Forall_singleton. unfold shallow, total. cbn [foldr fst snd].
  split; intros; (split_and!; lia).
Qed.
