(* ===== verification/CacheControl.v ===== *)
(** * Cache controls

    [kproxy-translate/src/validate/cache.rs]: the markers a Claude request puts
    on its prompt.  They are collected in the order of the prompt, an automatic
    marker is put at the last block that can carry one, and there are limits on
    their number and on the order of their lifetimes. *)

From Stdlib Require Import ZArith Lia Ascii String.
From stdpp Require Import base list strings.
From S2P Require Import Prelude RustStr F64 Json Protocol Schema Content.

Local Open Scope kproxy_scope.
Local Open Scope string_scope.
Local Open Scope list_scope.

Inductive CacheTtl := FiveMinutes | OneHour.

#[export] Instance cache_ttl_eq_dec : EqDecision CacheTtl.
Proof. solve_decision. Defined.

Definition cache_control_ttl (control : option value) (field : string) :
    result (option CacheTtl) ValidationError :=
  match opt_filter (fun v => negb (is_null v)) control with
  | None => Ok None
  | Some control =>
      if negb (is_object control) then invalid field "expected an object" else
      match opt_filter (fun kind => negb (is_empty (trim kind))) (get_str control "type") with
      | None => invalid (field +:+ ".type") "expected a non-empty string"
      | Some kind =>
          if negb (bool_decide (kind = "ephemeral"))
          then invalid (field +:+ ".type") "expected ephemeral" else
          match get control "ttl" with
          | None => Ok (Some FiveMinutes)
          | Some ttl =>
              if bool_decide (as_str ttl = Some "5m") then Ok (Some FiveMinutes)
              else if bool_decide (as_str ttl = Some "1h") then Ok (Some OneHour)
              else invalid (field +:+ ".ttl") "expected 5m or 1h"
          end
      end
  end.

Definition validate_cache_control (control : option value) (field : string) :
    result Z ValidationError :=
  let? ttl := cache_control_ttl control field in Ok (if is_some ttl then 1 else 0)%Z.

Record Breakpoint := { bp_ttl : CacheTtl; bp_field : string }.

Record AutomaticTarget := {
  at_position : nat;
  at_explicit_ttl : option CacheTtl;
  at_field : string;
}.

Record CacheControls := {
  breakpoints : list Breakpoint;
  last_target : option AutomaticTarget;
}.

Definition controls_default : CacheControls := {| breakpoints := []; last_target := None |}.

Definition visit (c : CacheControls) (control : option value) (field : string) (eligible : bool) :
    result CacheControls ValidationError :=
  let? ttl := cache_control_ttl control field in
  Ok {| breakpoints :=
          breakpoints c
          ++ match ttl with Some ttl => [{| bp_ttl := ttl; bp_field := field |}] | None => [] end;
        last_target :=
          if eligible
          then Some {| at_position := length (breakpoints c); at_explicit_ttl := ttl;
                       at_field := field |}
          else last_target c |}.

(** Thinking and empty text cannot carry a marker. *)
Definition cannot_cache (block : value) : bool :=
  is_kind "thinking" block || is_kind "redacted_thinking" block
  || (is_kind "text" block && bool_decide (get_str block "text" = Some EmptyString)).

Definition cacheable_kinds : list string :=
  ["text"; "image"; "document"; "tool_use"; "tool_result"; "server_tool_use";
   "web_search_tool_result"; "tool_search_tool_result"; "search_result"].

Definition is_eligible (block : value) : bool :=
  negb (cannot_cache block)
  && (is_some_and (kind_of block) (fun kind => bool_decide (kind ∈ cacheable_kinds))
      || (is_kind "compaction" block
          && is_some_and (get_str block "content") (fun content => negb (is_empty content)))).

(** The marker of a block itself, after those of the blocks it holds. *)
Definition visit_block (c : CacheControls) (block : value) (block_field : string)
    (top_level : bool) : result CacheControls ValidationError :=
  let control := get block "cache_control" in
  let cache_field := block_field +:+ ".cache_control" in
  if cannot_cache block && is_some_and control (fun control => negb (is_null control)) then
    let? _ := cache_control_ttl control cache_field in
    invalid cache_field "thinking and empty text blocks cannot define cache_control"
  else visit c control cache_field (top_level && is_eligible block).

Section Fold.
Context {A : Type} (f : CacheControls -> nat -> A -> result CacheControls ValidationError).

Fixpoint fold_controls (c : CacheControls) (index : nat) (l : list A) :
    result CacheControls ValidationError :=
  match l with
  | [] => Ok c
  | x :: l => let? c := f c index x in fold_controls c (S index) l
  end.
End Fold.

Definition holds_content (block : value) : bool :=
  is_kind "tool_result" block || is_kind "search_result" block.

Fixpoint visit_content (c : CacheControls) (content : value) (field : string) (top_level : bool) :
    result CacheControls ValidationError :=
  match content with
  | Str text =>
      if top_level && negb (is_empty text) then visit c None (field +:+ ".cache_control") true
      else Ok c
  | Array blocks =>
      fold_controls (fun c index block =>
        let block_field := field +:+ "." +:+ show_nat index in
        let? c :=
          if holds_content block then
            unwrap_or
              (get_then (fun nested =>
                 Some (visit_content c nested (block_field +:+ ".content") false))
                 block "content") (Ok c)
          else if has_content_source block then
            unwrap_or
              (get_then (fun source => get_then (fun nested =>
                 Some (visit_content c nested (block_field +:+ ".source.content") false))
                 source "content") block "source") (Ok c)
          else Ok c in
        visit_block c block block_field top_level) c 0 blocks
  | _ => Ok c
  end.

(** Insertion of the automatic marker at its place. *)
Definition insert_at {A} (position : nat) (x : A) (l : list A) : list A :=
  take position l ++ x :: drop position l.

(** A long marker after a short one. *)
Fixpoint check_order (saw_five_minutes : bool) (points : list Breakpoint) :
    result unit ValidationError :=
  match points with
  | [] => Ok tt
  | point :: points =>
      if bool_decide (bp_ttl point = OneHour) && saw_five_minutes
      then invalid (bp_field point +:+ ".ttl")
             "1h cache breakpoints must precede all 5m cache breakpoints"
      else check_order (saw_five_minutes || bool_decide (bp_ttl point = FiveMinutes)) points
  end.

Definition too_many_automatic : string :=
  "must define at most " +:+ Text.show_Z MAX_CACHE_BREAKPOINTS
  +:+ " cache breakpoints including automatic caching".

Definition finish (c : CacheControls) (automatic : option CacheTtl) :
    result unit ValidationError :=
  let? points :=
    match automatic, last_target c with
    | Some ttl, Some target =>
        if (MAX_CACHE_BREAKPOINTS <=? Z.of_nat (length (breakpoints c)))%Z
        then invalid "cache_control" too_many_automatic else
        match at_explicit_ttl target with
        | Some explicit_ttl =>
            if negb (bool_decide (ttl = explicit_ttl))
            then invalid (at_field target +:+ ".ttl") "must match the top-level cache_control TTL"
            else Ok (breakpoints c)
        | None =>
            Ok (insert_at (at_position target) {| bp_ttl := ttl; bp_field := "cache_control" |}
                  (breakpoints c))
        end
    | _, _ => Ok (breakpoints c)
    end in
  reject_if (MAX_CACHE_BREAKPOINTS <? Z.of_nat (length points))%Z "cache_control"
    ("must define at most " +:+ Text.show_Z MAX_CACHE_BREAKPOINTS +:+ " cache breakpoints") ;?
  check_order false points.

Definition visit_tool (c : CacheControls) (index : nat) (tool : ClaudeTool) :
    result CacheControls ValidationError :=
  visit c (ct_cache_control tool) ("tools." +:+ show_nat index +:+ ".cache_control")
    (negb (ct_defer_loading tool)).

Definition visit_message (c : CacheControls) (index : nat) (m : ClaudeMessage) :
    result CacheControls ValidationError :=
  let? c := visit_content c (cm_content m) ("messages." +:+ show_nat index +:+ ".content") true in
  visit c (cm_cache_control m) ("messages." +:+ show_nat index +:+ ".cache_control") false.

(** The markers of a request in the order of the prompt. *)
Definition collect_controls (r : ClaudeRequest) : result CacheControls ValidationError :=
  let? c := fold_controls visit_tool controls_default 0 (rq_tools r) in
  let? c :=
    match rq_system r with
    | Some system => visit_content c system "system" true
    | None => Ok c
    end in
  fold_controls visit_message c 0 (rq_messages r).

Definition validate_claude_cache_controls (r : ClaudeRequest) : result unit ValidationError :=
  let? automatic := cache_control_ttl (rq_cache_control r) "cache_control" in
  let? c := collect_controls r in
  finish c automatic.

(** ** The markers, without the errors *)

Definition marker_of (control : option value) : option CacheTtl :=
  match control with
  | None | Some Null => None
  | Some control =>
      Some (if bool_decide (get_str control "ttl" = Some "1h") then OneHour else FiveMinutes)
  end.

Fixpoint block_markers (block : value) : list CacheTtl :=
  let inside content :=
    match content with Array blocks => Some (flat_map block_markers blocks) | _ => None end in
  (if holds_content block then unwrap_or (get_then inside block "content") []
   else if has_content_source block
   then unwrap_or (get_then (fun source => get_then inside source "content") block "source") []
   else [])
  ++ option_list (marker_of (get block "cache_control")).

Definition content_markers (content : value) : list CacheTtl :=
  match content with Array blocks => flat_map block_markers blocks | _ => [] end.

(** In the order of the prompt: tools, system prompt, messages. *)
Definition request_markers (r : ClaudeRequest) : list CacheTtl :=
  omap (fun tool => marker_of (ct_cache_control tool)) (rq_tools r)
  ++ unwrap_or (content_markers <$> rq_system r) []
  ++ (rq_messages r ≫= fun m =>
        content_markers (cm_content m) ++ option_list (marker_of (cm_cache_control m))).

Definition ttls (c : CacheControls) : list CacheTtl := bp_ttl <$> breakpoints c.

Lemma cache_control_ttl_marker control field ttl :
  cache_control_ttl control field = Ok ttl -> ttl = marker_of control.
Proof.
  unfold cache_control_ttl, marker_of. destruct control as [v|]; cbn [opt_filter]; [|by intros [= <-]].
  destruct (is_null v) eqn:En; cbn [negb].
  { destruct v; try done. by intros [= <-]. }
  destruct (negb (is_object v)) eqn:Eo; [done|]. destruct (opt_filter _ _); [|done].
  destruct (negb (bool_decide _)); [done|]. destruct v; try done. unfold get_str.
  destruct (get _ "ttl") as [t|]; [|by intros [= <-]].
  destruct (decide (as_str t = Some "5m")) as [H5|H5].
  - rewrite !H5. rewrite bool_decide_true by done. by intros [= <-].
  - rewrite bool_decide_false by done. case_bool_decide; [by intros [= <-]|done].
Qed.

Lemma visit_ttls c control field eligible c' :
  visit c control field eligible = Ok c' -> ttls c' = ttls c ++ option_list (marker_of control).
Proof.
  unfold visit. destruct (cache_control_ttl _ _) as [ttl|] eqn:E; cbn [result_bind]; [|done].
  apply cache_control_ttl_marker in E as <-. intros [= <-]. unfold ttls. cbn [breakpoints].
  rewrite fmap_app. by destruct ttl.
Qed.

Lemma visit_block_ttls c block field top_level c' :
  visit_block c block field top_level = Ok c' ->
  ttls c' = ttls c ++ option_list (marker_of (get block "cache_control")).
Proof.
  unfold visit_block. destruct (_ && _); [|apply visit_ttls].
  by destruct (cache_control_ttl _ _).
Qed.

Lemma fold_controls_ttls {A} f (g : A -> list CacheTtl) c index l c' :
  (forall c index x c', x ∈ l -> f c index x = Ok c' -> ttls c' = ttls c ++ g x) ->
  fold_controls f c index l = Ok c' -> ttls c' = ttls c ++ flat_map g l.
Proof.
  revert c index; induction l as [|x l IH]; intros c index Hf; cbn [fold_controls flat_map].
  { intros [= <-]. by rewrite app_nil_r. }
  destruct (f c index x) as [c1|] eqn:E; cbn [result_bind]; [|done]. intros Hl.
  apply Hf in E; [|by left]. rewrite (IH c1 (S index)), E, <- app_assoc; [done| |done].
  intros c2 i2 y c2' Hy. apply Hf. by right.
Qed.

(** The values a value holds are smaller. *)
Lemma obj_get_elem m k v : obj_get m k = Some v -> v ∈ m.*2.
Proof.
  induction m as [|[k' w] m IH]; [done|]. cbn. case_bool_decide; [intros [= ->]; by left|].
  intros Hg%IH. by right.
Qed.

Lemma children_smaller v w : w ∈ children v -> (nodes_of w < nodes_of v)%Z.
Proof.
  rewrite (nodes_of_children v). induction (children v) as [|x l IH]; [by intros ?%elem_of_nil|].
  assert (0 <= foldr (fun child n => nodes_of child + n) 0 l)%Z.
  { clear. induction l as [|y l IH]; cbn [foldr]; [lia|]. pose proof (nodes_pos y). lia. }
  pose proof (nodes_pos x) as Hx. cbn [foldr]. intros [->|Hw]%elem_of_cons; [lia|].
  specialize (IH Hw). lia.
Qed.

Lemma get_smaller v k w : get v k = Some w -> (nodes_of w < nodes_of v)%Z.
Proof. destruct v; try done. intros H%obj_get_elem. by apply children_smaller. Qed.

Lemma block_markers_eq block :
  block_markers block =
    (if holds_content block then unwrap_or (content_markers <$> get block "content") []
     else if has_content_source block
     then unwrap_or (content_markers <$> (get block "source" ≫= fun s => get s "content")) []
     else []) ++ option_list (marker_of (get block "cache_control")).
Proof.
  destruct block; cbn [block_markers]; rewrite !get_then_get; f_equal;
    (destruct (holds_content _); [by destruct (get _ "content") as [[]|]|]);
    (destruct (has_content_source _); [|done]);
    (destruct (get _ "source") as [s|]; [|done]); cbn [mbind option_bind];
    rewrite get_then_get; by destruct (get s "content") as [[]|].
Qed.

Lemma visit_content_ttls n c content field top_level c' :
  (nodes_of content <= n)%Z ->
  visit_content c content field top_level = Ok c' -> ttls c' = ttls c ++ content_markers content.
Proof.
  revert c content field top_level c'. induction (Z.lt_wf 0 n) as [n _ IH].
  intros c content field top_level c' Hn.
  destruct content as [| | |text|blocks|]; cbn [visit_content content_markers];
    try (intros [= <-]; by rewrite app_nil_r).
  { destruct (_ && _); [apply visit_ttls|intros [= <-]; by rewrite app_nil_r]. }
  apply fold_controls_ttls. intros c1 index block c1' Hb.
  assert (Hblock : (nodes_of block < n)%Z).
  { pose proof (children_smaller (Array blocks) block Hb). lia. }
  pose proof (nodes_pos block).
  assert (Hnested : forall nested c2 f c2', (nodes_of nested < nodes_of block)%Z ->
    visit_content c2 nested f false = Ok c2' -> ttls c2' = ttls c2 ++ content_markers nested).
  { intros nested c2 f c2' Hs. pose proof (nodes_pos nested).
    apply (IH (nodes_of nested)); lia. }
  assert (Hfirst : forall first, first = Ok c1 ->
    forall c2', (let? c := first in visit_block c block (field +:+ "." +:+ show_nat index) top_level) = Ok c2' ->
    ttls c2' = ttls c1 ++ [] ++ option_list (marker_of (get block "cache_control"))).
  { intros first -> c2'. cbn [result_bind app]. apply visit_block_ttls. }
  assert (Hsome : forall nested f, (nodes_of nested < nodes_of block)%Z -> forall c2',
    (let? c := visit_content c1 nested f false in
     visit_block c block (field +:+ "." +:+ show_nat index) top_level) = Ok c2' ->
    ttls c2' = ttls c1 ++ content_markers nested
               ++ option_list (marker_of (get block "cache_control"))).
  { intros nested f Hs c2'. destruct (visit_content _ _ _ _) as [c2|] eqn:E; cbn [result_bind]; [|done].
    apply Hnested in E; [|done]. intros ->%visit_block_ttls. by rewrite E, <- app_assoc. }
  rewrite block_markers_eq.
  destruct (holds_content block); [|destruct (has_content_source block)]; rewrite ?get_then_get;
    [| |by apply Hfirst].
  - destruct (get block "content") as [nested|] eqn:Eg; cbn [mbind option_bind fmap option_fmap option_map unwrap_or];
      [apply Hsome; by eapply get_smaller|by apply Hfirst].
  - destruct (get block "source") as [s|] eqn:Es; cbn [mbind option_bind fmap option_fmap option_map unwrap_or];
      [|by apply Hfirst]. rewrite get_then_get.
    destruct (get s "content") as [nested|] eqn:Eg; cbn [mbind option_bind fmap option_fmap option_map unwrap_or];
      [|by apply Hfirst]. apply Hsome. apply get_smaller in Es, Eg. lia.
Qed.

Lemma flat_map_option_list {A B} (f : A -> option B) l :
  flat_map (fun x => option_list (f x)) l = omap f l.
Proof. induction l as [|x l IH]; [done|]. cbn. rewrite IH. by destruct (f x). Qed.

Lemma flat_map_bind {A B} (f : A -> list B) l : flat_map f l = l ≫= f.
Proof. induction l as [|x l IH]; [done|]. cbn [flat_map]. by rewrite IH. Qed.

Lemma collect_ttls r c : collect_controls r = Ok c -> ttls c = request_markers r.
Proof.
  unfold collect_controls, request_markers.
  destruct (fold_controls visit_tool _ _ _) as [c1|] eqn:E1; cbn [result_bind]; [|done].
  apply (fold_controls_ttls visit_tool (fun tool => option_list (marker_of (ct_cache_control tool))))
    in E1; [|intros ? ? ? ? _; apply visit_ttls].
  intros Hc. assert (H2 : exists c2, ttls c2 = ttls c1 ++ unwrap_or (content_markers <$> rq_system r) []
                    /\ fold_controls visit_message c2 0 (rq_messages r) = Ok c).
  { destruct (rq_system r) as [system|]; cbn [fmap option_fmap option_map unwrap_or result_bind] in *.
    - destruct (visit_content _ _ _ _) as [c2|] eqn:E2; cbn [result_bind] in Hc; [|done].
      apply (visit_content_ttls (nodes_of system)) in E2; [|done]. eauto.
    - exists c1. by rewrite app_nil_r. }
  destruct H2 as (c2 & E2 & E3).
  apply (fold_controls_ttls visit_message (fun m =>
    content_markers (cm_content m) ++ option_list (marker_of (cm_cache_control m)))) in E3.
  - rewrite E3, E2, E1. change (ttls controls_default) with (@nil CacheTtl).
    rewrite app_nil_l, <- app_assoc.
    by rewrite flat_map_option_list, flat_map_bind.
  - intros c3 index m c4 _. unfold visit_message.
    destruct (visit_content _ _ _ _) as [c5|] eqn:E5; cbn [result_bind]; [|done].
    apply (visit_content_ttls (nodes_of (cm_content m))) in E5; [|done].
    intros ->%visit_ttls. by rewrite E5, <- app_assoc.
Qed.

(** No marker of an hour behind one of five minutes. *)
Definition ordered (markers : list CacheTtl) : Prop :=
  forall before after, markers = before ++ FiveMinutes :: after -> OneHour ∉ after.

Lemma check_order_ok saw points :
  check_order saw points = Ok tt ->
  (saw = true -> OneHour ∉ bp_ttl <$> points) /\ ordered (bp_ttl <$> points).
Proof.
  revert saw; induction points as [|p points IH]; intros saw; cbn [check_order].
  { intros _. split; [intros _; apply not_elem_of_nil|by intros [] ?]. }
  destruct (_ && _) eqn:E; [done|]. intros [H1 H2]%IH. apply andb_false_iff in E.
  rewrite fmap_cons. split.
  - intros ->. destruct E as [E%bool_decide_eq_false|]; [|done].
    apply not_elem_of_cons. split; [congruence|]. by apply H1.
  - intros [|t before] after; cbn [app]; [|intros [= _ Hp]; by eapply H2].
    intros [= Ht <-]. apply H1. rewrite Ht. by rewrite orb_true_r.
Qed.

Lemma ordered_sublist k l : k `sublist_of` l -> ordered l -> ordered k.
Proof.
  intros Hs Ho before after ->. apply sublist_app_l in Hs as (l1 & l2 & -> & _ & Hs).
  apply sublist_cons_l in Hs as (l3 & l4 & -> & Hs). intros Hin.
  apply (Ho (l1 ++ l3) l4); [by rewrite <- app_assoc|]. eapply elem_of_submseteq; [done|].
  by apply sublist_submseteq.
Qed.

(** C35: whatever Claude request passes, the cache markers of its tools, system
    prompt and messages, nested blocks included, are at most four and no marker
    of one hour stands behind one of five minutes in the order of the prompt;
    with an automatic marker there is room for one more. *)
Theorem cache_markers_bounded (r : ClaudeRequest) :
  validate_claude_cache_controls r = Ok tt ->
  (Z.of_nat (length (request_markers r)) <= MAX_CACHE_BREAKPOINTS)%Z
  /\ ordered (request_markers r)
  /\ (is_some (marker_of (rq_cache_control r)) = true ->
      forall c, collect_controls r = Ok c -> is_some (last_target c) = true ->
      (Z.of_nat (length (request_markers r)) < MAX_CACHE_BREAKPOINTS)%Z).
Proof.
  unfold validate_claude_cache_controls.
  destruct (cache_control_ttl _ _) as [automatic|] eqn:Ea; cbn [result_bind]; [|done].
  apply cache_control_ttl_marker in Ea as ->.
  destruct (collect_controls r) as [c|] eqn:Ec; cbn [result_bind]; [|done].
  pose proof (collect_ttls r c Ec) as <-. unfold finish.
  set (points := match marker_of _ with Some _ => _ | None => _ end).
  assert (Hp : forall l, points = Ok l -> breakpoints c `sublist_of` l
    /\ (is_some (marker_of (rq_cache_control r)) = true -> is_some (last_target c) = true ->
        (Z.of_nat (length (breakpoints c)) < MAX_CACHE_BREAKPOINTS)%Z)).
  { intros l. unfold points. destruct (marker_of _) as [ttl|]; [|by intros [= <-]].
    destruct (last_target c) as [target|]; [|by intros [= <-]].
    destruct (Z.leb_spec MAX_CACHE_BREAKPOINTS (Z.of_nat (length (breakpoints c)))); [done|].
    destruct (at_explicit_ttl target); [case_bool_decide; [|done]; by intros [= <-]|].
    intros [= <-]. split; [|done]. unfold insert_at.
    rewrite <- (take_drop (at_position target) (breakpoints c)) at 1.
    apply sublist_app; [done|]. by apply sublist_cons. }
  destruct points as [l|]; cbn [result_bind]; [|done]. destruct (Hp l eq_refl) as [Hs Hroom].
  intros [Hlen%reject_if_ok%Z.ltb_ge Hord%check_order_ok]%then_ok. unfold ttls. rewrite length_fmap.
  split_and!.
  - apply sublist_length in Hs. lia.
  - eapply ordered_sublist; [by apply fmap_sublist|apply Hord].
  - intros Hm c' [= <-]. by apply Hroom.
Qed.

(** ** Examples *)

(** A request that has nothing but messages and tools. *)
Definition plain_request (messages : list ClaudeMessage) (tools : list ClaudeTool) : ClaudeRequest :=
  {| rq_model := "claude-sonnet-4.5"; rq_messages := messages; rq_max_tokens := 1024;
     rq_temperature := None; rq_top_p := None; rq_top_k := None; rq_stop_sequences := [];
     rq_stream := false; rq_system := None; rq_tools := tools; rq_tool_choice := None;
     rq_thinking := None; rq_output_config := None; rq_cache_control := None;
     rq_service_tier := None; rq_metadata := None; rq_conversation_id := None;
     rq_context_management := None; rq_extra := [] |}.

Definition plain_message (role : string) (content : value) : ClaudeMessage :=
  {| cm_role := role; cm_content := content; cm_cache_control := None;
     cm_output_config := None; cm_extra := [] |}.

Definition marked (text ttl : string) : value :=
  json_object [("type", Str "text"); ("text", Str text);
               ("cache_control", json_object [("type", Str "ephemeral"); ("ttl", Str ttl)])].

Definition marked_request (first second : string) : ClaudeRequest :=
  plain_request
    [plain_message "user"
       (Array [marked "a" first;
               json_object [("type", Str "tool_result"); ("tool_use_id", Str "b");
                            ("content", Array [marked "c" second])]])] [].

Lemma cache_markers_bounded_witness :
  request_markers (marked_request "1h" "5m") = [OneHour; FiveMinutes]
  /\ is_ok (validate_claude_cache_controls (marked_request "5m" "1h")) = false
  /\ ordered (request_markers (marked_request "1h" "5m")).
Proof.
  split; [vm_compute; reflexivity|]. split; [vm_compute; reflexivity|].
  apply (cache_markers_bounded (marked_request "1h" "5m")). vm_compute; reflexivity.
Defined.
