(* ===== verification/Attachments.v ===== *)
(** * Images, documents and their URLs

    The part of [kproxy-translate/src/validate.rs] that looks into attachments:
    declared types, sizes, the first bytes of images and documents.  Base64 and
    the URL parser are arguments; a URL is what the code asks of one. *)

From Stdlib Require Import ZArith Lia Ascii String.
From stdpp Require Import base list strings.
From S2P Require Import Prelude RustStr F64 Json Text Protocol EventStream Schema Content.

Local Open Scope kproxy_scope.
Local Open Scope string_scope.
Local Open Scope list_scope.

(** [url::Url] as far as it is looked at. *)
Record Url := {
  url_scheme : string;
  url_host : option string;
  url_username : string;
  url_password : option string;
}.

(** ** Accessors of the checks *)

(** [block.get(k).is_some_and(Value::is_string)] and its like. *)
Definition has_string (v : value) (k : string) : bool := is_some (get_str v k).

Definition has_object (v : value) (k : string) : bool := is_some_and (get v k) is_object.

(** [block.get(k).and_then(Value::as_str).is_none_or(str::is_empty)]. *)
Definition lacks_text (v : value) (k : string) : bool := is_none_or (get_str v k) is_empty.

Definition is_string (v : value) : bool := is_some (as_str v).
Definition is_boolean (v : value) : bool := is_some (as_bool v).

(** Present, but neither null nor what [f] accepts. *)
Definition present_unless (f : value -> bool) (v : value) (k : string) : bool :=
  is_some_and (get v k) (fun w => negb (is_null w) && negb (f w)).

Definition keys (v : value) : list string := match v with Object m => m.*1 | _ => [] end.

(** The first key of an object that is not among [allowed]. *)
Definition unknown_key (allowed : list string) (v : value) : option string :=
  find (fun key => negb (bool_decide (key ∈ allowed))) (keys v).

Definition byte_string (codes : list nat) : bytes := ascii_of_nat <$> codes.

Definition bytes_start_with (l p : bytes) : bool := is_some (strip_prefix_l p l).

(** ** Signatures *)

Definition detected_image_media_type (l : bytes) : option string :=
  if bytes_start_with l (byte_string [255; 216; 255]) then Some "image/jpeg"
  else if bytes_start_with l (byte_string [137; 80; 78; 71; 13; 10; 26; 10]) then Some "image/png"
  else if bytes_start_with l (s2l "GIF87a") || bytes_start_with l (s2l "GIF89a")
  then Some "image/gif"
  else if (12 <=? length l)%nat && bytes_start_with l (s2l "RIFF")
          && bool_decide (take 4 (drop 8 l) = s2l "WEBP")
  then Some "image/webp"
  else None.

Definition document_bytes_match_format (format : string) (l : bytes) : bool :=
  if bool_decide (format = "pdf") then contains_l (take 1024 l) (s2l "%PDF-")
  else if bool_decide (format ∈ ["doc"; "xls"])
  then bytes_start_with l (byte_string [208; 207; 17; 224; 161; 177; 26; 225])
  else if bool_decide (format ∈ ["docx"; "xlsx"])
  then bytes_start_with l (byte_string [80; 75; 3; 4])
       || bytes_start_with l (byte_string [80; 75; 5; 6])
       || bytes_start_with l (byte_string [80; 75; 7; 8])
  else if bool_decide (format ∈ ["csv"; "md"; "html"; "txt"])
  then utf8_valid l && negb (existsb (Ascii.eqb "000"%char) l)
  else false.

(** ** Transformations *)

Definition validate_image_transformations (transformations : option value) (field : string) :
    result unit ValidationError :=
  match transformations with
  | None | Some Null => Ok tt
  | Some (Object m) =>
      reject_if (negb (is_nil m)) (field +:+ ".transformations")
        "image transformations are not supported by the Kiro upstream"
  | Some _ => invalid (field +:+ ".transformations") "expected an object or null"
  end.

Section Attachments.
Context (b64_decode : string -> option bytes) (parse_url : string -> option Url).

(** ** URLs *)

Definition is_http (url : Url) : bool := bool_decide (url_scheme url ∈ ["http"; "https"]).

Definition validate_http_attachment_url (v field : string) : result unit ValidationError :=
  match parse_url v with
  | None => invalid field "expected a valid HTTP(S) URL"
  | Some url =>
      reject_if (negb (is_http url) || is_none (url_host url) || negb (is_empty (url_username url))
                 || is_some (url_password url))
        field "expected an HTTP(S) URL with a host and without credentials"
  end.

(** ** Images *)

Definition image_media_types : list string := ["image/jpeg"; "image/png"; "image/gif"; "image/webp"].

(** Decoded image data of a declared type. *)
Definition check_image (data media_type field : string) : result unit ValidationError :=
  match b64_decode data with
  | None => invalid field "invalid base64 image data"
  | Some decoded =>
      reject_if (MAX_IMAGE_BYTES <? Z.of_nat (length decoded))%Z field
        ("decoded image must be at most " +:+ show_Z MAX_IMAGE_BYTES +:+ " bytes") ;?
      reject_if (negb (bool_decide (detected_image_media_type decoded = Some media_type))) field
        "image bytes do not match the declared media_type"
  end.

Definition validate_claude_image (block : value) (field : string) : result unit ValidationError :=
  let source := unwrap_or (get block "source") Null in
  if bool_decide (get_str source "type" = Some "url") then
    match unknown_key ["type"; "url"] source with
    | Some unknown =>
        invalid (field +:+ ".source." +:+ unknown) "is not valid for a URL image source"
    | None =>
        match get_str source "url" with
        | None => invalid (field +:+ ".source.url") "expected a string"
        | Some url => validate_http_attachment_url url (field +:+ ".source.url")
        end
    end
  else if negb (bool_decide (get_str source "type" = Some "base64"))
  then invalid (field +:+ ".source.type") "expected base64 or url" else
  match unknown_key ["type"; "media_type"; "data"] source with
  | Some unknown =>
      invalid (field +:+ ".source." +:+ unknown) "is not valid for a base64 image source"
  | None =>
      match opt_filter (fun media => bool_decide (media ∈ image_media_types))
              (get_str source "media_type") with
      | None =>
          invalid (field +:+ ".source.media_type")
            "expected image/jpeg, image/png, image/gif, or image/webp"
      | Some media_type =>
          match get_str source "data" with
          | None => invalid (field +:+ ".source.data") "expected a string"
          | Some data => check_image data media_type (field +:+ ".source.data")
          end
      end
  end.

Definition validate_openai_image_url (v field : string) : result unit ValidationError :=
  if is_some_and (parse_url v) is_http then validate_http_attachment_url v field else
  match strip_prefix v "data:image/" with
  | None => invalid field "expected an HTTP(S) URL or base64 image data URL"
  | Some encoded =>
      match split_once_str encoded ";base64," with
      | None => invalid field "expected a base64 image data URL"
      | Some (format, data) =>
          let format := to_ascii_lowercase format in
          if negb (bool_decide (format ∈ ["jpeg"; "jpg"; "png"; "gif"; "webp"]))
          then invalid field "expected a JPEG, PNG, GIF, or WebP image" else
          match b64_decode data with
          | None => invalid field "invalid base64 image data"
          | Some decoded =>
              let declared :=
                "image/" +:+ (if bool_decide (format = "jpg") then "jpeg" else format) in
              reject_if (is_nil decoded) field "image data must not be empty" ;?
              reject_if (MAX_IMAGE_BYTES <? Z.of_nat (length decoded))%Z field
                ("decoded image must be at most " +:+ show_Z MAX_IMAGE_BYTES +:+ " bytes") ;?
              reject_if (negb (bool_decide (detected_image_media_type decoded = Some declared)))
                field "image bytes do not match the data URL media type"
          end
      end
  end.

(** ** Documents *)

Definition document_too_large (what : string) : string :=
  what +:+ " must be at most " +:+ show_Z MAX_DOCUMENT_BYTES +:+ " bytes".

(** One block of a content document: the bytes so far and whether any block
    says something. *)
Definition check_document_block (field block_field : string) (st : Z * bool) (index : nat)
    (block : value) : result (Z * bool) ValidationError :=
  let '(flattened, has_content) := st in
  let flattened := if (0 <? index)%nat then sat_add USIZE_MAX flattened 2 else flattened in
  let? (flattened, has_content) :=
    match kind_of block with
    | None => invalid (block_field +:+ ".type") "is required"
    | Some kind =>
        if bool_decide (kind = "text") then
          match unknown_key ["type"; "text"; "cache_control"; "citations"] block with
          | Some unknown =>
              invalid (block_field +:+ "." +:+ unknown)
                "is not valid for a text block in a content document"
          | None =>
              match get_str block "text" with
              | None => invalid (block_field +:+ ".text") "expected a string"
              | Some text =>
                  if is_some_and (get block "citations") (fun v => negb (is_null v))
                  then invalid (block_field +:+ ".citations")
                         "nested citation history cannot be represented by the Kiro upstream"
                  else Ok (sat_add USIZE_MAX flattened (Z.of_nat (len text)),
                           has_content || negb (is_empty text))
              end
          end
        else if bool_decide (kind = "image") then
          match unknown_key ["type"; "source"; "cache_control"; "transformations"] block with
          | Some unknown =>
              invalid (block_field +:+ "." +:+ unknown)
                "is not valid for an image block in a content document"
          | None =>
              validate_image_transformations (get block "transformations") block_field ;?
              validate_claude_image block block_field ;?
              Ok (sat_add USIZE_MAX flattened 32, true)
          end
        else invalid (block_field +:+ ".type")
               ("unsupported content document block '" +:+ kind +:+ "'")
    end in
  if (MAX_DOCUMENT_BYTES <? flattened)%Z
  then invalid (field +:+ ".source.content") (document_too_large "flattened document")
  else Ok (flattened, has_content).

Fixpoint check_document_blocks (field : string) (st : Z * bool) (index : nat)
    (blocks : list value) : result (Z * bool) ValidationError :=
  match blocks with
  | [] => Ok st
  | block :: blocks =>
      let? st :=
        check_document_block field (field +:+ ".source.content." +:+ show_nat index) st index block in
      check_document_blocks field st (S index) blocks
  end.

Definition validate_claude_content_document_source (source : value) (field : string) :
    result unit ValidationError :=
  match unknown_key ["type"; "content"] source with
  | Some unknown =>
      invalid (field +:+ ".source." +:+ unknown) "is not valid for a content document source"
  | None =>
      match get source "content" with
      | None => invalid (field +:+ ".source.content") "is required"
      | Some (Str text) =>
          reject_if (is_empty text) (field +:+ ".source.content") "must not be empty" ;?
          reject_if (MAX_DOCUMENT_BYTES <? Z.of_nat (len text))%Z (field +:+ ".source.content")
            (document_too_large "document content")
      | Some (Array blocks) =>
          if is_nil blocks then invalid (field +:+ ".source.content") "must not be empty" else
          let? (_, has_content) := check_document_blocks field (0%Z, false) 0 blocks in
          reject_if (negb has_content) (field +:+ ".source.content") "must not be empty"
      | Some _ =>
          invalid (field +:+ ".source.content")
            "expected a string or an array of text/image blocks"
      end
  end.

(** The citation options of a document. *)
Definition check_citations (citations : option value) (field : string) :
    result unit ValidationError :=
  match opt_filter (fun v => negb (is_null v)) citations with
  | None => Ok tt
  | Some citations =>
      if negb (is_object citations)
      then invalid (field +:+ ".citations") "expected an object" else
      reject_if (is_some_and (get citations "enabled") (fun v => negb (is_boolean v)))
        (field +:+ ".citations.enabled") "expected a boolean" ;?
      match unknown_key ["enabled"] citations with
      | Some unknown =>
          invalid (field +:+ ".citations")
            ("unsupported citation configuration field '" +:+ unknown +:+ "'")
      | None => Ok tt
      end
  end.

Definition text_formats : list string := ["csv"; "md"; "html"; "txt"].

(** The data of a base64 or text source. *)
Definition check_document_data (source : value) (source_type format field : string) :
    result unit ValidationError :=
  match get_str source "data" with
  | None => invalid (field +:+ ".source.data") "expected a string"
  | Some data =>
      if is_empty data then invalid (field +:+ ".source.data") "must not be empty" else
      match (if bool_decide (source_type = "base64") then b64_decode data else Some (s2l data)) with
      | None => invalid (field +:+ ".source.data") "invalid base64 document data"
      | Some decoded =>
          reject_if (MAX_DOCUMENT_BYTES <? Z.of_nat (length decoded))%Z (field +:+ ".source.data")
            (document_too_large "decoded document") ;?
          reject_if (negb (document_bytes_match_format format decoded)) (field +:+ ".source.data")
            "document bytes do not match the declared media_type"
      end
  end.

Definition validate_claude_document (block : value) (field : string) :
    result unit ValidationError :=
  each (fun _ name => reject_if (present_unless is_string block name) (field +:+ "." +:+ name)
                        "expected a string or null") ["name"; "title"] ;?
  reject_if (present_unless is_string block "context") (field +:+ ".context")
    "expected a string or null" ;?
  check_citations (get block "citations") field ;?
  match opt_filter is_object (get block "source") with
  | None => invalid (field +:+ ".source") "expected an object"
  | Some source =>
      match opt_filter (fun kind => bool_decide (kind ∈ ["base64"; "text"; "url"; "content"]))
              (get_str source "type") with
      | None => invalid (field +:+ ".source.type") "expected base64, text, url, or content"
      | Some source_type =>
          if bool_decide (source_type = "content")
          then validate_claude_content_document_source source field else
          let allowed :=
            if bool_decide (source_type = "url") then ["type"; "url"]
            else ["type"; "media_type"; "data"] in
          match unknown_key allowed source with
          | Some unknown =>
              invalid (field +:+ ".source." +:+ unknown)
                ("is not valid for a " +:+ source_type +:+ " document source")
          | None =>
              reject_if (is_some_and (get source "media_type") (fun v => negb (is_string v)))
                (field +:+ ".source.media_type") "expected a string" ;?
              if bool_decide (source_type = "url") then
                match get_str source "url" with
                | None => invalid (field +:+ ".source.url") "expected a string"
                | Some url => validate_http_attachment_url url (field +:+ ".source.url")
                end
              else
              match claude_document_format block with
              | None =>
                  invalid (field +:+ ".source.media_type")
                    "expected PDF, CSV, DOC, DOCX, XLS, XLSX, HTML, TXT, or Markdown"
              | Some format =>
                  reject_if (bool_decide (source_type = "text")
                             && negb (bool_decide (format ∈ text_formats)))
                    (field +:+ ".source.media_type")
                    "text sources require CSV, HTML, TXT, or Markdown content" ;?
                  check_document_data source source_type format field
              end
          end
      end
  end.
End Attachments.
