(* ===== verification/Validate.v ===== *)
(** * Validation of a Claude request

    [kproxy-translate/src/validate.rs] up to [validate_openai]: the request, its
    tools, its content blocks, the protocol of server tools across blocks, and
    the edits of [context_management].  The checks run in the order of the code,
    so that the first error is the one reported.  Base64, the URL parser and the
    JSON lengths of tools are arguments. *)

From Stdlib Require Import ZArith Lia Ascii String.
From stdpp Require Import base list gmap sets strings.
From S2P Require Import Prelude RustStr F64 Json Text Protocol ToolSearch Context.
From S2P Require Import Schema CacheControl Content Attachments.

Local Open Scope kproxy_scope.
Local Open Scope string_scope.
Local Open Scope list_scope.

(** ** Context management *)

Definition joined_types (allowed : list string) : string := join " or " allowed.

Definition validate_typed_count (v : value) (field : string) (allowed_types : list string)
    (minimum : Z) : result unit ValidationError :=
  if negb (is_object v) then invalid field "expected an object" else
  reject_if (is_none_or (get_str v "type") (fun kind => negb (bool_decide (kind ∈ allowed_types))))
    (field +:+ ".type") ("expected " +:+ joined_types allowed_types) ;?
  reject_if (is_none_or (get v "value" ≫= as_u64) (fun n => n <? minimum)%Z)
    (field +:+ ".value") ("must be an integer of at least " +:+ show_Z minimum) ;?
  reject_if (is_some (unknown_key ["type"; "value"] v)) field "contains an unsupported field".

Definition edit_field (index : nat) : string := "context_management.edits." +:+ show_nat index.

Definition validate_clear_thinking_edit (edit : value) (index : nat) : result unit ValidationError :=
  reject_if (is_some (unknown_key ["type"; "keep"] edit)) (edit_field index)
    "contains an unsupported field" ;?
  match get edit "keep" with
  | None => Ok tt
  | Some keep =>
      if bool_decide (as_str keep = Some "all") then Ok tt
      else if is_object keep && bool_decide (get_str keep "type" = Some "all") then
        reject_if (is_some (unknown_key ["type"] keep)) (edit_field index +:+ ".keep")
          "contains an unsupported field"
      else validate_typed_count keep (edit_field index +:+ ".keep") ["thinking_turns"] 1
  end.

(** [if let Some(v) = edit.get(k).filter(..) { f(v)?; }]. *)
Definition when_some {A} (o : option A) (f : A -> result unit ValidationError) :
    result unit ValidationError :=
  match o with Some x => f x | None => Ok tt end.

Definition not_null (o : option value) : option value := opt_filter (fun v => negb (is_null v)) o.

Definition names_something (v : value) : bool :=
  is_some_and (as_str v) (fun name => negb (is_empty (trim name))).

Definition validate_clear_tool_uses_edit (edit : value) (index : nat) : result unit ValidationError :=
  let field := edit_field index in
  reject_if (is_some (unknown_key ["type"; "trigger"; "keep"; "clear_at_least"; "exclude_tools";
                                   "clear_tool_inputs"] edit))
    field "contains an unsupported field" ;?
  when_some (get edit "trigger") (fun trigger =>
    validate_typed_count trigger (field +:+ ".trigger") ["input_tokens"; "tool_uses"] 1) ;?
  when_some (get edit "keep") (fun keep =>
    validate_typed_count keep (field +:+ ".keep") ["tool_uses"] 0) ;?
  when_some (not_null (get edit "clear_at_least")) (fun clear_at_least =>
    validate_typed_count clear_at_least (field +:+ ".clear_at_least") ["input_tokens"] 1) ;?
  when_some (not_null (get edit "clear_tool_inputs")) (fun clear_tool_inputs =>
    reject_if
      (match clear_tool_inputs with
       | Bool _ => false
       | Array names => negb (forallb names_something names)
       | _ => true
       end)
      (field +:+ ".clear_tool_inputs")
      "expected a boolean, null, or an array of non-empty tool names") ;?
  when_some (not_null (get edit "exclude_tools")) (fun excluded =>
    reject_if (match excluded with Array names => negb (forallb names_something names) | _ => true end)
      (field +:+ ".exclude_tools") "expected an array of non-empty strings").

Definition validate_compact_edit (edit : value) (index : nat) : result unit ValidationError :=
  let field := edit_field index in
  reject_if (is_some (unknown_key ["type"; "trigger"; "pause_after_compaction"; "instructions"] edit))
    field "contains an unsupported field" ;?
  reject_if (is_some_and (get edit "pause_after_compaction") (fun v => negb (is_boolean v)))
    (field +:+ ".pause_after_compaction") "expected a boolean" ;?
  reject_if (bool_decide ((get edit "pause_after_compaction" ≫= as_bool) = Some true))
    (field +:+ ".pause_after_compaction")
    "pausing after compaction is not supported by the Kiro upstream" ;?
  reject_if (is_some_and (get edit "instructions") (fun v => negb (is_string v)))
    (field +:+ ".instructions") "expected a string" ;?
  reject_if (is_some_and (get_str edit "instructions") (fun v => negb (is_empty (trim v))))
    (field +:+ ".instructions")
    "custom compaction instructions are not supported by the Kiro upstream" ;?
  when_some (get edit "trigger") (fun trigger =>
    if negb (is_object trigger) then invalid (field +:+ ".trigger") "expected an object" else
    reject_if (negb (bool_decide (get_str trigger "type" = Some "input_tokens")))
      (field +:+ ".trigger.type") "expected input_tokens" ;?
    reject_if (is_none_or (get trigger "value" ≫= as_u64) (fun n => n <? MIN_COMPACT_TRIGGER_TOKENS)%Z)
      (field +:+ ".trigger.value")
      ("must be an integer of at least " +:+ show_Z MIN_COMPACT_TRIGGER_TOKENS) ;?
    reject_if (is_some (unknown_key ["type"; "value"] trigger)) (field +:+ ".trigger")
      "contains an unsupported field").

(** The family an edit belongs to, when it is one the proxy knows. *)
Definition edit_family (edit_type : string) : option string :=
  if is_compact_edit_type edit_type then Some "compact"
  else if matches_type_family edit_type "clear_thinking" then Some "clear_thinking"
  else if matches_type_family edit_type "clear_tool_uses" then Some "clear_tool_uses"
  else None.

Fixpoint validate_edits (known_families : list string) (index : nat) (edits : list value) :
    result unit ValidationError :=
  match edits with
  | [] => Ok tt
  | edit :: edits =>
      let field := edit_field index in
      if negb (is_object edit) then invalid field "expected an object" else
      match get_str edit "type" with
      | None => invalid (field +:+ ".type") "expected a string"
      | Some edit_type =>
          if is_empty (trim edit_type) then invalid (field +:+ ".type") "must not be empty" else
          match edit_family edit_type with
          | None => validate_edits known_families (S index) edits
          | Some family =>
              reject_if (bool_decide (family ∈ known_families)) (field +:+ ".type")
                ("duplicate " +:+ family +:+ " edit") ;?
              (if bool_decide (family = "clear_thinking") then
                 reject_if (negb (index =? 0)%nat) (field +:+ ".type")
                   "clear_thinking must be the first context edit" ;?
                 validate_clear_thinking_edit edit index
               else if bool_decide (family = "clear_tool_uses")
               then validate_clear_tool_uses_edit edit index
               else validate_compact_edit edit index) ;?
              validate_edits (family :: known_families) (S index) edits
          end
      end
  end.

Definition validate_context_management (v : option value) : result unit ValidationError :=
  match v with
  | None => Ok tt
  | Some v =>
      if negb (is_object v) then invalid "context_management" "expected an object" else
      match unknown_key ["edits"] v with
      | Some unknown =>
          invalid ("context_management." +:+ unknown) "unsupported context management field"
      | None =>
          match get v "edits" with
          | None => Ok tt
          | Some (Array edits) => validate_edits [] 0 edits
          | Some _ => invalid "context_management.edits" "expected an array"
          end
      end
  end.

(** ** Thinking *)

Definition validate_thinking (thinking : option ThinkingConfig) (max_tokens : option Z) :
    result unit ValidationError :=
  match thinking with
  | None => Ok tt
  | Some thinking =>
      let kind := tc_type thinking in
      let enabled := bool_decide (kind = "enabled") in
      reject_if (negb (bool_decide (kind ∈ ["enabled"; "adaptive"; "disabled"]))) "thinking.type"
        "expected enabled, adaptive, or disabled" ;?
      reject_if (enabled && (unwrap_or (tc_budget_tokens thinking) 0 <? 1024)%Z)
        "thinking.budget_tokens" "enabled thinking requires at least 1024 tokens" ;?
      reject_if (enabled && is_some_and (tc_budget_tokens thinking) (fun budget =>
                   is_some_and max_tokens (fun maximum => maximum <=? budget)%Z))
        "thinking.budget_tokens" "must be less than max_tokens" ;?
      reject_if (negb enabled && is_some (tc_budget_tokens thinking)) "thinking.budget_tokens"
        "budget_tokens is only valid for enabled thinking" ;?
      reject_if (is_some_and (tc_display thinking)
                   (fun display => negb (bool_decide (display ∈ ["summarized"; "omitted"]))))
        "thinking.display" "expected summarized or omitted" ;?
      reject_if (bool_decide (kind = "disabled") && is_some (tc_display thinking)) "thinking.display"
        "display is not valid for disabled thinking"
  end.

Definition validate_claude_output_config (config : option ClaudeOutputConfig) (path : string) :
    result unit ValidationError :=
  reject_if (is_some_and (config ≫= oc_effort)
               (fun effort => negb (bool_decide (effort ∈ ["low"; "medium"; "high"; "xhigh"; "max"]))))
    (path +:+ ".effort") "expected low, medium, high, xhigh, or max".

(** ** Results of server tools *)

Definition check_search_result (field : string) (index : nat) (r : value) :
    result unit ValidationError :=
  let field := field +:+ "." +:+ show_nat index in
  reject_if (negb (bool_decide (get_str r "type" = Some "web_search_result"))) (field +:+ ".type")
    "expected web_search_result" ;?
  each (fun _ name => reject_if (lacks_text r name) (field +:+ "." +:+ name) "is required")
    ["url"; "title"] ;?
  reject_if (lacks_text r "encrypted_content") (field +:+ ".encrypted_content")
    "is required so web search results can be replayed on later turns" ;?
  reject_if (present_unless is_string r "page_age") (field +:+ ".page_age")
    "expected a string or null".

Definition validate_web_search_result (v : option value) (field : string) :
    result unit ValidationError :=
  let wrong :=
    invalid field
      "expected web search result blocks or a web_search_tool_result_error object" in
  match v with
  | Some (Array results) => each (check_search_result field) results
  | Some (Object m) =>
      if bool_decide (get_str (Object m) "type" = Some "web_search_tool_result_error")
      then reject_if (lacks_text (Object m) "error_code") (field +:+ ".error_code") "is required"
      else wrong
  | _ => wrong
  end.

Definition check_reference (field : string) (index : nat) (reference : value) :
    result unit ValidationError :=
  reject_if (negb (bool_decide (get_str reference "type" = Some "tool_reference"))
             || lacks_text reference "tool_name")
    (field +:+ ".tool_references." +:+ show_nat index)
    "expected a tool_reference with tool_name".

Definition validate_tool_search_result (v : option value) (field : string) :
    result unit ValidationError :=
  match v with
  | None => invalid field "is required"
  | Some v =>
      if bool_decide (get_str v "type" = Some "tool_search_tool_search_result") then
        match get v "tool_references" ≫= as_array with
        | None => invalid (field +:+ ".tool_references") "expected an array"
        | Some references => each (check_reference field) references
        end
      else if bool_decide (get_str v "type" = Some "tool_search_tool_result_error") then
        reject_if (negb (has_string v "error_code")) (field +:+ ".error_code") "is required" ;?
        reject_if (present_unless is_string v "error_message") (field +:+ ".error_message")
          "expected a string or null"
      else invalid field "expected a Tool Search result or error"
  end.

(** ** System prompt *)

Definition validate_claude_system (v : option value) : result unit ValidationError :=
  match v with
  | None | Some (Str _) => Ok tt
  | Some (Array blocks) =>
      each (fun index block =>
        reject_if (negb (is_kind "text" block) || negb (has_string block "text"))
          ("system." +:+ show_nat index) "expected a text content block") blocks
  | Some _ => invalid "system" "expected a string or content array"
  end.

(** ** Counting *)

Definition sum_of {A} (f : A -> Z) (l : list A) : Z := foldr (fun x n => f x + n)%Z 0%Z l.

Fixpoint count_claude_documents (block : value) : Z :=
  let nested :=
    if is_kind "tool_result" block then
      unwrap_or
        (get_then (fun content =>
           match content with Array blocks => Some (sum_of count_claude_documents blocks) | _ => None end)
           block "content") 0%Z
    else 0%Z in
  sat_add USIZE_MAX (if is_kind "document" block then 1 else 0) nested.

Definition count_claude_documents_in_content (content : value) : Z :=
  sum_of count_claude_documents (unwrap_or (as_array content) []).

Fixpoint count_claude_images (content : value) : Z :=
  match content with
  | Array blocks =>
      sum_of (fun block =>
        (if is_kind "image" block then 1 else 0)
        + (if is_kind "tool_result" block
           then unwrap_or (get_then (fun nested => Some (count_claude_images nested)) block "content") 0
           else if has_content_source block
           then unwrap_or
                  (get_then (fun source =>
                     get_then (fun nested => Some (count_claude_images nested)) source "content")
                     block "source") 0
           else 0))%Z blocks
  | _ => 0%Z
  end.

(** ** Content blocks *)

Section Blocks.
Context (b64_decode : string -> option bytes) (parse_url : string -> option Url).

Definition check_search_result_block (block : value) (field : string) : result unit ValidationError :=
  each (fun _ name => reject_if (negb (has_string block name)) (field +:+ "." +:+ name)
                        "expected a string") ["source"; "title"] ;?
  match get block "content" ≫= as_array with
  | None => invalid (field +:+ ".content") "expected an array of text blocks"
  | Some parts =>
      each (fun index part =>
        reject_if (negb (bool_decide (get_str part "type" = Some "text"))
                   || negb (has_string part "text"))
          (field +:+ ".content." +:+ show_nat index) "expected a text block") parts ;?
      when_some (not_null (get block "citations")) (fun citations =>
        reject_if (negb (is_object citations)
                   || is_some_and (get citations "enabled") (fun v => negb (is_boolean v)))
          (field +:+ ".citations") "expected citation options with a boolean enabled field")
  end.

(** A call: an id and a name that are not empty, and an object for input. *)
Definition check_call (block : value) (role field what : string) : result unit ValidationError :=
  reject_if (negb (bool_decide (role = "assistant"))) (field +:+ ".type")
    (what +:+ " blocks require an assistant role") ;?
  each (fun _ name => reject_if (lacks_text block name) (field +:+ "." +:+ name) "is required")
    ["id"; "name"] ;?
  reject_if (negb (has_object block "input")) (field +:+ ".input") "expected an object".

(** The result of a server tool, without its content. *)
Definition check_server_result (block : value) (role field what : string) :
    result unit ValidationError :=
  reject_if (negb (bool_decide (role = "assistant"))) (field +:+ ".type")
    (what +:+ " blocks require an assistant role") ;?
  reject_if (lacks_text block "tool_use_id") (field +:+ ".tool_use_id") "is required".

Definition check_compaction (block : value) (role field : string) : result unit ValidationError :=
  reject_if (negb (bool_decide (role = "assistant"))) (field +:+ ".type")
    "compaction blocks require an assistant role" ;?
  match get block "content" with
  | None | Some Null => Ok tt
  | Some (Str content) => reject_if (is_empty content) (field +:+ ".content") "must not be empty"
  | Some _ => invalid (field +:+ ".content") "expected a string or null"
  end.

(** The blocks that a tool result can hold as well are checked first. *)
Fixpoint validate_claude_block (block : value) (role field : string) (tool_result_content : bool) :
    result unit ValidationError :=
  match kind_of block with
  | None => invalid (field +:+ ".type") "is required"
  | Some kind =>
      let kind_is k := bool_decide (kind = k) in
      let top k := kind_is k && negb tool_result_content in
      if kind_is "text" then
        reject_if (negb (has_string block "text")) (field +:+ ".text") "expected a string"
      else if kind_is "search_result" && bool_decide (role = "user") then
        check_search_result_block block field
      else if kind_is "image" then
        reject_if (negb (bool_decide (role = "user"))) (field +:+ ".type")
          "image blocks require a user role" ;?
        validate_image_transformations (get block "transformations") field ;?
        validate_claude_image b64_decode parse_url block field
      else if top "tool_result" then
        reject_if (negb (bool_decide (role = "user"))) (field +:+ ".type")
          "tool_result blocks require a user role" ;?
        reject_if (lacks_text block "tool_use_id") (field +:+ ".tool_use_id") "is required" ;?
        reject_if (is_some_and (get block "is_error") (fun v => negb (is_boolean v)))
          (field +:+ ".is_error") "expected a boolean" ;?
        unwrap_or
          (get_then (fun content => Some
             match content with
             | Str _ => Ok tt
             | Array blocks =>
                 each (fun index nested =>
                   validate_claude_block nested "user"
                     (field +:+ ".content." +:+ show_nat index) true) blocks
             | _ =>
                 invalid (field +:+ ".content")
                   "expected a string or an array of text/image/document blocks"
             end) block "content") (Ok tt)
      else if top "tool_use" then check_call block role field "tool_use"
      else if top "server_tool_use" then check_call block role field "server_tool_use"
      else if top "tool_search_tool_result" then
        check_server_result block role field "tool_search_tool_result" ;?
        validate_tool_search_result (get block "content") (field +:+ ".content")
      else if top "web_search_tool_result" then
        check_server_result block role field "web_search_tool_result" ;?
        reject_if (is_some_and (get block "caller") (fun caller =>
                     negb (bool_decide (get_str caller "type" = Some "direct"))))
          (field +:+ ".caller") "only direct Web Search callers are supported" ;?
        validate_web_search_result (get block "content") (field +:+ ".content")
      else if kind_is "tool_reference" && tool_result_content then
        reject_if (lacks_text block "tool_name") (field +:+ ".tool_name") "is required"
      else if top "thinking" then
        reject_if (negb (bool_decide (role = "assistant")) || negb (has_string block "thinking"))
          (field +:+ ".thinking")
          "thinking blocks require an assistant role and string content" ;?
        reject_if (lacks_text block "signature") (field +:+ ".signature")
          "signed thinking history requires the opaque signature returned by Claude"
      else if top "redacted_thinking" then
        reject_if (negb (bool_decide (role = "assistant")) || lacks_text block "data")
          (field +:+ ".data")
          "redacted_thinking blocks require an assistant role and non-empty opaque data"
      else if top "compaction" then check_compaction block role field
      else if kind_is "document" then
        reject_if (negb (bool_decide (role = "user"))) (field +:+ ".type")
          "document blocks require a user role" ;?
        validate_claude_document b64_decode parse_url block field
      else invalid (field +:+ ".type") ("unsupported Claude content block '" +:+ kind +:+ "'")
  end.

Definition validate_claude_content (content : value) (role field : string) :
    result unit ValidationError :=
  match content with
  | Str _ => Ok tt
  | Array blocks =>
      each (fun index block =>
        validate_claude_block block role (field +:+ "." +:+ show_nat index) false) blocks ;?
      reject_if (MAX_DOCUMENTS_PER_MESSAGE <? sum_of count_claude_documents blocks)%Z field
        ("must contain at most " +:+ show_Z MAX_DOCUMENTS_PER_MESSAGE +:+ " document blocks")
  | _ => invalid field "expected a string or content array"
  end.

(** One message of the loop of [validate_claude_request]. *)
Definition check_message (index : nat) (m : ClaudeMessage) : result unit ValidationError :=
  let field := "messages." +:+ show_nat index in
  (if bool_decide (cm_role m ∈ ["user"; "assistant"; "system"]) then Ok tt
   else Err (InvalidRole (cm_role m))) ;?
  reject_if (is_some (cm_output_config m) && negb (bool_decide (cm_role m = "system")))
    (field +:+ ".output_config")
    "per-message output_config is only supported on system messages" ;?
  validate_claude_output_config (cm_output_config m) (field +:+ ".output_config") ;?
  validate_claude_content (cm_content m) (cm_role m) (field +:+ ".content").
End Blocks.

(** ** The protocol of server tools *)

Inductive ServerToolKind := SToolSearch | SWebSearch.

#[export] Instance server_tool_kind_eq_dec : EqDecision ServerToolKind.
Proof. solve_decision. Defined.

Definition server_tool_kind (name : string) : option ServerToolKind :=
  if bool_decide (name = "web_search") then Some SWebSearch
  else if is_tool_search_type name then Some SToolSearch
  else None.

(** The blocks of all messages with the field that names each. *)
Definition numbered_blocks (r : ClaudeRequest) : list (string * value) :=
  concat (imap (fun i m =>
    imap (fun j block =>
            ("messages." +:+ show_nat i +:+ ".content." +:+ show_nat j, block))
      (unwrap_or (as_array (cm_content m)) [])) (rq_messages r)).

Record ServerUses := {
  all_tool_uses : gmap string string;
  server_tool_uses : gmap string (ServerToolKind * string);
}.

Definition note_use (s : ServerUses) (entry : string * value) : result ServerUses ValidationError :=
  let '(field, block) := entry in
  let server := is_kind "server_tool_use" block in
  if negb (is_kind "tool_use" block || server) then Ok s else
  match get_str block "id" with
  | None => Ok s
  | Some id =>
      match all_tool_uses s !! id with
      | Some previous =>
          invalid (field +:+ ".id")
            ("tool-use id '" +:+ id +:+ "' is already defined at " +:+ previous)
      | None =>
          let uses := <[id := field]> (all_tool_uses s) in
          if negb server
          then Ok {| all_tool_uses := uses; server_tool_uses := server_tool_uses s |} else
          let name := unwrap_or (get_str block "name") EmptyString in
          match server_tool_kind name with
          | None => invalid (field +:+ ".name") ("unsupported server tool '" +:+ name +:+ "'")
          | Some kind =>
              Ok {| all_tool_uses := uses;
                    server_tool_uses := <[id := (kind, field)]> (server_tool_uses s) |}
          end
      end
  end.

Record ServerResults := {
  pending_uses : gmap string (ServerToolKind * string);
  completed_uses : gset string;
}.

Definition result_kind (block : value) : option ServerToolKind :=
  if is_kind "tool_search_tool_result" block then Some SToolSearch
  else if is_kind "web_search_tool_result" block then Some SWebSearch
  else None.

Definition note_result (uses : gmap string (ServerToolKind * string)) (s : ServerResults)
    (entry : string * value) : result ServerResults ValidationError :=
  let '(field, block) := entry in
  if is_kind "server_tool_use" block then
    match get_str block "id" ≫= fun id => (fun use => (id, use)) <$> uses !! id with
    | Some (id, use) =>
        Ok {| pending_uses := <[id := use]> (pending_uses s); completed_uses := completed_uses s |}
    | None => Ok s
    end
  else
    match result_kind block with
    | None =>
        match (if is_kind "tool_result" block then get_str block "tool_use_id" else None) with
        | Some id =>
            if is_some (uses !! id)
            then invalid (field +:+ ".tool_use_id")
                   ("server-tool call '" +:+ id
                    +:+ "' must be completed by its server result block, not tool_result")
            else Ok s
        | None => Ok s
        end
    | Some kind =>
        match get_str block "tool_use_id" with
        | None => Ok s
        | Some id =>
            if bool_decide (id ∈ completed_uses s)
            then invalid (field +:+ ".tool_use_id")
                   ("server-tool call '" +:+ id +:+ "' has more than one result") else
            match pending_uses s !! id with
            | None =>
                invalid (field +:+ ".tool_use_id")
                  ("server-tool result '" +:+ id
                   +:+ (if is_some (uses !! id) then "' appears before its server_tool_use"
                        else "' has no matching server_tool_use"))
            | Some (expected, use_field) =>
                if negb (bool_decide (expected = kind))
                then invalid (field +:+ ".tool_use_id")
                       ("server-tool result '" +:+ id +:+ "' does not match the call at "
                        +:+ use_field)
                else Ok {| pending_uses := delete id (pending_uses s);
                           completed_uses := {[id]} ∪ completed_uses s |}
            end
        end
    end.

Definition no_uses : ServerUses := {| all_tool_uses := ∅; server_tool_uses := ∅ |}.
Definition no_results : ServerResults := {| pending_uses := ∅; completed_uses := ∅ |}.

Definition validate_server_tool_history (r : ClaudeRequest) : result unit ValidationError :=
  let? uses := fold_result note_use no_uses (numbered_blocks r) in
  let? _ := fold_result (note_result (server_tool_uses uses)) no_results (numbered_blocks r) in
  Ok tt.

(** ** Tool references *)

Definition references_of (block : value) : list value :=
  if is_kind "tool_search_tool_result" block
  then unwrap_or (pointer block ["content"; "tool_references"] ≫= as_array) []
  else if is_kind "tool_result" block then unwrap_or (get block "content" ≫= as_array) []
  else [].

Definition validate_tool_references (r : ClaudeRequest) (tool_names : gset string) :
    result unit ValidationError :=
  each (fun _ '(field, block) =>
    each (fun index reference =>
      match (if is_kind "tool_reference" reference then get_str reference "tool_name" else None) with
      | None => Ok tt
      | Some name =>
          reject_if (negb (bool_decide (name ∈ tool_names)))
            (field +:+ ".tool_reference." +:+ show_nat index +:+ ".tool_name")
            ("referenced tool '" +:+ name +:+ "' is not defined in the top-level tools array")
      end) (references_of block)) (numbered_blocks r).

(** ** Tools *)

(** A web search tool of a version that calls from code unless told otherwise. *)
Definition defaults_to_code (kind : string) : bool :=
  matches_type_family kind "web_search"
  && negb (bool_decide (kind ∈ ["web_search"; "web_search_20250305"])).

Definition some_nonempty (domains : option (list string)) : bool :=
  is_some_and domains (fun domains => negb (is_nil domains)).

Definition web_tool_checks (field : string) (tool : ClaudeTool) : result unit ValidationError :=
  reject_if (is_some (ct_input_examples tool)) (field +:+ ".input_examples")
    "input_examples is not supported on Claude server tools" ;?
  reject_if (some_nonempty (ct_allowed_domains tool) || some_nonempty (ct_blocked_domains tool)) field
    "web search domain filters are not supported by the Kiro MCP search endpoint" ;?
  reject_if (is_some (ct_user_location tool)) (field +:+ ".user_location")
    "web search localization is not supported by the Kiro MCP search endpoint" ;?
  reject_if (is_some_and (ct_response_inclusion tool)
               (fun v => negb (bool_decide (v ∈ ["full"; "excluded"]))))
    (field +:+ ".response_inclusion")
    ("expected " +:+ String "034" "full" +:+ String "034" " or " +:+ String "034" "excluded"
     +:+ String "034" EmptyString) ;?
  reject_if (bool_decide (ct_response_inclusion tool = Some "excluded"))
    (field +:+ ".response_inclusion")
    ("response_inclusion=" +:+ String "034" "excluded" +:+ String "034"
     " cannot be emulated because Kiro needs the search results to synthesize the answer") ;?
  reject_if (bool_decide (ct_max_uses tool = Some 0%Z)) (field +:+ ".max_uses") "must be at least 1".

Definition only_direct : string :=
  "allowed_callers=[" +:+ String "034" "direct" +:+ String "034" "]".

(** The kind and the name of a tool. *)
Definition check_tool_kind (field : string) (tool : ClaudeTool) : result unit ValidationError :=
  let kind := ct_type tool in
  reject_if (is_some_and kind (fun kind => matches_type_family kind "web_fetch")) (field +:+ ".type")
    "Claude Web Fetch is not implemented by this proxy; rejecting it avoids exposing a client tool with incompatible server-tool semantics" ;?
  reject_if (bool_decide (kind = Some "mcp_toolset")) (field +:+ ".type")
    "mcp_toolset is not supported; expand it into individual custom tools or use Tool Search with defer_loading" ;?
  reject_if (is_empty (trim (ct_name tool))) (field +:+ ".name") "must not be empty".

Definition is_web_tool (tool : ClaudeTool) : bool :=
  is_some_and (ct_type tool) (fun kind => matches_type_family kind "web_search").
Definition is_search_tool_kind (tool : ClaudeTool) : bool :=
  is_some_and (ct_type tool) is_tool_search_type.

(** What remains to check once the name is known to be new. *)
Definition check_tool_body (field : string) (tool : ClaudeTool) : result unit ValidationError :=
  let kind := ct_type tool in
  let web_tool := is_web_tool tool in
  let search_tool := is_search_tool_kind tool in
  reject_if (is_some_and kind (fun kind => starts_with kind "tool_search_tool_") && negb search_tool)
    (field +:+ ".type")
    ("unsupported Claude Tool Search version '" +:+ unwrap_or kind EmptyString +:+ "'") ;?
  reject_if (web_tool && negb (bool_decide (ct_name tool = "web_search"))) (field +:+ ".name")
    ("web_search server tools must use name=" +:+ String "034" "web_search"
     +:+ String "034" EmptyString) ;?
  reject_if (is_some_and kind (fun kind => negb (bool_decide (kind = "custom")))
             && negb web_tool && negb search_tool)
    (field +:+ ".type") ("unsupported Claude server tool '" +:+ unwrap_or kind EmptyString +:+ "'") ;?
  (if web_tool || search_tool then Ok tt else
   match validate_tool (ct_name tool) (ct_input_schema tool) with
   | Ok _ => Ok tt
   | Err ToolNameTooLong => Err ToolNameTooLong
   | Err error => invalid (field +:+ ".input_schema") (error_to_string error)
   end) ;?
  let? breakpoints := validate_cache_control (ct_cache_control tool) (field +:+ ".cache_control") in
  reject_if (is_some_and (ct_allowed_callers tool)
               (fun callers => negb (bool_decide (callers = ["direct"]))))
    (field +:+ ".allowed_callers")
    ("only " +:+ only_direct
     +:+ " is supported; code-execution callers cannot be emulated by Kiro") ;?
  reject_if (is_some_and kind defaults_to_code && is_none (ct_allowed_callers tool))
    (field +:+ ".allowed_callers")
    ("this web search version defaults to code execution; set " +:+ only_direct
     +:+ " for Kiro compatibility") ;?
  (if web_tool then web_tool_checks field tool
   else
     reject_if (is_some (ct_max_uses tool) || is_some (ct_allowed_domains tool)
                || is_some (ct_blocked_domains tool) || is_some (ct_user_location tool)
                || is_some (ct_response_inclusion tool)) field
       "web search configuration fields are only valid on web_search server tools") ;?
  reject_if (ct_defer_loading tool && (0 <? breakpoints)%Z) (field +:+ ".cache_control")
    "deferred tools cannot define cache_control" ;?
  reject_if (search_tool && ct_defer_loading tool) (field +:+ ".defer_loading")
    "the Tool Search tool must be loaded immediately" ;?
  reject_if (search_tool && is_some (ct_input_examples tool)) (field +:+ ".input_examples")
    "input_examples is not supported on Claude server tools" ;?
  reject_if (is_some_and (ct_input_examples tool)
               (existsb (fun example => negb (is_object example))))
    (field +:+ ".input_examples") "every input example must be an object".

Fixpoint validate_claude_tools (seen_tool_names : gset string) (index : nat)
    (tools : list ClaudeTool) : result (gset string) ValidationError :=
  match tools with
  | [] => Ok seen_tool_names
  | tool :: tools =>
      let field := "tools." +:+ show_nat index in
      check_tool_kind field tool ;?
      reject_if (bool_decide (ct_name tool ∈ seen_tool_names)) (field +:+ ".name")
        "tool names must be unique" ;?
      check_tool_body field tool ;?
      validate_claude_tools ({[ct_name tool]} ∪ seen_tool_names) (S index) tools
  end.

(** The tool a forced choice names. *)
Definition choice_names (name : string) (tool : ClaudeTool) : bool :=
  bool_decide (ct_name tool = name) || bool_decide (ct_type tool = Some name)
  || (bool_decide (name = "web_search")
      && is_some_and (ct_type tool) (fun kind => matches_type_family kind "web_search"))
  || (bool_decide (name = "web_fetch")
      && is_some_and (ct_type tool) (fun kind => matches_type_family kind "web_fetch")).

Definition validate_claude_tool_choice (r : ClaudeRequest) : result unit ValidationError :=
  when_some (rq_tool_choice r) (fun choice =>
    let kind := tch_type choice in
    reject_if (negb (bool_decide (kind ∈ ["auto"; "any"; "tool"; "none"]))) "tool_choice.type"
      "expected auto, any, tool, or none" ;?
    (if bool_decide (kind = "tool") then
       match opt_filter (fun name => negb (is_empty (trim name))) (tch_name choice) with
       | None => invalid "tool_choice.name" "a tool name is required"
       | Some name =>
           reject_if (negb (existsb (choice_names name) (rq_tools r))) "tool_choice.name"
             ("tool '" +:+ name +:+ "' was not found")
       end
     else
       reject_if (is_some (tch_name choice)) "tool_choice.name"
         "name is only valid when tool_choice.type is tool") ;?
    reject_if (bool_decide (kind = "any") && is_nil (rq_tools r)) "tool_choice.type"
      "any requires at least one tool" ;?
    reject_if (bool_decide (kind ∈ ["any"; "tool"])
               && is_some_and (rq_thinking r) (fun thinking => bool_decide (tc_type thinking = "enabled")))
      "tool_choice.type" "forced tool choice is incompatible with enabled thinking").

(** ** Requests *)

Section Request.
Context (b64_decode : string -> option bytes) (parse_url : string -> option Url).
(** Lengths of what [serde_json] prints; [None] when it cannot. *)
Context (tool_len : ClaudeTool -> option Z) (examples_string : list value -> option string).

Definition in_range_f64 (lo hi x : f64) : bool := F64.leb lo x && F64.leb x hi.

Definition validate_stop_sequences (sequences : list string) : result unit ValidationError :=
  reject_if (existsb is_empty sequences) "stop_sequences" "sequences must not be empty" ;?
  reject_if (MAX_STOP_SEQUENCES <? Z.of_nat (length sequences))%Z "stop_sequences"
    ("must contain at most " +:+ show_Z MAX_STOP_SEQUENCES +:+ " sequences") ;?
  reject_if (existsb (fun s => MAX_STOP_SEQUENCE_BYTES <? Z.of_nat (len s))%Z sequences)
    "stop_sequences"
    ("each sequence must be at most " +:+ show_Z MAX_STOP_SEQUENCE_BYTES +:+ " bytes") ;?
  reject_if (MAX_STOP_SEQUENCE_TOTAL_BYTES
             <? fold_left (fun n s => sat_add USIZE_MAX n (Z.of_nat (len s))) sequences 0)%Z
    "stop_sequences"
    ("sequences must total at most " +:+ show_Z MAX_STOP_SEQUENCE_TOTAL_BYTES +:+ " bytes").

Definition add_bytes (st : Z * Z) (tool : ClaudeTool) : Z * Z :=
  let '(loaded, deferred) := st in
  let size := unwrap_or (tool_len tool) USIZE_MAX in
  if ct_defer_loading tool
  then (loaded, sat_add USIZE_MAX (sat_add USIZE_MAX deferred size) 1)
  else (sat_add USIZE_MAX (sat_add USIZE_MAX loaded size) 1, deferred).

Definition documentation_chars (tool : ClaudeTool) : Z :=
  Z.of_nat (char_count (ct_description tool))
  + unwrap_or ((fun text => Z.of_nat (char_count text))
                 <$> (ct_input_examples tool ≫= examples_string)) 0%Z.

Definition or_error (condition : bool) (error : ValidationError) : result unit ValidationError :=
  if condition then Err error else Ok tt.

(** The sizes of the tool catalog. *)
Definition validate_tool_sizes (r : ClaudeRequest) : result unit ValidationError :=
  let deferred_count := Z.of_nat (length (filter (fun tool => ct_defer_loading tool = true) (rq_tools r))) in
  let loaded_count := sat_sub (Z.of_nat (length (rq_tools r))) deferred_count in
  or_error (MAX_TOOLS <? loaded_count)%Z TooManyTools ;?
  or_error (MAX_DEFERRED_TOOLS <? deferred_count)%Z TooManyDeferredTools ;?
  or_error (existsb (fun tool => is_none_or (tool_len tool) (fun n => MAX_TOOL_BYTES <? n)%Z) (rq_tools r))
    ToolDefinitionTooLarge ;?
  let '(loaded_bytes, deferred_bytes) := fold_left add_bytes (rq_tools r) (2, 2)%Z in
  or_error (MAX_LOADED_TOOL_BYTES <? loaded_bytes)%Z LoadedToolDefinitionsTooLarge ;?
  or_error (MAX_DEFERRED_TOOL_BYTES <? deferred_bytes)%Z DeferredToolDefinitionsTooLarge ;?
  reject_if ((0 <? deferred_count) && (loaded_count =? 0))%Z "tools"
    "at least one tool must have defer_loading=false" ;?
  or_error (MAX_TOOL_DOC_CHARS
            <? sum_of documentation_chars (filter (fun tool => ct_defer_loading tool = false) (rq_tools r)))%Z
    ToolDocumentationTooLarge.

Definition messages_images (r : ClaudeRequest) : Z :=
  fold_left (fun n m => sat_add USIZE_MAX n (count_claude_images (cm_content m))) (rq_messages r) 0%Z.
Definition messages_documents (r : ClaudeRequest) : Z :=
  fold_left (fun n m => sat_add USIZE_MAX n (count_claude_documents_in_content (cm_content m)))
    (rq_messages r) 0%Z.

Definition validate_claude_request (r : ClaudeRequest) (counting : bool) :
    result unit ValidationError :=
  common (rq_model r) (is_nil (rq_messages r)) ;?
  reject_if (negb counting && (rq_max_tokens r =? 0)%Z) "max_tokens"
    "zero-token cache warming is not supported by Kiro; setting maxTokens to zero can still generate output" ;?
  reject_if (is_some_and (rq_temperature r) (fun t => negb (in_range_f64 F64.zero F64.one t)))
    "temperature" "must be in 0..=1" ;?
  reject_if (is_some_and (rq_top_p r) (fun t => negb (in_range_f64 F64.zero F64.one t)))
    "top_p" "must be in 0..=1" ;?
  validate_stop_sequences (rq_stop_sequences r) ;?
  validate_claude_system (rq_system r) ;?
  validate_claude_output_config (rq_output_config r) "output_config" ;?
  reject_if (is_some_and (rq_metadata r) (fun v => negb (is_object v))) "metadata"
    "expected an object" ;?
  reject_if (is_some_and (rq_conversation_id r)
               (fun id => is_empty (trim id) || (256 <? Z.of_nat (len id))%Z)) "conversation_id"
    "must be a non-empty string of at most 256 bytes" ;?
  each (check_message b64_decode parse_url) (rq_messages r) ;?
  reject_if (MAX_IMAGES_PER_REQUEST <? messages_images r)%Z "messages"
    ("must contain at most " +:+ show_Z MAX_IMAGES_PER_REQUEST +:+ " image blocks") ;?
  reject_if (MAX_DOCUMENTS_PER_REQUEST <? messages_documents r)%Z "messages"
    ("must contain at most " +:+ show_Z MAX_DOCUMENTS_PER_REQUEST +:+ " document blocks") ;?
  validate_server_tool_history r ;?
  validate_tool_sizes r ;?
  let? seen_tool_names := validate_claude_tools ∅ 0 (rq_tools r) in
  validate_claude_cache_controls r ;?
  validate_tool_references r seen_tool_names ;?
  validate_claude_tool_choice r ;?
  validate_thinking (rq_thinking r) (if counting then None else Some (rq_max_tokens r)) ;?
  validate_context_management (rq_context_management r).

Definition validate_claude (r : ClaudeRequest) : result unit ValidationError :=
  validate_claude_request r false.

Definition validate_claude_count (r : ClaudeRequest) : result unit ValidationError :=
  validate_claude_request r true.
End Request.

(** A request to generate must not end in an assistant's turn. *)
Definition validate_claude_generation (r : ClaudeRequest) : result unit ValidationError :=
  match last (filter (fun '(_, m) => cm_role m <> "system") (imap pair (rq_messages r))) with
  | Some (index, m) =>
      reject_if (bool_decide (cm_role m = "assistant"))
        ("messages." +:+ show_nat index +:+ ".role")
        "assistant prefill is not supported by the Kiro upstream"
  | None => Ok tt
  end.
