(* ===== verification/ServerToolFacts.v ===== *)
(** * The protocol of server tools in an accepted history

    The two passes of [validate_server_tool_history] against what they ask of the
    blocks of the conversation, read from its beginning: every call is new and
    of a known server tool, and every result answers an earlier call of its own
    kind that nothing has answered. *)

From Stdlib Require Import ZArith Lia Ascii String.
From stdpp Require Import base list gmap sets strings.
From S2P Require Import Prelude RustStr F64 Json Text Protocol ToolHistory.
From S2P Require Import Content Translate Schema Validate.

Local Open Scope kproxy_scope.
Local Open Scope string_scope.
Local Open Scope list_scope.

(** ** Passes over a list *)

(** What each element of a list owes those before it. *)
Fixpoint at_each {A} (P : list A -> A -> Prop) (before l : list A) : Prop :=
  match l with
  | [] => True
  | x :: l => P before x /\ at_each P (before ++ [x]) l
  end.

Lemma at_each_split {A} (P : list A -> A -> Prop) before l :
  at_each P before l <-> forall k x k', l = k ++ x :: k' -> P (before ++ k) x.
Proof.
  revert before; induction l as [|y l IH]; intros before; cbn [at_each].
  { split; [|done]. intros _ k x k' H. by destruct k. }
  rewrite IH. split.
  - intros [Hy Hl] [|z k] x k' H; simplify_list_eq; [by rewrite ?app_nil_r|].
    specialize (Hl k x k' eq_refl). by rewrite <- app_assoc in Hl.
  - intros H. split; [specialize (H [] y l eq_refl); by rewrite app_nil_r in H|].
    intros k x k' ->. rewrite <- app_assoc. by apply (H (y :: k) x k').
Qed.

Lemma at_each_and {A} (P Q : list A -> A -> Prop) before l :
  at_each (fun k x => P k x /\ Q k x) before l <-> at_each P before l /\ at_each Q before l.
Proof. revert before; induction l as [|x l IH]; intros before; cbn [at_each]; [done|]. rewrite IH. tauto. Qed.

Section Pass.
Context {A B S : Type} (f : S -> A -> result S ValidationError) (block_of : A -> B).
Context (Rep : list B -> S -> Prop) (P Q : list B -> B -> Prop).
Context (step_ok : forall before s x, Rep before s -> Q before (block_of x) ->
  (P before (block_of x) <-> exists s', f s x = Ok s')).
Context (step_rep : forall before s x s', Rep before s -> Q before (block_of x) ->
  f s x = Ok s' -> Rep (before ++ [block_of x]) s').

(** A pass succeeds where each element meets its condition, and then its state
    stands for the whole list. *)
Lemma fold_result_spec l before s :
  Rep before s -> at_each Q before (block_of <$> l) ->
  (at_each P before (block_of <$> l) <-> exists s', fold_result f s l = Ok s')
  /\ forall s', fold_result f s l = Ok s' -> Rep (before ++ (block_of <$> l)) s'.
Proof.
  revert before s; induction l as [|x l IH]; intros before s Hr; cbn [fold_result fmap list_fmap at_each].
  { intros _. rewrite app_nil_r. split; [by split; eauto|]. by intros s' [= <-]. }
  intros [Hq Hqs]. pose proof (step_ok _ _ _ Hr Hq) as Hok.
  destruct (f s x) as [s1|e] eqn:E; cbn [result_bind].
  - destruct (IH _ s1 (step_rep _ _ _ _ Hr Hq E) Hqs) as [H1 H2]. split.
    + rewrite H1, Hok. split; [by intros [_ ?]|]. split; [by exists s1|done].
    + intros s' Hs'. specialize (H2 s' Hs'). by rewrite <- app_assoc in H2.
  - split; [|done]. rewrite Hok. split; [by intros [[? ?] _]|by intros [? ?]].
Qed.
End Pass.

(** ** What the blocks say *)

Definition blocks_of (r : ClaudeRequest) : list value :=
  rq_messages r ≫= fun m => unwrap_or (as_array (cm_content m)) [].

(** The id of a call, of the client's tools or the server's. *)
Definition use_id (block : value) : option string :=
  if is_kind "tool_use" block || is_kind "server_tool_use" block then get_str block "id" else None.

Definition called_name (block : value) : string := unwrap_or (get_str block "name") EmptyString.

(** The id and the tool of a call that the server runs. *)
Definition server_call (block : value) : option (string * ServerToolKind) :=
  if is_kind "server_tool_use" block
  then get_str block "id" ≫= fun id => (fun kind => (id, kind)) <$> server_tool_kind (called_name block)
  else None.

(** The id and the tool of a result of the server. *)
Definition server_answer (block : value) : option (string * ServerToolKind) :=
  result_kind block ≫= fun kind => (fun id => (id, kind)) <$> get_str block "tool_use_id".

Definition client_answer (block : value) : option string :=
  if is_kind "tool_result" block then get_str block "tool_use_id" else None.

Definition new_call (before : list value) (block : value) : Prop :=
  forall id, use_id block = Some id ->
    (id ∉ omap use_id before)
    /\ (is_kind "server_tool_use" block = true -> is_Some (server_tool_kind (called_name block))).

Definition due_answer (blocks before : list value) (block : value) : Prop :=
  (forall id kind, server_answer block = Some (id, kind) ->
     (id, kind) ∈ omap server_call before /\ id ∉ (omap server_answer before).*1)
  /\ (forall id, client_answer block = Some id -> id ∉ (omap server_call blocks).*1).

Lemma concat_imap_fmap {A B C} (l : list A) (g : nat -> A -> list B) (p : B -> C) h :
  (forall i x, p <$> g i x = h x) -> p <$> concat (imap g l) = l ≫= h.
Proof.
  revert g; induction l as [|x l IH]; intros g Hg; [done|].
  cbn [imap concat]. rewrite fmap_app, bind_cons, Hg. f_equal. apply IH. intros i y. apply Hg.
Qed.

Lemma numbered_blocks_of r : (numbered_blocks r).*2 = blocks_of r.
Proof.
  apply concat_imap_fmap. intros i m. rewrite fmap_imap.
  generalize (unwrap_or (as_array (cm_content m)) []) as l. intros l.
  induction l as [|b l IH] using rev_ind; [done|]. rewrite imap_app, IH. done.
Qed.

(** ** The calls *)

Definition uses_of (before : list value) (s : ServerUses) : Prop :=
  (forall id, is_Some (all_tool_uses s !! id) <-> id ∈ omap use_id before)
  /\ (forall id kind, fst <$> (server_tool_uses s !! id) = Some kind
        <-> (id, kind) ∈ omap server_call before).

Lemma omap_snoc {A B} (f : A -> option B) l x : omap f (l ++ [x]) = omap f l ++ option_list (f x).
Proof. rewrite omap_app. f_equal. Qed.

Lemma elem_of_option_list {A} (x : A) o : x ∈ option_list o <-> o = Some x.
Proof.
  destruct o as [y|]; simpl; [rewrite list_elem_of_singleton|rewrite elem_of_nil].
  - split; [by intros ->|by intros [= ->]].
  - by split.
Qed.

Lemma server_call_id block id kind : server_call block = Some (id, kind) -> use_id block = Some id.
Proof.
  unfold server_call, use_id. destruct (is_kind "server_tool_use" block); [|done]. rewrite orb_true_r.
  destruct (get_str block "id"); cbn; [|done]. by destruct (server_tool_kind _); intros [= -> ->].
Qed.

Lemma server_call_used (before : list value) id kind : (id, kind) ∈ omap server_call before -> id ∈ omap use_id before.
Proof.
  rewrite !list_elem_of_omap. intros (b & Hb & Hc). exists b. split; [done|]. by eapply server_call_id.
Qed.

Lemma note_use_ok before s entry :
  uses_of before s -> (new_call before entry.2 <-> exists s', note_use s entry = Ok s').
Proof.
  intros [Hall _]. destruct entry as [field block]. unfold new_call, use_id, called_name. cbn [snd note_use].
  destruct (is_kind "tool_use" block || is_kind "server_tool_use" block); cbn [negb];
    [|split; [by eauto|done]].
  destruct (get_str block "id") as [id|]; [|split; [by eauto|done]].
  destruct (all_tool_uses s !! id) as [previous|] eqn:E.
  - split; [|by intros [? ?]]. intros H. destruct (H id eq_refl) as [Hno _]. destruct Hno.
    apply Hall. by rewrite E.
  - assert (Hno : id ∉ omap use_id before) by (rewrite <- Hall, E; by intros [? ?]).
    destruct (is_kind "server_tool_use" block); cbn [negb]; [|split; [by eauto|by intros _ ? [= <-]]].
    destruct (server_tool_kind _) as [kind|].
    + split; [by eauto|]. intros _ ? [= <-]. by split.
    + split; [|by intros [? ?]]. intros H. destruct (H id eq_refl) as [_ Hk]. by destruct (Hk eq_refl).
Qed.

Lemma note_use_rep before s entry s' :
  uses_of before s -> note_use s entry = Ok s' -> uses_of (before ++ [entry.2]) s'.
Proof.
  intros [Hall Hserver] H. destruct entry as [field block]. cbn [snd note_use] in *.
  assert (Hsnoc : use_id block = None -> uses_of (before ++ [block]) s).
  { intros Hu. assert (Hc : server_call block = None).
    { destruct (server_call block) as [[id kind]|] eqn:E; [|done].
      apply server_call_id in E. congruence. }
    split; intros; rewrite omap_snoc, ?Hu, ?Hc; simpl; rewrite app_nil_r; [apply Hall|apply Hserver]. }
  unfold use_id in Hsnoc.
  destruct (is_kind "tool_use" block || is_kind "server_tool_use" block) eqn:Hu; cbn [negb] in H;
    [|injection H as <-; by apply Hsnoc].
  destruct (get_str block "id") as [id|] eqn:Hid; [|injection H as <-; by apply Hsnoc].
  clear Hsnoc. destruct (all_tool_uses s !! id) eqn:E; [done|].
  assert (Huse : use_id block = Some id) by (unfold use_id; by rewrite Hu).
  assert (Hall' : forall id', is_Some (<[id := field]> (all_tool_uses s) !! id')
    <-> id' ∈ omap use_id (before ++ [block])).
  { intros id'. rewrite omap_snoc, elem_of_app, elem_of_option_list, Huse, lookup_insert_is_Some', Hall.
    naive_solver. }
  assert (Hold : forall kind, (id, kind) ∉ omap server_call before).
  { intros kind Hk%server_call_used. apply Hall in Hk. rewrite E in Hk. by destruct Hk. }
  destruct (is_kind "server_tool_use" block) eqn:Hs; cbn [negb] in H.
  - fold (called_name block) in H.
    destruct (server_tool_kind (called_name block)) as [kind|] eqn:Hk; [|done]. injection H as <-.
    assert (Hcall : server_call block = Some (id, kind)).
    { unfold server_call. rewrite Hs, Hid. cbn. by rewrite Hk. }
    split; [exact Hall'|]. intros id' kind'. cbn [server_tool_uses].
    rewrite omap_snoc, elem_of_app, elem_of_option_list, Hcall.
    destruct (decide (id' = id)) as [->|Hne].
    + rewrite lookup_insert_eq. cbn. specialize (Hold kind'). naive_solver.
    + rewrite lookup_insert_ne, Hserver by done. naive_solver.
  - injection H as <-. split; [exact Hall'|]. intros id' kind'. cbn [server_tool_uses].
    rewrite omap_snoc. unfold server_call at 2. rewrite Hs. simpl. rewrite app_nil_r. apply Hserver.
Qed.

(** ** The results *)

Section Results.
Context (blocks : list value) (uses : ServerUses).
Context (Huses : uses_of blocks uses).

Definition answered (before : list value) : list string := (omap server_answer before).*1.

(** What the second pass knows after the blocks before. *)
Record results_of_blocks (before : list value) (s : ServerResults) : Prop := {
  rob_pending : forall id kind, fst <$> (pending_uses s !! id) = Some kind
    <-> (id, kind) ∈ omap server_call before /\ id ∉ answered before;
  rob_completed : forall id, id ∈ completed_uses s <-> id ∈ answered before;
  rob_called : forall id, id ∈ answered before -> id ∈ omap use_id before;
}.

(** The condition of the first pass, with the block among those of the history. *)
Definition fits (before : list value) (block : value) : Prop :=
  block ∈ blocks /\ new_call before block.

Lemma server_use_called id :
  is_Some (server_tool_uses uses !! id) <-> id ∈ (omap server_call blocks).*1.
Proof.
  destruct Huses as [_ H]. rewrite list_elem_of_fmap. split.
  - intros [[kind field] E]. exists (id, kind). split; [done|]. apply H. by rewrite E.
  - intros ([id' kind] & -> & Hin%H). cbn. by destruct (server_tool_uses uses !! id').
Qed.

Lemma server_use_kind block id :
  block ∈ blocks -> is_kind "server_tool_use" block = true -> get_str block "id" = Some id ->
  is_Some (server_tool_kind (called_name block)) ->
  exists kind field, server_call block = Some (id, kind) /\ server_tool_uses uses !! id = Some (kind, field).
Proof.
  intros Hb Hs Hid [kind Hk]. assert (Hc : server_call block = Some (id, kind)).
  { unfold server_call. rewrite Hs, Hid. cbn. by rewrite Hk. }
  exists kind. destruct Huses as [_ H].
  assert (E : fst <$> (server_tool_uses uses !! id) = Some kind).
  { apply H, list_elem_of_omap. by exists block. }
  destruct (server_tool_uses uses !! id) as [[? field]|]; simplify_eq/=. by exists field.
Qed.

(** How the second pass reads a block. *)
Lemma note_result_call s field block :
  is_kind "server_tool_use" block = true ->
  note_result (server_tool_uses uses) s (field, block) =
    match get_str block "id" ≫= fun id => (fun use => (id, use)) <$> server_tool_uses uses !! id with
    | Some (id, use) =>
        Ok {| pending_uses := <[id := use]> (pending_uses s); completed_uses := completed_uses s |}
    | None => Ok s
    end.
Proof. cbn [note_result]. by intros ->. Qed.

Lemma other_kind_answers block :
  is_kind "server_tool_use" block = true -> server_answer block = None /\ client_answer block = None.
Proof.
  unfold server_answer, result_kind, client_answer, is_kind. intros ->%bool_decide_eq_true.
  by vm_compute.
Qed.

Lemma answered_snoc before block :
  answered (before ++ [block]) = answered before ++ option_list (fst <$> server_answer block).
Proof. unfold answered. rewrite omap_snoc, fmap_app. by destruct (server_answer block). Qed.

(** A block that neither calls nor answers. *)
Lemma results_idle before s block :
  results_of_blocks before s -> server_call block = None -> server_answer block = None ->
  results_of_blocks (before ++ [block]) s.
Proof.
  intros [Hp Hc Hu] Hcall Hans.
  assert (Ha : answered (before ++ [block]) = answered before).
  { rewrite answered_snoc, Hans. apply app_nil_r. }
  split; intros id; rewrite Ha; [|done|].
  - intros kind. rewrite omap_snoc, Hcall. simpl. by rewrite app_nil_r.
  - intros Hid. rewrite omap_snoc, elem_of_app. left. by apply Hu.
Qed.

Lemma result_call_ok before s field block :
  results_of_blocks before s -> fits before block -> is_kind "server_tool_use" block = true ->
  exists s', note_result (server_tool_uses uses) s (field, block) = Ok s'
             /\ results_of_blocks (before ++ [block]) s'.
Proof.
  intros Hr [Hb Hnew] Hs. rewrite note_result_call by done.
  destruct (other_kind_answers block Hs) as [Hans _].
  destruct (get_str block "id") as [id|] eqn:Hid; cbn [mbind option_bind].
  2:{ exists s. split; [done|]. apply results_idle; [done| |done]. unfold server_call. by rewrite Hs, Hid. }
  assert (Huse : use_id block = Some id) by (unfold use_id; by rewrite Hs, orb_true_r).
  destruct (Hnew id Huse) as [Hfresh Hknown].
  destruct (server_use_kind block id Hb Hs Hid (Hknown Hs)) as (kind & use & Hcall & ->).
  cbn [fmap option_fmap option_map]. eexists; split; [done|]. destruct Hr as [Hp Hc Hu].
  split; intros id'; cbn [pending_uses completed_uses]; rewrite ?answered_snoc, Hans; simpl; rewrite ?app_nil_r.
  - intros kind'. rewrite omap_snoc, elem_of_app, elem_of_option_list, Hcall.
    destruct (decide (id' = id)) as [->|Hne].
    + rewrite lookup_insert_eq. cbn. split.
      * intros [= ->]. split; [by right|]. intros Ha. by apply Hfresh, Hu.
      * intros [[Hold|[= ->]] _]; [|done]. by apply server_call_used in Hold.
    + rewrite lookup_insert_ne, Hp by done. naive_solver.
  - done.
  - intros Ha. rewrite omap_snoc, elem_of_app. left. by apply Hu.
Qed.

Lemma server_answer_parts block id kind :
  server_answer block = Some (id, kind) -> result_kind block = Some kind /\ get_str block "tool_use_id" = Some id.
Proof.
  unfold server_answer. destruct (result_kind block); cbn; [|done].
  destruct (get_str block "tool_use_id"); cbn; [|done]. by intros [= -> ->].
Qed.

Lemma result_not_call block kind : result_kind block = Some kind ->
  is_kind "server_tool_use" block = false /\ is_kind "tool_use" block = false /\ is_kind "tool_result" block = false.
Proof.
  unfold result_kind, is_kind. repeat case_bool_decide; try done; intros _; split_and!; by simplify_eq || congruence.
Qed.

Lemma not_server_call block : is_kind "server_tool_use" block = false -> server_call block = None.
Proof. unfold server_call. by intros ->. Qed.

(** A result of the server. *)
Lemma result_answer_step before s field block kind id :
  results_of_blocks before s -> result_kind block = Some kind -> get_str block "tool_use_id" = Some id ->
  (((id, kind) ∈ omap server_call before /\ id ∉ answered before)
   /\ exists s', note_result (server_tool_uses uses) s (field, block) = Ok s'
                 /\ results_of_blocks (before ++ [block]) s')
  \/ (~ ((id, kind) ∈ omap server_call before /\ id ∉ answered before)
      /\ exists e, note_result (server_tool_uses uses) s (field, block) = Err e).
Proof.
  intros [Hp Hc Hu] Hk Hid. destruct (result_not_call block kind Hk) as (Hs & _ & _).
  cbn [note_result]. rewrite Hs, Hk, Hid.
  assert (Hans : server_answer block = Some (id, kind)) by (unfold server_answer; rewrite Hk, Hid; done).
  case_bool_decide as Hdone; [right; split; [|by eexists]; rewrite <- Hc; tauto|].
  rewrite <- Hp. destruct (pending_uses s !! id) as [[expected use_field]|] eqn:Ep;
    [|right; split; [done|by eexists]].
  cbn [fmap option_fmap option_map fst]. case_bool_decide as He; subst; cbn [negb];
    [|right; split; [congruence|by eexists]].
  left. split; [done|]. eexists; split; [done|].
  assert (Hcalled : (id, kind) ∈ omap server_call before) by (apply Hp; by rewrite Ep).
  assert (Hin : forall id', id' ∈ answered (before ++ [block]) <-> id' ∈ answered before \/ id' = id).
  { intros id'. rewrite answered_snoc, elem_of_app, Hans, elem_of_option_list. naive_solver. }
  split; intros id'; cbn [pending_uses completed_uses].
  - intros kind'. rewrite Hin, omap_snoc, (not_server_call _ Hs). simpl. rewrite app_nil_r.
    destruct (decide (id' = id)) as [->|Hne].
    + rewrite lookup_delete_eq. cbn. split; [done|]. intros [_ H]. destruct H. by right.
    + rewrite lookup_delete_ne, Hp by done. naive_solver.
  - rewrite Hin, elem_of_union, elem_of_singleton, Hc. tauto.
  - rewrite Hin, omap_snoc, elem_of_app. intros [H| ->]; left; [by apply Hu|].
    by eapply server_call_used.
Qed.

Lemma note_result_step before s entry :
  results_of_blocks before s -> fits before entry.2 ->
  (due_answer blocks before entry.2
   /\ exists s', note_result (server_tool_uses uses) s entry = Ok s'
                 /\ results_of_blocks (before ++ [entry.2]) s')
  \/ (~ due_answer blocks before entry.2 /\ exists e, note_result (server_tool_uses uses) s entry = Err e).
Proof.
  intros Hr Hf. destruct entry as [field block]; cbn [snd] in *. unfold due_answer.
  fold (answered before). destruct (is_kind "server_tool_use" block) eqn:Hs.
  { left. destruct (other_kind_answers block Hs) as [-> ->]. split; [by split|]. by apply result_call_ok. }
  pose proof (not_server_call _ Hs) as Hcall.
  destruct (result_kind block) as [kind|] eqn:Hk.
  - destruct (result_not_call block kind Hk) as (_ & _ & Hn).
    assert (Hclient : client_answer block = None) by (unfold client_answer; by rewrite Hn).
    rewrite Hclient. destruct (get_str block "tool_use_id") as [id|] eqn:Hid.
    + assert (Hans : server_answer block = Some (id, kind)) by (unfold server_answer; rewrite Hk, Hid; done).
      destruct (result_answer_step before s field block kind id Hr Hk Hid) as [[Hd H]|[Hd H]]; [left|right];
        (split; [|done]).
      * rewrite Hans. split; [|done]. by intros ? ? [= <- <-].
      * intros [Hdue _]. apply Hd. by apply Hdue.
    + assert (Hans : server_answer block = None) by (unfold server_answer; rewrite Hk, Hid; done).
      left. rewrite Hans. split; [by split|]. exists s. cbn [note_result]. rewrite Hs, Hk, Hid.
      split; [done|]. by apply results_idle.
  - assert (Hans : server_answer block = None) by (unfold server_answer; by rewrite Hk).
    cbn [note_result]. rewrite Hans, Hs, Hk. fold (client_answer block).
    destruct (client_answer block) as [id|]; [|left; split; [by split|]; exists s; split; [done|];
                                               by apply results_idle].
    destruct (server_tool_uses uses !! id) eqn:E; cbn [is_some].
    + right. split; [|by eexists]. intros [_ H]. apply (H id eq_refl), server_use_called. by rewrite E.
    + left. split; [|exists s; split; [done|by apply results_idle]].
      split; [done|]. intros ? [= <-]. rewrite <- server_use_called, E. by intros [? ?].
Qed.
End Results.

(** ** The whole check *)

Lemma uses_start : uses_of [] no_uses.
Proof.
  split; intros; cbn [all_tool_uses server_tool_uses no_uses]; rewrite lookup_empty; simpl;
    rewrite elem_of_nil; split; try done.
Qed.

Lemma results_start : results_of_blocks [] no_results.
Proof.
  split; cbn [pending_uses completed_uses no_results].
  - intros id kind. rewrite lookup_empty. simpl. rewrite elem_of_nil. split; [done|tauto].
  - intros id. split; [by intros ?%elem_of_empty|by intros ?%elem_of_nil].
  - by intros id ?%elem_of_nil.
Qed.

Lemma at_each_trivial {A} (before l : list A) : at_each (fun _ _ => True) before l.
Proof. revert before; induction l as [|x l IH]; intros before; cbn [at_each]; auto. Qed.

Lemma at_each_member {A} (P : list A -> A -> Prop) (blocks before l : list A) :
  (forall x, x ∈ l -> x ∈ blocks) -> at_each P before l -> at_each (fun k x => x ∈ blocks /\ P k x) before l.
Proof.
  revert before; induction l as [|x l IH]; intros before Hin; cbn [at_each]; [done|].
  intros [Hx Hl]. split; [split; [apply Hin; by left|done]|]. apply IH; [|done].
  intros y Hy. apply Hin. by right.
Qed.

(** What the history of a request owes: each block, given those before it. *)
Definition server_history (blocks before : list value) (block : value) : Prop :=
  new_call before block /\ due_answer blocks before block.

(** The history of server tools is accepted exactly when, reading the blocks
    of the conversation in order, every call has an id of its own and a known
    server tool where the server runs it, every server result answers an earlier
    call of its kind that no result has answered, and no client result answers a
    call of the server. *)
Theorem server_history_spec r :
  validate_server_tool_history r = Ok tt
  <-> forall before block after, blocks_of r = before ++ block :: after ->
        server_history (blocks_of r) before block.
Proof.
  transitivity (at_each (server_history (blocks_of r)) [] (blocks_of r)); [|apply at_each_split].
  unfold server_history. rewrite at_each_and. unfold validate_server_tool_history.
  rewrite <- (numbered_blocks_of r) at 1 3.
  destruct (fold_result_spec note_use snd uses_of new_call (fun _ _ => True)
    (fun before s x Hr _ => note_use_ok before s x Hr)
    (fun before s x s' Hr _ => note_use_rep before s x s' Hr)
    (numbered_blocks r) [] no_uses uses_start (at_each_trivial _ _)) as [Hcalls Hrep].
  rewrite Hcalls.
  destruct (fold_result note_use no_uses (numbered_blocks r)) as [uses|e] eqn:E; cbn [result_bind];
    [|split; [done|by intros [[? ?] _]]].
  specialize (Hrep uses eq_refl). rewrite app_nil_l, numbered_blocks_of in Hrep.
  rewrite numbered_blocks_of in Hcalls. pose proof (proj2 Hcalls (ex_intro _ uses eq_refl)) as Hnew.
  apply (at_each_member _ (blocks_of r)) in Hnew; [|done].
  destruct (fold_result_spec (note_result (server_tool_uses uses)) snd (results_of_blocks)
    (due_answer (blocks_of r)) (fits (blocks_of r))) with (l := numbered_blocks r) (before := @nil value)
    (s := no_results) as [Hresults _]; [..|exact results_start|by rewrite numbered_blocks_of|].
  - intros before s x Hr Hf.
    destruct (note_result_step (blocks_of r) uses Hrep before s x Hr Hf) as [[Hd (s' & Hs & _)]|[Hd [e He]]].
    + split; [by exists s'|done].
    + rewrite He. split; [done|by intros [? ?]].
  - intros before s x s' Hr Hf Hs.
    destruct (note_result_step (blocks_of r) uses Hrep before s x Hr Hf) as [[_ (s1 & Hs1 & Hr')]|[_ [e He]]];
      congruence.
  - rewrite Hresults.
    destruct (fold_result (note_result _) no_results (numbered_blocks r)) as [s|e]; cbn [result_bind].
    + split; [split; eauto|done].
    + split; [done|by intros [_ [? ?]]].
Qed.
