(* ===== verification/ValidateFacts.v ===== *)
(** * What an accepted Claude request guarantees

    The checks of [Validate] composed with the translation of [Translate]: which
    hypotheses of the translation's theorems a request that passes meets, which
    images can reach Kiro, and what the history of server tools looks like. *)

From Stdlib Require Import ZArith Lia Ascii String.
From stdpp Require Import base list gmap sets strings.
From S2P Require Import Prelude RustStr F64 Json Text Protocol ToolHistory ToolHistoryFacts.
From S2P Require Import ToolNames ToolSearch WebSearch Content Translate TranslateFacts.
From S2P Require Import Schema CacheControl Attachments Validate.

Local Open Scope kproxy_scope.
Local Open Scope string_scope.
Local Open Scope list_scope.

(** ** Messages and tools *)

Section Accepted.
Context (b64_decode : string -> option bytes) (parse_url : string -> option Url).
Context (tool_len : ClaudeTool -> option Z) (examples_string : list value -> option string).

Definition accepted_claude (r : ClaudeRequest) : Prop :=
  validate_claude b64_decode parse_url tool_len examples_string r = Ok tt.

Lemma accepted_messages r :
  accepted_claude r ->
  Forall (fun m => exists i, check_message b64_decode parse_url i m = Ok tt) (rq_messages r)
  /\ (messages_images r <= MAX_IMAGES_PER_REQUEST)%Z.
Proof.
  unfold accepted_claude, validate_claude, validate_claude_request. intros H. split_checks H.
  split.
  - apply Forall_forall. intros m [i Hi]%list_elem_of_lookup_1. exists i.
    match goal with Hm : each _ _ = Ok tt |- _ => by apply (proj1 (each_ok _ _) Hm) end.
  - match goal with Hi : reject_if (_ <? messages_images r)%Z _ _ = Ok tt |- _ =>
      apply reject_if_ok in Hi; lia end.
Qed.

Lemma check_message_ok i m :
  check_message b64_decode parse_url i m = Ok tt ->
  role_ok m /\ content_ok m /\ exists field,
    validate_claude_content b64_decode parse_url (cm_content m) (cm_role m) field = Ok tt.
Proof.
  unfold check_message. intros H. split_checks H.
  split_and!.
  - match goal with Hm : (if bool_decide ?P then _ else _) = Ok tt |- _ =>
      destruct (bool_decide P) eqn:Hr; [|done] end. apply bool_decide_eq_true in Hr. unfold role_ok.
    apply elem_of_cons in Hr as [->|Hr]; [by left|right].
    apply elem_of_cons in Hr as [->|Hr]; [by left|right].
    by apply list_elem_of_singleton in Hr.
  - unfold content_ok. unfold validate_claude_content in H. by destruct (cm_content m).
  - eauto.
Qed.

Lemma accepted_roles r : accepted_claude r -> Forall role_ok (rq_messages r) /\ Forall content_ok (rq_messages r).
Proof.
  intros [H _]%accepted_messages. split; (eapply Forall_impl; [exact H|]);
    intros m [i Hm]; by apply check_message_ok in Hm as (? & ? & _).
Qed.

Lemma check_tool_kind_ok field tool :
  check_tool_kind field tool = Ok tt ->
  ct_name tool <> EmptyString /\ of_family "web_fetch" tool = false.
Proof.
  unfold check_tool_kind. intros H. split_checks H.
  repeat match goal with Hr : reject_if _ _ _ = Ok tt |- _ => apply reject_if_ok in Hr end.
  split; [|done]. intros He. rewrite He in H. done.
Qed.

Lemma check_tool_body_ok field tool :
  check_tool_body field tool = Ok tt -> of_family "web_search" tool = true ->
  ct_name tool = "web_search".
Proof.
  unfold check_tool_body. intros H Hw. split_checks H.
  match goal with Hr : reject_if (is_web_tool tool && _) _ _ = Ok tt |- _ =>
    apply reject_if_ok in Hr; change (is_web_tool tool) with (of_family "web_search" tool) in Hr;
    rewrite Hw in Hr; cbn [andb] in Hr; by apply negb_false_iff, bool_decide_eq_true in Hr end.
Qed.

Lemma validate_claude_tools_ok seen index tools names :
  validate_claude_tools seen index tools = Ok names ->
  NoDup (ct_name <$> tools) /\ (forall tool, tool ∈ tools -> ct_name tool ∉ seen)
  /\ Forall (fun tool => ct_name tool <> EmptyString) tools
  /\ Forall (fun tool => of_family "web_search" tool = true -> ct_name tool = "web_search") tools
  /\ Forall (fun tool => of_family "web_fetch" tool = false) tools.
Proof.
  revert seen index; induction tools as [|tool tools IH]; intros seen index; cbn [validate_claude_tools].
  { intros _. split_and!; try constructor. by intros ? ?%elem_of_nil. }
  intros H. split_checks H. apply IH in H as (Hnd & Hseen & Hnamed & Hweb & Hfetch).
  repeat match goal with Hr : reject_if _ _ _ = Ok tt |- _ => apply reject_if_ok in Hr end.
  match goal with Hk : check_tool_kind _ _ = Ok tt |- _ => apply check_tool_kind_ok in Hk as [Hne Hf] end.
  match goal with Hr : bool_decide _ = false |- _ => apply bool_decide_eq_false in Hr end.
  split_and!.
  - rewrite fmap_cons. apply NoDup_cons. split; [|done].
    intros (t & Ht & Hin)%list_elem_of_fmap. apply (Hseen t Hin). rewrite <- Ht.
    by apply elem_of_union_l, elem_of_singleton.
  - intros t [->|Hin]%elem_of_cons; [done|]. intros Hs. apply (Hseen t Hin).
    by apply elem_of_union_r.
  - by constructor.
  - constructor; [|done]. intros Hw. by eapply check_tool_body_ok.
  - by constructor.
Qed.

Lemma accepted_tools r : accepted_claude r -> tools_ok r.
Proof.
  unfold accepted_claude, validate_claude, validate_claude_request. intros H. split_checks H.
  destruct (validate_claude_tools ∅ 0 (rq_tools r)) as [names|] eqn:E; cbn [result_bind] in H; [|done].
  apply validate_claude_tools_ok in E as (? & _ & ? & ? & ?). by split.
Qed.

(** ** Images *)

(** An image Kiro is sent: it decodes, is small enough, and its first bytes are
    those of the declared format. *)
Definition image_sound (img : KiroImage) : Prop :=
  exists decoded, b64_decode (img_bytes img) = Some decoded
    /\ (Z.of_nat (length decoded) <= MAX_IMAGE_BYTES)%Z
    /\ detected_image_media_type decoded = Some ("image/" +:+ img_format img).

Let decodes (text : string) : bool := is_some (b64_decode text).

Lemma claude_image_sound block field img :
  validate_claude_image b64_decode parse_url block field = Ok tt ->
  claude_image decodes block = Some img -> image_sound img.
Proof.
  unfold validate_claude_image, claude_image. destruct (get block "source") as [source|]; [|done].
  cbn [unwrap_or mbind option_bind]. destruct (negb (bool_decide (_ = Some "base64"))) eqn:Et; [done|].
  apply negb_false_iff, bool_decide_eq_true in Et.
  rewrite Et, bool_decide_false by done.
  destruct (unknown_key _ _); [done|]. destruct (get_str source "media_type") as [media|]; [|done].
  cbn [opt_filter mbind option_bind]. destruct (bool_decide _) eqn:Em; [|done].
  destruct (get_str source "data") as [data|]; [|done]. cbn [opt_filter]. unfold check_image, decodes.
  destruct (b64_decode data) as [decoded|] eqn:Ed; [|done]. cbn [is_some mbind option_bind].
  intros [Hlen%reject_if_ok%Z.ltb_ge Hd%reject_if_ok]%then_ok [= <-].
  apply negb_false_iff, bool_decide_eq_true in Hd. exists decoded. cbn [img_bytes img_format].
  split; [done|]. split; [done|]. rewrite Hd. f_equal.
  apply bool_decide_eq_true in Em. unfold image_media_types in Em.
  repeat (apply elem_of_cons in Em as [->|Em]; [by vm_compute|]). by apply elem_of_nil in Em.
Qed.

Lemma check_document_blocks_ok field st index blocks st' :
  check_document_blocks b64_decode parse_url field st index blocks = Ok st' ->
  Forall (fun block => is_kind "text" block = true
            \/ (is_kind "image" block = true
                /\ exists f, validate_claude_image b64_decode parse_url block f = Ok tt)) blocks.
Proof.
  revert st index; induction blocks as [|block blocks IH]; intros st index; cbn [check_document_blocks];
    [constructor|].
  destruct (check_document_block _ _ _ _ _ _ _) as [st1|] eqn:E; cbn [result_bind]; [|done].
  intros H. constructor; [|by eapply IH]. clear IH H. unfold check_document_block in E.
  destruct st as [flattened has_content]. unfold is_kind.
  destruct (kind_of block) as [kind|]; [|done].
  destruct (bool_decide (kind = "text")) eqn:Ek.
  { apply bool_decide_eq_true in Ek as ->. left. done. }
  destruct (bool_decide (kind = "image")) eqn:Ei; [|done].
  apply bool_decide_eq_true in Ei as ->. right. split; [done|].
  destruct (unknown_key _ _); [done|].
  destruct (validate_image_transformations _ _) as [[]|]; [|done].
  destruct (validate_claude_image _ _ block (field +:+ ".source.content." +:+ show_nat index)) as [[]|] eqn:Ev;
    [eauto|done].
Qed.

Lemma block_images_eq block :
  block_images decodes block =
    if is_kind "image" block then option_list (claude_image decodes block)
    else if is_kind "tool_result" block
    then unwrap_or (collect_claude_images decodes <$> get block "content") []
    else if has_content_source block
    then unwrap_or (collect_claude_images decodes <$> (get block "source" ≫= fun s => get s "content")) []
    else [].
Proof.
  destruct block; cbn [block_images]; rewrite !get_then_get;
    (destruct (is_kind "image" _); [done|]);
    (destruct (is_kind "tool_result" _); [by destruct (get _ "content") as [[]|]|]);
    (destruct (has_content_source _); [|done]);
    (destruct (get _ "source") as [source|]; [|done]); cbn [mbind option_bind];
    rewrite get_then_get; by destruct (get source "content") as [[]|].
Qed.

Lemma document_images_sound block field :
  validate_claude_document b64_decode parse_url block field = Ok tt ->
  is_kind "document" block = true -> Forall image_sound (block_images decodes block).
Proof.
  intros H Hk. rewrite block_images_eq, (is_kind_other _ "image" _ Hk), (is_kind_other _ "tool_result" _ Hk)
    by done.
  destruct (has_content_source block) eqn:Hs; [|constructor].
  unfold has_content_source in Hs. rewrite Hk in Hs. apply bool_decide_eq_true in Hs.
  unfold validate_claude_document in H. split_checks H.
  destruct (get block "source") as [source|] eqn:Es; [|constructor].
  cbn [mbind option_bind opt_filter] in *.
  assert (Htype : get_str source "type" = Some "content").
  { unfold pointer in Hs. cbn [fold_left] in Hs. rewrite Es in Hs. unfold get_str. by destruct (get source "type"). }
  destruct (is_object source); [|done]. cbn [opt_filter] in H. rewrite Htype in H. cbn in H.
  unfold validate_claude_content_document_source in H. destruct (unknown_key _ _); [done|].
  destruct (get source "content") as [[| | | |blocks|]|]; cbn [fmap option_fmap option_map unwrap_or]; try constructor.
  destruct (is_nil blocks); [done|].
  destruct (check_document_blocks _ _ _ _ _ _) as [[? ?]|] eqn:E; cbn [result_bind] in H; [|done].
  apply check_document_blocks_ok in E. cbn [collect_claude_images]. rewrite flat_map_bind, Forall_bind.
  eapply Forall_impl; [exact E|]. intros inner. unfold compose. rewrite block_images_eq.
  intros [Ht|[Hi [f Hv]]].
  - rewrite (is_kind_other _ "image" _ Ht), (is_kind_other _ "tool_result" _ Ht) by done.
    unfold has_content_source. rewrite (is_kind_other _ "document" _ Ht) by done. constructor.
  - rewrite Hi. destruct (claude_image decodes inner) eqn:Eb; constructor; [|constructor].
    by eapply claude_image_sound.
Qed.

Lemma is_kind_kind kind block : is_kind kind block = true -> kind_of block = Some kind.
Proof. apply bool_decide_eq_true. Qed.

(** Evaluates the comparisons of the block's kind with the names of the arms. *)
Ltac decide_kinds H :=
  repeat match type of H with
  | context [bool_decide (?x = ?y :> string)] =>
      let b := eval vm_compute in (bool_decide (x = y)) in
      change (bool_decide (x = y)) with b in H
  end;
  cbn [andb negb] in H.

(** Reduces the checks of a block to those of its kind. *)
Ltac focus_kind H Hk :=
  cbn [validate_claude_block] in H; rewrite (is_kind_kind _ _ Hk) in H; cbn beta iota zeta in H;
  decide_kinds H; split_checks H.

(** The images of a block that is not a tool result. *)
Lemma plain_block_images_sound block role field nested :
  validate_claude_block b64_decode parse_url block role field nested = Ok tt ->
  is_kind "tool_result" block = false -> Forall image_sound (block_images decodes block).
Proof.
  intros H Hr. destruct block as [| | | | |m]; try done.
  destruct (is_kind "image" (Object m)) eqn:Hi.
  - focus_kind H Hi. rewrite block_images_eq, Hi.
    destruct (claude_image decodes (Object m)) eqn:Eb; constructor; [|constructor].
    by eapply claude_image_sound.
  - destruct (is_kind "document" (Object m)) eqn:Hd.
    + focus_kind H Hd. by eapply document_images_sound.
    + rewrite block_images_eq, Hi, Hr. unfold has_content_source. rewrite Hd. constructor.
Qed.

Lemma nested_not_result block role field :
  validate_claude_block b64_decode parse_url block role field true = Ok tt ->
  is_kind "tool_result" block = false.
Proof.
  intros H. apply not_true_is_false. intros Hk. destruct block as [| | | | |m]; try done.
  focus_kind H Hk. done.
Qed.

Lemma block_images_sound block role field :
  validate_claude_block b64_decode parse_url block role field false = Ok tt ->
  Forall image_sound (block_images decodes block).
Proof.
  intros H. destruct (is_kind "tool_result" block) eqn:Hk; [|by eapply plain_block_images_sound].
  rewrite block_images_eq, (is_kind_other _ "image" _ Hk), Hk by done.
  destruct block as [| | | | |m]; try done.
  focus_kind H Hk. rewrite get_then_get in H.
  destruct (get (Object m) "content") as [[| | | |blocks|]|]; cbn [fmap option_fmap option_map unwrap_or];
    try constructor.
  cbn [mbind option_bind unwrap_or] in H. cbn [collect_claude_images].
  rewrite flat_map_bind, Forall_bind. apply Forall_forall. intros inner [i Hi]%list_elem_of_lookup_1.
  pose proof (proj1 (each_ok _ _) H i inner Hi) as Hv. cbn beta in Hv. unfold compose.
  eapply plain_block_images_sound; [exact Hv|]. by eapply nested_not_result.
Qed.

Lemma content_images_sound content role field :
  validate_claude_content b64_decode parse_url content role field = Ok tt ->
  Forall image_sound (extract_images decodes content).
Proof.
  unfold validate_claude_content, extract_images, collect_claude_images.
  destruct content as [| | | |blocks|]; try (intros; constructor).
  intros [H _]%then_ok. rewrite flat_map_bind, Forall_bind. apply Forall_forall.
  intros block [i Hi]%list_elem_of_lookup_1.
  pose proof (proj1 (each_ok _ _) H i block Hi) as Hv. exact (block_images_sound _ _ _ Hv).
Qed.

Lemma sum_of_app {A} (f : A -> Z) k l : sum_of f (k ++ l) = (sum_of f k + sum_of f l)%Z.
Proof. unfold sum_of. induction k as [|x k IH]; cbn [foldr app]; lia. Qed.

Lemma sum_of_le {A} (f g : A -> Z) l :
  (forall x, x ∈ l -> f x <= g x)%Z -> (sum_of f l <= sum_of g l)%Z.
Proof.
  unfold sum_of. induction l as [|x l IH]; intros H; cbn [foldr]; [lia|].
  pose proof (H x ltac:(by left)). specialize (IH ltac:(intros; apply H; by right)). lia.
Qed.

(** The count of the images bounds those extracted. *)
Lemma images_counted n content :
  (nodes_of content <= n)%Z ->
  (Z.of_nat (length (collect_claude_images decodes content)) <= count_claude_images content)%Z.
Proof.
  revert content. induction (Z.lt_wf 0 n) as [n _ IH]. intros content Hn.
  destruct content as [| | | |blocks|]; try done. cbn [collect_claude_images count_claude_images].
  assert (Hlen : Z.of_nat (length (flat_map (block_images decodes) blocks))
    = sum_of (fun block => Z.of_nat (length (block_images decodes block))) blocks).
  { clear. unfold sum_of. induction blocks as [|b l IHl]; [done|]. cbn [flat_map foldr].
    rewrite length_app, <- IHl. lia. }
  rewrite Hlen. apply sum_of_le. intros block Hb.
  assert (Hblock : (nodes_of block < n)%Z).
  { pose proof (children_smaller (Array blocks) block Hb). lia. }
  pose proof (nodes_pos block) as Hpos. rewrite block_images_eq, !get_then_get.
  assert (Hnested : forall nested, (nodes_of nested < nodes_of block)%Z ->
    (Z.of_nat (length (collect_claude_images decodes nested)) <= count_claude_images nested)%Z).
  { intros nested Hs. pose proof (nodes_pos nested). apply (IH (nodes_of nested)); lia. }
  destruct (is_kind "image" block) eqn:Hi.
  - rewrite (is_kind_other _ "tool_result" _ Hi) by done. unfold has_content_source.
    rewrite (is_kind_other _ "document" _ Hi) by done. cbn [andb].
    destruct (claude_image decodes block); simpl; lia.
  - destruct (is_kind "tool_result" block).
    + destruct (get block "content") as [nested|] eqn:Eg; cbn; [|lia].
      apply get_smaller in Eg. by apply Hnested.
    + destruct (has_content_source block); [|done].
      destruct (get block "source") as [source|] eqn:Es; cbn [mbind option_bind]; [|done].
      rewrite get_then_get. destruct (get source "content") as [nested|] eqn:Eg; cbn; [|lia].
      apply get_smaller in Es, Eg. apply Hnested. lia.
Qed.

Lemma saturated_sum {A} (f : A -> Z) l n :
  (forall x, 0 <= f x)%Z -> (0 <= n)%Z ->
  (fold_left (fun n x => sat_add USIZE_MAX n (f x)) l n < USIZE_MAX)%Z ->
  fold_left (fun n x => sat_add USIZE_MAX n (f x)) l n = (n + sum_of f l)%Z.
Proof.
  intros Hf. assert (Hmono : forall l n, (USIZE_MAX <= n)%Z ->
    (USIZE_MAX <= fold_left (fun n x => sat_add USIZE_MAX n (f x)) l n)%Z).
  { clear l n. induction l as [|x l IH]; intros n Hn; cbn [fold_left]; [done|]. apply IH.
    unfold sat_add. pose proof (Hf x). lia. }
  revert n; induction l as [|x l IH]; intros n Hn; unfold sum_of in *; cbn [fold_left foldr]; [lia|].
  intros Hlt. pose proof (Hf x) as Hx.
  destruct (Z.leb_spec USIZE_MAX (n + f x)) as [Hbig|Hsmall].
  - specialize (Hmono l (sat_add USIZE_MAX n (f x))). unfold sat_add in *. lia.
  - replace (sat_add USIZE_MAX n (f x)) with (n + f x)%Z in * by (unfold sat_add; lia).
    rewrite IH by (lia || done). lia.
Qed.

(** The images of the user's turns of an accepted request. *)
Lemma accepted_images r :
  accepted_claude r ->
  Forall image_sound (gather "user" (block_images decodes) (rq_messages r))
  /\ (Z.of_nat (length (gather "user" (block_images decodes) (rq_messages r))) <= MAX_IMAGES_PER_REQUEST)%Z.
Proof.
  intros [Hm Hcount]%accepted_messages.
  assert (Hblocks : forall m, message_blocks m ≫= block_images decodes
                              = collect_claude_images decodes (cm_content m)).
  { intros m. unfold message_blocks, collect_claude_images. destruct (cm_content m); by rewrite ?flat_map_bind. }
  unfold gather. split.
  - rewrite Forall_bind. eapply Forall_impl; [exact Hm|]. intros m [i Hi]. unfold compose.
    case_bool_decide; [|constructor]. rewrite Hblocks.
    apply check_message_ok in Hi as (_ & _ & field & Hv). by eapply content_images_sound.
  - unfold messages_images in Hcount. rewrite saturated_sum in Hcount.
    + etrans; [|exact Hcount]. clear -Hblocks. unfold sum_of.
      induction (rq_messages r) as [|m l IH]; [done|]. rewrite bind_cons, length_app. cbn [foldr].
      pose proof (images_counted _ (cm_content m) (Z.le_refl _)) as Hc.
      case_bool_decide; [rewrite Hblocks|cbn [length]]; lia.
    + intros m. pose proof (images_counted _ (cm_content m) (Z.le_refl _)). lia.
    + lia.
    + eapply Z.le_lt_trans; [exact Hcount|done].
Qed.

(** A forced choice that names a tool sends that tool and no other. *)
Lemma forced_choice_loads_one r choice tool :
  accepted_claude r -> rq_tool_choice r = Some choice -> tch_type choice = "tool" ->
  tool ∈ rq_tools r -> tch_name choice = Some (ct_name tool) -> claude_loaded_tools r = [tool].
Proof.
  intros Ha%accepted_tools Hc Ht Hin Hn. unfold claude_loaded_tools. rewrite Hc. cbn. rewrite Ht, Hn.
  rewrite bool_decide_false, bool_decide_true by done.
  pose proof (to_unique _ Ha) as Hnd. clear Ha Hc.
  induction (rq_tools r) as [|t l IH]; [by apply elem_of_nil in Hin|].
  rewrite fmap_cons in Hnd. apply NoDup_cons in Hnd as [Hfresh Hnd].
  apply elem_of_cons in Hin as [->|Hin].
  - rewrite filter_cons_True by done. f_equal. clear -Hfresh.
    induction l as [|t' l IH]; [done|]. rewrite fmap_cons, not_elem_of_cons in Hfresh.
    destruct Hfresh as [Hne Hfresh]. rewrite filter_cons_False by congruence. by apply IH.
  - rewrite filter_cons_False; [by apply IH|]. intros [= He]. apply Hfresh. rewrite He.
    by apply list_elem_of_fmap_2.
Qed.

(** ** From a request to its payload *)

Section Translated.
Context (sha256 : string -> string) (json_string : value -> string)
  (json_pretty : list value -> string) (b64_encode : string -> string).
Context `{ReplayPrimitives}.
Context (continuation_id conversation_id : string) (tool_names : ToolNameRegistry).
Context (r : ClaudeRequest) (options : TranslationOptions).

Definition accepted_payload : KiroPayload :=
  claude_to_kiro sha256 json_string json_pretty b64_encode decodes continuation_id conversation_id
    tool_names r options.

(** C18: the history that an accepted request sends alternates between user and
    assistant from the user on.  It ends with the assistant, in front of the user's
    current message; only when a terminal compaction instruction is split off into
    a message of its own ([nothing_split] is false), it ends with the user's turn
    that the instruction was part of.  The part to protect from trimming is empty or
    the system prompt with its acknowledgement. *)
Theorem accepted_history_alternates :
  accepted_claude r ->
  turn_after true (history accepted_payload) = Some (nothing_split r options)
  /\ (p_protected_history_messages accepted_payload = 0
      \/ p_protected_history_messages accepted_payload = 2 /\ exists prompt cache_point rest,
           is_empty (trim prompt) = false
           /\ history accepted_payload
              = user_item (user_message (trim prompt) [] [] [] cache_point options)
                :: assistant_item {| am_content := SYSTEM_PROMPT_ACKNOWLEDGEMENT;
                                     am_cache_point := None; am_tool_uses := [] |} :: rest).
Proof. intros [Hroles _]%accepted_roles. by apply claude_history_alternates. Qed.

(** C17: the payload of an accepted request has the calls of the assistant's turns,
    and the results and images of the user's, each once and in the order of the
    conversation, wherever merging turns and moving the last one put them. *)
Theorem accepted_calls_results_kept :
  accepted_claude r ->
  history_uses accepted_payload
  = gather "assistant" (fun block => option_list (history_tool_use sha256
      (completed_server_tool_ids r) tool_names (official_from_request r) block)) (rq_messages r)
  /\ history_results accepted_payload ++ results_of (current_message accepted_payload)
     = gather "user" (fun block => option_list (tool_result json_string block)) (rq_messages r)
  /\ history_images accepted_payload ++ um_images (current_message accepted_payload)
     = gather "user" (block_images decodes) (rq_messages r).
Proof. intros [_ Hcontent]%accepted_roles. by apply claude_calls_results_kept. Qed.

(** C19: whatever an accepted request nests in messages, tool results and
    documents, at most one hundred images reach Kiro, and each decodes to at most
    5 MiB whose first bytes are those of the format it is sent with. *)
Theorem accepted_images_sound :
  accepted_claude r ->
  let sent := history_images accepted_payload ++ um_images (current_message accepted_payload) in
  Forall image_sound sent /\ (Z.of_nat (length sent) <= 100)%Z.
Proof.
  intros Ha. destruct (accepted_roles r Ha) as [_ Hcontent]. cbn zeta.
  destruct (claude_calls_results_kept sha256 json_string json_pretty b64_encode decodes
    continuation_id conversation_id tool_names r options Hcontent) as (_ & _ & Himages).
  unfold accepted_payload. rewrite Himages. by apply accepted_images.
Qed.

(** C16: when the conversation of an accepted request pairs its calls and results,
    and no compaction instruction is split off into a message of its own, the
    payload satisfies Kiro's contract on tool history without repair.  (With an
    instruction split off the history ends with the user, which the contract
    refuses: [split_instruction_refused].) *)
Theorem accepted_claude_valid fuel :
  accepted_claude r -> nothing_split r options = true ->
  new sha256 fuel (ct_name <$> rq_tools r) = Some tool_names ->
  well_paired sha256 json_string r tool_names [] ∅ (turns r options) ->
  validate_kiro_tool_history accepted_payload = Ok tt.
Proof.
  intros Ha Hsep Hnew Hp. destruct (accepted_roles r Ha) as [Hroles _].
  eapply claude_paired_valid; try done. by apply accepted_tools.
Qed.
End Translated.
End Accepted.

(** ** Examples *)

Definition demo_tool (name : string) : ClaudeTool :=
  {| ct_type := None; ct_name := name; ct_description := "a tool"; ct_input_schema := Object [];
     ct_cache_control := None; ct_strict := None; ct_input_examples := None;
     ct_defer_loading := false; ct_allowed_callers := None; ct_eager_input_streaming := None;
     ct_max_uses := None; ct_allowed_domains := None; ct_blocked_domains := None;
     ct_user_location := None; ct_response_inclusion := None; ct_extra := [] |}.

Definition demo_block_use (id name : string) : value :=
  json_object [("type", Str "tool_use"); ("id", Str id); ("name", Str name); ("input", Object [])].
Definition demo_block_result (id text : string) : value :=
  json_object [("type", Str "tool_result"); ("tool_use_id", Str id); ("content", Str text)].

Definition demo_message (role : string) (content : value) : ClaudeMessage :=
  {| cm_role := role; cm_content := content; cm_cache_control := None;
     cm_output_config := None; cm_extra := [] |}.

Definition demo_image : value :=
  json_object [("type", Str "image");
               ("source", json_object [("type", Str "base64"); ("media_type", Str "image/gif");
                                       ("data", Str "GIF89a")])].

(** The identity for base64. *)
Definition demo_decode (text : string) : option bytes := Some (s2l text).

(** A name Kiro refuses and one it allows, called at once and answered in the
    other order, with a system message in between. *)
Definition demo_conversation : ClaudeRequest :=
  {| rq_model := "claude-sonnet-4.5";
     rq_messages :=
       [demo_message "system" (Str "Be brief.");
        demo_message "assistant" (Str "Hello.");
        demo_message "user" (Str "Read both.");
        demo_message "system" (Str "Be kind.");
        demo_message "user" (Array [plain_block "Please."; demo_image]);
        demo_message "assistant" (Array [plain_block "Yes."; demo_block_use "a" "mcp.read";
                                         demo_block_use "b" "Read"]);
        demo_message "user" (Array [demo_block_result "b" "two"; demo_block_result "a" "one"])];
     rq_max_tokens := 1024;
     rq_temperature := None; rq_top_p := None; rq_top_k := None; rq_stop_sequences := [];
     rq_stream := false; rq_system := None; rq_tools := [demo_tool "mcp.read"; demo_tool "Read"];
     rq_tool_choice := None; rq_thinking := None; rq_output_config := None;
     rq_cache_control := None; rq_service_tier := None; rq_metadata := None;
     rq_conversation_id := None; rq_context_management := None; rq_extra := [] |}.

Definition demo_options : TranslationOptions := TranslationOptions_new "model" "AI_EDITOR".

Definition demo_names : ToolNameRegistry :=
  unwrap_or (new id 9 (ct_name <$> rq_tools demo_conversation)) registry_default.

Definition demo_translation : KiroPayload :=
  claude_to_kiro (H := Plain.plain) id (fun _ => "{}") (fun _ => "[]") id
    (fun text => is_some (demo_decode text)) "continuation" "conversation" demo_names demo_conversation demo_options.


Definition demo_accepted (r : ClaudeRequest) : Prop :=
  accepted_claude demo_decode (fun _ => None) (fun _ => Some 10%Z) (fun _ => None) r.

Lemma demo_conversation_accepted : demo_accepted demo_conversation.
Proof. vm_compute. reflexivity. Qed.

(** A forced choice may name the type of a tool; the translation then sends no
    tool at all. *)
Example forced_type_sends_no_tool :
  let r := {| rq_model := "claude-sonnet-4.5"; rq_messages := [demo_message "user" (Str "Look it up.")];
              rq_max_tokens := 1024;
              rq_temperature := None; rq_top_p := None; rq_top_k := None; rq_stop_sequences := [];
              rq_stream := false; rq_system := None;
              rq_tools := [{| ct_type := Some "web_search_20250305"; ct_name := "web_search";
                              ct_description := EmptyString; ct_input_schema := Null;
                              ct_cache_control := None; ct_strict := None; ct_input_examples := None;
                              ct_defer_loading := false; ct_allowed_callers := None;
                              ct_eager_input_streaming := None; ct_max_uses := None;
                              ct_allowed_domains := None; ct_blocked_domains := None;
                              ct_user_location := None; ct_response_inclusion := None; ct_extra := [] |}];
              rq_tool_choice := Some {| tch_type := "tool"; tch_name := Some "web_search_20250305";
                                        tch_disable_parallel_tool_use := false |};
              rq_thinking := None; rq_output_config := None;
              rq_cache_control := None; rq_service_tier := None; rq_metadata := None;
              rq_conversation_id := None; rq_context_management := None; rq_extra := [] |} in
  demo_accepted r
  /\ claude_loaded_tools r = [].
Proof. split; vm_compute; reflexivity. Qed.

(** A compaction instruction that is split off leaves the user's turn at the end of
    the history, where Kiro's contract expects the assistant. *)
Example split_instruction_refused :
  let r :=
    {| rq_model := "claude-sonnet-4.5";
       rq_messages := [demo_message "user" (Array [plain_block "Some work.";
                         plain_block (Context.SUMMARY_PREFIX +:+ " <summary>")])];
       rq_max_tokens := 1024; rq_temperature := None; rq_top_p := None; rq_top_k := None;
       rq_stop_sequences := []; rq_stream := false; rq_system := None; rq_tools := [];
       rq_tool_choice := None; rq_thinking := None; rq_output_config := None; rq_cache_control := None;
       rq_service_tier := None; rq_metadata := None; rq_conversation_id := None;
       rq_context_management := None; rq_extra := [] |} in
  let options :=
    {| op_model_id := "model"; op_origin := "AI_EDITOR"; op_profile_arn := None;
       op_enhance_system_prompt := true; op_compact_mode := false;
       op_separate_compaction_instruction := true; op_web_search_replay := None;
       op_conversation_id := None; op_enable_prompt_cache := false;
       op_additional_model_request_fields_schema := None |} in
  let p := claude_to_kiro (H := Plain.plain) id (fun _ => "{}") (fun _ => "[]") id
             (fun text => is_some (demo_decode text)) "continuation" "conversation" registry_default r options in
  demo_accepted r /\ nothing_split r options = false /\ is_ok (validate_kiro_tool_history p) = false.
Proof. vm_compute. split; [reflexivity|]. split; reflexivity. Qed.

Lemma accepted_history_alternates_witness :
  length (history demo_translation) = 6 /\ p_protected_history_messages demo_translation = 2
  /\ turn_after true (history demo_translation) = Some true.
Proof.
  split; [vm_compute; reflexivity|]. split; [vm_compute; reflexivity|].
  apply (accepted_history_alternates (H := Plain.plain) demo_decode (fun _ => None)
    (fun _ => Some 10%Z) (fun _ => None) id (fun _ => "{}") (fun _ => "[]") id
    "continuation" "conversation" demo_names demo_conversation demo_options).
  vm_compute; reflexivity.
Defined.

Lemma accepted_calls_results_kept_witness :
  (tu_name <$> history_uses demo_translation) = ["mcp_read"; "Read"]
  /\ history_results demo_translation ++ results_of (current_message demo_translation)
     = gather "user" (fun block => option_list (tool_result (fun _ => "{}") block))
         (rq_messages demo_conversation).
Proof.
  split; [vm_compute; reflexivity|].
  apply (accepted_calls_results_kept (H := Plain.plain) demo_decode (fun _ => None)
    (fun _ => Some 10%Z) (fun _ => None) id (fun _ => "{}") (fun _ => "[]") id
    "continuation" "conversation" demo_names demo_conversation demo_options).
  vm_compute; reflexivity.
Defined.

Lemma accepted_images_sound_witness :
  let sent := history_images demo_translation ++ um_images (current_message demo_translation) in
  img_format <$> sent = ["gif"] /\ Forall (image_sound demo_decode) sent.
Proof.
  split; [vm_compute; reflexivity|].
  apply (accepted_images_sound (H := Plain.plain) demo_decode (fun _ => None)
    (fun _ => Some 10%Z) (fun _ => None) id (fun _ => "{}") (fun _ => "[]") id
    "continuation" "conversation" demo_names demo_conversation demo_options).
  vm_compute; reflexivity.
Defined.

Lemma accepted_claude_valid_witness :
  spec_names (tools_of (current_message demo_translation)) = ["mcp_read"; "Read"]
  /\ validate_kiro_tool_history demo_translation = Ok tt.
Proof.
  split; [vm_compute; reflexivity|].
  apply (accepted_claude_valid (H := Plain.plain) demo_decode (fun _ => None)
    (fun _ => Some 10%Z) (fun _ => None) id (fun _ => "{}") (fun _ => "[]") id
    "continuation" "conversation" demo_names demo_conversation demo_options 9).
  - vm_compute; reflexivity.
  - reflexivity.
  - vm_compute; reflexivity.
  - change (turns demo_conversation demo_options) with
      [demo_message "assistant" (Str "Hello.");
       demo_message "user" (Array [plain_block "Read both."; plain_block "Please."; demo_image]);
       demo_message "assistant" (Array [plain_block "Yes."; demo_block_use "a" "mcp.read";
                                        demo_block_use "b" "Read"]);
       demo_message "user" (Array [demo_block_result "b" "two"; demo_block_result "a" "one"])].
    split; [by constructor|]. split; [constructor|]. split; [by intros id ?%elem_of_nil|].
    split; [constructor|]. split; [|split; [|split; [|split; [|done]]]].
    + repeat (apply Forall_cons; split; [intros u Hu; vm_compute in Hu; simplify_eq|]);
        [..|constructor].
      all: split; [reflexivity|split; [reflexivity|]].
      * exists (demo_tool "mcp.read"). split; [by left|by split_and!].
      * exists (demo_tool "Read"). split; [by right; left|by split_and!].
    + vm_compute. apply NoDup_cons; split; [by rewrite list_elem_of_singleton|apply NoDup_singleton].
    + intros id _. set_solver.
    + vm_compute. apply perm_swap.
Defined.
