(* ===== verification/OpenAi.v ===== *)
(** * From an OpenAI request to a Kiro payload

    [kproxy-translate/src/translate/openai.rs].  As in [Translate], the registry
    of the request's tool names and the random identifiers are arguments; so is
    the JSON parser, which reads the arguments of function calls.  The log of
    ignored controls is left out. *)

From Stdlib Require Import ZArith Lia Ascii String.
From stdpp Require Import base list gmap sets strings.
From S2P Require Import Prelude RustStr F64 Json Text Protocol Model ToolHistory Context.
From S2P Require Import ToolNames Content Translate.

Local Open Scope kproxy_scope.
Local Open Scope string_scope.
Local Open Scope list_scope.

(** ** Accessors *)

(** [body.get(kind).and_then(|definition| definition.get("name"))], as a string. *)
Definition named_under (kind : string) (v : value) : option string :=
  get v kind ≫= fun definition => get_str definition "name".

(** The name in the definition of a tool. *)
Definition openai_tool_name (tool : OpenAiTool) : option string :=
  named_under (ot_type tool) (ot_body tool).

Definition is_system (m : OpenAiMessage) : bool := bool_decide (om_role m ∈ ["system"; "developer"]).

Definition openai_message_cache_point (m : OpenAiMessage) : option KiroCachePoint :=
  merged_cache_point (kiro_cache_point (om_cache_control m)) (om_content m ≫= content_cache_point).

(** ** The tools on offer *)

Definition allowed_reference (reference : value) : option (string * string) :=
  kind ← get_str reference "type";
  name ← named_under kind reference;
  Some (kind, name).

Definition allowed_references (choice : value) : list (string * string) :=
  omap allowed_reference (unwrap_or (pointer choice ["allowed_tools"; "tools"] ≫= as_array) []).

Definition is_allowed (allowed : list (string * string)) (tool : OpenAiTool) : bool :=
  is_some_and (openai_tool_name tool) (fun name =>
    existsb (fun '(kind, allowed_name) =>
               bool_decide (kind = ot_type tool) && bool_decide (allowed_name = name)) allowed).

(** The name a choice of one tool asks for. *)
Definition selected_name (choice : value) : option string :=
  or_else (get choice "function") (get choice "custom") ≫= fun body => get_str body "name".

Definition selected_tools (r : OpenAiRequest) : list OpenAiTool :=
  match oa_tool_choice r with
  | None => oa_tools r
  | Some choice =>
      if bool_decide (as_str choice = Some "none") then []
      else if bool_decide (get_str choice "type" = Some "allowed_tools")
      then filter (fun tool => is_allowed (allowed_references choice) tool = true) (oa_tools r)
      else
        match selected_name choice with
        | Some name => filter (fun tool => openai_tool_name tool = Some name) (oa_tools r)
        | None => oa_tools r
        end
  end.

Definition choice_required (r : OpenAiRequest) : bool :=
  is_some_and (oa_tool_choice r) (fun choice =>
    bool_decide (as_str choice = Some "required") || is_some (get choice "function")
    || is_some (get choice "custom")
    || bool_decide ((pointer choice ["allowed_tools"; "mode"] ≫= as_str) = Some "required")).

Definition choice_directive (r : OpenAiRequest) : string :=
  let required := choice_required r in
  join newline
    ((if required then ["You must call at least one of the provided tools."] else [])
     ++ (if negb (oa_parallel_tool_calls r) && negb (is_nil (oa_tools r))
         then [if required then "Make exactly one tool call." else "Make at most one tool call."]
         else [])).

(** The raw input of a custom tool, as the only property of an object. *)
Definition custom_schema : value :=
  json_object
    [("type", Str "object");
     ("properties", json_object
        [("input", json_object
            [("type", Str "string");
             ("description",
              Str "The complete raw tool input text. Do not wrap or escape it again.")])]);
     ("required", Array [Str "input"]);
     ("additionalProperties", Bool false)].

Definition empty_parameters : value :=
  json_object [("type", Str "object"); ("properties", json_object [])].

(** The grammar of a custom tool, told in its description. *)
Definition grammar_description (definition : value) (description : string) : string :=
  match opt_filter (fun format => bool_decide (get_str format "type" = Some "grammar"))
          (get definition "format") ≫= fun format => get format "grammar" with
  | None => description
  | Some grammar =>
      match get_str grammar "definition" with
      | None => description
      | Some text =>
          join_nonempty description
            ("Input format (" +:+ unwrap_or (get_str grammar "syntax") "grammar" +:+ " grammar):"
             +:+ newline +:+ text)
      end
  end.

Section OpenAi.
Context (sha256 : string -> string) (json_string : value -> string)
        (parse_json : string -> option value)
        (b64_encode : string -> string) (b64_decodes : string -> bool)
        (decoded_len : string -> option Z).

(** The definition Kiro is sent, with the documentation that is moved out of it. *)
Definition openai_definition (tool_names : ToolNameRegistry) (tool : OpenAiTool) :
    option (KiroTool * option string) :=
  definition ← get (ot_body tool) (ot_type tool);
  name ← get_str definition "name";
  let description := unwrap_or (get_str definition "description") EmptyString in
  let '(description, schema) :=
    if bool_decide (ot_type tool = "custom")
    then (grammar_description definition description, custom_schema)
    else (description, unwrap_or (get definition "parameters") empty_parameters) in
  Some (kiro_tool_named name (kiro_name sha256 tool_names name) description schema).

Definition openai_translate_tool (options : TranslationOptions) (tool_names : ToolNameRegistry)
    (tool : OpenAiTool) : list KiroTool :=
  match openai_definition tool_names tool with
  | None => []
  | Some (definition, _) =>
      definition
      :: if op_enable_prompt_cache options
         then option_list (CachePoint <$> kiro_cache_point (get (ot_body tool) "cache_control")) else []
  end.

Definition openai_tools (options : TranslationOptions) (tool_names : ToolNameRegistry)
    (selected : list OpenAiTool) : list KiroTool :=
  selected ≫= openai_translate_tool options tool_names.

Definition openai_documentation (tool_names : ToolNameRegistry) (selected : list OpenAiTool) :
    list string := omap (fun tool => openai_definition tool_names tool ≫= snd) selected.

(** ** The system prompt *)

Definition openai_system_text (r : OpenAiRequest) : string :=
  join newline (content_text json_string <$> omap om_content (filter (fun m => is_system m = true) (oa_messages r))).

Definition openai_system_cache_point (r : OpenAiRequest) (options : TranslationOptions) :
    option KiroCachePoint :=
  if op_enable_prompt_cache options
  then fold_left (fun current m => merged_cache_point current (openai_message_cache_point m))
         (filter (fun m => is_system m = true) (oa_messages r)) None
  else None.

Definition openai_system (r : OpenAiRequest) (options : TranslationOptions) (tools : list KiroTool)
    (documentation : list string) : string :=
  let system := openai_system_text r in
  let system :=
    if op_enhance_system_prompt options
    then enhance_system system
           (existsb (fun tool => is_some_and (specification tool) (fun tool =>
                       needs_chunked_write_hint (ts_name tool))) tools)
    else system in
  let system :=
    match documentation with
    | [] => system
    | _ => join_nonempty system (join blank_line documentation)
    end in
  join_nonempty system (choice_directive r).

(** ** The turns *)

Definition make_user (text : string) (images : list KiroImage) (documents : list KiroDocument)
    (results : list KiroToolResult) (cache_point : option KiroCachePoint)
    (options : TranslationOptions) : KiroUserInputMessage :=
  {| um_content := if is_empty (trim text) then "Continue" else text;
     um_model_id := op_model_id options; um_origin := op_origin options;
     um_images := images; um_documents := documents; um_cache_point := cache_point;
     um_client_cache_config := None; um_context := context [] results |}.

Definition call_input (call : value) : option (string * value) :=
  match get call "function" with
  | Some function =>
      arguments ← get function "arguments";
      name ← get_str function "name";
      let arguments := unwrap_or (as_str arguments) "{}" in
      Some (name, unwrap_or (parse_json arguments) (json_object [("raw", Str arguments)]))
  | None =>
      custom ← get call "custom";
      name ← get_str custom "name";
      Some (name, json_object [("input", Str (unwrap_or (get_str custom "input") EmptyString))])
  end.

Definition openai_tool_use (tool_names : ToolNameRegistry) (call : value) : option KiroToolUse :=
  id ← get_str call "id";
  '(name, input) ← call_input call;
  Some {| tu_tool_use_id := id; tu_name := kiro_name sha256 tool_names name; tu_input := input |}.

Definition message_text (m : OpenAiMessage) : string :=
  unwrap_or (content_text json_string <$> om_content m) EmptyString.

Definition assistant_message (m : OpenAiMessage) (tool_names : ToolNameRegistry)
    (prompt_cache_enabled : bool) : KiroAssistantMessage :=
  let content := message_text m in
  let content :=
    match om_refusal m with Some refusal => join_nonempty content refusal | None => content end in
  let tool_uses := omap (openai_tool_use tool_names) (om_tool_calls m) in
  {| am_content := if is_empty (trim content) && is_nil tool_uses then "I understand." else content;
     am_cache_point := if prompt_cache_enabled then openai_message_cache_point m else None;
     am_tool_uses := tool_uses |}.

Definition message_images (m : OpenAiMessage) : list KiroImage :=
  unwrap_or (extract_openai_images decoded_len <$> om_content m) [].
Definition message_documents (m : OpenAiMessage) : list KiroDocument :=
  unwrap_or (extract_documents b64_encode b64_decodes <$> om_content m) [].

Definition message_result (m : OpenAiMessage) : option KiroToolResult :=
  (fun id => {| tr_content := [{| kt_text := message_text m |}]; tr_status := "success";
                tr_tool_use_id := id |}) <$> om_tool_call_id m.

(** The variables of the loop over the messages. *)
Record Turns := {
  cur_history : list KiroHistoryMessage;
  cur_text : string;
  cur_results : list KiroToolResult;
  cur_images : list KiroImage;
  cur_documents : list KiroDocument;
  cur_cache_point : option KiroCachePoint;
  cur_result_cache_point : option KiroCachePoint;
}.

Definition turns_start : Turns :=
  {| cur_history := []; cur_text := EmptyString; cur_results := []; cur_images := [];
     cur_documents := []; cur_cache_point := None; cur_result_cache_point := None |}.

Definition push (item : KiroHistoryMessage) (st : Turns) : Turns :=
  {| cur_history := cur_history st ++ [item]; cur_text := cur_text st; cur_results := cur_results st;
     cur_images := cur_images st; cur_documents := cur_documents st;
     cur_cache_point := cur_cache_point st; cur_result_cache_point := cur_result_cache_point st |}.

Section Turns.
Context (tool_names : ToolNameRegistry) (options : TranslationOptions).

Definition user_step (m : OpenAiMessage) (last : bool) (st : Turns) : Turns :=
  let cache_point := openai_message_cache_point m in
  if last then
    {| cur_history := cur_history st; cur_text := message_text m; cur_results := cur_results st;
       cur_images := message_images m; cur_documents := message_documents m;
       cur_cache_point := cache_point; cur_result_cache_point := cur_result_cache_point st |}
  else
    push (user_item (make_user (message_text m) (message_images m) (message_documents m) []
                       cache_point options))
      {| cur_history := cur_history st; cur_text := cur_text st; cur_results := cur_results st;
         cur_images := cur_images st; cur_documents := cur_documents st;
         cur_cache_point := None; cur_result_cache_point := cur_result_cache_point st |}.

(** The results collected so far become a turn. *)
Definition flush_results (st : Turns) : Turns :=
  push (user_item (make_user "Tool results provided." (cur_images st) (cur_documents st)
                     (cur_results st) (cur_result_cache_point st) options))
    {| cur_history := cur_history st; cur_text := cur_text st; cur_results := []; cur_images := [];
       cur_documents := []; cur_cache_point := cur_cache_point st; cur_result_cache_point := None |}.

Definition tool_step (m : OpenAiMessage) (last next_is_tool : bool) (st : Turns) : Turns :=
  let st :=
    {| cur_history := cur_history st; cur_text := cur_text st;
       cur_results := cur_results st ++ option_list (message_result m);
       cur_images := cur_images st ++ message_images m;
       cur_documents := cur_documents st ++ message_documents m;
       cur_cache_point := cur_cache_point st;
       cur_result_cache_point :=
         merged_cache_point (cur_result_cache_point st) (openai_message_cache_point m) |} in
  if negb last && negb next_is_tool then flush_results st else st.

Definition is_tool (m : OpenAiMessage) : bool := bool_decide (om_role m = "tool").

Definition openai_step (m : OpenAiMessage) (rest : list OpenAiMessage) (st : Turns) : Turns :=
  if bool_decide (om_role m = "user") then user_step m (is_nil rest) st
  else if bool_decide (om_role m = "assistant")
  then push (assistant_item (assistant_message m tool_names (op_enable_prompt_cache options))) st
  else if is_tool m
  then tool_step m (is_nil rest) (match rest with next :: _ => is_tool next | [] => false end) st
  else st.

Fixpoint openai_loop (messages : list OpenAiMessage) (st : Turns) : Turns :=
  match messages with
  | [] => st
  | m :: messages => openai_loop messages (openai_step m messages st)
  end.
End Turns.

Definition openai_current (options : TranslationOptions) (tools : list KiroTool) (st : Turns) :
    KiroUserInputMessage :=
  {| um_content :=
       if is_empty (trim (cur_text st))
       then if is_nil (cur_results st) then "Continue." else "Tool results provided."
       else cur_text st;
     um_model_id := op_model_id options; um_origin := op_origin options;
     um_images := cur_images st; um_documents := cur_documents st;
     um_cache_point := merged_cache_point (cur_cache_point st) (cur_result_cache_point st);
     um_client_cache_config := None; um_context := context tools (cur_results st) |}.

(** ** The payload *)

(** The system prompt as a first exchange, and the number of items it takes. *)
Definition openai_history (system : string) (cache_point : option KiroCachePoint)
    (options : TranslationOptions) (history : list KiroHistoryMessage) :
    list KiroHistoryMessage * nat :=
  if is_empty (trim system) then (history, 0) else
  (user_item (make_user (trim system) [] [] [] cache_point options)
   :: assistant_item {| am_content := SYSTEM_PROMPT_ACKNOWLEDGEMENT; am_cache_point := None;
                        am_tool_uses := [] |} :: history, 2).

Definition openai_thinking (r : OpenAiRequest) : option ThinkingConfig :=
  if bool_decide (oa_reasoning_effort r = Some "none")
  then Some {| tc_type := "disabled"; tc_budget_tokens := None; tc_display := None |}
  else oa_thinking r.

Definition openai_to_kiro (continuation_id conversation_id : string) (tool_names : ToolNameRegistry)
    (r : OpenAiRequest) (options : TranslationOptions) : KiroPayload :=
  let selected := selected_tools r in
  let tools := openai_tools options tool_names selected in
  let documentation := openai_documentation tool_names selected in
  let system := openai_system r options tools documentation in
  let st := openai_loop tool_names options
              (filter (fun m => is_system m = false) (oa_messages r)) turns_start in
  let current := openai_current options tools st in
  let '(history, protected) :=
    openai_history system (openai_system_cache_point r options) options (cur_history st) in
  fst (apply_adaptive_thinking
    {| p_conversation_state :=
         {| cs_agent_continuation_id := Some continuation_id; cs_agent_task_type := Some "vibe";
            cs_chat_trigger_type := "MANUAL";
            cs_conversation_id := unwrap_or (op_conversation_id options) conversation_id;
            cs_current_message := current; cs_history := history |};
       p_profile_arn := op_profile_arn options;
       p_inference_config := inference (output_token_limit r) (oa_temperature r) (oa_top_p r);
       p_additional_model_request_fields := None;
       p_model_request_intent :=
         Some {| mi_requested_model := oa_model r; mi_thinking := openai_thinking r;
                 mi_effort := opt_filter (fun effort => negb (bool_decide (effort = "none")))
                                (oa_reasoning_effort r);
                 mi_automatic_history_truncation := false |};
       p_protected_history_messages := protected |}
    (op_additional_model_request_fields_schema options) true).
End OpenAi.
