(* ===== verification/ValidateOpenAi.v ===== *)
(** * Validation of an OpenAI request

    [validate_openai] and the checks only it makes in
    [kproxy-translate/src/validate.rs]: messages and their parts, tool calls,
    tool definitions and the choice of a tool.  The checks run in the order of the
    code; the JSON parser, base64 and the URL parser are arguments. *)

From Stdlib Require Import ZArith Lia Ascii String.
From stdpp Require Import base list gmap sets strings.
From S2P Require Import Prelude RustStr F64 Json Text Protocol Context.
From S2P Require Import Schema CacheControl Content Attachments Validate Translate OpenAi.

Local Open Scope kproxy_scope.
Local Open Scope string_scope.
Local Open Scope list_scope.

(** ** Cache markers *)

(** The number of markers in a message's content. *)
Fixpoint validate_content_cache_controls (content : value) (field : string) :
    result Z ValidationError :=
  match content with
  | Array blocks =>
      fold_each (fun index block count =>
        let block_field := field +:+ "." +:+ show_nat index in
        let? own := validate_cache_control (get block "cache_control") (block_field +:+ ".cache_control") in
        let count := sat_add USIZE_MAX count own in
        if is_kind "tool_result" block then
          let? nested := unwrap_or
            (get_then (fun nested => Some
               (validate_content_cache_controls nested (block_field +:+ ".content"))) block "content")
            (Ok 0%Z) in
          Ok (sat_add USIZE_MAX count nested)
        else if has_content_source block then
          let? nested := unwrap_or
            (get_then (fun source => get_then (fun nested => Some
               (validate_content_cache_controls nested (block_field +:+ ".source.content")))
                 source "content") block "source")
            (Ok 0%Z) in
          Ok (sat_add USIZE_MAX count nested)
        else Ok count) 0 blocks 0%Z
  | _ => Ok 0%Z
  end.

(** ** Messages *)

Section Messages.
Context (b64_decode : string -> option bytes) (parse_url : string -> option Url)
        (parse_json : string -> option value).

(** One part of a message's content, counting its images. *)
Definition check_part (role content_field : string) (index : nat) (part : value) (image_count : Z) :
    result Z ValidationError :=
  let field := content_field +:+ "." +:+ show_nat index in
  if is_kind "text" part && has_string part "text" then Ok image_count
  else if is_kind "refusal" part && bool_decide (role = "assistant") && has_string part "refusal"
  then Ok image_count
  else if is_kind "document" part && bool_decide (role ∈ ["user"; "tool"])
  then validate_claude_document b64_decode parse_url part field ;? Ok image_count
  else if is_kind "image_url" part then
    match pointer part ["image_url"; "url"] ≫= as_str with
    | None => invalid (field +:+ ".image_url.url") "expected a string"
    | Some url =>
        validate_openai_image_url b64_decode parse_url url (field +:+ ".image_url.url") ;?
        Ok (sat_add USIZE_MAX image_count 1)
    end
  else invalid field "expected a text or image_url content part".

Definition check_tool_call (calls_field : string) (index : nat) (call : value) :
    result unit ValidationError :=
  let field := calls_field +:+ "." +:+ show_nat index in
  let kind := kind_of call in
  reject_if (negb (is_some_and kind (fun kind => bool_decide (kind ∈ ["function"; "custom"])))
             || lacks_text call "id") field
    "expected a named function or custom tool call with an id" ;?
  let definition := unwrap_or (get call (unwrap_or kind EmptyString)) Null in
  reject_if (is_none_or (get_str definition "name") (fun name => is_empty (trim name)))
    (field +:+ ".name") "tool name is required" ;?
  if bool_decide (kind = Some "function") then
    match get_str definition "arguments" with
    | None => invalid (field +:+ ".function.arguments") "expected a JSON string"
    | Some arguments =>
        reject_if (is_none (parse_json arguments)) (field +:+ ".function.arguments")
          "contains invalid JSON"
    end
  else
    reject_if (negb (has_string definition "input")) (field +:+ ".custom.input") "expected a string".

(** The number of images of a message that passes. *)
Definition validate_openai_message (m : OpenAiMessage) (index : nat) : result Z ValidationError :=
  let field := "messages." +:+ show_nat index in
  reject_if (bool_decide (om_role m = "tool")
             && is_none_or (om_tool_call_id m) (fun id => is_empty (trim id)))
    (field +:+ ".tool_call_id") "is required for tool messages" ;?
  reject_if (is_none (om_content m)
             && (negb (bool_decide (om_role m = "assistant"))
                 || (is_nil (om_tool_calls m) && is_none (om_refusal m))))
    (field +:+ ".content") "is required" ;?
  let? image_count :=
    match om_content m with
    | None | Some (Str _) => Ok 0%Z
    | Some (Array parts) => fold_each (check_part (om_role m) (field +:+ ".content")) 0 parts 0%Z
    | Some _ => invalid (field +:+ ".content") "expected a string or content array"
    end in
  each (check_tool_call (field +:+ ".tool_calls")) (om_tool_calls m) ;?
  Ok image_count.

(** The counters of the loop over the messages. *)
Record Counts := { n_images : Z; n_documents : Z; n_breakpoints : Z }.

Definition check_openai_message (index : nat) (m : OpenAiMessage) (n : Counts) :
    result Counts ValidationError :=
  let field := "messages." +:+ show_nat index in
  (if bool_decide (om_role m ∈ ["system"; "developer"; "user"; "assistant"; "tool"]) then Ok tt
   else Err (InvalidRole (om_role m))) ;?
  let? images := validate_openai_message m index in
  let? own := validate_cache_control (om_cache_control m) (field +:+ ".cache_control") in
  let n_images := sat_add USIZE_MAX (n_images n) images in
  let n_breakpoints := sat_add USIZE_MAX (n_breakpoints n) own in
  match om_content m with
  | None => Ok {| n_images := n_images; n_documents := n_documents n; n_breakpoints := n_breakpoints |}
  | Some content =>
      let? nested := validate_content_cache_controls content (field +:+ ".content") in
      Ok {| n_images := n_images;
            n_documents := (n_documents n + count_claude_documents_in_content content)%Z;
            n_breakpoints := sat_add USIZE_MAX n_breakpoints nested |}
  end.
End Messages.

(** ** Tools *)

Definition validate_custom_format (format : option value) (index : nat) : result unit ValidationError :=
  when_some format (fun format =>
    let field := "tools." +:+ show_nat index +:+ ".custom.format" in
    if is_kind "text" format then Ok tt
    else if is_kind "grammar" format then
      let grammar := unwrap_or (get format "grammar") Null in
      reject_if (negb (has_string grammar "definition"
                       && is_some_and (get_str grammar "syntax")
                            (fun syntax => bool_decide (syntax ∈ ["lark"; "regex"]))))
        (field +:+ ".grammar") "requires a definition and lark or regex syntax"
    else invalid (field +:+ ".type") "expected text or grammar").

Definition chars_of (text : option string) : Z :=
  unwrap_or ((fun text => Z.of_nat (char_count text)) <$> text) 0%Z.

(** One tool, counting cache markers and the characters of documentation. *)
Definition check_openai_tool (index : nat) (tool : OpenAiTool) (st : Z * Z) :
    result (Z * Z) ValidationError :=
  let '(breakpoints, docs) := st in
  let kind := ot_type tool in
  let field := "tools." +:+ show_nat index in
  reject_if (negb (bool_decide (kind ∈ ["function"; "custom"]))) (field +:+ ".type")
    "expected function or custom" ;?
  let definition := unwrap_or (get (ot_body tool) kind) Null in
  let? own := validate_cache_control (get (ot_body tool) "cache_control") (field +:+ ".cache_control") in
  let breakpoints := sat_add USIZE_MAX breakpoints own in
  let field := field +:+ "." +:+ kind in
  reject_if (negb (is_object definition)) field "expected an object" ;?
  let name := unwrap_or (get_str definition "name") EmptyString in
  reject_if (is_empty (trim name)) (field +:+ ".name") "must not be empty" ;?
  let docs := (docs + chars_of (get_str definition "description"))%Z in
  reject_if (is_some_and (get definition "description") (fun v => negb (is_string v)))
    (field +:+ ".description") "expected a string" ;?
  match validate_tool name (unwrap_or (get definition "parameters") (Object [])) with
  | Err ToolNameTooLong => Err ToolNameTooLong
  | Err error => invalid (field +:+ ".parameters") (error_to_string error)
  | Ok _ =>
      if bool_decide (kind = "function") then
        reject_if (is_some_and (get definition "parameters") (fun v => negb (is_object v)))
          (field +:+ ".parameters") "expected an object" ;?
        reject_if (present_unless is_boolean definition "strict") (field +:+ ".strict")
          "expected a boolean" ;?
        Ok (breakpoints, docs)
      else
        validate_custom_format (get definition "format") index ;?
        Ok (breakpoints,
            docs + chars_of (pointer definition ["format"; "grammar"; "definition"] ≫= as_str))%Z
  end.

(** ** The choice of a tool *)

Definition declares (kind name : string) (tool : OpenAiTool) : bool :=
  bool_decide (ot_type tool = kind) && bool_decide (named_under kind (ot_body tool) = Some name).

Definition not_found (name : string) : string := "tool '" +:+ name +:+ "' was not found".

(** The choice of one tool of a kind, when there is a name for it. *)
Definition check_choice_of (r : OpenAiRequest) (choice : value) (kind : string) :
    option (result unit ValidationError) :=
  (fun name =>
     reject_if (negb (bool_decide (get_str choice "type" = Some kind))) "tool_choice.type"
       ("expected '" +:+ kind +:+ "' for a " +:+ kind +:+ " tool choice") ;?
     reject_if (negb (existsb (declares kind name) (oa_tools r)))
       ("tool_choice." +:+ kind +:+ ".name") (not_found name)) <$> named_under kind choice.

Definition check_allowed (r : OpenAiRequest) (index : nat) (reference : value) (seen : list string) :
    result (list string) ValidationError :=
  let field := "tool_choice.allowed_tools.tools." +:+ show_nat index in
  match opt_filter (fun kind => bool_decide (kind ∈ ["function"; "custom"])) (kind_of reference) with
  | None => invalid (field +:+ ".type") "expected function or custom"
  | Some kind =>
      let field := field +:+ "." +:+ kind +:+ ".name" in
      match opt_filter (fun name => negb (is_empty (trim name))) (named_under kind reference) with
      | None => invalid field "tool name is required"
      | Some name =>
          let identity := kind +:+ ":" +:+ name in
          reject_if (bool_decide (identity ∈ seen)) field "duplicate allowed tool" ;?
          reject_if (negb (existsb (declares kind name) (oa_tools r))) field (not_found name) ;?
          Ok (identity :: seen)
      end
  end.

Definition check_allowed_tools (r : OpenAiRequest) (choice : value) : result unit ValidationError :=
  let allowed := unwrap_or (get choice "allowed_tools") Null in
  reject_if (negb (is_some_and (get_str allowed "mode")
                     (fun mode => bool_decide (mode ∈ ["auto"; "required"]))))
    "tool_choice.allowed_tools.mode" "expected auto or required" ;?
  match get allowed "tools" ≫= as_array with
  | None | Some [] => invalid "tool_choice.allowed_tools.tools" "expected a non-empty array"
  | Some tools => let? _ := fold_each (check_allowed r) 0 tools [] in Ok tt
  end.

Definition validate_openai_tool_choice (r : OpenAiRequest) : result unit ValidationError :=
  when_some (oa_tool_choice r) (fun choice =>
    if is_some_and (as_str choice) (fun text => bool_decide (text ∈ ["none"; "auto"])) then Ok tt
    else if bool_decide (as_str choice = Some "required")
    then reject_if (is_nil (oa_tools r)) "tool_choice" "required requires at least one tool"
    else
      match or_else (check_choice_of r choice "function") (check_choice_of r choice "custom") with
      | Some checked => checked
      | None =>
          if is_kind "allowed_tools" choice then check_allowed_tools r choice
          else invalid "tool_choice" "unsupported tool choice"
      end).

(** ** Requests *)

Definition two : f64 := F64.of_Z 2.

Definition check_stop (stop : option value) : result unit ValidationError :=
  when_some stop (fun stop =>
    let? sequences :=
      match stop with
      | Str text => Ok [text]
      | Array values =>
          if (length values <=? 4)%nat && forallb is_string values then Ok (omap as_str values)
          else invalid "stop" "expected a string or an array of at most 4 strings"
      | _ => invalid "stop" "expected a string or an array of at most 4 strings"
      end in
    reject_if (existsb (fun s => is_empty s || (MAX_STOP_SEQUENCE_BYTES <? Z.of_nat (len s))%Z) sequences)
      "stop" ("each sequence must contain 1..=" +:+ show_Z MAX_STOP_SEQUENCE_BYTES +:+ " bytes")).

Definition check_stream_options (options : option value) : result unit ValidationError :=
  when_some options (fun options =>
    reject_if (negb (is_object options)) "stream_options" "expected an object" ;?
    reject_if (present_unless is_boolean options "include_usage") "stream_options"
      "include_usage must be a boolean").

Definition validate_openai (b64_decode : string -> option bytes) (parse_url : string -> option Url)
    (parse_json : string -> option value) (r : OpenAiRequest) : result unit ValidationError :=
  common (oa_model r) (is_nil (oa_messages r)) ;?
  reject_if (is_some_and (oa_n r) (fun n => negb ((1 <=? n)%Z && (n <=? 128)%Z))) "n"
    "must be in 1..=128" ;?
  check_stop (oa_stop r) ;?
  reject_if (is_some_and (oa_temperature r) (fun t => negb (in_range_f64 F64.zero two t)))
    "temperature" "must be in 0..=2" ;?
  reject_if (is_some_and (oa_top_p r) (fun t => negb (in_range_f64 F64.zero F64.one t)))
    "top_p" "must be in 0..=1" ;?
  reject_if (bool_decide (oa_max_tokens r = Some 0%Z)
             || bool_decide (oa_max_completion_tokens r = Some 0%Z)) "max_tokens"
    "token limits must be positive" ;?
  check_stream_options (oa_stream_options r) ;?
  let? n := fold_each (check_openai_message b64_decode parse_url parse_json) 0 (oa_messages r)
              {| n_images := 0; n_documents := 0; n_breakpoints := 0 |} in
  reject_if (MAX_IMAGES_PER_REQUEST <? n_images n)%Z "messages"
    ("must contain at most " +:+ show_Z MAX_IMAGES_PER_REQUEST +:+ " image parts") ;?
  or_error (MAX_TOOLS <? Z.of_nat (length (oa_tools r)))%Z TooManyTools ;?
  reject_if (MAX_DOCUMENTS_PER_REQUEST <? n_documents n)%Z "messages"
    ("must contain at most " +:+ show_Z MAX_DOCUMENTS_PER_REQUEST +:+ " file parts") ;?
  let? (breakpoints, docs) := fold_each check_openai_tool 0 (oa_tools r) (n_breakpoints n, 0%Z) in
  or_error (MAX_TOOL_DOC_CHARS <? docs)%Z ToolDocumentationTooLarge ;?
  reject_if (MAX_CACHE_BREAKPOINTS <? breakpoints)%Z "cache_control"
    ("must define at most " +:+ show_Z MAX_CACHE_BREAKPOINTS +:+ " cache breakpoints") ;?
  validate_openai_tool_choice r ;?
  reject_if (is_some_and (oa_reasoning_effort r) (fun effort =>
               negb (bool_decide (effort ∈ ["none"; "minimal"; "low"; "medium"; "high"; "xhigh"; "max"]))))
    "reasoning_effort" "expected none, minimal, low, medium, high, xhigh, or max" ;?
  reject_if (is_some_and (oa_conversation_id r)
               (fun id => is_empty (trim id) || (256 <? Z.of_nat (len id))%Z)) "conversation_id"
    "must be a non-empty string of at most 256 bytes" ;?
  reject_if (is_some_and (oa_metadata r) (fun v => negb (is_object v))) "metadata"
    "expected an object" ;?
  validate_thinking (oa_thinking r) (output_token_limit r).
