(* ===== verification/OpenAiFacts.v ===== *)
(** * What an accepted OpenAI request guarantees

    The loop of [OpenAi] keeps every call, result, image and document of the
    conversation; with the checks of [ValidateOpenAi], calls keep their ids and
    their arguments, images are sound, and a choice that demands a tool call
    sends a tool to call. *)

From Stdlib Require Import ZArith Lia Ascii String.
From stdpp Require Import base list gmap sets strings.
From S2P Require Import Prelude RustStr F64 Json Text Protocol Model ToolHistory ToolHistoryFacts.
From S2P Require Import Context ToolNames Content Translate TranslateFacts Schema CacheControl.
From S2P Require Import Attachments Validate ValidateFacts OpenAi ValidateOpenAi.

Local Open Scope kproxy_scope.
Local Open Scope string_scope.
Local Open Scope list_scope.

(** What the messages of some roles hold. *)
Definition gathered {A} (roles : list string) (g : OpenAiMessage -> list A)
    (messages : list OpenAiMessage) : list A :=
  messages ≫= fun m => if bool_decide (om_role m ∈ roles) then g m else [].

(** What the user's turns of a history hold. *)
Definition user_items {A} (f : KiroUserInputMessage -> list A) (h : list KiroHistoryMessage) : list A :=
  h ≫= fun item => match hm_user item with Some u => f u | None => [] end.

Section Payload.
Context (sha256 : string -> string) (json_string : value -> string)
        (parse_json : string -> option value)
        (b64_encode : string -> string) (b64_decodes : string -> bool)
        (decoded_len : string -> option Z).
Context (tool_names : ToolNameRegistry) (options : TranslationOptions).

Abbreviation step :=
  (openai_step sha256 json_string parse_json b64_encode b64_decodes decoded_len tool_names options).
Abbreviation loop :=
  (openai_loop sha256 json_string parse_json b64_encode b64_decodes decoded_len tool_names options).

(** ** The loop over the messages *)

(** Results wait only for more results. *)
Definition idle (st : Turns) : Prop :=
  cur_results st = [] /\ cur_images st = [] /\ cur_documents st = [].

Definition waits (messages : list OpenAiMessage) (st : Turns) : Prop :=
  match messages with m :: _ => is_tool m = true \/ idle st | [] => True end.

Lemma step_waits m messages st : waits (m :: messages) st -> waits messages (step m messages st).
Proof.
  unfold waits. intros Hw. destruct messages as [|next messages]; [done|].
  destruct (is_tool next) eqn:Hn; [by left|right]. unfold openai_step.
  cbn [is_nil]. rewrite Hn. unfold is_tool in Hw.
  destruct (bool_decide (om_role m = "user")) eqn:Hu.
  - destruct Hw as [Hw|Hw]; [apply bool_decide_eq_true in Hu, Hw; congruence|done].
  - destruct (bool_decide (om_role m = "assistant")) eqn:Ha.
    + destruct Hw as [Hw|Hw]; [apply bool_decide_eq_true in Ha, Hw; congruence|done].
    + fold (is_tool m) in *. destruct (is_tool m); [done|]. by destruct Hw.
Qed.

(** Something that user and tool messages hold, and turns carry. *)
Section Carried.
Context {A : Type} (f : KiroUserInputMessage -> list A) (pend : Turns -> list A)
        (g : OpenAiMessage -> list A) (roles : list string).

Definition total (st : Turns) : list A := user_items f (cur_history st) ++ pend st.

Context (total_step : forall m messages st, waits (m :: messages) st ->
  total (step m messages st) = total st ++ (if bool_decide (om_role m ∈ roles) then g m else [])).

Lemma loop_total messages st :
  waits messages st -> total (loop messages st) = total st ++ gathered roles g messages.
Proof.
  revert st; induction messages as [|m messages IH]; intros st Hw; cbn [openai_loop].
  { by rewrite app_nil_r. }
  rewrite IH by (by apply step_waits). rewrite total_step by done. unfold gathered.
  by rewrite bind_cons, app_assoc.
Qed.
End Carried.

Lemma user_items_snoc {A} (f : KiroUserInputMessage -> list A) h item :
  user_items f (h ++ [item])
  = user_items f h ++ match hm_user item with Some u => f u | None => [] end.
Proof. unfold user_items. rewrite bind_app. f_equal. cbn. apply app_nil_r. Qed.

Lemma results_of_make_user text images documents results cp :
  results_of (make_user text images documents results cp options) = results.
Proof. unfold results_of, make_user, context. cbn. by destruct results. Qed.

(** The cases of a step, by role. *)
Ltac step_cases m messages Hw :=
  unfold openai_step, total, waits, is_tool in *;
  destruct (bool_decide (om_role m = "user")) eqn:Hu;
  [apply bool_decide_eq_true in Hu as Hrole; rewrite Hrole in *;
   destruct Hw as [Hw|Hw]; [done|]; destruct Hw as (Hr & Hi & Hd)
  |destruct (bool_decide (om_role m = "assistant")) eqn:Ha;
   [apply bool_decide_eq_true in Ha as Hrole; rewrite Hrole in *;
    destruct Hw as [Hw|Hw]; [done|]; destruct Hw as (Hr & Hi & Hd)
   |destruct (bool_decide (om_role m = "tool")) eqn:Ht;
    [apply bool_decide_eq_true in Ht as Hrole; rewrite Hrole in *
    |apply bool_decide_eq_false in Hu, Ha, Ht]]].

Lemma step_results m messages st :
  waits (m :: messages) st ->
  total results_of cur_results (step m messages st)
  = total results_of cur_results st
    ++ (if bool_decide (om_role m ∈ ["tool"]) then option_list (message_result json_string m) else []).
Proof.
  intros Hw. step_cases m messages Hw.
  - unfold user_step. destruct messages; cbn [is_nil push cur_history cur_results];
      rewrite ?user_items_snoc; cbn [hm_user user_item]; rewrite ?results_of_make_user, Hr; simpl;
      by rewrite !app_nil_r.
  - cbn [push cur_history cur_results]. rewrite user_items_snoc. simpl. by rewrite !app_nil_r.
  - unfold tool_step. case_match; cbn [flush_results push cur_history cur_results]; rewrite ?user_items_snoc;
      cbn [hm_user user_item]; rewrite ?results_of_make_user; simpl; by rewrite <- ?app_assoc, ?app_nil_r.
  - rewrite bool_decide_false; [by rewrite app_nil_r|]. by rewrite list_elem_of_singleton.
Qed.

(** What user and tool messages both hold. *)
Section Attached.
Context {A : Type} (f : KiroUserInputMessage -> list A) (pend : Turns -> list A)
        (g : OpenAiMessage -> list A).
Context (pend_idle : forall st, idle st -> pend st = []).
Context (user_last : forall m st, pend (user_step json_string b64_encode b64_decodes decoded_len options m true st) = g m).
Context (user_more : forall m st,
  let st' := user_step json_string b64_encode b64_decodes decoded_len options m false st in
  user_items f (cur_history st') = user_items f (cur_history st) ++ g m /\ pend st' = pend st).
Context (tool_carries : forall m last next st,
  total f pend (tool_step json_string b64_encode b64_decodes decoded_len options m last next st)
  = total f pend st ++ g m).
Context (pend_push : forall item st, pend (push item st) = pend st).

Lemma step_attached m messages st :
  waits (m :: messages) st ->
  total f pend (step m messages st)
  = total f pend st ++ (if bool_decide (om_role m ∈ ["user"; "tool"]) then g m else []).
Proof.
  intros Hw. unfold openai_step, waits, is_tool in *.
  destruct (bool_decide (om_role m = "user")) eqn:Hu.
  - apply bool_decide_eq_true in Hu. rewrite Hu in *. destruct Hw as [Hw|Hw]; [done|].
    apply pend_idle in Hw. unfold total. destruct messages as [|next messages]; cbn [is_nil].
    + rewrite user_last, Hw, app_nil_r. done.
    + destruct (user_more m st) as [-> ->]. by rewrite Hw, !app_nil_r.
  - destruct (bool_decide (om_role m = "assistant")) eqn:Ha.
    + apply bool_decide_eq_true in Ha. rewrite Ha in *. unfold total. rewrite pend_push.
      cbn [push cur_history]. rewrite user_items_snoc. simpl. by rewrite !app_nil_r.
    + destruct (bool_decide (om_role m = "tool")) eqn:Ht.
      * apply bool_decide_eq_true in Ht. rewrite Ht in *. by rewrite tool_carries.
      * apply bool_decide_eq_false in Hu, Ht. rewrite bool_decide_false; [by rewrite app_nil_r|].
        rewrite elem_of_cons, list_elem_of_singleton. tauto.
Qed.
End Attached.

Ltac attached :=
  cbv zeta; intros; unfold total, user_step, tool_step; repeat case_match; try split;
  cbn [flush_results push cur_history cur_images cur_documents] in *; rewrite ?user_items_snoc;
  cbn [hm_user user_item um_images um_documents make_user];
  rewrite <- ?app_assoc, ?app_nil_r; done.

Lemma step_images m messages st :
  waits (m :: messages) st ->
  total um_images cur_images (step m messages st)
  = total um_images cur_images st
    ++ (if bool_decide (om_role m ∈ ["user"; "tool"]) then message_images decoded_len m else []).
Proof. apply step_attached; [by intros ? (_ & ? & _)|attached..]. Qed.

Lemma step_documents m messages st :
  waits (m :: messages) st ->
  total um_documents cur_documents (step m messages st)
  = total um_documents cur_documents st
    ++ (if bool_decide (om_role m ∈ ["user"; "tool"])
        then message_documents b64_encode b64_decodes m else []).
Proof. apply step_attached; [by intros ? (_ & _ & ?)|attached..]. Qed.

Lemma loop_uses messages st :
  cur_history (loop messages st) ≫= item_uses
  = (cur_history st ≫= item_uses)
    ++ gathered ["assistant"] (fun m => omap (openai_tool_use sha256 parse_json tool_names)
                                          (om_tool_calls m)) messages.
Proof.
  revert st; induction messages as [|m messages IH]; intros st; cbn [openai_loop].
  { by rewrite app_nil_r. }
  rewrite IH. unfold gathered. rewrite bind_cons, app_assoc. f_equal.
  assert (Hnone : forall item, hm_assistant item = None -> [item] ≫= item_uses = [])
    by (intros item Hi; cbn; unfold item_uses; by rewrite Hi).
  unfold openai_step. destruct (bool_decide (om_role m = "user")) eqn:Hu.
  - apply bool_decide_eq_true in Hu. rewrite Hu. unfold user_step.
    destruct messages; cbn [is_nil push cur_history]; rewrite ?bind_app, ?Hnone, ?app_nil_r; done.
  - destruct (bool_decide (om_role m = "assistant")) eqn:Ha.
    + apply bool_decide_eq_true in Ha. rewrite Ha. cbn [push cur_history]. rewrite bind_app. f_equal.
      cbn. by rewrite app_nil_r.
    + apply bool_decide_eq_false in Ha. rewrite bool_decide_false by (by rewrite list_elem_of_singleton).
      rewrite app_nil_r. destruct (is_tool m); [|done]. unfold tool_step.
      case_match; [|done]. cbn [flush_results push cur_history]. by rewrite bind_app, Hnone, app_nil_r.
Qed.

(** ** The payload *)

Context (continuation_id conversation_id : string) (r : OpenAiRequest).

Definition openai_payload : KiroPayload :=
  openai_to_kiro sha256 json_string parse_json b64_encode b64_decodes decoded_len continuation_id
    conversation_id tool_names r options.

Definition conversation : list OpenAiMessage := filter (fun m => is_system m = false) (oa_messages r).

Definition final_turns : Turns := loop conversation turns_start.

Definition sent_tools : list KiroTool := openai_tools sha256 options tool_names (selected_tools r).

Lemma openai_parts : exists system cache_point,
  current_message openai_payload = openai_current options sent_tools final_turns
  /\ (history openai_payload, p_protected_history_messages openai_payload)
     = openai_history system cache_point options (cur_history final_turns).
Proof.
  unfold openai_payload, openai_to_kiro. fold sent_tools conversation final_turns.
  set (system := openai_system _ _ _ _ _). set (cp := openai_system_cache_point _ _).
  exists system, cp. destruct (openai_history system cp options (cur_history final_turns)) as [h n].
  unfold current_message, history.
  match goal with |- context [apply_adaptive_thinking ?p ?s ?b] =>
    destruct (adaptive_state p s b) as [-> ->] end.
  done.
Qed.

(** The system prompt holds nothing that the conversation could. *)
Lemma openai_payload_history {A} (f : KiroHistoryMessage -> list A) :
  (forall text cp, f (user_item (make_user text [] [] [] cp options)) = []) ->
  f (assistant_item {| am_content := SYSTEM_PROMPT_ACKNOWLEDGEMENT; am_cache_point := None;
                       am_tool_uses := [] |}) = [] ->
  history openai_payload ≫= f = cur_history final_turns ≫= f.
Proof.
  intros Hu Ha. destruct openai_parts as (system & cp & _ & Hh). revert Hh. unfold openai_history.
  destruct (is_empty _); intros [= -> _]; [done|]. by rewrite !bind_cons, Hu, Ha.
Qed.

Lemma conversation_gathered {A} roles (g : OpenAiMessage -> list A) :
  ("system" ∉ roles) -> ("developer" ∉ roles) ->
  gathered roles g conversation = gathered roles g (oa_messages r).
Proof.
  intros Hs Hd. unfold conversation, gathered. induction (oa_messages r) as [|m l IH]; [done|].
  rewrite filter_cons. case_decide as Hm; rewrite bind_cons, IH; [done|].
  rewrite bool_decide_false; [done|]. intros Hin. apply Hm. unfold is_system.
  apply bool_decide_eq_false. intros [Hr|Hr%list_elem_of_singleton]%elem_of_cons; congruence.
Qed.

(** The calls, results, images and documents of the conversation are all in the
    payload, in order. *)
Lemma openai_conversation_kept :
  history_uses openai_payload
  = gathered ["assistant"] (fun m => omap (openai_tool_use sha256 parse_json tool_names)
                                       (om_tool_calls m)) (oa_messages r)
  /\ history_results openai_payload ++ results_of (current_message openai_payload)
     = gathered ["tool"] (fun m => option_list (message_result json_string m)) (oa_messages r)
  /\ history_images openai_payload ++ um_images (current_message openai_payload)
     = gathered ["user"; "tool"] (message_images decoded_len) (oa_messages r)
  /\ user_items um_documents (history openai_payload) ++ um_documents (current_message openai_payload)
     = gathered ["user"; "tool"] (message_documents b64_encode b64_decodes) (oa_messages r).
Proof.
  destruct openai_parts as (system & cp & Hcur & _). rewrite Hcur.
  assert (Hw : waits conversation turns_start) by (unfold waits; destruct conversation; [done|by right]).
  split_and!.
  - unfold history_uses. rewrite openai_payload_history by done. unfold final_turns.
    rewrite loop_uses. cbn [app turns_start cur_history mbind list_bind].
    apply conversation_gathered; by rewrite list_elem_of_singleton.
  - unfold history_results. rewrite openai_payload_history by (intros; done || apply results_of_make_user).
    replace (results_of (openai_current options sent_tools final_turns)) with (cur_results final_turns).
    + pose proof (loop_total _ _ _ _ step_results _ _ Hw) as H. unfold total, user_items in H.
      unfold final_turns. rewrite H. apply conversation_gathered; by rewrite list_elem_of_singleton.
    + unfold results_of, openai_current, context. cbn [um_context].
      by destruct sent_tools, (cur_results final_turns).
  - unfold history_images. rewrite openai_payload_history by done.
    pose proof (loop_total _ _ _ _ step_images _ _ Hw) as H. unfold total, user_items in H.
    unfold final_turns, openai_current. cbn [um_images]. rewrite H.
    apply conversation_gathered; by apply (bool_decide_eq_false_1 _).
  - unfold user_items. rewrite openai_payload_history by done.
    pose proof (loop_total _ _ _ _ step_documents _ _ Hw) as H. unfold total, user_items in H.
    unfold final_turns, openai_current. cbn [um_documents]. rewrite H.
    apply conversation_gathered; by apply (bool_decide_eq_false_1 _).
Qed.
End Payload.

(** ** Loops that count *)

Lemma sum_of_nonneg {A} (weight : A -> Z) l : (forall x, 0 <= weight x)%Z -> (0 <= sum_of weight l)%Z.
Proof.
  intros Hw. unfold sum_of. induction l as [|x l IH]; cbn [foldr]; [lia|]. pose proof (Hw x). lia.
Qed.

Section Counting.
Context {S A : Type} (f : nat -> A -> S -> result S ValidationError).

(** A counter that saturates at [limit] bounds what the loop has seen. *)
Lemma fold_each_bound (limit : Z) (counter : S -> Z) (weight : A -> Z) index l s s' :
  (0 <= limit)%Z -> (forall x, 0 <= weight x)%Z -> (0 <= counter s)%Z ->
  (forall i x s s', f i x s = Ok s' -> 0 <= counter s ->
     Z.min limit (counter s + weight x) <= counter s')%Z ->
  fold_each f index l s = Ok s' -> (Z.min limit (counter s + sum_of weight l) <= counter s')%Z.
Proof.
  intros Hlimit Hpos Hs Hstep. revert index s Hs; induction l as [|x l IH]; intros index s Hs.
  { intros [= <-]. unfold sum_of. cbn [foldr]. lia. }
  intros (s1 & H1 & H2)%fold_each_cons. apply Hstep in H1; [|done]. pose proof (Hpos x).
  apply IH in H2; [|lia]. pose proof (sum_of_nonneg weight l Hpos). unfold sum_of in *. cbn [foldr]. lia.
Qed.
End Counting.

(** ** The client's calls *)

(** A call as the client describes it: id, name and input. *)
Definition client_call (parse_json : string -> option value) (call : value) :
    option (string * string * value) :=
  id ← get_str call "id";
  kind ← kind_of call;
  definition ← get call kind;
  name ← get_str definition "name";
  input ← (if bool_decide (kind = "function")
           then get_str definition "arguments" ≫= parse_json
           else (fun text => json_object [("input", Str text)]) <$> get_str definition "input");
  Some (id, name, input).

(** Not a custom call that also has a [function]: the translation would look there. *)
Definition plain_call (call : value) : Prop :=
  kind_of call = Some "custom" -> get call "function" = None.

Section Accepted.
Context (b64_decode : string -> option bytes) (parse_url : string -> option Url)
        (parse_json : string -> option value).

Definition accepted_openai (r : OpenAiRequest) : Prop :=
  validate_openai b64_decode parse_url parse_json r = Ok tt.

Lemma accepted_openai_parts r :
  accepted_openai r -> exists n breakpoints docs,
    fold_each (check_openai_message b64_decode parse_url parse_json) 0 (oa_messages r)
      {| n_images := 0; n_documents := 0; n_breakpoints := 0 |} = Ok n
    /\ (n_images n <= MAX_IMAGES_PER_REQUEST)%Z
    /\ fold_each check_openai_tool 0 (oa_tools r) (n_breakpoints n, 0%Z) = Ok (breakpoints, docs)
    /\ validate_openai_tool_choice r = Ok tt.
Proof.
  unfold accepted_openai, validate_openai. intros H. split_checks H.
  apply result_bind_ok in H as (n & Hn & H). split_checks H.
  apply result_bind_ok in H as ([breakpoints docs] & Ht & H). split_checks H.
  exists n, breakpoints, docs. split; [done|]. split; [|by split].
  match goal with Hi : reject_if (_ <? n_images n)%Z _ _ = Ok tt |- _ =>
    apply reject_if_ok in Hi; lia end.
Qed.

Lemma check_openai_message_ok i m n n' :
  check_openai_message b64_decode parse_url parse_json i m n = Ok n' ->
  exists images, validate_openai_message b64_decode parse_url parse_json m i = Ok images
                 /\ n_images n' = sat_add USIZE_MAX (n_images n) images.
Proof.
  unfold check_openai_message. intros H. split_checks H.
  apply result_bind_ok in H as (images & Hm & H). apply result_bind_ok in H as (own & _ & H).
  exists images. split; [done|]. destruct (om_content m); [|by injection H as <-].
  apply result_bind_ok in H as (nested & _ & H). by injection H as <-.
Qed.

Lemma validate_openai_message_ok m i images :
  validate_openai_message b64_decode parse_url parse_json m i = Ok images ->
  (om_role m = "tool" -> exists id, om_tool_call_id m = Some id /\ is_empty (trim id) = false)
  /\ match om_content m with
     | None | Some (Str _) => True
     | Some (Array parts) => exists field,
         fold_each (check_part b64_decode parse_url (om_role m) field) 0 parts 0%Z = Ok images
     | Some _ => False
     end
  /\ Forall (fun call => exists field j, check_tool_call parse_json field j call = Ok tt) (om_tool_calls m).
Proof.
  unfold validate_openai_message. intros H. split_checks H.
  apply result_bind_ok in H as (count & Hcount & H). split_checks H.
  injection H as <-. split_and!.
  - intros Hrole. match goal with Hr : reject_if (bool_decide (_ = "tool") && _) _ _ = Ok tt |- _ =>
      apply reject_if_ok in Hr; rewrite Hrole in Hr; cbn [andb] in Hr end.
    destruct (om_tool_call_id m) as [id|]; [|done]. by exists id.
  - destruct (om_content m) as [[]|]; try done. by eexists.
  - apply Forall_forall. intros call [j Hj]%list_elem_of_lookup_1. eexists _, j.
    match goal with He : each _ _ = Ok tt |- _ => exact (proj1 (each_ok _ _) He j call Hj) end.
Qed.

Lemma accepted_openai_messages r :
  accepted_openai r ->
  Forall (fun m => exists i images,
    validate_openai_message b64_decode parse_url parse_json m i = Ok images) (oa_messages r).
Proof.
  intros (n & _ & _ & Hn & _)%accepted_openai_parts. apply fold_each_elem in Hn.
  eapply Forall_impl; [exact Hn|]. intros m (i & n1 & n2 & Hm).
  apply check_openai_message_ok in Hm as (images & Hm & _). eauto.
Qed.

Lemma checked_call sha256 tool_names field i call :
  check_tool_call parse_json field i call = Ok tt -> plain_call call ->
  exists id name input, client_call parse_json call = Some (id, name, input)
    /\ openai_tool_use sha256 parse_json tool_names call
       = Some {| tu_tool_use_id := id; tu_name := kiro_name sha256 tool_names name; tu_input := input |}.
Proof.
  unfold check_tool_call, plain_call. intros H Hplain. split_checks H.
  repeat match goal with Hr : reject_if _ _ _ = Ok tt |- _ => apply reject_if_ok in Hr end.
  destruct (kind_of call) as [kind|] eqn:Ek; [|done]. cbn [is_some_and unwrap_or negb] in *.
  unfold client_call, openai_tool_use, call_input. rewrite Ek.
  unfold lacks_text in *. destruct (get_str call "id") as [id|]; [|by rewrite orb_true_r in *].
  cbn [mbind option_bind].
  destruct (get call kind) as [definition|] eqn:Ed; cbn [unwrap_or mbind option_bind] in *; [|done].
  destruct (get_str definition "name") as [name|] eqn:En; [|done]. cbn [mbind option_bind].
  destruct (bool_decide (Some kind = Some "function")) eqn:Ef.
  - apply bool_decide_eq_true in Ef. injection Ef as ->. rewrite Ed, bool_decide_true by done.
    destruct (get_str definition "arguments") as [arguments|] eqn:Ea; [|done].
    apply reject_if_ok in H. cbn [mbind option_bind].
    destruct (parse_json arguments) as [input|] eqn:Ep; [|done]. cbn [mbind option_bind].
    exists id, name, input. split; [done|]. unfold get_str in Ea.
    destruct (get definition "arguments") as [w|]; [|done]. cbn [mbind option_bind].
    rewrite En. cbn [mbind option_bind]. rewrite Ea. cbn [unwrap_or]. by rewrite Ep.
  - apply bool_decide_eq_false in Ef. rewrite bool_decide_false by congruence.
    assert (kind = "custom") as ->.
    { match goal with Hk : negb (bool_decide (kind ∈ _)) || _ = false |- _ =>
        apply orb_false_iff in Hk as [Hk%negb_false_iff%bool_decide_eq_true _];
        apply elem_of_cons in Hk as [->|Hk%list_elem_of_singleton]; [done|done] end. }
    rewrite (Hplain eq_refl), Ed. cbn [mbind option_bind]. rewrite En. cbn [mbind option_bind].
    apply reject_if_ok, negb_false_iff in H. unfold has_string in H.
    destruct (get_str definition "input") as [text|]; [|done].
    cbn [fmap option_fmap option_map mbind option_bind unwrap_or]. by exists id, name, (json_object [("input", Str text)]).
Qed.

(** ** Images *)

(** The parser of URLs finds the scheme of a data URL. *)
Context (data_urls : forall text url,
  parse_url text = Some url -> starts_with text "data:" = true -> url_scheme url = "data").

Definition decoded_length (text : string) : option Z :=
  (fun decoded => Z.of_nat (length decoded)) <$> b64_decode text.

Lemma data_image_starts text rest :
  strip_prefix text "data:image/" = Some rest -> starts_with text "data:" = true.
Proof.
  unfold strip_prefix, starts_with. intros H.
  destruct (strip_prefix_l (s2l "data:image/") (s2l text)) as [l|] eqn:E; [|done].
  apply strip_prefix_l_spec in E.
  assert (Hs : strip_prefix_l (s2l "data:") (s2l text) = Some ((s2l "image/" ++ l)%list)).
  { apply strip_prefix_l_spec. by rewrite E. }
  by rewrite Hs.
Qed.

Lemma openai_image_sound block url field img :
  pointer block ["image_url"; "url"] ≫= as_str = Some url ->
  validate_openai_image_url b64_decode parse_url url field = Ok tt ->
  openai_image decoded_length block = Some img -> image_sound b64_decode img.
Proof.
  unfold openai_image, validate_openai_image_url, pointer. cbn [fold_left].
  destruct (negb _); [done|]. destruct (get block "image_url") as [image_url|]; [|done].
  intros Hurl. assert (get_str image_url "url" = Some url) as Hu by exact Hurl. clear Hurl.
  cbn [mbind option_bind]. rewrite Hu. cbn [mbind option_bind].
  destruct (strip_prefix url "data:image/") as [encoded|] eqn:Es; [|done]. cbn [mbind option_bind].
  destruct (is_some_and (parse_url url) is_http) eqn:Eh.
  { destruct (parse_url url) as [u|] eqn:Eu; [|done]. cbn [is_some_and] in Eh.
    apply data_urls in Eu; [|by eapply data_image_starts]. unfold is_http in Eh. by rewrite Eu in Eh. }
  destruct (split_once_str encoded ";base64,") as [[format data]|]; [|done]. cbn [mbind option_bind].
  destruct (negb _) eqn:Ef; [done|]. apply negb_false_iff, bool_decide_eq_true in Ef.
  unfold decoded_length. destruct (b64_decode data) as [decoded|] eqn:Ed; [|done].
  cbn [fmap option_fmap option_map mbind option_bind].
  intros [_ [Hlen%reject_if_ok Hd%reject_if_ok]%then_ok]%then_ok. rewrite Hlen. intros [= <-].
  apply negb_false_iff, bool_decide_eq_true in Hd. exists decoded. cbn [img_bytes img_format].
  split; [done|]. split; [by apply Z.ltb_ge|]. rewrite Hd. do 2 f_equal. unfold normalize_image_format.
  repeat (apply elem_of_cons in Ef as [->|Ef]; [by vm_compute|]). by apply elem_of_nil in Ef.
Qed.

(** An image part counts for one. *)
Definition part_weight (part : value) : Z := if is_kind "image_url" part then 1%Z else 0%Z.

Lemma part_weight_bounds part : (0 <= part_weight part <= 1)%Z.
Proof. unfold part_weight. destruct (is_kind "image_url" part); lia. Qed.

Lemma part_weight_pos part : (0 <= part_weight part)%Z.
Proof. apply part_weight_bounds. Qed.

Lemma check_part_counts role field i part n n' :
  check_part b64_decode parse_url role field i part n = Ok n' ->
  (Z.min USIZE_MAX (n + part_weight part) <= n')%Z
  /\ forall img, openai_image decoded_length part = Some img -> image_sound b64_decode img.
Proof.
  intros H. unfold check_part, part_weight in *.
  assert (Hother : is_kind "image_url" part = false -> openai_image decoded_length part = None)
    by (intros Hk; unfold openai_image; by rewrite Hk).
  destruct (is_kind "image_url" part) eqn:Hi.
  - rewrite (is_kind_other _ "text" _ Hi), (is_kind_other _ "refusal" _ Hi),
      (is_kind_other _ "document" _ Hi) in H by done. cbn [andb] in H.
    destruct (pointer part ["image_url"; "url"] ≫= as_str) as [url|] eqn:Eu; [|done].
    split_checks H. injection H as <-. split; [unfold sat_add; lia|].
    intros img. by eapply openai_image_sound.
  - rewrite Hother by done. split; [|done].
    destruct (_ && _); [injection H as <-; lia|]. destruct (_ && _); [injection H as <-; lia|].
    destruct (_ && _); [|done]. split_checks H. injection H as <-. lia.
Qed.

Lemma message_images_ok m i images :
  validate_openai_message b64_decode parse_url parse_json m i = Ok images ->
  Forall (image_sound b64_decode) (message_images decoded_length m)
  /\ (Z.min USIZE_MAX (Z.of_nat (length (message_images decoded_length m))) <= images)%Z.
Proof.
  intros H. pose proof H as (_ & Hc & _)%validate_openai_message_ok. unfold message_images.
  assert (Hpos : (0 <= images)%Z).
  { unfold validate_openai_message in H. split_checks H. apply result_bind_ok in H as (n & Hn & H).
    split_checks H. injection H as <-. clear Hc. destruct (om_content m) as [[]|]; simplify_eq; try done.
    apply (fold_each_bound _ USIZE_MAX id part_weight) in Hn; [|done| |done|].
    - pose proof (sum_of_nonneg part_weight l part_weight_pos). unfold id, USIZE_MAX, U64_MAX in Hn. lia.
    - apply part_weight_pos.
    - intros j x s s' Hs%check_part_counts _. apply Hs. }
  destruct (om_content m) as [[| | | |parts|]|]; try done;
    cbn [fmap option_fmap option_map unwrap_or]; try (split; [constructor|cbn; lia]).
  destruct Hc as [field Hparts]. unfold extract_openai_images. cbn [as_array unwrap_or].
  split.
  - apply Forall_forall. intros img (part & Hin & Himg)%list_elem_of_omap.
    apply fold_each_elem in Hparts. rewrite Forall_forall in Hparts.
    destruct (Hparts part Hin) as (j & s1 & s2 & Hs). apply check_part_counts in Hs as [_ Hs].
    by apply Hs.
  - apply (fold_each_bound _ USIZE_MAX id part_weight) in Hparts; [|done| |done|].
    + etrans; [|exact Hparts]. apply Z.min_le_compat_l. unfold id, sum_of. clear.
      induction parts as [|part parts IH]; [done|]. cbn [omap list_omap foldr].
      destruct (openai_image decoded_length part) as [img|] eqn:E.
      * assert (Hw : part_weight part = 1%Z); [|cbn [length]; lia].
        unfold part_weight. unfold openai_image in E. by destruct (is_kind "image_url" part).
      * pose proof (part_weight_pos part). lia.
    + apply part_weight_pos.
    + intros j x s s' Hs%check_part_counts _. apply Hs.
Qed.

Lemma accepted_openai_images r :
  accepted_openai r ->
  let images := gathered ["user"; "tool"] (message_images decoded_length) (oa_messages r) in
  Forall (image_sound b64_decode) images /\ (Z.of_nat (length images) <= MAX_IMAGES_PER_REQUEST)%Z.
Proof.
  intros Ha. split.
  - unfold gathered. rewrite Forall_bind. eapply Forall_impl; [by apply accepted_openai_messages|].
    intros m (i & n & Hm). unfold compose. case_bool_decide; [|constructor].
    by eapply message_images_ok.
  - destruct (accepted_openai_parts r Ha) as (n & _ & _ & Hn & Hmax & _).
    apply (fold_each_bound _ USIZE_MAX n_images
             (fun m => Z.of_nat (length (message_images decoded_length m)))) in Hn; [|done|lia|done|].
    + cbn [n_images] in Hn. assert (Hsum : (Z.of_nat (length (gathered ["user"; "tool"]
        (message_images decoded_length) (oa_messages r)))
        <= sum_of (fun m => Z.of_nat (length (message_images decoded_length m))) (oa_messages r))%Z).
      { clear. unfold gathered, sum_of. induction (oa_messages r) as [|m l IH]; [done|].
        rewrite bind_cons, length_app. cbn [foldr]. case_bool_decide; cbn [length]; lia. }
      unfold MAX_IMAGES_PER_REQUEST, USIZE_MAX, U64_MAX in *. lia.
    + intros i m s s' (images & Hm & ->)%check_openai_message_ok Hs.
      apply message_images_ok in Hm as [_ Hm]. unfold sat_add. lia.
Qed.

(** ** Tools *)

Lemma accepted_tool_named r tool :
  accepted_openai r -> tool ∈ oa_tools r -> is_Some (openai_tool_name tool).
Proof.
  intros (n & b & d & _ & _ & Ht & _)%accepted_openai_parts Hin. apply fold_each_elem in Ht.
  rewrite Forall_forall in Ht. destruct (Ht tool Hin) as (i & [b1 d1] & st & Hc). revert Hc.
  unfold check_openai_tool, openai_tool_name, named_under. intros Hc. split_checks Hc.
  apply result_bind_ok in Hc as (own & _ & Hc). split_checks Hc.
  repeat match goal with Hr : reject_if _ _ _ = Ok tt |- _ => apply reject_if_ok in Hr end.
  destruct (get (ot_body tool) (ot_type tool)) as [definition|]; [|done].
  cbn [unwrap_or mbind option_bind] in *. by destruct (get_str definition "name").
Qed.

Lemma declares_spec kind name tool :
  declares kind name tool = true -> ot_type tool = kind /\ openai_tool_name tool = Some name.
Proof.
  unfold declares, openai_tool_name.
  intros [<-%bool_decide_eq_true Hn%bool_decide_eq_true]%andb_prop. done.
Qed.

Lemma check_choice_of_ok r choice kind name :
  named_under kind choice = Some name -> from_option (eq (Ok tt)) False (check_choice_of r choice kind) ->
  get_str choice "type" = Some kind
  /\ exists tool, tool ∈ oa_tools r /\ ot_type tool = kind /\ openai_tool_name tool = Some name.
Proof.
  unfold check_choice_of. intros ->. cbn [fmap option_fmap option_map from_option].
  intros [Ht%reject_if_ok Hf%reject_if_ok]%eq_sym%then_ok.
  apply negb_false_iff in Ht, Hf. apply bool_decide_eq_true in Ht.
  apply existsb_exists in Hf as (tool & Hin%list_elem_of_In & [? ?]%declares_spec). eauto.
Qed.

Lemma kiro_tool_named_definition original name description schema :
  exists spec doc, kiro_tool_named original name description schema = (Specification spec, doc).
Proof. unfold kiro_tool_named. destruct (_ <? _)%nat; [eauto|]. destruct (is_empty _); eauto. Qed.

(** A choice of one tool finds it. *)
Lemma selected_one r choice kind name tool :
  oa_tool_choice r = Some choice -> named_under kind choice = Some name ->
  get_str choice "type" = Some kind -> kind <> "allowed_tools" ->
  (kind = "function" \/ kind = "custom") -> (kind = "custom" -> named_under "function" choice = None) ->
  tool ∈ oa_tools r -> openai_tool_name tool = Some name -> tool ∈ selected_tools r.
Proof.
  intros Hc Hn Ht Hk Hkinds Hcustom Hin Htool. unfold selected_tools. rewrite Hc.
  destruct choice as [| | | | |m]; try done. cbn [as_str]. rewrite bool_decide_false by done.
  rewrite Ht, bool_decide_false by congruence.
  destruct (selected_name (Object m)) as [name'|] eqn:Es; [|done].
  apply list_elem_of_filter. split; [|done]. rewrite Htool, <- Es. symmetry.
  unfold selected_name, named_under in *. destruct Hkinds as [->| ->].
  - destruct (get (Object m) "function") as [body|]; [|done]. exact Hn.
  - specialize (Hcustom eq_refl). destruct (get (Object m) "function") as [body|]; cbn [or_else] in *.
    + exfalso. cbn [mbind option_bind] in *. congruence.
    + exact Hn.
Qed.

Lemma opt_filter_Some {A} (f : A -> bool) o x : opt_filter f o = Some x -> o = Some x /\ f x = true.
Proof. destruct o as [y|]; [|done]. cbn. destruct (f y) eqn:E; [|done]. by intros [= <-]. Qed.

Lemma selected_allowed r choice :
  oa_tool_choice r = Some choice -> is_kind "allowed_tools" choice = true ->
  check_allowed_tools r choice = Ok tt -> exists tool, tool ∈ oa_tools r /\ tool ∈ selected_tools r.
Proof.
  intros Hc Hk H. unfold check_allowed_tools in H. split_checks H.
  destruct choice as [| | | | |m]; try done.
  destruct (get (Object m) "allowed_tools") as [allowed|] eqn:Ea; cbn [unwrap_or] in H; [|done].
  destruct (get allowed "tools") as [[| | | |tools|]|] eqn:Et; try done. cbn [mbind option_bind as_array] in H.
  destruct tools as [|reference tools]; [done|].
  apply result_bind_ok in H as (seen & Hs & _). apply fold_each_cons in Hs as (s1 & Hs & _).
  unfold check_allowed in Hs.
  destruct (opt_filter _ (kind_of reference)) as [kind|] eqn:Ek; [|done].
  destruct (opt_filter _ (named_under kind reference)) as [name|] eqn:En; [|done]. split_checks Hs.
  match goal with Hf : reject_if (negb (existsb _ _)) _ _ = Ok tt |- _ =>
    apply reject_if_ok, negb_false_iff, existsb_exists in Hf
      as (tool & Hin%list_elem_of_In & [Htk Htn]%declares_spec) end.
  exists tool. split; [done|]. unfold selected_tools. rewrite Hc. cbn [as_str].
  rewrite bool_decide_false by done. unfold is_kind, kind_of in Hk. rewrite Hk.
  apply list_elem_of_filter. split; [|done]. unfold is_allowed. rewrite Htn. cbn [is_some_and].
  apply existsb_exists. exists (kind, name). split; [|by rewrite Htk, !bool_decide_true].
  apply list_elem_of_In, list_elem_of_omap. exists reference. split.
  - unfold pointer. cbn [fold_left]. rewrite Ea, Et. cbn. by left.
  - apply opt_filter_Some in Ek as [Ek _], En as [En _]. unfold allowed_reference.
    unfold kind_of in Ek. rewrite Ek. cbn [mbind option_bind]. by rewrite En.
Qed.

Lemma required_selected r :
  accepted_openai r -> choice_required r = true -> exists tool, tool ∈ oa_tools r /\ tool ∈ selected_tools r.
Proof.
  intros (n & b & d & _ & _ & _ & Hv)%accepted_openai_parts Hreq.
  unfold choice_required in Hreq. unfold validate_openai_tool_choice in Hv.
  destruct (oa_tool_choice r) as [choice|] eqn:Hc; [|done]. cbn [is_some_and when_some] in *.
  destruct (is_some_and (as_str choice) _) eqn:Hna.
  { destruct choice; try done. cbn in Hna. apply bool_decide_eq_true in Hna.
    apply elem_of_cons in Hna as [->|Hna%list_elem_of_singleton]; [by vm_compute in Hreq|].
    subst. by vm_compute in Hreq. }
  destruct (bool_decide (as_str choice = Some "required")) eqn:Hr.
  { apply reject_if_ok in Hv. unfold selected_tools. rewrite Hc.
    apply bool_decide_eq_true in Hr. destruct choice; try done. rewrite Hr.
    rewrite !bool_decide_false by done. cbn.
    destruct (oa_tools r) as [|tool tools]; [done|]. exists tool. split; by left. }
  destruct (or_else _ _) as [checked|] eqn:Ho.
  - subst checked. destruct (named_under "function" choice) as [name|] eqn:Ef.
    + destruct (check_choice_of_ok r choice "function" name Ef) as (Ht & tool & Hin & _ & Hn).
      { revert Ho. unfold check_choice_of at 1 3. rewrite Ef. cbn. by intros [= ->]. }
      exists tool. split; [done|]. by eapply (selected_one r choice "function" name); eauto.
    + assert (Hcf : check_choice_of r choice "function" = None)
        by (unfold check_choice_of; by rewrite Ef).
      rewrite Hcf in Ho. cbn [or_else] in Ho.
      destruct (named_under "custom" choice) as [name|] eqn:Ec;
        [|unfold check_choice_of in Ho; by rewrite Ec in Ho].
      destruct (check_choice_of_ok r choice "custom" name Ec) as (Ht & tool & Hin & _ & Hn);
        [by rewrite Ho|].
      exists tool. split; [done|]. by eapply (selected_one r choice "custom" name); eauto.
  - destruct (is_kind "allowed_tools" choice) eqn:Hk; [|done]. by eapply selected_allowed.
Qed.

(** ** From a request to its payload *)

Section Translated.
Context (sha256 : string -> string) (json_string : value -> string) (b64_encode : string -> string).
Context (tool_names : ToolNameRegistry) (options : TranslationOptions).
Context (continuation_id conversation_id : string) (r : OpenAiRequest).

Let decodes (text : string) : bool := is_some (b64_decode text).

Definition accepted_openai_payload : KiroPayload :=
  openai_payload sha256 json_string parse_json b64_encode decodes decoded_length tool_names options
    continuation_id conversation_id r.

(** The use Kiro is sent for a call of the client. *)
Definition use_for (call : value) (u : KiroToolUse) : Prop :=
  exists id name input, client_call parse_json call = Some (id, name, input)
    /\ u = {| tu_tool_use_id := id; tu_name := kiro_name sha256 tool_names name; tu_input := input |}.

(** The result Kiro is sent for a message of a tool. *)
Definition result_for (m : OpenAiMessage) (t : KiroToolResult) : Prop :=
  om_tool_call_id m = Some (tr_tool_use_id t) /\ is_empty (trim (tr_tool_use_id t)) = false
  /\ tr_content t = [{| kt_text := message_text json_string m |}].

(** What is sent of a call: one use at most, and that of the call if it is plain. *)
Definition kept_call (call : value) (uses : list KiroToolUse) : Prop :=
  length uses <= 1 /\ (plain_call call -> exists u, uses = [u] /\ use_for call u).

Lemma gathered_uses messages :
  Forall (fun m => exists i images,
    validate_openai_message b64_decode parse_url parse_json m i = Ok images) messages ->
  exists parts, Forall2 kept_call (gathered ["assistant"] om_tool_calls messages) parts
    /\ gathered ["assistant"] (fun m => omap (openai_tool_use sha256 parse_json tool_names)
                                        (om_tool_calls m)) messages = concat parts.
Proof.
  set (sent := fun call => option_list (openai_tool_use sha256 parse_json tool_names call)).
  intros Hok. exists (sent <$> gathered ["assistant"] om_tool_calls messages).
  unfold gathered. induction Hok as [|m l (i & n & Hm) _ [IH1 IH2]]; [done|].
  rewrite !bind_cons, fmap_app, concat_app. split; [apply Forall2_app; [|exact IH1]|f_equal; [|exact IH2]].
  - case_bool_decide; [|constructor]. apply validate_openai_message_ok in Hm as (_ & _ & Hcalls).
    apply Forall2_fmap_r, Forall_Forall2_diag. eapply Forall_impl; [exact Hcalls|].
    intros call (field & j & Hc). split; [unfold sent; by destruct (openai_tool_use _ _ _ _); cbn; lia|].
    intros Hp. destruct (checked_call sha256 tool_names field j call Hc Hp) as (id & name & input & Hcl & Hu).
    unfold sent. rewrite Hu. eexists. split; [done|]. by exists id, name, input.
  - case_bool_decide; [|done]. induction (om_tool_calls m) as [|call calls IH]; [done|].
    cbn [omap list_omap fmap list_fmap concat]. rewrite <- IH. unfold sent.
    by destruct (openai_tool_use _ _ _ call).
Qed.

Lemma gathered_results messages :
  Forall (fun m => exists i images,
    validate_openai_message b64_decode parse_url parse_json m i = Ok images) messages ->
  Forall2 result_for (filter (fun m => om_role m = "tool") messages)
    (gathered ["tool"] (fun m => option_list (message_result json_string m)) messages).
Proof.
  intros Hok. unfold gathered. induction Hok as [|m l (i & n & Hm) _ IH]; [constructor|].
  rewrite bind_cons, filter_cons. case_decide as Hrole.
  - rewrite bool_decide_true by (by rewrite Hrole; left).
    apply validate_openai_message_ok in Hm as (Hid & _). destruct (Hid Hrole) as (id & Hm & Ht).
    unfold message_result at 1. rewrite Hm. cbn. constructor; [|done]. by split_and!.
  - rewrite bool_decide_false; [done|]. by rewrite list_elem_of_singleton.
Qed.

(** C20: in the payload of an accepted OpenAI request every call of an assistant's
    message is exactly one tool use, with its id, the registry's name and the
    client's arguments as parsed, and every message of a tool exactly one result
    for its call, all in the order of the conversation.  The exception are custom
    calls that also carry a [function] key ([plain_call] does not hold): of these
    one use at most is sent, and it may be dropped ([null_function_drops_call]);
    the other calls of the request are kept all the same. *)
Theorem accepted_openai_kept :
  accepted_openai r ->
  (exists parts, history_uses accepted_openai_payload = concat parts
     /\ Forall2 kept_call (gathered ["assistant"] om_tool_calls (oa_messages r)) parts)
  /\ Forall2 result_for (filter (fun m => om_role m = "tool") (oa_messages r))
      (history_results accepted_openai_payload ++ results_of (current_message accepted_openai_payload)).
Proof.
  intros Ha%accepted_openai_messages.
  destruct (openai_conversation_kept sha256 json_string parse_json b64_encode decodes decoded_length
    tool_names options continuation_id conversation_id r) as (Hu & Hr & _).
  unfold accepted_openai_payload. rewrite Hu, Hr. split; [|by apply gathered_results].
  destruct (gathered_uses _ Ha) as (parts & H1 & H2). by exists parts.
Qed.

(** At most one hundred images of an accepted OpenAI request reach Kiro, and
    each decodes to at most 5 MiB whose first bytes are those of the format it is
    sent with. *)
Theorem accepted_openai_images_sound :
  accepted_openai r ->
  let sent := history_images accepted_openai_payload ++ um_images (current_message accepted_openai_payload) in
  Forall (image_sound b64_decode) sent /\ (Z.of_nat (length sent) <= 100)%Z.
Proof.
  intros Ha. cbn zeta.
  destruct (openai_conversation_kept sha256 json_string parse_json b64_encode decodes decoded_length
    tool_names options continuation_id conversation_id r) as (_ & _ & Hi & _).
  unfold accepted_openai_payload. rewrite Hi. by apply accepted_openai_images.
Qed.

(** When the choice of an accepted OpenAI request makes the prompt demand a
    tool call, the payload offers at least one tool. *)
Theorem required_choice_sends_tool :
  accepted_openai r -> choice_required r = true ->
  spec_names (tools_of (current_message accepted_openai_payload)) <> [].
Proof.
  intros Ha Hreq. destruct (required_selected r Ha Hreq) as (tool & Hin & Hsel).
  destruct (accepted_tool_named r tool Ha Hin) as [name Hn].
  destruct (openai_parts sha256 json_string parse_json b64_encode decodes decoded_length
    tool_names options continuation_id conversation_id r) as (system & cp & Hcur & _).
  unfold accepted_openai_payload. rewrite Hcur.
  assert (Htools : tools_of (openai_current options (sent_tools sha256 tool_names options r)
    (final_turns sha256 json_string parse_json b64_encode decodes decoded_length tool_names options r))
    = sent_tools sha256 tool_names options r).
  { unfold tools_of, openai_current, context. cbn [um_context].
    by destruct (sent_tools _ _ _ _), (cur_results _). }
  rewrite Htools. unfold sent_tools, openai_tools.
  apply list_elem_of_split in Hsel as (l1 & l2 & ->). rewrite bind_app, bind_cons.
  unfold spec_names. rewrite !omap_app. intros [_ [Hnil _]%app_nil]%app_nil. revert Hnil.
  unfold openai_translate_tool, openai_definition. unfold openai_tool_name, named_under in Hn.
  destruct (get (ot_body tool) (ot_type tool)) as [definition|]; [|done].
  cbn [mbind option_bind] in *. rewrite Hn. cbn [mbind option_bind].
  destruct (bool_decide (ot_type tool = "custom"));
    match goal with |- context [kiro_tool_named ?a ?b ?c ?d] =>
      destruct (kiro_tool_named_definition a b c d) as (spec & doc & ->) end; done.
Qed.
End Translated.
End Accepted.

(** ** Examples *)

Definition openai_message (role : string) (content : option value) (calls : list value)
    (call_id : option string) (cache_control : option value) : OpenAiMessage :=
  {| om_role := role; om_content := content; om_tool_calls := calls; om_tool_call_id := call_id;
     om_reasoning_content := None; om_refusal := None; om_name := None;
     om_cache_control := cache_control |}.

Definition plain_openai (messages : list OpenAiMessage) (tools : list OpenAiTool)
    (tool_choice : option value) : OpenAiRequest :=
  {| oa_model := "claude-sonnet-4.5"; oa_messages := messages; oa_temperature := None;
     oa_top_p := None; oa_max_tokens := None; oa_max_completion_tokens := None; oa_stream := false;
     oa_stop := None; oa_n := None; oa_legacy_functions := false; oa_stream_options := None;
     oa_tools := tools; oa_tool_choice := tool_choice; oa_parallel_tool_calls := true;
     oa_thinking := None; oa_reasoning_effort := None; oa_conversation_id := None;
     oa_metadata := None; oa_response_format := None |}.

Definition demo_openai_tool (kind name : string) : OpenAiTool :=
  {| ot_type := kind; ot_body := json_object [(kind, json_object [("name", Str name)])] |}.

Definition function_call : value :=
  json_object [("id", Str "a"); ("type", Str "function");
               ("function", json_object [("name", Str "mcp.read"); ("arguments", Str "{}")])].
Definition custom_call : value :=
  json_object [("id", Str "b"); ("type", Str "custom");
               ("custom", json_object [("name", Str "run"); ("input", Str "ls")])].

Definition demo_openai : OpenAiRequest :=
  plain_openai
    [openai_message "system" (Some (Str "Be brief.")) [] None None;
     openai_message "user" (Some (Array
       [json_object [("type", Str "text"); ("text", Str "Look.")];
        json_object [("type", Str "image_url");
                     ("image_url", json_object [("url", Str "data:image/gif;base64,GIF89a")])]]))
       [] None None;
     openai_message "assistant" None [function_call; custom_call] None None;
     openai_message "tool" (Some (Str "one")) [] (Some "a") None;
     openai_message "tool" (Some (Str "two")) [] (Some "b") None]
    [demo_openai_tool "function" "mcp.read"; demo_openai_tool "custom" "run"]
    (Some (json_object [("type", Str "custom"); ("custom", json_object [("name", Str "run")])])).

Definition demo_parse (text : string) : option value :=
  if bool_decide (text = "{}") then Some (Object []) else None.

Definition demo_openai_names : ToolNameRegistry :=
  unwrap_or (new id 9 ["mcp.read"; "run"]) registry_default.

(** A parser that knows two schemes. *)
Definition demo_url (text : string) : option Url :=
  let url scheme := Some {| url_scheme := scheme; url_host := Some "host"; url_username := EmptyString;
                            url_password := None |} in
  if starts_with text "data:" then url "data"
  else if starts_with text "https:" then url "https" else None.

Lemma demo_data_urls text url :
  demo_url text = Some url -> starts_with text "data:" = true -> url_scheme url = "data".
Proof. unfold demo_url. intros H Hs. rewrite Hs in H. by injection H as <-. Qed.

Definition demo_openai_accepted (r : OpenAiRequest) : Prop :=
  accepted_openai demo_decode demo_url demo_parse r.

Definition demo_openai_payload (r : OpenAiRequest) : KiroPayload :=
  accepted_openai_payload demo_decode demo_parse id (fun _ => "{}") id demo_openai_names demo_options
    "continuation" "conversation" r.

Lemma accepted_openai_kept_witness :
  tu_tool_use_id <$> history_uses (demo_openai_payload demo_openai) = ["a"; "b"]
  /\ exists parts, history_uses (demo_openai_payload demo_openai) = concat parts
      /\ Forall2 (kept_call demo_parse id demo_openai_names) [function_call; custom_call] parts.
Proof.
  split; [vm_compute; reflexivity|].
  apply (accepted_openai_kept demo_decode demo_url demo_parse id (fun _ => "{}") id
    demo_openai_names demo_options "continuation" "conversation" demo_openai).
  vm_compute; reflexivity.
Defined.

Lemma accepted_openai_images_sound_witness :
  let sent := history_images (demo_openai_payload demo_openai)
              ++ um_images (current_message (demo_openai_payload demo_openai)) in
  img_format <$> sent = ["gif"] /\ Forall (image_sound demo_decode) sent.
Proof.
  split; [vm_compute; reflexivity|].
  apply (accepted_openai_images_sound demo_decode demo_url demo_parse demo_data_urls id
    (fun _ => "{}") id demo_openai_names demo_options "continuation" "conversation" demo_openai).
  vm_compute; reflexivity.
Defined.

Lemma required_choice_sends_tool_witness :
  spec_names (tools_of (current_message (demo_openai_payload demo_openai))) = ["run"]
  /\ spec_names (tools_of (current_message (demo_openai_payload demo_openai))) <> [].
Proof.
  split; [vm_compute; reflexivity|].
  apply (required_choice_sends_tool demo_decode demo_url demo_parse id
    (fun _ => "{}") id demo_openai_names demo_options "continuation" "conversation" demo_openai).
  - vm_compute; reflexivity.
  - vm_compute; reflexivity.
Defined.

(** A custom call that also says [function: null] is accepted, but the call does
    not reach Kiro, while its result does. *)
Definition null_function_call : value :=
  json_object [("id", Str "b"); ("type", Str "custom"); ("function", Null);
               ("custom", json_object [("name", Str "run"); ("input", Str "ls")])].

Example null_function_drops_call :
  let r := plain_openai
    [openai_message "assistant" None [null_function_call] None None;
     openai_message "tool" (Some (Str "two")) [] (Some "b") None]
    [demo_openai_tool "custom" "run"] None in
  demo_openai_accepted r /\ history_uses (demo_openai_payload r) = []
  /\ tr_tool_use_id <$> results_of (current_message (demo_openai_payload r)) = ["b"].
Proof. split; [|split]; vm_compute; reflexivity. Qed.

(** With the prompt cache disabled the markers of the user's messages are sent. *)
Example user_marker_sent_without_cache :
  let r := plain_openai
    [openai_message "user" (Some (Str "Hello")) [] None
       (Some (json_object [("type", Str "ephemeral")]))] [] None in
  op_enable_prompt_cache demo_options = false /\ demo_openai_accepted r
  /\ um_cache_point (current_message (demo_openai_payload r)) = Some KiroCachePoint_new.
Proof. split; [|split]; vm_compute; reflexivity. Qed.
