(* ===== verification/Config.v ===== *)
(** * Configuration

    [kproxy-core/src/config.rs] and [provider.rs]: the configuration, its
    defaults, what it decides by itself (provider scopes, the accounts of a
    service, the client check, the refresh window), and [validate].  The pool's
    section is in [Account], the mapping rules in [Model], the API keys in
    [Meter].  A [BTreeSet] that is only asked for membership is a [gset]. *)

From Stdlib Require Import ZArith Lia Ascii String.
From stdpp Require Import base list gmap strings.
From S2P Require Import Prelude RustStr F64 Json Text Account Model Meter.

Local Open Scope kproxy_scope.
Local Open Scope string_scope.
Local Open Scope list_scope.

Definition MAX_LOADED_TOOLS : Z := 512.

Inductive ConfigError :=
| InvalidPort (port : Z)
| PublicBindWithoutApiKey
| RatioOutOfRange (field : string) (value : f64)
| InvalidValue (field message : string).

(** ** Provider identifiers *)

Definition ALL_PROVIDERS : string := "all".

Record ProviderIdError := { pe_value : string; pe_reason : string }.

Definition ProviderIdError_to_string (e : ProviderIdError) : string :=
  "invalid provider id `" +:+ pe_value e +:+ "`: " +:+ pe_reason e.

Definition is_id_byte (a : ascii) : bool := is_ascii_lower a || is_ascii_digit a || is_char "-" a.

(** [ProviderId::parse]; the identifier is the string. *)
Definition ProviderId_parse (value : string) : result string ProviderIdError :=
  if bool_decide (value = ALL_PROVIDERS)
  then Err {| pe_value := value; pe_reason := "`all` is reserved for selectors" |}
  else if is_empty value || (64 <? String.length value)%nat
  then Err {| pe_value := value; pe_reason := "length must be between 1 and 64 bytes" |}
  else match s2l value with
       | first :: rest =>
           if negb (is_ascii_lower first)
           then Err {| pe_value := value;
                       pe_reason := "the first character must be a lowercase ASCII letter" |}
           else if negb (forallb is_id_byte rest)
           then Err {| pe_value := value;
                       pe_reason := "only lowercase ASCII letters, digits, and hyphens are allowed" |}
           else Ok value
       | [] => Err {| pe_value := value;
                      pe_reason := "the first character must be a lowercase ASCII letter" |}
       end.

(** ** Sections *)

Inductive AgentMode := Auto | Vibe | Spec.
Inductive ThinkingOutputFormat := Claude | Openai.
(** [config::Endpoint]. *)
Inductive PreferredEndpoint := Codewhisperer | Amazonq | Runtime.

Record TlsConfig := {
  tls_enabled : bool;
  cert_path : option string;
  key_path : option string;
  cert : option string;
  tls_key : option string;
}.

Definition TlsConfig_default : TlsConfig :=
  {| tls_enabled := false; cert_path := None; key_path := None; cert := None; tls_key := None |}.

Record AdaptiveConfig := {
  ad_enabled : bool;
  check_interval_ms : Z;
  p99_degrade_ms : Z;
  p99_recover_ms : Z;
  minimum_samples : Z;
  overload_error_rate : f64;
}.

Definition AdaptiveConfig_default : AdaptiveConfig :=
  {| ad_enabled := false; check_interval_ms := 10000; p99_degrade_ms := 200;
     p99_recover_ms := 100; minimum_samples := 5;
     overload_error_rate := F64.div (F64.of_Z 5) F64.hundred |}.

Record ServerConfig := {
  server_host : string;
  server_port : Z;
  enforce_user_agent_check : bool;
  max_concurrent_requests : Z;
  keep_alive_timeout_ms : Z;
  max_connections : Z;
  tls : TlsConfig;
  adaptive : AdaptiveConfig;
}.

Definition ServerConfig_default : ServerConfig :=
  {| server_host := "0.0.0.0"; server_port := 5580; enforce_user_agent_check := true;
     max_concurrent_requests := 500; keep_alive_timeout_ms := 30000; max_connections := 2000;
     tls := TlsConfig_default; adaptive := AdaptiveConfig_default |}.

Record UpstreamPoolConfig := {
  http_max_connections : Z;
  http_pipelining : Z;
  stream_max_connections : Z;
  stream_pipelining : Z;
  keep_alive_idle_ms : Z;
  keep_alive_max_ms : Z;
}.

Definition UpstreamPoolConfig_default : UpstreamPoolConfig :=
  {| http_max_connections := 128; http_pipelining := 5; stream_max_connections := 256;
     stream_pipelining := 1; keep_alive_idle_ms := 30000; keep_alive_max_ms := 60000 |}.

Record UpstreamConfig := {
  preferred_endpoint : option PreferredEndpoint;
  agent_mode : AgentMode;
  max_retries : Z;
  token_refresh_before_expiry : Z;
  upstream_pool : UpstreamPoolConfig;
  web_search_endpoint : option string;
  web_search_timeout_ms : Z;
  stream_slot_wait_timeout_ms : Z;
  stream_read_timeout_ms : Z;
}.

Definition UpstreamConfig_default : UpstreamConfig :=
  {| preferred_endpoint := None; agent_mode := Vibe; max_retries := 3;
     token_refresh_before_expiry := 900; upstream_pool := UpstreamPoolConfig_default;
     web_search_endpoint := None; web_search_timeout_ms := 60000;
     stream_slot_wait_timeout_ms := 30000; stream_read_timeout_ms := 600000 |}.

Record FeaturesConfig := {
  auto_continue_rounds : Z;
  tool_search_max_rounds : Z;
  tool_search_max_operations : Z;
  enable_tool_search : bool;
  web_search_max_rounds : Z;
  disable_tools : bool;
  enable_model_fallback : bool;
  enable_prompt_cache : bool;
  enhance_system_prompt : bool;
  buffer_tool_calls : bool;
  tool_call_buffer_delay_ms : Z;
  thinking_output_format : ThinkingOutputFormat;
  adaptive_thinking : bool;
  max_thinking_budget_tokens : Z;
  enable_web_tools : bool;
  enable_tool_leak_filter : bool;
  default_model_id : string;
}.

Definition FeaturesConfig_default : FeaturesConfig :=
  {| auto_continue_rounds := 0; tool_search_max_rounds := 4; tool_search_max_operations := 32;
     enable_tool_search := true; web_search_max_rounds := 20; disable_tools := false;
     enable_model_fallback := true; enable_prompt_cache := false; enhance_system_prompt := true;
     buffer_tool_calls := true; tool_call_buffer_delay_ms := 500;
     thinking_output_format := Claude; adaptive_thinking := false;
     max_thinking_budget_tokens := 8192; enable_web_tools := true;
     enable_tool_leak_filter := true; default_model_id := "" |}.

Record ModelsConfig := { dynamic_discovery : bool; cache_ttl_ms : Z }.

Definition ModelsConfig_default : ModelsConfig :=
  {| dynamic_discovery := true; cache_ttl_ms := 3600000 |}.

Record TasksConfig := {
  token_refresh_interval_ms : Z;
  status_check_interval_ms : Z;
  stats_persist_interval_ms : Z;
}.

Definition TasksConfig_default : TasksConfig :=
  {| token_refresh_interval_ms := 300000; status_check_interval_ms := 60000;
     stats_persist_interval_ms := 60000 |}.

Record ContextConfig := {
  max_input_tokens : Z;
  safe_input_ratio : f64;
  compact_safe_input_ratio : f64;
  auto_compact_on_overflow : bool;
  max_tool_input_tokens : Z;
  max_loaded_tools : Z;
  max_upstream_payload_bytes : Z;
  compaction_summary_model : string;
  compaction_summary_timeout_ms : Z;
  compaction_preserve_recent_turns : Z;
}.

Definition ContextConfig_default : ContextConfig :=
  {| max_input_tokens := 200000;
     safe_input_ratio := F64.div (F64.of_Z 95) F64.hundred;
     compact_safe_input_ratio := F64.div (F64.of_Z 99) F64.hundred;
     auto_compact_on_overflow := true; max_tool_input_tokens := 32000;
     max_loaded_tools := MAX_LOADED_TOOLS; max_upstream_payload_bytes := 8 * 1024 * 1024;
     compaction_summary_model := ""; compaction_summary_timeout_ms := 120000;
     compaction_preserve_recent_turns := 3 |}.

Record StorageConfig := { compression_threshold : Z; incremental_write : bool }.

Definition StorageConfig_default : StorageConfig :=
  {| compression_threshold := 100; incremental_write := true |}.

Record NotifyConfig := {
  low_credit_threshold_percent : f64;
  max_notifications : Z;
  suppress_window_ms : Z;
}.

Definition NotifyConfig_default : NotifyConfig :=
  {| low_credit_threshold_percent := F64.ten; max_notifications := 5;
     suppress_window_ms := 1800000 |}.

Record LogConfig := {
  level : string;
  log_format : string;
  file_path : string;
  max_file_size_mb : Z;
  retention_days : Z;
  max_files_per_day : Z;
}.

Definition LogConfig_default : LogConfig :=
  {| level := "info"; log_format := "json"; file_path := ""; max_file_size_mb := 100;
     retention_days := 3; max_files_per_day := 3 |}.

Definition default_socket_path_from (kproxy_home xdg_runtime : option string) : string :=
  match kproxy_home with
  | Some home => home +:+ "/admin.sock"
  | None =>
      match xdg_runtime with
      | Some runtime => runtime +:+ "/kproxy/admin.sock"
      | None => "/run/kproxy/admin.sock"
      end
  end.

Record ProviderPoolConfig := { pp_max_concurrent_per_account : Z }.
Record ProviderModelsConfig := { pm_cache_ttl_ms : Z; pm_max_stale_ms : Z }.

Record ProviderRoutingConfig := {
  rt_default_model_id : string;
  rt_enable_model_fallback : bool;
  allow_cross_provider_fallback : bool;
}.

Record ProviderConfig := {
  p_id : string;
  p_kind : string;
  p_enabled : bool;
  p_settings : list (string * value);
  p_pool : ProviderPoolConfig;
  p_models : ProviderModelsConfig;
  p_routing : ProviderRoutingConfig;
}.

Definition ProviderConfig_default : ProviderConfig :=
  {| p_id := "kiro"; p_kind := "kiro"; p_enabled := true; p_settings := [];
     p_pool := {| pp_max_concurrent_per_account := 0 |};
     p_models := {| pm_cache_ttl_ms := 300000; pm_max_stale_ms := 1800000 |};
     p_routing := {| rt_default_model_id := ""; rt_enable_model_fallback := false;
                     allow_cross_provider_fallback := false |} |}.

Record WebhookConfig := {
  w_name : string;
  w_kind : string;
  w_url : string;
  w_enabled : bool;
  w_events : list string;
  w_dingtalk_sign : option string;
  w_telegram_chat_id : option string;
  w_custom_template : option string;
}.

(** ** Services *)

Inductive ServiceAccountTags := One (tag : string) | Many (tags : list string).

Definition tags_of (t : ServiceAccountTags) : list string :=
  match t with One tag => [tag] | Many tags => tags end.

Definition single_tag (t : ServiceAccountTags) : option string :=
  match tags_of t with [tag] => Some tag | _ => None end.

Definition from_tags (tags : list string) : option ServiceAccountTags :=
  match tags with
  | [] => None
  | [tag] => Some (One tag)
  | _ => Some (Many tags)
  end.

Record ProxyServiceConfig := {
  s_id : string;
  s_name : string;
  s_host : string;
  s_port : Z;
  s_enabled : bool;
  s_skip_user_agent_check : bool;
  s_api_key_ids : list string;
  s_account_tag : option ServiceAccountTags;
  s_account_ids : list string;
  s_excluded_account_ids : list string;
  s_default_provider : string;
  s_allowed_providers : list string;
  s_created_at : Z;
}.

Definition selected_account_tags (s : ProxyServiceConfig) : list string :=
  match s_account_tag s with Some tags => tags_of tags | None => [] end.

Definition uses_global_account_pool (s : ProxyServiceConfig) : bool := is_none (s_account_tag s).

Definition includes_account (s : ProxyServiceConfig) (a : Account) : bool :=
  if mem (acc_id a) (s_excluded_account_ids s) then false
  else if mem (acc_id a) (s_account_ids s) then true
  else uses_global_account_pool s
       || existsb (fun tag => mem tag (tags a)) (selected_account_tags s).

Inductive UserAgentCheckPolicy := Enforced | GlobalDisabled | ServiceBypass | ApiKeyBypass.

Definition resolve_user_agent_check_policy (globally_enforced service_bypass api_key_bypass : bool) :
    UserAgentCheckPolicy :=
  if negb globally_enforced then GlobalDisabled
  else if service_bypass then ServiceBypass
  else if api_key_bypass then ApiKeyBypass
  else Enforced.

Definition policy_enforced (p : UserAgentCheckPolicy) : bool :=
  match p with Enforced => true | _ => false end.

Definition policy_reason (p : UserAgentCheckPolicy) : string :=
  match p with
  | Enforced => "enforced"
  | GlobalDisabled => "global_disabled"
  | ServiceBypass => "service_bypass"
  | ApiKeyBypass => "api_key_bypass"
  end.

(** ** The configuration *)

Record Config := {
  server : ServerConfig;
  upstream : UpstreamConfig;
  pool : PoolConfig;
  features : FeaturesConfig;
  models : ModelsConfig;
  tasks : TasksConfig;
  context : ContextConfig;
  storage : StorageConfig;
  notify : NotifyConfig;
  log : LogConfig;
  admin_socket : string;
  sso_start_url : string;
  provider : list ProviderConfig;
  model_mapping : list ModelMappingRule;
  webhook : list WebhookConfig;
  api_key : list ApiKeyConfig;
  proxy_service : list ProxyServiceConfig;
  model_thinking_mode : list (string * bool);
}.

(** [Config::default]; the socket's path reads the environment. *)
Definition Config_default (kproxy_home xdg_runtime : option string) : Config :=
  {| server := ServerConfig_default; upstream := UpstreamConfig_default;
     pool := PoolConfig_default; features := FeaturesConfig_default;
     models := ModelsConfig_default; tasks := TasksConfig_default;
     context := ContextConfig_default; storage := StorageConfig_default;
     notify := NotifyConfig_default; log := LogConfig_default;
     admin_socket := default_socket_path_from kproxy_home xdg_runtime;
     sso_start_url := ""; provider := []; model_mapping := []; webhook := []; api_key := [];
     proxy_service := []; model_thinking_mode := [] |}.

Definition is_local_host (host : string) : bool :=
  let lower := to_ascii_lowercase (trim host) in
  let normalized :=
    unwrap_or (strip_prefix lower "[" ≫= fun value => strip_suffix value "]") lower in
  is_empty normalized
  || bool_decide (normalized = "localhost")
  || bool_decide (normalized = "127.0.0.1")
  || bool_decide (normalized = "::1").

Definition effective_provider_scope (values : list string) : list string :=
  match values with [] => ["kiro"] | _ => values end.

Definition effective_providers (c : Config) : list ProviderConfig :=
  match provider c with [] => [ProviderConfig_default] | l => l end.

Definition allowed_providers_for_key (k : ApiKeyConfig) : list string :=
  effective_provider_scope (k_allowed_providers k).

Definition allowed_providers_for_service (s : ProxyServiceConfig) : list string :=
  effective_provider_scope (s_allowed_providers s).

Definition default_provider_for_service (s : ProxyServiceConfig) : string :=
  if is_empty (trim (s_default_provider s)) then "kiro" else s_default_provider s.

Definition has_enabled_api_key (c : Config) : bool :=
  existsb (fun key => k_enabled key && negb (is_empty (trim (k_key key)))) (api_key c).

Definition MINIMUM_LEAD_SECS : Z := 600.

(** [u64::div_ceil], [u64::try_from(i64)] and [i64::try_from(u64)]. *)
Definition effective_token_refresh_before_expiry (c : Config) : Z :=
  let configured :=
    if (token_refresh_before_expiry (upstream c) <? 0)%Z then 0%Z
    else token_refresh_before_expiry (upstream c) in
  let scan_interval_secs := ((token_refresh_interval_ms (tasks c) + 999) / 1000)%Z in
  let effective :=
    Z.max (Z.max configured (Z.min U64_MAX (scan_interval_secs * 2))) MINIMUM_LEAD_SECS in
  if (effective <=? I64_MAX)%Z then effective else I64_MAX.

(** ** Validation

    [Config::validate] is one function; its parts are the definitions below, in
    its order. *)

Definition invalid_config {A} (field message : string) : result A ConfigError :=
  Err (InvalidValue field message).

(** [if condition { return invalid_config(..) }]. *)
Definition refuse (condition : bool) (field message : string) : result unit ConfigError :=
  if condition then invalid_config field message else Ok tt.

(** [if !set.insert(x) { return invalid_config(..) }]. *)
Definition insert_unique {A} `{Countable A} (x : A) (seen : gset A) (field message : string) :
    result (gset A) ConfigError :=
  if bool_decide (x ∈ seen) then invalid_config field message else Ok ({[x]} ∪ seen).

Definition blank (s : string) : bool := is_empty (trim s).
Definition filled (o : option string) : bool := is_some_and o (fun s => negb (blank s)).

(** [(0.0..=hi).contains(&v)]. *)
Definition in_unit (hi v : f64) : bool := F64.leb F64.zero v && F64.leb v hi.

Definition bad_amount (v : f64) : bool := negb (F64.is_finite v) || F64.ltb v F64.zero.

Fixpoint each_field {A} (bad : A -> bool) (fields : list (string * A)) (message : string) :
    result unit ConfigError :=
  match fields with
  | [] => Ok tt
  | (field, v) :: fields => refuse (bad v) field message ;? each_field bad fields message
  end.

Fixpoint each_ratio (fields : list (string * f64)) : result unit ConfigError :=
  match fields with
  | [] => Ok tt
  | (field, v) :: fields =>
      (if negb (in_unit F64.one v) then Err (RatioOutOfRange field v) else Ok tt)
      ;? each_ratio fields
  end.

Definition validate_tls (t : TlsConfig) : result unit ConfigError :=
  refuse (tls_enabled t
          && negb (filled (cert t) && filled (tls_key t))
          && negb (filled (cert_path t) && filled (key_path t)))
    "server.tls" "enabled TLS requires both inline cert/key or both cert_path/key_path".

Definition validate_amounts (c : Config) : result unit ConfigError :=
  each_ratio [("context.safe_input_ratio", safe_input_ratio (context c));
              ("context.compact_safe_input_ratio", compact_safe_input_ratio (context c))]
  ;? each_field (fun v => negb (F64.is_finite v) || negb (in_unit F64.one v))
       [("notify.low_credit_threshold_percent",
         F64.div (low_credit_threshold_percent (notify c)) F64.hundred)]
       "must be a finite value in 0.0..=1.0"
  ;? each_field bad_amount
       [("pool.daily_credit_limit", daily_credit_limit (pool c));
        ("pool.credit_estimate_per_1k_tokens", credit_estimate_per_1k_tokens (pool c));
        ("pool.low_credit_min_remaining", low_credit_min_remaining (pool c))]
       "must be a finite non-negative number"
  ;? refuse (is_some_and (max_overage_credits_per_account (pool c)) bad_amount)
       "pool.max_overage_credits_per_account" "must be a finite non-negative number"
  ;? each_field bad_amount
       [("pool.balance.weight_active", weight_active (balance (pool c)));
        ("pool.balance.weight_credit", weight_credit (balance (pool c)));
        ("pool.balance.weight_idle", weight_idle (balance (pool c)))]
       "must be a finite non-negative number"
  ;? refuse (F64.leb (F64.add (F64.add (weight_active (balance (pool c)))
                                       (weight_credit (balance (pool c))))
                              (weight_idle (balance (pool c)))) F64.zero)
       "pool.balance" "at least one scheduling weight must be greater than zero".

Definition is_zero (v : Z) : bool := (v =? 0)%Z.

Definition validate_server (c : Config) : result unit ConfigError :=
  each_field is_zero
    [("server.max_concurrent_requests", max_concurrent_requests (server c));
     ("server.max_connections", max_connections (server c));
     ("upstream.pool.http_max_connections", http_max_connections (upstream_pool (upstream c)));
     ("upstream.pool.stream_max_connections", stream_max_connections (upstream_pool (upstream c)));
     ("upstream.pool.http_pipelining", http_pipelining (upstream_pool (upstream c)))]
    "must be greater than zero"
  ;? refuse (MAX_LOADED_TOOLS <? max_loaded_tools (context c))%Z
       "context.max_loaded_tools"
       ("must not exceed the proxy ceiling of " +:+ show_Z MAX_LOADED_TOOLS)
  ;? refuse (64 <? compaction_preserve_recent_turns (context c))%Z
       "context.compaction_preserve_recent_turns" "must not exceed 64"
  ;? refuse (negb ((1 <=? tool_search_max_operations (features c))
                   && (tool_search_max_operations (features c) <=? 256)))%Z
       "features.tool_search_max_operations" "must be between 1 and 256"
  ;? refuse (negb (stream_pipelining (upstream_pool (upstream c)) =? 1)%Z)
       "upstream.pool.stream_pipelining"
       "must be exactly 1 to avoid stream head-of-line blocking"
  ;? refuse (is_zero (keep_alive_idle_ms (upstream_pool (upstream c)))
             || is_zero (keep_alive_max_ms (upstream_pool (upstream c))))
       "upstream.pool.keep_alive" "idle and maximum lifetime must be greater than zero"
  ;? refuse (is_zero (stream_slot_wait_timeout_ms (upstream c))
             || is_zero (stream_read_timeout_ms (upstream c)))
       "upstream.stream_timeout" "slot wait and read timeout must be greater than zero"
  ;? refuse (p99_degrade_ms (adaptive (server c)) <? p99_recover_ms (adaptive (server c)))%Z
       "server.adaptive.p99_recover_ms" "must not exceed p99_degrade_ms"
  ;? refuse (ad_enabled (adaptive (server c))
             && (is_zero (check_interval_ms (adaptive (server c)))
                 || is_zero (p99_degrade_ms (adaptive (server c)))
                 || is_zero (minimum_samples (adaptive (server c)))
                 || (10000 <? minimum_samples (adaptive (server c)))%Z))
       "server.adaptive"
       "enabled adaptive admission requires a positive interval and degrade threshold, with sample count in 1..=10000"
  ;? refuse (negb (F64.is_finite (overload_error_rate (adaptive (server c))))
             || negb (in_unit F64.one (overload_error_rate (adaptive (server c)))))
       "server.adaptive.overload_error_rate" "must be a finite number between 0 and 1".

Definition validate_limits (c : Config) : result unit ConfigError :=
  refuse (token_refresh_before_expiry (upstream c) <? 0)%Z
    "upstream.token_refresh_before_expiry" "must be non-negative"
  ;? refuse (is_zero (max_error_count (cooldown (pool c)))
             || is_zero (quota_error_threshold (cooldown (pool c))))
       "pool.cooldown" "error and quota thresholds must be greater than zero"
  ;? each_field is_zero
       [("context.max_input_tokens", max_input_tokens (context c));
        ("context.max_tool_input_tokens", max_tool_input_tokens (context c));
        ("context.max_loaded_tools", max_loaded_tools (context c));
        ("context.max_upstream_payload_bytes", max_upstream_payload_bytes (context c))]
       "must be greater than zero"
  ;? refuse (is_zero (compaction_summary_timeout_ms (context c)))
       "context.compaction_summary_timeout_ms" "must be greater than zero"
  ;? refuse (dynamic_discovery (models c) && is_zero (cache_ttl_ms (models c)))
       "models.cache_ttl_ms" "must be greater than zero"
  ;? each_field is_zero
       [("tasks.token_refresh_interval_ms", token_refresh_interval_ms (tasks c));
        ("tasks.status_check_interval_ms", status_check_interval_ms (tasks c));
        ("tasks.stats_persist_interval_ms", stats_persist_interval_ms (tasks c))]
       "must be greater than zero"
  ;? refuse (negb (mem (log_format (log c)) ["json"; "pretty"]))
       "log.format" "expected json or pretty"
  ;? refuse (negb (blank (sso_start_url c)) && negb (starts_with (trim (sso_start_url c)) "https://"))
       "sso.start_url" "must use https://"
  ;? refuse (is_zero (max_file_size_mb (log c)) || is_zero (retention_days (log c))
             || is_zero (max_files_per_day (log c)))
       "log" "max_file_size_mb, retention_days, and max_files_per_day must be positive".

Definition validate_settings (c : Config) : result unit ConfigError :=
  (if (server_port (server c) <? 1024)%Z then Err (InvalidPort (server_port (server c)))
   else Ok tt)
  ;? refuse (is_zero (keep_alive_timeout_ms (server c)))
       "server.keep_alive_timeout_ms" "must be greater than zero"
  ;? validate_tls (tls (server c))
  ;? validate_amounts c ;? validate_server c ;? validate_limits c.

Definition validate_provider (index : nat) (p : ProviderConfig) (ids : gset string) :
    result (gset string) ConfigError :=
  let field := "provider." +:+ show_nat index in
  let? _ :=
    match ProviderId_parse (p_id p) with
    | Ok _ => Ok tt
    | Err e => invalid_config (field +:+ ".id") (ProviderIdError_to_string e)
    end in
  let? ids := insert_unique (p_id p) ids (field +:+ ".id") "must be unique" in
  refuse (blank (p_kind p)) (field +:+ ".kind") "must not be empty"
  ;? refuse (bool_decide (p_kind p = "kiro") && negb (bool_decide (p_id p = "kiro")))
       (field +:+ ".id") "the built-in Kiro compatibility provider must use id 'kiro'"
  ;? refuse (bool_decide (p_id p = "kiro") && negb (bool_decide (p_kind p = "kiro")))
       (field +:+ ".kind")
       "provider id 'kiro' is reserved for the built-in Kiro compatibility provider"
  ;? refuse (is_zero (pm_cache_ttl_ms (p_models p)) || is_zero (pm_max_stale_ms (p_models p)))
       (field +:+ ".models") "cache_ttl_ms and max_stale_ms must be greater than zero"
  ;? refuse (pm_max_stale_ms (p_models p) <? pm_cache_ttl_ms (p_models p))%Z
       (field +:+ ".models.max_stale_ms") "must be greater than or equal to cache_ttl_ms"
  ;? Ok ids.

Definition validate_providers (c : Config) : result (gset string) ConfigError :=
  fold_each validate_provider 0 (effective_providers c) ∅.

Definition scope_entry (field : string) (provider_ids : gset string) (provider_id : string)
    (seen : gset string) : result (gset string) ConfigError :=
  let? seen := insert_unique provider_id seen field "must not contain duplicate provider IDs" in
  refuse (negb (bool_decide (provider_id ∈ provider_ids)))
    field ("references unknown provider " +:+ provider_id)
  ;? Ok seen.

Definition validate_provider_scope (field : string) (values : list string)
    (provider_ids : gset string) : result unit ConfigError :=
  let? _ := fold_each (fun _ => scope_entry field provider_ids) 0
              (effective_provider_scope values) ∅ in Ok tt.

(** The identifiers, names and values of the API keys seen so far. *)
Definition KeySets : Type := gset string * gset string * gset string.

Definition validate_api_key (provider_ids : gset string) (index : nat) (k : ApiKeyConfig)
    (sets : KeySets) : result KeySets ConfigError :=
  let '(ids, names, values) := sets in
  let field := "api_key." +:+ show_nat index in
  refuse (blank (k_name k)) (field +:+ ".name") "must not be empty"
  ;? refuse (k_enabled k && blank (k_key k)) (field +:+ ".key") "must not be empty"
  ;? let? names := insert_unique (k_name k) names (field +:+ ".name") "must be unique" in
     let? values :=
       if is_empty (k_key k) then Ok values
       else insert_unique (k_key k) values (field +:+ ".key") "must be unique" in
     let? ids :=
       match k_id k with
       | None => Ok ids
       | Some id =>
           refuse (blank id) (field +:+ ".id") "must be non-empty and unique"
           ;? insert_unique id ids (field +:+ ".id") "must be non-empty and unique"
       end in
     refuse (is_some_and (k_credits_limit k) bad_amount)
       (field +:+ ".credits_limit") "must be a finite non-negative number"
     ;? validate_provider_scope (field +:+ ".allowed_providers") (k_allowed_providers k)
          provider_ids
     ;? Ok (ids, names, values).

(** [bound_ids]: distinct and of known keys. *)
Definition bound_key (field : string) (api_key_ids : gset string) (key_id : string)
    (bound : gset string) : result (gset string) ConfigError :=
  let? bound := insert_unique key_id bound (field +:+ ".api_key_ids")
                  "must not contain duplicate IDs" in
  refuse (negb (bool_decide (key_id ∈ api_key_ids))) (field +:+ ".api_key_ids")
    ("references unknown API key ID " +:+ key_id)
  ;? Ok bound.

Definition untidy (s : string) : bool := blank s || negb (bool_decide (s = trim s)).

(** A list of distinct entries without surrounding white space. *)
Definition tidy_entry (field message duplicate : string) (entry : string) (seen : gset string) :
    result (gset string) ConfigError :=
  refuse (untidy entry) field message ;? insert_unique entry seen field duplicate.

Definition validate_account_tag (field : string) (t : option ServiceAccountTags) :
    result unit ConfigError :=
  match t with
  | None => Ok tt
  | Some t =>
      let field := field +:+ ".account_tag" in
      refuse (is_nil (tags_of t)) field "must not be empty"
      ;? let? _ :=
           fold_each
             (fun _ => tidy_entry field "must contain non-empty tags without surrounding whitespace"
                         "must not contain duplicate tags")
             0 (tags_of t) ∅ in
         Ok tt
  end.

Definition excluded_entry (field : string) (manual : gset string) (entry : string)
    (seen : gset string) : result (gset string) ConfigError :=
  let? seen := tidy_entry field "must contain non-empty IDs without surrounding whitespace"
                 "must not contain duplicate IDs" entry seen in
  refuse (bool_decide (entry ∈ manual)) field
    ("account " +:+ entry +:+ " is also manually included")
  ;? Ok seen.

Definition validate_account_lists (field : string) (s : ProxyServiceConfig) :
    result unit ConfigError :=
  let? manual :=
    fold_each
      (fun _ => tidy_entry (field +:+ ".account_ids")
                  "must contain non-empty IDs without surrounding whitespace"
                  "must not contain duplicate IDs") 0 (s_account_ids s) ∅ in
  let? _ := fold_each (fun _ => excluded_entry (field +:+ ".excluded_account_ids") manual) 0
              (s_excluded_account_ids s) ∅ in
  Ok tt.

(** A key that can open a service. *)
Definition opens (s : ProxyServiceConfig) (k : ApiKeyConfig) : bool :=
  k_enabled k && negb (blank (k_key k)) && is_some_and (k_id k) (fun id => mem id (s_api_key_ids s)).

(** The identifiers, names and addresses of the services seen so far. *)
Definition ServiceSets : Type := gset string * gset string * gset (string * Z).

Definition validate_service_names (field : string) (s : ProxyServiceConfig) (sets : ServiceSets) :
    result ServiceSets ConfigError :=
  let '(ids, names, addresses) := sets in
  refuse (blank (s_id s)) (field +:+ ".id") "must be non-empty and unique"
  ;? let? ids := insert_unique (s_id s) ids (field +:+ ".id") "must be non-empty and unique" in
  refuse (blank (s_name s)) (field +:+ ".name") "must be non-empty and unique"
  ;? let? names := insert_unique (s_name s) names (field +:+ ".name")
                     "must be non-empty and unique" in
  refuse (blank (s_host s)) (field +:+ ".host") "must not be empty"
  ;? refuse (s_port s <? 1024)%Z (field +:+ ".port") "must be between 1024 and 65535"
  ;? let? addresses :=
       if s_enabled s
       then insert_unique (s_host s, s_port s) addresses (field +:+ ".port")
              "enabled services must use unique host and port pairs"
       else Ok addresses in
     Ok (ids, names, addresses).

Definition validate_service_providers (provider_ids : gset string) (field : string)
    (s : ProxyServiceConfig) : result unit ConfigError :=
  validate_provider_scope (field +:+ ".allowed_providers") (s_allowed_providers s) provider_ids
  ;? refuse (negb (bool_decide (default_provider_for_service s ∈ provider_ids)))
       (field +:+ ".default_provider")
       ("references unknown provider " +:+ default_provider_for_service s)
  ;? refuse (negb (mem (default_provider_for_service s)
                     (effective_provider_scope (s_allowed_providers s))))
       (field +:+ ".default_provider") "must be included in allowed_providers".

Definition validate_service (c : Config) (provider_ids api_key_ids : gset string) (index : nat)
    (s : ProxyServiceConfig) (sets : ServiceSets) : result ServiceSets ConfigError :=
  let field := "proxy_service." +:+ show_nat index in
  let? sets := validate_service_names field s sets in
  refuse (is_nil (s_api_key_ids s)) (field +:+ ".api_key_ids") "at least one API key is required"
  ;? validate_service_providers provider_ids field s
  ;? let? _ := fold_each (fun _ => bound_key field api_key_ids) 0 (s_api_key_ids s) ∅ in
  validate_account_tag field (s_account_tag s)
  ;? validate_account_lists field s
  ;? (if s_enabled s && negb (is_local_host (s_host s)) && negb (existsb (opens s) (api_key c))
      then Err PublicBindWithoutApiKey else Ok tt)
  ;? Ok sets.

(** The other configured provider that a [provider/model] target names. *)
Definition cross_target (provider_ids : gset string) (source_provider target : string) :
    option string :=
  match split_once target "/" with
  | Some (target_provider, _) =>
      if negb (bool_decide (target_provider = source_provider))
         && bool_decide (target_provider ∈ provider_ids)
      then Some target_provider else None
  | None => None
  end.

Definition allows_cross_provider (c : Config) (source_provider : string) : bool :=
  is_some_and (List.find (fun p => bool_decide (p_id p = source_provider)) (effective_providers c))
    (fun p => allow_cross_provider_fallback (p_routing p)).

Definition validate_crossing (c : Config) (provider_ids : gset string) (field : string)
    (r : ModelMappingRule) (source_provider : string) : result unit ConfigError :=
  match find_map (cross_target provider_ids source_provider) (r_target_models r) with
  | Some target_provider =>
      refuse (negb (allows_cross_provider c source_provider)) (field +:+ ".target_models")
        ("routing from provider " +:+ source_provider +:+ " to " +:+ target_provider
         +:+ " requires provider " +:+ source_provider
         +:+ " routing.allow_cross_provider_fallback = true")
  | None => Ok tt
  end.

Definition validate_schedule (field : string) (s : option ModelMappingSchedule) :
    result unit ConfigError :=
  match s with
  | None => Ok tt
  | Some s =>
      refuse (is_some_and (sch_days_of_week s) (existsb (fun day => 6 <? day)%Z))
        (field +:+ ".schedule.days_of_week") "weekday values must be in 0..=6"
      ;? refuse (is_some_and (sch_start_minutes s) (fun m => 24 * 60 <=? m)%Z
                 || is_some_and (sch_end_minutes s) (fun m => 24 * 60 <=? m)%Z)
           (field +:+ ".schedule") "minute-of-day values must be below 1440"
  end.

Definition validate_credit_condition (provider_ids : gset string) (field : string)
    (r : ModelMappingRule) : result unit ConfigError :=
  refuse (is_some_and (r_max_remaining_credit_percent r)
            (fun v => negb (F64.is_finite v) || negb (in_unit F64.hundred v)))
    (field +:+ ".max_remaining_credit_percent") "must be in 0..=100"
  ;? if is_some (r_max_remaining_credit_percent r) then
       refuse (existsb (fun p => negb (bool_decide (p = "kiro")))
                 (effective_provider_scope (r_providers r)))
         (field +:+ ".providers")
         "max_remaining_credit_percent is available only for the Kiro provider"
       ;? refuse (existsb (fun target => is_some (cross_target provider_ids "kiro" target))
                    (r_target_models r))
            (field +:+ ".max_remaining_credit_percent")
            "account-credit conditions cannot route from Kiro to another provider"
     else Ok tt.

Definition validate_rule (c : Config) (provider_ids service_ids : gset string) (index : nat)
    (r : ModelMappingRule) : result unit ConfigError :=
  let field := "model_mapping." +:+ show_nat index in
  refuse (negb (mem (r_kind r) ["replace"; "alias"; "loadbalance"])) (field +:+ ".type")
    "expected replace, alias, or loadbalance"
  ;? refuse (r_enabled r && (is_nil (r_source_models r) || is_nil (r_target_models r))) field
       "enabled rules require source_models and target_models"
  ;? validate_provider_scope (field +:+ ".providers") (r_providers r) provider_ids
  ;? (if r_enabled r
      then each (fun _ => validate_crossing c provider_ids field r)
             (effective_provider_scope (r_providers r))
      else Ok tt)
  ;? each (fun _ service_id =>
             refuse (negb (bool_decide (service_id ∈ service_ids))) (field +:+ ".service_ids")
               ("references unknown proxy service " +:+ service_id)) (r_service_ids r)
  ;? refuse (is_some_and (r_weights r) (fun weights =>
               negb (length weights =? length (r_target_models r))%nat
               || forallb is_zero weights))
       (field +:+ ".weights") "must match target_models and contain a positive weight"
  ;? validate_credit_condition provider_ids field r
  ;? validate_schedule field (r_schedule r).

Definition WEBHOOK_KINDS : list string :=
  ["dingtalk"; "wechat-work"; "wechat"; "telegram"; "discord"; "feishu"; "custom"].

Definition WEBHOOK_EVENTS : list string :=
  ["account-credit-protected"; "account-quota-exhausted"; "service-quota-exhausted";
   "token-refresh-failed"; "low-credit"; "account-banned"; "token-expired"; "quota-exhausted";
   "service-degraded"].

Definition validate_webhook (index : nat) (w : WebhookConfig) (names : gset string) :
    result (gset string) ConfigError :=
  let field := "webhook." +:+ show_nat index in
  refuse (blank (w_name w)) (field +:+ ".name") "must be non-empty and unique"
  ;? let? names := insert_unique (w_name w) names (field +:+ ".name")
                     "must be non-empty and unique" in
  refuse (negb (mem (w_kind w) WEBHOOK_KINDS)) (field +:+ ".type") "unsupported webhook type"
  ;? refuse (w_enabled w && negb (starts_with (w_url w) "https://" || starts_with (w_url w) "http://"))
       (field +:+ ".url") "enabled webhook URL must use http or https"
  ;? refuse (existsb (fun event => negb (mem event WEBHOOK_EVENTS)) (w_events w))
       (field +:+ ".events") "contains an unsupported event"
  ;? refuse (bool_decide (w_kind w = "telegram") && w_enabled w
             && is_none_or (w_telegram_chat_id w) blank)
       (field +:+ ".telegram_chat_id") "is required for enabled Telegram targets"
  ;? Ok names.

Definition validate (c : Config) : result unit ConfigError :=
  validate_settings c
  ;? let? provider_ids := validate_providers c in
     let? (api_key_ids, _, _) :=
       fold_each (validate_api_key provider_ids) 0 (api_key c) (∅, ∅, ∅) in
     let? (service_ids, _, _) :=
       fold_each (validate_service c provider_ids api_key_ids) 0 (proxy_service c) (∅, ∅, ∅) in
     each (validate_rule c provider_ids service_ids) (model_mapping c)
     ;? let? _ := fold_each validate_webhook 0 (webhook c) ∅ in Ok tt.

(** ** Loading and reloading

    [kproxy-store/src/config_loader.rs].  The file, its lock, the TOML parser
    and the runtime hook are arguments of a reload. *)

Definition set_socket (socket : string) (c : Config) : Config :=
  {| server := server c; upstream := upstream c; pool := pool c; features := features c;
     models := models c; tasks := tasks c; context := context c; storage := storage c;
     notify := notify c; log := log c; admin_socket := socket; sso_start_url := sso_start_url c;
     provider := provider c; model_mapping := model_mapping c; webhook := webhook c;
     api_key := api_key c; proxy_service := proxy_service c;
     model_thinking_mode := model_thinking_mode c |}.

Definition set_tls (t : TlsConfig) (c : Config) : Config :=
  let s := server c in
  {| server := {| server_host := server_host s; server_port := server_port s;
                  enforce_user_agent_check := enforce_user_agent_check s;
                  max_concurrent_requests := max_concurrent_requests s;
                  keep_alive_timeout_ms := keep_alive_timeout_ms s;
                  max_connections := max_connections s; tls := t; adaptive := adaptive s |};
     upstream := upstream c; pool := pool c; features := features c;
     models := models c; tasks := tasks c; context := context c; storage := storage c;
     notify := notify c; log := log c; admin_socket := admin_socket c;
     sso_start_url := sso_start_url c;
     provider := provider c; model_mapping := model_mapping c; webhook := webhook c;
     api_key := api_key c; proxy_service := proxy_service c;
     model_thinking_mode := model_thinking_mode c |}.

Definition diff_restart_required (old new : Config) : list string :=
  (if bool_decide (admin_socket old = admin_socket new) then [] else ["admin.socket"])
  ++ (if Bool.eqb (tls_enabled (tls (server old))) (tls_enabled (tls (server new)))
      then [] else ["server.tls.enabled"]).

Definition merge_hot_reload (old new : Config) : Config * list string :=
  let needs_restart := diff_restart_required old new in
  let new := set_socket (admin_socket old) new in
  let new :=
    if Bool.eqb (tls_enabled (tls (server old))) (tls_enabled (tls (server new))) then new
    else set_tls (tls (server old)) new in
  (new, needs_restart).

Record ReloadOutcome := { applied : bool; error : option string; needs_restart : list string }.

Definition ReloadOutcome_default : ReloadOutcome :=
  {| applied := false; error := None; needs_restart := [] |}.

Definition failed (error : string) : ReloadOutcome :=
  {| applied := false; error := Some error; needs_restart := [] |}.

Section Reload.
(** The TOML parser, the text of a number, and the hook that applies a
    configuration to the running parts. *)
Context (parse_config : string -> result Config string) (show_f64 : f64 -> string)
        (hook : Config -> result unit string).

Definition ConfigError_to_string (e : ConfigError) : string :=
  match e with
  | InvalidPort port => "server.port must be between 1024 and 65535, got " +:+ show_Z port
  | PublicBindWithoutApiKey =>
      "binding to a non-local host requires at least one enabled api key"
  | RatioOutOfRange field v => field +:+ " must be between 0.0 and 1.0, got " +:+ show_f64 v
  | InvalidValue field message =>
      "invalid configuration value for " +:+ field +:+ ": " +:+ message
  end.

(** The handle's configuration and the outcome; [read] is what the file holds. *)
Definition apply_reload (read : result string string) (current : Config) :
    Config * ReloadOutcome :=
  match read with
  | Err read_error => (current, failed read_error)
  | Ok raw =>
      match parse_config raw with
      | Err parse_error => (current, failed parse_error)
      | Ok next =>
          match validate next with
          | Err e => (current, failed (ConfigError_to_string e))
          | Ok _ =>
              let '(next, needs_restart) := merge_hot_reload current next in
              match hook next with
              | Err apply_error =>
                  (current, {| applied := false; error := Some apply_error;
                               needs_restart := needs_restart |})
              | Ok _ =>
                  (next, {| applied := true; error := None; needs_restart := needs_restart |})
              end
          end
      end
  end.

(** The watcher: the contents seen last, and a reload when they differ.  [lock]
    is the file lock, [contents] the first read of the file ([None] if it
    failed), [read] the second. *)
Definition apply_reload_if_contents_changed (lock : result unit string)
    (contents : option string) (read : result string string)
    (state : Config * option string) : (Config * option string) * ReloadOutcome :=
  let '(current, last_seen) := state in
  match lock with
  | Err lock_error => (state, failed lock_error)
  | Ok _ =>
      if bool_decide (last_seen = contents) then (state, ReloadOutcome_default)
      else
        let '(next, outcome) := apply_reload read current in
        ((next, contents), outcome)
  end.
End Reload.
