(* ===== verification/ConfigFacts.v ===== *)
(** * What the validation of a configuration accepts

    [Valid] states by whole lists what [Config.validate] checks one entry after
    the other with sets of what it has seen: identifiers are distinct, references
    point to what is there, a public listener has a key that opens it, and no
    enabled rule leaves a provider that does not let it.  [validate] accepts
    exactly the valid configurations, and a hot reload never leaves them. *)

From Stdlib Require Import ZArith Lia Ascii String.
From stdpp Require Import base list gmap strings.
From S2P Require Import Prelude RustStr F64 Json Text Account Model Meter Config.

Local Open Scope kproxy_scope.
Local Open Scope string_scope.
Local Open Scope list_scope.

(** ** Loops that register what they have seen *)

Section Register.
Context {E A St : Type} (f : nat -> A -> St -> result St E).
Context (P : A -> Prop) (fresh : A -> St -> Prop) (add : A -> St -> St).

Fixpoint all_fresh (l : list A) (s : St) : Prop :=
  match l with
  | [] => True
  | x :: l => fresh x s /\ all_fresh l (add x s)
  end.

Definition add_all (l : list A) (s : St) : St := fold_left (fun s x => add x s) l s.

Hypothesis step_ok :
  forall i x s s', f i x s = Ok s' <-> P x /\ fresh x s /\ s' = add x s.

Lemma fold_each_register i l s s' :
  fold_each f i l s = Ok s' <-> Forall P l /\ all_fresh l s /\ s' = add_all l s.
Proof.
  revert i s; induction l as [|x l IH]; intros i s; cbn.
  { split; [intros [= ->]; auto|intros (_ & _ & ->); done]. }
  rewrite Forall_cons. split.
  - intros (s1 & (Hx & Hfresh & ->)%step_ok & H)%result_bind_ok. apply IH in H. tauto.
  - intros ([Hx Hl] & [Hfresh Hrest] & ->).
    rewrite (proj2 (step_ok i x s (add x s))) by done. cbn. by apply IH.
Qed.
End Register.

Section RegisterSets.
Context {A K : Type} `{Countable K} (key : A -> option K).
Implicit Types (l : list A) (s : gset K).

Definition unseen (x : A) s : Prop := forall k, key x = Some k -> k ∉ s.
Definition note (x : A) s : gset K := match key x with Some k => {[k]} ∪ s | None => s end.

Lemma all_unseen l s :
  all_fresh unseen note l s <-> NoDup (omap key l) /\ forall k, k ∈ omap key l -> k ∉ s.
Proof.
  revert s; induction l as [|x l IH]; intros s; cbn.
  { split; [intros _; split; [constructor|set_solver]|done]. }
  rewrite IH. unfold unseen, note. destruct (key x) as [k|]; cbn.
  - rewrite NoDup_cons. set_solver.
  - split; [tauto|intros; split; [done|tauto]].
Qed.

Lemma noted l s k : k ∈ add_all note l s <-> k ∈ omap key l \/ k ∈ s.
Proof.
  unfold add_all. revert s; induction l as [|x l IH]; intros s; cbn; [set_solver|].
  rewrite IH. unfold note. destruct (key x); cbn; set_solver.
Qed.
End RegisterSets.

Section RegisterThree.
Context {A S1 S2 S3 : Type}.
Context (fresh1 : A -> S1 -> Prop) (add1 : A -> S1 -> S1).
Context (fresh2 : A -> S2 -> Prop) (add2 : A -> S2 -> S2).
Context (fresh3 : A -> S3 -> Prop) (add3 : A -> S3 -> S3).

Definition fresh_three (x : A) (s : S1 * S2 * S3) : Prop :=
  fresh1 x s.1.1 /\ fresh2 x s.1.2 /\ fresh3 x s.2.
Definition add_three (x : A) (s : S1 * S2 * S3) : S1 * S2 * S3 :=
  (add1 x s.1.1, add2 x s.1.2, add3 x s.2).

Lemma all_fresh_three l s :
  all_fresh fresh_three add_three l s <->
  all_fresh fresh1 add1 l s.1.1 /\ all_fresh fresh2 add2 l s.1.2 /\ all_fresh fresh3 add3 l s.2.
Proof.
  revert s; induction l as [|x l IH]; intros s; cbn; [tauto|]. rewrite IH.
  unfold fresh_three. cbn. tauto.
Qed.

Lemma add_all_three l s :
  add_all add_three l s = (add_all add1 l s.1.1, add_all add2 l s.1.2, add_all add3 l s.2).
Proof.
  unfold add_all. revert s; induction l as [|x l IH]; intros [[s1 s2] s3]; cbn; [done|].
  by rewrite IH.
Qed.
End RegisterThree.

(** ** Checks *)

Lemma refuse_ok b field message : refuse b field message = Ok tt <-> b = false.
Proof. by destruct b. Qed.

Lemma insert_unique_ok `{Countable K} (x : K) s field message s' :
  insert_unique x s field message = Ok s' <-> x ∉ s /\ s' = {[x]} ∪ s.
Proof.
  unfold insert_unique. case_bool_decide; [naive_solver|].
  split; [intros [= <-]; done|intros [_ ->]; done].
Qed.

Lemma if_refused (b : bool) (e : ConfigError) :
  (if b then Err e else Ok tt) = Ok tt <-> b = false.
Proof. by destruct b. Qed.

Lemma result_bind_iff {A B E} (r : result A E) (k : A -> result B E) y :
  (let? a := r in k a) = Ok y <-> exists a, r = Ok a /\ k a = Ok y.
Proof. destruct r; cbn; naive_solver. Qed.

Lemma Ok_eq {A E} (x y : A) : @Ok A E x = Ok y <-> y = x.
Proof. naive_solver. Qed.

Lemma each_field_ok {A} (bad : A -> bool) fields message :
  each_field bad fields message = Ok tt <-> Forall (fun x => bad x.2 = false) fields.
Proof.
  induction fields as [|[field v] fields IH]; cbn; [done|].
  by rewrite then_ok, refuse_ok, IH, Forall_cons.
Qed.

Lemma each_ratio_ok fields :
  each_ratio fields = Ok tt <-> Forall (fun x => in_unit F64.one x.2 = true) fields.
Proof.
  induction fields as [|[field v] fields IH]; cbn; [done|].
  rewrite then_ok, if_refused, IH, Forall_cons, negb_false_iff. done.
Qed.

Lemma Forall_nil_true {A} (P : A -> Prop) : Forall P [] <-> True.
Proof. done. Qed.

Lemma is_zero_false v : is_zero v = false <-> v <> 0%Z.
Proof. apply Z.eqb_neq. Qed.

Lemma mem_true s l : mem s l = true <-> s ∈ l.
Proof. apply bool_decide_eq_true. Qed.

Lemma is_nil_false {A} (l : list A) : is_nil l = false <-> l <> [].
Proof. by destruct l. Qed.

(** A finite amount that is not negative. *)
Definition amount (v : f64) : Prop := F64.is_finite v = true /\ F64.nonneg v = true.

Lemma bad_amount_false v : bad_amount v = false <-> amount v.
Proof.
  unfold bad_amount, amount, F64.nonneg. rewrite orb_false_iff, negb_false_iff.
  destruct v as [[]|[]| |[] m e]; cbn; naive_solver.
Qed.

Lemma is_some_and_false {A} (o : option A) f :
  is_some_and o f = false <-> forall v, o = Some v -> f v = false.
Proof. destruct o; cbn; naive_solver. Qed.

Lemma existsb_false {A} (f : A -> bool) l :
  existsb f l = false <-> Forall (fun x => f x = false) l.
Proof.
  induction l as [|x l IH]; cbn; [done|]. by rewrite orb_false_iff, IH, Forall_cons.
Qed.

Lemma forallb_Forall {A} (f : A -> bool) l :
  forallb f l = true <-> Forall (fun x => f x = true) l.
Proof.
  induction l as [|x l IH]; cbn; [done|]. by rewrite andb_true_iff, IH, Forall_cons.
Qed.

Lemma implb_false (a b : bool) : a && b = false <-> (a = true -> b = false).
Proof. destruct a, b; naive_solver. Qed.

Lemma exists_unit (P : unit -> Prop) : (exists u, P u) <-> P tt.
Proof. split; [intros [[] ?]; done|eauto]. Qed.

Create Rewrite HintDb checks.
Hint Rewrite @then_ok @result_bind_iff @insert_unique_ok @Forall_cons @Forall_nil_true
  @refuse_ok @if_refused @Ok_eq @is_nil_false
  @each_field_ok each_ratio_ok is_zero_false mem_true bad_amount_false
  negb_false_iff negb_true_iff orb_false_iff Z.ltb_ge Z.leb_gt Z.eqb_eq Nat.eqb_eq
  bool_decide_eq_true bool_decide_eq_false : checks.

(** Rewrites an accepted chain of checks into the conditions it checks. *)
Ltac checked := autorewrite with checks; cbn [fst snd].

(** ** Valid configurations *)

(** An instance identifier: [[a-z][a-z0-9-]{0,63}], and not the selector [all]. *)
Definition provider_id (s : string) : Prop :=
  s <> "all" /\ exists first rest,
    s2l s = first :: rest /\ is_ascii_lower first = true /\ Forall (fun a => is_id_byte a = true) rest
    /\ (length rest <= 63)%nat.

Definition tls_configured (t : TlsConfig) : Prop :=
  tls_enabled t = true ->
  (filled (cert t) = true /\ filled (tls_key t) = true)
  \/ (filled (cert_path t) = true /\ filled (key_path t) = true).

Definition ratio (v : f64) : Prop := in_unit F64.one v = true.

Record ValidAmounts (c : Config) : Prop := {
  va_safe : ratio (safe_input_ratio (context c));
  va_compact : ratio (compact_safe_input_ratio (context c));
  va_threshold :
    F64.is_finite (F64.div (low_credit_threshold_percent (notify c)) F64.hundred) = true
    /\ ratio (F64.div (low_credit_threshold_percent (notify c)) F64.hundred);
  va_daily : amount (daily_credit_limit (pool c));
  va_estimate : amount (credit_estimate_per_1k_tokens (pool c));
  va_low : amount (low_credit_min_remaining (pool c));
  va_overage : forall v, max_overage_credits_per_account (pool c) = Some v -> amount v;
  va_active : amount (weight_active (balance (pool c)));
  va_credit : amount (weight_credit (balance (pool c)));
  va_idle : amount (weight_idle (balance (pool c)));
  va_sum : F64.leb (F64.add (F64.add (weight_active (balance (pool c)))
                                     (weight_credit (balance (pool c))))
                            (weight_idle (balance (pool c)))) F64.zero = false;
}.

Record ValidServer (c : Config) : Prop := {
  vs_requests : max_concurrent_requests (server c) <> 0%Z;
  vs_connections : max_connections (server c) <> 0%Z;
  vs_http : http_max_connections (upstream_pool (upstream c)) <> 0%Z;
  vs_stream : stream_max_connections (upstream_pool (upstream c)) <> 0%Z;
  vs_pipelining : http_pipelining (upstream_pool (upstream c)) <> 0%Z;
  vs_tools : (max_loaded_tools (context c) <= MAX_LOADED_TOOLS)%Z;
  vs_turns : (compaction_preserve_recent_turns (context c) <= 64)%Z;
  vs_operations : (1 <= tool_search_max_operations (features c) <= 256)%Z;
  vs_stream_pipelining : stream_pipelining (upstream_pool (upstream c)) = 1%Z;
  vs_idle : keep_alive_idle_ms (upstream_pool (upstream c)) <> 0%Z;
  vs_max : keep_alive_max_ms (upstream_pool (upstream c)) <> 0%Z;
  vs_slot : stream_slot_wait_timeout_ms (upstream c) <> 0%Z;
  vs_read : stream_read_timeout_ms (upstream c) <> 0%Z;
  vs_p99 : (p99_recover_ms (adaptive (server c)) <= p99_degrade_ms (adaptive (server c)))%Z;
  vs_adaptive : ad_enabled (adaptive (server c)) = true ->
    check_interval_ms (adaptive (server c)) <> 0%Z
    /\ p99_degrade_ms (adaptive (server c)) <> 0%Z
    /\ minimum_samples (adaptive (server c)) <> 0%Z
    /\ (minimum_samples (adaptive (server c)) <= 10000)%Z;
  vs_overload : F64.is_finite (overload_error_rate (adaptive (server c))) = true
                /\ ratio (overload_error_rate (adaptive (server c)));
}.

Record ValidLimits (c : Config) : Prop := {
  vl_refresh : (0 <= token_refresh_before_expiry (upstream c))%Z;
  vl_errors : max_error_count (cooldown (pool c)) <> 0%Z;
  vl_quota : quota_error_threshold (cooldown (pool c)) <> 0%Z;
  vl_input : max_input_tokens (context c) <> 0%Z;
  vl_tool_input : max_tool_input_tokens (context c) <> 0%Z;
  vl_loaded : max_loaded_tools (context c) <> 0%Z;
  vl_payload : max_upstream_payload_bytes (context c) <> 0%Z;
  vl_summary : compaction_summary_timeout_ms (context c) <> 0%Z;
  vl_models : dynamic_discovery (models c) = true -> cache_ttl_ms (models c) <> 0%Z;
  vl_scan : token_refresh_interval_ms (tasks c) <> 0%Z;
  vl_status : status_check_interval_ms (tasks c) <> 0%Z;
  vl_stats : stats_persist_interval_ms (tasks c) <> 0%Z;
  vl_format : log_format (log c) ∈ ["json"; "pretty"];
  vl_sso : blank (sso_start_url c) = false -> starts_with (trim (sso_start_url c)) "https://" = true;
  vl_file : max_file_size_mb (log c) <> 0%Z;
  vl_days : retention_days (log c) <> 0%Z;
  vl_files : max_files_per_day (log c) <> 0%Z;
}.

Record ValidProvider (p : ProviderConfig) : Prop := {
  vp_id : provider_id (p_id p);
  vp_kind : blank (p_kind p) = false;
  vp_kiro : p_kind p = "kiro" <-> p_id p = "kiro";
  vp_models : pm_cache_ttl_ms (p_models p) <> 0%Z /\ pm_max_stale_ms (p_models p) <> 0%Z
              /\ (pm_cache_ttl_ms (p_models p) <= pm_max_stale_ms (p_models p))%Z;
}.

Definition provider_ids (c : Config) : list string := p_id <$> effective_providers c.

(** A scope lists distinct providers that are configured. *)
Definition ValidScope (c : Config) (values : list string) : Prop :=
  NoDup (effective_provider_scope values)
  /\ Forall (fun id => id ∈ provider_ids c) (effective_provider_scope values).

Record ValidKey (c : Config) (k : ApiKeyConfig) : Prop := {
  vk_name : blank (k_name k) = false;
  vk_key : k_enabled k = true -> blank (k_key k) = false;
  vk_id : forall id, k_id k = Some id -> blank id = false;
  vk_limit : forall v, k_credits_limit k = Some v -> amount v;
  vk_scope : ValidScope c (k_allowed_providers k);
}.

(** Distinct entries without surrounding white space. *)
Definition tidy (l : list string) : Prop := NoDup l /\ Forall (fun s => untidy s = false) l.

Record ValidService (c : Config) (s : ProxyServiceConfig) : Prop := {
  vv_id : blank (s_id s) = false;
  vv_name : blank (s_name s) = false;
  vv_host : blank (s_host s) = false;
  vv_port : (1024 <= s_port s)%Z;
  vv_scope : ValidScope c (s_allowed_providers s);
  vv_default : default_provider_for_service s ∈ allowed_providers_for_service s;
  vv_keys : s_api_key_ids s <> [] /\ NoDup (s_api_key_ids s);
  vv_known : Forall (fun id => id ∈ omap k_id (api_key c)) (s_api_key_ids s);
  vv_tags : forall t, s_account_tag s = Some t -> tags_of t <> [] /\ tidy (tags_of t);
  vv_manual : tidy (s_account_ids s);
  vv_excluded : tidy (s_excluded_account_ids s);
  vv_disjoint : Forall (fun id => id ∉ s_account_ids s) (s_excluded_account_ids s);
  vv_public : s_enabled s = true -> is_local_host (s_host s) = false ->
    exists k, k ∈ api_key c /\ opens s k = true;
}.

(** A target that leads from one configured provider to another. *)
Definition crosses (c : Config) (source_provider target target_provider : string) : Prop :=
  (exists model, split_once target "/" = Some (target_provider, model))
  /\ target_provider <> source_provider /\ target_provider ∈ provider_ids c.

Record ValidRule (c : Config) (r : ModelMappingRule) : Prop := {
  vr_kind : r_kind r ∈ ["replace"; "alias"; "loadbalance"];
  vr_models : r_enabled r = true -> r_source_models r <> [] /\ r_target_models r <> [];
  vr_scope : ValidScope c (r_providers r);
  vr_crossing : r_enabled r = true ->
    Forall (fun source => forall target to, target ∈ r_target_models r ->
              crosses c source target to -> allows_cross_provider c source = true)
      (effective_provider_scope (r_providers r));
  vr_services : Forall (fun id => id ∈ s_id <$> proxy_service c) (r_service_ids r);
  vr_weights : forall weights, r_weights r = Some weights ->
    length weights = length (r_target_models r) /\ forallb is_zero weights = false;
  vr_credit : forall v, r_max_remaining_credit_percent r = Some v ->
    F64.is_finite v = true /\ in_unit F64.hundred v = true
    /\ Forall (fun p => p = "kiro") (effective_provider_scope (r_providers r))
    /\ Forall (fun target => forall to, ~ crosses c "kiro" target to) (r_target_models r);
  vr_schedule : forall s, r_schedule r = Some s ->
    (forall days, sch_days_of_week s = Some days -> Forall (fun day => day <= 6)%Z days)
    /\ (forall m, sch_start_minutes s = Some m -> (m < 1440)%Z)
    /\ (forall m, sch_end_minutes s = Some m -> (m < 1440)%Z);
}.

Record ValidWebhook (w : WebhookConfig) : Prop := {
  vw_name : blank (w_name w) = false;
  vw_kind : w_kind w ∈ WEBHOOK_KINDS;
  vw_url : w_enabled w = true ->
    starts_with (w_url w) "https://" = true \/ starts_with (w_url w) "http://" = true;
  vw_events : Forall (fun event => event ∈ WEBHOOK_EVENTS) (w_events w);
  vw_telegram : w_kind w = "telegram" -> w_enabled w = true -> filled (w_telegram_chat_id w) = true;
}.

Definition key_value (k : ApiKeyConfig) : option string :=
  if is_empty (k_key k) then None else Some (k_key k).
Definition address (s : ProxyServiceConfig) : option (string * Z) :=
  if s_enabled s then Some (s_host s, s_port s) else None.

Record Valid (c : Config) : Prop := {
  v_port : (1024 <= server_port (server c))%Z;
  v_keep_alive : keep_alive_timeout_ms (server c) <> 0%Z;
  v_tls : tls_configured (tls (server c));
  v_amounts : ValidAmounts c;
  v_server : ValidServer c;
  v_limits : ValidLimits c;
  v_providers : NoDup (provider_ids c) /\ Forall ValidProvider (effective_providers c);
  v_keys : Forall (ValidKey c) (api_key c);
  v_key_ids : NoDup (omap k_id (api_key c));
  v_key_names : NoDup (k_name <$> api_key c);
  v_key_values : NoDup (omap key_value (api_key c));
  v_services : Forall (ValidService c) (proxy_service c);
  v_service_ids : NoDup (s_id <$> proxy_service c);
  v_service_names : NoDup (s_name <$> proxy_service c);
  v_addresses : NoDup (omap address (proxy_service c));
  v_rules : Forall (ValidRule c) (model_mapping c);
  v_webhooks : Forall ValidWebhook (webhook c);
  v_webhook_names : NoDup (w_name <$> webhook c);
}.

(** Takes conjunctions and existentials apart. *)
Ltac open_all :=
  repeat match goal with
  | H : _ /\ _ |- _ => destruct H
  | H : exists _, _ |- _ => destruct H
  end; subst.

(** ** The settings *)

(** Closes an equivalence between a conjunction and the record that names its parts. *)
Ltac by_record := split; [intros; destruct_and?; constructor; naive_solver|intros []; naive_solver].

Lemma validate_tls_ok t : validate_tls t = Ok tt <-> tls_configured t.
Proof.
  unfold validate_tls, tls_configured. rewrite refuse_ok.
  destruct (tls_enabled t), (filled (cert t)), (filled (tls_key t)), (filled (cert_path t)),
    (filled (key_path t)); naive_solver.
Qed.

Lemma validate_amounts_ok c : validate_amounts c = Ok tt <-> ValidAmounts c.
Proof.
  unfold validate_amounts. checked. rewrite is_some_and_false.
  setoid_rewrite bad_amount_false. unfold ratio. by_record.
Qed.

Lemma validate_server_ok c : validate_server c = Ok tt <-> ValidServer c.
Proof.
  unfold validate_server. rewrite !then_ok, !refuse_ok, (implb_false (ad_enabled _)). checked.
  rewrite !andb_true_iff. checked. unfold ratio. rewrite !Z.leb_le. by_record.
Qed.

Lemma validate_limits_ok c : validate_limits c = Ok tt <-> ValidLimits c.
Proof.
  unfold validate_limits. checked.
  rewrite !implb_false. checked. by_record.
Qed.

Lemma validate_settings_ok c :
  validate_settings c = Ok tt <->
  (1024 <= server_port (server c))%Z /\ keep_alive_timeout_ms (server c) <> 0%Z
  /\ tls_configured (tls (server c)) /\ ValidAmounts c /\ ValidServer c /\ ValidLimits c.
Proof.
  unfold validate_settings. checked.
  by rewrite validate_tls_ok, validate_amounts_ok, validate_server_ok, validate_limits_ok.
Qed.

(** ** Providers *)

Lemma ProviderId_parse_ok s t : ProviderId_parse s = Ok t <-> t = s /\ provider_id s.
Proof.
  unfold ProviderId_parse, provider_id, ALL_PROVIDERS.
  destruct (decide (s = "all")) as [->|Hall]; [rewrite bool_decide_true by done; naive_solver|].
  rewrite bool_decide_false by done.
  destruct s as [|first rest]; cbn -[Nat.ltb]; [naive_solver|].
  assert (Hlen : String.length rest = length (s2l rest)).
  { clear. unfold s2l. induction rest; cbn; congruence. }
  destruct (Nat.ltb_spec 64 (S (String.length rest))) as [Hlong|Hshort].
  { split; [done|]. intros (_ & _ & a & l & [= -> <-] & _ & _ & Hl). fold (s2l rest) in Hl. lia. }
  fold (s2l rest). destruct (is_ascii_lower first) eqn:Hf; cbn;
    [|split; [done|intros (_ & _ & a & l & [= -> <-] & Ha & _); congruence]].
  destruct (forallb is_id_byte (s2l rest)) eqn:Hr; cbn.
  - split; [intros [= <-]|intros [-> _]; done]. split; [done|]. split; [done|].
    exists first, (s2l rest). split_and!; [done|done| |lia].
    by apply forallb_Forall.
  - split; [done|]. intros (_ & _ & a & l & [= -> <-] & _ & Hall' & _).
    apply forallb_Forall in Hall'. congruence.
Qed.

Lemma provider_id_checked s field :
  match ProviderId_parse s with
  | Ok _ => Ok tt
  | Err e => invalid_config field (ProviderIdError_to_string e)
  end = Ok tt <-> provider_id s.
Proof.
  destruct (ProviderId_parse s) as [t|e] eqn:E.
  - apply ProviderId_parse_ok in E. naive_solver.
  - split; [done|]. intros H. assert (ProviderId_parse s = Ok s) by (by apply ProviderId_parse_ok).
    congruence.
Qed.

(** [checked] under the binders of the intermediate sets. *)
Ltac checked_deep :=
  repeat first
    [ progress cbn [fst snd]
    | setoid_rewrite then_ok | setoid_rewrite result_bind_iff | setoid_rewrite insert_unique_ok
    | setoid_rewrite refuse_ok | setoid_rewrite exists_unit | setoid_rewrite Ok_eq
    | setoid_rewrite if_refused | setoid_rewrite implb_false | setoid_rewrite orb_false_iff
    | setoid_rewrite negb_false_iff | setoid_rewrite is_zero_false | setoid_rewrite Z.ltb_ge
    | setoid_rewrite mem_true | setoid_rewrite is_nil_false
    | setoid_rewrite bool_decide_eq_true | setoid_rewrite bool_decide_eq_false ].

Lemma validate_provider_ok index p ids ids' :
  validate_provider index p ids = Ok ids' <->
  ValidProvider p /\ p_id p ∉ ids /\ ids' = {[p_id p]} ∪ ids.
Proof.
  unfold validate_provider. cbv zeta. checked_deep. setoid_rewrite provider_id_checked.
  split; [|intros ([] & Hnew & ->); naive_solver].
  intros (Hid & ids1 & [Hnew ->] & H). split; [constructor|]; naive_solver.
Qed.

Lemma omap_Some_fmap {A B} (f : A -> B) (l : list A) : omap (fun x => Some (f x)) l = f <$> l.
Proof. induction l; cbn; [done|by f_equal]. Qed.

(** The loops whose entries register one key each. *)
Lemma fold_each_keys {A E} (f : nat -> A -> gset string -> result (gset string) E)
    (P : A -> Prop) (key : A -> string) l s' :
  (forall i x s s', f i x s = Ok s' <-> P x /\ key x ∉ s /\ s' = {[key x]} ∪ s) ->
  fold_each f 0 l ∅ = Ok s' <->
  Forall P l /\ NoDup (key <$> l) /\ s' = add_all (note (fun x => Some (key x))) l ∅.
Proof.
  intros Hf.
  rewrite (fold_each_register f P (unseen (fun x => Some (key x))) (note (fun x => Some (key x)))).
  - rewrite all_unseen, omap_Some_fmap. set_solver.
  - intros i x s s1. rewrite Hf. unfold unseen, note. naive_solver.
Qed.

Lemma noted_keys {A} (key : A -> string) l s :
  s = add_all (note (fun x => Some (key x))) l ∅ -> forall k, k ∈ s <-> k ∈ key <$> l.
Proof. intros -> k. rewrite noted, omap_Some_fmap. set_solver. Qed.

Lemma validate_providers_ok c ids :
  validate_providers c = Ok ids <->
  (NoDup (provider_ids c) /\ Forall ValidProvider (effective_providers c))
  /\ ids = add_all (note (fun p => Some (p_id p))) (effective_providers c) ∅.
Proof.
  unfold validate_providers. rewrite (fold_each_keys _ ValidProvider p_id).
  - unfold provider_ids. tauto.
  - apply validate_provider_ok.
Qed.

(** ** Scopes *)

(** Sets of known identifiers, as the loops compute them. *)
Definition known (ids : gset string) (l : list string) : Prop := forall k, k ∈ ids <-> k ∈ l.

Lemma validate_provider_scope_ok c ids field values :
  known ids (provider_ids c) ->
  validate_provider_scope field values ids = Ok tt <-> ValidScope c values.
Proof.
  intros Hk. unfold validate_provider_scope, ValidScope. rewrite result_bind_iff.
  setoid_rewrite (fold_each_keys _ (fun id => id ∈ provider_ids c) (fun id => id)).
  - rewrite list_fmap_id. naive_solver.
  - intros i x s s'. unfold scope_entry. checked_deep. specialize (Hk x).
    naive_solver.
Qed.

(** From here on the checks of the parts are used through their lemmas only. *)
#[local] Opaque validate_provider_scope.

(** ** API keys *)

Definition some_name {A} (f : A -> string) (x : A) : option string := Some (f x).

Definition fresh_key : ApiKeyConfig -> KeySets -> Prop :=
  fresh_three (unseen k_id) (unseen (some_name k_name)) (unseen key_value).
Definition add_key : ApiKeyConfig -> KeySets -> KeySets :=
  add_three (note k_id) (note (some_name k_name)) (note key_value).

Lemma validate_api_key_ok c ids index k sets sets' :
  known ids (provider_ids c) ->
  validate_api_key ids index k sets = Ok sets' <->
  ValidKey c k /\ fresh_key k sets /\ sets' = add_key k sets.
Proof.
  intros Hk. destruct sets as [[i n] v].
  unfold validate_api_key, fresh_key, add_key, fresh_three, add_three, unseen, note, some_name,
    key_value. cbv zeta.
  destruct (is_empty (k_key k)), (k_id k) eqn:Hid; checked_deep;
    setoid_rewrite (validate_provider_scope_ok c _ _ _ Hk);
    setoid_rewrite is_some_and_false; setoid_rewrite bad_amount_false;
    (split; [intros; open_all; split; [constructor|]; naive_solver
            |intros ([] & ? & ->); naive_solver]).
Qed.

Lemma validate_api_keys_ok c ids sets' :
  known ids (provider_ids c) ->
  fold_each (validate_api_key ids) 0 (api_key c) (∅, ∅, ∅) = Ok sets' <->
  Forall (ValidKey c) (api_key c) /\ NoDup (omap k_id (api_key c))
  /\ NoDup (k_name <$> api_key c) /\ NoDup (omap key_value (api_key c))
  /\ sets' = add_all add_key (api_key c) (∅, ∅, ∅).
Proof.
  intros Hk. rewrite (fold_each_register _ (ValidKey c) fresh_key add_key).
  - unfold fresh_key, add_key, KeySets. rewrite all_fresh_three. cbn [fst snd].
    rewrite !all_unseen. unfold some_name. rewrite omap_Some_fmap. set_solver.
  - intros; by apply validate_api_key_ok.
Qed.

Lemma known_key_ids c sets :
  sets = add_all add_key (api_key c) (∅, ∅, ∅) -> known sets.1.1 (omap k_id (api_key c)).
Proof.
  intros -> id. unfold add_key, KeySets. rewrite add_all_three. cbn [fst snd]. rewrite noted. set_solver.
Qed.

(** ** Services *)

Lemma tidy_loop_ok field message duplicate l s' :
  fold_each (fun _ => tidy_entry field message duplicate) 0 l ∅ = Ok s' <->
  tidy l /\ s' = add_all (note (fun x => Some x)) l ∅.
Proof.
  rewrite (fold_each_keys _ (fun s => untidy s = false) (fun x => x)).
  - rewrite list_fmap_id. unfold tidy. tauto.
  - intros i x s s1. unfold tidy_entry. checked_deep. naive_solver.
Qed.

Lemma bound_keys_ok ids field l known_ids :
  known ids known_ids ->
  (exists s', fold_each (fun _ => bound_key field ids) 0 l ∅ = Ok s') <->
  NoDup l /\ Forall (fun id => id ∈ known_ids) l.
Proof.
  intros Hk. setoid_rewrite (fold_each_keys _ (fun id => id ∈ known_ids) (fun x => x)).
  - rewrite list_fmap_id. naive_solver.
  - intros i x s s1. unfold bound_key. checked_deep. specialize (Hk x). naive_solver.
Qed.

Lemma validate_account_tag_ok field t :
  validate_account_tag field t = Ok tt <->
  forall t', t = Some t' -> tags_of t' <> [] /\ tidy (tags_of t').
Proof.
  destruct t as [t|]; [|naive_solver]. unfold validate_account_tag. cbv zeta.
  rewrite then_ok, refuse_ok, is_nil_false, result_bind_iff. setoid_rewrite tidy_loop_ok.
  naive_solver.
Qed.

Lemma validate_account_lists_ok field s :
  validate_account_lists field s = Ok tt <->
  tidy (s_account_ids s) /\ tidy (s_excluded_account_ids s)
  /\ Forall (fun id => id ∉ s_account_ids s) (s_excluded_account_ids s).
Proof.
  unfold validate_account_lists. rewrite result_bind_iff. setoid_rewrite tidy_loop_ok.
  assert (Hloop : forall manual, (forall id, id ∈ manual <-> id ∈ s_account_ids s) ->
    (let? _ := fold_each (fun _ => excluded_entry (field +:+ ".excluded_account_ids") manual) 0
                 (s_excluded_account_ids s) ∅ in Ok tt) = Ok tt <->
    tidy (s_excluded_account_ids s)
    /\ Forall (fun id => id ∉ s_account_ids s) (s_excluded_account_ids s)).
  { intros manual Hm. rewrite result_bind_iff.
    setoid_rewrite (fold_each_keys _
      (fun id => untidy id = false /\ id ∉ s_account_ids s) (fun x => x)).
    - rewrite list_fmap_id. unfold tidy. setoid_rewrite Forall_and. naive_solver.
    - intros i x seen s1. unfold excluded_entry, tidy_entry. checked_deep.
      specialize (Hm x). naive_solver. }
  split.
  - intros (manual & [Ht Hm] & H). split; [done|]. apply Hloop in H; [done|].
    intros id. rewrite Hm, noted, omap_Some_fmap, list_fmap_id. set_solver.
  - intros [Ht H]. eexists. split; [done|]. apply Hloop; [|done].
    intros id. rewrite noted, omap_Some_fmap, list_fmap_id. set_solver.
Qed.

Definition fresh_service : ProxyServiceConfig -> ServiceSets -> Prop :=
  fresh_three (unseen (some_name s_id)) (unseen (some_name s_name)) (unseen address).
Definition add_service : ProxyServiceConfig -> ServiceSets -> ServiceSets :=
  add_three (note (some_name s_id)) (note (some_name s_name)) (note address).

Lemma validate_service_names_ok field s sets sets' :
  validate_service_names field s sets = Ok sets' <->
  (blank (s_id s) = false /\ blank (s_name s) = false /\ blank (s_host s) = false
   /\ (1024 <= s_port s)%Z)
  /\ fresh_service s sets /\ sets' = add_service s sets.
Proof.
  destruct sets as [[i n] a].
  unfold validate_service_names, fresh_service, add_service, fresh_three, add_three, unseen, note,
    some_name, address. cbv zeta.
  destruct (s_enabled s); checked_deep; naive_solver.
Qed.

Lemma default_in_scope c s :
  ValidScope c (s_allowed_providers s) ->
  default_provider_for_service s ∈ allowed_providers_for_service s ->
  default_provider_for_service s ∈ provider_ids c.
Proof.
  intros [_ Hall] Hin. rewrite list.Forall_forall in Hall. by apply Hall.
Qed.

Lemma validate_service_providers_ok c ids field s :
  known ids (provider_ids c) ->
  validate_service_providers ids field s = Ok tt <->
  ValidScope c (s_allowed_providers s)
  /\ default_provider_for_service s ∈ allowed_providers_for_service s.
Proof.
  intros Hk. unfold validate_service_providers.
  rewrite !then_ok, !refuse_ok, !negb_false_iff, bool_decide_eq_true, mem_true, (Hk _),
    (validate_provider_scope_ok c _ _ _ Hk).
  fold (allowed_providers_for_service s). assert (H := default_in_scope c s). tauto.
Qed.

#[local] Opaque then_ validate_account_tag validate_account_lists validate_service_names
  validate_service_providers.

Lemma opens_existsb c s :
  existsb (opens s) (api_key c) = true <-> exists k, k ∈ api_key c /\ opens s k = true.
Proof.
  induction (api_key c) as [|k l IH]; cbn; [set_solver|].
  rewrite orb_true_iff, IH. set_solver.
Qed.

Lemma public_bind_ok c s :
  s_enabled s && negb (is_local_host (s_host s)) && negb (existsb (opens s) (api_key c)) = false <->
  (s_enabled s = true -> is_local_host (s_host s) = false ->
   exists k, k ∈ api_key c /\ opens s k = true).
Proof.
  rewrite <- opens_existsb.
  destruct (s_enabled s), (is_local_host (s_host s)), (existsb (opens s) (api_key c)); naive_solver.
Qed.

Lemma validate_service_ok c ids key_ids index s sets sets' :
  known ids (provider_ids c) -> known key_ids (omap k_id (api_key c)) ->
  validate_service c ids key_ids index s sets = Ok sets' <->
  ValidService c s /\ fresh_service s sets /\ sets' = add_service s sets.
Proof.
  intros Hp Hk. unfold validate_service. cbv zeta.
  repeat first [setoid_rewrite then_ok | setoid_rewrite result_bind_iff].
  setoid_rewrite (validate_service_providers_ok c _ _ _ Hp).
  setoid_rewrite validate_service_names_ok. setoid_rewrite refuse_ok.
  assert (Hb := bound_keys_ok _ ("proxy_service." +:+ show_nat index) (s_api_key_ids s) _ Hk).
  setoid_rewrite is_nil_false.
  setoid_rewrite validate_account_tag_ok. setoid_rewrite validate_account_lists_ok.
  setoid_rewrite if_refused. setoid_rewrite public_bind_ok. setoid_rewrite Ok_eq.
  split.
  - intros (sets1 & (Hn & Hf & ->) & Hkeys & [Hs Hd] & bound & Hbound & Ht & Hl & Hpub & ->).
    destruct (proj1 Hb) as [Hd1 Hd2]; [eauto|]. destruct_and?.
    split; [by constructor|done].
  - intros ([] & Hf & ->). destruct (proj2 Hb) as [s1 Hs1]; [tauto|].
    exists (add_service s sets). split_and!; try tauto. exists s1. tauto.
Qed.

Lemma validate_services_ok c ids key_ids sets' :
  known ids (provider_ids c) -> known key_ids (omap k_id (api_key c)) ->
  fold_each (validate_service c ids key_ids) 0 (proxy_service c) (∅, ∅, ∅) = Ok sets' <->
  Forall (ValidService c) (proxy_service c) /\ NoDup (s_id <$> proxy_service c)
  /\ NoDup (s_name <$> proxy_service c) /\ NoDup (omap address (proxy_service c))
  /\ sets' = add_all add_service (proxy_service c) (∅, ∅, ∅).
Proof.
  intros Hp Hk. rewrite (fold_each_register _ (ValidService c) fresh_service add_service).
  - unfold fresh_service, add_service, ServiceSets. rewrite all_fresh_three. cbn [fst snd].
    rewrite !all_unseen. unfold some_name. rewrite !omap_Some_fmap. set_solver.
  - intros; by apply validate_service_ok.
Qed.

Lemma known_service_ids c sets :
  sets = add_all add_service (proxy_service c) (∅, ∅, ∅) ->
  known sets.1.1 (s_id <$> proxy_service c).
Proof.
  intros -> id. unfold add_service, ServiceSets. rewrite add_all_three. cbn [fst snd].
  unfold some_name. rewrite noted, omap_Some_fmap. set_solver.
Qed.

(** ** Rules *)

Lemma cross_target_spec c ids source target to :
  known ids (provider_ids c) ->
  cross_target ids source target = Some to <-> crosses c source target to.
Proof.
  intros Hk. unfold cross_target, crosses. destruct (split_once target "/") as [[p model]|];
    [|naive_solver].
  destruct (decide (p = source)) as [->|Hne]; [rewrite (bool_decide_true (source = source)) by done; cbn; naive_solver|].
  rewrite (bool_decide_false (p = source)) by done. cbn [negb andb].
  specialize (Hk p). case_bool_decide; naive_solver.
Qed.

Lemma find_map_None {A B} (f : A -> option B) l :
  find_map f l = None <-> Forall (fun x => f x = None) l.
Proof.
  induction l as [|x l IH]; cbn; [done|]. rewrite Forall_cons, <- IH. destruct (f x); naive_solver.
Qed.

Lemma validate_crossing_ok c ids field r source :
  known ids (provider_ids c) ->
  validate_crossing c ids field r source = Ok tt <->
  forall target to, target ∈ r_target_models r -> crosses c source target to ->
    allows_cross_provider c source = true.
Proof.
  intros Hk. unfold validate_crossing.
  destruct (find_map _ _) as [to|] eqn:E.
  - apply find_map_Some in E as (target & Hin & Hc%(cross_target_spec c)); [|done].
    rewrite refuse_ok, negb_false_iff. naive_solver.
  - split; [|done]. intros _ target to Hin Hc%(cross_target_spec c ids); [|done].
    apply find_map_None in E. rewrite list.Forall_forall in E. rewrite (E _ Hin) in Hc. done.
Qed.

Lemma each_Forall {A E} (f : A -> result unit E) l :
  each (fun _ => f) l = Ok tt <-> Forall (fun x => f x = Ok tt) l.
Proof.
  rewrite each_ok, Forall_lookup. done.
Qed.

Lemma validate_schedule_ok field s :
  validate_schedule field s = Ok tt <-> forall s', s = Some s' ->
  (forall days, sch_days_of_week s' = Some days -> Forall (fun day => day <= 6)%Z days)
  /\ (forall m, sch_start_minutes s' = Some m -> (m < 1440)%Z)
  /\ (forall m, sch_end_minutes s' = Some m -> (m < 1440)%Z).
Proof.
  destruct s as [s|]; [|naive_solver]. unfold validate_schedule.
  rewrite then_ok, !refuse_ok, orb_false_iff, !is_some_and_false.
  setoid_rewrite existsb_false. setoid_rewrite Z.ltb_ge. setoid_rewrite Z.leb_gt.
  change (24 * 60)%Z with 1440%Z. split; [by intros H s' [= <-]|by intros H; apply (H s)].
Qed.

Lemma existsb_not_kiro l :
  existsb (fun p => negb (bool_decide (p = "kiro"))) l = false <-> Forall (fun p => p = "kiro") l.
Proof.
  rewrite existsb_false. setoid_rewrite negb_false_iff. setoid_rewrite bool_decide_eq_true. done.
Qed.

Lemma validate_credit_condition_ok c ids field r :
  known ids (provider_ids c) ->
  validate_credit_condition ids field r = Ok tt <->
  forall v, r_max_remaining_credit_percent r = Some v ->
    F64.is_finite v = true /\ in_unit F64.hundred v = true
    /\ Forall (fun p => p = "kiro") (effective_provider_scope (r_providers r))
    /\ Forall (fun target => forall to, ~ crosses c "kiro" target to) (r_target_models r).
Proof.
  intros Hk. unfold validate_credit_condition.
  destruct (r_max_remaining_credit_percent r) as [v|]; [|naive_solver].
  rewrite !then_ok, !refuse_ok. cbn [is_some_and is_some].
  rewrite orb_false_iff, !negb_false_iff, then_ok, !refuse_ok, existsb_not_kiro, existsb_false.
  assert (Hx : forall l, Forall (fun target => is_some (cross_target ids "kiro" target) = false) l <->
    Forall (fun target => forall to, ~ crosses c "kiro" target to) l).
  { intros l. apply Forall_iff. intros target.
    setoid_rewrite <- (cross_target_spec c ids); [|done].
    destruct (cross_target ids "kiro" target); naive_solver. }
  rewrite Hx. naive_solver.
Qed.

Lemma weights_ok r :
  is_some_and (r_weights r) (fun weights =>
    negb (length weights =? length (r_target_models r))%nat || forallb is_zero weights) = false <->
  forall weights, r_weights r = Some weights ->
    length weights = length (r_target_models r) /\ forallb is_zero weights = false.
Proof.
  rewrite is_some_and_false. setoid_rewrite orb_false_iff. setoid_rewrite negb_false_iff.
  setoid_rewrite Nat.eqb_eq. done.
Qed.

Lemma validate_rule_ok c ids service_ids index r :
  known ids (provider_ids c) -> known service_ids (s_id <$> proxy_service c) ->
  validate_rule c ids service_ids index r = Ok tt <-> ValidRule c r.
Proof.
  intros Hp Hs. unfold validate_rule. cbv zeta.
  rewrite !then_ok, !refuse_ok, weights_ok, validate_schedule_ok,
    (validate_credit_condition_ok c _ _ _ Hp), (validate_provider_scope_ok c _ _ _ Hp),
    implb_false, orb_false_iff, !is_nil_false, negb_false_iff, mem_true, each_Forall.
  setoid_rewrite refuse_ok. setoid_rewrite negb_false_iff. setoid_rewrite bool_decide_eq_true.
  assert (Hids : Forall (fun id => id ∈ service_ids) (r_service_ids r) <->
                 Forall (fun id => id ∈ s_id <$> proxy_service c) (r_service_ids r))
    by (apply Forall_iff, Hs).
  rewrite Hids. clear Hids.
  assert (Hc : (if r_enabled r
    then each (fun _ => validate_crossing c ids ("model_mapping." +:+ show_nat index) r)
           (effective_provider_scope (r_providers r)) else Ok tt) = Ok tt <->
    (r_enabled r = true ->
     Forall (fun source => forall target to, target ∈ r_target_models r ->
              crosses c source target to -> allows_cross_provider c source = true)
       (effective_provider_scope (r_providers r)))).
  { destruct (r_enabled r); [|naive_solver]. rewrite each_Forall.
    rewrite (Forall_iff _ _ _ (fun s => validate_crossing_ok c ids _ r s Hp)). tauto. }
  rewrite Hc. split; [intros; open_all; by constructor|intros []; tauto].
Qed.

(** ** Webhooks *)

Lemma ex_determined {A} (P : Prop) (x : A) (Q : A -> Prop) :
  (exists y, (P /\ y = x) /\ Q y) <-> P /\ Q x.
Proof. naive_solver. Qed.

Lemma validate_webhook_ok index w names names' :
  validate_webhook index w names = Ok names' <->
  ValidWebhook w /\ w_name w ∉ names /\ names' = {[w_name w]} ∪ names.
Proof.
  unfold validate_webhook. cbv zeta. repeat first [setoid_rewrite then_ok | setoid_rewrite result_bind_iff].
  setoid_rewrite insert_unique_ok. setoid_rewrite refuse_ok.
  setoid_rewrite Ok_eq. rewrite ex_determined, negb_false_iff, mem_true, existsb_false.
  rewrite (implb_false (w_enabled w)), negb_false_iff, orb_true_iff.
  assert (Hev : Forall (fun event => negb (mem event WEBHOOK_EVENTS) = false) (w_events w) <->
                Forall (fun event => event ∈ WEBHOOK_EVENTS) (w_events w)).
  { apply Forall_iff. intros e. by rewrite negb_false_iff, mem_true. }
  rewrite Hev. clear Hev.
  assert (Htg : bool_decide (w_kind w = "telegram") && w_enabled w
                && is_none_or (w_telegram_chat_id w) blank = false <->
    (w_kind w = "telegram" -> w_enabled w = true -> filled (w_telegram_chat_id w) = true)).
  { case_bool_decide; destruct (w_enabled w), (w_telegram_chat_id w) as [id|]; cbn;
      try destruct (blank id); naive_solver. }
  rewrite Htg. clear Htg.
  split; [intros; open_all; split; [constructor|]; done|intros ([] & ? & ->); naive_solver].
Qed.

(** ** The whole *)

#[local] Opaque validate_settings validate_providers validate_api_key validate_service
  validate_rule validate_webhook.

(** C21: [Config::validate] accepts exactly the valid configurations: all numbers in range,
    identifiers, names, key values and addresses distinct, every reference to a provider, key or
    service pointing to one that is configured, the default provider inside the service's scope, an
    enabled public listener opened by at least one enabled key, and no enabled rule leading out of a
    provider that does not allow it. *)
Theorem validate_spec c : validate c = Ok tt <-> Valid c.
Proof.
  unfold validate. rewrite then_ok, validate_settings_ok, result_bind_iff.
  setoid_rewrite validate_providers_ok.
  split.
  - intros ((Hport & Hka & Htls & Ha & Hs & Hl) & ids & [Hp Hids0] & H).
    pose proof (noted_keys _ _ _ Hids0) as Hids.
    apply result_bind_iff in H as (sets & (Hk & Hk1 & Hk2 & Hk3 & Hsets)%(validate_api_keys_ok c) & H);
      [|done].
    apply known_key_ids in Hsets. destruct sets as [[key_ids ?] ?].
    apply result_bind_iff in H as (sets & (Hv & Hv1 & Hv2 & Hv3 & Hsvc)%validate_services_ok & H);
      [|done..].
    apply known_service_ids in Hsvc. destruct sets as [[service_ids ?] ?].
    apply then_ok in H as [Hr (names & Hw & _)%result_bind_iff].
    apply (fold_each_keys _ ValidWebhook w_name) in Hw as (Hw1 & Hw2 & _);
      [|apply validate_webhook_ok].
    constructor; try done.
    apply Forall_lookup. intros i r Hi. rewrite each_ok in Hr.
    by eapply validate_rule_ok, Hr.
  - intros []. split; [done|]. eexists. split; [done|].
    pose proof (noted_keys p_id (effective_providers c) _ eq_refl) as Hids.
    apply result_bind_iff. eexists. split; [by apply (validate_api_keys_ok c)|].
    pose proof (known_key_ids c _ eq_refl) as Hkeys.
    destruct (add_all add_key (api_key c) (∅, ∅, ∅)) as [[key_ids ?] ?].
    apply result_bind_iff. eexists. split; [by apply validate_services_ok|].
    pose proof (known_service_ids c _ eq_refl) as Hsvc.
    destruct (add_all add_service (proxy_service c) (∅, ∅, ∅)) as [[service_ids ?] ?].
    apply then_ok. split.
    + apply each_ok. intros i r Hi. apply (validate_rule_ok c); [done..|].
      by eapply Forall_lookup_1.
    + apply result_bind_iff. eexists. split; [|done].
      apply (fold_each_keys _ ValidWebhook w_name); [apply validate_webhook_ok|done].
Qed.

#[local] Transparent validate_settings validate_providers validate_api_key validate_service
  validate_rule validate_webhook then_.

(** ** Reloading *)

Lemma validate_set_socket socket c : validate (set_socket socket c) = validate c.
Proof. reflexivity. Qed.

Lemma validate_set_tls t c :
  validate c = Ok tt -> validate_tls t = Ok tt -> validate (set_tls t c) = Ok tt.
Proof.
  unfold validate, validate_settings. rewrite !then_ok.
  intros ((Hp & Hk & _ & Hrest) & H) Ht.
  exact (conj (conj Hp (conj Hk (conj Ht Hrest))) H).
Qed.

Lemma merge_hot_reload_valid old new :
  Valid old -> Valid new -> Valid (merge_hot_reload old new).1.
Proof.
  intros Hold Hnew%validate_spec. apply validate_spec. unfold merge_hot_reload. cbn [fst].
  destruct (Bool.eqb _ _); [by rewrite validate_set_socket|].
  apply validate_set_tls; [by rewrite validate_set_socket|]. apply validate_tls_ok, Hold.
Qed.

Lemma merge_hot_reload_listens old new :
  let merged := (merge_hot_reload old new).1 in
  admin_socket merged = admin_socket old
  /\ tls_enabled (tls (server merged)) = tls_enabled (tls (server old)).
Proof.
  unfold merge_hot_reload. cbn [fst].
  destruct (Bool.eqb_spec (tls_enabled (tls (server old)))
              (tls_enabled (tls (server (set_socket (admin_socket old) new))))); done.
Qed.

Section Watching.
Context (parse_config : string -> result Config string) (show_f64 : f64 -> string)
        (hook : Config -> result unit string).

(** One turn of the watcher: the lock, the two reads of the file. *)
Definition Turn : Type := result unit string * option string * result string string.

Definition watch_turn (state : Config * option string) (t : Turn) : Config * option string :=
  let '(lock, contents, read) := t in
  (apply_reload_if_contents_changed parse_config show_f64 hook lock contents read state).1.

Definition watch (turns : list Turn) (state : Config * option string) : Config * option string :=
  fold_left watch_turn turns state.

(** A reload either applies a valid configuration that the hook accepted, or
    changes nothing and says why. *)
Lemma apply_reload_cases read current :
  let '(next, outcome) := apply_reload parse_config show_f64 hook read current in
  (applied outcome = true /\ error outcome = None
   /\ exists raw new, read = Ok raw /\ parse_config raw = Ok new /\ Valid new
        /\ next = (merge_hot_reload current new).1 /\ hook next = Ok tt
        /\ needs_restart outcome = diff_restart_required current new)
  \/ (applied outcome = false /\ is_some (error outcome) = true /\ next = current).
Proof.
  unfold apply_reload. destruct read as [raw|e]; [|by right].
  destruct (parse_config raw) as [new|e] eqn:Hparse; [|by right].
  destruct (validate new) as [[]|e] eqn:Hvalid; [|by right].
  destruct (merge_hot_reload current new) as [next restart] eqn:Hmerge.
  destruct (hook next) as [[]|e] eqn:Hhook; [|by right].
  left. split_and!; [done..|]. exists raw, new. apply validate_spec in Hvalid.
  rewrite Hmerge. split_and!; try done. by injection Hmerge.
Qed.

Definition same_listener (c c' : Config) : Prop :=
  admin_socket c' = admin_socket c /\ tls_enabled (tls (server c')) = tls_enabled (tls (server c)).

Lemma watch_turn_valid state t :
  Valid state.1 -> Valid (watch_turn state t).1 /\ same_listener state.1 (watch_turn state t).1.
Proof.
  destruct state as [c seen], t as [[lock contents] read]. cbn [fst]. intros Hc.
  assert (Hsame : Valid c /\ same_listener c c) by done.
  unfold watch_turn, apply_reload_if_contents_changed.
  destruct lock as [[]|e]; [|done]. case_bool_decide; [done|].
  assert (Hcases := apply_reload_cases read c).
  destruct (apply_reload _ _ _ read c) as [next outcome]. cbn [fst].
  destruct Hcases as [(_ & _ & raw & new & _ & _ & Hnew & -> & _)|(_ & _ & ->)]; [|done].
  split; [by apply merge_hot_reload_valid|apply merge_hot_reload_listens].
Qed.

(** C22: However the file changes under the watcher, and whatever the lock, the reads, the parser and
    the runtime hook answer, a daemon that started from a valid configuration keeps running on a
    valid one, with the admin socket and the TLS mode it was started with. *)
Theorem watched_config_valid turns c seen :
  Valid c ->
  Valid (watch turns (c, seen)).1 /\ same_listener c (watch turns (c, seen)).1.
Proof.
  intros Hc. unfold watch.
  assert (H : forall state, Valid state.1 -> same_listener c state.1 ->
    Valid (fold_left watch_turn turns state).1
    /\ same_listener c (fold_left watch_turn turns state).1).
  { induction turns as [|t turns IH]; intros state Hv Hs; cbn; [done|].
    destruct (watch_turn_valid state t Hv) as [Hv' [H1 H2]].
    apply IH; [done|]. destruct Hs as [H3 H4]. split; congruence. }
  by apply H.
Qed.
End Watching.

(** ** The default configuration, and a daemon that reloads it *)

Example default_config_valid : Valid (Config_default None None).
Proof. apply validate_spec. vm_compute. reflexivity. Qed.

Lemma watched_config_valid_witness :
  let parse raw := if bool_decide (raw = "tls") then Ok (set_tls {| tls_enabled := true;
      cert_path := None; key_path := None; cert := Some "c"; tls_key := Some "k" |}
      (Config_default (Some "/data") None)) else Err "syntax" in
  let final := watch parse (fun _ => "") (fun _ => Ok tt)
    [(Ok tt, Some "tls", Ok "tls"); (Ok tt, Some "x", Ok "x"); (Err "busy", None, Err "gone")]
    (Config_default None None, None) in
  Valid final.1 /\ same_listener (Config_default None None) final.1.
Proof. apply watched_config_valid, default_config_valid. Defined.

(** ** Decisions *)

(** The accounts a service may use: never an excluded one, always a manual one, else all of them or
    those that share a tag. *)
Lemma includes_account_spec s a :
  includes_account s a = true <->
  acc_id a ∉ s_excluded_account_ids s
  /\ (acc_id a ∈ s_account_ids s \/ s_account_tag s = None
      \/ exists tag, tag ∈ selected_account_tags s /\ tag ∈ tags a).
Proof.
  unfold includes_account, uses_global_account_pool, mem.
  assert (Htags : existsb (fun tag => bool_decide (tag ∈ tags a)) (selected_account_tags s) = true <->
    exists tag, tag ∈ selected_account_tags s /\ tag ∈ tags a).
  { induction (selected_account_tags s) as [|tag l IH]; cbn; [set_solver|].
    rewrite orb_true_iff, IH, bool_decide_eq_true. set_solver. }
  case_bool_decide; [naive_solver|]. case_bool_decide; [naive_solver|].
  rewrite orb_true_iff, Htags. destruct (s_account_tag s); naive_solver.
Qed.

Lemma effective_token_refresh_bounds c :
  (token_refresh_before_expiry (upstream c) <= I64_MAX)%Z ->
  (0 <= token_refresh_interval_ms (tasks c) <= 1000 * I64_MAX)%Z ->
  let window := effective_token_refresh_before_expiry c in
  (600 <= window <= I64_MAX
   /\ token_refresh_before_expiry (upstream c) <= window
   /\ Z.min I64_MAX (2 * token_refresh_interval_ms (tasks c)) <= 1000 * window)%Z.
Proof.
  unfold effective_token_refresh_before_expiry, MINIMUM_LEAD_SECS, U64_MAX, I64_MAX.
  intros Hc Hi. cbv zeta.
  assert (H := Z.div_mod (token_refresh_interval_ms (tasks c) + 999) 1000 ltac:(lia)).
  assert (H' := Z.mod_pos_bound (token_refresh_interval_ms (tasks c) + 999) 1000 ltac:(lia)).
  destruct (Z.ltb_spec (token_refresh_before_expiry (upstream c)) 0);
    match goal with |- context [(?a <=? ?b)%Z] => destruct (Z.leb_spec a b) end; lia.
Qed.

(** A scan every [token_refresh_interval_ms] finds a token expiring at least twice before it does. *)
Lemma refresh_window_scanned c (a : Account) (start : Z) :
  (token_refresh_before_expiry (upstream c) <= I64_MAX)%Z ->
  (0 < token_refresh_interval_ms (tasks c) <= 4 * 10 ^ 18)%Z ->
  auth_method (credentials a) <> ApiKey ->
  let interval := token_refresh_interval_ms (tasks c) in
  let window := effective_token_refresh_before_expiry c in
  (start <= 1000 * (expires_at (credentials a) - window))%Z ->
  exists k, (0 <= k)%Z
    /\ is_token_expiring a ((start + k * interval) / 1000) window = true
    /\ (start + (k + 1) * interval <= 1000 * expires_at (credentials a))%Z.
Proof.
  intros Hc Hi Hauth interval window Hstart.
  destruct (effective_token_refresh_bounds c Hc) as (Hw & _ & Hscan); [unfold I64_MAX; lia|].
  fold interval window in Hw, Hscan, Hi.
  set (gap := (1000 * (expires_at (credentials a) - window) - start)%Z).
  exists ((gap + interval - 1) / interval)%Z.
  assert (Hk := Z.div_mod (gap + interval - 1) interval ltac:(lia)).
  assert (Hk' := Z.mod_pos_bound (gap + interval - 1) interval ltac:(lia)).
  set (k := ((gap + interval - 1) / interval)%Z) in *.
  assert (Hreach : (gap <= k * interval < gap + interval)%Z) by lia.
  assert (Hnow : (expires_at (credentials a) - window <= (start + k * interval) / 1000)%Z).
  { apply Z.div_le_lower_bound; [lia|]. unfold gap in Hreach. lia. }
  split_and!.
  - apply Z.div_pos; unfold gap; lia.
  - unfold is_token_expiring, sat_sub_i64. rewrite bool_decide_false by done. apply Z.leb_le.
    unfold I64_MIN, I64_MAX in *. lia.
  - rewrite Z.mul_add_distr_r. unfold gap, I64_MAX in *. lia.
Qed.
