(* ===== verification/Occurs.v ===== *)
(** * Occurrences of a text in another

    [str::contains] and [str::find] on the bytes of a text, and the first
    occurrence under extension of the text. *)

From Stdlib Require Import ZArith Lia Ascii String.
From stdpp Require Import base list sets strings.
From S2P Require Import Prelude RustStr.

Local Open Scope list_scope.

(** [to_ascii_lowercase]. *)
Definition lower_l (l : bytes) : bytes := lower_byte <$> l.

(** [str::find]: the offset of the first occurrence. *)
Fixpoint find_l (p l : bytes) : option nat :=
  if is_some (strip_prefix_l p l) then Some 0
  else match l with [] => None | _ :: l => S <$> find_l p l end.

Definition Occurs (p l : bytes) : Prop := exists u v, l = u ++ p ++ v.

Lemma contains_l_spec l p : contains_l l p = true <-> Occurs p l.
Proof.
  induction l as [|a l IH]; cbn [contains_l].
  - rewrite orb_false_r. split.
    + destruct (strip_prefix_l p []) as [r|] eqn:E; [|done].
      apply strip_prefix_l_spec in E. intros _. by exists [], r.
    + intros (u & v & E). symmetry in E. apply app_nil in E as [-> E].
      apply app_nil in E as [-> ->]. done.
  - rewrite orb_true_iff, IH. split.
    + intros [H|(u & v & ->)]; [|by exists (a :: u), v].
      destruct (strip_prefix_l p (a :: l)) as [r|] eqn:E; [|done].
      apply strip_prefix_l_spec in E. by exists [], r.
    + intros ([|b u] & v & E); [left|right].
      * assert (Hs : strip_prefix_l p (a :: l) = Some v) by by apply strip_prefix_l_spec.
        by rewrite Hs.
      * injection E as -> ->. by exists u, v.
Qed.

Lemma contains_spec s p : contains s p = true <-> Occurs (s2l p) (s2l s).
Proof. apply contains_l_spec. Qed.

Lemma Occurs_app_l p x y : Occurs p x -> Occurs p (x ++ y).
Proof. intros (u & v & ->). exists u, (v ++ y). by rewrite <- !app_assoc. Qed.

Lemma Occurs_app_r p x y : Occurs p y -> Occurs p (x ++ y).
Proof. intros (u & v & ->). exists (x ++ u), v. by rewrite <- !app_assoc. Qed.

Lemma Occurs_elem p l a : Occurs p l -> a ∈ p -> a ∈ l.
Proof. intros (u & v & ->). set_solver. Qed.

(** The first occurrence: nothing occurs within the text up to its last byte. *)
Lemma find_l_spec p l :
  match find_l p l with
  | Some k => exists v, drop k l = p ++ v /\ k <= length l /\ (p <> [] -> ~ Occurs p (take k l))
  | None => ~ Occurs p l
  end.
Proof.
  induction l as [|a l IH]; cbn [find_l].
  - destruct (strip_prefix_l p []) as [r|] eqn:E; cbn.
    + apply strip_prefix_l_spec in E. exists r. split_and!; [done|cbn; lia|].
      intros Hp (u & v & H). symmetry in H. apply app_nil in H as [_ H].
      by apply app_nil in H as [-> _].
    + intros H%contains_l_spec. cbn in H. by rewrite E in H.
  - destruct (strip_prefix_l p (a :: l)) as [r|] eqn:E; cbn [is_some].
    + apply strip_prefix_l_spec in E. exists r. split_and!; [done|cbn; lia|].
      intros Hp (u & v & H). symmetry in H. apply app_nil in H as [_ H].
      by apply app_nil in H as [-> _].
    + destruct (find_l p l) as [k|]; cbn.
      * destruct IH as (v & Hd & Hk & Hno). exists v. split_and!; [done|cbn; lia|].
        intros Hp (u & w & H). destruct u as [|b u].
        -- assert (Hpre : exists q, a :: l = p ++ q).
           { exists (w ++ drop k l). rewrite app_assoc, <- (app_nil_l (p ++ w)), <- H.
             cbn. by rewrite take_drop. }
           destruct Hpre as [q Hq]. rewrite (proj2 (strip_prefix_l_spec p (a :: l) q)) in E; done.
        -- injection H as -> H. apply (Hno Hp). by exists u, w.
      * intros H%contains_l_spec. cbn in H. rewrite E in H. apply contains_l_spec in H. done.
Qed.

(** ** The first occurrence in a longer text *)

Lemma strip_prefix_l_cut p l u :
  length p <= length l -> strip_prefix_l p (l ++ u) = (fun r => r ++ u) <$> strip_prefix_l p l.
Proof.
  revert l; induction p as [|a p IH]; intros [|b l] H; cbn in *; [done|done|lia|].
  destruct (Ascii.eqb a b); [|done]. apply IH. lia.
Qed.

Lemma find_l_Some p l k : find_l p l = Some k -> k + length p <= length l /\ take (length p) (drop k l) = p.
Proof.
  intros E. pose proof (find_l_spec p l) as H. rewrite E in H. destruct H as (v & Hd & Hk & _).
  rewrite Hd. split; [|apply take_app_length]. apply (f_equal length) in Hd.
  rewrite length_drop, length_app in Hd. lia.
Qed.

Lemma find_l_app p l u k : find_l p l = Some k -> find_l p (l ++ u) = Some k.
Proof.
  intros H. pose proof (find_l_Some _ _ _ H) as [Hk _]. revert k H Hk.
  induction l as [|a l IH]; intros k H Hk.
  - destruct p; [|cbn in Hk; lia]. cbn in H. injection H as <-. by destruct u.
  - cbn [app find_l] in *. change (a :: l ++ u) with ((a :: l) ++ u).
    rewrite strip_prefix_l_cut by lia. destruct (strip_prefix_l p (a :: l)); [done|]. cbn [is_some fmap option_fmap option_map].
    destruct (find_l p l) as [j|] eqn:Ej; [|done]. injection H as <-. cbn in Hk.
    rewrite (IH j eq_refl) by lia. done.
Qed.

(** Text in which no occurrence begins is passed. *)
Lemma find_l_skip p a b :
  (forall j, j < length a -> strip_prefix_l p (drop j (a ++ b)) = None) ->
  find_l p (a ++ b) = Nat.add (length a) <$> find_l p b.
Proof.
  induction a as [|x a IH]; intros H; cbn [app length]; [by destruct (find_l p b)|].
  cbn [find_l]. pose proof (H 0 (Nat.lt_0_succ _)) as H0. cbn [drop app] in H0. rewrite H0. cbn [is_some].
  rewrite IH; [by destruct (find_l p b)|]. intros j Hj. apply (H (S j)). cbn. lia.
Qed.
