(* ===== verification/Errors.v ===== *)
(** * Errors as clients see them

    [kproxy-translate/src/error.rs]: the text of an error is classified, stripped
    of credentials, of the phrases a client takes for a ban of its account and of
    the names of the upstream, and bounded.  The two regular expressions run on
    an engine outside the repository and are arguments; [Replaces] is what
    [Regex::replace_all] with a literal replacement does to a text. *)

From Stdlib Require Import ZArith Lia Ascii String.
From stdpp Require Import base list strings.
From S2P Require Import Prelude RustStr F64 Json Text Occurs Schema.

Local Open Scope kproxy_scope.
Local Open Scope string_scope.
Local Open Scope list_scope.

Inductive ErrorFormat := Claude | OpenAi.

Definition BAN_TRIGGER_PHRASES : list string :=
  ["this organization has been disabled"; "oauth authentication is currently not allowed";
   "account disabled"; "account is disabled"; "invalid account"; "too many active sessions"].

(** The loop of [replace_ascii_case_insensitive] on what lies behind the cursor,
    with [lower] the lower-case copy; each round passes one occurrence. *)
Fixpoint replace_from (fuel : nat) (lower message needle replacement : bytes) : bytes :=
  match fuel with
  | O => message
  | S fuel =>
      match find_l needle lower with
      | None => message
      | Some relative =>
          take relative message ++ replacement
          ++ replace_from fuel (drop (relative + length needle) lower)
               (drop (relative + length needle) message) needle replacement
      end
  end.

Definition replace_ascii_case_insensitive_l (message needle replacement : bytes) : bytes :=
  replace_from (S (length message)) (lower_l message) message (lower_l needle) replacement.

Definition replace_ascii_case_insensitive (message needle replacement : string) : string :=
  l2s (replace_ascii_case_insensitive_l (s2l message) (s2l needle) (s2l replacement)).

Definition contains_any (lower : string) (words : list string) : bool :=
  existsb (fun word => contains lower word) words.

Definition is_quota_error (lower : string) : bool :=
  contains_any lower ["402"; "429"; "quota"; "credit"; "throttlingexception"; "reached the limit";
                      "payment required"].

Definition is_network_error (lower : string) : bool :=
  contains_any lower ["network"; "fetch failed"; "socket"; "econnreset"; "econnrefused";
                      "etimedout"; "timeout"; "connection reset"; "premature close";
                      "other side closed"; "terminated"; "operation was aborted"].

Definition is_model_byte (a : ascii) : bool :=
  is_ascii_alphanumeric a || is_char "." a || is_char "_" a || is_char "-" a.

Definition MARKERS : list string :=
  ["prompt is too long for resolved model '"; "prompt is too long for model '"].

(** The loop over the markers; the [?] on the closing quote leaves the function. *)
Fixpoint context_model_name_in (markers : list string) (message lower : string) : option string :=
  match markers with
  | [] => None
  | marker :: markers =>
      match find_l (s2l marker) (s2l lower) with
      | None => context_model_name_in markers message lower
      | Some offset =>
          match split_once_l "'" (drop (offset + len marker) (s2l message)) with
          | None => None
          | Some (model, _) =>
              if negb (is_nil model) && (length model <=? 128)%nat && forallb is_model_byte model
              then Some (l2s model)
              else context_model_name_in markers message lower
          end
      end
  end.

Definition context_model_name (message lower : string) : option string :=
  context_model_name_in MARKERS message lower.

(** [part.parse::<u64>().ok()] of a run of digits. *)
Definition context_numbers (message : string) : list Z :=
  omap (parse_unsigned U64_MAX)
    (filter (fun part => is_empty part = false) (split message (fun a => negb (is_ascii_digit a)))).

Definition context_token_counts (message lower : string) : option (Z * Z) :=
  if negb (contains lower "tokens >" || contains lower "tokens exceeds"
           || contains lower "input tokens exceed")
  then None
  else
    match reverse (context_numbers message) with
    | maximum :: actual :: _ => Some (actual, maximum)
    | _ => None
    end.

Definition claude_error_type (status : Z) : string :=
  if bool_decide (status ∈ [400; 405; 422]%Z) then "invalid_request_error"
  else if bool_decide (status ∈ [401; 403]%Z) then "authentication_error"
  else if (status =? 404)%Z then "not_found_error"
  else if bool_decide (status ∈ [408; 504]%Z) then "timeout_error"
  else if (status =? 413)%Z then "request_too_large"
  else if (status =? 429)%Z then "rate_limit_error"
  else if bool_decide (status ∈ [500; 502]%Z) then "api_error"
  else "overloaded_error".

Definition openai_error_type (status : Z) : string :=
  if bool_decide (status ∈ [400; 405; 413; 422]%Z) then "invalid_request_error"
  else if bool_decide (status ∈ [401; 403]%Z) then "authentication_error"
  else if (status =? 404)%Z then "not_found_error"
  else if (status =? 429)%Z then "rate_limit_error"
  else "server_error".

Definition ELLIPSIS : bytes := ["226"%char; "128"%char; "166"%char].

Section Normalize.
(** [replace_all] of the two patterns: Kiro keys by [[REDACTED]], regional
    endpoints by [upstream]. *)
Context (replace_kiro_keys replace_endpoints : string -> string).

Definition redact_kiro_keys (message : string) : string := replace_kiro_keys message.

Definition redact_endpoint_names (message : string) : string :=
  let filtered := replace_endpoints message in
  let filtered := replace_ascii_case_insensitive filtered "CodeWhisperer" "endpoint" in
  replace_ascii_case_insensitive filtered "AmazonQ" "endpoint".

Definition context_error (message lower : string) : string :=
  match context_token_counts message lower with
  | None => "prompt is too long: context length exceeded"
  | Some (actual, maximum) =>
      let plain := "prompt is too long: " +:+ show_Z actual +:+ " tokens > " +:+ show_Z maximum in
      match context_model_name message lower with
      | Some model =>
          if bool_decide (redact_endpoint_names model = model)
          then "prompt is too long for model '" +:+ model +:+ "': " +:+ show_Z actual
               +:+ " tokens > " +:+ show_Z maximum
          else plain
      | None => plain
      end
  end.

Definition is_context_error (lower : string) : bool :=
  contains lower "prompt is too long" || contains lower "context length exceeded"
  || contains lower "input is too long"
  || (contains lower "context window" && contains lower "exceed").

Definition normalize_error_message (message : string) : string :=
  let message := redact_kiro_keys message in
  let lower := to_ascii_lowercase message in
  if contains_any lower BAN_TRIGGER_PHRASES then "service unavailable"
  else if is_context_error lower then context_error message lower
  else if is_quota_error lower then
    if contains lower "throttlingexception" then
      let suffix := unwrap_or (after_first message "ThrottlingException") "" in
      redact_endpoint_names ("ThrottlingException" +:+ suffix)
    else redact_endpoint_names message
  else if contains_any lower ["401"; "403"; "auth"]
  then "Service temporarily unavailable, please retry"
  else if contains_any lower ["internal server error"; "bad gateway"; "502"; "500"; "503"; "504";
                              "service unavailable"; "gateway timeout"]
  then "Upstream service error, please retry later"
  else if is_network_error lower then "Service temporarily unavailable, please retry"
  else redact_endpoint_names message.

Definition blank_control (c : bytes) : bytes := if char_is_control c then [" "%char] else c.

Definition sanitize_error_message (message : string) : string :=
  let cs := chars (normalize_error_message message) in
  let bounded := concat (blank_control <$> take 1024 cs) in
  l2s (if is_nil (drop 1024 cs) then bounded else bounded ++ ELLIPSIS).

Definition log_model (model : string) : string :=
  if is_empty model then ""
  else if negb (is_ok (validate_model model)) then "[invalid-model]"
  else redact_kiro_keys model.

Definition error_envelope (format : ErrorFormat) (status : Z) (message : string)
    (request_id : option string) : value :=
  let safe := sanitize_error_message message in
  let envelope :=
    match format with
    | Claude =>
        json_object
          [("type", Str "error");
           ("error", json_object [("type", Str (claude_error_type status)); ("message", Str safe)])]
    | OpenAi =>
        json_object
          [("error", json_object [("message", Str safe); ("type", Str (openai_error_type status));
                                  ("code", Null)])]
    end in
  match opt_filter (fun id => negb (is_empty id)) request_id, envelope with
  | Some request_id, Object m => Object (obj_insert "request_id" (Str request_id) m)
  | _, _ => envelope
  end.
End Normalize.
