(* ===== verification/ErrorsFacts.v ===== *)
(** * What an error message can no longer contain

    Replacing parts of a text by a word cannot make a phrase appear that does not
    overlap with that word.  From this: no phrase that a client takes for a ban
    survives classification, and no upstream product is named. *)

From Stdlib Require Import ZArith Lia Ascii String.
From stdpp Require Import base list sets strings.
From S2P Require Import Prelude RustStr F64 Json Text Occurs Schema Errors.

Local Open Scope kproxy_scope.
Local Open Scope string_scope.
Local Open Scope list_scope.

(** ** Words that cannot overlap *)

(** Neither text begins with the other. *)
Fixpoint clash (x y : bytes) : bool :=
  match x, y with
  | a :: x, b :: y => negb (Ascii.eqb a b) || clash x y
  | _, _ => false
  end.

Lemma clash_app x y v w : clash x y = true -> x ++ v <> y ++ w.
Proof.
  revert y; induction x as [|a x IH]; intros [|b y]; cbn; try done.
  intros [H%negb_true_iff|H]%orb_true_iff [= -> E].
  - by rewrite Ascii.eqb_refl in H.
  - by apply (IH y).
Qed.

(** Wherever [p] and [r] are laid over each other, they differ. *)
Definition separate (p r : bytes) : bool :=
  forallb (fun k => clash (drop k p) r) (seq 0 (length p))
  && forallb (fun k => clash p (drop k r)) (seq 0 (length r)).

Lemma forallb_seq f n k : forallb f (seq 0 n) = true -> k < n -> f k = true.
Proof.
  intros H Hk. rewrite <- (Nat.add_0_l k). revert H. generalize 0.
  revert n Hk; induction k as [|k IH]; intros [|n] Hk start; cbn; try lia.
  - intros [H _]%andb_true_iff. by rewrite Nat.add_0_r.
  - intros [_ H]%andb_true_iff. rewrite Nat.add_succ_r, <- Nat.add_succ_l.
    apply (IH n); [lia|done].
Qed.

(** An occurrence lies on one side of a word it cannot overlap with. *)
Lemma Occurs_split p r x y :
  separate p r = true -> Occurs p (x ++ r ++ y) -> Occurs p x \/ Occurs p y.
Proof.
  intros [Hp Hr]%andb_true_iff (u & v & E).
  assert (Hclash1 : forall k m w z, p = k ++ m -> m <> [] -> m ++ w <> r ++ z).
  { intros k m w z -> Hm. apply clash_app.
    rewrite <- (drop_app_length k m) at 1. apply (forallb_seq _ _ _ Hp).
    rewrite length_app. destruct m; [done|cbn; lia]. }
  assert (Hclash2 : forall k m w z, r = k ++ m -> m <> [] -> p ++ w <> m ++ z).
  { intros k m w z -> Hm. apply clash_app.
    rewrite <- (drop_app_length k m) at 1. apply (forallb_seq _ _ _ Hr).
    rewrite length_app. destruct m; [done|cbn; lia]. }
  apply app_eq_inv in E as [(k & -> & E)|(k & -> & E)]; apply app_eq_inv in E as [(m & Em & E)|(m & Em & E)].
  - (* it begins in [x] and ends behind the end of [k] *)
    destruct m as [|b m]; [left; rewrite app_nil_r in Em; subst; by exists u, []; rewrite app_nil_r|].
    by destruct (Hclash1 k (b :: m) v y).
  - left. subst k. exists u, m. done.
  - destruct m as [|b m]; [right; cbn in E; by exists [], v|].
    by destruct (Hclash2 k (b :: m) v y).
  - right. subst. by exists m, v.
Qed.

(** Nor can it begin in a word it cannot begin in. *)
Definition separate_start (p r : bytes) : bool :=
  forallb (fun k => clash p (drop k r)) (seq 0 (length r)).

Lemma Occurs_start p r y : separate_start p r = true -> Occurs p (r ++ y) -> Occurs p y.
Proof.
  intros Hr (u & v & E). apply app_eq_inv in E as [(k & -> & E)|(k & -> & E)].
  - destruct k as [|b k]; [cbn in E; by exists [], v|].
    exfalso. refine (clash_app p (b :: k) v y _ E).
    rewrite <- (drop_app_length u (b :: k)). apply (forallb_seq _ _ _ Hr).
    rewrite length_app. cbn. lia.
  - by exists k, v.
Qed.

(** ** Replacing by a word *)

(** Disjoint parts of a text are replaced by [rep]: what [Regex::replace_all] does
    with a literal replacement, whatever the pattern. *)
Inductive Replaces (rep : bytes) : bytes -> bytes -> Prop :=
| Replaces_nil : Replaces rep [] []
| Replaces_keep a s t : Replaces rep s t -> Replaces rep (a :: s) (a :: t)
| Replaces_cut cut s t : Replaces rep s t -> Replaces rep (cut ++ s) (rep ++ t).

#[local] Hint Constructors Replaces : core.

Lemma Replaces_refl rep s : Replaces rep s s.
Proof. induction s; auto. Qed.

Lemma Replaces_app rep s s' t t' :
  Replaces rep s t -> Replaces rep s' t' -> Replaces rep (s ++ s') (t ++ t').
Proof. induction 1; intros; cbn; rewrite <- ?app_assoc; auto. Qed.

Lemma lower_app x y : lower_l (x ++ y) = lower_l x ++ lower_l y.
Proof. apply fmap_app. Qed.

Lemma Replaces_lower rep s t :
  Replaces rep s t -> Replaces (lower_l rep) (lower_l s) (lower_l t).
Proof.
  induction 1; [constructor|by constructor|]. rewrite !lower_app. by constructor.
Qed.

(** No phrase appears that cannot overlap with the replacement. *)
Lemma Replaces_occurs p rep s t :
  separate p rep = true -> Replaces rep s t -> Occurs p t -> Occurs p s.
Proof.
  intros Hsep H Hp. enough (Hgen : forall x, Occurs p (x ++ t) -> Occurs p (x ++ s)) by by apply (Hgen []).
  clear Hp. induction H as [|a s t H IH|cut s t H IH]; intros x Hx; [done| |].
  - rewrite (cons_middle a) in Hx |- *. rewrite app_assoc in Hx |- *. by apply IH.
  - apply Occurs_split in Hx as [Hx|Hx]; [by apply Occurs_app_l| |done].
    apply Occurs_app_r, Occurs_app_r. by apply (IH []).
Qed.

(** ** The case-insensitive replacement *)

Lemma replace_from_Replaces fuel lower message needle rep :
  Replaces rep message (replace_from fuel lower message needle rep).
Proof.
  revert lower message; induction fuel as [|fuel IH]; intros lower message; cbn [replace_from];
    [apply Replaces_refl|].
  destruct (find_l needle lower) as [k|]; [|apply Replaces_refl].
  rewrite <- (take_drop k message) at 1. apply Replaces_app; [apply Replaces_refl|].
  rewrite <- (take_drop (length needle) (drop k message)), drop_drop. constructor. apply IH.
Qed.

Lemma replace_from_absent fuel message needle rep :
  needle <> [] -> lower_l needle = needle -> separate needle (lower_l rep) = true ->
  length message < fuel ->
  ~ Occurs needle (lower_l (replace_from fuel (lower_l message) message needle rep)).
Proof.
  intros Hne Hlow Hsep. revert message; induction fuel as [|fuel IH]; intros message Hf; [lia|].
  cbn [replace_from]. assert (H := find_l_spec needle (lower_l message)).
  destruct (find_l needle (lower_l message)) as [k|]; [|done].
  destruct H as (v & Hd & Hk & Hno). unfold lower_l at 1 in Hk. rewrite length_fmap in Hk.
  rewrite !lower_app. intros [H|H]%Occurs_split; [| |done].
  - unfold lower_l in H. rewrite fmap_take in H. by apply (Hno Hne).
  - unfold lower_l at 2 in H. rewrite <- fmap_drop in H. fold (lower_l (drop (k + length needle) message)) in H.
    apply IH in H; [done|].
    apply (f_equal length) in Hd. unfold lower_l in Hd.
    rewrite length_drop, length_fmap, length_app in Hd. rewrite length_drop.
    destruct needle; [done|]. cbn in Hd |- *. lia.
Qed.

Lemma ci_Replaces m needle rep :
  Replaces rep m (replace_ascii_case_insensitive_l m needle rep).
Proof. apply replace_from_Replaces. Qed.

Lemma lower_byte_idem a : lower_byte (lower_byte a) = lower_byte a.
Proof. by destruct a as [[] [] [] [] [] [] [] []]. Qed.

Lemma lower_idem l : lower_l (lower_l l) = lower_l l.
Proof. unfold lower_l. rewrite <- list_fmap_compose. apply list_fmap_ext. intros; apply lower_byte_idem. Qed.

Lemma ci_absent m needle rep :
  needle <> [] -> separate (lower_l needle) (lower_l rep) = true ->
  ~ Occurs (lower_l needle) (lower_l (replace_ascii_case_insensitive_l m needle rep)).
Proof.
  intros Hne Hsep. apply replace_from_absent; [by destruct needle|apply lower_idem|done|lia].
Qed.

Lemma Replaces_occurs_lower p rep s t :
  separate p (lower_l rep) = true -> Replaces rep s t -> Occurs p (lower_l t) -> Occurs p (lower_l s).
Proof. intros Hsep H%Replaces_lower. by apply Replaces_occurs with (rep := lower_l rep). Qed.

Lemma ci_occurs p m needle rep :
  separate p (lower_l rep) = true ->
  Occurs p (lower_l (replace_ascii_case_insensitive_l m needle rep)) -> Occurs p (lower_l m).
Proof. intros Hsep. eapply Replaces_occurs_lower; [done|apply ci_Replaces]. Qed.

(** ** Digits *)

Lemma show_Z_absent a z : ((code a < 45) \/ (57 < code a))%Z -> a ∉ s2l (show_Z z).
Proof.
  intros Ha Hin. apply (count_show_Z a z) in Ha. unfold count_byte in Ha.
  apply list_elem_of_In, (count_occ_In ascii_dec) in Hin. lia.
Qed.

Lemma lower_digits z : lower_l (s2l (show_Z z)) = s2l (show_Z z).
Proof.
  unfold lower_l. rewrite <- (list_fmap_id (s2l (show_Z z))) at 2.
  apply list_fmap_ext. intros i a Ha.
  apply list_elem_of_lookup_2 in Ha. unfold lower_byte. destruct (is_ascii_upper a) eqn:E; [|done].
  exfalso. revert Ha. apply show_Z_absent. unfold is_ascii_upper, in_range in E. bool_simpl. lia.
Qed.

(** ** Sanitizing *)

Section Sanitizing.
Context (replace_kiro_keys replace_endpoints : string -> string).
Hypothesis endpoints_replaced :
  forall s, Replaces (s2l "upstream") (s2l s) (s2l (replace_endpoints s)).

Notation redact := (redact_endpoint_names replace_endpoints).
Notation normalize := (normalize_error_message replace_kiro_keys replace_endpoints).
Notation sanitize := (sanitize_error_message replace_kiro_keys replace_endpoints).

Definition low (s : string) : bytes := lower_l (s2l s).

(** The products that are never named. *)
Definition PRODUCTS : list string := ["codewhisperer"; "amazonq"].

Lemma redact_absent p s : p ∈ PRODUCTS -> ~ Occurs (s2l p) (low (redact s)).
Proof.
  unfold low, redact_endpoint_names, replace_ascii_case_insensitive. rewrite !s2l_l2s.
  intros Hp. set (filtered := s2l (replace_endpoints s)).
  assert (Hc := ci_absent filtered (s2l "CodeWhisperer") (s2l "endpoint") ltac:(done) eq_refl).
  assert (Hq := ci_absent (replace_ascii_case_insensitive_l filtered (s2l "CodeWhisperer") (s2l "endpoint"))
                  (s2l "AmazonQ") (s2l "endpoint") ltac:(done) eq_refl).
  unfold PRODUCTS in Hp. rewrite !elem_of_cons in Hp. destruct Hp as [->|[->|Hp]]; [| |by apply not_elem_of_nil in Hp].
  - intros H. apply Hc. change (lower_l (s2l "CodeWhisperer")) with (s2l "codewhisperer").
    by apply ci_occurs in H.
  - exact Hq.
Qed.

(** Nothing in the text is replaced as a product; [azonq], since [upstream] ends in [am]. *)
Definition STEMS : list string := ["codewhisperer"; "azonq"].
Definition no_products (s : string) : Prop := Forall (fun q => ~ Occurs (s2l q) (low s)) STEMS.

(** A phrase in lower case that does not overlap with the words put into a text. *)
Definition Foreign (p : bytes) (s : string) : Prop :=
  separate p (s2l "upstream") = true
  /\ (separate p (s2l "endpoint") = true \/ no_products s).

Lemma ci_identity m needle rep :
  ~ Occurs (lower_l needle) (lower_l m) -> replace_ascii_case_insensitive_l m needle rep = m.
Proof.
  intros H. unfold replace_ascii_case_insensitive_l. cbn [replace_from].
  assert (Hf := find_l_spec (lower_l needle) (lower_l m)).
  destruct (find_l _ _) as [k|]; [|done]. destruct Hf as (v & Hd & _). exfalso. apply H.
  exists (take k (lower_l m)), v. rewrite <- Hd. by rewrite take_drop.
Qed.

Lemma redact_occurs p s : Foreign p s -> Occurs p (low (redact s)) -> Occurs p (low s).
Proof.
  intros [Hu He]. unfold low, redact_endpoint_names, replace_ascii_case_insensitive.
  rewrite !s2l_l2s. set (filtered := s2l (replace_endpoints s)).
  assert (Hfil : forall q, separate q (s2l "upstream") = true -> Occurs q (lower_l filtered) ->
                 Occurs q (lower_l (s2l s))).
  { intros q Hq. apply (Replaces_occurs_lower q (s2l "upstream")); [exact Hq|apply endpoints_replaced]. }
  destruct He as [He|Hno].
  - intros H%ci_occurs%ci_occurs; [|exact He..]. by apply Hfil.
  - unfold no_products, STEMS, low in Hno. rewrite !Forall_cons in Hno. destruct Hno as (Hc & Hq & _).
    assert (Hc' : ~ Occurs (lower_l (s2l "CodeWhisperer")) (lower_l filtered)).
    { intros H. apply Hc. exact (Hfil (s2l "codewhisperer") eq_refl H). }
    assert (Hq' : ~ Occurs (lower_l (s2l "AmazonQ")) (lower_l filtered)).
    { intros (u & v & E). apply Hq. apply (Hfil (s2l "azonq") eq_refl).
      exists (u ++ s2l "am"), v. rewrite E, <- app_assoc. done. }
    rewrite (ci_identity filtered) by exact Hc'. rewrite (ci_identity filtered) by exact Hq'.
    by apply Hfil.
Qed.

(** ** The branches *)

(** A fixed text, a piece of it, the numbers. *)
Lemma not_occurs_fixed p l : contains_l l p = false -> ~ Occurs p l.
Proof. intros H Hp%contains_l_spec. congruence. Qed.

Lemma not_occurs_number p z :
  (exists a, a ∈ p /\ (57 < code a)%Z) -> ~ Occurs p (low (show_Z z)).
Proof.
  intros (a & Ha & Hcode) H. apply Occurs_elem with (a := a) in H; [|done].
  unfold low in H. rewrite lower_digits in H. revert H. apply show_Z_absent. by right.
Qed.

Lemma not_occurs_nil p : (exists a, a ∈ p /\ (57 < code a)%Z) -> ~ Occurs p [].
Proof.
  intros (a & Ha & _) H. apply Occurs_elem with (a := a) in H; [|done]. by apply not_elem_of_nil in H.
Qed.

Lemma after_first_l_suffix p l r : after_first_l p l = Some r -> exists k, l = k ++ r.
Proof.
  induction l as [|a l IH]; cbn; destruct (strip_prefix_l p _) as [q|] eqn:E; try done;
    try (intros [= ->]; apply strip_prefix_l_spec in E; by exists p).
  intros [k ->]%IH. by exists (a :: k).
Qed.

(** A phrase as the context message can hold none of it. *)
Record Plain (p : bytes) : Prop := {
  pl_letter : exists a, a ∈ p /\ (57 < code a)%Z;
  pl_quote : separate p (s2l "model '") = true;
  pl_close : separate p (s2l "': ") = true;
  pl_tokens : separate p (s2l " tokens > ") = true;
  pl_colon : separate p (s2l "prompt is too long: ") = true;
  pl_intro : contains_l (s2l "prompt is too long for ") p = false;
}.

Lemma low_app s t : low (s +:+ t) = low s ++ low t.
Proof. unfold low. by rewrite s2l_app, lower_app. Qed.

Lemma not_occurs_counts p x y :
  Plain p -> ~ Occurs p (low (show_Z x) ++ s2l " tokens > " ++ low (show_Z y)).
Proof.
  intros [] [H|H]%Occurs_split; [| |done]; by apply not_occurs_number in H.
Qed.

Lemma context_error_occurs p message lower :
  Plain p -> (forall model, context_model_name message lower = Some model -> redact model = model ->
              ~ Occurs p (low model)) ->
  contains_l (s2l "prompt is too long: context length exceeded") p = false ->
  ~ Occurs p (low (context_error replace_endpoints message lower)).
Proof.
  intros Hp Hmodel Hfixed. unfold context_error.
  destruct (context_token_counts message lower) as [[x y]|]; [|by apply not_occurs_fixed].
  assert (Hplain : ~ Occurs p (low ("prompt is too long: " +:+ show_Z x +:+ " tokens > " +:+ show_Z y))).
  { rewrite !low_app. change (low "prompt is too long: ") with ([] ++ s2l "prompt is too long: ").
    rewrite <- app_assoc. intros [H|H]%Occurs_split; [| |apply Hp].
    - revert H. apply not_occurs_nil, Hp.
    - by eapply not_occurs_counts. }
  destruct (context_model_name message lower) as [model|]; [|done].
  case_bool_decide as Hred; [|done]. rewrite !low_app.
  change (low "prompt is too long for model '") with (s2l "prompt is too long for " ++ s2l "model '").
  rewrite <- app_assoc. intros [H|H]%Occurs_split; [| |apply Hp].
  - revert H. apply not_occurs_fixed, Hp.
  - apply Occurs_split in H as [H|H]; [|by eapply not_occurs_counts|apply Hp].
    by apply (Hmodel model).
Qed.

Lemma model_bytes message lower markers model :
  context_model_name_in markers message lower = Some model -> forallb is_model_byte (s2l model) = true.
Proof.
  induction markers as [|m markers IH]; cbn; [done|].
  destruct (find_l _ _); [|done]. destruct (split_once_l _ _) as [[l ?]|]; [|done].
  destruct (negb (is_nil l) && (length l <=? 128)%nat) eqn:E; cbn; [|done].
  destruct (forallb is_model_byte l) eqn:Hf; [|done]. intros [= <-]. by rewrite s2l_l2s.
Qed.

Lemma not_occurs_model p model :
  " "%char ∈ p -> forallb is_model_byte (s2l model) = true -> ~ Occurs p (low model).
Proof.
  intros Hs Hf H. apply Occurs_elem with (a := " "%char) in H; [|done]. unfold low, lower_l in H.
  apply list_elem_of_fmap in H as (a & Ha & Hin).
  rewrite forallb_forall in Hf. assert (Hm := Hf a (proj1 (list_elem_of_In _ _) Hin)).
  revert Ha Hm. by destruct a as [[] [] [] [] [] [] [] []].
Qed.

(** A word of the code in the texts it returns. *)
Definition RETURNED : list string :=
  ["service unavailable"; "prompt is too long: context length exceeded";
   "Service temporarily unavailable, please retry"; "Upstream service error, please retry later"].

Lemma behind_first_occurs p m t :
  (exists a, a ∈ p /\ (57 < code a)%Z) ->
  Occurs p (low (unwrap_or (after_first m t) "")) -> Occurs p (low m).
Proof.
  intros Hl. unfold after_first. destruct (after_first_l _ _) as [r|] eqn:E; cbn.
  - apply after_first_l_suffix in E as [k Hk]. unfold low. rewrite s2l_l2s, Hk, lower_app.
    apply Occurs_app_r.
  - intros H. exfalso. revert H. by apply not_occurs_nil.
Qed.

Lemma stems_start q :
  q ∈ STEMS -> separate_start (s2l q) (s2l "throttlingexception") = true
                  /\ exists a, a ∈ s2l q /\ (57 < code a)%Z.
Proof.
  unfold STEMS. rewrite !elem_of_cons. intros [->|[->|H]]; [| |by apply not_elem_of_nil in H];
    (split; [reflexivity|]); [exists "c"%char|exists "a"%char]; (split; [cbn; set_solver|done]).
Qed.

Lemma throttling_occurs p m t :
  separate_start p (s2l "throttlingexception") = true -> (exists a, a ∈ p /\ (57 < code a)%Z) ->
  Occurs p (low ("ThrottlingException" +:+ unwrap_or (after_first m t) "")) -> Occurs p (low m).
Proof.
  intros Hs Hl. rewrite low_app. intros H%Occurs_start; [|exact Hs].
  by eapply behind_first_occurs.
Qed.

Lemma normalize_occurs p message :
  Foreign p (replace_kiro_keys message) -> Plain p ->
  separate_start p (s2l "throttlingexception") = true ->
  forallb (fun t => negb (contains_l (low t) p)) RETURNED = true ->
  (forall m lower model, context_model_name m lower = Some model -> redact model = model ->
     ~ Occurs p (low model)) ->
  Occurs p (low (normalize message)) ->
  Occurs p (low (replace_kiro_keys message))
  /\ contains_any (to_ascii_lowercase (replace_kiro_keys message)) BAN_TRIGGER_PHRASES = false.
Proof.
  intros Hf Hp Ht Hret Hmodel.
  unfold normalize_error_message, redact_kiro_keys. set (m := replace_kiro_keys message).
  assert (Hfix : forall t, t ∈ RETURNED -> ~ Occurs p (low t)).
  { intros t Hin. apply not_occurs_fixed. rewrite forallb_forall in Hret.
    apply negb_true_iff, Hret. by apply list_elem_of_In. }
  assert (Hthr : Occurs p (low (redact ("ThrottlingException"
                   +:+ unwrap_or (after_first m "ThrottlingException") ""))) -> Occurs p (low m)).
  { intros H. apply redact_occurs in H; [by apply throttling_occurs in H; [| |apply Hp]|].
    destruct Hf as [Hu [He|Hno]]; split; [done|by left|done|right].
    unfold no_products in *. rewrite list.Forall_forall in Hno |- *. intros q Hq H'.
    destruct (stems_start q Hq). apply (Hno q Hq). by apply throttling_occurs in H'. }
  destruct (contains_any _ BAN_TRIGGER_PHRASES); [intros H; by apply Hfix in H; [|set_solver]|].
  intros H. split; [|done]. revert H.
  destruct (is_context_error _).
  { intros H. exfalso. revert H. apply context_error_occurs; [done|by apply Hmodel|].
    rewrite forallb_forall in Hret.
    assert (Hx := Hret "prompt is too long: context length exceeded" ltac:(cbn; auto)).
    by apply negb_true_iff in Hx. }
  destruct (is_quota_error _); [destruct (contains _ "throttlingexception"); [done|by apply (redact_occurs _ _ Hf)]|].
  repeat match goal with |- context [if ?b then _ else _] => destruct b end;
    try by apply (redact_occurs _ _ Hf). all: intros H; by apply Hfix in H; [|set_solver].
Qed.

(** ** What clients read *)

Lemma concat_chars l : concat (chars_l l) = l.
Proof.
  induction l as [|a l IH]; cbn; [done|].
  destruct (chars_l l) as [|[|b c] rest] eqn:E; cbn in IH |- *; try by rewrite IH.
  destruct (is_continuation b); cbn; by rewrite IH.
Qed.

Lemma blanked_Replaces cs :
  Replaces [" "%char] (concat cs) (concat (blank_control <$> cs)).
Proof.
  induction cs as [|c cs IH]; cbn; [constructor|]. unfold blank_control at 1.
  destruct (char_is_control c); [by apply (Replaces_cut [" "%char])|].
  apply Replaces_app; [apply Replaces_refl|done].
Qed.

Lemma blank_nothing cs :
  Forall (fun c => char_is_control c = false) cs -> blank_control <$> cs = cs.
Proof.
  induction 1 as [|c cs Hc _ IH]; cbn; [done|]. unfold blank_control at 1. by rewrite Hc, IH.
Qed.

(** The text before control characters are blanked and an ellipsis is added. *)
Lemma sanitize_occurs p message :
  separate p ELLIPSIS = true -> (exists a, a ∈ p /\ (57 < code a)%Z) ->
  Occurs p (low (sanitize message)) ->
  Occurs p (lower_l (concat (blank_control <$> take 1024 (chars (normalize message))))).
Proof.
  intros Hsep Hl. unfold sanitize_error_message, low. rewrite s2l_l2s.
  destruct (is_nil _); [done|]. rewrite lower_app.
  change (lower_l ELLIPSIS) with (ELLIPSIS ++ []). intros [H|H]%Occurs_split; [done| |done].
  exfalso. revert H. by apply not_occurs_nil.
Qed.

Lemma taken_occurs p n s : Occurs p (lower_l (concat (take n (chars s)))) -> Occurs p (low s).
Proof.
  intros H. unfold low. rewrite <- (concat_chars (s2l s)). unfold chars in H.
  rewrite <- (take_drop n (chars_l (s2l s))), concat_app, lower_app. by apply Occurs_app_l.
Qed.

(** The checks of a phrase, run on it. *)
Definition plain_ok (p : bytes) : bool :=
  existsb (fun a => 57 <? code a)%Z p
  && separate p (s2l "model '") && separate p (s2l "': ") && separate p (s2l " tokens > ")
  && separate p (s2l "prompt is too long: ") && negb (contains_l (s2l "prompt is too long for ") p)
  && forallb (fun t => negb (contains_l (low t) p)) RETURNED
  && separate p ELLIPSIS.

Lemma plain_ok_spec p :
  plain_ok p = true ->
  Plain p /\ forallb (fun t => negb (contains_l (low t) p)) RETURNED = true
  /\ separate p ELLIPSIS = true.
Proof.
  unfold plain_ok. intros H. repeat (apply andb_true_iff in H as [H ?]).
  split_and!; try done. constructor; try done.
  - apply existsb_exists in H as (a & Hin & Ha). exists a. split; [by apply list_elem_of_In|lia].
  - by apply negb_true_iff.
Qed.

Definition phrase_ok (p : bytes) : bool :=
  separate p (s2l "upstream") && separate_start p (s2l "throttlingexception").

Lemma ban_phrases_ok p :
  p ∈ BAN_TRIGGER_PHRASES ->
  plain_ok (s2l p) = true /\ phrase_ok (s2l p) = true /\ " "%char ∈ s2l p
  /\ (starts_with p "t" = false -> separate (s2l p) (s2l "endpoint") = true).
Proof.
  unfold BAN_TRIGGER_PHRASES. rewrite !elem_of_cons. intros H.
  assert (Hb : plain_ok (s2l p) && phrase_ok (s2l p) && existsb (Ascii.eqb " ") (s2l p)
               && (starts_with p "t" || separate (s2l p) (s2l "endpoint")) = true).
  { repeat (destruct H as [->|H]; [vm_compute; reflexivity|]). by apply not_elem_of_nil in H. }
  apply andb_true_iff in Hb as [[[Hplain Hok]%andb_true_iff Hsp]%andb_true_iff Hend].
  split_and!; [done|done| |].
  - apply existsb_exists in Hsp as (a & Hin & <-%Ascii.eqb_eq). by apply list_elem_of_In.
  - intros Ht. by rewrite Ht in Hend.
Qed.

Lemma length_concat_nonempty (l : list bytes) : Forall (fun c => c <> []) l -> length l <= length (concat l).
Proof.
  induction 1 as [|c l Hc _ IH]; [done|]. cbn. rewrite length_app. destruct c; [done|cbn; lia].
Qed.

Lemma chars_nonempty l : Forall (fun c => c <> []) (chars_l l).
Proof.
  induction l as [|a l IH]; [constructor|]. cbn [chars_l].
  destruct (chars_l l) as [|[|b c] rest]; cbn; [by constructor|by inversion IH|].
  inversion IH; subst. destruct (is_continuation b); by repeat constructor.
Qed.

(** A text that occurs in a row of characters lies within as many of them. *)
Lemma Occurs_chars p cs :
  Forall (fun c => c <> []) cs -> p <> [] -> Occurs p (lower_l (concat cs)) ->
  exists pre mid post, cs = pre ++ mid ++ post /\ length mid <= length p /\ Occurs p (lower_l (concat mid)).
Proof.
  intros Hcs Hp. induction Hcs as [|c cs Hc Hcs IH]; intros H.
  { destruct H as (u & v & E). symmetry in E. by apply app_nil in E as [_ [? _]%app_nil]. }
  assert (Hdec : Occurs p (lower_l (concat cs)) \/ ~ Occurs p (lower_l (concat cs))).
  { destruct (contains_l (lower_l (concat cs)) p) eqn:E; [left; by apply contains_l_spec|right].
    intros H'%contains_l_spec. congruence. }
  destruct Hdec as [H'|Hno].
  { destruct (IH H') as (pre & mid & post & -> & Hl & Ho). by exists (c :: pre), mid, post. }
  exists [], (take (length p) (c :: cs)), (drop (length p) (c :: cs)).
  split; [by rewrite take_drop|]. split; [rewrite length_take; lia|].
  destruct H as (u & v & E). cbn [concat] in E. rewrite lower_app in E.
  assert (Hu : length u < length c).
  { destruct (decide (length u < length c)) as [|Hge]; [done|]. exfalso. apply Hno.
    assert (Hge' : length (lower_l c) <= length u) by (unfold lower_l; rewrite length_fmap; lia).
    apply app_eq_inv in E as [(k & Ek & Er)|(k & Ek & Er)].
    - apply (f_equal length) in Ek. rewrite length_app in Ek. destruct k; [|cbn in Ek; lia].
      exists [], v. by rewrite Er.
    - by exists k, v. }
  assert (Hlen : length u + length p <= length (lower_l (concat (take (length p) (c :: cs))))).
  { destruct p as [|a p]; [done|]. cbn [length take concat]. unfold lower_l. rewrite length_fmap, length_app.
    destruct (decide (length p <= length cs)) as [Hle|Hgt].
    - pose proof (length_concat_nonempty (take (length p) cs) (list.Forall_take _ _ _ Hcs)) as Hm. rewrite length_take in Hm. lia.
    - rewrite take_ge by lia. apply (f_equal length) in E. rewrite !length_app in E. unfold lower_l in E.
      rewrite !length_fmap in E. cbn [length] in E. lia. }
  pose proof (f_equal (take (length (lower_l (concat (take (length p) (c :: cs)))))) E) as Et.
  rewrite <- lower_app in Et. change (c ++ concat cs) with (concat (c :: cs)) in Et.
  rewrite <- (take_drop (length p) (c :: cs)) in Et at 2. rewrite concat_app, lower_app, take_app_length in Et.
  rewrite app_assoc, take_app_ge in Et by (rewrite length_app; lia).
  exists u. eexists. rewrite app_assoc. exact Et.
Qed.

(** C24: Whatever an upstream writes, no phrase that Claude Code takes for a ban of the account is in
    the classified text, in any mix of cases; and in the text that a client receives one can only
    appear where control characters are blanked: within as many characters as the phrase has, the
    classified text has a control character that became one of its spaces, so that no line of the
    text has the phrase ([ban_phrase_behind_line_feed] shows that this happens).  The exception are
    phrases that begin with the last letter of [endpoint], when the message names a product that
    this word replaces ([ban_phrase_from_replacement]). *)
Theorem ban_phrases_never_shown message p :
  p ∈ BAN_TRIGGER_PHRASES ->
  starts_with p "t" = false \/ no_products (replace_kiro_keys message) ->
  contains (to_ascii_lowercase (normalize message)) p = false
  /\ (contains (to_ascii_lowercase (sanitize message)) p = true ->
      exists pre mid post,
        take 1024 (chars (normalize message)) = pre ++ mid ++ post
        /\ length mid <= len p
        /\ Occurs (s2l p) (lower_l (concat (blank_control <$> mid)))
        /\ Exists (fun c => char_is_control c = true) mid).
Proof.
  intros Hp Hoverlap.
  destruct (ban_phrases_ok p Hp)
    as ((Hpl & Hret & Hell)%plain_ok_spec & [Hup Ht]%andb_true_iff & Hs & Hend).
  assert (Hno : ~ Occurs (s2l p) (low (normalize message))).
  { intros H. apply normalize_occurs in H as [H Hnone]; try done.
    - unfold contains_any in Hnone. assert (Hc : contains (to_ascii_lowercase (replace_kiro_keys message)) p = true).
      { apply contains_spec. unfold to_ascii_lowercase. by rewrite s2l_l2s. }
      enough (existsb (fun word => contains (to_ascii_lowercase (replace_kiro_keys message)) word)
                BAN_TRIGGER_PHRASES = true) by congruence.
      apply existsb_exists. exists p. split; [by apply list_elem_of_In|done].
    - split; [done|]. destruct Hoverlap; [left; by apply Hend|by right].
    - intros m lower model Hm _. apply not_occurs_model; [done|]. by eapply model_bytes. }
  split.
  - apply not_true_iff_false. intros H%contains_spec. unfold to_ascii_lowercase in H.
    by rewrite s2l_l2s in H.
  - intros H%contains_spec. unfold to_ascii_lowercase in H. rewrite s2l_l2s in H.
    apply sanitize_occurs in H; [|done|apply Hpl].
    apply Occurs_chars in H as (pre' & mid' & post' & E & Hl & H); [| |by destruct (s2l p)].
    2:{ apply Forall_fmap. apply Forall_take. eapply Forall_impl; [apply chars_nonempty|].
        intros c Hc. cbn. unfold blank_control. by destruct (char_is_control c). }
    apply fmap_app_inv in E as (pre & rest & -> & E & Et). symmetry in E. apply fmap_app_inv in E as (mid & post & -> & -> & ->).
    exists pre, mid, post. rewrite length_fmap in Hl. split; [done|]. split; [by rewrite len_s2l|]. split; [done|].
    destruct (decide (Exists (fun c => char_is_control c = true) mid)) as [|Hnone]; [done|]. exfalso.
    apply not_Exists_Forall in Hnone; [|solve_decision]. rewrite blank_nothing in H.
    + apply Hno. apply (taken_occurs _ 1024). rewrite Et, !concat_app, !lower_app.
      by apply Occurs_app_r, Occurs_app_l.
    + eapply Forall_impl; [exact Hnone|]. intros c Hc. by apply not_true_iff_false.
Qed.

Lemma product_occurs p message :
  p ∈ PRODUCTS -> Occurs (s2l p) (low (normalize message)) -> False.
Proof.
  intros Hp.
  assert (Hb : plain_ok (s2l p) = true).
  { unfold PRODUCTS in Hp. rewrite !elem_of_cons in Hp.
    repeat (destruct Hp as [->|Hp]; [vm_compute; reflexivity|]). by apply not_elem_of_nil in Hp. }
  apply plain_ok_spec in Hb as (Hpl & Hret & _).
  assert (Hfix : forall t, t ∈ RETURNED -> ~ Occurs (s2l p) (low t)).
  { intros t Hin. apply not_occurs_fixed. rewrite forallb_forall in Hret.
    apply negb_true_iff, Hret. by apply list_elem_of_In. }
  unfold normalize_error_message. cbv zeta.
  repeat match goal with |- context [if ?b then _ else _] => destruct b end;
    try (by apply redact_absent); try (intros H; by apply Hfix in H; [|set_solver]).
  apply context_error_occurs; [done| |].
  - intros model _ Hred. rewrite <- Hred. by apply redact_absent.
  - rewrite forallb_forall in Hret.
    assert (Hx := Hret "prompt is too long: context length exceeded" ltac:(cbn; auto)).
    by apply negb_true_iff in Hx.
Qed.

(** No text a client receives names the upstream products, in any mix of cases. *)
Theorem products_never_named message p :
  p ∈ PRODUCTS -> contains (to_ascii_lowercase (sanitize message)) p = false.
Proof.
  intros Hp. apply not_true_iff_false. intros H%contains_spec.
  unfold to_ascii_lowercase in H. rewrite s2l_l2s in H. apply (product_occurs p message Hp).
  assert (Hb : plain_ok (s2l p) && separate (s2l p) [" "%char] = true).
  { unfold PRODUCTS in Hp. rewrite !elem_of_cons in Hp.
    repeat (destruct Hp as [->|Hp]; [vm_compute; reflexivity|]). by apply not_elem_of_nil in Hp. }
  apply andb_true_iff in Hb as [(Hpl & _ & Hell)%plain_ok_spec Hspace].
  apply sanitize_occurs in H; [|done|apply Hpl].
  apply (Replaces_occurs_lower _ [" "%char]) with (s := concat (take 1024 (chars (normalize message))))
    in H; [|done|apply blanked_Replaces].
  by apply taken_occurs in H.
Qed.

(** The text a client receives has at most 1025 characters and no control character. *)
Lemma sanitize_bounded message :
  exists cs, s2l (sanitize message) = concat cs /\ length cs <= 1025
    /\ Forall (fun c => char_is_control c = false) cs.
Proof.
  unfold sanitize_error_message. rewrite s2l_l2s. set (cs := chars (normalize message)).
  assert (Hc : Forall (fun c => char_is_control c = false) (blank_control <$> take 1024 cs)).
  { apply Forall_fmap, Forall_true. intros c. cbn. unfold blank_control.
    by destruct (char_is_control c) eqn:E. }
  destruct (is_nil (drop 1024 cs)).
  - exists (blank_control <$> take 1024 cs). split_and!; [done| |done].
    rewrite length_fmap, length_take. lia.
  - exists ((blank_control <$> take 1024 cs) ++ [ELLIPSIS]). split_and!.
    + by rewrite concat_app.
    + rewrite length_app, length_fmap, length_take. cbn [length]. lia.
    + apply Forall_app. split; [done|]. by repeat constructor.
Qed.
End Sanitizing.

(** ** The text as the code has it *)

(** An engine for one literal endpoint. *)
Definition demo_endpoints (s : string) : string :=
  replace_ascii_case_insensitive s "runtime.us-east-1.kiro.dev" "upstream".

Lemma demo_endpoints_replaced s : Replaces (s2l "upstream") (s2l s) (s2l (demo_endpoints s)).
Proof. unfold demo_endpoints, replace_ascii_case_insensitive. rewrite s2l_l2s. apply ci_Replaces. Qed.

Lemma ban_phrases_never_shown_witness :
  let message := "Quota: your ACCOUNT IS DISABLED" in
  contains (to_ascii_lowercase (normalize_error_message (fun s => s) demo_endpoints message)) "account is disabled"
  = false.
Proof.
  apply (ban_phrases_never_shown (fun s => s) demo_endpoints demo_endpoints_replaced).
  - unfold BAN_TRIGGER_PHRASES. set_solver.
  - by left.
Defined.

Lemma products_never_named_witness :
  contains (to_ascii_lowercase (sanitize_error_message (fun s => s) demo_endpoints
    "429 from runtime.us-east-1.kiro.dev by codeWhisperer")) "codewhisperer" = false.
Proof.
  apply (products_never_named (fun s => s) demo_endpoints demo_endpoints_replaced).
  unfold PRODUCTS. set_solver.
Defined.

(** The check for ban phrases runs before control characters are blanked, so a phrase broken by a
    line feed is not found and is then put together. *)
Example ban_phrase_behind_line_feed :
  sanitize_error_message (fun s => s) demo_endpoints ("account" +:+ newline +:+ "disabled")
  = "account disabled".
Proof. vm_compute. reflexivity. Qed.

(** And the word that replaces a product can complete a phrase. *)
Example ban_phrase_from_replacement :
  sanitize_error_message (fun s => s) demo_endpoints
    "CodeWhispererhis organization has been disabled"
  = "endpointhis organization has been disabled".
Proof. vm_compute. reflexivity. Qed.
