(* ===== verification/Gateway.v ===== *)
(** * Admission of a request and the choice of its provider

    [kproxyd/src/http/handlers.rs] (authentication, the client check, the errors
    of the handlers) and [http/handlers/provider_gateway.rs].  The headers of a
    request are a function from names to values; the JSON parser and printer, the
    clock, the time zone and the weighted draw are arguments. *)

From Stdlib Require Import ZArith Lia Ascii String.
From stdpp Require Import base list gmap strings.
From S2P Require Import Prelude RustStr F64 Json Text Account Model Meter Config Errors.

Local Open Scope kproxy_scope.
Local Open Scope string_scope.
Local Open Scope list_scope.

(** ** Errors *)

(** [ApiError]; the fields that describe upstream attempts are filled in by the
    dispatch and are left out. *)
Record ApiError := {
  e_status : Z;
  e_message : string;
  e_format : ErrorFormat;
  e_allow : option string;
  e_authenticate : bool;
  e_retry_after : bool;
  e_suppress_model_stats : bool;
  e_request_id : option string;
  e_provider_id : string;
  e_code : string;
  e_stage : string;
}.

Definition BAD_REQUEST : Z := 400.
Definition UNAUTHORIZED : Z := 401.
Definition FORBIDDEN : Z := 403.
Definition METHOD_NOT_ALLOWED : Z := 405.
Definition PAYLOAD_TOO_LARGE : Z := 413.
Definition TOO_MANY_REQUESTS : Z := 429.
Definition INTERNAL_SERVER_ERROR : Z := 500.
Definition BAD_GATEWAY : Z := 502.
Definition SERVICE_UNAVAILABLE : Z := 503.

Definition is_tool_budget_error (lower : string) : bool :=
  contains_any lower ["too many tools"; "too many loaded tools"; "tool definitions are too large";
                      "tool definitions exceed"; "tool definition exceeds";
                      "tool documentation exceeds"; "tool search working set is too large";
                      "loaded tools are too large"; "tool schema payload too large"].

Definition is_payload_budget_error (lower : string) : bool :=
  contains_any lower ["payload too large"; "payload is too large"; "request too large";
                      "request entity too large"].

Definition classify_api_error (status : Z) (message : string) : string * string :=
  let lower := to_ascii_lowercase message in
  let capacity_error := contains_any lower ["too many"; "too large"; "exceed"] in
  if contains_any lower ["prompt is too long"; "context length"]
  then ("context_length_exceeded", "context_validation")
  else if contains_any lower ["not supported"; "unsupported"]
          && contains_any lower ["tool"; "strict"; "allowed_callers"; "eager"]
  then ("unsupported_tool_protocol", "request_validation")
  else if (status =? PAYLOAD_TOO_LARGE)%Z && contains lower "request body"
  then ("request_body_too_large", "request_body")
  else if capacity_error && contains_any lower ["catalog"; "deferred tool"]
  then ("tool_catalog_too_large", "request_budget")
  else if is_tool_budget_error lower then ("tool_budget_exceeded", "request_budget")
  else if is_payload_budget_error lower then ("request_payload_exceeded", "request_budget")
  else if (status =? PAYLOAD_TOO_LARGE)%Z then ("request_payload_exceeded", "request_budget")
  else if (status =? BAD_REQUEST)%Z && contains lower "tool"
  then ("invalid_tool_protocol", "request_validation")
  else if (status =? TOO_MANY_REQUESTS)%Z then ("upstream_rate_limited", "upstream_dispatch")
  else if (status =? INTERNAL_SERVER_ERROR)%Z then ("proxy_internal_error", "internal")
  else if (status =? BAD_GATEWAY)%Z || (status =? SERVICE_UNAVAILABLE)%Z
  then ("upstream_unavailable", "upstream_dispatch")
  else ("invalid_request", "request_validation").

(** [ApiError::new]. *)
Definition api_error (status : Z) (message : string) (format : ErrorFormat) : ApiError :=
  let '(code, stage) := classify_api_error status message in
  {| e_status := status; e_message := message; e_format := format; e_allow := None;
     e_authenticate := false; e_retry_after := false; e_suppress_model_stats := false;
     e_request_id := None; e_provider_id := ""; e_code := code; e_stage := stage |}.

Definition with_retry_after (e : ApiError) : ApiError :=
  {| e_status := e_status e; e_message := e_message e; e_format := e_format e;
     e_allow := e_allow e; e_authenticate := e_authenticate e; e_retry_after := true;
     e_suppress_model_stats := e_suppress_model_stats e; e_request_id := e_request_id e;
     e_provider_id := e_provider_id e; e_code := e_code e; e_stage := e_stage e |}.

Definition overloaded (format : ErrorFormat) : ApiError :=
  with_retry_after (api_error SERVICE_UNAVAILABLE "server is overloaded, please retry" format).

Definition retryable (message : string) (format : ErrorFormat) : ApiError :=
  with_retry_after (api_error SERVICE_UNAVAILABLE message format).

Definition method_not_allowed (format : ErrorFormat) (allow : string) : ApiError :=
  let e := api_error METHOD_NOT_ALLOWED "method not allowed" format in
  {| e_status := e_status e; e_message := e_message e; e_format := e_format e;
     e_allow := Some allow; e_authenticate := e_authenticate e; e_retry_after := e_retry_after e;
     e_suppress_model_stats := e_suppress_model_stats e; e_request_id := e_request_id e;
     e_provider_id := e_provider_id e; e_code := e_code e; e_stage := e_stage e |}.

(** [error.authenticate = ..; error.suppress_model_stats = ..] on a new error. *)
Definition marked (authenticate suppress_model_stats : bool) (e : ApiError) : ApiError :=
  {| e_status := e_status e; e_message := e_message e; e_format := e_format e;
     e_allow := e_allow e; e_authenticate := authenticate; e_retry_after := e_retry_after e;
     e_suppress_model_stats := suppress_model_stats; e_request_id := e_request_id e;
     e_provider_id := e_provider_id e; e_code := e_code e; e_stage := e_stage e |}.

Definition with_provider_id (provider_id : string) (e : ApiError) : ApiError :=
  {| e_status := e_status e; e_message := e_message e; e_format := e_format e;
     e_allow := e_allow e; e_authenticate := e_authenticate e; e_retry_after := e_retry_after e;
     e_suppress_model_stats := e_suppress_model_stats e; e_request_id := e_request_id e;
     e_provider_id := provider_id; e_code := e_code e; e_stage := e_stage e |}.

Definition with_provider_id_if_empty (provider_id : string) (e : ApiError) : ApiError :=
  if is_empty (e_provider_id e) then with_provider_id provider_id e else e.

Definition map_err {A} (f : ApiError -> ApiError) (r : result A ApiError) : result A ApiError :=
  match r with Ok a => Ok a | Err e => Err (f e) end.

(** ** Authentication *)

(** [HeaderValue::to_str]: visible ASCII and tabs. *)
Definition to_str (v : bytes) : option string :=
  if forallb (fun a => in_range 32 126 a || in_range 9 9 a) v then Some (l2s v) else None.

Definition Headers : Type := string -> option bytes.

Definition header_str (v : option bytes) : option string :=
  match v with Some v => to_str v | None => None end.

Definition presented_key (headers : Headers) : option string :=
  or_else (header_str (or_else (headers "x-api-key") (headers "anthropic-api-key")))
    (match header_str (headers "authorization") with
     | Some v => strip_prefix v "Bearer "
     | None => None
     end).

Definition invalid_key (format : ErrorFormat) : ApiError :=
  marked true true (api_error UNAUTHORIZED "invalid API key" format).

(** ** The client check *)

Definition is_claude_user_agent (v : string) : bool :=
  match strip_prefix v "claude-code/" with
  | Some version =>
      negb (is_empty version)
      && is_some_and (head (s2l version)) is_ascii_digit
      && forallb (fun c => is_ascii_alphanumeric c || is_char "." c || is_char "-" c || is_char "+" c)
           (s2l version)
  | None => starts_with v "claude-cli/" && contains v " (external," && ends_with v ")"
  end.

Definition CODEX_PRODUCTS : list string :=
  ["codex_cli_rs"; "codex_exec"; "codex_vscode"; "codex-tui"; "codex_cli"; "codex"; "Codex";
   "codex_desktop"; "codex_app"].

(** [rest.split_whitespace().next().unwrap_or_default()]. *)
Definition first_word (s : string) : string :=
  l2s (concat ((fix upto (cs : list bytes) : list bytes :=
                  match cs with
                  | c :: cs => if char_is_whitespace c then [] else c :: upto cs
                  | [] => []
                  end) (chars (l2s (trim_start_l (s2l s)))))).

Definition is_codex_user_agent (v : string) : bool :=
  match split_once v "/" with
  | None => false
  | Some (product, rest) =>
      let branded_codex :=
        is_some_and (strip_prefix product "Codex ") (fun suffix => negb (is_empty (trim suffix))) in
      if negb branded_codex && negb (mem product CODEX_PRODUCTS) then false
      else
        let version := first_word rest in
        is_some_and (head (s2l version)) is_ascii_digit
        && forallb (fun c => is_ascii_alphanumeric c || is_char "." c || is_char "-" c
                             || is_char "+" c || is_char "_" c) (s2l version)
  end.

Definition find_service (c : Config) (id : string) : option ProxyServiceConfig :=
  List.find (fun s => bool_decide (s_id s = id)) (proxy_service c).

Definition client_message (client : string) : string :=
  "Access denied. 本协议仅限 " +:+ client +:+ " 客户端使用，禁止通过其他方式接入。".

Definition enforce_client_user_agent (c : Config) (service : ProxyServiceConfig)
    (headers : Headers) (format : ErrorFormat) (key : option AuthenticatedApiKey) :
    result unit ApiError :=
  let service_bypass :=
    match find_service c (s_id service) with
    | Some current => s_skip_user_agent_check current
    | None => s_skip_user_agent_check service
    end in
  let policy :=
    resolve_user_agent_check_policy (enforce_user_agent_check (server c)) service_bypass
      (is_some_and key au_skip_user_agent_check) in
  if negb (policy_enforced policy) then Ok tt
  else
    let v := unwrap_or (header_str (headers "user-agent")) "" in
    let '(valid, client) :=
      match format with
      | Claude => (is_claude_user_agent v, "Claude Code")
      | OpenAi => (is_codex_user_agent v, "Codex")
      end in
    if valid then Ok tt
    else Err (marked false true (api_error BAD_REQUEST (client_message client) format)).

(** ** Providers *)

Definition find_provider (c : Config) (id : string) : option ProviderConfig :=
  List.find (fun p => bool_decide (p_id p = id)) (effective_providers c).

Definition is_provider (c : Config) (id : string) : bool :=
  existsb (fun p => bool_decide (p_id p = id)) (effective_providers c).

Definition authorize_provider (service : ProxyServiceConfig) (key : option AuthenticatedApiKey)
    (provider_id : string) (format : ErrorFormat) : result unit ApiError :=
  let service_allowed := allowed_providers_for_service service in
  let key_allowed :=
    match key with
    | None => service_allowed
    | Some key => effective_provider_scope (au_allowed_providers key)
    end in
  if negb (mem provider_id service_allowed) || negb (mem provider_id key_allowed)
  then Err (with_provider_id provider_id
              (api_error FORBIDDEN
                 ("provider " +:+ provider_id +:+ " is not allowed for this service and API key")
                 format))
  else Ok tt.

Definition model_is_allowed (allowed_models : list string) (provider_id model : string) : bool :=
  is_nil allowed_models
  || existsb (fun pattern => model_glob_matches pattern model
                             || model_glob_matches pattern (provider_id +:+ "/" +:+ model))
       allowed_models.

Definition authorize_model (key : option AuthenticatedApiKey) (provider_id model : string)
    (format : ErrorFormat) : result unit ApiError :=
  match key with
  | None => Ok tt
  | Some key =>
      if is_nil (au_allowed_models key) then Ok tt
      else if model_is_allowed (au_allowed_models key) provider_id model then Ok tt
      else Err (with_provider_id provider_id
                  (api_error FORBIDDEN
                     ("model " +:+ provider_id +:+ "/" +:+ model
                      +:+ " is not allowed for this API key") format))
  end.

(** A target that leads from [initial_provider] to another configured provider. *)
Definition leaves (c : Config) (initial_provider target : string) : bool :=
  match split_once target "/" with
  | Some (target_provider, _) =>
      negb (bool_decide (target_provider = initial_provider)) && is_provider c target_provider
  | None => false
  end.

Definition has_cross_provider_rule (c : Config) (initial_provider : string) : bool :=
  existsb (fun r =>
    r_enabled r
    && (match r_providers r with
        | [] => bool_decide (initial_provider = "kiro")
        | providers => mem initial_provider providers
        end)
    && existsb (leaves c initial_provider) (r_target_models r)) (model_mapping c).

(** The rule an index names can leave the provider. *)
Definition rule_can_leave (c : Config) (initial_provider : string) (index : option nat) : bool :=
  is_some_and (index ≫= fun i => model_mapping c !! i)
    (fun r => existsb (leaves c initial_provider) (r_target_models r)).

Record SelectedProviderRoute := {
  sr_provider_id : string;
  sr_provider_kind : string;
  sr_original_model : string;
  sr_upstream_model : string;
  sr_mapping_rule : option string;
  sr_lock_kiro_mapping : bool;
  sr_body : string;
}.

Definition plain_route (model : string) : ModelRoute :=
  {| route_original := model; route_mapped := model; route_rule := None;
     route_rule_index := None |}.

Section Routing.
Context (parse_json : string -> option value) (print_json : value -> result string string).
Context (now_ms : Z) (local_day_and_minutes : Z -> Z * Z) (weighted_index : list Z -> option nat).

Definition map_model_here : string -> list ModelMappingRule -> ModelMappingContext -> string ->
    ModelRoute :=
  map_model_for_provider now_ms local_day_and_minutes weighted_index.

Definition request_provider_hint (c : Config) (service : ProxyServiceConfig) (body : string) :
    string :=
  let model := parse_json body ≫= fun v => get_str v "model" in
  unwrap_or
    (opt_filter (is_provider c) (option_map fst (model ≫= fun model => split_once model "/")))
    (default_provider_for_service service).

Definition mapping_context (service : ProxyServiceConfig) (key : option AuthenticatedApiKey)
    (initial_provider : string) : ModelMappingContext :=
  {| c_provider_id := initial_provider; c_service_id := Some (s_id service);
     c_api_key_id := option_map au_id key; c_remaining_percent := None |}.

(** The mapping of the unqualified model, as far as it is done here. *)
Definition initial_route (c : Config) (service : ProxyServiceConfig)
    (key : option AuthenticatedApiKey) (p : ProviderConfig) (initial_provider model : string) :
    ModelRoute :=
  let context := mapping_context service key initial_provider in
  if bool_decide (p_kind p = "kiro") && has_cross_provider_rule c initial_provider then
    let candidate := map_model_here model (model_mapping c) context "" in
    if leaves c initial_provider (route_mapped candidate)
       || rule_can_leave c initial_provider (route_rule_index candidate)
    then candidate else plain_route model
  else if bool_decide (p_kind p = "kiro") then plain_route model
  else map_model_here model (model_mapping c) context (rt_default_model_id (p_routing p)).

Definition unknown_provider (format : ErrorFormat) (id : string) : ApiError :=
  with_provider_id id (api_error BAD_REQUEST ("unknown provider " +:+ id) format).

Definition disabled_provider (format : ErrorFormat) (p : ProviderConfig) (id : string) : ApiError :=
  with_provider_id id
    (api_error SERVICE_UNAVAILABLE ("provider " +:+ p_id p +:+ " is disabled") format).

(** The provider and model after a mapping that may name another provider. *)
Definition follow_route (c : Config) (service : ProxyServiceConfig)
    (key : option AuthenticatedApiKey) (format : ErrorFormat) (p : ProviderConfig)
    (initial_provider : string) (route : ModelRoute) : result (string * string) ApiError :=
  match split_once (route_mapped route) "/" with
  | Some (target_provider, target_model) =>
      if is_provider c target_provider then
        if negb (bool_decide (target_provider = initial_provider))
           && negb (allow_cross_provider_fallback (p_routing p))
        then Err (with_provider_id initial_provider
               (api_error BAD_REQUEST
                  ("model mapping " +:+ unwrap_or (route_rule route) "<unnamed>"
                   +:+ " crosses from " +:+ initial_provider +:+ " to " +:+ target_provider
                   +:+ " but cross-provider routing is disabled") format))
        else let? _ := authorize_provider service key target_provider format in
             Ok (target_provider, target_model)
      else Ok (initial_provider, route_mapped route)
  | None => Ok (initial_provider, route_mapped route)
  end.

(** The body as an object, with its model. *)
Definition request_model (service : ProxyServiceConfig) (body : string) (format : ErrorFormat) :
    result (list (string * value) * string) ApiError :=
  let default_provider := default_provider_for_service service in
  let refuse message :=
    Err (with_provider_id default_provider (api_error BAD_REQUEST message format)) in
  match parse_json body with
  | None => refuse "Invalid JSON in request body"
  | Some (Object m) =>
      match obj_get m "model" ≫= as_str with
      | None => refuse "model is required"
      | Some model =>
          let original_model := trim model in
          if is_empty original_model then refuse "model must not be empty"
          else Ok (m, original_model)
      end
  | Some _ => refuse "request body must be a JSON object"
  end.

Definition explicit_provider (c : Config) (model : string) : option (string * string) :=
  match split_once model "/" with
  | Some (prefix, model) => if is_provider c prefix then Some (prefix, model) else None
  | None => None
  end.

(** The last checks on the provider a route ends at, and the rewritten request. *)
Definition finish_route (c : Config) (key : option AuthenticatedApiKey) (format : ErrorFormat)
    (m : list (string * value)) (original_model initial_provider : string) (route : ModelRoute)
    (selected_provider upstream_model : string) : result SelectedProviderRoute ApiError :=
  match find_provider c selected_provider with
  | None => Err (unknown_provider format selected_provider)
  | Some selected =>
      let? _ :=
        if bool_decide (p_kind selected = "kiro") then Ok tt
        else authorize_model key selected_provider upstream_model format in
      if negb (p_enabled selected) then Err (disabled_provider format selected selected_provider)
      else
        let lock_kiro_mapping :=
          bool_decide (p_kind selected = "kiro")
          && (negb (bool_decide (selected_provider = initial_provider))
              || rule_can_leave c initial_provider (route_rule_index route)) in
        match print_json (Object (obj_insert "model" (Str upstream_model) m)) with
        | Err error =>
            Err (with_provider_id selected_provider
                   (api_error INTERNAL_SERVER_ERROR
                      ("failed to serialize routed request: " +:+ error) format))
        | Ok body =>
            match ProviderId_parse selected_provider with
            | Err error =>
                Err (with_provider_id selected_provider
                       (api_error INTERNAL_SERVER_ERROR (ProviderIdError_to_string error) format))
            | Ok provider_id =>
                Ok {| sr_provider_id := provider_id; sr_provider_kind := p_kind selected;
                      sr_original_model := original_model; sr_upstream_model := upstream_model;
                      sr_mapping_rule := route_rule route;
                      sr_lock_kiro_mapping := lock_kiro_mapping; sr_body := body |}
            end
        end
  end.

Definition select_provider_route (c : Config) (service : ProxyServiceConfig)
    (key : option AuthenticatedApiKey) (body : string) (format : ErrorFormat) :
    result SelectedProviderRoute ApiError :=
  let? (m, original_model) := request_model service body format in
  let '(initial_provider, unqualified_model) :=
    unwrap_or (explicit_provider c original_model)
      (default_provider_for_service service, original_model) in
  let? _ := authorize_provider service key initial_provider format in
  match find_provider c initial_provider with
  | None => Err (unknown_provider format initial_provider)
  | Some p =>
      if negb (p_enabled p) then Err (disabled_provider format p initial_provider) else
      let route := initial_route c service key p initial_provider unqualified_model in
      let? (selected_provider, upstream_model) :=
        follow_route c service key format p initial_provider route in
      finish_route c key format m original_model initial_provider route selected_provider
        upstream_model
  end.

(** ** The order of the checks *)

Section Admission.
(** The iteration order of the meter's keys. *)
Context (iter : forall A : Type, gmap string A -> list (string * A)).

Definition authenticate (m : Meter) (allowed_api_key_ids : gset string) (headers : Headers)
    (format : ErrorFormat) : result (option AuthenticatedApiKey) ApiError :=
  match Meter.authenticate iter m (presented_key headers) with
  | Err _ => Err (invalid_key format)
  | Ok key =>
      if negb (bool_decide (allowed_api_key_ids = ∅))
         && is_none_or key (fun key => negb (bool_decide (au_id key ∈ allowed_api_key_ids)))
      then Err (invalid_key format)
      else Ok key
  end.

(** [ServiceHttpState::allowed_api_key_ids], from [router_for_service]. *)
Definition allowed_api_key_ids (service : ProxyServiceConfig) (enforce_service_keys : bool) :
    gset string :=
  if enforce_service_keys then list_to_set (s_api_key_ids service) else ∅.

(** What [handle_claude], [handle_openai] and [count_tokens] do before they look at the request:
    the key, the client, the provider. *)
Definition admission (m : Meter) (c : Config) (service : ProxyServiceConfig)
    (enforce_service_keys : bool) (headers : Headers) (body : string) (format : ErrorFormat) :
    result (option AuthenticatedApiKey * SelectedProviderRoute) ApiError :=
  let provider_hint := request_provider_hint c service body in
  let? key := map_err (with_provider_id_if_empty provider_hint)
                (authenticate m (allowed_api_key_ids service enforce_service_keys) headers format) in
  let? _ := map_err (with_provider_id_if_empty provider_hint)
              (enforce_client_user_agent c service headers format key) in
  let? route := select_provider_route c service key body format in
  Ok (key, route).
End Admission.
End Routing.
