(* ===== verification/GatewayFacts.v ===== *)
(** * Admitted requests stay inside their scopes

    The composition of the meter, the configuration and the gateway: a request
    that is admitted carries the secret of an enabled key bound to its service,
    goes to a configured and enabled provider that both the service and the key
    allow, and is refused for the reasons the checks name and no other. *)

From Stdlib Require Import ZArith Lia Ascii String.
From stdpp Require Import base list gmap strings.
From S2P Require Import Prelude RustStr F64 Json Text Account Model ModelFacts Meter MeterFacts Config ConfigFacts Errors Gateway.

Local Open Scope kproxy_scope.
Local Open Scope string_scope.
Local Open Scope list_scope.

(** ** Lookups *)

Lemma find_Some_iff {A} (f : A -> bool) l x : List.find f l = Some x -> x ∈ l /\ f x = true.
Proof. intros H%List.find_some. by rewrite list_elem_of_In. Qed.

Lemma find_provider_Some c id p :
  find_provider c id = Some p -> p ∈ effective_providers c /\ p_id p = id.
Proof. unfold find_provider. by intros [H ?%bool_decide_eq_true]%find_Some_iff. Qed.

Lemma find_provider_known c id : id ∈ provider_ids c -> exists p, find_provider c id = Some p.
Proof.
  intros Hin. destruct (find_provider c id) as [p|] eqn:E; [eauto|]. exfalso.
  apply list_elem_of_fmap in Hin as (p & -> & Hp).
  apply List.find_none with (x := p) in E; [|by apply list_elem_of_In].
  by rewrite bool_decide_true in E.
Qed.

Lemma is_provider_spec c id : is_provider c id = true <-> id ∈ provider_ids c.
Proof.
  unfold is_provider, provider_ids. rewrite existsb_exists. setoid_rewrite <- list_elem_of_In.
  setoid_rewrite bool_decide_eq_true. rewrite list_elem_of_fmap. naive_solver.
Qed.

Lemma leaves_crosses c source target :
  leaves c source target = true <-> exists to, crosses c source target to.
Proof.
  unfold leaves, crosses. destruct (split_once target "/") as [[p m]|]; [|naive_solver].
  rewrite andb_true_iff, negb_true_iff, bool_decide_eq_false, is_provider_spec. naive_solver.
Qed.

Lemma allows_cross_find c p id :
  find_provider c id = Some p ->
  allows_cross_provider c id = allow_cross_provider_fallback (p_routing p).
Proof. unfold allows_cross_provider, find_provider. by intros ->. Qed.

(** ** Scopes *)

Definition key_scope (s : ProxyServiceConfig) (key : option AuthenticatedApiKey) : list string :=
  match key with
  | None => allowed_providers_for_service s
  | Some key => effective_provider_scope (au_allowed_providers key)
  end.

(** Both the service and the key allow the provider. *)
Definition authorized (s : ProxyServiceConfig) (key : option AuthenticatedApiKey) (id : string) :
    Prop := id ∈ allowed_providers_for_service s /\ id ∈ key_scope s key.

Lemma authorize_provider_spec s key id format :
  (authorize_provider s key id format = Ok tt /\ authorized s key id)
  \/ (exists e, authorize_provider s key id format = Err e /\ e_status e = FORBIDDEN
      /\ e_provider_id e = id /\ ~ authorized s key id).
Proof.
  unfold authorize_provider, authorized, key_scope, mem.
  set (scope := match key with None => _ | Some _ => _ end).
  case_bool_decide; cbn [negb orb]; [|right; eexists; split_and!; [done| | |tauto]].
  - case_bool_decide; cbn [negb]; [by left|right; eexists; split_and!; [done| | |tauto]];
      unfold api_error; by destruct (classify_api_error _ _).
  - unfold api_error; by destruct (classify_api_error _ _).
  - unfold api_error; by destruct (classify_api_error _ _).
Qed.

Lemma service_scope_known c s id :
  Valid c -> s ∈ proxy_service c -> id ∈ allowed_providers_for_service s -> id ∈ provider_ids c.
Proof.
  intros Hc Hs Hid. pose proof (v_services _ Hc) as Hv. rewrite list.Forall_forall in Hv.
  destruct (Hv s Hs) as [_ _ _ _ [_ Hscope] _ _ _ _ _ _ _ _].
  rewrite list.Forall_forall in Hscope. by apply Hscope.
Qed.

Lemma provider_id_parses c id :
  Valid c -> id ∈ provider_ids c -> ProviderId_parse id = Ok id.
Proof.
  intros Hc Hid. apply ProviderId_parse_ok. split; [done|].
  apply list_elem_of_fmap in Hid as (p & -> & Hp).
  destruct (v_providers _ Hc) as [_ Hall]. rewrite list.Forall_forall in Hall. by apply Hall.
Qed.

(** ** The route *)

Definition may_use_model (key : option AuthenticatedApiKey) (provider model : string) : Prop :=
  match key with
  | None => True
  | Some key => model_is_allowed (au_allowed_models key) provider model = true
  end.

Lemma authorize_model_spec key id model format :
  (authorize_model key id model format = Ok tt /\ may_use_model key id model)
  \/ (exists e, authorize_model key id model format = Err e /\ e_status e = FORBIDDEN
      /\ e_provider_id e = id /\ ~ may_use_model key id model).
Proof.
  unfold authorize_model, may_use_model. destruct key as [key|]; [|by left].
  destruct (is_nil (au_allowed_models key)) eqn:En.
  { left. split; [done|]. unfold model_is_allowed. by rewrite En. }
  destruct (model_is_allowed _ _ _); [by left|right]. eexists. split_and!; [done| | |done];
    unfold api_error; by destruct (classify_api_error _ _).
Qed.

(** Why a request is refused before it reaches a provider. *)
Inductive Refusal (c : Config) (s : ProxyServiceConfig) (key : option AuthenticatedApiKey)
    (body_error : option ApiError) : ApiError -> Prop :=
| R_body e : body_error = Some e -> e_status e = BAD_REQUEST -> Refusal c s key body_error e
| R_scope e : e_status e = FORBIDDEN -> ~ authorized s key (e_provider_id e) ->
    Refusal c s key body_error e
| R_model e model : e_status e = FORBIDDEN -> ~ may_use_model key (e_provider_id e) model ->
    Refusal c s key body_error e
| R_crossing e p : e_status e = BAD_REQUEST -> p ∈ effective_providers c ->
    p_id p = e_provider_id e -> allow_cross_provider_fallback (p_routing p) = false ->
    Refusal c s key body_error e
| R_disabled e p : e_status e = SERVICE_UNAVAILABLE -> p ∈ effective_providers c ->
    p_id p = e_provider_id e -> p_enabled p = false -> Refusal c s key body_error e.

Definition refusal_of {A} (r : result A ApiError) : option ApiError :=
  match r with Ok _ => None | Err e => Some e end.

Lemma status_with_provider id status message format :
  e_status (with_provider_id id (api_error status message format)) = status
  /\ e_provider_id (with_provider_id id (api_error status message format)) = id.
Proof. unfold api_error. by destruct (classify_api_error _ _). Qed.

Lemma request_model_err parse_json s body format e :
  request_model parse_json s body format = Err e -> e_status e = BAD_REQUEST.
Proof.
  unfold request_model.
  repeat match goal with |- context [match ?x with _ => _ end] => destruct x end;
    try done; intros [= <-]; apply status_with_provider.
Qed.

Section Routing.
Context (parse_json : string -> option value) (print_json : value -> result string string).
Context (now_ms : Z) (local : Z -> Z * Z) (weighted_index : list Z -> option nat).

Notation select := (select_provider_route parse_json print_json now_ms local weighted_index).
Notation initial := (initial_route now_ms local weighted_index).

Lemma follow_route_spec c s key format p initial_provider route :
  match follow_route c s key format p initial_provider route with
  | Ok (id, model) =>
      (id = initial_provider \/ authorized s key id /\ id ∈ provider_ids c)
      /\ (id <> initial_provider -> allow_cross_provider_fallback (p_routing p) = true)
  | Err e =>
      (e_status e = FORBIDDEN /\ ~ authorized s key (e_provider_id e))
      \/ (e_status e = BAD_REQUEST /\ e_provider_id e = initial_provider
          /\ allow_cross_provider_fallback (p_routing p) = false
          /\ leaves c initial_provider (route_mapped route) = true)
  end.
Proof.
  unfold follow_route, leaves. destruct (split_once (route_mapped route) "/") as [[id model]|];
    [|split; [by left|done]].
  destruct (is_provider c id) eqn:Hp; [|split; [by left|done]].
  destruct (negb (bool_decide (id = initial_provider))
            && negb (allow_cross_provider_fallback (p_routing p))) eqn:E.
  - apply andb_true_iff in E as [E1 E2]. right. rewrite E1. apply negb_true_iff in E2.
    split_and!; try done; apply status_with_provider.
  - destruct (authorize_provider_spec s key id format) as [[-> H]|(e & -> & He & Hid & H)]; cbn.
    + apply is_provider_spec in Hp. split; [by right|]. intros Hne.
      rewrite bool_decide_false in E by done. by apply negb_false_iff in E.
    + left. by rewrite Hid.
Qed.

Lemma finish_route_spec c key format m original first route id model e0 s :
  Valid c -> (forall v, exists text, print_json v = Ok text) -> id ∈ provider_ids c ->
  match finish_route print_json c key format m original first route id model with
  | Ok r =>
      (exists p, p ∈ effective_providers c /\ p_id p = id /\ p_enabled p = true
         /\ p_kind p = sr_provider_kind r
         /\ (p_kind p <> "kiro" -> may_use_model key id model))
      /\ sr_provider_id r = id /\ sr_upstream_model r = model /\ sr_original_model r = original
      /\ print_json (Object (obj_insert "model" (Str model) m)) = Ok (sr_body r)
  | Err e => Refusal c s key e0 e
  end.
Proof.
  intros Hc Hprint Hknown. unfold finish_route.
  destruct (find_provider_known c id Hknown) as [q Hq]. rewrite Hq.
  destruct (find_provider_Some _ _ _ Hq) as [Hqin Hqid].
  assert (Hmodel : match (if bool_decide (p_kind q = "kiro") then Ok tt
                          else authorize_model key id model format) with
    | Ok _ => p_kind q <> "kiro" -> may_use_model key id model
    | Err e => Refusal c s key e0 e end).
  { case_bool_decide; [done|].
    destruct (authorize_model_spec key id model format) as [[-> ?]|(e & -> & He & Heid & Hno)]; [done|].
    apply R_model with model; [done|by rewrite Heid]. }
  destruct (if bool_decide (p_kind q = "kiro") then Ok tt else authorize_model key id model format)
    as [[]|e]; cbn [result_bind]; [|done].
  destruct (p_enabled q) eqn:Henq; cbn [negb].
  2:{ apply R_disabled with q; try done. apply status_with_provider. }
  destruct (Hprint (Object (obj_insert "model" (Str model) m))) as [text Htext]. rewrite Htext.
  rewrite (provider_id_parses c id Hc Hknown). cbn. split_and!; try done. by exists q.
Qed.

Lemma request_model_ok s body format m original :
  request_model parse_json s body format = Ok (m, original) ->
  exists v, parse_json body = Some (Object m) /\ obj_get m "model" = Some (Str v)
            /\ trim v = original.
Proof.
  unfold request_model. destruct (parse_json body) as [[]|]; try done.
  destruct (obj_get m0 "model") as [v|] eqn:Hget; [|done]. cbn. destruct v; try done. cbn.
  destruct (is_empty (trim s0)); [done|]. intros [= -> <-]. by exists s0.
Qed.

(** The provider a request names, or the service's default, and the model without it. *)
Definition first_choice (c : Config) (s : ProxyServiceConfig) (original : string) : string * string :=
  unwrap_or (explicit_provider c original) (default_provider_for_service s, original).

(** The choice, on a configuration that validation accepted. *)
Lemma select_spec c s key body format :
  Valid c -> s ∈ proxy_service c -> (forall v, exists text, print_json v = Ok text) ->
  match select c s key body format with
  | Ok route =>
      (exists p, p ∈ effective_providers c /\ p_id p = sr_provider_id route /\ p_enabled p = true
         /\ p_kind p = sr_provider_kind route
         /\ (p_kind p <> "kiro" -> may_use_model key (sr_provider_id route) (sr_upstream_model route)))
      /\ authorized s key (sr_provider_id route)
      /\ (exists m v, parse_json body = Some (Object m) /\ obj_get m "model" = Some (Str v)
            /\ trim v = sr_original_model route
            /\ print_json (Object (obj_insert "model" (Str (sr_upstream_model route)) m))
               = Ok (sr_body route))
      /\ (let first := (first_choice c s (sr_original_model route)).1 in
          authorized s key first
          /\ (sr_provider_id route <> first -> allows_cross_provider c first = true))
  | Err e => Refusal c s key (refusal_of (request_model parse_json s body format)) e
  end.
Proof.
  intros Hc Hs Hprint. unfold select_provider_route.
  destruct (request_model parse_json s body format) as [[m original]|e] eqn:Hbody;
    cbn [result_bind refusal_of]; [|apply R_body; [done|by eapply request_model_err]].
  destruct (request_model_ok _ _ _ _ _ Hbody) as (v & Hparse & Hget & Htrim).
  fold (first_choice c s original). destruct (first_choice c s original) as [first unqualified] eqn:Hfirst.
  destruct (authorize_provider_spec s key first format) as [[-> Hauth]|(e & -> & He & Hid & H)];
    cbn [result_bind]; [|apply R_scope; [done|by rewrite Hid]].
  assert (Hknown := service_scope_known c s first Hc Hs (proj1 Hauth)).
  destruct (find_provider_known c first Hknown) as [p Hp]. rewrite Hp.
  destruct (find_provider_Some _ _ _ Hp) as [Hpin Hpid].
  destruct (p_enabled p) eqn:Hen; cbn [negb].
  2:{ apply R_disabled with p; try done. apply status_with_provider. }
  set (route := initial c s key p first unqualified).
  assert (Hroute := follow_route_spec c s key format p first route).
  destruct (follow_route c s key format p first route) as [[id model]|e]; cbn [result_bind].
  2:{ destruct Hroute as [[He H]|(He & Hid & Hallow & _)]; [by apply R_scope|].
      apply R_crossing with p; try done. by rewrite Hid. }
  destruct Hroute as [Hid Hcross].
  assert (Hauth' : authorized s key id) by (by destruct Hid as [->|[? _]]).
  assert (Hend := finish_route_spec c key format m original first route id model None s Hc Hprint
                    (service_scope_known c s id Hc Hs (proj1 Hauth'))).
  destruct (finish_route _ _ _ _ _ _ _ _ _ _) as [r|e]; [|done].
  destruct Hend as (Hq & Hrid & Hrm & Hro & Hrb). rewrite Hrid, Hrm, Hro, Hfirst. cbn.
  split_and!; try done.
  - by exists m, v.
  - intros Hne. rewrite (allows_cross_find c p first Hp). by apply Hcross.
Qed.
End Routing.

(** ** Admission *)

Lemma find_service_self c s :
  Valid c -> s ∈ proxy_service c -> find_service c (s_id s) = Some s.
Proof.
  intros Hc Hs. assert (Hnd := v_service_ids _ Hc). unfold find_service.
  induction (proxy_service c) as [|t l IH]; [by apply not_elem_of_nil in Hs|].
  cbn. rewrite fmap_cons, NoDup_cons in Hnd. destruct Hnd as [Hnin Hnd].
  apply elem_of_cons in Hs as [->|Hs]; [by rewrite bool_decide_true|].
  rewrite bool_decide_false; [by apply IH|]. intros E. apply Hnin. rewrite E.
  by apply list_elem_of_fmap_2.
Qed.

(** The client that the format of a request is for. *)
Definition named_client (headers : Headers) (format : ErrorFormat) : bool :=
  let agent := unwrap_or (header_str (headers "user-agent")) "" in
  match format with Claude => is_claude_user_agent agent | OpenAi => is_codex_user_agent agent end.

(** The check of clients is on: the server asks for it, and neither the service nor
    the key is exempt. *)
Definition client_checked (c : Config) (s : ProxyServiceConfig) (key : option AuthenticatedApiKey) : bool :=
  enforce_user_agent_check (server c) && negb (s_skip_user_agent_check s)
  && negb (is_some_and key au_skip_user_agent_check).

Lemma client_check_spec c s headers format key :
  Valid c -> s ∈ proxy_service c ->
  match enforce_client_user_agent c s headers format key with
  | Ok _ => client_checked c s key = true -> named_client headers format = true
  | Err e => e_status e = BAD_REQUEST /\ client_checked c s key = true /\ named_client headers format = false
  end.
Proof.
  intros Hc Hs. unfold enforce_client_user_agent, client_checked, named_client.
  rewrite (find_service_self c s Hc Hs).
  set (policy := resolve_user_agent_check_policy _ _ _).
  assert (policy_enforced policy = enforce_user_agent_check (server c) && negb (s_skip_user_agent_check s)
            && negb (is_some_and key au_skip_user_agent_check)) as <-.
  { unfold policy, resolve_user_agent_check_policy.
    by destruct (enforce_user_agent_check _), (s_skip_user_agent_check s), (is_some_and _ _). }
  destruct (policy_enforced policy); cbn [negb]; [|done].
  destruct format; cbn zeta iota beta;
    (destruct (_ (unwrap_or _ _)); [done|split; [|done]; unfold api_error; by destruct (classify_api_error _ _)]).
Qed.

Lemma collect_keys_config (sha256 : string -> list ascii) usage configs id k :
  collect_keys sha256 usage configs !! id = Some k ->
  ks_config k ∈ configs /\ ks_id k = config_id sha256 (ks_config k).
Proof.
  unfold collect_keys. set (step := fun m c => _).
  enough (H : forall l m, (forall id k, m !! id = Some k -> ks_config k ∈ l ++ configs
                /\ ks_id k = config_id sha256 (ks_config k)) ->
              forall id k, foldl step m configs !! id = Some k -> ks_config k ∈ l ++ configs
                /\ ks_id k = config_id sha256 (ks_config k)).
  { intros Hk. apply (H [] ∅) in Hk; [done|]. intros i x Hx. by rewrite lookup_empty in Hx. }
  clear id k. induction configs as [|c configs IH]; intros l m Hm; [done|].
  cbn [foldl]. rewrite cons_middle, app_assoc in *. apply IH.
  intros id k. unfold step. rewrite lookup_insert_Some. intros [[<- <-]|[_ Hk]]; [|by apply (Hm id)].
  cbn. set_solver.
Qed.

Section Admitting.
Context (sha256 : string -> list ascii).
Context (iter : forall A : Type, gmap string A -> list (string * A)).
Context (parse_json : string -> option value) (print_json : value -> result string string).
Context (now_ms : Z) (local : Z -> Z * Z) (weighted_index : list Z -> option nat).

Notation admission := (admission parse_json print_json now_ms local weighted_index iter).

(** The meter holds the keys of the configuration, under the identities they have. *)
Definition meter_of (c : Config) (m : Meter) : Prop :=
  forall id k, m_keys m !! id = Some k ->
    ks_config k ∈ api_key c /\ ks_id k = config_id sha256 (ks_config k).

(** A request is admitted with a key of its service. *)
Definition admitted_with (c : Config) (s : ProxyServiceConfig) (headers : Headers)
    (key : option AuthenticatedApiKey) : Prop :=
  exists au k, key = Some au /\ k ∈ api_key c /\ k_enabled k = true
    /\ presented_key headers = Some (k_key k) /\ au_id au = config_id sha256 k
    /\ au_id au ∈ s_api_key_ids s /\ au_allowed_providers au = k_allowed_providers k
    /\ au_allowed_models au = k_allowed_models k.

Lemma authenticate_service m c s headers format :
  (forall A (m : gmap string A), iter A m ≡ₚ map_to_list m) ->
  Valid c -> s ∈ proxy_service c -> meter_of c m ->
  match authenticate iter m (allowed_api_key_ids s true) headers format with
  | Ok key => admitted_with c s headers key
  | Err e => e = invalid_key format
  end.
Proof.
  intros Hiter Hc Hs Hm. unfold authenticate.
  assert (Hids : bool_decide (allowed_api_key_ids s true = ∅) = false).
  { apply bool_decide_eq_false. pose proof (v_services _ Hc) as Hv. rewrite list.Forall_forall in Hv.
    destruct (vv_keys _ _ (Hv s Hs)) as [Hne _]. cbn. destruct (s_api_key_ids s); [done|set_solver]. }
  rewrite Hids. cbn [negb andb].
  assert (H := authenticate_sound iter m (presented_key headers) Hiter).
  destruct (Meter.authenticate _ _ _) as [[au|]|e]; [|reflexivity|reflexivity].
  destruct H as (id & k & Hk & Hen & Hpres & Hid & Hprov & Hmod). cbn [is_none_or].
  destruct (Hm id k Hk) as [Hin Hks].
  destruct (bool_decide_reflect (au_id au ∈ allowed_api_key_ids s true)) as [Hbound|]; cbn [negb];
    [|reflexivity].
  exists au, (ks_config k). cbn in Hbound. rewrite elem_of_list_to_set in Hbound.
  split_and!; try done. congruence.
Qed.

(** The provider part of an admission. *)
Definition routed (c : Config) (s : ProxyServiceConfig) (key : option AuthenticatedApiKey)
    (route : SelectedProviderRoute) : Prop :=
  (exists p, p ∈ effective_providers c /\ p_id p = sr_provider_id route /\ p_enabled p = true
     /\ p_kind p = sr_provider_kind route
     /\ (p_kind p <> "kiro" -> may_use_model key (sr_provider_id route) (sr_upstream_model route)))
  /\ authorized s key (sr_provider_id route)
  /\ (let first := (first_choice c s (sr_original_model route)).1 in
      authorized s key first
      /\ (sr_provider_id route <> first -> allows_cross_provider c first = true)).

(** C23: Under a valid configuration a service lets a request through only with the secret of an
    enabled key that is bound to the service, and from the client that its format is for, unless the
    check of clients is off or the service or the key is exempt; and it sends the request to a
    configured, enabled provider that both the service and that key allow.  It leaves the provider
    the request names, or the default one, only if that provider allows it.  A model of an adapter
    is one the key may use (a model of Kiro is checked later, by the dispatch).  Every refusal is one
    of: a wrong key (401), a wrong client while clients are checked (400), a malformed body (400), a
    provider or model out of scope (403), a crossing that is not allowed (400), a disabled provider
    (503); there is no unknown provider and no internal error. *)
Theorem admission_spec m c s headers body format :
  (forall A (m : gmap string A), iter A m ≡ₚ map_to_list m) ->
  (forall v, exists text, print_json v = Ok text) ->
  Valid c -> s ∈ proxy_service c -> meter_of c m ->
  match admission m c s true headers body format with
  | Ok (key, route) =>
      admitted_with c s headers key
      /\ (client_checked c s key = true -> named_client headers format = true)
      /\ routed c s key route
  | Err e =>
      e_status e = UNAUTHORIZED
      \/ (exists key, admitted_with c s headers key
          /\ ((e_status e = BAD_REQUEST /\ client_checked c s key = true
               /\ named_client headers format = false)
              \/ Refusal c s key (refusal_of (request_model parse_json s body format)) e))
  end.
Proof.
  intros Hiter Hprint Hc Hs Hm. unfold Gateway.admission.
  assert (Ha := authenticate_service m c s headers format Hiter Hc Hs Hm).
  destruct (authenticate _ _ _ _ _) as [key|e]; cbn [map_err result_bind].
  2:{ left. subst e. unfold with_provider_id_if_empty, invalid_key, api_error.
      destruct (classify_api_error _ _). cbn. done. }
  assert (Hua := client_check_spec c s headers format key Hc Hs).
  destruct (enforce_client_user_agent c s headers format key) as [[]|e]; cbn [map_err result_bind].
  2:{ right. exists key. split; [done|left]. destruct Hua as [Hst Hpol]. split; [|done].
      unfold with_provider_id_if_empty. by destruct (is_empty _). }
  assert (Hr := select_spec parse_json print_json now_ms local weighted_index c s key body format Hc Hs Hprint).
  destruct (select_provider_route _ _ _ _ _ _ _ _ _ _) as [route|e]; cbn [result_bind].
  - split; [done|]. split; [done|]. destruct Hr as (H1 & H2 & _ & H3). exact (conj H1 (conj H2 H3)).
  - right. exists key. split; [done|by right].
Qed.
End Admitting.

(** ** A configuration with two providers *)

Definition demo_copilot (allow_cross : bool) (default_model : string) : ProviderConfig :=
  {| p_id := "copilot"; p_kind := "copilot"; p_enabled := true; p_settings := [];
     p_pool := {| pp_max_concurrent_per_account := 0 |};
     p_models := {| pm_cache_ttl_ms := 1; pm_max_stale_ms := 2 |};
     p_routing := {| rt_default_model_id := default_model; rt_enable_model_fallback := false;
                     allow_cross_provider_fallback := allow_cross |} |}.

Definition demo_api_key : ApiKeyConfig :=
  {| k_id := Some "ak_1"; k_name := "main"; k_key := "sk-1"; k_format := Sk; k_enabled := true;
     k_skip_user_agent_check := true; k_credits_limit := None;
     k_allowed_providers := ["kiro"; "copilot"]; k_allowed_models := ["gpt-*"] |}.

Definition demo_service : ProxyServiceConfig :=
  {| s_id := "svc"; s_name := "svc"; s_host := "0.0.0.0"; s_port := 5580; s_enabled := true;
     s_skip_user_agent_check := false; s_api_key_ids := ["ak_1"]; s_account_tag := None;
     s_account_ids := []; s_excluded_account_ids := []; s_default_provider := "copilot";
     s_allowed_providers := ["kiro"; "copilot"]; s_created_at := 0 |}.

Definition demo_rule (providers : list string) (target : string) : ModelMappingRule :=
  {| r_name := "rule"; r_enabled := true; r_kind := "replace"; r_source_models := ["claude-*"];
     r_target_models := [target]; r_providers := providers; r_service_ids := [];
     r_priority := 0; r_weights := None; r_max_remaining_credit_percent := None;
     r_api_key_ids := None; r_schedule := None |}.

Definition demo_config (copilot : ProviderConfig) (rules : list ModelMappingRule) : Config :=
  let c := Config_default None None in
  {| server := server c; upstream := upstream c; pool := pool c; features := features c;
     models := models c; tasks := tasks c; context := context c; storage := storage c;
     notify := notify c; log := log c; admin_socket := admin_socket c;
     sso_start_url := sso_start_url c;
     provider := [ProviderConfig_default; copilot]; model_mapping := rules; webhook := [];
     api_key := [demo_api_key]; proxy_service := [demo_service];
     model_thinking_mode := [] |}.

Definition demo_body (model : string) (_ : string) : option value :=
  Some (Object [("model", Str model)]).

Definition demo_print (v : value) : result string string :=
  Ok (unwrap_or (get_str v "model") "").

Definition demo_headers (name : string) : option bytes :=
  if bool_decide (name = "authorization") then Some (s2l "Bearer sk-1") else None.

Definition demo_meter_of (c : Config) : Meter :=
  with_keys demo_meter (collect_keys (fun _ => []) (fun _ => ApiKeyUsage_default) (api_key c)).

Definition demo_admit (c : Config) (model : string) :
    result (option AuthenticatedApiKey * SelectedProviderRoute) ApiError :=
  admission (demo_body model) demo_print 0 (fun _ => (0%Z, 0%Z)) (fun _ => Some 0)
    (fun A m => map_to_list m) (demo_meter_of c) c demo_service true demo_headers "{}" Claude.

Definition demo_plain : Config := demo_config (demo_copilot false "") [].

Lemma demo_plain_valid : Valid demo_plain.
Proof. apply validate_spec. vm_compute. reflexivity. Qed.

Lemma admission_spec_witness :
  exists key route, demo_admit demo_plain "gpt-5" = Ok (key, route)
    /\ sr_provider_id route = "copilot"
    /\ admitted_with (fun _ => []) demo_plain demo_service demo_headers key
    /\ routed demo_plain demo_service key route.
Proof.
  assert (H := admission_spec (fun _ => []) (fun A m => map_to_list m) (demo_body "gpt-5") demo_print 0
    (fun _ => (0%Z, 0%Z)) (fun _ => Some 0) (demo_meter_of demo_plain) demo_plain demo_service
    demo_headers "{}" Claude (fun A m => reflexivity _) (fun v => ex_intro _ _ eq_refl)
    demo_plain_valid ltac:(by left)
    (fun id k Hk => collect_keys_config (fun _ => []) _ _ id k Hk)).
  eassert (E : demo_admit demo_plain "gpt-5" = Ok (_, _)) by (vm_compute; reflexivity).
  unfold demo_admit in E. rewrite E in H. destruct H as (Hk & _ & Hr). eexists _, _. split; [exact E|].
  split; [reflexivity|]. split; [exact Hk|exact Hr].
Defined.

(** A target with two prefixes passes validation, since the first names its own provider; once that
    prefix is taken off, the second crosses to another provider and every request of the rule is
    refused. *)
Example nested_target_refused :
  let c := demo_config (demo_copilot false "") [demo_rule ["copilot"] "copilot/kiro/claude-x"] in
  Valid c /\ exists e, demo_admit c "claude-4" = Err e /\ e_status e = BAD_REQUEST
    /\ e_message e = "model mapping rule crosses from copilot to kiro but cross-provider routing is disabled".
Proof.
  split; [apply validate_spec; vm_compute; reflexivity|]. vm_compute. eauto.
Qed.

(** The default model of a provider is not validated: one with another provider's prefix makes every
    request without a mapping fail. *)
Example crossing_default_model_refused :
  let c := demo_config (demo_copilot false "kiro/claude-x") [] in
  Valid c /\ exists e, demo_admit c "gpt-5" = Err e /\ e_status e = BAD_REQUEST
    /\ e_message e = "model mapping <unnamed> crosses from copilot to kiro but cross-provider routing is disabled".
Proof.
  split; [apply validate_spec; vm_compute; reflexivity|]. vm_compute. eauto.
Qed.
