(* ===== verification/StopFilter.v ===== *)
(** * Stop sequences in a streamed answer

    [StopSequenceFilter] and [CompiledStopSequence] of
    [kproxyd/src/http/response.rs]: a matcher of Knuth, Morris and Pratt for each
    stop sequence, fed one byte at a time, and the buffer of text that may still
    turn out to begin one.  A [String] is its bytes.  [None] is a panic: an index
    out of range or a slice that does not start on a character boundary.

    The theorem compares the filter with [cut], which looks at the whole answer at
    once. *)

From Stdlib Require Import ZArith Lia List Bool Ascii String.
From stdpp Require Import base list sets tactics.
From S2P Require Import Prelude RustStr EventStream.

Local Open Scope string_scope.
Local Open Scope list_scope.
Local Open Scope nat_scope.

(** ** Compiled sequences *)

Record CompiledStopSequence := { value : bytes; failure : list nat; state : nat }.

(** [while state > 0 && byte != bytes[state] { state = failure[state - 1]; }] *)
Fixpoint fall_back (fuel : nat) (bytes : bytes) (failure : list nat) (byte : ascii) (state : nat) :
    option nat :=
  match state with
  | O => Some 0
  | S previous =>
      match bytes !! state with
      | None => None
      | Some b =>
          if bool_decide (byte = b) then Some state
          else
            match fuel with
            | O => None
            | S fuel =>
                match failure !! previous with
                | Some state => fall_back fuel bytes failure byte state
                | None => None
                end
            end
      end
  end.

(** The loop and [if byte == bytes[state] { state += 1; }] after it. *)
Definition next_state (bytes : bytes) (failure : list nat) (state : nat) (byte : ascii) : option nat :=
  match fall_back state bytes failure byte state with
  | Some state =>
      match bytes !! state with
      | Some b => Some (if bool_decide (byte = b) then S state else state)
      | None => None
      end
  | None => None
  end.

Definition failure_step (bytes : bytes) (table : list nat) (prefix index : nat) :
    option (list nat * nat) :=
  match bytes !! index with
  | Some byte =>
      match next_state bytes table prefix byte with
      | Some prefix => Some (<[index := prefix]> table, prefix)
      | None => None
      end
  | None => None
  end.

Fixpoint failure_loop (bytes : bytes) (indices : list nat) (table : list nat) (prefix : nat) :
    option (list nat) :=
  match indices with
  | [] => Some table
  | index :: indices =>
      match failure_step bytes table prefix index with
      | Some (table, prefix) => failure_loop bytes indices table prefix
      | None => None
      end
  end.

Definition compile (v : bytes) : option CompiledStopSequence :=
  match failure_loop v (seq 1 (length v - 1)) (replicate (length v) 0) 0 with
  | Some table => Some {| value := v; failure := table; state := 0 |}
  | None => None
  end.

Definition advance (s : CompiledStopSequence) (byte : ascii) : option (bool * CompiledStopSequence) :=
  match next_state (value s) (failure s) (state s) byte with
  | Some n =>
      Some (n =? length (value s), {| value := value s; failure := failure s; state := n |})
  | None => None
  end.

Definition reset (s : CompiledStopSequence) : CompiledStopSequence :=
  {| value := value s; failure := failure s; state := 0 |}.

(** ** The filter *)

Record StopSequenceFilter := {
  sequences : list CompiledStopSequence;
  pending : bytes;
  matched : option bytes;
  visible_bytes : Z;
}.

(** [compiled] so far, to which the sequences that are new are added. *)
Fixpoint compile_all (compiled : list CompiledStopSequence) (l : list bytes) :
    option (list CompiledStopSequence) :=
  match l with
  | [] => Some compiled
  | sequence :: l =>
      if existsb (fun candidate => bool_decide (value candidate = sequence)) compiled
      then compile_all compiled l
      else
        match compile sequence with
        | Some s => compile_all (compiled ++ [s]) l
        | None => None
        end
  end.

Definition non_empty (l : list bytes) : list bytes := List.filter (fun s => negb (is_nil s)) l.

Definition new (l : list bytes) : option StopSequenceFilter :=
  match compile_all [] (non_empty l) with
  | Some compiled =>
      Some {| sequences := compiled; pending := []; matched := None; visible_bytes := 0 |}
  | None => None
  end.

(** [iter_mut().enumerate().find_map(..)]: the sequences behind a match do not
    advance. *)
Fixpoint find_match (l : list CompiledStopSequence) (byte : ascii) :
    option (option nat * list CompiledStopSequence) :=
  match l with
  | [] => Some (None, [])
  | s :: l =>
      match advance s byte with
      | None => None
      | Some (true, s) => Some (Some 0, s :: l)
      | Some (false, s) =>
          match find_match l byte with
          | Some (hit, l) => Some (S <$> hit, s :: l)
          | None => None
          end
      end
  end.

(** The loop over the bytes: the offset and the index of the first match. *)
Fixpoint scan (l : list CompiledStopSequence) (offset : nat) (text : bytes) :
    option (option (nat * nat) * list CompiledStopSequence) :=
  match text with
  | [] => Some (None, l)
  | byte :: text =>
      match find_match l byte with
      | Some (Some index, l) => Some (Some (offset, index), l)
      | Some (None, l) => scan l (S offset) text
      | None => None
      end
  end.

(** [&l[..n]] and [&l[n..]]. *)
Definition slice_to (l : bytes) (n : nat) : option bytes :=
  if is_char_boundary l n then Some (take n l) else None.

Definition slice_from (l : bytes) (n : nat) : option bytes :=
  if is_char_boundary l n then Some (drop n l) else None.

Definition count_visible (f : StopSequenceFilter) (visible : bytes) : Z :=
  sat_add USIZE_MAX (visible_bytes f) (Z.of_nat (length visible)).

Definition max_state (l : list CompiledStopSequence) : nat := max_list (state <$> l).

Definition push (f : StopSequenceFilter) (text : bytes) : option (bytes * StopSequenceFilter) :=
  if is_some (matched f) then Some ([], f)
  else if is_nil (sequences f) then
    Some (text, {| sequences := sequences f; pending := pending f; matched := matched f;
                   visible_bytes := count_visible f text |})
  else
    let pending' := pending f ++ text in
    match scan (sequences f) 0 text with
    | None => None
    | Some (Some (offset, index), l) =>
        match l !! index with
        | None => None
        | Some s =>
            let match_end := length (pending f) + offset + 1 in
            match slice_to pending' (match_end - length (value s)) with
            | None => None
            | Some visible =>
                Some (visible, {| sequences := l; pending := []; matched := Some (value s);
                                  visible_bytes := count_visible f visible |})
            end
        end
    | Some (None, l) =>
        let split := length pending' - max_state l in
        match slice_to pending' split, slice_from pending' split with
        | Some visible, Some rest =>
            Some (visible, {| sequences := l; pending := rest; matched := matched f;
                              visible_bytes := count_visible f visible |})
        | _, _ => None
        end
    end.

Definition finish (f : StopSequenceFilter) : bytes * StopSequenceFilter :=
  let l := reset <$> sequences f in
  if is_some (matched f) then
    ([], {| sequences := l; pending := []; matched := matched f; visible_bytes := visible_bytes f |})
  else
    (pending f, {| sequences := l; pending := []; matched := None;
                   visible_bytes := count_visible f (pending f) |}).

(** ** The answer as a whole *)

(** The first of the sequences with which the first [n] bytes end. *)
Definition stop_at (l : list bytes) (text : bytes) (n : nat) : option bytes :=
  List.find (fun p => bool_decide (p `suffix_of` take n text)) l.

(** The shortest part of the text that ends with a sequence. *)
Definition first_stop (l : list bytes) (text : bytes) : option (nat * bytes) :=
  find_map (fun n => (fun p => (n, p)) <$> stop_at l text n) (seq 0 (S (length text))).

(** The text in front of the first stop sequence to be complete, and that sequence. *)
Definition cut (l : list bytes) (text : bytes) : bytes * option bytes :=
  match first_stop l text with
  | Some (n, p) => (take (n - length p) text, Some p)
  | None => (text, None)
  end.

Fixpoint push_all (f : StopSequenceFilter) (chunks : list bytes) : option (bytes * StopSequenceFilter) :=
  match chunks with
  | [] => Some ([], f)
  | chunk :: chunks =>
      match push f chunk with
      | Some (out, f) =>
          match push_all f chunks with
          | Some (rest, f) => Some (out ++ rest, f)
          | None => None
          end
      | None => None
      end
  end.

(** ** Borders

    [Cand p t k]: the first [k] bytes of the sequence [p] end the text [t]. *)

Definition Cand (p t : bytes) (k : nat) : Prop := k <= length p /\ take k p `suffix_of` t.

Definition Longest (p t : bytes) (s : nat) : Prop := Cand p t s /\ forall k, Cand p t k -> k <= s.

Lemma cand_0 p t : Cand p t 0.
Proof. split; [lia|]. apply suffix_nil. Qed.

Lemma cand_length p t k : Cand p t k -> k <= length t.
Proof. intros [Hk H%suffix_length]. rewrite length_take in H. lia. Qed.

Lemma cand_snoc p t c k : Cand p (t ++ [c]) (S k) <-> Cand p t k /\ p !! k = Some c.
Proof.
  unfold Cand. split.
  - intros [Hk Hs]. destruct (lookup_lt_is_Some_2 p k) as [x Hx]; [lia|].
    rewrite (take_S_r _ _ _ Hx) in Hs. pose proof (suffix_snoc_inv_1 _ _ _ _ Hs) as ->.
    apply suffix_snoc_inv_2 in Hs. auto with lia.
  - intros [[Hk Hs] Hx]. pose proof (lookup_lt_Some _ _ _ Hx). split; [lia|].
    rewrite (take_S_r _ _ _ Hx). by apply suffix_snoc.
Qed.

Lemma suffix_tail (k t : bytes) : k `suffix_of` t -> length k < length t -> k `suffix_of` drop 1 t.
Proof.
  intros [u ->] Hl. rewrite length_app in Hl. destruct u as [|x u]; [cbn in Hl; lia|].
  exists u. done.
Qed.

Lemma suffix_shorter (k l t : bytes) :
  k `suffix_of` t -> l `suffix_of` t -> length k <= length l -> k `suffix_of` l.
Proof.
  intros [u ->] [v Hv] Hl.
  assert (length v <= length u) by (apply (f_equal length) in Hv; rewrite !length_app in Hv; lia).
  exists (drop (length v) u). apply (f_equal (drop (length v))) in Hv.
  rewrite drop_app_le in Hv by done. rewrite drop_app_length in Hv. done.
Qed.

(** Shorter candidates are those of the candidate's own text, less its first byte. *)
Lemma cand_below p t s k :
  Cand p t s -> k < s -> Cand p t k <-> Cand p (drop 1 (take s p)) k.
Proof.
  intros [Hs Hst] Hk. unfold Cand. split.
  - intros [Hl Hkt]. split; [done|]. apply suffix_tail; [|rewrite !length_take; lia].
    apply (suffix_shorter _ _ t); rewrite ?length_take; auto with lia.
  - intros [Hl Hkt]. split; [done|]. etrans; [exact Hkt|]. etrans; [|exact Hst].
    by apply suffix_drop.
Qed.

(** The first [n] entries of the table are the longest proper borders. *)
Definition Table (p : bytes) (f : list nat) (n : nat) : Prop :=
  forall i, i < n -> exists k, f !! i = Some k /\ Longest p (drop 1 (take (S i) p)) k.

(** [k] can be extended by [c]. *)
Definition Extends (p t : bytes) (c : ascii) (k : nat) : Prop := Cand p t k /\ p !! k = Some c.

Lemma fall_back_spec p f n t c fuel s :
  Table p f n -> s <= n -> s < length p -> s <= fuel -> Cand p t s ->
  (forall k, Extends p t c k -> k <= s) ->
  exists s', fall_back fuel p f c s = Some s' /\ s' <= s /\ Cand p t s'
             /\ (forall k, Extends p t c k -> k <= s') /\ (s' = 0 \/ p !! s' = Some c).
Proof.
  intros Hf. revert s; induction fuel as [|fuel IH]; intros [|s] Hn Hp Hfuel Hs Hmax; [|lia| |].
  1, 2: exists 0; cbn; eauto 6.
  cbn [fall_back]. destruct (lookup_lt_is_Some_2 p (S s) Hp) as [b Hb]. rewrite Hb.
  case_bool_decide as E; [subst b; exists (S s); eauto 6|].
  destruct (Hf s) as (k & Hk & Hc & Hkmax); [lia|]. rewrite Hk.
  pose proof (cand_length _ _ _ Hc) as Hl. rewrite length_drop, length_take in Hl.
  assert (Hkt : Cand p t k) by (apply (cand_below p t (S s)); auto with lia).
  destruct (IH k) as (s' & H1 & H2 & H3 & H4 & H5); [lia..|done| |].
  - intros j [Hj Hjc]. destruct (decide (j = S s)) as [->|Hne]; [congruence|].
    pose proof (Hmax j (conj Hj Hjc)). apply Hkmax. apply (cand_below p t (S s)); auto with lia.
  - exists s'. auto 6 with lia.
Qed.

(** A step of the automaton. *)
Lemma next_state_spec p f n t c s :
  Table p f n -> s <= n -> s < length p -> Longest p t s ->
  exists s', next_state p f s c = Some s' /\ Longest p (t ++ [c]) s'.
Proof.
  intros Hf Hn Hp [Hs Hmax].
  destruct (fall_back_spec p f n t c s s) as (k & Hk & Hks & Hc & Hbest & Hend); auto.
  { intros k [Hk _]. by apply Hmax. }
  unfold next_state. rewrite Hk. destruct (lookup_lt_is_Some_2 p k) as [b Hb]; [lia|]. rewrite Hb.
  case_bool_decide as E; [subst b; exists (S k)|exists k]; (split; [done|]); split.
  - by apply cand_snoc.
  - intros [|j] Hj; [lia|]. apply cand_snoc in Hj. specialize (Hbest j Hj). lia.
  - destruct Hend as [->|?]; [apply cand_0|congruence].
  - intros [|j] Hj; [lia|]. apply cand_snoc in Hj. specialize (Hbest j Hj). exfalso.
    destruct Hend as [->|?]; [|congruence]. assert (j = 0) by lia. subst. destruct Hj as [_ Hj].
    congruence.
Qed.

Lemma Table_insert p f n k :
  Table p f n -> n < length f -> Longest p (drop 1 (take (S n) p)) k -> Table p (<[n := k]> f) (S n).
Proof.
  intros Hf Hn Hk i Hi. destruct (decide (i = n)) as [->|Hne].
  - exists k. by rewrite list_lookup_insert_eq.
  - rewrite list_lookup_insert_ne by done. apply Hf. lia.
Qed.

(** The construction of the table runs the automaton on the sequence without its
    first byte; it reads only entries that are there. *)
Lemma failure_loop_spec p m n f prefix :
  n + m = length p -> 1 <= n -> length f = length p -> Table p f n ->
  Longest p (drop 1 (take n p)) prefix ->
  exists table, failure_loop p (seq n m) f prefix = Some table /\ Table p table (length p).
Proof.
  revert n f prefix; induction m as [|m IH]; intros n f prefix Hm Hn Hl Hf Hp; cbn [seq failure_loop].
  { exists f. rewrite Nat.add_0_r in Hm. by subst n. }
  unfold failure_step. destruct (lookup_lt_is_Some_2 p n) as [c Hc]; [lia|]. rewrite Hc.
  pose proof (cand_length _ _ _ (proj1 Hp)) as Hlen. rewrite length_drop, length_take in Hlen.
  destruct (next_state_spec p f n (drop 1 (take n p)) c prefix) as (s & Hs & Hlong);
    [done|lia|lia|done|]. rewrite Hs.
  assert (Ht : drop 1 (take n p) ++ [c] = drop 1 (take (S n) p)).
  { rewrite (take_S_r _ _ _ Hc), drop_app_le; [done|]. rewrite length_take. lia. }
  rewrite Ht in Hlong. apply IH; [lia..| | |done].
  - by rewrite length_insert.
  - apply Table_insert; auto with lia.
Qed.

Lemma compile_spec p :
  p <> [] -> exists f, compile p = Some {| value := p; failure := f; state := 0 |}
                       /\ Table p f (length p).
Proof.
  intros Hp. unfold compile. assert (0 < length p) by (destruct p; [done|cbn; lia]).
  assert (H0 : Longest p (drop 1 (take 1 p)) 0).
  { split; [apply cand_0|]. intros k Hk%cand_length. rewrite length_drop, length_take in Hk. lia. }
  destruct (failure_loop_spec p (length p - 1) 1 (replicate (length p) 0) 0) as (f & Hf & HT);
    [lia|lia|by rewrite length_replicate| |done|].
  - intros i Hi. replace i with 0 by lia. exists 0. rewrite lookup_replicate_2 by lia. done.
  - exists f. by rewrite Hf.
Qed.

(** ** The reference *)

Lemma find_map_app {A B} (f : A -> option B) l k :
  find_map f (l ++ k) = match find_map f l with Some y => Some y | None => find_map f k end.
Proof. induction l as [|x l IH]; cbn; [done|]. by destruct (f x). Qed.

Lemma find_map_ext {A B} (f g : A -> option B) l :
  (forall x, x ∈ l -> f x = g x) -> find_map f l = find_map g l.
Proof.
  induction l as [|x l IH]; intros H; cbn; [done|]. rewrite H by set_solver.
  rewrite IH by set_solver. done.
Qed.

Lemma stop_at_app l t u n : n <= length t -> stop_at l (t ++ u) n = stop_at l t n.
Proof. intros. unfold stop_at. by rewrite take_app_le. Qed.

Lemma first_stop_snoc l t c :
  first_stop l (t ++ [c]) =
  match first_stop l t with
  | Some h => Some h
  | None => (fun p => (S (length t), p)) <$> stop_at l (t ++ [c]) (S (length t))
  end.
Proof.
  unfold first_stop. rewrite length_app. cbn [length]. rewrite Nat.add_1_r.
  rewrite (seq_S (S (length t))), find_map_app. cbn [find_map]. rewrite Nat.add_0_l.
  rewrite (find_map_ext _ (fun n => (fun p => (n, p)) <$> stop_at l t n)).
  - destruct (find_map _ _); [done|]. by destruct (stop_at _ _ _).
  - intros n Hn%elem_of_seq. rewrite stop_at_app by lia. done.
Qed.

Lemma first_stop_app l t u h : first_stop l t = Some h -> first_stop l (t ++ u) = Some h.
Proof.
  revert t; induction u as [|c u IH]; intros t Ht; [by rewrite app_nil_r|].
  rewrite cons_middle, app_assoc. apply IH. by rewrite first_stop_snoc, Ht.
Qed.

Lemma stop_at_Some l t n p : stop_at l t n = Some p -> p ∈ l /\ p `suffix_of` take n t.
Proof.
  unfold stop_at. intros [H1 H2]%List.find_some. apply list_elem_of_In in H1.
  by apply bool_decide_eq_true in H2.
Qed.

Lemma first_stop_Some l t n p :
  first_stop l t = Some (n, p) -> n <= length t /\ p ∈ l /\ p `suffix_of` take n t.
Proof.
  intros (m & Hm%elem_of_seq & H)%find_map_Some. destruct (stop_at l t m) eqn:E; [|done].
  injection H as -> ->. apply stop_at_Some in E. split; [lia|done].
Qed.

Lemma first_stop_nil t : first_stop [] t = None.
Proof. unfold first_stop. induction (seq 0 (S (length t))); done. Qed.

(** ** The filter against the reference *)

(** A matcher that has read [t] and found nothing yet. *)
Definition Live (t : bytes) (s : CompiledStopSequence) : Prop :=
  value s <> [] /\ Table (value s) (failure s) (length (value s))
  /\ Longest (value s) t (state s) /\ state s < length (value s).

Definition values (l : list CompiledStopSequence) : list bytes := value <$> l.

Lemma stop_at_cons p l t n :
  stop_at (p :: l) t n = if bool_decide (p `suffix_of` take n t) then Some p else stop_at l t n.
Proof. done. Qed.

(** The state after one more byte: at the end exactly if the text ends with the
    sequence. *)
Lemma advance_spec t s c :
  Live t s -> exists b s', advance s c = Some (b, s') /\ value s' = value s
    /\ b = bool_decide (value s `suffix_of` t ++ [c]) /\ (b = false -> Live (t ++ [c]) s').
Proof.
  intros (Hne & Hf & Hl & Hs). unfold advance.
  destruct (next_state_spec _ _ (length (value s)) t c (state s) Hf) as (n & -> & Hn);
    [lia|done..|].
  assert (Hb : (n =? length (value s)) = bool_decide (value s `suffix_of` t ++ [c])).
  { destruct Hn as [[Hle Hsuf] Hmax]. case_bool_decide as E.
    - apply Nat.eqb_eq. enough (length (value s) <= n) by lia. apply Hmax.
      split; [done|]. by rewrite take_ge.
    - apply Nat.eqb_neq. intros ->. by rewrite take_ge in Hsuf. }
  eexists _, _. split; [done|]. split; [done|]. split; [done|]. intros E.
  apply Nat.eqb_neq in E. split; [done|]. split; [done|]. split; [done|]. cbn.
  destruct Hn as [[? _] _]. lia.
Qed.

Lemma find_match_spec t l c :
  Forall (Live t) l ->
  exists hit l', find_match l c = Some (hit, l') /\ values l' = values l /\
    stop_at (values l) (t ++ [c]) (S (length t)) = (hit ≫= fun i => values l !! i) /\
    (hit = None -> Forall (Live (t ++ [c])) l') /\
    (forall i, hit = Some i -> is_some (values l !! i) = true).
Proof.
  induction 1 as [|s l Hs _ IH]; cbn [find_match]; [by exists None, []|].
  destruct (advance_spec t s c Hs) as (b & s' & -> & Hv & Hb & Hlive).
  unfold values in *. cbn [fmap list_fmap]. rewrite stop_at_cons.
  rewrite (take_ge (t ++ [c]) (S (length t))) by (rewrite length_app; cbn; lia). rewrite <- Hb.
  destruct b.
  - exists (Some 0), (s' :: l). cbn. rewrite Hv. repeat split; try done. by intros i [= <-].
  - destruct IH as (hit & l' & -> & Hv' & Hstop & HNone & HSome).
    exists (S <$> hit), (s' :: l'). split; [done|]. cbn [fmap list_fmap]. rewrite Hv, Hv'.
    split; [done|]. rewrite Hstop. split; [by destruct hit|]. split.
    + destruct hit; [done|]. intros _. constructor; auto.
    + intros [|i] Hi; destruct hit; try done. injection Hi as ->. by apply HSome.
Qed.

Lemma scan_spec l t offset text :
  Forall (Live t) l -> first_stop (values l) t = None ->
  exists hit l', scan l offset text = Some (hit, l') /\ values l' = values l /\
    match hit with
    | None => Forall (Live (t ++ text)) l' /\ first_stop (values l) (t ++ text) = None
    | Some (o, i) =>
        exists p, values l !! i = Some p /\ offset <= o /\
          first_stop (values l) (t ++ text) = Some (length t + (o - offset) + 1, p)
    end.
Proof.
  revert l t offset; induction text as [|c text IH]; intros l t offset Hl Ht; cbn [scan].
  { exists None, l. by rewrite app_nil_r. }
  destruct (find_match_spec t l c Hl) as (hit & l1 & -> & Hv & Hstop & HNone & HSome).
  rewrite cons_middle, app_assoc.
  assert (Hsnoc : first_stop (values l) (t ++ [c])
    = (fun p => (S (length t), p)) <$> (hit ≫= fun i => values l !! i)).
  { by rewrite first_stop_snoc, Ht, Hstop. }
  destruct hit as [i|].
  - exists (Some (offset, i)), l1. split; [done|]. split; [done|]. specialize (HSome i eq_refl).
    cbn in Hsnoc. destruct (values l !! i) as [p|] eqn:Hp; [|done].
    exists p. split; [done|]. split; [lia|]. cbn in Hsnoc.
    rewrite (first_stop_app _ _ _ _ Hsnoc). do 2 f_equal. lia.
  - destruct (IH l1 (t ++ [c]) (S offset)) as (hit & l2 & -> & Hv2 & H); [auto|by rewrite Hv|].
    exists hit, l2. split; [done|]. split; [congruence|]. rewrite Hv in H. rewrite length_app in H.
    destruct hit as [[o i]|]; [|done]. destruct H as (p & Hp & Ho & H). exists p.
    split; [done|]. split; [lia|]. rewrite H. do 2 f_equal. cbn. lia.
Qed.

(** A sequence that is text starts on a character boundary. *)
Definition starts_char (p : bytes) : Prop := forall a, head p = Some a -> is_continuation a = false.

(** The part of a border that lies before the text added last. *)
Lemma cand_cut p t u k : Cand p (t ++ u) k -> Cand p t (k - length u).
Proof.
  intros [Hk Hs]. destruct (decide (k <= length u)).
  { replace (k - length u) with 0 by lia. apply cand_0. }
  assert (Hu : u `suffix_of` take k p).
  { apply (suffix_shorter _ _ (t ++ u)); [by exists t|done|]. rewrite length_take. lia. }
  destruct Hu as [v Hv], Hs as [w Hw]. rewrite Hv, app_assoc in Hw.
  apply app_inv_tail in Hw. split; [lia|]. exists w. rewrite Hw. f_equal.
  assert (Hl : k - length u = length v).
  { apply (f_equal length) in Hv. rewrite length_take, length_app in Hv. lia. }
  apply (f_equal (take (k - length u))) in Hv. rewrite take_take in Hv.
  rewrite Nat.min_l in Hv by lia. by rewrite Hv, Hl, take_app_length.
Qed.

Lemma cand_whole p t : p `suffix_of` t -> Cand p t (length p).
Proof. intros H. split; [done|]. by rewrite take_ge. Qed.

Lemma boundary_split (u v : bytes) : starts_char v -> is_char_boundary (u ++ v) (length u) = true.
Proof.
  intros Hv. unfold is_char_boundary. rewrite lookup_app_r, Nat.sub_diag by done.
  destruct v as [|a v]; cbn.
  - rewrite app_nil_r. apply Nat.eqb_refl.
  - rewrite (Hv a eq_refl). apply orb_true_r.
Qed.

Lemma max_state_le l s : s ∈ l -> state s <= max_state l.
Proof. intros. apply max_list_elem_of_le. by apply list_elem_of_fmap_2. Qed.

Lemma max_state_reached l : l <> [] -> exists s, s ∈ l /\ state s = max_state l.
Proof.
  induction l as [|s l IH]; [done|]. intros _. change (max_state (s :: l)) with (state s `max` max_state l).
  destruct (decide (max_state l <= state s)) as [|Hlt].
  - exists s. split; [set_solver|lia].
  - destruct IH as (s' & Hs' & Hm); [by intros ->; cbn in Hlt; lia|].
    exists s'. split; [set_solver|lia].
Qed.

Definition clamp (n : nat) : Z := Z.min USIZE_MAX (Z.of_nat n).

(** What a filter for the sequences [l0] has done with the text [t]: [out] is
    published. *)
Record Held (l0 : list bytes) (f : StopSequenceFilter) (t out : bytes) : Prop := {
  held_values : values (sequences f) = l0;
  held_count : visible_bytes f = clamp (length out);
  held_state :
    match matched f with
    | Some p => exists n, first_stop l0 t = Some (n, p) /\ out = take (n - length p) t
                          /\ pending f = []
    | None =>
        first_stop l0 t = None /\ Forall (Live t) (sequences f) /\ t = out ++ pending f
        /\ length (pending f) = max_state (sequences f)
    end;
}.

Lemma count_visible_clamp f out visible :
  visible_bytes f = clamp (length out) -> count_visible f visible = clamp (length (out ++ visible)).
Proof. unfold count_visible, sat_add, clamp. intros ->. rewrite length_app. lia. Qed.

(** The text withheld covers whatever a sequence that is complete later takes back. *)
Lemma withheld_covers f t out u p :
  t = out ++ pending f -> length (pending f) = max_state (sequences f) ->
  Forall (Live t) (sequences f) -> p ∈ values (sequences f) ->
  forall k, Cand p (t ++ u) k -> k <= length (pending f) + length u.
Proof.
  intros Ht Hlen Hl (s & -> & Hs)%list_elem_of_fmap k Hk%cand_cut. rewrite list.Forall_forall in Hl.
  destruct (Hl s Hs) as (_ & _ & [_ Hmax] & _). specialize (Hmax _ Hk).
  pose proof (max_state_le _ _ Hs). lia.
Qed.

Lemma app_split (a b c d : bytes) :
  a ++ b = c ++ d -> length a <= length c -> exists w, c = a ++ w /\ b = w ++ d.
Proof.
  intros H Hl. exists (drop (length a) c). pose proof (f_equal (take (length a)) H) as Ht.
  pose proof (f_equal (drop (length a)) H) as Hd.
  rewrite take_app_length, take_app_le in Ht by done. rewrite drop_app_length, drop_app_le in Hd by done.
  split; [|done]. rewrite Ht at 1. by rewrite take_drop.
Qed.

Lemma push_match l0 f t out text n p :
  Held l0 f t out -> matched f = None -> p ∈ l0 -> starts_char p ->
  length t < n <= length (t ++ text) -> p `suffix_of` take n (t ++ text) ->
  let m := length (pending f) + (n - length t) - length p in
  slice_to (pending f ++ text) m = Some (take m (pending f ++ text))
  /\ out ++ take m (pending f ++ text) = take (n - length p) (t ++ text).
Proof.
  intros [Hv _ Hst] Hm Hp Hchar Hn Hsuf m. rewrite Hm in Hst. destruct Hst as (_ & Hl & Ht & Hlen).
  assert (Hne : p <> []).
  { rewrite <- Hv in Hp. apply list_elem_of_fmap in Hp as (s & -> & Hs).
    rewrite list.Forall_forall in Hl. by destruct (Hl s Hs). }
  assert (Hle : length p <= length (pending f) + (n - length t)).
  { rewrite take_app_ge in Hsuf by lia.
    pose proof (withheld_covers f t out (take (n - length t) text) p Ht Hlen Hl) as H.
    rewrite Hv in H. specialize (H Hp _ (cand_whole _ _ Hsuf)). rewrite length_take in H. lia. }
  destruct Hsuf as [u Hu]. pose proof (take_drop n (t ++ text)) as Hall. rewrite Hu in Hall.
  set (z := drop n (t ++ text)) in Hall. pose proof (f_equal length Hu) as Hlu.
  rewrite length_take, length_app in Hlu. rewrite length_app in Hlu, Hn.
  assert (Hout : length t = length out + length (pending f)) by (rewrite Ht at 1; apply length_app).
  assert (Hwhole : t ++ text = out ++ pending f ++ text) by (rewrite Ht at 1; by rewrite app_assoc).
  rewrite <- app_assoc, Hwhole in Hall. symmetry in Hall.
  apply app_split in Hall as (w & -> & Hw); [|lia]. rewrite length_app in Hlu.
  replace m with (length w) by (subst m; lia). rewrite Hwhole, Hw. unfold slice_to. split.
  - rewrite boundary_split; [done|]. intros a Ha. apply Hchar. by destruct p.
  - rewrite take_app_length. replace (n - length p) with (length (out ++ w)) by
      (rewrite length_app; lia).
    by rewrite app_assoc, take_app_length.
Qed.

Lemma push_retain l0 f t out text l :
  Held l0 f t out -> matched f = None -> values l = l0 -> l <> [] -> Forall starts_char l0 ->
  Forall (Live (t ++ text)) l ->
  let n := length (pending f ++ text) - max_state l in
  slice_to (pending f ++ text) n = Some (take n (pending f ++ text))
  /\ slice_from (pending f ++ text) n = Some (drop n (pending f ++ text))
  /\ length (drop n (pending f ++ text)) = max_state l.
Proof.
  intros [Hv _ Hst] Hm Hvl Hne Hchar Hlive n. rewrite Hm in Hst. destruct Hst as (_ & Hl & Ht & Hlen).
  destruct (max_state_reached l Hne) as (s & Hs & Hmax). rewrite list.Forall_forall in Hlive.
  destruct (Hlive s Hs) as (Hvs & _ & [Hc _] & _). rewrite Hmax in Hc.
  assert (Hsv : value s ∈ l0) by (rewrite <- Hvl; by apply list_elem_of_fmap_2).
  assert (Hle : max_state l <= length (pending f ++ text)).
  { rewrite length_app. eapply withheld_covers; [done..| |done]. by rewrite Hv. }
  assert (Hd : drop n (pending f ++ text) = take (max_state l) (value s)).
  { destruct Hc as [Hk [u Hu]]. rewrite Ht, <- app_assoc in Hu. symmetry in Hu.
    pose proof (f_equal length Hu) as Hlu. rewrite !length_app, length_take in Hlu.
    rewrite length_app in Hle. symmetry in Hu. apply app_split in Hu as (w & -> & Hw); [|lia].
    rewrite length_app in Hlu. unfold n. rewrite Hw, length_app, length_take.
    replace (_ + _ - _) with (length w) by lia. by rewrite drop_app_length. }
  assert (Hb : is_char_boundary (pending f ++ text) n = true).
  { assert (Hn : length (take n (pending f ++ text)) = n) by (rewrite length_take; lia).
    pose proof (boundary_split (take n (pending f ++ text)) (drop n (pending f ++ text))) as H.
    rewrite take_drop, Hn in H. apply H. rewrite Hd.
    intros a Ha. rewrite list.Forall_forall in Hchar.
    apply (Hchar _ Hsv). by destruct (value s), (max_state l). }
  unfold slice_to, slice_from. rewrite Hb. split; [done|]. split; [done|].
  rewrite length_drop. lia.
Qed.

(** Everything but the case without sequences. *)
Lemma push_spec l0 f t out text :
  Held l0 f t out -> Forall starts_char l0 ->
  exists visible f', push f text = Some (visible, f') /\ Held l0 f' (t ++ text) (out ++ visible).
Proof.
  intros Hf Hchar. pose proof Hf as [Hv Hc Hst]. unfold push.
  destruct (matched f) as [p|] eqn:Hm; cbn [is_some].
  { exists [], f. split; [done|]. rewrite app_nil_r. split; [done|done|]. rewrite Hm.
    destruct Hst as (n & Hn & Ho & Hp). exists n. split; [by apply first_stop_app|].
    split; [|done]. apply first_stop_Some in Hn as (? & _). rewrite take_app_le; [done|lia]. }
  destruct Hst as (Hno & Hl & Ht & Hlen). destruct (is_nil (sequences f)) eqn:Hnil.
  { destruct (sequences f) eqn:Hs; [|done]. assert (pending f = []) as Hp by (by destruct (pending f)).
    eexists _, _. split; [done|].
    split; cbn [sequences pending matched visible_bytes]; [done|by apply count_visible_clamp|].
    cbn in Hv. subst l0. split; [apply first_stop_nil|]. split; [done|].
    split; [|done]. by rewrite Ht, Hp, !app_nil_r. }
  rewrite <- Hv in Hno. destruct (scan_spec _ t 0 text Hl Hno) as (hit & l & -> & Hvl & Hhit).
  rewrite Hv in Hhit, Hvl. destruct hit as [[o i]|].
  - destruct Hhit as (p & Hp & _ & Hfirst). rewrite Nat.sub_0_r in Hfirst.
    rewrite <- Hvl in Hp. apply list_lookup_fmap_Some in Hp as (s & -> & Hs).
    pose proof (first_stop_Some _ _ _ _ Hfirst) as (Hn & Hin & Hsuf).
    assert (Hsc : starts_char (value s)) by (rewrite list.Forall_forall in Hchar; auto).
    assert (Hrange : length t < length t + o + 1 <= length (t ++ text)) by lia.
    destruct (push_match l0 f t out text _ _ Hf Hm Hin Hsc Hrange Hsuf) as [Hslice Hout].
    rewrite Hs. replace (length (pending f) + o + 1 - length (value s)) with
      (length (pending f) + (length t + o + 1 - length t) - length (value s)) by lia.
    rewrite Hslice. eexists _, _. split; [done|].
    split; cbn; [done|by apply count_visible_clamp|]. eauto.
  - destruct Hhit as [Hlive Hnone].
    assert (l <> []) as Hne by (intros ->; cbn in Hvl; subst l0; by destruct (sequences f)).
    destruct (push_retain l0 f t out text l Hf Hm Hvl Hne Hchar Hlive) as (H1 & H2 & H3).
    cbv zeta in *. rewrite H1, H2. eexists _, _. split; [done|].
    split; cbn [sequences pending matched visible_bytes]; [done|by apply count_visible_clamp|].
    split; [done|]. split; [done|]. split; [|done].
    rewrite Ht, <- !app_assoc. f_equal. by rewrite take_drop.
Qed.

Lemma push_all_spec l0 chunks f t out :
  Held l0 f t out -> Forall starts_char l0 ->
  exists visible f', push_all f chunks = Some (visible, f')
                     /\ Held l0 f' (t ++ concat chunks) (out ++ visible).
Proof.
  intros Hf Hchar. revert f t out Hf; induction chunks as [|chunk chunks IH]; intros f t out Hf;
    cbn [push_all concat].
  { exists [], f. by rewrite !app_nil_r. }
  destruct (push_spec l0 f t out chunk Hf Hchar) as (v1 & f1 & -> & H1).
  destruct (IH f1 _ _ H1) as (v2 & f2 & -> & H2). exists (v1 ++ v2), f2. by rewrite !app_assoc.
Qed.

(** ** Construction *)

Definition Ready (s : CompiledStopSequence) : Prop :=
  value s <> [] /\ Table (value s) (failure s) (length (value s)) /\ state s = 0.

Lemma stop_at_all_app l k t n :
  stop_at (l ++ k) t n = match stop_at l t n with Some p => Some p | None => stop_at k t n end.
Proof. induction l as [|p l IH]; [done|]. cbn [app]. rewrite !stop_at_cons. by case_bool_decide. Qed.

Lemma stop_at_known l p t n :
  p ∈ l -> stop_at l t n = None -> bool_decide (p `suffix_of` take n t) = false.
Proof.
  induction l as [|q l IH]; intros Hp; [set_solver|]. rewrite stop_at_cons.
  destruct (bool_decide (q `suffix_of` _)) eqn:E; [discriminate|].
  intros Hl. apply elem_of_cons in Hp as [->|Hp]; [done|auto].
Qed.

Lemma compile_all_spec l compiled :
  Forall Ready compiled -> Forall (fun p => p <> []) l ->
  exists l', compile_all compiled l = Some l' /\ Forall Ready l' /\
    (forall p, p ∈ values l' <-> p ∈ values compiled ++ l) /\
    (forall t n, stop_at (values l') t n = stop_at (values compiled ++ l) t n).
Proof.
  revert compiled; induction l as [|p l IH]; intros compiled Hc Hl; cbn [compile_all].
  { exists compiled. by rewrite app_nil_r. }
  apply list.Forall_cons in Hl as [Hp Hl]. destruct (existsb _ compiled) eqn:E.
  - destruct (IH compiled Hc Hl) as (l' & -> & H1 & H2 & H3). exists l'. split; [done|]. split; [done|].
    apply existsb_exists in E as (s & Hs%list_elem_of_In & <-%bool_decide_eq_true).
    pose proof (list_elem_of_fmap_2 value _ _ Hs) as Hsv. unfold values in *.
    split; [set_solver|]. intros t n. rewrite H3, !stop_at_all_app, stop_at_cons.
    destruct (stop_at _ t n) eqn:Hk; [done|]. by rewrite (stop_at_known _ _ _ _ Hsv Hk).
  - destruct (compile_spec p Hp) as (f & -> & HT).
    destruct (IH (compiled ++ [{| value := p; failure := f; state := 0 |}])) as (l' & -> & H1 & H2 & H3).
    { apply list.Forall_app. split; [done|]. by repeat constructor. }
    { done. }
    exists l'. split; [done|]. split; [done|]. unfold values in *.
    rewrite fmap_app, <- app_assoc in H2, H3. done.
Qed.

Lemma max_state_zero l : Forall Ready l -> max_state l = 0.
Proof. induction 1 as [|s l (_ & _ & Hs) _ IH]; cbn; [done|]. unfold max_state in IH. lia. Qed.

Lemma Ready_Live s : Ready s -> Live [] s.
Proof.
  intros (Hne & HT & Hs). split; [done|]. split; [done|]. rewrite Hs. split.
  - split; [apply cand_0|]. intros k Hk%cand_length. done.
  - destruct (value s); [done|cbn; lia].
Qed.

Lemma first_stop_ext l k t : (forall n, stop_at l t n = stop_at k t n) -> first_stop l t = first_stop k t.
Proof. intros H. unfold first_stop. apply find_map_ext. intros n _. by rewrite H. Qed.

Lemma stop_at_empty l n : Forall (fun p => p <> []) l -> stop_at l [] n = None.
Proof.
  induction 1 as [|p l Hp _ IH]; [done|]. rewrite stop_at_cons, take_nil.
  case_bool_decide as E; [|done]. by apply suffix_nil_inv in E.
Qed.

Lemma new_spec l :
  exists f, new l = Some f /\ Held (values (sequences f)) f [] [] /\ matched f = None /\
    (forall p, p ∈ values (sequences f) <-> p ∈ non_empty l) /\
    (forall t, first_stop (values (sequences f)) t = first_stop (non_empty l) t).
Proof.
  assert (Hne : Forall (fun p => p <> []) (non_empty l)).
  { apply list.Forall_forall. intros p [_ Hp]%list_elem_of_In%List.filter_In. by destruct p. }
  destruct (compile_all_spec (non_empty l) [] (Forall_nil_2 _) Hne) as (l' & E & H1 & H2 & H3).
  unfold new. rewrite E. eexists. split; [done|]. cbn [sequences]. split; [|split; [done|split]].
  - split; cbn [sequences pending matched visible_bytes]; [done|done|]. split.
    + unfold first_stop. cbn [length seq find_map]. rewrite H3. by rewrite (stop_at_empty (_ ++ _)).
    + split; [by eapply list.Forall_impl; [exact H1|apply Ready_Live]|]. split; [done|].
      by rewrite max_state_zero.
  - done.
  - intros t. apply first_stop_ext. intros n. apply H3.
Qed.

Lemma utf8_starts_char p : utf8_valid p = true -> starts_char p.
Proof.
  intros H a Ha. destruct p as [|b p]; [done|]. injection Ha as ->.
  apply not_true_is_false. intros Hc. unfold is_continuation in Hc.
  assert (Hr : forall lo hi, (191 < lo \/ hi < 128)%Z -> in_range lo hi a = false).
  { intros lo hi Hlh. unfold in_range in *. apply andb_false_iff. apply andb_true_iff in Hc.
    rewrite !Z.leb_le in Hc. rewrite !Z.leb_gt. lia. }
  cbn [utf8_valid] in H. rewrite !Hr in H by lia. destruct p as [|? [|? [|? ?]]]; discriminate.
Qed.

(** ** The theorem *)

(** C27: However an answer is cut into chunks, the filter publishes the text in
    front of the first of the client's stop sequences to be complete, the first
    of the list if several end there, or all of it if there is none; it reports
    that sequence and the number of bytes published.  Sequences that are text
    never make it panic, empty and repeated ones are ignored, and until a sequence
    is found it withholds nothing but the longest end of the text that begins one
    of them. *)
Theorem stop_filter_spec l chunks :
  Forall (fun p => utf8_valid p = true) l ->
  exists f visible f', new l = Some f /\ push_all f chunks = Some (visible, f') /\
    (visible ++ fst (finish f'), matched f') = cut (non_empty l) (concat chunks) /\
    visible_bytes (snd (finish f')) = clamp (length (visible ++ fst (finish f'))) /\
    (matched f' = None ->
       concat chunks = visible ++ pending f' /\
       forall p u, p ∈ non_empty l -> u `suffix_of` concat chunks -> u `prefix_of` p ->
         length u <= length (pending f')).
Proof.
  intros Hchar. eapply list.Forall_impl in Hchar; [|apply utf8_starts_char].
  destruct (new_spec l) as (f & Hnew & Hf & _ & Hin & Hext).
  assert (Hc : Forall starts_char (values (sequences f))).
  { apply list.Forall_forall. intros p [Hp _]%Hin%list_elem_of_In%List.filter_In.
    rewrite list.Forall_forall in Hchar. apply Hchar. by apply list_elem_of_In. }
  destruct (push_all_spec _ chunks f [] [] Hf Hc) as (visible & f' & Hpush & [Hv Hcount Hst]).
  exists f, visible, f'. split; [done|]. split; [done|]. cbn [app] in *. unfold cut. rewrite <- Hext.
  unfold finish. destruct (matched f') as [p|] eqn:Hm; cbn [is_some fst snd].
  - destruct Hst as (n & -> & -> & _). rewrite app_nil_r. done.
  - destruct Hst as (-> & Hl & Ht & Hlen). rewrite Ht in *. split; [done|]. split; [by apply count_visible_clamp|].
    intros _. split; [done|]. intros p u Hp [x Hx] [w ->]. rewrite <- Hin in Hp.
    pose proof (withheld_covers f' _ visible [] (u ++ w) eq_refl Hlen Hl) as H.
    rewrite Hv in H. specialize (H Hp (length u)).
    rewrite app_nil_r, Nat.add_0_r in H. apply H. split; [rewrite length_app; lia|].
    rewrite take_app_length. by exists x.
Qed.

Definition demo_stops : list bytes := [s2l "abcd"; s2l "bc"; []; s2l "abcd"; s2l "bc"].

Lemma stop_filter_spec_witness :
  exists f visible f', new demo_stops = Some f /\ push_all f [s2l "xab"; s2l "cd"] = Some (visible, f') /\
    (visible ++ fst (finish f'), matched f') = (s2l "xa", Some (s2l "bc")).
Proof.
  destruct (stop_filter_spec demo_stops [s2l "xab"; s2l "cd"]) as (f & v & f' & H1 & H2 & H3 & _).
  { repeat constructor. }
  exists f, v, f'. split; [exact H1|]. split; [exact H2|]. rewrite H3. vm_compute. reflexivity.
Defined.

(** The text that may begin a sequence is withheld until it is decided. *)
Example stop_withheld :
  (f ← new [s2l "END"]; push f (s2l "an EN") ≫= fun '(out, f) =>
   push f (s2l "EN") ≫= fun '(more, f) => Some (l2s out, l2s more, l2s (pending f)))
  = Some ("an ", "EN", "EN").
Proof. reflexivity. Qed.
