(* ===== verification/ThinkingFilter.v ===== *)
(** * Tagged thinking in a streamed answer

    [ThinkingContentFilter] and [MarkdownPosition] of
    [kproxyd/src/http/response.rs].  Kiro may send its reasoning as text between
    [<thinking>] and [</thinking>]; the tags may be cut anywhere by the stream and
    may also be quoted in a Markdown example.  The filter keeps the end of the
    text that may begin a tag, tracks whether it is in code, and shows or drops
    the tagged text.

    The theorem compares it with [visible], which looks at the whole text at
    once.  Offsets are those of ASCII tags, so that slices start on character
    boundaries. *)

From Stdlib Require Import ZArith Lia List Bool Ascii String.
From stdpp Require Import base list sets tactics strings.
From S2P Require Import Prelude RustStr F64 Json EventStream StopFilter Occurs.

Local Open Scope string_scope.
Local Open Scope list_scope.
Local Open Scope nat_scope.

(** ** Position in Markdown *)

Record MarkdownPosition := {
  fence : option (ascii * Z);
  inline_ticks : option Z;
  pending_ticks : Z;
  indent : Z;
  whitespace : bool;
  run : option (ascii * Z);
  run_ended : bool;
  trailer_whitespace : bool;
}.

Definition MarkdownPosition_default : MarkdownPosition :=
  {| fence := None; inline_ticks := None; pending_ticks := 0; indent := 0; whitespace := true;
     run := None; run_ended := false; trailer_whitespace := true |}.

Definition in_code (m : MarkdownPosition) : bool :=
  is_some (fence m) || is_some (inline_ticks m) || (3 <? indent m)%Z
  || is_some_and (run m) (fun r => 3 <=? r.2)%Z.

Definition can_recover (m : MarkdownPosition) : bool := negb (in_code m) && whitespace m.

Definition set_ticks (inline : option Z) (pending : Z) (m : MarkdownPosition) : MarkdownPosition :=
  {| fence := fence m; inline_ticks := inline; pending_ticks := pending; indent := indent m;
     whitespace := whitespace m; run := run m; run_ended := run_ended m;
     trailer_whitespace := trailer_whitespace m |}.

Definition BACKTICK : ascii := "`".

Definition finish_tick_run (m : MarkdownPosition) : MarkdownPosition :=
  let length := pending_ticks m in
  if (length =? 0)%Z then set_ticks (inline_ticks m) 0 m
  else
    let fence_start :=
      bool_decide (run m = Some (BACKTICK, length)) && (3 <=? length)%Z && negb (run_ended m) in
    set_ticks
      (if fence_start then inline_ticks m
       else match inline_ticks m with
            | Some open => if (open =? length)%Z then None else inline_ticks m
            | None => Some length
            end) 0 m.

(** What a line that ends leaves of the fence. *)
Definition fence_after_line (m : MarkdownPosition) : option (ascii * Z) :=
  match run m with
  | Some (marker, length) =>
      if (3 <=? length)%Z then
        match fence m with
        | None => Some (marker, length)
        | Some (open, count) =>
            if bool_decide (open = marker) && (count <=? length)%Z && trailer_whitespace m
            then None else fence m
        end
      else fence m
  | None => fence m
  end.

Definition set_indent (n : Z) (m : MarkdownPosition) : MarkdownPosition :=
  {| fence := fence m; inline_ticks := inline_ticks m; pending_ticks := pending_ticks m; indent := n;
     whitespace := whitespace m; run := run m; run_ended := run_ended m;
     trailer_whitespace := trailer_whitespace m |}.

Definition set_run (r : option (ascii * Z)) (ended trailer : bool) (m : MarkdownPosition) :
    MarkdownPosition :=
  {| fence := fence m; inline_ticks := inline_ticks m; pending_ticks := pending_ticks m;
     indent := indent m; whitespace := false; run := r; run_ended := ended;
     trailer_whitespace := trailer |}.

(** [u8::is_ascii_whitespace]: no vertical tab. *)
Definition is_ascii_whitespace (a : ascii) : bool :=
  in_range 32 32 a || in_range 9 10 a || in_range 12 13 a.

Definition advance_byte (m : MarkdownPosition) (byte : ascii) : MarkdownPosition :=
  let m :=
    if Ascii.eqb byte BACKTICK && is_none (fence m)
    then set_ticks (inline_ticks m) (sat_add USIZE_MAX (pending_ticks m) 1) m
    else finish_tick_run m in
  if in_range 10 10 byte then
    {| fence := fence_after_line m; inline_ticks := inline_ticks m; pending_ticks := 0; indent := 0;
       whitespace := true; run := None; run_ended := false; trailer_whitespace := true |}
  else if whitespace m && (in_range 32 32 byte || in_range 9 9 byte || in_range 13 13 byte) then
    set_indent (sat_add USIZE_MAX (indent m) (if in_range 9 9 byte then 4 else 1)) m
  else if whitespace m then
    set_run
      (if (indent m <=? 3)%Z && is_none (inline_ticks m)
          && (Ascii.eqb byte BACKTICK || Ascii.eqb byte "~")
       then Some (byte, 1%Z) else run m)
      (run_ended m) (trailer_whitespace m) m
  else
    match run m with
    | Some (marker, length) =>
        if negb (run_ended m) && Ascii.eqb byte marker
        then set_run (Some (marker, sat_add USIZE_MAX length 1)) (run_ended m)
               (trailer_whitespace m) m
        else set_run (run m) true (trailer_whitespace m && is_ascii_whitespace byte) m
    | None => m
    end.

Definition advance (m : MarkdownPosition) (text : bytes) : MarkdownPosition :=
  fold_left advance_byte text m.

(** ** The filter *)

Definition THINKING_START_TAG : bytes := s2l "<thinking>".
Definition THINKING_END_TAG : bytes := s2l "</thinking>".

Record ThinkingContentFilter := {
  enabled : bool;
  omit_summary : bool;
  pending : bytes;
  in_tagged_thinking : bool;
  position : MarkdownPosition;
}.

Definition new (on : bool) : ThinkingContentFilter :=
  {| enabled := on; omit_summary := false; pending := []; in_tagged_thinking := false;
     position := MarkdownPosition_default |}.

Definition with_omitted_summary (omit : bool) (f : ThinkingContentFilter) : ThinkingContentFilter :=
  {| enabled := enabled f; omit_summary := omit; pending := pending f;
     in_tagged_thinking := in_tagged_thinking f; position := position f |}.

(** The rest of the text, in or outside of tagged thinking. *)
Definition set_text (text : bytes) (tagged : bool) (m : MarkdownPosition)
    (f : ThinkingContentFilter) : ThinkingContentFilter :=
  {| enabled := enabled f; omit_summary := omit_summary f; pending := text;
     in_tagged_thinking := tagged; position := m |}.

Definition shown (f : ThinkingContentFilter) : bool := enabled f && negb (omit_summary f).

(** The largest retained suffix that the delimiter starts with. *)
Fixpoint retained_from (value delimiter : bytes) (n : nat) : nat :=
  match n with
  | O => length value
  | S n' =>
      let split := length value - n in
      if is_char_boundary value split && is_some (strip_prefix_l (drop split value) delimiter)
      then split else retained_from value delimiter n'
  end.

Definition safe_prefix_len (value delimiter : bytes) : nat :=
  retained_from value delimiter (length value `min` (length delimiter - 1)).

Definition push_text (output : list KiroEvent) (content : bytes) : list KiroEvent :=
  if is_nil content then output else output ++ [AssistantResponse (l2s content)].

(** One round of the loop of [drain]; [true] if it goes on. *)
Definition drain_round (finish : bool) (f : ThinkingContentFilter) (output : list KiroEvent) :
    bool * ThinkingContentFilter * list KiroEvent :=
  let text := pending f in
  if in_tagged_thinking f then
    match find_l THINKING_END_TAG text with
    | Some e =>
        let n := e + length THINKING_END_TAG in
        (true, set_text (drop n text) false (advance MarkdownPosition_default THINKING_END_TAG) f,
         if shown f then push_text output (take n text) else output)
    | None =>
        let split := if finish then length text else safe_prefix_len text THINKING_END_TAG in
        (false, set_text (drop split text) (negb finish) (position f) f,
         if shown f then push_text output (take split text) else output)
    end
  else
    match find_l THINKING_START_TAG text with
    | Some start =>
        let content := take start text in
        let m := advance (position f) content in
        let output := push_text output content in
        let text := drop start text in
        let tag := take (length THINKING_START_TAG) text in
        let text := drop (length THINKING_START_TAG) text in
        let m := advance m tag in
        if in_code m then (true, set_text text false m f, push_text output tag)
        else (true, set_text text true m f, if shown f then push_text output tag else output)
    | None =>
        let split := if finish then length text else safe_prefix_len text THINKING_START_TAG in
        (false,
         if 0 <? split then set_text (drop split text) false (advance (position f) (take split text)) f
         else f,
         if 0 <? split then push_text output (take split text) else output)
    end.

(** Each round that goes on takes at least a tag from the text. *)
Fixpoint drain_loop (fuel : nat) (finish : bool) (f : ThinkingContentFilter)
    (output : list KiroEvent) : option (list KiroEvent * ThinkingContentFilter) :=
  match fuel with
  | O => None
  | S fuel =>
      let '(again, f, output) := drain_round finish f output in
      if again then drain_loop fuel finish f output else Some (output, f)
  end.

Definition drain (finish : bool) (f : ThinkingContentFilter) :
    option (list KiroEvent * ThinkingContentFilter) :=
  drain_loop (S (length (pending f))) finish f [].

Definition push (f : ThinkingContentFilter) (event : KiroEvent) :
    option (list KiroEvent * ThinkingContentFilter) :=
  match event with
  | AssistantResponse content =>
      drain false (set_text (pending f ++ s2l content) (in_tagged_thinking f) (position f) f)
  | Reasoning content signature redacted_content =>
      match drain false f with
      | Some (output, f) =>
          let content := if omit_summary f then "" else content in
          let output :=
            if enabled f
               && (negb (is_empty content) || is_some signature || is_some redacted_content)
            then output ++ [Reasoning content signature redacted_content] else output in
          Some (output, f)
      | None => None
      end
  | event =>
      match drain false f with
      | Some (output, f) => Some (output ++ [event], f)
      | None => None
      end
  end.

Definition finish (f : ThinkingContentFilter) : option (list KiroEvent * ThinkingContentFilter) :=
  drain true f.

Fixpoint push_all (f : ThinkingContentFilter) (events : list KiroEvent) :
    option (list KiroEvent * ThinkingContentFilter) :=
  match events with
  | [] => Some ([], f)
  | event :: events =>
      match push f event with
      | Some (output, f) =>
          match push_all f events with
          | Some (rest, f) => Some (output ++ rest, f)
          | None => None
          end
      | None => None
      end
  end.

(** ** The text as a whole *)

Section Visible.
(** Whether tagged thinking is shown. *)
Context (show : bool).

(** A tag in code is text.  Any other opens thinking up to the next closing tag,
    or to the end. *)
Fixpoint visible_from (fuel : nat) (m : MarkdownPosition) (text : bytes) : bytes :=
  match fuel with
  | O => text
  | S fuel =>
      match find_l THINKING_START_TAG text with
      | None => text
      | Some start =>
          let n := start + length THINKING_START_TAG in
          let m := advance m (take n text) in
          let rest := drop n text in
          if in_code m then take n text ++ visible_from fuel m rest
          else
            take start text ++ (if show then THINKING_START_TAG else []) ++
            match find_l THINKING_END_TAG rest with
            | None => if show then rest else []
            | Some e =>
                let n := e + length THINKING_END_TAG in
                (if show then take n rest else [])
                ++ visible_from fuel (advance MarkdownPosition_default THINKING_END_TAG) (drop n rest)
            end
      end
  end.

Definition visible (text : bytes) : bytes :=
  visible_from (length text) MarkdownPosition_default text.
End Visible.

(** The text of a list of events, and its other events as a client with these
    settings sees them. *)
Definition text_of (events : list KiroEvent) : bytes :=
  concat ((fun event => match event with AssistantResponse content => s2l content | _ => [] end)
            <$> events).

Definition other_event (f : ThinkingContentFilter) (event : KiroEvent) : option KiroEvent :=
  match event with
  | AssistantResponse _ => None
  | Reasoning content signature redacted_content =>
      let content := if omit_summary f then "" else content in
      if enabled f && (negb (is_empty content) || is_some signature || is_some redacted_content)
      then Some (Reasoning content signature redacted_content) else None
  | event => Some event
  end.

Definition is_text (event : KiroEvent) : bool :=
  match event with AssistantResponse _ => true | _ => false end.

Definition others (events : list KiroEvent) : list KiroEvent :=
  List.filter (fun event => negb (is_text event)) events.
