(* ===== verification/ThinkingFilterFacts.v ===== *)
(** * The thinking filter does not depend on how the stream is cut

    [Drains] is the loop of [drain] without its fuel.  [Drains_app]: draining a
    text and then what follows gives the same text and state as draining the
    whole, because what is kept back is the longest end of the text that may
    begin a tag. *)

From Stdlib Require Import ZArith Lia List Bool Ascii String.
From stdpp Require Import base list sets tactics strings.
From S2P Require Import Prelude RustStr F64 Json EventStream StopFilter Occurs ThinkingFilter.

Local Open Scope string_scope.
Local Open Scope list_scope.
Local Open Scope nat_scope.

Notation START := THINKING_START_TAG.
Notation END := THINKING_END_TAG.

(** ** The text kept back *)

(** A delimiter none of whose bytes continues a character. *)
Definition ascii_tag (d : bytes) : Prop := d <> [] /\ Forall (fun a => is_continuation a = false) d.

Lemma tags_ascii : ascii_tag START /\ ascii_tag END.
Proof. split; (split; [done|repeat constructor]). Qed.

Lemma starts_with_drop (t d : bytes) s :
  is_some (strip_prefix_l (drop s t) d) = bool_decide (drop s t `prefix_of` d).
Proof.
  case_bool_decide as H.
  - destruct H as [r ->]. by rewrite (proj2 (strip_prefix_l_spec _ _ r) eq_refl).
  - destruct (strip_prefix_l (drop s t) d) as [r|] eqn:E; [|done].
    apply strip_prefix_l_spec in E. destruct H. by exists r.
Qed.

Lemma prefix_cand (t d : bytes) s :
  s <= length t -> length t - s <= length d ->
  drop s t `prefix_of` d <-> take (length t - s) d `suffix_of` t.
Proof.
  intros Hs Hd. split.
  - intros [r ->]. exists (take s t). replace (length t - s) with (length (drop s t)) by apply length_drop.
    by rewrite take_app_length, take_drop.
  - intros [u Hu]. exists (drop (length t - s) d).
    assert (length u = s).
    { apply (f_equal length) in Hu. rewrite length_app, length_take in Hu. lia. }
    rewrite Hu at 1. subst s. by rewrite drop_app_length, take_drop.
Qed.

Lemma retained_from_spec t d n :
  ascii_tag d -> n <= length t -> n < length d ->
  let s := retained_from t d n in
  s <= length t /\ length t - s <= n /\ Cand d t (length t - s)
  /\ forall k, k <= n -> Cand d t k -> k <= length t - s.
Proof.
  intros [_ Hd] Ht Hn. induction n as [|n IH]; cbn [retained_from].
  { rewrite Nat.sub_diag. split; [done|]. split; [done|]. split; [apply cand_0|]. lia. }
  set (split := length t - S n). rewrite starts_with_drop.
  assert (Hc : bool_decide (drop split t `prefix_of` d) = true <-> Cand d t (S n)).
  { rewrite bool_decide_eq_true, prefix_cand by (subst split; lia).
    replace (length t - split) with (S n) by (subst split; lia). unfold Cand. split; [|tauto].
    intros ?. split; [lia|done]. }
  assert (Hb : bool_decide (drop split t `prefix_of` d) = true -> is_char_boundary t split = true).
  { intros [r Hr]%bool_decide_eq_true. rewrite <- (take_drop split t) at 1.
    replace split with (length (take split t)) at 3 by (rewrite length_take; subst split; lia).
    apply boundary_split. intros a Ha. rewrite Hr in Hd. apply list.Forall_app in Hd as [Hd _].
    destruct (drop split t) as [|b l]; [done|]. injection Ha as ->. by apply list.Forall_cons in Hd as [? _]. }
  destruct (bool_decide _) eqn:E.
  - rewrite (Hb eq_refl). cbn [andb].
    replace (length t - split) with (S n) by (subst split; lia).
    split; [subst split; lia|]. split; [done|]. split; [by apply Hc|]. lia.
  - rewrite andb_false_r. destruct IH as (H1 & H2 & H3 & H4); [lia..|].
    split; [done|]. split; [lia|]. split; [done|]. intros k Hk Hcand.
    destruct (decide (k = S n)) as [->|]; [|apply H4; [lia|done]].
    apply Hc in Hcand. discriminate.
Qed.

Lemma safe_prefix_spec t d :
  ascii_tag d -> ~ Occurs d t ->
  let s := safe_prefix_len t d in s <= length t /\ Longest d t (length t - s).
Proof.
  intros Hd Ho s. assert (Hpos : 0 < length d) by (destruct Hd as [Hd _]; destruct d; [done|cbn; lia]).
  destruct (retained_from_spec t d (length t `min` (length d - 1)) Hd) as (H1 & H2 & H3 & H4); [lia..|].
  fold (safe_prefix_len t d) in *. split; [done|]. split; [done|]. intros k Hk.
  apply H4; [|done]. pose proof (cand_length _ _ _ Hk). destruct Hk as [Hk Hs].
  destruct (decide (k = length d)) as [->|]; [|lia]. exfalso. apply Ho.
  rewrite take_ge in Hs by done. destruct Hs as [u ->]. exists u, []. by rewrite app_nil_r.
Qed.

Lemma longest_unique d t s s' : Longest d t s -> Longest d t s' -> s = s'.
Proof. intros [H1 H2] [H3 H4]. apply Nat.le_antisymm; auto. Qed.

(** No tag begins in front of the text kept back, whatever follows. *)
Lemma find_kept d t u :
  ascii_tag d -> find_l d t = None ->
  find_l d (t ++ u) = Nat.add (safe_prefix_len t d) <$> find_l d (drop (safe_prefix_len t d) t ++ u).
Proof.
  intros Hd Hnone. pose proof (find_l_spec d t) as Ho. rewrite Hnone in Ho.
  destruct (safe_prefix_spec t d Hd Ho) as [Hs [_ Hmax]]. set (s := safe_prefix_len t d) in *.
  assert (Hlen : length (take s t) = s) by (rewrite length_take; lia).
  rewrite <- (take_drop s t) at 1. rewrite <- app_assoc, find_l_skip, Hlen; [done|].
  intros j Hj. rewrite app_assoc, take_drop. destruct (strip_prefix_l d _) as [r|] eqn:E; [|done].
  exfalso. apply strip_prefix_l_spec in E. rewrite drop_app_le in E by lia.
  destruct (decide (length d <= length t - j)) as [Hle|Hgt].
  - apply Ho. exists (take j t), (drop (length d) (drop j t)).
    rewrite <- (take_drop j t) at 1. f_equal.
    rewrite <- (take_drop (length d) (drop j t)) at 1. f_equal.
    apply (f_equal (take (length d))) in E. rewrite take_app_length in E.
    rewrite take_app_le in E by (rewrite length_drop; lia). done.
  - enough (length t - j <= length t - s) by lia. apply Hmax. split; [lia|].
    exists (take j t). rewrite <- (take_drop j t) at 1. f_equal.
    apply (f_equal (take (length t - j))) in E.
    rewrite (take_app_le (drop j t)) in E by (rewrite length_drop; lia).
    rewrite take_app_le in E by lia. rewrite take_ge in E by (rewrite length_drop; lia). done.
Qed.

Lemma safe_kept d t u :
  ascii_tag d -> find_l d (t ++ u) = None ->
  safe_prefix_len (t ++ u) d
  = safe_prefix_len t d + safe_prefix_len (drop (safe_prefix_len t d) t ++ u) d.
Proof.
  intros Hd Hnone.
  assert (Ht : find_l d t = None).
  { destruct (find_l d t) eqn:E; [|done]. by rewrite (find_l_app _ _ u _ E) in Hnone. }
  pose proof (find_kept d t u Hd Ht) as Hfind. rewrite Hnone in Hfind.
  pose proof (find_l_spec d (t ++ u)) as H1. rewrite Hnone in H1.
  pose proof (find_l_spec d t) as H2. rewrite Ht in H2.
  pose proof (find_l_spec d (drop (safe_prefix_len t d) t ++ u)) as H3.
  destruct (find_l d (drop _ _ ++ u)); [done|].
  destruct (safe_prefix_spec _ d Hd H1) as [L1 G1].
  destruct (safe_prefix_spec _ d Hd H2) as [L2 G2].
  destruct (safe_prefix_spec _ d Hd H3) as [L3 G3].
  set (s := safe_prefix_len t d) in *. rewrite length_app, length_drop in L3, G3. rewrite length_app in L1, G1.
  enough (Longest d (t ++ u) (length t - s + length u - safe_prefix_len (drop s t ++ u) d)) as G.
  { pose proof (longest_unique _ _ _ _ G1 G). lia. }
  assert (Hall : t ++ u = take s t ++ drop s t ++ u) by by rewrite app_assoc, take_drop.
  destruct G3 as [[C1 C2] Cmax]. split.
  - split; [done|]. rewrite Hall. etrans; [exact C2|]. by exists (take s t).
  - intros k Hk. apply Cmax. pose proof (proj2 G2 _ (cand_cut _ _ _ _ Hk)) as Hle.
    destruct Hk as [Hkd Hk]. split; [done|].
    apply (suffix_shorter _ _ (t ++ u)); [done|rewrite Hall; by exists (take s t)|].
    rewrite length_take, length_app, length_drop. lia.
Qed.

(** ** The loop without its fuel *)

Lemma advance_app m a b : advance m (a ++ b) = advance (advance m a) b.
Proof. apply fold_left_app. Qed.

#[local] Opaque advance THINKING_START_TAG THINKING_END_TAG.

Lemma START_length : length START = 10.
Proof. reflexivity. Qed.

Lemma END_length : length END = 11.
Proof. reflexivity. Qed.

Definition more (u : bytes) (f : ThinkingContentFilter) : ThinkingContentFilter :=
  set_text (pending f ++ u) (in_tagged_thinking f) (position f) f.

Inductive Drains (fin : bool) : ThinkingContentFilter -> list KiroEvent -> ThinkingContentFilter -> Prop :=
| Drains_stop f f' o : drain_round fin f [] = (false, f', o) -> Drains fin f o f'
| Drains_again f f1 o1 o f' :
    drain_round fin f [] = (true, f1, o1) -> Drains fin f1 o f' -> Drains fin f (o1 ++ o) f'.

Lemma push_text_app output content : push_text output content = output ++ push_text [] content.
Proof. unfold push_text. destruct (is_nil content); [by rewrite app_nil_r|done]. Qed.

Lemma push_text_app2 output a b :
  push_text (push_text output a) b = output ++ push_text (push_text [] a) b.
Proof.
  rewrite (push_text_app (push_text output a)), (push_text_app (push_text [] a)), (push_text_app output).
  by rewrite app_assoc.
Qed.

Lemma drain_round_app fin f output :
  drain_round fin f output
  = (let '(b, f', o) := drain_round fin f [] in (b, f', output ++ o)).
Proof.
  unfold drain_round. destruct (in_tagged_thinking f).
  - destruct (find_l END (pending f)), (shown f); cbv beta iota;
      first [by rewrite (push_text_app output) | by rewrite app_nil_r].
  - destruct (find_l START (pending f)) as [start|]; cbv beta iota zeta.
    + destruct (in_code _); [by rewrite (push_text_app2 output)|].
      destruct (shown f); [by rewrite (push_text_app2 output)|by rewrite (push_text_app output)].
    + generalize (if fin then length (pending f) else safe_prefix_len (pending f) START). intros split.
      destruct (0 <? split); [by rewrite (push_text_app output)|by rewrite app_nil_r].
Qed.

(** A round that goes on takes text, and nothing but the text, the position and
    the mode changes. *)
Lemma drain_round_step fin f b f' o :
  drain_round fin f [] = (b, f', o) ->
  (b = true -> length (pending f') < length (pending f))
  /\ enabled f' = enabled f /\ omit_summary f' = omit_summary f.
Proof.
  unfold drain_round. destruct (in_tagged_thinking f).
  - destruct (find_l END (pending f)) as [e|] eqn:E; intros [= <- <- <-]; (split; [|done]); [|done].
    intros _. cbn [pending set_text]. apply find_l_Some in E as [E _].
    rewrite length_drop. rewrite END_length in *. lia.
  - destruct (find_l START (pending f)) as [e|] eqn:E; cbv zeta.
    + assert (length (drop (length START) (drop e (pending f))) < length (pending f)).
      { apply find_l_Some in E as [E _]. rewrite !length_drop. rewrite START_length in *. lia. }
      destruct (in_code _); intros [= <- <- <-]; done.
    + intros [= <- <- <-]. destruct (0 <? _); done.
Qed.

Lemma Drains_settings fin f o f' :
  Drains fin f o f' -> enabled f' = enabled f /\ omit_summary f' = omit_summary f.
Proof.
  induction 1 as [f f' o H|f f1 o1 o f' H _ [IH1 IH2]]; apply drain_round_step in H as (_ & H1 & H2).
  - done.
  - split; congruence.
Qed.

Lemma Drains_det fin f o f' : Drains fin f o f' -> forall o2 f2, Drains fin f o2 f2 -> o2 = o /\ f2 = f'.
Proof.
  induction 1 as [f f' o H|f f1 o1 o f' H _ IH]; intros o2 f2 H2;
    inversion H2 as [? ? ? E|? f3 o3 o4 ? E Hd]; subst; rewrite H in E; try discriminate;
    injection E as <- <-; [done|].
  by destruct (IH _ _ Hd) as [-> ->].
Qed.

Lemma drain_loop_Drains fuel fin f output :
  length (pending f) < fuel ->
  exists o f', drain_loop fuel fin f output = Some (output ++ o, f') /\ Drains fin f o f'.
Proof.
  revert f output; induction fuel as [|fuel IH]; intros f output Hf; [lia|]. cbn [drain_loop].
  rewrite drain_round_app. destruct (drain_round fin f []) as [[b f1] o1] eqn:E. destruct b.
  - destruct (proj1 (drain_round_step _ _ _ _ _ E) eq_refl).
    all: destruct (IH f1 (output ++ o1)) as (o & f' & -> & H);
      [pose proof (proj1 (drain_round_step _ _ _ _ _ E) eq_refl); lia|].
    all: exists (o1 ++ o), f'; rewrite app_assoc; split; [done|by eapply Drains_again].
  - exists o1, f1. split; [done|by constructor].
Qed.

Lemma drain_Drains fin f : exists o f', drain fin f = Some (o, f') /\ Drains fin f o f'.
Proof. apply (drain_loop_Drains _ fin f []). lia. Qed.

(** All it puts out is text, in events that are not empty. *)
Definition texts (o : list KiroEvent) : Prop :=
  Forall (fun event => exists c, event = AssistantResponse (l2s c) /\ c <> []) o.

Lemma push_text_texts c : texts (push_text [] c).
Proof.
  unfold push_text. destruct c as [|a c]; cbn; constructor; [|constructor]. by exists (a :: c).
Qed.

Lemma Drains_texts fin f o f' : Drains fin f o f' -> texts o.
Proof.
  assert (Hround : forall f b f' o, drain_round fin f [] = (b, f', o) -> texts o).
  { intros g b g' o'. unfold drain_round. cbv zeta.
    destruct (in_tagged_thinking g), (find_l _ (pending g)); try destruct (in_code _);
      try destruct (shown g); try destruct (0 <? _); intros [= <- <- <-];
      try rewrite (push_text_app (push_text [] _));
      repeat (apply list.Forall_app; split); try apply push_text_texts; constructor. }
  induction 1; [eauto|]. apply list.Forall_app. split; [by eapply Hround|done].
Qed.

Lemma text_of_app o o' : text_of (o ++ o') = text_of o ++ text_of o'.
Proof. unfold text_of. by rewrite fmap_app, concat_app. Qed.

Lemma text_of_push c : text_of (push_text [] c) = c.
Proof. unfold push_text. destruct c; [done|]. cbn. by rewrite s2l_l2s, app_nil_r. Qed.

Lemma texts_nil o : texts o -> text_of o = [] -> o = [].
Proof.
  intros H. destruct H as [|event o (c & -> & Hc) _]; [done|]. unfold text_of. cbn.
  rewrite s2l_l2s. by destruct c.
Qed.

Lemma texts_others o : texts o -> others o = [].
Proof. induction 1 as [|event o (c & -> & Hc) _ IH]; done. Qed.

(** ** Draining in parts *)

Lemma take_kept (t u : bytes) s n :
  s <= length t -> take (s + n) (t ++ u) = take s t ++ take n (drop s t ++ u).
Proof.
  intros H. rewrite <- (take_drop s t) at 1. rewrite <- app_assoc.
  rewrite take_app_ge by (rewrite length_take; lia). f_equal. f_equal. rewrite length_take. lia.
Qed.

Lemma drop_kept (t u : bytes) s n : s <= length t -> drop (s + n) (t ++ u) = drop n (drop s t ++ u).
Proof.
  intros H. rewrite <- (take_drop s t) at 1. rewrite <- app_assoc.
  rewrite drop_app_ge by (rewrite length_take; lia). f_equal. rewrite length_take. lia.
Qed.

(** Where a round ends without a tag. *)
Definition split_of (fin : bool) (d text : bytes) : nat :=
  if fin then length text else safe_prefix_len text d.

Lemma split_kept fin d t u :
  ascii_tag d -> find_l d (t ++ u) = None ->
  split_of fin d (t ++ u) = safe_prefix_len t d + split_of fin d (drop (safe_prefix_len t d) t ++ u).
Proof.
  intros Hd Hnone. unfold split_of. destruct fin; [|by apply safe_kept].
  assert (Ht : find_l d t = None).
  { destruct (find_l d t) eqn:E; [|done]. by rewrite (find_l_app _ _ u _ E) in Hnone. }
  pose proof (find_l_spec d t) as Ho. rewrite Ht in Ho.
  destruct (safe_prefix_spec t d Hd Ho) as [Hs _]. rewrite !length_app, length_drop. lia.
Qed.

Definition show_text (f : ThinkingContentFilter) (c : bytes) : list KiroEvent :=
  if shown f then push_text [] c else [].

(** The rounds of [drain_round], case by case. *)
Lemma round_tagged_end fin f e :
  in_tagged_thinking f = true -> find_l END (pending f) = Some e ->
  drain_round fin f [] =
  (true, set_text (drop (e + length END) (pending f)) false (advance MarkdownPosition_default END) f,
   show_text f (take (e + length END) (pending f))).
Proof. intros Hm He. unfold drain_round. by rewrite Hm, He. Qed.

Lemma round_tagged_stop fin f :
  in_tagged_thinking f = true -> find_l END (pending f) = None ->
  drain_round fin f [] =
  (false, set_text (drop (split_of fin END (pending f)) (pending f)) (negb fin) (position f) f,
   show_text f (take (split_of fin END (pending f)) (pending f))).
Proof. intros Hm He. unfold drain_round. by rewrite Hm, He. Qed.

Lemma round_tag fin f k :
  in_tagged_thinking f = false -> find_l START (pending f) = Some k ->
  let n := k + length START in
  let m := advance (position f) (take n (pending f)) in
  drain_round fin f [] =
  (true, set_text (drop n (pending f)) (negb (in_code m)) m f,
   push_text [] (take k (pending f)) ++ (if in_code m then push_text [] START else show_text f START)).
Proof.
  intros Hm Hk n m. unfold drain_round. rewrite Hm, Hk. cbv zeta.
  pose proof (find_l_Some _ _ _ Hk) as [Hlen Htag]. rewrite drop_drop, <- advance_app.
  rewrite Htag. replace (take k (pending f) ++ START) with (take n (pending f)).
  - fold n m. destruct (in_code m); unfold show_text; [by rewrite (push_text_app (push_text _ _))|].
    destruct (shown f); [by rewrite (push_text_app (push_text _ _))|by rewrite app_nil_r].
  - rewrite <- Htag. unfold n. rewrite <- (take_drop k (pending f)) at 1.
    rewrite take_app_ge by (rewrite length_take; lia). rewrite length_take. do 2 f_equal. lia.
Qed.

Lemma round_stop_plain fin f :
  in_tagged_thinking f = false -> find_l START (pending f) = None ->
  let n := split_of fin START (pending f) in
  drain_round fin f [] =
  (false, set_text (drop n (pending f)) false (advance (position f) (take n (pending f))) f,
   push_text [] (take n (pending f))).
Proof.
  intros Hm Hk n. unfold drain_round. rewrite Hm, Hk. cbv zeta. fold (split_of fin START (pending f)).
  fold n. destruct (Nat.ltb_spec 0 n) as [|Hn]; [done|]. replace n with 0 by lia.
  rewrite drop_0, take_0. destruct f; cbn in Hm; subst. done.
Qed.

Lemma round_again fin u f f1 o :
  drain_round false f [] = (true, f1, o) -> drain_round fin (more u f) [] = (true, more u f1, o).
Proof.
  destruct (in_tagged_thinking f) eqn:Hm.
  - destruct (find_l END (pending f)) as [e|] eqn:E; [|by rewrite round_tagged_stop].
    rewrite (round_tagged_end _ _ _ Hm E). intros [= <- <-].
    pose proof (find_l_Some _ _ _ E) as [Hle _].
    rewrite (round_tagged_end _ (more u f) e Hm (find_l_app _ _ u _ E)).
    cbn [pending more set_text]. rewrite take_app_le, drop_app_le by lia. done.
  - destruct (find_l START (pending f)) as [k|] eqn:E; [|by rewrite round_stop_plain].
    rewrite (round_tag _ _ _ Hm E). intros [= <- <-]. pose proof (find_l_Some _ _ _ E) as [Hle _].
    rewrite (round_tag _ (more u f) k Hm (find_l_app _ _ u _ E)).
    cbn [pending more set_text position]. rewrite !take_app_le, drop_app_le by lia. done.
Qed.

Lemma text_of_show f a b :
  text_of (show_text f (a ++ b)) = text_of (show_text f a) ++ text_of (show_text f b).
Proof. unfold show_text. destruct (shown f); [by rewrite !text_of_push|done]. Qed.

Lemma show_text_settings t m p f c : show_text (set_text t m p f) c = show_text f c.
Proof. done. Qed.

Lemma round_stop fin u f f1 o1 b g o :
  drain_round false f [] = (false, f1, o1) -> drain_round fin (more u f1) [] = (b, g, o) ->
  exists o', drain_round fin (more u f) [] = (b, g, o') /\ text_of o' = text_of o1 ++ text_of o.
Proof.
  destruct tags_ascii as [HS HE]. destruct (in_tagged_thinking f) eqn:Hm.
  - destruct (find_l END (pending f)) as [e|] eqn:E; [by rewrite (round_tagged_end _ _ _ Hm E)|].
    rewrite round_tagged_stop by done. intros [= <- <-]. cbn [negb split_of].
    pose proof (find_l_spec END (pending f)) as Ho. rewrite E in Ho.
    destruct (safe_prefix_spec _ _ HE Ho) as [Hs _]. pose proof (find_kept END (pending f) u HE E) as Hf.
    set (s := safe_prefix_len (pending f) END) in *.
    destruct (find_l END (drop s (pending f) ++ u)) as [e|] eqn:E2; cbn [fmap option_fmap option_map] in Hf.
    + rewrite (round_tagged_end _ (more u (set_text _ true _ f)) _ eq_refl E2). intros [= <- <- <-].
      rewrite (round_tagged_end _ (more u f) _ Hm Hf). cbn [pending more set_text].
      rewrite <- !Nat.add_assoc, take_kept, drop_kept by done. eexists. split; [done|].
      exact (text_of_show f _ _).
    + rewrite (round_tagged_stop _ (more u (set_text _ true _ f)) eq_refl E2). intros [= <- <- <-].
      rewrite (round_tagged_stop _ (more u f) Hm Hf). cbn [pending more set_text position].
      rewrite split_kept by done. fold s. rewrite take_kept, drop_kept by done. eexists. split; [done|].
      exact (text_of_show f _ _).
  - destruct (find_l START (pending f)) as [k|] eqn:E; [by rewrite (round_tag _ _ _ Hm E)|].
    rewrite round_stop_plain by done. intros [= <- <-]. cbn [split_of].
    pose proof (find_l_spec START (pending f)) as Ho. rewrite E in Ho.
    destruct (safe_prefix_spec _ _ HS Ho) as [Hs _]. pose proof (find_kept START (pending f) u HS E) as Hf.
    set (s := safe_prefix_len (pending f) START) in *.
    destruct (find_l START (drop s (pending f) ++ u)) as [k|] eqn:E2; cbn [fmap option_fmap option_map] in Hf.
    + rewrite (round_tag _ (more u (set_text _ false _ f)) _ eq_refl E2). intros [= <- <- <-].
      rewrite (round_tag _ (more u f) _ Hm Hf). cbn [pending more set_text position].
      rewrite <- !Nat.add_assoc, !take_kept, drop_kept, advance_app by done. eexists. split; [done|].
      rewrite !text_of_app, !text_of_push, (take_kept _ _ s k), <- !app_assoc by done. done.
    + rewrite (round_stop_plain _ (more u (set_text _ false _ f)) eq_refl E2). intros [= <- <- <-].
      rewrite (round_stop_plain _ (more u f) Hm Hf). cbn [pending more set_text position].
      rewrite split_kept by done. fold s. rewrite take_kept, drop_kept, advance_app by done.
      eexists. split; [done|]. by rewrite !text_of_push.
Qed.

(** Draining the whole is draining a part of it and then the rest. *)
Lemma Drains_app fin u f o1 f1 o2 f2 :
  Drains false f o1 f1 -> Drains fin (more u f1) o2 f2 ->
  exists o, Drains fin (more u f) o f2 /\ text_of o = text_of o1 ++ text_of o2.
Proof.
  intros H1. revert o2 f2; induction H1 as [f f1 o1 H|f g oa o1 f1 H _ IH]; intros o2 f2 H2.
  - inversion H2 as [? ? ? E|? f3 o3 o4 ? E Hd]; subst;
      destruct (round_stop _ _ _ _ _ _ _ _ H E) as (o' & E' & Ht).
    + exists o'. split; [by constructor|done].
    + exists (o' ++ o4). split; [by eapply Drains_again|]. by rewrite !text_of_app, Ht, app_assoc.
  - destruct (IH _ _ H2) as (o & Ho & Ht). exists (oa ++ o).
    split; [|by rewrite !text_of_app, Ht, app_assoc].
    eapply Drains_again; [by apply round_again|done].
Qed.

(** ** Streams *)

(** What a filter that started as [f0] has become after the text [t], of which [o]
    is out. *)
Definition Reached (f0 : ThinkingContentFilter) (t : bytes) (o : bytes) (f : ThinkingContentFilter) : Prop :=
  exists outs, Drains false (more t f0) outs f /\ text_of outs = o.

Lemma more_more u v f : more v (more u f) = more (u ++ v) f.
Proof. unfold more. cbn. by rewrite app_assoc. Qed.

Lemma more_nil f : more [] f = f.
Proof. unfold more, set_text. rewrite app_nil_r. by destruct f. Qed.

Lemma Reached_text f0 t o f u outs g :
  Reached f0 t o f -> Drains false (more u f) outs g -> Reached f0 (t ++ u) (o ++ text_of outs) g.
Proof.
  intros (o1 & H1 & <-) H2. destruct (Drains_app _ _ _ _ _ _ _ H1 H2) as (o' & H & Ht).
  rewrite more_more in H. by exists o'.
Qed.

(** A filter that has been drained has nothing more to say. *)
Lemma Reached_quiet f0 t o f : Reached f0 t o f -> drain false f = Some ([], f).
Proof.
  intros (o1 & H1 & Ho). destruct (drain_Drains false f) as (o2 & f2 & Hd & H2).
  rewrite <- (more_nil f) in H2. destruct (Drains_app _ _ _ _ _ _ _ H1 H2) as (o' & H & Ht).
  rewrite more_nil in *. destruct (Drains_det _ _ _ _ H1 _ _ H) as [-> ->].
  rewrite Hd. f_equal. f_equal. apply texts_nil; [by eapply Drains_texts|].
  rewrite <- (app_nil_r (text_of o1)) in Ht at 1. by apply app_inv_head in Ht.
Qed.

Lemma Reached_settings f0 t o f : Reached f0 t o f -> enabled f = enabled f0 /\ omit_summary f = omit_summary f0.
Proof. intros (o1 & H%Drains_settings & _). done. Qed.

Lemma others_app o o' : others (o ++ o') = others o ++ others o'.
Proof. apply List.filter_app. Qed.

Lemma thinking_push_spec f0 t o f event :
  Reached f0 t o f ->
  exists outs g, push f event = Some (outs, g) /\ Reached f0 (t ++ text_of [event]) (o ++ text_of outs) g
                 /\ others outs = omap (other_event f0) [event].
Proof.
  intros Hr. pose proof (Reached_quiet _ _ _ _ Hr) as Hq. pose proof (Reached_settings _ _ _ _ Hr) as [He Hs].
  assert (Hsame : forall c, text_of [event] = [] -> text_of c = [] ->
                    Reached f0 (t ++ text_of [event]) (o ++ text_of c) f).
  { intros c -> ->. by rewrite !app_nil_r. }
  unfold push. destruct event as [c|id name delta stop|c sig red|cs|v|v|k msg|ty v]; try rewrite Hq.
  1: { destruct (drain_Drains false (more (s2l c) f)) as (outs & g & Hd & H).
    unfold more in Hd. rewrite Hd. exists outs, g. split; [done|]. split.
    - replace (text_of _) with (s2l c) by (cbn; by rewrite app_nil_r). by eapply Reached_text.
    - by rewrite texts_others by (by eapply Drains_texts). }
  2: { rewrite He, Hs. cbn [omap list_omap other_event app].
    set (content := if omit_summary f0 then "" else c).
    destruct (enabled f0 && _); (eexists _, f; split; [done|split; [by apply Hsame|done]]). }
  all: eexists _, f; split; [done|split; [by apply Hsame|done]].
Qed.

Lemma text_of_cons event events : text_of (event :: events) = text_of [event] ++ text_of events.
Proof. exact (text_of_app [event] events). Qed.

Lemma thinking_push_all_spec f0 events t o f :
  Reached f0 t o f ->
  exists outs g, push_all f events = Some (outs, g) /\
    Reached f0 (t ++ text_of events) (o ++ text_of outs) g /\
    others outs = omap (other_event f0) events.
Proof.
  revert t o f; induction events as [|event events IH]; intros t o f Hr; cbn [push_all].
  { exists [], f. by rewrite !app_nil_r. }
  destruct (thinking_push_spec _ _ _ _ event Hr) as (o1 & f1 & -> & H1 & Ho1).
  destruct (IH _ _ _ H1) as (o2 & f2 & -> & H2 & Ho2). exists (o1 ++ o2), f2. split; [done|].
  rewrite text_of_cons, text_of_app, !app_assoc. split; [done|].
  rewrite others_app, Ho1, Ho2. change (event :: events) with ([event] ++ events).
  by rewrite omap_app.
Qed.

(** ** One draining of the whole *)

Lemma text_of_shown f c : text_of (show_text f c) = if shown f then c else [].
Proof. unfold show_text. destruct (shown f); [apply text_of_push|done]. Qed.

Lemma Drains_visible n f o f' :
  Drains true f o f' -> in_tagged_thinking f = false -> length (pending f) <= n ->
  text_of o = visible_from (shown f) n (position f) (pending f).
Proof.
  revert f o; induction n as [n IH] using lt_wf_ind; intros f o Hd Hm Hn.
  destruct (find_l START (pending f)) as [k|] eqn:E.
  - pose proof (find_l_Some _ _ _ E) as [Hk _]. rewrite START_length in Hk.
    destruct n as [|n]; [lia|]. cbn [visible_from]. rewrite E. cbv zeta.
    pose proof (round_tag true f k Hm E) as Hr. cbv zeta in Hr.
    inversion Hd as [? ? ? E1|? f1 o1 o2 ? E1 Hd1]; subst; rewrite Hr in E1; [discriminate|].
    injection E1 as <- <-. set (m := advance (position f) (take (k + length START) (pending f))) in *.
    set (rest := drop (k + length START) (pending f)) in *.
    assert (Hrest : length rest < n + 1).
    { unfold rest. rewrite length_drop, START_length. lia. }
    rewrite !text_of_app, text_of_push. destruct (in_code m) eqn:Hc; cbn [negb] in Hd1.
    + rewrite text_of_push. rewrite (IH n) with (f := set_text rest false m f); [|lia|done|done|cbn; lia].
      cbn [position pending set_text]. f_equal.
      pose proof (find_l_Some _ _ _ E) as [_ Htag]. rewrite <- Htag at 1.
      rewrite <- (take_drop k (pending f)) at 3. rewrite take_app_ge by (rewrite length_take; lia).
      do 2 f_equal. rewrite length_take. lia.
    + rewrite text_of_shown, <- app_assoc. f_equal. f_equal.
      destruct (find_l END rest) as [e|] eqn:E2.
      * inversion Hd1 as [? ? ? E3|? f3 o3 o4 ? E3 Hd3]; subst;
          rewrite (round_tagged_end true (set_text rest true m f) e eq_refl E2) in E3; [discriminate|].
        injection E3 as <- <-. cbn [pending set_text] in *.
        assert (Hrest2 : length (drop (e + length END) rest) <= n) by (rewrite length_drop; lia).
        rewrite text_of_app, show_text_settings, text_of_shown. f_equal.
        by rewrite (IH n ltac:(lia) _ _ Hd3 eq_refl Hrest2).
      * inversion Hd1 as [? ? ? E3|? f3 o3 o4 ? E3 Hd3]; subst;
          rewrite (round_tagged_stop true (set_text rest true m f) eq_refl E2) in E3; [|discriminate].
        injection E3 as <- <-. cbn [pending set_text split_of] in *.
        rewrite show_text_settings, text_of_shown, take_ge by done. done.
  - pose proof (round_stop_plain true f Hm E) as Hr.
    inversion Hd as [? ? ? E1|? f1 o1 o2 ? E1 Hd1]; subst; rewrite Hr in E1; [|discriminate].
    injection E1 as <- <-. cbn [split_of]. rewrite text_of_push, take_ge by done.
    destruct n; cbn [visible_from]; [done|]. by rewrite E.
Qed.

(** Tagged thinking that is shown stays where it is. *)
Lemma visible_from_shown n m text : visible_from true n m text = text.
Proof.
  revert m text; induction n as [|n IH]; intros m text; cbn [visible_from]; [done|].
  destruct (find_l START text) as [k|] eqn:E; [|done]. cbv zeta.
  pose proof (find_l_Some _ _ _ E) as [Hk Htag].
  assert (Hsplit : take k text ++ START ++ drop (k + length START) text = text).
  { rewrite <- Htag at 1. rewrite <- drop_drop, take_drop. apply take_drop. }
  destruct (in_code _).
  - rewrite IH. apply take_drop.
  - etrans; [|exact Hsplit]. do 2 f_equal. destruct (find_l END _); [|done]. rewrite IH. apply take_drop.
Qed.

(** ** The theorem *)

Definition start (on omit : bool) : ThinkingContentFilter := with_omitted_summary omit (new on).

Lemma start_Reached on omit : Reached (start on omit) [] [] (start on omit).
Proof.
  rewrite <- (more_nil (start on omit)) at 2. exists []. split; [|done].
  rewrite more_nil. constructor. apply (round_stop_plain false (start on omit) eq_refl eq_refl).
Qed.

(** What the filter still holds completes the text. *)
Lemma finish_text on omit t o f :
  Reached (start on omit) t o f ->
  exists last f', finish f = Some (last, f') /\ o ++ text_of last = visible (on && negb omit) t
                  /\ others last = [].
Proof.
  intros (o1 & Hd & <-). destruct (drain_Drains true f) as (last & f' & Hfin & Hlast).
  exists last, f'. split; [done|]. split; [|by apply texts_others; eapply Drains_texts].
  rewrite <- (more_nil f) in Hlast. destruct (Drains_app _ _ _ _ _ _ _ Hd Hlast) as (o' & Hd' & Ht).
  rewrite more_more, app_nil_r in Hd'. cbn [app] in *. rewrite <- Ht. unfold visible.
  by rewrite (Drains_visible (length t) _ _ _ Hd' eq_refl).
Qed.

(** C28: However Kiro cuts the text of an answer into events, and whatever other
    events come between, the filter puts out the text that [visible] reads off
    the whole answer: tagged thinking outside of code is dropped, or shown as it
    is when thinking is on and its summary is wanted, in which case not a byte of
    the answer changes.  Other events pass in their order, native reasoning only
    when thinking is on and without a summary that is not wanted. *)
Theorem thinking_filter_spec on omit events :
  let f := with_omitted_summary omit (new on) in
  exists outs f' last f'',
    push_all f events = Some (outs, f') /\ finish f' = Some (last, f'') /\
    text_of (outs ++ last) = visible (on && negb omit) (text_of events) /\
    (on && negb omit = true -> text_of (outs ++ last) = text_of events) /\
    others (outs ++ last) = omap (other_event f) events.
Proof.
  intros f.
  destruct (thinking_push_all_spec f events [] [] f (start_Reached on omit)) as (outs & f' & Hpush & Hr & Hothers).
  destruct (finish_text on omit _ _ _ Hr) as (last & f'' & Hfin & Htext & Hlast). cbn [app] in *.
  rewrite <- text_of_app in Htext.
  exists outs, f', last, f''. split; [done|]. split; [done|]. split; [done|]. split.
  - intros Hshow. rewrite Htext, Hshow. apply visible_from_shown.
  - by rewrite others_app, Hothers, Hlast, app_nil_r.
Qed.
