(* ===== verification/RepairJson.v ===== *)
(** * Tool inputs that arrive cut short

    [repair_json], [normalize_partial_json] and [custom_tool_input] of
    [kproxyd/src/http/response.rs].  The JSON parser is an argument.  The theorem:
    a well-bracketed text that is cut off, not behind a backslash, is completed to a
    well-bracketed text. *)

From Stdlib Require Import ZArith Lia Ascii String List.
From stdpp Require Import base list sets tactics strings.
From S2P Require Import Prelude RustStr F64 Json Text.

Local Open Scope string_scope.
Local Open Scope list_scope.

Definition is_quote (c : bytes) : bool := bool_decide (c = ["034"%char]).
Definition is_backslash (c : bytes) : bool := bool_decide (c = ["092"%char]).
Definition is_one (a : ascii) (c : bytes) : bool := bool_decide (c = [a]).

(** Where a scan stands: in a string, behind a backslash. *)
Record Quoting := { in_string : bool; escaped : bool }.

Definition outside : Quoting := {| in_string := false; escaped := false |}.

(** One more character within a string. *)
Definition quote_step (q : Quoting) (c : bytes) : Quoting :=
  if escaped q then {| in_string := true; escaped := false |}
  else if is_backslash c then {| in_string := true; escaped := true |}
  else if is_quote c then outside
  else q.

Definition escape_control (c : bytes) : bytes :=
  if is_one "010" c then ["092"; "n"]%char
  else if is_one "013" c then ["092"; "r"]%char
  else if is_one "009" c then ["092"; "t"]%char
  else c.

(** A comma in front of a closing bracket. *)
Definition closes_next (rest : list bytes) : bool :=
  is_some_and (List.find (fun c => negb (char_is_whitespace c)) rest)
    (fun c => is_one "}" c || is_one "]" c).

Fixpoint normalize_chars (q : Quoting) (l : list bytes) : bytes :=
  match l with
  | [] => []
  | c :: rest =>
      if in_string q then escape_control c ++ normalize_chars (quote_step q c) rest
      else if is_quote c then c ++ normalize_chars {| in_string := true; escaped := escaped q |} rest
      else if is_one "," c && closes_next rest then normalize_chars q rest
      else c ++ normalize_chars q rest
  end.

Definition normalize_partial_json (input : string) : string :=
  l2s (normalize_chars outside (chars input)).

(** The brackets that are open, the last one first. *)
Definition scan_step (st : list bytes * Quoting) (c : bytes) : list bytes * Quoting :=
  let '(stack, q) := st in
  if in_string q then (stack, quote_step q c)
  else if is_quote c then (stack, {| in_string := true; escaped := escaped q |})
  else if is_one "{" c then (["}"%char] :: stack, q)
  else if is_one "[" c then (["]"%char] :: stack, q)
  else if is_one "}" c || is_one "]" c then
    match stack with
    | top :: rest => if bool_decide (top = c) then (rest, q) else (stack, q)
    | [] => (stack, q)
    end
  else (stack, q).

Definition scan (l : list bytes) : list bytes * Quoting := fold_left scan_step l ([], outside).

(** [while repaired.ends_with(f) { repaired.pop(); }] *)
Fixpoint pop_while (f : bytes -> bool) (reversed : list bytes) : list bytes :=
  match reversed with
  | c :: rest => if f c then pop_while f rest else reversed
  | [] => []
  end.

Definition drop_trailing (f : bytes -> bool) (l : list bytes) : list bytes :=
  reverse (pop_while f (reverse l)).

Definition pop_comma (l : list bytes) : list bytes :=
  match reverse l with
  | c :: rest => if is_one "," c then reverse rest else l
  | [] => l
  end.

(** The text with its string and its brackets closed. *)
Definition close_chars (repaired : list bytes) : list bytes :=
  let '(stack, q) := scan repaired in
  let repaired := if in_string q then repaired ++ [["034"%char]] else repaired in
  pop_comma (drop_trailing char_is_whitespace repaired) ++ stack.

Definition close_json (repaired : string) : string := l2s (concat (close_chars (chars repaired))).

Section Parser.
Context (parse_json : string -> option value).

Definition repair_json (input : string) : value :=
  let trimmed := trim input in
  if is_empty trimmed then Object []
  else
    match parse_json trimmed with
    | Some v => v
    | None =>
        match parse_json (close_json (normalize_partial_json trimmed)) with
        | Some v => v
        | None => json_object [("raw", Str trimmed)]
        end
    end.

Definition custom_tool_input (input : string) : string :=
  match repair_json input with
  | Object m =>
      unwrap_or
        (or_else (obj_get m "input" ≫= as_str)
           (match m with [(_, v)] => as_str v | _ => None end)) input
  | Str v => v
  | _ => input
  end.
End Parser.

(** ** Balance *)

(** The brackets to come are closing ones, and only a string has escapes. *)
Definition Sound (st : list bytes * Quoting) : Prop :=
  Forall (fun c => is_one "}" c || is_one "]" c = true) (fst st)
  /\ (in_string (snd st) = false -> escaped (snd st) = false).

Lemma scan_step_sound st c : Sound st -> Sound (scan_step st c).
Proof.
  destruct st as [stack q]. intros [Hs Hq]. unfold scan_step, quote_step. cbn [fst snd] in *.
  repeat case_match; subst; split; cbn [fst snd in_string escaped outside]; auto; try discriminate.
  all: try (constructor; [reflexivity|done]).
  all: by apply list.Forall_cons in Hs as [_ Hs].
Qed.

Lemma scan_sound l : Sound (scan l).
Proof.
  unfold scan. assert (H : Sound ([], outside)) by by split; [constructor|].
  revert H. generalize (@nil bytes, outside). induction l as [|c l IH]; intros st H; [done|].
  cbn [fold_left]. apply IH. by apply scan_step_sound.
Qed.

Lemma scan_snoc l c : scan (l ++ [c]) = scan_step (scan l) c.
Proof. unfold scan. by rewrite fold_left_app. Qed.

(** A character that neither opens nor closes anything. *)
Definition plain (c : bytes) : bool :=
  negb (is_quote c || is_one "{" c || is_one "[" c || is_one "}" c || is_one "]" c).

Lemma scan_pop l c :
  plain c = true -> in_string (snd (scan (l ++ [c]))) = false -> scan (l ++ [c]) = scan l.
Proof.
  rewrite scan_snoc. destruct (scan l) as [stack q]. unfold plain, scan_step, quote_step. intros Hp.
  bool_simpl. destruct (in_string q) eqn:E.
  - destruct (escaped q), (is_backslash c); rewrite ?H, ?H0; cbn; try discriminate.
    all: repeat match goal with H : _ = false |- _ => rewrite H end; cbn; congruence.
  - repeat match goal with H : _ = false |- _ => rewrite H end. done.
Qed.

Lemma plain_space c : char_is_whitespace c = true -> plain c = true.
Proof.
  intros H. apply not_false_iff_true. intros E. unfold plain, is_quote, is_one in E.
  apply negb_false_iff in E. rewrite !orb_true_iff, !bool_decide_eq_true in E.
  destruct E as [[[[->| ->]| ->]| ->]| ->]; done.
Qed.

Lemma plain_comma c : is_one "," c = true -> plain c = true.
Proof. intros ->%bool_decide_eq_true. done. Qed.

Lemma scan_trailing l :
  in_string (snd (scan l)) = false -> scan (drop_trailing char_is_whitespace l) = scan l.
Proof.
  unfold drop_trailing. rewrite <- (reverse_involutive l) at 1 3.
  induction (reverse l) as [|c k IH]; [done|]. cbn [pop_while]. rewrite reverse_cons. intros Hq.
  destruct (char_is_whitespace c) eqn:E; [|by rewrite reverse_cons].
  pose proof (scan_pop _ _ (plain_space _ E) Hq) as Hs. rewrite Hs in Hq |- *. by apply IH.
Qed.

Lemma scan_comma l : in_string (snd (scan l)) = false -> scan (pop_comma l) = scan l.
Proof.
  unfold pop_comma. intros Hq. destruct (reverse l) as [|c k] eqn:E; [done|].
  destruct (is_one "," c) eqn:Hc; [|done]. apply (f_equal reverse) in E.
  rewrite reverse_involutive, reverse_cons in E. subst l. symmetry.
  apply scan_pop; [by apply plain_comma|done].
Qed.

Lemma scan_stack l k q :
  scan l = (k, q) -> in_string q = false -> Sound (k, q) -> scan (l ++ k) = ([], q).
Proof.
  intros Hl Hq [Hk _]. revert l Hl; induction k as [|c k IH]; intros l Hl; [by rewrite app_nil_r|].
  apply list.Forall_cons in Hk as [Hc Hk]. rewrite cons_middle, app_assoc. apply IH; [done|].
  rewrite scan_snoc, Hl. unfold scan_step. rewrite Hq.
  assert (is_quote c = false /\ is_one "{" c = false /\ is_one "[" c = false) as (-> & -> & ->).
  { apply orb_true_iff in Hc as [->%bool_decide_eq_true| ->%bool_decide_eq_true]; done. }
  rewrite Hc. by rewrite bool_decide_eq_true_2.
Qed.

Lemma close_chars_scan l : escaped (snd (scan l)) = false -> scan (close_chars l) = ([], outside).
Proof.
  intros He. unfold close_chars. pose proof (scan_sound l) as Hs. destruct (scan l) as [stack q] eqn:E.
  cbn [snd] in He. set (l1 := if in_string q then _ else l).
  assert (H1 : scan l1 = (stack, outside)).
  { subst l1. destruct (in_string q) eqn:Hq.
    - rewrite scan_snoc, E. unfold scan_step, quote_step. by rewrite Hq, He.
    - rewrite E. destruct q; cbn in *; by subst. }
  apply scan_stack; [|done|by destruct Hs].
  rewrite scan_comma; rewrite scan_trailing; by rewrite H1.
Qed.

(** ** Well-bracketed texts *)

(** What is within the quotes of a string, or of a part of one that may stop behind
    a backslash. *)
Inductive Body : bool -> list bytes -> Prop :=
| Body_nil : Body false []
| Body_char l c : Body false l -> is_quote c = false -> is_backslash c = false -> Body false (l ++ [c])
| Body_backslash l c : Body false l -> is_backslash c = true -> Body true (l ++ [c])
| Body_escaped l c : Body true l -> Body false (l ++ [c]).

Inductive Balanced : list bytes -> Prop :=
| Balanced_nil : Balanced []
| Balanced_char c : plain c = true -> Balanced [c]
| Balanced_app a b : Balanced a -> Balanced b -> Balanced (a ++ b)
| Balanced_string l : Body false l -> Balanced (["034"%char] :: l ++ [["034"%char]])
| Balanced_object l : Balanced l -> Balanced (["{"%char] :: l ++ [["}"%char]])
| Balanced_array l : Balanced l -> Balanced (["["%char] :: l ++ [["]"%char]]).

(** A scan that refuses a closing bracket which closes nothing. *)
Definition strict_step (st : option (list bytes * Quoting)) (c : bytes) : option (list bytes * Quoting) :=
  match st with
  | Some (stack, q) =>
      if negb (in_string q) && (is_one "}" c || is_one "]" c) && negb (bool_decide (head stack = Some c))
      then None else Some (scan_step (stack, q) c)
  | None => None
  end.

Notation strict_from := (fold_left strict_step).
Notation strict l := (fold_left strict_step l (Some ([], outside))).

Lemma strict_None l : strict_from l None = None.
Proof. by induction l. Qed.

Lemma strict_snoc l c : strict (l ++ [c]) = strict_step (strict l) c.
Proof. by rewrite fold_left_app. Qed.

Lemma strict_prefix a b st : strict (a ++ b) = Some st -> exists st', strict a = Some st'.
Proof.
  rewrite fold_left_app. destruct (strict a) as [st'|]; [by exists st'|]. by rewrite strict_None.
Qed.

Lemma strict_scan l st : strict l = Some st -> scan l = st.
Proof.
  revert st; induction l as [|c l IH] using rev_ind; intros st; [by intros [= <-]|].
  rewrite strict_snoc, scan_snoc. destruct (strict l) as [[stack q]|]; [|done].
  rewrite (IH _ eq_refl). cbn [strict_step]. destruct (_ && _); [done|]. by intros [= <-].
Qed.

Lemma body_strict stack b l :
  Body b l -> strict_from l (Some (stack, {| in_string := true; escaped := false |}))
              = Some (stack, {| in_string := true; escaped := b |}).
Proof.
  induction 1 as [|l c _ IH Hq Hb|l c _ IH Hb|l c _ IH]; [done|..];
    rewrite fold_left_app, IH; cbn [fold_left strict_step in_string negb andb scan_step];
    unfold quote_step; cbn [escaped]; by rewrite ?Hq, ?Hb.
Qed.

Lemma balanced_strict l stack :
  Balanced l -> strict_from l (Some (stack, outside)) = Some (stack, outside).
Proof.
  intros H. revert stack. induction H as [|c Hc|a b _ IHa _ IHb|l Hl|l _ IH|l _ IH]; intros stack; [done|..].
  - unfold plain in Hc. bool_simpl. cbn [fold_left strict_step scan_step in_string outside negb andb].
    repeat match goal with H : _ = false |- _ => rewrite H end. done.
  - by rewrite fold_left_app, IHa, IHb.
  - cbn [fold_left]. rewrite fold_left_app.
    change (strict_step (Some (stack, outside)) ["034"%char])
      with (Some (stack, {| in_string := true; escaped := false |})).
    by rewrite (body_strict stack false l Hl).
  - cbn [fold_left]. rewrite fold_left_app.
    change (strict_step (Some (stack, outside)) ["{"%char]) with (Some (["}"%char] :: stack, outside)).
    rewrite IH. done.
  - cbn [fold_left]. rewrite fold_left_app.
    change (strict_step (Some (stack, outside)) ["["%char]) with (Some (["]"%char] :: stack, outside)).
    rewrite IH. done.
Qed.

(** A text in which the brackets of the stack are open. *)
Inductive Open : list bytes -> list bytes -> Prop :=
| Open_nil b : Balanced b -> Open [] b
| Open_object stack l b : Open stack l -> Balanced b -> Open (["}"%char] :: stack) (l ++ ["{"%char] :: b)
| Open_array stack l b : Open stack l -> Balanced b -> Open (["]"%char] :: stack) (l ++ ["["%char] :: b).

Lemma open_balanced stack l b : Open stack l -> Balanced b -> Open stack (l ++ b).
Proof.
  intros H Hb. destruct H; rewrite <- ?app_assoc; constructor; auto using Balanced_app.
Qed.

Lemma open_close c stack l : Open (c :: stack) l -> Open stack (l ++ [c]).
Proof.
  intros H. inversion H; subst; rewrite <- app_assoc, <- app_comm_cons; apply open_balanced; auto using Balanced_object, Balanced_array.
Qed.

Lemma open_stack stack l : Open stack l -> Balanced (l ++ stack).
Proof.
  revert l; induction stack as [|c stack IH]; intros l H.
  - inversion H; subst. by rewrite app_nil_r.
  - apply open_close, IH in H. by rewrite <- app_assoc in H.
Qed.

(** What a strict scan has found. *)
Definition Found (l : list bytes) (st : list bytes * Quoting) : Prop :=
  let '(stack, q) := st in
  if in_string q then exists front body, l = front ++ ["034"%char] :: body /\ Open stack front /\ Body (escaped q) body
  else q = outside /\ Open stack l.

Lemma strict_found l st : strict l = Some st -> Found l st.
Proof.
  revert st; induction l as [|c l IH] using rev_ind; intros st.
  { intros [= <-]. split; [done|]. apply Open_nil, Balanced_nil. }
  rewrite strict_snoc. destruct (strict l) as [[stack q]|]; [|done]. specialize (IH _ eq_refl).
  cbn [strict_step]. unfold Found in IH. destruct (in_string q) eqn:Hq; cbn [negb andb].
  - destruct IH as (front & body & -> & Ho & Hb). intros [= <-]. cbn [scan_step]. rewrite Hq.
    unfold Found, quote_step. rewrite <- app_assoc, <- app_comm_cons. destruct (escaped q) eqn:Hesc.
    + cbn [in_string escaped]. exists front, (body ++ [c]). by auto using Body_escaped.
    + destruct (is_backslash c) eqn:Eb; cbn [in_string escaped].
      { exists front, (body ++ [c]). by auto using Body_backslash. }
      destruct (is_quote c) eqn:Ec; cbn [in_string outside].
      * split; [done|]. apply open_balanced; [done|]. apply bool_decide_eq_true in Ec as ->. by apply Balanced_string.
      * rewrite Hq, Hesc. exists front, (body ++ [c]). by auto using Body_char.
  - destruct IH as [-> Ho]. destruct (_ && _) eqn:Eg; [done|]. intros [= <-].
    cbn [scan_step in_string outside]. destruct (is_quote c) eqn:Ec.
    { apply bool_decide_eq_true in Ec as ->. cbn. exists l, []. by auto using Body_nil. }
    destruct (is_one "{" c) eqn:E1.
    { apply bool_decide_eq_true in E1 as ->. split; [done|]. by apply Open_object, Balanced_nil. }
    destruct (is_one "[" c) eqn:E2.
    { apply bool_decide_eq_true in E2 as ->. split; [done|]. by apply Open_array, Balanced_nil. }
    destruct (is_one "}" c || is_one "]" c) eqn:E3.
    + cbn [andb] in Eg. apply negb_false_iff, bool_decide_eq_true in Eg. destruct stack as [|top stack]; [done|].
      injection Eg as ->. rewrite bool_decide_eq_true_2 by done. split; [done|]. by apply open_close.
    + split; [done|]. apply open_balanced; [done|]. apply Balanced_char. unfold plain.
      apply orb_false_iff in E3 as [-> ->]. by rewrite Ec, E1, E2.
Qed.

(** What is taken from the end. *)
Lemma drop_trailing_app f l : exists spaces, l = drop_trailing f l ++ spaces /\ Forall (fun c => f c = true) spaces.
Proof.
  enough (H : forall k, exists spaces, reverse k = reverse (pop_while f k) ++ spaces
                                       /\ Forall (fun c => f c = true) spaces).
  { destruct (H (reverse l)) as (spaces & Hl & Hs). rewrite reverse_involutive in Hl. by exists spaces. }
  induction k as [|c k IH]; [by exists []|]. cbn [pop_while]. destruct (f c) eqn:E; [|exists []; by rewrite app_nil_r].
  destruct IH as (spaces & H & Hs). exists (spaces ++ [c]). rewrite reverse_cons, H, app_assoc.
  split; [done|]. apply list.Forall_app. split; [done|]. by constructor.
Qed.

Lemma pop_comma_app l : exists comma, l = pop_comma l ++ comma /\ (comma = [] \/ comma = [[","%char]]).
Proof.
  unfold pop_comma. destruct (reverse l) as [|c k] eqn:E; [exists []; rewrite app_nil_r; auto|].
  destruct (is_one "," c) eqn:Hc; [|exists []; rewrite app_nil_r; auto].
  apply bool_decide_eq_true in Hc as ->. exists [[","%char]]. split; [|auto].
  apply (f_equal reverse) in E. by rewrite reverse_involutive, reverse_cons in E.
Qed.

Definition closer (c : bytes) : bool := is_quote c || is_one "}" c || is_one "]" c.

(** C30: However a well-bracketed text is cut off, if it is not behind a backslash
    within a string, the text that is parsed instead is well bracketed: outside of
    its strings every bracket is closed by its own, in order, and no string is left
    open.  It begins with the text that there is, from whose end nothing but white
    space and, in front of it, one comma is taken, and only closing quotes and
    brackets are added. *)
Theorem close_chars_balanced l rest :
  Balanced (l ++ rest) -> escaped (snd (scan l)) = false ->
  Balanced (close_chars l)
  /\ exists kept comma spaces closing,
       l = kept ++ comma ++ spaces /\ close_chars l = kept ++ closing
       /\ (comma = [] \/ comma = [[","%char]])
       /\ Forall (fun c => char_is_whitespace c = true) spaces
       /\ Forall (fun c => closer c = true) closing.
Proof.
  intros Hb He. apply (balanced_strict _ []) in Hb. apply strict_prefix in Hb as [[stack q] Hst].
  pose proof (strict_scan _ _ Hst) as Hscan. pose proof (scan_sound l) as [Hstack _].
  rewrite Hscan in He, Hstack. cbn [fst snd] in He, Hstack.
  assert (Hclosers : Forall (fun c => closer c = true) stack).
  { eapply list.Forall_impl; [exact Hstack|]. intros c Hc. unfold closer. by rewrite <- orb_assoc, Hc, orb_true_r. }
  pose proof (strict_found _ _ Hst) as Hf. unfold close_chars. rewrite Hscan. unfold Found in Hf.
  destruct (in_string q) eqn:Hq.
  - destruct Hf as (front & body & Hl & Ho & Hbody). rewrite He in Hbody.
    assert (Hsame : pop_comma (drop_trailing char_is_whitespace (l ++ [["034"%char]])) = l ++ [["034"%char]]).
    { unfold drop_trailing. rewrite reverse_snoc. cbn [pop_while].
      change (char_is_whitespace ["034"%char]) with false. cbn iota. rewrite <- (reverse_snoc l), reverse_involutive.
      unfold pop_comma. by rewrite reverse_snoc. }
    rewrite Hsame. split.
    + apply open_stack. rewrite Hl, <- app_assoc, <- app_comm_cons. apply open_balanced; [done|]. by apply Balanced_string.
    + exists l, [], [], (["034"%char] :: stack). rewrite app_nil_r, <- app_assoc.
      split_and!; auto.
  - destruct (drop_trailing_app char_is_whitespace l) as (spaces & Hl & Hs).
    destruct (pop_comma_app (drop_trailing char_is_whitespace l)) as (comma & Hc & Hcomma).
    set (kept := pop_comma _) in *. split.
    + apply open_stack.
      assert (Hk : exists st, strict kept = Some st).
      { eapply (strict_prefix kept (comma ++ spaces)). rewrite app_assoc, <- Hc, <- Hl. exact Hst. }
      destruct Hk as [st Hk]. pose proof (strict_scan _ _ Hk) as Hks.
      assert (scan kept = (stack, q)) as Hkept.
      { subst kept. rewrite scan_comma; rewrite scan_trailing; by rewrite Hscan. }
      rewrite Hkept in Hks. subst st. apply strict_found in Hk. unfold Found in Hk. rewrite Hq in Hk. apply Hk.
    + exists kept, comma, spaces, stack. rewrite app_assoc, <- Hc, <- Hl. split_and!; auto.
Qed.

(** An object whose array and string are open. *)
Definition demo_cut : list bytes :=
  [["{"]; ["034"]; ["a"]; ["034"]; [":"]; ["["]; ["1"]; [","]; ["034"]; ["x"]]%char.

(** [{"a":[1,"x"]}] *)
Lemma demo_cut_balanced : Balanced (demo_cut ++ [["034"]; ["]"]; ["}"]]%char).
Proof.
  change (Balanced (["{"] :: ((["034"] :: [["a"]] ++ [["034"]]) ++ [[":"]]
            ++ (["["] :: (([["1"]] ++ [[","]]) ++ (["034"] :: [["x"]] ++ [["034"]])) ++ [["]"]])) ++ [["}"]])%char).
  assert (Hbody : forall a, is_quote [a] = false -> is_backslash [a] = false -> Body false [[a]])
    by (intros a H1 H2; apply (Body_char [] [a] Body_nil H1 H2)).
  apply Balanced_object, Balanced_app; [by apply Balanced_string, Hbody|].
  apply Balanced_app; [by apply Balanced_char|]. apply Balanced_array, Balanced_app; [|by apply Balanced_string, Hbody].
  apply Balanced_app; by apply Balanced_char.
Qed.

Lemma close_chars_balanced_witness :
  concat (close_chars demo_cut) = concat (demo_cut ++ [["034"]; ["]"]; ["}"]]%char)
  /\ Balanced (close_chars demo_cut).
Proof.
  split; [vm_compute; reflexivity|].
  apply (close_chars_balanced demo_cut [["034"]; ["]"]; ["}"]]%char); [exact demo_cut_balanced|reflexivity].
Defined.
