(* ===== verification/ToolLeak.v ===== *)
(** * Tool calls that leaked into the text

    [ToolLeakFilter] of [kproxyd/src/http/response.rs]: Kiro may write a tool call
    as XML into its answer.  The filter holds back the text from the first marker
    of such a call to its end, and either recovers the call, to be sent when the
    answer is over, or gives the text back.  Text is its bytes; markers are ASCII,
    so that slices start on character boundaries.  The JSON parser and printer and
    the random identifiers are arguments. *)

From Stdlib Require Import ZArith Lia Ascii String List.
From stdpp Require Import base list gmap sets tactics strings.
From S2P Require Import Prelude RustStr F64 Json Protocol Model EventStream Text Occurs ThinkingFilter RepairJson.

Local Open Scope kproxy_scope.
Local Open Scope string_scope.
Local Open Scope list_scope.

(** ** Searching *)

Definition FUNCTION_CALLS : bytes := s2l "<function_calls".
Definition TOOL_USE : bytes := s2l "<tool_use".
Definition MARKERS : list bytes := [FUNCTION_CALLS; TOOL_USE; THINKING_START_TAG; THINKING_END_TAG].

(** [str::match_indices]. *)
Fixpoint match_indices (fuel : nat) (marker text : bytes) (offset : nat) : list nat :=
  match fuel with
  | O => []
  | S fuel =>
      match find_l marker text with
      | None => []
      | Some k =>
          offset + k :: match_indices fuel marker (drop (k + length marker) text)
                          (offset + k + length marker)
      end
  end.

(** The element name must be complete. *)
Definition ends_name (marker lower : bytes) (index : nat) : bool :=
  bool_decide (last marker = Some ">"%char)
  || is_none_or (lower !! (index + length marker)) (fun a => is_ascii_whitespace a || Ascii.eqb a ">").

Definition first_match (lower marker : bytes) : option (nat * bytes) :=
  find_map (fun index => if ends_name marker lower index then Some (index, marker) else None)
    (match_indices (S (length lower)) marker lower 0).

Definition first_marker (text : bytes) : option (nat * bytes) :=
  min_by_key (fun m => Z.of_nat m.1) (omap (first_match (lower_l text)) MARKERS).

(** The longest end of the text that may begin a marker. *)
Definition marker_prefix_suffix (text : bytes) : nat :=
  let lower := lower_l text in
  max_list (marker ← MARKERS;
            List.filter (fun n => bool_decide (take n marker `suffix_of` lower))
              (seq 1 (length marker - 1)))
  `min` length text.

Definition find_insensitive_from (text needle : bytes) (from : nat) : option nat :=
  if (from <=? length text)%nat then Nat.add from <$> find_l (lower_l needle) (lower_l (drop from text))
  else None.

(** [str::find] of a byte. *)
Definition find_byte (f : ascii -> bool) (text : bytes) : option nat := Prelude.position f text.

(** ** XML *)

Definition decode_xml (text : bytes) : bytes :=
  let replace_l pat rep text := replace_l (s2l pat) rep 0 text in
  replace_l "&amp;" ["&"%char]
    (replace_l "&gt;" [">"%char]
      (replace_l "&lt;" ["<"%char]
        (replace_l "&apos;" ["'"%char]
          (replace_l "&quot;" ["034"%char] text)))).

(** [rest.starts_with(char::is_whitespace)]. *)
Definition starts_space (text : bytes) : bool := is_some (ws_step text).

(** [inner.find(char::is_whitespace)]. *)
Fixpoint find_space (text : bytes) : option nat :=
  if starts_space text then Some 0
  else match text with [] => None | _ :: text => S <$> find_space text end.

Definition is_name_byte (a : ascii) : bool :=
  is_ascii_alphanumeric a || is_char "_" a || is_char "-" a || is_char ":" a || is_char "." a.

Definition is_attribute_quote (a : ascii) : bool := Ascii.eqb a "'" || Ascii.eqb a "034".

(** One attribute: its name, its value and what follows. *)
Definition xml_attribute (rest : bytes) : option (bytes * bytes * bytes) :=
  if negb (starts_space rest) then None else
  let rest := trim_start_l rest in
  match find_byte (fun a => negb (is_name_byte a)) rest with
  | None | Some O => None
  | Some e =>
      let name := lower_l (take e rest) in
      match strip_prefix_l ["="%char] (trim_start_l (drop e rest)) with
      | None => None
      | Some rest =>
          match trim_start_l rest with
          | quote :: rest =>
              if is_attribute_quote quote then
                match find_byte (Ascii.eqb quote) rest with
                | Some e => Some (name, decode_xml (take e rest), drop (S e) rest)
                | None => None
                end
              else None
          | [] => None
          end
      end
  end.

(** Duplicate and malformed attributes fail; each round consumes its attribute. *)
Fixpoint xml_attributes_loop (fuel : nat) (rest : bytes) (attributes : gmap string bytes) :
    option (gmap string bytes) :=
  match fuel with
  | O => None
  | S fuel =>
      if is_nil (trim_start_l rest) then Some attributes
      else
        match xml_attribute rest with
        | Some (name, v, rest) =>
            if is_some (attributes !! l2s name) then None
            else xml_attributes_loop fuel rest (<[l2s name := v]> attributes)
        | None => None
        end
  end.

Definition xml_attributes (tag : bytes) : option (gmap string bytes) :=
  match strip_prefix_l ["<"%char] tag with
  | None => None
  | Some inner =>
      match reverse inner with
      | a :: r =>
          if Ascii.eqb a ">" then
            let inner := reverse r in
            let rest := drop (unwrap_or (find_space inner) (length inner)) inner in
            xml_attributes_loop (S (length rest)) rest ∅
          else None
      | [] => None
      end
  end.

(** ** Parameter types *)

Record XmlParameterTypes := { p_string : bool; p_other : bool; p_specified : bool }.

Definition ANY : XmlParameterTypes := {| p_string := true; p_other := true; p_specified := false |}.
Definition NONE : XmlParameterTypes := {| p_string := false; p_other := false; p_specified := true |}.

Definition is_string (v : value) : bool := match v with Str _ => true | _ => false end.

Definition value_type (v : value) : XmlParameterTypes :=
  {| p_string := is_string v; p_other := negb (is_string v); p_specified := true |}.

Definition intersect (a b : XmlParameterTypes) : XmlParameterTypes :=
  {| p_string := p_string a && p_string b; p_other := p_other a && p_other b;
     p_specified := p_specified a || p_specified b |}.

Definition union_types (a b : XmlParameterTypes) : XmlParameterTypes :=
  {| p_string := p_string a || p_string b; p_other := p_other a || p_other b;
     p_specified := p_specified a || p_specified b |}.

Definition OTHER_KINDS : list string := ["null"; "boolean"; "number"; "integer"; "array"; "object"].

(** The kinds a [type] declares. *)
Fixpoint declared_types (kinds : list value) (declared : XmlParameterTypes) : option XmlParameterTypes :=
  match kinds with
  | [] => Some declared
  | Str kind :: kinds =>
      if bool_decide (kind = "string") then
        declared_types kinds
          {| p_string := true; p_other := p_other declared; p_specified := p_specified declared |}
      else if mem kind OTHER_KINDS then
        declared_types kinds
          {| p_string := p_string declared; p_other := true; p_specified := p_specified declared |}
      else None
  | _ :: _ => None
  end.

Definition type_hint (schema : value) : option XmlParameterTypes :=
  match get schema "type" with
  | None => Some ANY
  | Some kind =>
      intersect ANY <$> declared_types (match kind with Array l => l | v => [v] end) NONE
  end.

Definition enum_hint (schema : value) (hint : XmlParameterTypes) : option XmlParameterTypes :=
  match get schema "enum" with
  | None => Some hint
  | Some (Array values) =>
      Some (intersect hint (fold_left (fun t v => union_types t (value_type v)) values NONE))
  | Some _ => None
  end.

Definition const_hint (schema : value) (hint : XmlParameterTypes) : XmlParameterTypes :=
  match get schema "const" with
  | None => hint
  | Some v => intersect hint (value_type v)
  end.

(** What a schema says itself about its values. *)
Definition own_hint (schema : value) : option XmlParameterTypes :=
  const_hint schema <$> (type_hint schema ≫= enum_hint schema).

(** A JSON pointer: the tokens behind each slash, unescaped. *)
Definition pointer_tokens (path : string) : option (list string) :=
  if is_empty path then Some []
  else if starts_with path "/" then
    Some ((fun token => replace (replace token "~1" "/") "~0" "~") <$> tail (split path (is_char "/")))
  else None.

(** A decimal index of an array. *)
Definition array_index (token : string) : option nat :=
  if starts_with token "+" || (starts_with token "0" && negb (bool_decide (len token = 1))) then None
  else Z.to_nat <$> parse_unsigned USIZE_MAX token.

Fixpoint resolve (v : value) (tokens : list string) : option value :=
  match tokens with
  | [] => Some v
  | token :: tokens =>
      match v with
      | Object m => obj_get m token ≫= fun v => resolve v tokens
      | Array l => array_index token ≫= fun i => (l !! i) ≫= fun v => resolve v tokens
      | _ => None
      end
  end.

Definition value_pointer (root : value) (path : string) : option value :=
  pointer_tokens path ≫= resolve root.

(** The steps that remain are threaded; the first argument bounds the depth, which
    they bound. *)
Fixpoint parameter_types (fuel : nat) (schema : value) (property : option string) (root : value)
    (remaining : nat) : option (XmlParameterTypes * nat) :=
  match fuel, remaining with
  | S fuel, S remaining =>
      match schema with
      | Bool allowed => Some (if allowed then ANY else NONE, remaining)
      | Object _ =>
          match
            match property with
            | Some name =>
                match or_else (get schema "properties" ≫= fun p => get p name)
                        (get schema "additionalProperties") with
                | Some schema => parameter_types fuel schema None root remaining
                | None => Some (ANY, remaining)
                end
            | None => option_map (fun hint => (hint, remaining)) (own_hint schema)
            end
          with
          | None => None
          | Some (hint, remaining) =>
              match
                match get schema "$ref" with
                | None => Some (hint, remaining)
                | Some (Str reference) =>
                    match strip_prefix reference "#" ≫= value_pointer root with
                    | None => None
                    | Some target =>
                        option_map (fun '(t, remaining) => (intersect hint t, remaining))
                          (parameter_types fuel target property root remaining)
                    end
                | Some _ => None
                end
              with
              | None => None
              | Some st =>
                  fold_left (fun st keyword =>
                    match st with
                    | None => None
                    | Some (hint, remaining) =>
                        match get schema keyword with
                        | None => Some (hint, remaining)
                        | Some (Array branches) =>
                            let all := bool_decide (keyword = "allOf") in
                            let combined :=
                              if all then ANY
                              else {| p_string := false; p_other := false; p_specified := false |} in
                            option_map (fun '(combined, remaining) => (intersect hint combined, remaining))
                              ((fix branches_loop (branches : list value) (combined : XmlParameterTypes)
                                   (remaining : nat) : option (XmlParameterTypes * nat) :=
                                  match branches with
                                  | [] => Some (combined, remaining)
                                  | branch :: branches =>
                                      match parameter_types fuel branch property root remaining with
                                      | None => None
                                      | Some (t, remaining) =>
                                          branches_loop branches
                                            (if all then intersect combined t else union_types combined t)
                                            remaining
                                      end
                                  end) branches combined remaining)
                        | Some _ => None
                        end
                    end) ["allOf"; "anyOf"; "oneOf"] (Some st)
              end
          end
      | _ => None
      end
  | _, _ => None
  end.

Definition PARAMETER_STEPS : nat := 128.

Definition parameter_preserves_string (schema : value) (name : string) : option bool :=
  match parameter_types PARAMETER_STEPS schema (Some name) schema PARAMETER_STEPS with
  | None => None
  | Some (hint, _) =>
      if p_string hint || p_other hint then Some (p_specified hint && p_string hint) else None
  end.

(** ** Recovering a call *)

Section Recover.
(** The JSON parser and printer, and the random part of an identifier, numbered
    by the calls recovered. *)
Context (parse_json : string -> option value) (print_json : value -> string)
        (random_id : nat -> string).
Context (known_tools : gset string) (tool_schemas : gmap string value).

Definition coerce (text : bytes) : value := unwrap_or (parse_json (l2s text)) (Str (l2s text)).

(** One [<parameter name=..>..</parameter>] from [cursor] on: its name, its value
    and the cursor behind it. *)
Definition parse_parameter (xml : bytes) (schema : option value) (map : list (string * value))
    (cursor open : nat) : option (list (string * value) * nat) :=
  if negb (is_nil (trim_start_l (slice xml cursor open))) then None
  else if negb (is_some_and (xml !! (open + length (s2l "<parameter"))) is_ascii_whitespace) then None
  else
    match Nat.add open <$> find_byte (Ascii.eqb ">") (drop open xml) with
    | None => None
    | Some tag_end =>
        match find_insensitive_from xml (s2l "</parameter>") tag_end with
        | None => None
        | Some close =>
            match xml_attributes (slice xml open (S tag_end)) ≫= fun m => m !! "name" with
            | None => None
            | Some name =>
                let name := l2s name in
                if is_some (obj_get map name) then None
                else
                  let v := decode_xml (slice xml (S tag_end) close) in
                  match match schema with
                        | Some schema => parameter_preserves_string schema name
                        | None => Some false
                        end with
                  | None => None
                  | Some string_parameter =>
                      Some (obj_insert name (if string_parameter then Str (l2s v) else coerce v) map,
                            close + length (s2l "</parameter>"))
                  end
            end
        end
    end.

(** Each round passes a closing tag. *)
Fixpoint parse_parameters_loop (fuel : nat) (xml : bytes) (schema : option value)
    (map : list (string * value)) (cursor : nat) : option value :=
  match fuel with
  | O => None
  | S fuel =>
      match find_insensitive_from xml (s2l "<parameter") cursor with
      | None => if is_nil (trim_start_l (drop cursor xml)) then Some (Object map) else None
      | Some open =>
          match parse_parameter xml schema map cursor open with
          | Some (map, cursor) => parse_parameters_loop fuel xml schema map cursor
          | None => None
          end
      end
  end.

Definition parse_parameters (xml : bytes) (schema : option value) : option value :=
  parse_parameters_loop (S (length xml)) xml schema [] 0.

Definition recovered_call (index : nat) (name : string) (input : value) : KiroEvent :=
  ToolUse ("recovered_tool_" +:+ random_id index) name (print_json input) true.

(** [<tool_use name=..>{..}</tool_use>]: exactly one of three attributes names the
    tool. *)
Definition recover_tool_use (inner : bytes) (attributes : gmap string bytes) (index : nat) :
    option (list KiroEvent) :=
  match omap (fun key => attributes !! key) ["name"; "tool"; "function"] with
  | [name] =>
      if bool_decide (l2s name ∈ known_tools) then
        match parse_json (l2s (decode_xml (trim_l inner))) with
        | Some input =>
            if is_object input then Some [recovered_call index (l2s name) input] else None
        | None => None
        end
      else None
  | _ => None
  end.

(** One [<invoke name=..>..</invoke>] from [cursor] on. *)
Definition recover_invoke (inner : bytes) (cursor open : nat) (index : nat) :
    option (KiroEvent * nat) :=
  if negb (is_nil (trim_start_l (slice inner cursor open)))
     || negb (is_some_and (inner !! (open + length (s2l "<invoke"))) is_ascii_whitespace) then None
  else
    match Nat.add open <$> find_byte (Ascii.eqb ">") (drop open inner) with
    | None => None
    | Some tag_end =>
        match find_insensitive_from inner (s2l "</invoke>") tag_end with
        | None => None
        | Some close =>
            match xml_attributes (slice inner open (S tag_end)) ≫= fun m => m !! "name" with
            | None => None
            | Some name =>
                if bool_decide (l2s name ∈ known_tools) then
                  match parse_parameters (slice inner (S tag_end) close) (tool_schemas !! l2s name) with
                  | Some input =>
                      Some (recovered_call index (l2s name) input, close + length (s2l "</invoke>"))
                  | None => None
                  end
                else None
            end
        end
    end.

Fixpoint recover_invokes (fuel : nat) (inner : bytes) (cursor index : nat) (events : list KiroEvent) :
    option (list KiroEvent) :=
  match fuel with
  | O => None
  | S fuel =>
      match find_insensitive_from inner (s2l "<invoke") cursor with
      | None =>
          if negb (is_nil events) && is_nil (trim_start_l (drop cursor inner)) then Some events else None
      | Some open =>
          match recover_invoke inner cursor open index with
          | Some (event, cursor) => recover_invokes fuel inner cursor (S index) (events ++ [event])
          | None => None
          end
      end
  end.

(** All the calls of a block, or none. *)
Definition recover (xml : bytes) (index : nat) : option (list KiroEvent) :=
  match find_byte (Ascii.eqb ">") xml with
  | None => None
  | Some outer_end =>
      match xml_attributes (take (S outer_end) xml) with
      | None => None
      | Some attributes =>
          let function_calls := is_some (strip_prefix_l FUNCTION_CALLS (lower_l xml)) in
          let closing := s2l (if function_calls then "</function_calls>" else "</tool_use>") in
          if (length xml <? length closing)%nat || (length xml - length closing <? S outer_end)%nat then None
          else
            let inner := slice xml (S outer_end) (length xml - length closing) in
            if function_calls then recover_invokes (S (length inner)) inner 0 index []
            else recover_tool_use inner attributes index
      end
  end.
End Recover.

(** ** The filter *)

Record ToolLeakFilter := {
  tl_enabled : bool;
  known_tools : gset string;
  tool_schemas : gmap string value;
  tl_position : MarkdownPosition;
  tl_in_tagged_thinking : bool;
  tl_pending : bytes;
  recovered : list KiroEvent;
  structured : gmap string (string * string);
}.

Definition ToolLeakFilter_new (on : bool) (tools : list string) : ToolLeakFilter :=
  {| tl_enabled := on; known_tools := list_to_set tools; tool_schemas := ∅;
     tl_position := MarkdownPosition_default; tl_in_tagged_thinking := false; tl_pending := [];
     recovered := []; structured := ∅ |}.

Definition add_known_tool (f : ToolLeakFilter) (tool : KiroToolSpecification) : ToolLeakFilter :=
  {| tl_enabled := tl_enabled f; known_tools := {[ts_name tool]} ∪ known_tools f;
     tool_schemas := <[ts_name tool := ts_input_schema tool]> (tool_schemas f);
     tl_position := tl_position f; tl_in_tagged_thinking := tl_in_tagged_thinking f;
     tl_pending := tl_pending f; recovered := recovered f; structured := structured f |}.

Definition for_payload (on : bool) (payload : KiroPayload) : ToolLeakFilter :=
  let message := cs_current_message (p_conversation_state payload) in
  let tools :=
    match um_context message with Some context => ctx_tools context | None => [] end in
  fold_left add_known_tool (omap specification tools) (ToolLeakFilter_new on []).

(** *** Text *)

(** What the loop of [push_text] changes. *)
Record Leak := {
  lk_position : MarkdownPosition;
  lk_tagged : bool;
  lk_pending : bytes;
  lk_recovered : list KiroEvent;
  lk_visible : bytes;
}.

Section Push.
Context (parse_json : string -> option value) (print_json : value -> string)
        (random_id : nat -> string).
Context (tools : gset string) (schemas : gmap string value).

Definition is_thinking_tag (marker : bytes) : bool :=
  bool_decide (marker = THINKING_START_TAG) || bool_decide (marker = THINKING_END_TAG).

(** Text up to [n] is shown. *)
Definition show_to (n : nat) (m : MarkdownPosition) (tagged : bool) (st : Leak) : Leak :=
  {| lk_position := m; lk_tagged := tagged; lk_pending := drop n (lk_pending st);
     lk_recovered := lk_recovered st; lk_visible := lk_visible st ++ take n (lk_pending st) |}.

Definition closing_tag (marker : bytes) : bytes :=
  s2l (if bool_decide (marker = FUNCTION_CALLS) then "</function_calls>" else "</tool_use>").

Definition try_recover (m : MarkdownPosition) (tagged : bool) (xml : bytes) (index : nat) :
    option (list KiroEvent) :=
  if can_recover m && negb tagged
  then recover parse_json print_json random_id tools schemas xml index else None.

(** One round of the loop; [true] if it goes on. *)
Definition leak_round (st : Leak) : bool * Leak :=
  let text := lk_pending st in
  match first_marker text with
  | None =>
      let split := length text - marker_prefix_suffix text in
      (false, show_to split (advance (lk_position st) (take split text)) (lk_tagged st) st)
  | Some (open, marker) =>
      let m := finish_tick_run (advance (lk_position st) (take open text)) in
      let tag_end := open + length marker in
      let tag := slice text open tag_end in
      if is_thinking_tag marker then
        let closing := bool_decide (marker = THINKING_END_TAG) in
        let m := advance (if closing && lk_tagged st then MarkdownPosition_default else m) tag in
        let tagged := if closing then false else if in_code m then lk_tagged st else true in
        (true, show_to tag_end m tagged st)
      else if lk_tagged st || in_code m then
        (true, show_to tag_end (advance m tag) (lk_tagged st) st)
      else
        match find_l (closing_tag marker) (drop open (lower_l text)) with
        | None => (false, show_to open m (lk_tagged st) st)
        | Some relative =>
            let xml_end := open + relative + length (closing_tag marker) in
            let xml := slice text open xml_end in
            match try_recover m (lk_tagged st) xml (length (lk_recovered st)) with
            | Some events =>
                (true,
                 {| lk_position := advance m marker; lk_tagged := lk_tagged st;
                    lk_pending := drop xml_end text; lk_recovered := lk_recovered st ++ events;
                    lk_visible := lk_visible st ++ take open text |})
            | None => (true, show_to xml_end (advance m xml) (lk_tagged st) st)
            end
        end
  end.

(** Each round that goes on passes a marker. *)
Fixpoint leak_loop (fuel : nat) (st : Leak) : option Leak :=
  match fuel with
  | O => None
  | S fuel =>
      let '(again, st) := leak_round st in
      if again then leak_loop fuel st else Some st
  end.
End Push.

Definition MAX_PENDING_BYTES : nat := Z.to_nat (1024 * 1024).

Section Filter.
Context (parse_json : string -> option value) (print_json : value -> string)
        (random_id : nat -> string).

Definition push_text (f : ToolLeakFilter) (content : bytes) : option (list KiroEvent * ToolLeakFilter) :=
  let pending := tl_pending f ++ content in
  if (MAX_PENDING_BYTES <? length pending)%nat then
    Some ([AssistantResponse (l2s pending)],
          {| tl_enabled := tl_enabled f; known_tools := ∅; tool_schemas := ∅;
             tl_position := advance (tl_position f) pending;
             tl_in_tagged_thinking := tl_in_tagged_thinking f; tl_pending := [];
             recovered := recovered f; structured := structured f |})
  else
    match leak_loop parse_json print_json random_id (known_tools f) (tool_schemas f) (S (length pending))
            {| lk_position := tl_position f; lk_tagged := tl_in_tagged_thinking f;
               lk_pending := pending; lk_recovered := recovered f; lk_visible := [] |} with
    | None => None
    | Some st =>
        Some (if is_nil (lk_visible st) then [] else [AssistantResponse (l2s (lk_visible st))],
              {| tl_enabled := tl_enabled f; known_tools := known_tools f;
                 tool_schemas := tool_schemas f; tl_position := lk_position st;
                 tl_in_tagged_thinking := lk_tagged st; tl_pending := lk_pending st;
                 recovered := lk_recovered st; structured := structured f |})
    end.

(** Calls that Kiro sends itself, to recognize the same call in the text. *)
Definition note_structured (f : ToolLeakFilter) (id name input_delta : string) : ToolLeakFilter :=
  let '(seen_name, input) := unwrap_or (structured f !! id) (name, "") in
  let seen_name := if is_empty seen_name then name else seen_name in
  {| tl_enabled := tl_enabled f; known_tools := known_tools f; tool_schemas := tool_schemas f;
     tl_position := tl_position f; tl_in_tagged_thinking := tl_in_tagged_thinking f;
     tl_pending := tl_pending f; recovered := recovered f;
     structured := <[id := (seen_name, input +:+ input_delta)]> (structured f) |}.

Definition push (f : ToolLeakFilter) (event : KiroEvent) : option (list KiroEvent * ToolLeakFilter) :=
  if negb (tl_enabled f) then Some ([event], f)
  else
    match event with
    | AssistantResponse content => push_text f (s2l content)
    | ToolUse id name input_delta _ => Some ([event], note_structured f id name input_delta)
    | _ => Some ([event], f)
    end.

(** A call that Kiro also sent, with the same name and input. *)
Definition duplicate (structured : gmap string (string * string)) (event : KiroEvent) : bool :=
  match event with
  | ToolUse _ name input_delta _ =>
      let input := repair_json parse_json input_delta in
      existsb (fun '(seen_name, seen_input) =>
                 bool_decide (seen_name = name)
                 && value_eqb (repair_json parse_json seen_input) input)
        (snd <$> map_to_list structured)
  | _ => false
  end.

Definition finish (f : ToolLeakFilter) : list KiroEvent :=
  (if is_nil (tl_pending f) then [] else [AssistantResponse (l2s (tl_pending f))])
  ++ List.filter (fun event => negb (duplicate (structured f) event)) (recovered f).

Fixpoint push_all (f : ToolLeakFilter) (events : list KiroEvent) :
    option (list KiroEvent * ToolLeakFilter) :=
  match events with
  | [] => Some ([], f)
  | event :: events =>
      match push f event with
      | Some (output, f) =>
          match push_all f events with
          | Some (rest, f) => Some (output ++ rest, f)
          | None => None
          end
      | None => None
      end
  end.
End Filter.
