(* ===== verification/ToolLeakFacts.v ===== *)
(** * No text is lost to the recovery of tool calls

    The answer is cut into pieces that are shown and pieces that were recovered as
    calls; what is recovered names a tool of the request. *)

From Stdlib Require Import ZArith Lia Ascii String List.
From stdpp Require Import base list gmap sets tactics strings.
From S2P Require Import Prelude RustStr F64 Json Protocol Model EventStream Text Occurs ThinkingFilter.
From S2P Require Import ThinkingFilterFacts RepairJson ToolLeak.

Local Open Scope kproxy_scope.
Local Open Scope string_scope.
Local Open Scope list_scope.
Local Open Scope nat_scope.

Lemma length_lower l : length (lower_l l) = length l.
Proof. apply length_fmap. Qed.

Lemma lower_take n l : lower_l (take n l) = take n (lower_l l).
Proof. apply fmap_take. Qed.

Lemma lower_drop n l : lower_l (drop n l) = drop n (lower_l l).
Proof. apply fmap_drop. Qed.

Lemma take_slice (l : bytes) a b : a <= b -> take a l ++ slice l a b = take b l.
Proof.
  intros H. unfold slice. rewrite <- (take_drop a (take b l)). rewrite take_take, Nat.min_l by done.
  f_equal. rewrite skipn_firstn_comm. done.
Qed.

(** ** Markers *)

Lemma match_indices_spec fuel marker text offset k :
  k ∈ match_indices fuel marker text offset ->
  offset <= k /\ k - offset + length marker <= length text
  /\ take (length marker) (drop (k - offset) text) = marker.
Proof.
  revert text offset; induction fuel as [|fuel IH]; intros text offset; cbn [match_indices]; [set_solver|].
  destruct (find_l marker text) as [j|] eqn:E; [|set_solver].
  apply find_l_Some in E as [Hj Ht]. intros [->|Hk]%elem_of_cons.
  - replace (offset + j - offset) with j by lia. auto with lia.
  - apply IH in Hk as (H1 & H2 & H3). rewrite length_drop in H2. split; [lia|]. split; [lia|].
    rewrite drop_drop in H3. replace (k - offset) with (j + length marker + (k - (offset + j + length marker))) by lia.
    done.
Qed.

Lemma first_marker_spec text k marker :
  first_marker text = Some (k, marker) ->
  marker ∈ MARKERS /\ k + length marker <= length text
  /\ take (length marker) (drop k (lower_l text)) = marker.
Proof.
  unfold first_marker. intros H.
  assert (Hin : (k, marker) ∈ omap (first_match (lower_l text)) MARKERS).
  { destruct (min_by_key_spec _ _ _ H) as [? _]. done. }
  apply list_elem_of_omap in Hin as (marker' & Hm & Hf).
  apply find_map_Some in Hf as (j & Hj & Heq). destruct (ends_name _ _ _); [|done].
  injection Heq as -> ->. apply match_indices_spec in Hj as (_ & H1 & H2).
  rewrite Nat.sub_0_r, length_lower in *. done.
Qed.

Lemma marker_length marker : marker ∈ MARKERS -> 9 <= length marker.
Proof. unfold MARKERS. rewrite !elem_of_cons. intros [->|[->|[->|[->|[]%elem_of_nil]]]]; cbn; lia. Qed.

(** ** What is recovered *)

Section Recovered.
Context (parse_json : string -> option value) (print_json : value -> string)
        (random_id : nat -> string).

(** A complete call of a known tool whose input is an object. *)
Definition KnownCall (tools : gset string) (event : KiroEvent) : Prop :=
  exists id name input, event = ToolUse id name (print_json input) true
                        /\ name ∈ tools /\ is_object input = true.

Lemma parse_parameters_object fuel xml schema map cursor v :
  parse_parameters_loop parse_json fuel xml schema map cursor = Some v -> is_object v = true.
Proof.
  revert map cursor; induction fuel as [|fuel IH]; intros map cursor; cbn [parse_parameters_loop]; [done|].
  destruct (find_insensitive_from _ _ _).
  - destruct (parse_parameter _ _ _ _ _ _) as [[map' cursor']|]; [apply IH|done].
  - destruct (is_nil _); [by intros [= <-]|done].
Qed.

Lemma recover_invoke_known tools schemas inner cursor open index event cursor' :
  recover_invoke parse_json print_json random_id tools schemas inner cursor open index
  = Some (event, cursor') -> KnownCall tools event.
Proof.
  unfold recover_invoke. intros H. repeat case_in H.
  match goal with E : parse_parameters _ _ _ = Some ?v |- _ => exists ("recovered_tool_" +:+ random_id index), (l2s l), v;
    apply parse_parameters_object in E end.
  split; [done|]. split; [by eapply bool_decide_eq_true|done].
Qed.

Lemma recover_invokes_known fuel tools schemas inner cursor index events out :
  Forall (KnownCall tools) events ->
  recover_invokes parse_json print_json random_id tools schemas fuel inner cursor index events = Some out ->
  Forall (KnownCall tools) out /\ out <> [].
Proof.
  revert cursor index events; induction fuel as [|fuel IH]; intros cursor index events Hev; cbn [recover_invokes];
    [done|].
  destruct (find_insensitive_from _ _ _).
  - destruct (recover_invoke _ _ _ _ _ _ _ _ _) as [[event cursor']|] eqn:E; [|done].
    apply IH. apply list.Forall_app. split; [done|]. constructor; [by eapply recover_invoke_known|done].
  - destruct (is_nil events) eqn:E; [discriminate|]. cbn [negb andb]. destruct (is_nil (trim_start_l _)); [|discriminate].
    intros [= <-].
    split; [done|]. by intros ->.
Qed.

Lemma recover_known tools schemas xml index out :
  recover parse_json print_json random_id tools schemas xml index = Some out ->
  Forall (KnownCall tools) out /\ out <> [].
Proof.
  unfold recover. destruct (find_byte _ xml) as [outer_end|]; [|done].
  destruct (xml_attributes _) as [attributes|]; [|done]. cbv zeta.
  destruct (_ || _); [done|]. destruct (is_some _).
  - apply recover_invokes_known. constructor.
  - unfold recover_tool_use. intros H. repeat case_in H. split; [|done]. constructor; [|done].
    match goal with E : parse_json _ = Some ?v |- _ => exists ("recovered_tool_" +:+ random_id index), (l2s l), v end.
    split; [done|]. split; [by eapply bool_decide_eq_true|done].
Qed.

(** Without tools nothing is recovered. *)
Lemma recover_without_tools schemas xml index :
  recover parse_json print_json random_id ∅ schemas xml index = None.
Proof.
  destruct (recover _ _ _ _ _ _ _) as [out|] eqn:E; [|done]. exfalso.
  apply recover_known in E as [H Hne]. destruct out as [|e out]; [done|].
  apply list.Forall_cons in H as [(id & name & input & _ & H & _) _]. set_solver.
Qed.

(** ** Pieces *)

Definition starts_call (xml : bytes) : Prop :=
  exists marker r, lower_l xml = marker ++ r /\ (marker = FUNCTION_CALLS \/ marker = TOOL_USE).

(** [Pieces tools schemas text shown calls]: the text is made of pieces that are
    shown and blocks of XML, each of which was recovered as a whole. *)
Inductive Pieces (tools : gset string) (schemas : gmap string value) :
    bytes -> bytes -> list KiroEvent -> Prop :=
| Pieces_nil : Pieces tools schemas [] [] []
| Pieces_shown text shown calls piece :
    Pieces tools schemas text shown calls ->
    Pieces tools schemas (text ++ piece) (shown ++ piece) calls
| Pieces_call text shown calls xml index events :
    Pieces tools schemas text shown calls -> starts_call xml ->
    recover parse_json print_json random_id tools schemas xml index = Some events ->
    Pieces tools schemas (text ++ xml) shown (calls ++ events).

(** The tools are those of the request, or none any more. *)
Definition tools_or_none (tools tools' : gset string) (schemas schemas' : gmap string value) : Prop :=
  (tools' = tools /\ schemas' = schemas) \/ tools' = ∅.

(** From one state of the loop to the next. *)
Definition Step (tools : gset string) (schemas : gmap string value) (st st' : Leak) : Prop :=
  exists piece shown events, lk_pending st = piece ++ lk_pending st'
    /\ lk_visible st' = lk_visible st ++ shown /\ lk_recovered st' = lk_recovered st ++ events
    /\ Pieces tools schemas piece shown events.

Lemma Pieces_one tools schemas piece : Pieces tools schemas piece piece [].
Proof. exact (Pieces_shown _ _ [] [] [] piece (Pieces_nil _ _)). Qed.

(** Showing text in front: pieces do not depend on what was shown before. *)
Lemma Pieces_after tools schemas text shown calls text' shown' calls' :
  Pieces tools schemas text shown calls -> Pieces tools schemas text' shown' calls' ->
  Pieces tools schemas (text ++ text') (shown ++ shown') (calls ++ calls').
Proof.
  intros H. induction 1 as [|t s c piece _ IH|t s c xml index events _ IH Hx Hr].
  - by rewrite !app_nil_r.
  - rewrite !app_assoc. by constructor.
  - rewrite !app_assoc. by eapply Pieces_call.
Qed.

Lemma Step_trans tools schemas a b c : Step tools schemas a b -> Step tools schemas b c -> Step tools schemas a c.
Proof.
  intros (p1 & s1 & e1 & H1 & H2 & H3 & H4) (p2 & s2 & e2 & H5 & H6 & H7 & H8).
  exists (p1 ++ p2), (s1 ++ s2), (e1 ++ e2). rewrite H1, H5, H6, H2, H7, H3, !app_assoc.
  auto using Pieces_after.
Qed.

Lemma show_to_step tools schemas n m t st : Step tools schemas st (show_to n m t st).
Proof.
  exists (take n (lk_pending st)), (take n (lk_pending st)), []. cbn.
  rewrite take_drop, app_nil_r. auto using Pieces_one.
Qed.

Lemma leak_round_spec tools schemas tools' schemas' st again st' :
  tools_or_none tools tools' schemas schemas' ->
  leak_round parse_json print_json random_id tools' schemas' st = (again, st') ->
  Step tools schemas st st' /\ (again = true -> length (lk_pending st') < length (lk_pending st)).
Proof.
  intros Htools. unfold leak_round. destruct (first_marker (lk_pending st)) as [[open marker]|] eqn:E;
    [|intros [= <- <-]; split; [apply show_to_step|done]].
  apply first_marker_spec in E as (Hm & Hlen & Htag). pose proof (marker_length _ Hm) as H9.
  assert (Hshow : forall n m t again', 0 < n \/ again' = false ->
    (again', show_to n m t st) = (again, st') ->
    Step tools schemas st st' /\ (again = true -> length (lk_pending st') < length (lk_pending st))).
  { intros n m t again' Hn [= <- <-]. split; [apply show_to_step|]. intros ->. cbn. rewrite length_drop.
    destruct Hn; [lia|done]. }
  destruct (is_thinking_tag marker) eqn:Hthink; [apply Hshow; left; lia|].
  destruct (lk_tagged st || in_code _) eqn:Hdisplay; [apply Hshow; left; lia|].
  destruct (find_l _ (drop open _)) as [relative|] eqn:Hclose; [|apply Hshow; by right].
  set (xml_end := open + relative + length (closing_tag marker)).
  assert (Hkind : marker = FUNCTION_CALLS \/ marker = TOOL_USE).
  { unfold is_thinking_tag in Hthink. bool_simpl. unfold MARKERS in Hm.
    rewrite !elem_of_cons in Hm. destruct Hm as [?|[?|[?|[?|[]%elem_of_nil]]]]; auto; done. }
  assert (Hlonger : length marker <= length (closing_tag marker)).
  { destruct Hkind as [-> | ->]; vm_compute; lia. }
  destruct (try_recover _ _ _ _ _ _ _ _ _) as [events|] eqn:Hrec; [|apply Hshow; left; lia].
  intros [= <- <-]. cbn. split; [|intros _; rewrite length_drop; lia].
  exists (take open (lk_pending st) ++ slice (lk_pending st) open xml_end), (take open (lk_pending st)), events.
  cbn. rewrite take_slice by lia. split; [by rewrite take_drop|]. split; [done|]. split; [done|].
  rewrite <- (take_slice _ open xml_end) by lia.
  unfold try_recover in Hrec. destruct (can_recover _ && _); [|done].
  destruct Htools as [[-> ->]| ->]; [|by rewrite recover_without_tools in Hrec].
  eapply (Pieces_call _ _ _ _ []); [apply Pieces_one| |exact Hrec].
  exists marker, (drop (length marker) (lower_l (slice (lk_pending st) open xml_end))). split; [|done].
  unfold slice. rewrite lower_take, lower_drop. rewrite <- Htag at 1.
  rewrite <- (take_drop (length marker) (take _ _)) at 1. f_equal. rewrite take_take. f_equal. lia.
Qed.

Lemma leak_loop_spec tools schemas tools' schemas' fuel st :
  tools_or_none tools tools' schemas schemas' -> length (lk_pending st) < fuel ->
  exists st', leak_loop parse_json print_json random_id tools' schemas' fuel st = Some st'
              /\ Step tools schemas st st'.
Proof.
  intros Ht. revert st; induction fuel as [|fuel IH]; intros st Hf; [lia|]. cbn [leak_loop].
  destruct (leak_round _ _ _ _ _ st) as [again st1] eqn:E.
  destruct (leak_round_spec _ _ _ _ _ _ _ Ht E) as [Hstep Hlt].
  destruct again; [|by exists st1].
  destruct (IH st1) as (st' & Hl & Hstep'); [specialize (Hlt eq_refl); lia|].
  exists st'. split; [done|]. by eapply Step_trans.
Qed.

(** ** Streams *)

Record Leaking (f0 : ToolLeakFilter) (text shown : bytes) (f : ToolLeakFilter) : Prop := {
  lg_enabled : tl_enabled f = tl_enabled f0;
  lg_tools : tools_or_none (known_tools f0) (known_tools f) (tool_schemas f0) (tool_schemas f);
  lg_pieces : exists t, text = t ++ tl_pending f
                        /\ Pieces (known_tools f0) (tool_schemas f0) t shown (recovered f);
}.

Lemma push_text_spec f0 text shown f content :
  Leaking f0 text shown f ->
  exists outs g, push_text parse_json print_json random_id f content = Some (outs, g)
    /\ others outs = [] /\ Leaking f0 (text ++ content) (shown ++ text_of outs) g.
Proof.
  intros [He Ht (t & -> & Hp)]. unfold push_text. destruct (_ <? _) eqn:E.
  - eexists _, _. split; [done|]. split; [done|]. split; cbn [tl_enabled known_tools]; [done|by right|].
    exists ((t ++ tl_pending f) ++ content). cbn. rewrite app_nil_r. split; [done|].
    rewrite app_nil_r, s2l_l2s, <- app_assoc. by constructor.
  - match goal with |- context [leak_loop _ _ _ _ _ ?n ?st] =>
      destruct (leak_loop_spec (known_tools f0) (tool_schemas f0) _ _ n st Ht)
        as (st' & -> & piece & s & events & Hpend & Hv & Hr & Hpc); [cbn; lia|] end.
    cbn in Hpend, Hv, Hr. eexists _, _. split; [done|].
    split; [by destruct (is_nil _)|]. split; cbn; [done|done|]. exists (t ++ piece).
    rewrite <- app_assoc, Hpend, app_assoc. split; [done|]. rewrite Hr.
    replace (text_of _) with s; [by apply Pieces_after|]. rewrite Hv. destruct s; [done|].
    cbn. by rewrite s2l_l2s, app_nil_r.
Qed.

Lemma push_leak_spec f0 text shown f event :
  tl_enabled f0 = true -> Leaking f0 text shown f ->
  exists outs g, push parse_json print_json random_id f event = Some (outs, g)
    /\ others outs = others [event]
    /\ Leaking f0 (text ++ text_of [event]) (shown ++ text_of outs) g.
Proof.
  intros H0 Hf. unfold push. rewrite (lg_enabled _ _ _ _ Hf), H0. cbn [negb].
  assert (Hsame : text_of [event] = [] -> forall g,
            tl_enabled g = tl_enabled f -> known_tools g = known_tools f ->
            tool_schemas g = tool_schemas f -> tl_pending g = tl_pending f -> recovered g = recovered f ->
            Leaking f0 (text ++ text_of [event]) (shown ++ text_of [event]) g).
  { intros -> g E1 E2 E3 E4 E5. rewrite !app_nil_r. destruct Hf as [? ? ?]. split; rewrite ?E1, ?E2, ?E3, ?E4, ?E5; done. }
  destruct event; try by (eexists _, _; split; [done|]; split; [done|]; apply Hsame).
  - cbn [text_of]. destruct (push_text_spec f0 text shown f (s2l content) Hf) as (outs & g & -> & Ho & Hg).
    exists outs, g. split; [done|]. split; [done|]. cbn. by rewrite app_nil_r.
  - eexists _, _. split; [done|]. split; [done|].
    unfold note_structured. destruct (unwrap_or _ _). by apply Hsame.
Qed.

Lemma push_all_leak f0 events text shown f :
  tl_enabled f0 = true -> Leaking f0 text shown f ->
  exists outs g, push_all parse_json print_json random_id f events = Some (outs, g)
    /\ others outs = others events
    /\ Leaking f0 (text ++ text_of events) (shown ++ text_of outs) g.
Proof.
  intros H0. revert text shown f; induction events as [|event events IH]; intros text shown f Hf; cbn [push_all].
  { exists [], f. rewrite !app_nil_r. done. }
  destruct (push_leak_spec _ _ _ _ event H0 Hf) as (o1 & f1 & -> & Ho1 & H1).
  destruct (IH _ _ _ H1) as (o2 & f2 & -> & Ho2 & H2). exists (o1 ++ o2), f2. split; [done|].
  rewrite text_of_cons, text_of_app, !app_assoc, others_app, Ho1, Ho2. split; [|done].
  symmetry. exact (others_app [event] events).
Qed.

Lemma Pieces_known tools schemas text shown calls :
  Pieces tools schemas text shown calls -> Forall (KnownCall tools) calls.
Proof.
  induction 1 as [|t s c piece _ IH|t s c xml index events _ IH Hx Hr]; [constructor|done|].
  apply list.Forall_app. split; [done|]. by eapply recover_known.
Qed.

Lemma known_filtered tools g l :
  Forall (KnownCall tools) l ->
  text_of (List.filter g l) = [] /\ others (List.filter g l) = List.filter g l.
Proof.
  induction 1 as [|e l (id & name & input & -> & _) _ [IH1 IH2]]; [done|]. cbn.
  destruct (g _); [|done]. unfold text_of, others in *. cbn. by rewrite IH1, IH2.
Qed.

Lemma for_payload_start on payload :
  let f := for_payload on payload in tl_enabled f = on /\ tl_pending f = [] /\ recovered f = [].
Proof.
  unfold for_payload. match goal with |- context [fold_left _ ?l] => generalize l end. intros tools.
  assert (Hn : let g := ToolLeakFilter_new on [] in
               tl_enabled g = on /\ tl_pending g = [] /\ recovered g = []) by done.
  revert Hn. cbv zeta. generalize (ToolLeakFilter_new on []).
  induction tools as [|tool tools IH]; intros g Hg; [done|]. cbn [fold_left]. by apply IH.
Qed.

Lemma for_payload_Leaking on payload :
  Leaking (for_payload on payload) [] [] (for_payload on payload).
Proof.
  destruct (for_payload_start on payload) as (_ & H2 & H3).
  split; [done|by left|]. exists []. rewrite H2, H3. split; [done|constructor].
Qed.

Lemma finish_leak f0 text shown g :
  Leaking f0 text shown g ->
  Pieces (known_tools f0) (tool_schemas f0) text (shown ++ text_of (finish parse_json g)) (recovered g)
  /\ Forall (KnownCall (known_tools f0)) (recovered g)
  /\ others (finish parse_json g)
     = List.filter (fun e => negb (duplicate parse_json (structured g) e)) (recovered g).
Proof.
  intros [_ _ (t & -> & Hp)]. pose proof (Pieces_known _ _ _ _ _ Hp) as Hk. split; [|split; [done|]].
  all: destruct (known_filtered _ (fun e => negb (duplicate parse_json (structured g) e)) _ Hk) as [Hn Hs];
    unfold finish; rewrite ?text_of_app, ?others_app, ?Hn, ?Hs, ?app_nil_r.
  - replace (text_of (if is_nil (tl_pending g) then _ else _)) with (tl_pending g);
      [by constructor|]. destruct (tl_pending g); [done|]. cbn. by rewrite s2l_l2s, app_nil_r.
  - by destruct (is_nil (tl_pending g)).
Qed.

(** C29: Whatever a stream holds and however it is cut, the filter loses nothing:
    the answer is what was shown, in order, with the blocks of XML that were
    recovered between.  Each of those was recovered as a whole, as complete calls
    of tools that the request offers, with objects as inputs; they follow the
    answer once, those that Kiro also sent itself left out.  All other events pass
    unchanged and in order. *)
Theorem leak_filter_conserves payload events :
  let f := for_payload true payload in
  exists outs g calls,
    push_all parse_json print_json random_id f events = Some (outs, g)
    /\ Pieces (known_tools f) (tool_schemas f) (text_of events)
         (text_of (outs ++ finish parse_json g)) calls
    /\ Forall (KnownCall (known_tools f)) calls
    /\ others (outs ++ finish parse_json g)
       = others events ++ List.filter (fun e => negb (duplicate parse_json (structured g) e)) calls.
Proof.
  intros f. destruct (for_payload_start true payload) as (H1 & _).
  destruct (push_all_leak f events [] [] f H1 (for_payload_Leaking true payload)) as (outs & g & Hpush & Ho & Hg).
  cbn [app] in Hg. destruct (finish_leak _ _ _ _ Hg) as (Hp & Hk & Hs).
  exists outs, g, (recovered g). rewrite text_of_app, others_app, Ho, Hs. done.
Qed.
End Recovered.
