(* ===== verification/Response.v ===== *)
(** * Decoding an answer

    [DecodedResponse] of [kproxyd/src/http/response.rs]: the events of an answer
    are collected and printed as a Claude message or an OpenAI completion; and the
    loop that feeds them through the three filters when the client does not stream
    ([push_nonstream_event] and the event loop of [collect_nonstream_rounds] in
    [http/handlers/execution.rs]).

    [tools] is a map in key order, kept as the list of its entries.  The JSON
    parser and printer, the parser of decimal floating-point numbers, the random
    nonces and the sealing of web search results are arguments. *)

From Stdlib Require Import ZArith Lia Ascii String List.
From stdpp Require Import base list gmap sets tactics strings.
From S2P Require Import Prelude RustStr F64 Json Protocol Model EventStream Context ToolSearch Text WebSearch.
From S2P Require Import RepairJson.
From S2P Require StopFilter ThinkingFilter ToolLeak.
From S2P Require Config.

Local Open Scope kproxy_scope.
Local Open Scope string_scope.
Local Open Scope list_scope.

(** ** Usage *)

Record UsageInfo := {
  input_tokens : Z;
  output_tokens : Z;
  credits : f64;
  cache_read_tokens : Z;
  cache_write_tokens : Z;
  reasoning_tokens : Z;
}.

Definition UsageInfo_default : UsageInfo :=
  {| input_tokens := 0; output_tokens := 0; credits := F64.zero; cache_read_tokens := 0;
     cache_write_tokens := 0; reasoning_tokens := 0 |}.

Definition is_string (v : value) : bool := match v with Str _ => true | _ => false end.

Definition is_number (v : value) : bool := match v with Number _ => true | _ => false end.

(** Depth first: the keys of an object in the order asked for, then what it holds
    in its own order. *)
Fixpoint find_numeric_value (keys : list string) (v : value) : option value :=
  match v with
  | Object m =>
      or_else
        (List.find (fun candidate => is_number candidate || is_string candidate)
           (omap (obj_get m) keys))
        ((fix in_entries (m : list (string * value)) : option value :=
            match m with
            | [] => None
            | (_, child) :: m =>
                match find_numeric_value keys child with Some v => Some v | None => in_entries m end
            end) m)
  | Array l =>
      (fix in_list (l : list value) : option value :=
         match l with
         | [] => None
         | child :: l =>
             match find_numeric_value keys child with Some v => Some v | None => in_list l end
         end) l
  | _ => None
  end.

(** [Number::as_f64]. *)
Definition number_f64 (n : number) : f64 :=
  match n with PosInt z | NegInt z => F64.of_Z z | Float x => x end.

(** [value.is_finite() && value >= 0.0], then [value as u64]. *)
Definition count_of (x : f64) : option Z :=
  if F64.is_finite x && F64.leb F64.zero x then Some (F64.to_u64 x) else None.

Section Numbers.
(** [str::parse::<f64>]. *)
Context (parse_f64 : string -> option f64).

Definition find_number (v : value) (keys : list string) : option Z :=
  find_numeric_value keys v ≫= fun v =>
  match v with
  | Number n => or_else (as_u64 (Number n)) (count_of (number_f64 n))
  | Str s => parse_f64 s ≫= count_of
  | _ => None
  end.

Definition find_float (v : value) (keys : list string) : option f64 :=
  find_numeric_value keys v ≫= fun v =>
  match v with
  | Number n => Some (number_f64 n)
  | Str s => parse_f64 s
  | _ => None
  end.

Definition CACHE_READ_KEYS : list string :=
  ["cacheReadInputTokens"; "cacheReadTokens"; "cache_read_input_tokens"; "cache_read_tokens"].
Definition CACHE_WRITE_KEYS : list string :=
  ["cacheWriteInputTokens"; "cacheWriteTokens"; "cache_creation_input_tokens"; "cache_write_tokens"].
Definition CREDIT_KEYS : list string :=
  ["credits"; "creditsConsumed"; "creditsUsed"; "creditUsage"; "billedCredits"; "usedCredits";
   "charge"; "cost"; "meteredUsage"; "usage"].

Definition merge_usage (output : UsageInfo) (v : value) : UsageInfo :=
  let uncached := find_number v ["uncachedInputTokens"] in
  let total_input := find_number v ["inputTokens"; "input_tokens"] in
  let cache_read := find_number v CACHE_READ_KEYS in
  let cache_write := find_number v CACHE_WRITE_KEYS in
  let cache_tokens := sat_add U64_MAX (unwrap_or cache_read 0%Z) (unwrap_or cache_write 0%Z) in
  let input :=
    match uncached, total_input with
    | Some uncached, _ => sat_add U64_MAX uncached cache_tokens
    | None, Some input => Z.max input cache_tokens
    | None, None => if (0 <? cache_tokens)%Z then cache_tokens else input_tokens output
    end in
  let out := unwrap_or (find_number v ["outputTokens"; "output_tokens"]) (output_tokens output) in
  let input :=
    if (input =? 0)%Z then
      match find_number v ["totalTokens"; "total_tokens"] with
      | Some total => sat_sub total out
      | None => input
      end
    else input in
  {| input_tokens := input;
     output_tokens := out;
     credits :=
       if F64.leb (credits output) F64.zero then
         unwrap_or (opt_filter (fun x => F64.ltb F64.zero x) (find_float v CREDIT_KEYS)) (credits output)
       else credits output;
     cache_read_tokens := unwrap_or cache_read (cache_read_tokens output);
     cache_write_tokens := unwrap_or cache_write (cache_write_tokens output);
     reasoning_tokens :=
       unwrap_or (find_number v ["reasoningTokens"; "reasoning_tokens"]) (reasoning_tokens output) |}.

Definition merge_round_usage (total addition : UsageInfo) : UsageInfo :=
  {| input_tokens := sat_add U64_MAX (input_tokens total) (input_tokens addition);
     output_tokens := sat_add U64_MAX (output_tokens total) (output_tokens addition);
     credits := F64.add (credits total) (credits addition);
     cache_read_tokens := sat_add U64_MAX (cache_read_tokens total) (cache_read_tokens addition);
     cache_write_tokens := sat_add U64_MAX (cache_write_tokens total) (cache_write_tokens addition);
     reasoning_tokens := sat_add U64_MAX (reasoning_tokens total) (reasoning_tokens addition) |}.
End Numbers.

(** ** The response *)

Record OpenAiToolIdentity := { oi_kind : string; oi_name : string }.

Record CompactionIterationUsage := { ci_input_tokens : Z; ci_output_tokens : Z }.

Inductive ClaudeServerEvent :=
| ToolSearchEvent (index : nat) (preceding_text : string)
| WebSearchEvent (index : nat) (preceding_text : string).

Record ToolBuffer := { tb_id : string; tb_name : string; tb_input : string; tb_complete : bool }.

Record DecodedResponse := {
  d_text : string;
  d_reasoning : string;
  d_reasoning_signature : option string;
  d_redacted_thinking : string;
  d_citations : list KiroCitation;
  d_tools : list (string * ToolBuffer);
  d_tool_searches : list ClaudeToolSearchTrace;
  d_web_searches : list ClaudeWebSearchTrace;
  d_claude_server_events : list ClaudeServerEvent;
  d_usage : UsageInfo;
  d_stop_reason : option string;
  d_stop_sequence : option string;
}.

Definition DecodedResponse_default : DecodedResponse :=
  {| d_text := ""; d_reasoning := ""; d_reasoning_signature := None; d_redacted_thinking := "";
     d_citations := []; d_tools := []; d_tool_searches := []; d_web_searches := [];
     d_claude_server_events := []; d_usage := UsageInfo_default; d_stop_reason := None;
     d_stop_sequence := None |}.

Definition set_text (text : string) (d : DecodedResponse) : DecodedResponse :=
  {| d_text := text; d_reasoning := d_reasoning d; d_reasoning_signature := d_reasoning_signature d;
     d_redacted_thinking := d_redacted_thinking d; d_citations := d_citations d; d_tools := d_tools d;
     d_tool_searches := d_tool_searches d; d_web_searches := d_web_searches d;
     d_claude_server_events := d_claude_server_events d; d_usage := d_usage d;
     d_stop_reason := d_stop_reason d; d_stop_sequence := d_stop_sequence d |}.

Definition set_reasoning (text : string) (signature : option string) (redacted : string)
    (d : DecodedResponse) : DecodedResponse :=
  {| d_text := d_text d; d_reasoning := text; d_reasoning_signature := signature;
     d_redacted_thinking := redacted; d_citations := d_citations d; d_tools := d_tools d;
     d_tool_searches := d_tool_searches d; d_web_searches := d_web_searches d;
     d_claude_server_events := d_claude_server_events d; d_usage := d_usage d;
     d_stop_reason := d_stop_reason d; d_stop_sequence := d_stop_sequence d |}.

Definition set_citations (citations : list KiroCitation) (d : DecodedResponse) : DecodedResponse :=
  {| d_text := d_text d; d_reasoning := d_reasoning d; d_reasoning_signature := d_reasoning_signature d;
     d_redacted_thinking := d_redacted_thinking d; d_citations := citations; d_tools := d_tools d;
     d_tool_searches := d_tool_searches d; d_web_searches := d_web_searches d;
     d_claude_server_events := d_claude_server_events d; d_usage := d_usage d;
     d_stop_reason := d_stop_reason d; d_stop_sequence := d_stop_sequence d |}.

Definition set_tools (tools : list (string * ToolBuffer)) (d : DecodedResponse) : DecodedResponse :=
  {| d_text := d_text d; d_reasoning := d_reasoning d; d_reasoning_signature := d_reasoning_signature d;
     d_redacted_thinking := d_redacted_thinking d; d_citations := d_citations d; d_tools := tools;
     d_tool_searches := d_tool_searches d; d_web_searches := d_web_searches d;
     d_claude_server_events := d_claude_server_events d; d_usage := d_usage d;
     d_stop_reason := d_stop_reason d; d_stop_sequence := d_stop_sequence d |}.

Definition set_usage (usage : UsageInfo) (d : DecodedResponse) : DecodedResponse :=
  {| d_text := d_text d; d_reasoning := d_reasoning d; d_reasoning_signature := d_reasoning_signature d;
     d_redacted_thinking := d_redacted_thinking d; d_citations := d_citations d; d_tools := d_tools d;
     d_tool_searches := d_tool_searches d; d_web_searches := d_web_searches d;
     d_claude_server_events := d_claude_server_events d; d_usage := usage;
     d_stop_reason := d_stop_reason d; d_stop_sequence := d_stop_sequence d |}.

Definition stop_at_sequence (visible_text sequence : string) (d : DecodedResponse) : DecodedResponse :=
  {| d_text := visible_text; d_reasoning := d_reasoning d;
     d_reasoning_signature := d_reasoning_signature d; d_redacted_thinking := d_redacted_thinking d;
     d_citations := d_citations d; d_tools := []; d_tool_searches := d_tool_searches d;
     d_web_searches := d_web_searches d; d_claude_server_events := d_claude_server_events d;
     d_usage := d_usage d; d_stop_reason := Some "stop_sequence"; d_stop_sequence := Some sequence |}.

(** [BTreeMap::entry(key).or_insert(..)], changed by [f]. *)
Fixpoint upsert {B} (k : string) (new : B) (f : B -> B) (m : list (string * B)) : list (string * B) :=
  match m with
  | [] => [(k, f new)]
  | (k', v) :: m' =>
      match str_cmp k k' with
      | Lt => (k, f new) :: m
      | Eq => (k', f v) :: m'
      | Gt => (k', v) :: upsert k new f m'
      end
  end.

Definition MAX_CUMULATIVE_TOOL_INPUT_BYTES : Z := 16 * 1024 * 1024.

Definition tool_bytes (tools : list (string * ToolBuffer)) : Z :=
  fold_right (fun entry n => (Z.of_nat (len (tb_input entry.2)) + n)%Z) 0%Z tools.

Definition add_delta (name input_delta : string) (stop : bool) (t : ToolBuffer) : ToolBuffer :=
  {| tb_id := tb_id t; tb_name := if is_empty (tb_name t) then name else tb_name t;
     tb_input := tb_input t +:+ input_delta; tb_complete := tb_complete t || stop |}.

Section Decoding.
Context (parse_json : string -> option value) (print_json : value -> string)
        (parse_f64 : string -> option f64).

Definition push (d : DecodedResponse) (event : KiroEvent) : result DecodedResponse string :=
  match event with
  | AssistantResponse content => Ok (set_text (d_text d +:+ content) d)
  | Reasoning content signature redacted_content =>
      Ok (set_reasoning (d_reasoning d +:+ content)
            (match signature with
             | Some signature => Some (unwrap_or (d_reasoning_signature d) "" +:+ signature)
             | None => d_reasoning_signature d
             end)
            (match redacted_content with
             | Some redacted => d_redacted_thinking d +:+ redacted
             | None => d_redacted_thinking d
             end) d)
  | Citations citations => Ok (set_citations (d_citations d ++ citations) d)
  | ToolUse id name input_delta stop =>
      if (MAX_CUMULATIVE_TOOL_INPUT_BYTES
          <? sat_add USIZE_MAX (tool_bytes (d_tools d)) (Z.of_nat (len input_delta)))%Z
      then Err "tool input exceeded the 16 MiB response limit"
      else
        Ok (set_tools
              (upsert id {| tb_id := id; tb_name := name; tb_input := ""; tb_complete := false |}
                 (add_delta name input_delta stop) (d_tools d)) d)
  | MessageMetadata usage | UsageEvent usage => Ok (set_usage (merge_usage parse_f64 (d_usage d) usage) d)
  | ErrorEvent _ message => Err message
  | OtherEvent _ _ => Ok d
  end.

Definition is_json (s : string) : bool := is_some (parse_json s).

Definition finalize_tool_inputs (d : DecodedResponse) : result DecodedResponse string :=
  match List.find (fun entry => negb (is_empty (trim (tb_input entry.2))) && negb (is_json (tb_input entry.2)))
          (d_tools d) with
  | Some entry => Err ("tool " +:+ tb_name entry.2 +:+ " produced invalid JSON input")
  | None =>
      Ok (set_tools
            (prod_map id (fun t =>
               if is_empty (trim (tb_input t)) then
                 {| tb_id := tb_id t; tb_name := tb_name t; tb_input := "{}";
                    tb_complete := tb_complete t |}
               else t) <$> d_tools d) d)
  end.

Definition restore_tool_names (names : gmap string string) (d : DecodedResponse) : DecodedResponse :=
  set_tools
    (prod_map id (fun t =>
       match names !! tb_name t with
       | Some original =>
           {| tb_id := tb_id t; tb_name := original; tb_input := tb_input t; tb_complete := tb_complete t |}
       | None => t
       end) <$> d_tools d) d.

Definition take_tool_uses_where (predicate : ToolBuffer -> bool) (d : DecodedResponse) :
    list KiroToolUse * DecodedResponse :=
  ((fun entry => {| tu_tool_use_id := tb_id entry.2; tu_name := tb_name entry.2;
                    tu_input := repair_json parse_json (tb_input entry.2) |})
     <$> List.filter (fun entry => predicate entry.2) (d_tools d),
   set_tools (List.filter (fun entry => negb (predicate entry.2)) (d_tools d)) d).
End Decoding.

(** ** References *)

(** [filter(|x| seen.insert(key(x)))]. *)
Fixpoint distinct_by {A} (key : A -> string) (seen : list string) (l : list A) : list A :=
  match l with
  | [] => []
  | x :: l =>
      if mem (key x) seen then distinct_by key seen l
      else x :: distinct_by key (key x :: seen) l
  end.

Definition kiro_citation_key (c : KiroCitation) : string :=
  ct_kind c +:+ String "000" (ct_link c) +:+ String "000" (unwrap_or (ct_text c) "").

Definition default_label (kind : string) : string :=
  if bool_decide (kind = "web") then "Web source"
  else if bool_decide (kind = "code") then "Code reference"
  else if bool_decide (kind = "document") then "Document source"
  else "Source".

Definition is_line_end (a : ascii) : bool := in_range 10 10 a || in_range 13 13 a.

Definition format_reference (c : KiroCitation) : string :=
  let label := trim (replace_chars (unwrap_or (ct_text c) (default_label (ct_kind c))) is_line_end " ") in
  let link := trim (l2s (List.filter (fun a => negb (is_line_end a)) (s2l (ct_link c)))) in
  "- " +:+ label
  +:+ (if negb (is_empty label) && negb (is_empty link) then ": " else "")
  +:+ link.

Definition format_visible_references (citations : list KiroCitation) : string :=
  if is_nil citations then ""
  else newline +:+ newline +:+ "References:" +:+ newline +:+ join newline (format_reference <$> citations).

Definition kiro_visible_references (citations : list KiroCitation) : string :=
  format_visible_references (take 20 (distinct_by kiro_citation_key [] citations)).

(** ** Printing *)

Definition text_block (text : string) : value := json_object [("type", Str "text"); ("text", Str text)].

Definition server_tool_use (id name : string) (input : value) : value :=
  json_object [("type", Str "server_tool_use"); ("id", Str id); ("name", Str name); ("input", input)].

Definition tool_search_blocks (search : ClaudeToolSearchTrace) : list value :=
  (match tt_emission search with
   | ResultOnly => []
   | _ => [server_tool_use (tt_id search) (tt_name search) (tt_input search)]
   end)
  ++ match tt_emission search with
     | Pending => []
     | _ =>
         let outcome :=
           match tt_error search with
           | Some error =>
               json_object [("type", Str "tool_search_tool_result_error");
                            ("error_code", Str (se_code error)); ("error_message", Str (se_message error))]
           | None =>
               json_object [("type", Str "tool_search_tool_search_result");
                            ("tool_references",
                             Array ((fun name => json_object [("type", Str "tool_reference");
                                                              ("tool_name", Str name)])
                                      <$> tt_references search))]
           end in
         [json_object [("type", Str "tool_search_tool_result"); ("tool_use_id", Str (tt_id search));
                       ("content", outcome)]]
     end.

(** [collect::<Result<Vec<_>, _>>] over a numbered list. *)
Fixpoint collect_from {A B E} (f : nat -> A -> result B E) (index : nat) (l : list A) : result (list B) E :=
  match l with
  | [] => Ok []
  | x :: l => let? y := f index x in let? ys := collect_from f (S index) l in Ok (y :: ys)
  end.

Section Printing.
Context `{ReplayPrimitives}.
Context (parse_json : string -> option value) (print_json : value -> string).
(** The random nonce of the result of a search, and of a citation. *)
Context (nonce : string -> nat -> bytes) (citation_nonce : nat -> bytes).
Context (codec : WebSearchReplayCodec).

Definition web_search_blocks (search : ClaudeWebSearchTrace) : result (list value) WebSearchReplayError :=
  let use :=
    match wt_emission search with
    | ResultOnly => []
    | _ => [server_tool_use (wt_id search) "web_search" (wt_input search)]
    end in
  match wt_emission search with
  | Pending => Ok use
  | _ =>
      let? outcome :=
        match wt_error search with
        | Some error =>
            Ok (json_object [("type", Str "web_search_tool_result_error"); ("error_code", Str (we_code error))])
        | None =>
            let? results :=
              collect_from (fun index r =>
                let? sealed := try_encrypt codec (nonce (wt_id search) index) r in
                Ok (json_object [("type", Str "web_search_result"); ("url", Str (ws_url r));
                                 ("title", Str (ws_title r)); ("page_age", Null);
                                 ("encrypted_content", Str sealed)])) 0 (wt_results search) in
            Ok (Array results)
        end in
      Ok (use ++ [json_object [("type", Str "web_search_tool_result"); ("tool_use_id", Str (wt_id search));
                               ("caller", json_object [("type", Str "direct")]); ("content", outcome)]])
  end.

Definition MAX_CITATIONS : nat := 20.

(** The results that a citation may name: those whose URL the answer shows. *)
Definition cited_results (searches : list ClaudeWebSearchTrace) (answer_text : string) : list WebSearchResult :=
  take MAX_CITATIONS
    (distinct_by ws_url []
       (List.filter (fun r => contains answer_text (ws_url r))
          (search ← List.filter (fun s => match wt_emission s with Pending => false | _ => true end) searches;
           wt_results search))).

Definition cited_text (r : WebSearchResult) : string :=
  l2s (concat (take 150 (chars (if is_empty (trim (ws_snippet r)) then ws_title r else ws_snippet r)))).

Definition web_search_citations (searches : list ClaudeWebSearchTrace) (answer_text : string) :
    result (list value) WebSearchReplayError :=
  collect_from (fun index r =>
    let? sealed := try_encrypt codec (citation_nonce index) r in
    Ok (json_object [("type", Str "web_search_result_location"); ("url", Str (ws_url r));
                     ("title", Str (ws_title r)); ("encrypted_index", Str sealed);
                     ("cited_text", Str (cited_text r))])) 0 (cited_results searches answer_text).

(** [claude_json_with_context_management], in parts. *)
Definition thinking_blocks (d : DecodedResponse) : list value :=
  (match d_reasoning_signature d with
   | Some signature =>
       [json_object [("type", Str "thinking"); ("thinking", Str (d_reasoning d));
                     ("signature", Str signature)]]
   | None =>
       if is_empty (d_reasoning d) then []
       else [text_block ("<thinking>" +:+ d_reasoning d +:+ "</thinking>")]
   end)
  ++ (if is_empty (d_redacted_thinking d) then []
      else [json_object [("type", Str "redacted_thinking"); ("data", Str (d_redacted_thinking d))]]).

Definition preceding (text : string) : list value := if is_empty text then [] else [text_block text].

Definition server_event_blocks (d : DecodedResponse) (_ : nat) (event : ClaudeServerEvent) :
    result (list value) WebSearchReplayError :=
  match event with
  | ToolSearchEvent index text =>
      Ok (preceding text
          ++ match d_tool_searches d !! index with
             | Some search => tool_search_blocks search
             | None => []
             end)
  | WebSearchEvent index text =>
      match d_web_searches d !! index with
      | Some search => let? blocks := web_search_blocks search in Ok (preceding text ++ blocks)
      | None => Ok (preceding text)
      end
  end.

Definition server_blocks (d : DecodedResponse) : result (list value) WebSearchReplayError :=
  if is_nil (d_claude_server_events d) then
    let? web := collect_from (fun _ => web_search_blocks) 0 (d_web_searches d) in
    Ok ((d_tool_searches d ≫= tool_search_blocks) ++ concat web)
  else
    let? blocks := collect_from (server_event_blocks d) 0 (d_claude_server_events d) in
    Ok (concat blocks).

Definition answer_text (d : DecodedResponse) : string :=
  d_text d +:+ kiro_visible_references (d_citations d).

Definition answer_blocks (d : DecodedResponse) (citations : list value) : list value :=
  if is_empty (answer_text d) then []
  else if is_nil citations then [text_block (answer_text d)]
  else [json_object [("type", Str "text"); ("text", Str (answer_text d)); ("citations", Array citations)]].

Definition tool_use_block (entry : string * ToolBuffer) : value :=
  json_object [("type", Str "tool_use"); ("id", Str (tb_id entry.2)); ("name", Str (tb_name entry.2));
               ("input", repair_json parse_json (tb_input entry.2))].

Definition claude_stop_reason (d : DecodedResponse) (max_tokens current_round_output_tokens : Z) : string :=
  match d_stop_reason d with
  | Some reason => reason
  | None =>
      if negb (is_nil (d_tools d)) then "tool_use"
      else if (max_tokens <=? current_round_output_tokens)%Z then "max_tokens"
      else "end_turn"
  end.

Definition opt_str (o : option string) : value := match o with Some s => Str s | None => Null end.

Definition claude_usage (d : DecodedResponse) (compaction : option CompactionIterationUsage) : value :=
  let u := d_usage d in
  json_object
    ([("input_tokens",
       unsigned (sat_sub (sat_sub (input_tokens u) (cache_read_tokens u)) (cache_write_tokens u)));
      ("output_tokens", unsigned (output_tokens u));
      ("cache_creation_input_tokens", unsigned (cache_write_tokens u));
      ("cache_read_input_tokens", unsigned (cache_read_tokens u))]
     ++ (if is_nil (d_web_searches d) then []
         else [("server_tool_use",
                json_object [("web_search_requests",
                  unsigned (Z.of_nat (length (List.filter wt_executed (d_web_searches d)))))])])
     ++ (match compaction with
         | None => []
         | Some c =>
             [("iterations",
               Array [json_object [("type", Str "compaction"); ("input_tokens", unsigned (ci_input_tokens c));
                                   ("output_tokens", unsigned (ci_output_tokens c))];
                      json_object [("type", Str "message"); ("input_tokens", unsigned (input_tokens u));
                                   ("output_tokens", unsigned (output_tokens u))]])]
         end)).

Definition response_edits (original_input_tokens : option Z) (effective_input_tokens : Z)
    (stats : ClaudeContextEditStats) : list value :=
  applied_edits stats
  ++ match original_input_tokens with
     | None => []
     | Some original =>
         [json_object [("type", Str "compact_20260112"); ("reason", Str "model_mapping_overflow");
                       ("original_input_tokens", unsigned original);
                       ("compacted_input_tokens", unsigned effective_input_tokens)]]
     end.

Definition claude_content (d : DecodedResponse) (compaction_summary : option string) :
    result (list value) WebSearchReplayError :=
  let compaction :=
    match compaction_summary with
    | Some summary => [json_object [("type", Str "compaction"); ("content", Str summary)]]
    | None => []
    end in
  let? server := server_blocks d in
  let? citations := web_search_citations (d_web_searches d) (d_text d) in
  Ok (compaction ++ thinking_blocks d ++ server ++ answer_blocks d citations
      ++ (tool_use_block <$> d_tools d)).

Definition claude_json_with_context_management (d : DecodedResponse) (id model : string)
    (max_tokens current_round_output_tokens : Z) (compaction_summary : option string)
    (compaction_iteration : option CompactionIterationUsage)
    (auto_compaction_original_input_tokens : option Z) (effective_input_tokens : Z)
    (stats : ClaudeContextEditStats) : result value WebSearchReplayError :=
  let? content := claude_content d compaction_summary in
  let edits := response_edits auto_compaction_original_input_tokens effective_input_tokens stats in
  Ok (json_object
        ([("id", Str id); ("type", Str "message"); ("role", Str "assistant"); ("content", Array content);
          ("model", Str model);
          ("stop_reason", Str (claude_stop_reason d max_tokens current_round_output_tokens));
          ("stop_sequence", opt_str (d_stop_sequence d));
          ("usage", claude_usage d compaction_iteration)]
         ++ (if is_nil edits then []
             else [("context_management", json_object [("applied_edits", Array edits)])]))).
End Printing.

Section OpenAiPrinting.
Context (parse_json : string -> option value) (print_json : value -> string).

Definition openai_tool_call (identities : gmap string OpenAiToolIdentity) (entry : string * ToolBuffer) : value :=
  let tool := entry.2 in
  let identity := identities !! tb_name tool in
  let name := match identity with Some i => oi_name i | None => tb_name tool end in
  if is_some_and identity (fun i => bool_decide (oi_kind i = "custom")) then
    json_object [("id", Str (tb_id tool)); ("type", Str "custom");
                 ("custom", json_object [("name", Str name);
                                         ("input", Str (custom_tool_input parse_json (tb_input tool)))])]
  else
    json_object [("id", Str (tb_id tool)); ("type", Str "function");
                 ("function", json_object [("name", Str name);
                    ("arguments", Str (print_json (repair_json parse_json (tb_input tool))))])].

Definition openai_finish_reason (d : DecodedResponse) (max_tokens : option Z)
    (current_round_output_tokens : Z) : string :=
  if negb (is_nil (d_tools d)) then "tool_calls"
  else if bool_decide (d_stop_reason d = Some "max_tokens")
          || is_some_and max_tokens (fun maximum => maximum <=? current_round_output_tokens)%Z
  then "length" else "stop".

Definition openai_content (d : DecodedResponse) (format : Config.ThinkingOutputFormat) : value :=
  let answer := answer_text d in
  match format with
  | Config.Claude =>
      if negb (is_empty (d_reasoning d))
      then Str ("<thinking>" +:+ d_reasoning d +:+ "</thinking>" +:+ answer)
      else if is_empty answer then Null else Str answer
  | Config.Openai => if is_empty answer then Null else Str answer
  end.

(** [u64] addition wraps in the release build. *)
Definition openai_json (d : DecodedResponse) (id model : string) (created : Z) (max_tokens : option Z)
    (current_round_output_tokens : Z) (format : Config.ThinkingOutputFormat)
    (identities : gmap string OpenAiToolIdentity) : value :=
  let u := d_usage d in
  let message :=
    json_object
      ([("role", Str "assistant"); ("content", openai_content d format);
        ("tool_calls", Array (openai_tool_call identities <$> d_tools d))]
       ++ match format with
          | Config.Openai =>
              if is_empty (d_reasoning d) then [] else [("reasoning_content", Str (d_reasoning d))]
          | Config.Claude => []
          end) in
  json_object
    [("id", Str id); ("object", Str "chat.completion");
     ("created", Number (if (0 <=? created)%Z then PosInt created else NegInt created));
     ("model", Str model);
     ("choices", Array [json_object [("index", unsigned 0); ("message", message);
        ("finish_reason", Str (openai_finish_reason d max_tokens current_round_output_tokens))]]);
     ("usage", json_object
        [("prompt_tokens", unsigned (input_tokens u)); ("completion_tokens", unsigned (output_tokens u));
         ("total_tokens", unsigned (wrap_u64 (input_tokens u + output_tokens u)));
         ("prompt_tokens_details", json_object [("cached_tokens", unsigned (cache_read_tokens u))]);
         ("completion_tokens_details",
          json_object [("reasoning_tokens", unsigned (reasoning_tokens u))])])].
End OpenAiPrinting.

(** ** One round of an answer that is not streamed *)

Record Round := {
  rd_leak : ToolLeak.ToolLeakFilter;
  rd_thinking : ThinkingFilter.ThinkingContentFilter;
  rd_stop : StopFilter.StopSequenceFilter;
  rd_visible : bytes;
  rd_decoded : DecodedResponse;
}.

(** A panic is [None]; the boolean says that a stop sequence was found. *)
Definition Outcome : Type := option (result (bool * Round) string).

Definition interrupts (event : KiroEvent) : bool :=
  match event with Reasoning _ _ _ | Citations _ | ToolUse _ _ _ _ => true | _ => false end.

Section Rounds.
Context (parse_json : string -> option value) (print_json : value -> string)
        (parse_f64 : string -> option f64) (random_id : nat -> string).

Definition push_nonstream_event (r : Round) (event : KiroEvent) : Outcome :=
  let '(flushed, stop) :=
    if interrupts event then StopFilter.finish (rd_stop r) else ([], rd_stop r) in
  let pushed :=
    match event with
    | AssistantResponse content => StopFilter.push stop (s2l content)
    | _ => Some ([], stop)
    end in
  match pushed with
  | None => None
  | Some (out, stop) =>
      let visible := rd_visible r ++ flushed ++ out in
      match push parse_f64 (rd_decoded r) event with
      | Err message => Some (Err message)
      | Ok decoded =>
          match StopFilter.matched stop with
          | None =>
              Some (Ok (false, {| rd_leak := rd_leak r; rd_thinking := rd_thinking r; rd_stop := stop;
                                  rd_visible := visible; rd_decoded := decoded |}))
          | Some sequence =>
              Some (Ok (true, {| rd_leak := rd_leak r; rd_thinking := rd_thinking r; rd_stop := stop;
                                 rd_visible := [];
                                 rd_decoded := stop_at_sequence (l2s visible) (l2s sequence) decoded |}))
          end
      end
  end.

(** [for event in events { if push_nonstream_event(..)? { .. break } }] *)
Fixpoint push_events (r : Round) (events : list KiroEvent) : Outcome :=
  match events with
  | [] => Some (Ok (false, r))
  | event :: events =>
      match push_nonstream_event r event with
      | Some (Ok (false, r)) => push_events r events
      | other => other
      end
  end.

Definition with_leak (f : ToolLeak.ToolLeakFilter) (r : Round) : Round :=
  {| rd_leak := f; rd_thinking := rd_thinking r; rd_stop := rd_stop r; rd_visible := rd_visible r;
     rd_decoded := rd_decoded r |}.

Definition with_thinking (f : ThinkingFilter.ThinkingContentFilter) (r : Round) : Round :=
  {| rd_leak := rd_leak r; rd_thinking := f; rd_stop := rd_stop r; rd_visible := rd_visible r;
     rd_decoded := rd_decoded r |}.

(** [for event in filtered { for event in thinking_filter.push(event) { .. } }] *)
Fixpoint through_thinking (r : Round) (events : list KiroEvent) : Outcome :=
  match events with
  | [] => Some (Ok (false, r))
  | event :: events =>
      match ThinkingFilter.push (rd_thinking r) event with
      | None => None
      | Some (out, thinking) =>
          match push_events (with_thinking thinking r) out with
          | Some (Ok (false, r)) => through_thinking r events
          | other => other
          end
      end
  end.

Fixpoint through_filters (r : Round) (events : list KiroEvent) : Outcome :=
  match events with
  | [] => Some (Ok (false, r))
  | event :: events =>
      match ToolLeak.push parse_json print_json random_id (rd_leak r) event with
      | None => None
      | Some (out, leak) =>
          match through_thinking (with_leak leak r) out with
          | Some (Ok (false, r)) => through_filters r events
          | other => other
          end
      end
  end.

(** What the filters still hold when the stream is over. *)
Definition trailing_events (r : Round) : option (list KiroEvent) :=
  match ThinkingFilter.push_all (rd_thinking r) (ToolLeak.finish parse_json (rd_leak r)) with
  | None => None
  | Some (out, thinking) =>
      match ThinkingFilter.finish thinking with
      | Some (rest, _) => Some (out ++ rest)
      | None => None
      end
  end.

(** The decoded answer of a round. *)
Definition decode_round (r : Round) (events : list KiroEvent) : option (result DecodedResponse string) :=
  match
    match through_filters r events with
    | Some (Ok (false, r)) =>
        match trailing_events r with
        | Some trailing => push_events r trailing
        | None => None
        end
    | other => other
    end
  with
  | None => None
  | Some (Err message) => Some (Err message)
  | Some (Ok (_, r)) =>
      let d := rd_decoded r in
      Some (if is_none (d_stop_sequence d) then finalize_tool_inputs parse_json d else Ok d)
  end.
End Rounds.

(** The filters of a round, as [collect_nonstream_rounds] makes them. *)
Definition start_round (enable_leak_filter thinking omit : bool) (payload : KiroPayload)
    (stop_sequences : list string) (decoded : DecodedResponse) : option Round :=
  match StopFilter.new (s2l <$> stop_sequences) with
  | Some stop =>
      Some {| rd_leak := ToolLeak.for_payload enable_leak_filter payload;
              rd_thinking := ThinkingFilter.with_omitted_summary omit (ThinkingFilter.new thinking);
              rd_stop := stop; rd_visible := []; rd_decoded := decoded |}
  | None => None
  end.

(** *** An empty turn behind tool results *)

Inductive EmptyToolResultDisposition := Accept | Retry | Fail_.

Definition current_message_has_tool_results (payload : KiroPayload) : bool :=
  is_some_and (um_context (cs_current_message (p_conversation_state payload)))
    (fun context => negb (is_nil (ctx_tool_results context))).

Definition MAX_EMPTY_TOOL_RESULT_RETRIES : Z := 1.

Definition empty_tool_result_disposition (payload : KiroPayload) (d : DecodedResponse)
    (output_exhausted : bool) (retries : Z) : EmptyToolResultDisposition :=
  if negb (current_message_has_tool_results payload && is_empty (trim (d_text d)) && is_nil (d_tools d)
           && is_none (d_stop_reason d) && is_none (d_stop_sequence d) && negb output_exhausted)
  then Accept
  else if (retries <? MAX_EMPTY_TOOL_RESULT_RETRIES)%Z then Retry
  else Fail_.
