(* ===== verification/ResponseFacts.v ===== *)
(** * What a decoded answer says

    The tool calls that a client is sent are those that Kiro sent, with the inputs
    its fragments add up to; nothing is guessed. *)

From Stdlib Require Import ZArith Lia Ascii String List.
From stdpp Require Import base list gmap sets tactics strings.
From S2P Require Import Prelude RustStr F64 Json Protocol Model EventStream Context ToolNames ToolSearch Text WebSearch.
From S2P Require Import RepairJson Response.

Local Open Scope kproxy_scope.
Local Open Scope string_scope.
Local Open Scope list_scope.

(** ** Maps in key order *)

Section Entries.
Context {B : Type}.
Implicit Types m : list (string * B).

Definition before (a b : string) : Prop := str_cmp a b = Lt.

Lemma before_trans a b c : before a b -> before b c -> before a c.
Proof. apply cmp_l_trans. Qed.

Lemma before_irrefl a : ~ before a a.
Proof. unfold before. rewrite (proj2 (str_cmp_eq a a) eq_refl). done. Qed.

Lemma str_cmp_gt a b : str_cmp a b = Gt -> before b a.
Proof. unfold before, str_cmp. intros H. by rewrite cmp_l_swap, H. Qed.

Fixpoint sorted_keys m : Prop :=
  match m with
  | [] => True
  | (k, _) :: m => Forall (fun e => before k e.1) m /\ sorted_keys m
  end.

Fixpoint entry (k : string) m : option B :=
  match m with
  | [] => None
  | (k', v) :: m => if bool_decide (k = k') then Some v else entry k m
  end.

Lemma entry_absent k m : Forall (fun e => before k e.1) m -> entry k m = None.
Proof.
  induction 1 as [|[k' v] m H _ IH]; [done|]. cbn. case_bool_decide as E; [|done].
  subst. by apply before_irrefl in H.
Qed.

Lemma entry_elem k v m : sorted_keys m -> entry k m = Some v <-> (k, v) ∈ m.
Proof.
  induction m as [|[k' v'] m IH]; intros Hm; cbn [entry]; [set_solver|]. destruct Hm as [Hk Hm].
  rewrite elem_of_cons. case_bool_decide as E.
  - subst. split; [intros [= ->]; by left|]. intros [[= ->]|H]; [done|].
    rewrite list.Forall_forall in Hk. apply Hk in H. by apply before_irrefl in H.
  - rewrite IH by done. split; [by right|]. intros [[= -> ->]|H]; [done|done].
Qed.

Lemma sorted_nodup m : sorted_keys m -> NoDup (fst <$> m).
Proof.
  induction m as [|[k v] m IH]; intros Hm; [constructor|]. destruct Hm as [Hk Hm]. cbn.
  constructor; [|auto]. intros H. apply list_elem_of_fmap in H as ([k' v'] & -> & H).
  rewrite list.Forall_forall in Hk. apply Hk in H. by apply before_irrefl in H.
Qed.

Lemma upsert_above k j new f m :
  before j k -> Forall (fun e => before j e.1) m -> Forall (fun e => before j e.1) (upsert k new f m).
Proof.
  intros Hj. induction 1 as [|[k' v] m H Hm IH]; cbn [upsert]; [by repeat constructor|].
  destruct (str_cmp k k') eqn:E; repeat constructor; auto.
Qed.

Lemma upsert_sorted k new f m : sorted_keys m -> sorted_keys (upsert k new f m).
Proof.
  induction m as [|[k' v] m IH]; cbn [upsert]; [by repeat constructor|]. intros [Hk Hm].
  destruct (str_cmp k k') eqn:E.
  - done.
  - cbn. split; [|done]. constructor; [done|]. eapply list.Forall_impl; [exact Hk|].
    intros e. by apply before_trans.
  - cbn. split; [|auto]. by apply upsert_above; [apply str_cmp_gt|].
Qed.

Lemma entry_upsert k new f m k' :
  sorted_keys m ->
  entry k' (upsert k new f m)
  = if bool_decide (k' = k) then Some (f (unwrap_or (entry k m) new)) else entry k' m.
Proof.
  induction m as [|[j v] m IH]; cbn [upsert entry]; intros Hm.
  { by case_bool_decide. }
  destruct Hm as [Hj Hm]. destruct (str_cmp k j) eqn:E.
  - apply str_cmp_eq in E as ->. cbn [entry]. rewrite (bool_decide_eq_true_2 (j = j)) by done. cbn.
    by case_bool_decide.
  - cbn [entry]. case_bool_decide as E1; [subst k'|].
    + rewrite (bool_decide_eq_false_2 (k = j)) by (intros ->; by apply before_irrefl in E).
      rewrite entry_absent; [done|]. eapply list.Forall_impl; [exact Hj|]. intros e. by apply before_trans.
    + done.
  - cbn [entry]. apply str_cmp_gt in E.
    rewrite (bool_decide_eq_false_2 (k = j)) by (intros ->; by apply before_irrefl in E).
    rewrite IH by done. case_bool_decide as E1; case_bool_decide as E2; try done.
    subst. by apply before_irrefl in E.
Qed.
End Entries.

(** ** Fragments *)

Section Calls.
Context (parse_json : string -> option value) (parse_f64 : string -> option f64).

Fixpoint push_list (d : DecodedResponse) (events : list KiroEvent) : result DecodedResponse string :=
  match events with
  | [] => Ok d
  | event :: events => let? d := push parse_f64 d event in push_list d events
  end.

(** The input that the fragments for an id add up to, and the name that comes
    first. *)
Definition fragments (id : string) (events : list KiroEvent) : list (string * string) :=
  omap (fun event => match event with
                     | ToolUse i name input_delta _ => if bool_decide (i = id) then Some (name, input_delta) else None
                     | _ => None
                     end) events.

Definition input_of (l : list (string * string)) : string := fold_right (fun f s => f.2 +:+ s) "" l.

Fixpoint name_of (l : list (string * string)) : string :=
  match l with
  | [] => ""
  | (name, _) :: l => if is_empty name then name_of l else name
  end.

Lemma fragments_app id a b : fragments id (a ++ b) = fragments id a ++ fragments id b.
Proof. apply omap_app. Qed.

Lemma input_of_app a b : input_of (a ++ b) = input_of a +:+ input_of b.
Proof.
  induction a as [|f a IH]; [done|].
  change (input_of ((f :: a) ++ b)) with (f.2 +:+ input_of (a ++ b)). rewrite IH. apply str_app_assoc.
Qed.

Lemma name_of_snoc a name delta :
  name_of (a ++ [(name, delta)]) = if is_empty (name_of a) then name else name_of a.
Proof.
  induction a as [|[n x] a IH]; cbn; [by destruct name|]. destruct (is_empty n) eqn:E; [done|]. by rewrite E.
Qed.

(** The buffers after the events [seen]. *)
Record Buffered (seen : list KiroEvent) (tools : list (string * ToolBuffer)) : Prop := {
  bf_sorted : sorted_keys tools;
  bf_entry : forall id,
    match entry id tools with
    | Some t => tb_id t = id /\ fragments id seen <> [] /\ tb_name t = name_of (fragments id seen)
                /\ tb_input t = input_of (fragments id seen)
    | None => fragments id seen = []
    end;
  bf_bytes : (0 <= tool_bytes tools <= MAX_CUMULATIVE_TOOL_INPUT_BYTES)%Z;
}.

Lemma tool_bytes_upsert k name delta stop tools :
  (tool_bytes (upsert k {| tb_id := k; tb_name := name; tb_input := ""; tb_complete := false |}
                 (add_delta name delta stop) tools)
   = tool_bytes tools + Z.of_nat (len delta))%Z.
Proof.
  unfold tool_bytes. induction tools as [|[k' t] tools IH]; cbn [upsert fold_right snd].
  { cbn [tb_input add_delta]. rewrite len_app. change (len "") with 0%nat. lia. }
  destruct (str_cmp k k'); cbn [fold_right snd].
  - cbn [tb_input add_delta]. rewrite len_app. lia.
  - cbn [tb_input add_delta]. rewrite len_app. change (len "") with 0%nat. lia.
  - rewrite IH. lia.
Qed.

Lemma push_buffered seen d event d' :
  Buffered seen (d_tools d) -> push parse_f64 d event = Ok d' -> Buffered (seen ++ [event]) (d_tools d').
Proof.
  intros Hb. assert (Hsame : (forall id, fragments id [event] = []) -> d_tools d' = d_tools d ->
                               Buffered (seen ++ [event]) (d_tools d')).
  { intros Hf ->. destruct Hb as [H1 H2 H3]. split; [done| |done]. intros id. specialize (H2 id).
    by rewrite fragments_app, Hf, app_nil_r. }
  unfold push. destruct event as [c|id name delta stop|c sig red|cs|v|v|k msg|ty v];
    try (intros [= <-]; by apply Hsame).
  destruct (_ <? _)%Z eqn:E; [done|]. intros [= <-]. clear Hsame. destruct Hb as [H1 H2 H3].
  apply Z.ltb_ge in E. split; cbn [d_tools set_tools].
  - by apply upsert_sorted.
  - intros id'. rewrite entry_upsert by done. rewrite fragments_app. pose proof (H2 id') as H2'.
    case_bool_decide as Ei.
    + subst id'. cbn [fragments omap list_omap]. rewrite bool_decide_eq_true_2 by done.
      assert (Hg : tb_id (unwrap_or (entry id (d_tools d))
                     {| tb_id := id; tb_name := name; tb_input := ""; tb_complete := false |}) = id)
        by (destruct (entry id (d_tools d)); [by destruct H2'|done]).
      split; [exact Hg|]. split; [by destruct (fragments id seen)|].
      fold (fragments id seen). rewrite name_of_snoc, input_of_app. cbn [input_of fold_right snd tb_name tb_input add_delta].
      destruct (entry id (d_tools d)) as [t|]; cbn [unwrap_or].
      * destruct H2' as (_ & _ & -> & ->). split; [done|]. f_equal.
        by rewrite <- (l2s_s2l (delta +:+ "")), s2l_app, app_nil_r, l2s_s2l.
      * rewrite H2'. cbn. split; [by destruct (is_empty name)|].
        by rewrite <- (l2s_s2l (delta +:+ "")), s2l_app, app_nil_r, l2s_s2l.
    + cbn [fragments omap list_omap]. rewrite bool_decide_eq_false_2 by congruence.
      by rewrite app_nil_r.
  - rewrite tool_bytes_upsert. unfold sat_add, MAX_CUMULATIVE_TOOL_INPUT_BYTES, USIZE_MAX, U64_MAX in *. lia.
Qed.

Lemma push_list_buffered seen events d d' :
  Buffered seen (d_tools d) -> push_list d events = Ok d' -> Buffered (seen ++ events) (d_tools d').
Proof.
  revert seen d; induction events as [|event events IH]; intros seen d Hb; cbn [push_list].
  { intros [= <-]. by rewrite app_nil_r. }
  destruct (push parse_f64 d event) as [d1|] eqn:E; [|done]. cbn. intros H.
  rewrite cons_middle, app_assoc. eapply IH; [|exact H]. by eapply push_buffered.
Qed.
End Calls.

(** ** The tool calls of an answer *)

(** A call: its id, its name and its input. *)
Definition Call : Type := string * string * value.

Definition call_block (c : Call) : value :=
  let '(id, name, input) := c in
  json_object [("type", Str "tool_use"); ("id", Str id); ("name", Str name); ("input", input)].

Section Exact.
Context (parse_json : string -> option value) (parse_f64 : string -> option f64).

(** What the fragments for an id say the input is. *)
Definition Says (text : string) (v : value) : Prop :=
  (is_empty (trim text) = true /\ v = Object [])
  \/ (is_empty (trim text) = false /\ parse_json text = Some v).

Definition Exact (events : list KiroEvent) (c : Call) : Prop :=
  let '(id, name, input) := c in
  name = name_of (fragments id events) /\ Says (input_of (fragments id events)) input.

(** [serde_json::from_str]: the empty object is one, and white space around a text
    makes no difference. *)
Context (empty_object : parse_json "{}" = Some (Object [])).
Context (parse_trim : forall s v, parse_json s = Some v -> parse_json (trim s) = Some v).

Lemma repair_json_parses s v :
  is_empty (trim s) = false -> parse_json s = Some v -> repair_json parse_json s = v.
Proof. intros E H. unfold repair_json. by rewrite E, (parse_trim _ _ H). Qed.

Definition call_of (entry : string * ToolBuffer) : Call :=
  (tb_id entry.2, tb_name entry.2, repair_json parse_json (tb_input entry.2)).

Lemma tool_use_block_call entry : tool_use_block parse_json entry = call_block (call_of entry).
Proof. reflexivity. Qed.

Lemma finalize_ok d d' :
  finalize_tool_inputs parse_json d = Ok d' ->
  d' = set_tools (d_tools d') d
  /\ Forall2 (fun e e' => e'.1 = e.1 /\ tb_id e'.2 = tb_id e.2 /\ tb_name e'.2 = tb_name e.2
                          /\ Says (tb_input e.2) (repair_json parse_json (tb_input e'.2)))
       (d_tools d) (d_tools d').
Proof.
  unfold finalize_tool_inputs. destruct (List.find _ _) as [e|] eqn:Ef; [done|]. intros [= <-].
  split; [done|]. cbn [d_tools set_tools]. apply Forall2_fmap_r, Forall_Forall2_diag.
  rewrite list.Forall_forall. intros [k t] Hin. split; [done|]. cbn [snd prod_map].
  destruct (is_empty (trim (tb_input t))) eqn:E; cbn [tb_id tb_name tb_input]; split_and!; try done.
  - left. split; [done|]. by rewrite (repair_json_parses "{}" _ eq_refl empty_object).
  - right. split; [done|].
    apply list_elem_of_In in Hin. pose proof (find_none _ _ Ef _ Hin) as H. cbn [snd] in H.
    unfold is_json in H. rewrite E in H. cbn in H. destruct (parse_json (tb_input t)) as [v|] eqn:Ep; [|done].
    by rewrite (repair_json_parses _ v).
Qed.

Lemma finalize_err d message :
  finalize_tool_inputs parse_json d = Err message ->
  exists e, e ∈ d_tools d /\ is_empty (trim (tb_input e.2)) = false /\ parse_json (tb_input e.2) = None.
Proof.
  unfold finalize_tool_inputs. destruct (List.find _ _) as [e|] eqn:Ef; [|done]. intros _.
  apply find_some in Ef as [Hin H]. exists e. split; [by apply list_elem_of_In in Hin|].
  apply andb_true_iff in H as [H1 H2]. apply negb_true_iff in H1, H2. split; [done|].
  revert H2. unfold is_json. by destruct (parse_json (tb_input e.2)).
Qed.

Lemma buffered_exact events tools tools' :
  Buffered events tools ->
  Forall2 (fun e e' => e'.1 = e.1 /\ tb_id e'.2 = tb_id e.2 /\ tb_name e'.2 = tb_name e.2
                       /\ Says (tb_input e.2) (repair_json parse_json (tb_input e'.2))) tools tools' ->
  let calls := call_of <$> tools' in
  NoDup ((fun c => c.1.1) <$> calls)
  /\ (forall id, id ∈ ((fun c => c.1.1) <$> calls) <-> fragments id events <> [])
  /\ Forall (Exact events) calls.
Proof.
  intros [H1 H2 _] Hf. cbn zeta.
  assert (Hk : (fun c => c.1.1) <$> (call_of <$> tools') = fst <$> tools).
  { assert (Hid : Forall (fun e => tb_id e.2 = e.1) tools).
    { rewrite list.Forall_forall. intros [k t] Hin. apply (entry_elem _ _ _ H1) in Hin.
      specialize (H2 k). rewrite Hin in H2. by destruct H2. }
    clear H1 H2. induction Hf as [|e e' tools tools' (Hk & Hi & _) Hf IH]; [done|].
    apply list.Forall_cons in Hid as [He Hid]. rewrite !fmap_cons, IH by done. f_equal.
    unfold call_of. cbn [fst]. congruence. }
  rewrite Hk. split_and!; [by apply sorted_nodup| |].
  - intros id. specialize (H2 id). split.
    + intros ([k t] & -> & Hin)%list_elem_of_fmap. cbn [fst] in *.
      apply (entry_elem _ _ _ H1) in Hin. rewrite Hin in H2. by destruct H2 as (_ & ? & _).
    + destruct (entry id tools) as [t|] eqn:E; [|done]. intros _. apply (entry_elem _ _ _ H1) in E.
      by apply (list_elem_of_fmap_2 fst) in E.
  - rewrite list.Forall_forall. intros c (e' & -> & Hin)%list_elem_of_fmap.
    apply list_elem_of_lookup in Hin as [i Hi'].
    destruct (Forall2_lookup_r _ _ _ _ _ Hf Hi') as ([k t] & Hin' & _ & Hi & Hn & Hs).
    apply list_elem_of_lookup_2 in Hin'.
    apply (entry_elem _ _ _ H1) in Hin'. specialize (H2 k). rewrite Hin' in H2.
    destruct H2 as (Hk' & _ & Hn' & Hx). unfold Exact, call_of. cbn [snd] in *.
    rewrite Hi, Hk', Hn, <- Hx. done.
Qed.
End Exact.

Section Claims.
Context `{ReplayPrimitives}.

(** The calls come last, behind the blocks of an answer without calls. *)
Lemma claude_content_tools parse_json nonce citation_nonce codec d summary content :
  claude_content parse_json nonce citation_nonce codec d summary = Ok content ->
  exists front,
    claude_content parse_json nonce citation_nonce codec (set_tools [] d) summary = Ok front
    /\ content = front ++ (tool_use_block parse_json <$> d_tools d).
Proof.
  unfold claude_content. cbn [d_web_searches d_text d_tools set_tools].
  change (server_blocks nonce codec (set_tools [] d)) with (server_blocks nonce codec d).
  destruct (server_blocks _ _ _) as [server|]; [|done]. cbn [result_bind].
  destruct (web_search_citations _ _ _ _) as [citations|]; [|done]. cbn [result_bind].
  intros [= <-]. eexists. split; [reflexivity|].
  change (thinking_blocks (set_tools [] d)) with (thinking_blocks d).
  change (answer_blocks (set_tools [] d) citations) with (answer_blocks d citations).
  by rewrite fmap_nil, app_nil_r, <- !app_assoc.
Qed.

(** C26: what a client is told to call is what Kiro called.  When the inputs of the
    answer are complete, the Claude message ends in one [tool_use] block for each
    id that Kiro sent fragments for and for no other, under the first name that is
    not empty, and its input is what the joined fragments parse to (the empty object
    when they are blank), so [repair_json] never guesses; the blocks in front
    are those of an answer without calls, and the inputs are together within
    16 MiB.  When they are not complete, some id has text that is not JSON. *)
Theorem decoded_calls_exact parse_json parse_f64 nonce citation_nonce codec
    (Hempty : parse_json "{}" = Some (Object []))
    (Htrim : forall s v, parse_json s = Some v -> parse_json (trim s) = Some v)
    events d (Hpush : push_list parse_f64 DecodedResponse_default events = Ok d) :
  (tool_bytes (d_tools d) <= MAX_CUMULATIVE_TOOL_INPUT_BYTES)%Z
  /\ match finalize_tool_inputs parse_json d with
     | Ok d' =>
         forall summary content,
           claude_content parse_json nonce citation_nonce codec d' summary = Ok content ->
           exists front calls,
             claude_content parse_json nonce citation_nonce codec (set_tools [] d) summary = Ok front
             /\ content = front ++ (call_block <$> calls)
             /\ NoDup ((fun c => c.1.1) <$> calls)
             /\ (forall id, id ∈ ((fun c => c.1.1) <$> calls) <-> fragments id events <> [])
             /\ Forall (Exact parse_json events) calls
     | Err _ =>
         exists id, fragments id events <> []
           /\ is_empty (trim (input_of (fragments id events))) = false
           /\ parse_json (input_of (fragments id events)) = None
     end.
Proof.
  assert (Hb : Buffered events (d_tools d)).
  { apply (push_list_buffered parse_f64 [] events DecodedResponse_default); [|done].
    split; [done| |done]. by intros id. }
  split; [apply Hb|]. destruct (finalize_tool_inputs parse_json d) as [d'|message] eqn:Ef.
  - intros summary content Hc. apply finalize_ok in Ef as [Hd Hf]; [|done..].
    apply claude_content_tools in Hc as (front & Hfront & ->).
    exists front, (call_of parse_json <$> d_tools d'). split.
    { rewrite Hd in Hfront. exact Hfront. }
    split; [by rewrite <- list_fmap_compose|].
    by apply (buffered_exact parse_json events (d_tools d)).
  - apply finalize_err in Ef as ([k t] & Hin & H1 & H2). destruct Hb as [Hs He _].
    apply (entry_elem _ _ _ Hs) in Hin. specialize (He k). rewrite Hin in He.
    destruct He as (_ & Hf & _ & Hx). exists k. cbn [snd] in *. by rewrite <- Hx.
Qed.
End Claims.

(** A parser that knows the empty object and one other. *)
Definition demo_parse (s : string) : option value :=
  if bool_decide (trim s = "{}") then Some (Object [])
  else if bool_decide (trim s = "[1]") then Some (Array [unsigned 1]) else None.

Definition demo_events : list KiroEvent :=
  [ToolUse "b" "" "[1" false; AssistantResponse "hi"; ToolUse "a" "now" " " true; ToolUse "b" "list" "]" true].

Lemma decoded_calls_exact_witness :
  exists d, push_list (fun _ => None) DecodedResponse_default demo_events = Ok d
    /\ exists d', finalize_tool_inputs demo_parse d = Ok d'
    /\ exists content calls, claude_content (H := Plain.plain) demo_parse (fun _ _ => []) (fun _ => []) Plain.codec d' None
         = Ok content
    /\ content = [text_block "hi"] ++ (call_block <$> calls)
    /\ NoDup ((fun c : Call => c.1.1) <$> calls) /\ Forall (Exact demo_parse demo_events) calls.
Proof.
  assert (Ht : forall s v, demo_parse s = Some v -> demo_parse (trim s) = Some v)
    by (intros s v; unfold demo_parse; by rewrite trim_idemp).
  destruct (push_list (fun _ => None) DecodedResponse_default demo_events) as [d|] eqn:E; [|done].
  exists d. split; [done|].
  pose proof (decoded_calls_exact (H := Plain.plain) demo_parse (fun _ => None) (fun _ _ => []) (fun _ => [])
    Plain.codec eq_refl Ht demo_events d E) as [_ Hx].
  vm_compute in E. injection E as <-.
  destruct (finalize_tool_inputs demo_parse _) as [d'|] eqn:Ef; [|done].
  exists d'. split; [done|].
  destruct (claude_content (H := Plain.plain) demo_parse (fun _ _ => []) (fun _ => []) Plain.codec d' None)
    as [content|] eqn:Ec; [|by vm_compute in Ef; injection Ef as <-].
  destruct (Hx None content Ec) as (front & calls & Hf & -> & Hn & _ & Hall).
  vm_compute in Hf. injection Hf as <-. by exists ([text_block "hi"] ++ (call_block <$> calls)), calls.
Defined.
