(* ===== verification/RoundFacts.v ===== *)
(** * What a client reads

    The three filters together: the text of an answer that is not streamed, from
    the chunks that Kiro sends to the text and the stop sequence of the message. *)

From Stdlib Require Import ZArith Lia Ascii String List.
From stdpp Require Import base list gmap sets tactics strings.
From S2P Require Import Prelude RustStr F64 Json Protocol Model EventStream Context Text WebSearch.
From S2P Require Import RepairJson Response.
From S2P Require StopFilter ThinkingFilter ThinkingFilterFacts ToolLeak ToolLeakFacts.

Local Open Scope kproxy_scope.
Local Open Scope string_scope.
Local Open Scope list_scope.
Local Open Scope nat_scope.

Notation text_of := ThinkingFilter.text_of.
Notation others := ThinkingFilter.others.

(** An event that holds text or is not part of the answer. *)
Definition quiet (event : KiroEvent) : bool :=
  match event with
  | AssistantResponse _ | MessageMetadata _ | UsageEvent _ | OtherEvent _ _ => true
  | _ => false
  end.

Lemma quiet_others l : Forall quiet (others l) -> Forall quiet l.
Proof.
  unfold others. induction l as [|e l IH]; [done|]. cbn [List.filter].
  destruct e; cbn [ThinkingFilter.is_text negb]; intros H;
    try (apply list.Forall_cons in H as [? H]); constructor; auto.
Qed.

Lemma others_quiet l : Forall quiet l -> Forall quiet (others l).
Proof.
  unfold others. induction 1 as [|e l He _ IH]; [constructor|]. cbn [List.filter].
  destruct (negb _); [by constructor|done].
Qed.

Lemma other_event_quiet f l : Forall quiet l -> omap (ThinkingFilter.other_event f) l = others l.
Proof.
  unfold others. induction 1 as [|e l He _ IH]; [done|]. cbn [List.filter].
  destruct e; try done; cbn; by rewrite IH.
Qed.

Section Flow.
Context (parse_json : string -> option value) (print_json : value -> string)
        (parse_f64 : string -> option f64) (random_id : nat -> string).

Notation push_events := (push_events parse_f64).
Notation through_thinking := (through_thinking parse_f64).
Notation through_filters := (through_filters parse_json print_json parse_f64 random_id).
Notation leak_all := (ToolLeak.push_all parse_json print_json random_id).
Notation push_nonstream_event := (push_nonstream_event parse_f64).

(** ** The filters one behind the other *)

Lemma push_events_app r a b :
  push_events r (a ++ b)
  = match push_events r a with Some (Ok (false, r)) => push_events r b | other => other end.
Proof.
  revert r; induction a as [|event a IH]; intros r; [done|]. cbn [app Response.push_events].
  destruct (push_nonstream_event r event) as [[[[] r1]|]|]; auto.
Qed.

(** The other filters are not looked at behind them. *)
Definition dressed (leak : ToolLeak.ToolLeakFilter) (thinking : ThinkingFilter.ThinkingContentFilter)
    (o : Outcome) : Outcome :=
  match o with
  | Some (Ok (b, r)) => Some (Ok (b, with_leak leak (with_thinking thinking r)))
  | other => other
  end.

Lemma push_events_dressed leak thinking r events :
  push_events (with_leak leak (with_thinking thinking r)) events = dressed leak thinking (push_events r events).
Proof.
  revert r; induction events as [|event events IH]; intros r; [done|]. cbn [Response.push_events].
  assert (H : push_nonstream_event (with_leak leak (with_thinking thinking r)) event
              = dressed leak thinking (push_nonstream_event r event)).
  { unfold Response.push_nonstream_event, with_leak, with_thinking.
    cbn [rd_stop rd_visible rd_decoded rd_leak rd_thinking].
    repeat case_match; simplify_eq; done. }
  rewrite H. destruct (push_nonstream_event r event) as [[[[] r1]|]|]; cbn; auto.
Qed.

(** The same answer, apart from the filters in front. *)
Definition same_end (o o' : Outcome) : Prop :=
  match o, o' with
  | Some (Ok (true, r)), Some (Ok (true, r')) => rd_decoded r = rd_decoded r'
  | Some (Ok (false, r)), Some (Ok (false, r')) => r = r'
  | Some (Err e), Some (Err e') => e = e'
  | None, None => True
  | _, _ => False
  end.

Lemma dressed_twice leak thinking leak' thinking' o :
  dressed leak thinking (dressed leak' thinking' o) = dressed leak thinking o.
Proof. by destruct o as [[[? ?]|]|]. Qed.

Lemma round_eta r : with_leak (rd_leak r) (with_thinking (rd_thinking r) r) = r.
Proof. by destruct r. Qed.

Lemma through_thinking_flat r events out thinking leak :
  ThinkingFilter.push_all (rd_thinking r) events = Some (out, thinking) ->
  same_end (through_thinking (with_leak leak r) events) (dressed leak thinking (push_events r out)).
Proof.
  revert r out; induction events as [|event events IH]; intros r out; cbn [ThinkingFilter.push_all].
  { intros [= <- <-]. cbn. by rewrite <- (round_eta r) at 1. }
  destruct (ThinkingFilter.push _ event) as [[o1 t1]|] eqn:E1; [|done].
  destruct (ThinkingFilter.push_all t1 events) as [[o2 t2]|] eqn:E2; [|done]. intros [= <- <-].
  cbn [Response.through_thinking]. cbn [rd_thinking with_leak]. rewrite E1, push_events_app.
  change (with_thinking t1 (with_leak leak r)) with (with_leak leak (with_thinking t1 r)).
  rewrite push_events_dressed. specialize (fun r1 => IH (with_thinking t1 r1) o2 E2).
  destruct (push_events r o1) as [[[[] r1]|]|]; cbn [dressed]; try done.
  specialize (IH r1).
  enough (Hd : dressed leak t2 (push_events (with_thinking t1 r1) o2) = dressed leak t2 (push_events r1 o2))
    by by rewrite <- Hd.
  rewrite <- (round_eta r1) at 2. rewrite <- (round_eta (with_thinking t1 r1)).
  change (with_thinking _ (with_thinking t1 r1)) with (with_thinking t1 r1).
  cbn [with_thinking rd_leak rd_thinking]. rewrite !push_events_dressed.
  by destruct (push_events r1 o2) as [[[[] ?]|]|].
Qed.

Lemma thinking_all_app f a b :
  ThinkingFilter.push_all f (a ++ b)
  = match ThinkingFilter.push_all f a with
    | Some (out, f) =>
        match ThinkingFilter.push_all f b with Some (rest, f) => Some (out ++ rest, f) | None => None end
    | None => None
    end.
Proof.
  revert f; induction a as [|event a IH]; intros f; cbn [app ThinkingFilter.push_all].
  { by destruct (ThinkingFilter.push_all f b) as [[? ?]|]. }
  destruct (ThinkingFilter.push f event) as [[o1 f1]|]; [|done]. rewrite IH.
  destruct (ThinkingFilter.push_all f1 a) as [[o2 f2]|]; [|done].
  destruct (ThinkingFilter.push_all f2 b) as [[o3 f3]|]; [|done]. by rewrite app_assoc.
Qed.

Lemma through_filters_flat r events shown out leak thinking :
  leak_all (rd_leak r) events = Some (shown, leak) ->
  ThinkingFilter.push_all (rd_thinking r) shown = Some (out, thinking) ->
  same_end (through_filters r events) (dressed leak thinking (push_events r out)).
Proof.
  revert r shown out; induction events as [|event events IH]; intros r shown out; cbn [ToolLeak.push_all].
  { intros [= <- <-]. cbn [ThinkingFilter.push_all]. intros [= <- <-]. cbn. by rewrite round_eta. }
  destruct (ToolLeak.push _ _ _ _ event) as [[s1 l1]|] eqn:E1; [|done].
  destruct (ToolLeak.push_all _ _ _ l1 events) as [[s2 l2]|] eqn:E2; [|done]. intros [= <- <-].
  rewrite thinking_all_app.
  destruct (ThinkingFilter.push_all (rd_thinking r) s1) as [[o1 t1]|] eqn:E3; [|done].
  destruct (ThinkingFilter.push_all t1 s2) as [[o2 t2]|] eqn:E4; [|done]. intros [= <- <-].
  cbn [Response.through_filters]. rewrite E1, push_events_app.
  pose proof (through_thinking_flat r s1 o1 t1 l1 E3) as H. revert H.
  destruct (push_events r o1) as [[[[] r1]|]|] eqn:Ep; cbn [dressed];
    destruct (through_thinking (with_leak l1 r) s1) as [[[[] r2]|]|]; cbn [same_end]; try done.
  intros ->. pose proof (IH (with_leak l1 (with_thinking t1 r1)) s2 o2 E2 E4) as H.
  by rewrite push_events_dressed, dressed_twice in H.
Qed.

(** ** The stop sequences *)

(** A round whose text so far is [t], without a stop sequence and without calls. *)
Record Running (l0 : list bytes) (t : bytes) (r : Round) : Prop := {
  rn_held : StopFilter.Held l0 (rd_stop r) t (rd_visible r);
  rn_free : StopFilter.matched (rd_stop r) = None;
  rn_text : s2l (d_text (rd_decoded r)) = t;
  rn_tools : d_tools (rd_decoded r) = [];
  rn_sequence : d_stop_sequence (rd_decoded r) = None;
  rn_reason : d_stop_reason (rd_decoded r) = None;
}.

(** The answer [d] to the text [t]. *)
Record Answers (l0 : list bytes) (t : bytes) (d : DecodedResponse) : Prop := {
  an_cut : (s2l (d_text d), s2l <$> d_stop_sequence d) = StopFilter.cut l0 t;
  an_reason : d_stop_reason d = (fun _ => "stop_sequence") <$> d_stop_sequence d;
  an_tools : d_tools d = [];
}.

Lemma push_quiet l0 t r event :
  Running l0 t r -> Forall StopFilter.starts_char l0 -> quiet event = true ->
  exists b r', push_nonstream_event r event = Some (Ok (b, r')) /\
    if b then Answers l0 (t ++ text_of [event]) (rd_decoded r') /\ d_stop_sequence (rd_decoded r') <> None
    else Running l0 (t ++ text_of [event]) r'.
Proof.
  intros [Hh Hm Ht Htools Hs Hreason] Hchar Hq.
  destruct event as [c|id name delta stop|c sig red|cs|v|v|k msg|ty v]; try done.
  all: unfold Response.push_nonstream_event; cbn [interrupts Response.push].
  2-4: rewrite Hm; eexists _, _; split; [done|]; cbn [text_of]; rewrite app_nil_r;
    split; cbn [rd_stop rd_visible rd_decoded]; rewrite ?app_nil_r; done.
  destruct (StopFilter.push_spec l0 (rd_stop r) t (rd_visible r) (s2l c) Hh Hchar) as (v & f & -> & Hh').
  replace (text_of [AssistantResponse c]) with (s2l c) by (cbn; by rewrite app_nil_r).
  destruct (StopFilter.matched f) as [p|] eqn:Hf; eexists _, _; (split; [done|]).
  - split; [|done]. split; [|done|done]. cbn. rewrite !s2l_l2s.
    destruct Hh' as [_ _ Hst]. rewrite Hf in Hst. destruct Hst as (n & Hn & Hv & _).
    unfold StopFilter.cut. by rewrite Hn, <- Hv.
  - split; cbn; try done. by rewrite s2l_app, Ht.
Qed.

(** What has been decided stays so. *)
Lemma cut_app l0 t u x p : StopFilter.cut l0 t = (x, Some p) -> StopFilter.cut l0 (t ++ u) = (x, Some p).
Proof.
  unfold StopFilter.cut. destruct (StopFilter.first_stop l0 t) as [[n q]|] eqn:E; [|done].
  rewrite (StopFilter.first_stop_app _ _ _ _ E). intros [= <- <-].
  apply StopFilter.first_stop_Some in E as (Hn & _). rewrite take_app_le; [done|lia].
Qed.

Lemma push_events_quiet l0 t r events :
  Running l0 t r -> Forall StopFilter.starts_char l0 -> Forall quiet events ->
  exists b r', push_events r events = Some (Ok (b, r')) /\
    if b then Answers l0 (t ++ text_of events) (rd_decoded r') /\ d_stop_sequence (rd_decoded r') <> None
    else Running l0 (t ++ text_of events) r'.
Proof.
  intros Hr Hchar Hq. revert t r Hr; induction Hq as [|event events He _ IH]; intros t r Hr;
    cbn [Response.push_events].
  { exists false, r. by rewrite app_nil_r. }
  rewrite ThinkingFilterFacts.text_of_cons, app_assoc.
  destruct (push_quiet l0 t r event Hr Hchar) as (b & r1 & -> & H1); [by apply Is_true_true|].
  destruct b; [|by apply IH]. eexists _, _. split; [done|]. destruct H1 as [[Hc ? ?] Hs].
  split; [|done]. split; [|done|done]. destruct (d_stop_sequence (rd_decoded r1)); [|done].
  symmetry. by apply cut_app.
Qed.

Lemma Running_answers l0 t r : Running l0 t r -> Answers l0 t (rd_decoded r).
Proof.
  intros [[_ _ Hst] Hm Ht Htools Hs Hr]. rewrite Hm in Hst. destruct Hst as (Hn & _).
  split; rewrite ?Hs; [|done|done]. unfold StopFilter.cut. by rewrite Hn, Ht.
Qed.
End Flow.

(** ** Calls in the text, when there are no tools to call *)

Section Whole.
Context (parse_json : string -> option value) (print_json : value -> string)
        (parse_f64 : string -> option f64) (random_id : nat -> string).

Notation leak_all := (ToolLeak.push_all parse_json print_json random_id).

Lemma Pieces_without_tools schemas text shown calls :
  ToolLeakFacts.Pieces parse_json print_json random_id ∅ schemas text shown calls -> text = shown /\ calls = [].
Proof.
  induction 1 as [|t s c piece _ [-> ->]|t s c xml index events _ _ _ Hr]; [done|done|].
  by rewrite ToolLeakFacts.recover_without_tools in Hr.
Qed.

Lemma leak_disabled f events :
  ToolLeak.tl_enabled f = false -> leak_all f events = Some (events, f).
Proof.
  intros H. induction events as [|event events IH]; [done|]. cbn [ToolLeak.push_all].
  unfold ToolLeak.push at 1. rewrite H. cbn [negb]. by rewrite IH.
Qed.

Lemma leak_plain on payload events :
  let f := ToolLeak.for_payload on payload in
  on = false \/ ToolLeak.known_tools f = ∅ ->
  exists outs g, leak_all f events = Some (outs, g)
    /\ text_of (outs ++ ToolLeak.finish parse_json g) = text_of events
    /\ others (outs ++ ToolLeak.finish parse_json g) = others events.
Proof.
  intros f Hf. destruct (ToolLeakFacts.for_payload_start on payload) as (H1 & H2 & H3). fold f in H1, H2, H3.
  destruct on.
  - destruct Hf as [|Hf]; [done|].
    destruct (ToolLeakFacts.push_all_leak parse_json print_json random_id f events [] [] f H1
                (ToolLeakFacts.for_payload_Leaking _ _ _ true payload)) as (outs & g & Hp & Ho & Hg).
    exists outs, g. split; [done|]. destruct (ToolLeakFacts.finish_leak _ _ _ _ _ _ _ Hg) as (Hpc & _ & Hs).
    rewrite Hf in Hpc. apply Pieces_without_tools in Hpc as [Ht Hc]. cbn [app] in Ht.
    rewrite ThinkingFilterFacts.text_of_app, ThinkingFilterFacts.others_app, Ho, Hs, Hc, app_nil_r. done.
  - exists events, f. split; [by apply leak_disabled|]. unfold ToolLeak.finish. rewrite H2, H3.
    cbn. by rewrite app_nil_r.
Qed.

Lemma finalize_no_tools d : d_tools d = [] -> finalize_tool_inputs parse_json d = Ok d.
Proof. unfold finalize_tool_inputs. intros E. rewrite E. cbn. f_equal. destruct d. cbn in E. by subst. Qed.

(** The thinking filter over a whole answer. *)
Lemma thinking_whole thinking omit events :
  Forall quiet events ->
  exists outs f last f',
    ThinkingFilter.push_all (ThinkingFilter.with_omitted_summary omit (ThinkingFilter.new thinking)) events
    = Some (outs, f)
    /\ ThinkingFilter.finish f = Some (last, f')
    /\ text_of (outs ++ last) = ThinkingFilter.visible (thinking && negb omit) (text_of events)
    /\ others (outs ++ last) = others events.
Proof.
  intros Hq. destruct (ThinkingFilterFacts.thinking_push_all_spec _ events [] [] _
    (ThinkingFilterFacts.start_Reached thinking omit)) as (outs & f & Hp & Hr & Ho).
  destruct (ThinkingFilterFacts.finish_text _ _ _ _ _ Hr) as (last & f' & Hfin & Ht & Hl).
  exists outs, f, last, f'. split; [done|]. split; [done|].
  rewrite ThinkingFilterFacts.text_of_app, ThinkingFilterFacts.others_app, Ho, Hl, app_nil_r.
  by rewrite (other_event_quiet _ _ Hq).
Qed.

(** A round is its filters one behind the other, over all of the events. *)
Lemma decode_round_flat r events o1 leak o2 thinking last thinking' b r' :
  leak_all (rd_leak r) events = Some (o1, leak) ->
  ThinkingFilter.push_all (rd_thinking r) (o1 ++ ToolLeak.finish parse_json leak) = Some (o2, thinking) ->
  ThinkingFilter.finish thinking = Some (last, thinking') ->
  push_events parse_f64 r (o2 ++ last) = Some (Ok (b, r')) ->
  decode_round parse_json print_json parse_f64 random_id r events
  = Some (if is_none (d_stop_sequence (rd_decoded r')) then finalize_tool_inputs parse_json (rd_decoded r')
          else Ok (rd_decoded r')).
Proof.
  rewrite thinking_all_app. intros Hl Ht Hfin Hp.
  destruct (ThinkingFilter.push_all (rd_thinking r) o1) as [[t1 th1]|] eqn:E1; [|done].
  destruct (ThinkingFilter.push_all th1 _) as [[t2 th2]|] eqn:E2; [|done]. injection Ht as <- <-.
  pose proof (through_filters_flat parse_json print_json parse_f64 random_id r events o1 t1 leak th1 Hl E1) as H.
  rewrite <- app_assoc, push_events_app in Hp. unfold decode_round. revert H Hp.
  destruct (push_events parse_f64 r t1) as [[[[] r1]|]|]; cbn [dressed];
    destruct (through_filters _ _ _ _ r events) as [[[[] r2]|]|]; cbn [same_end]; try done.
  - intros Hd [= <- <-]. cbn in Hd. by rewrite Hd.
  - intros ->. unfold trailing_events. cbn [rd_thinking rd_leak with_leak with_thinking].
    rewrite E2, Hfin. intros Hp.
    rewrite push_events_dressed, Hp. done.
Qed.

(** C25: the text that a client reads.  When an answer that is not streamed is plain
    text (with usage or unknown events between), and no calls are to be recovered
    from it (the filter is off, or the request offers no tools), then however Kiro
    cuts the text into events and whatever the three filters hold back between
    them, the round ends without a panic or an error, and the text and the stop
    sequence of the message are those of the whole: the thinking tags taken out
    (when the client is to see no thinking), and the rest cut at the first
    stop sequence, which is then also the reason that is given; no tool is called. *)
Theorem round_text_spec enable thinking omit payload stops events :
  Forall (fun s => utf8_valid (s2l s) = true) stops -> Forall quiet events ->
  enable = false \/ ToolLeak.known_tools (ToolLeak.for_payload enable payload) = ∅ ->
  exists r d,
    start_round enable thinking omit payload stops DecodedResponse_default = Some r
    /\ decode_round parse_json print_json parse_f64 random_id r events = Some (Ok d)
    /\ Answers (StopFilter.non_empty (s2l <$> stops))
         (ThinkingFilter.visible (thinking && negb omit) (text_of events)) d.
Proof.
  intros Hutf Hq Htools.
  destruct (StopFilter.new_spec (s2l <$> stops)) as (f & Hnew & Hf & Hm & Hin & Hext).
  assert (Hchar : Forall StopFilter.starts_char (StopFilter.values (StopFilter.sequences f))).
  { apply list.Forall_forall. intros p [Hp _]%Hin%list_elem_of_In%List.filter_In.
    apply list_elem_of_In, list_elem_of_fmap in Hp as (s & -> & Hs).
    rewrite list.Forall_forall in Hutf. by apply StopFilter.utf8_starts_char, Hutf. }
  unfold start_round. rewrite Hnew.
  set (r := {| rd_leak := _; rd_thinking := _; rd_stop := _; rd_visible := _; rd_decoded := _ |}).
  assert (Hr : Running (StopFilter.values (StopFilter.sequences f)) [] r) by done.
  destruct (leak_plain enable payload events Htools) as (o1 & leak & Hl & Ht1 & Ho1).
  destruct (thinking_whole thinking omit (o1 ++ ToolLeak.finish parse_json leak)) as
    (o2 & th & last & th' & Hth & Hfin & Ht2 & Ho2).
  { apply quiet_others. rewrite Ho1. by apply others_quiet. }
  destruct (push_events_quiet parse_f64 _ [] r (o2 ++ last) Hr Hchar) as (b & r' & Hp & Hb).
  { apply quiet_others. rewrite Ho2, Ho1. by apply others_quiet. }
  cbn [app] in Hb. rewrite Ht2, Ht1 in Hb.
  assert (Ha : Answers (StopFilter.values (StopFilter.sequences f))
    (ThinkingFilter.visible (thinking && negb omit) (text_of events)) (rd_decoded r'))
    by (destruct b; [apply Hb|by apply Running_answers]).
  exists r, (rd_decoded r'). split; [done|].
  rewrite (decode_round_flat r events o1 leak o2 th last th' b r' Hl Hth Hfin Hp). split.
  - destruct (d_stop_sequence (rd_decoded r')) eqn:E; [done|]. cbn [is_none]. do 2 f_equal.
    by rewrite finalize_no_tools by apply Ha.
  - destruct Ha as [Hc ? ?]. split; [|done|done]. rewrite Hc. unfold StopFilter.cut. by rewrite Hext.
Qed.
End Whole.

Definition demo_events : list KiroEvent :=
  [AssistantResponse "<thin"; UsageEvent Null; AssistantResponse "king>a plan</thinking>To";
   AssistantResponse " be, E"; AssistantResponse "ND or"].

Definition demo_payload : KiroPayload :=
  {| p_conversation_state :=
       {| cs_agent_continuation_id := None; cs_agent_task_type := None;
          cs_chat_trigger_type := "MANUAL"; cs_conversation_id := "c";
          cs_current_message :=
            {| um_content := "go"; um_model_id := "m"; um_origin := "AI_EDITOR"; um_images := [];
               um_documents := []; um_cache_point := None; um_client_cache_config := None;
               um_context := None |};
          cs_history := [] |};
     p_profile_arn := None; p_inference_config := None; p_additional_model_request_fields := None;
     p_model_request_intent := None; p_protected_history_messages := 0 |}.

Lemma round_text_spec_witness :
  exists r d,
    start_round true true true demo_payload ["or"; "END"] DecodedResponse_default = Some r
    /\ decode_round (fun _ => None) (fun _ => "") (fun _ => None) (fun _ => "") r demo_events = Some (Ok d)
    /\ d_text d = "To be, " /\ d_stop_sequence d = Some "END".
Proof.
  destruct (round_text_spec (fun _ => None) (fun _ => "") (fun _ => None) (fun _ => "")
              true true true demo_payload ["or"; "END"] demo_events) as (r & d & Hr & Hd & [Hc _ _]).
  - repeat constructor.
  - repeat constructor.
  - right. reflexivity.
  - exists r, d. split; [exact Hr|]. split; [exact Hd|]. match type of Hc with _ = ?x => let v := eval vm_compute in x in replace x with v in Hc by (vm_compute; reflexivity) end.
    apply pair_equal_spec in Hc as [Ht Hs].
    split.
    + rewrite <- (l2s_s2l (d_text d)), Ht. reflexivity.
    + destruct (d_stop_sequence d) as [x|]; [|discriminate]. injection Hs as Hs.
      rewrite <- (l2s_s2l x), Hs. reflexivity.
Defined.
