(* ===== verification/Responses.v ===== *)
(** * From a Responses request to an OpenAI request

    [kproxy-translate/src/responses.rs] and [compatibility.rs]: requests of the
    OpenAI Responses protocol, and of the legacy function protocol, are brought
    into the shape of a chat request.  The base64 decoder, the URL parser and the
    JSON parser of the validation are arguments; so are the deserializer of a chat
    request and the digest that names legacy calls.  The log of ignored controls
    is left out. *)

From Stdlib Require Import ZArith Lia Ascii String List.
From stdpp Require Import base list gmap sets tactics strings.
From S2P Require Import Prelude RustStr F64 Json Text Protocol Model ToolHistory Context Content.
From S2P Require Import EventStream Schema Attachments Validate ValidateOpenAi.

Local Open Scope kproxy_scope.
Local Open Scope string_scope.
Local Open Scope list_scope.

(** ** Types *)

Record ResponsesReasoning := {
  rn_effort : option string;
  rn_summary : option string;
  rn_context : option string;
}.

Record ResponsesText := { rt_format : option value; rt_verbosity : option string }.

Record ResponsesRequest := {
  rr_model : string;
  rr_input : value;
  rr_instructions : option string;
  rr_stream : bool;
  rr_stream_options : option value;
  rr_max_output_tokens : option Z;
  rr_temperature : option f64;
  rr_top_p : option f64;
  rr_tools : option (list value);
  rr_tool_choice : option value;
  rr_parallel_tool_calls : option bool;
  rr_reasoning : option ResponsesReasoning;
  rr_text : option ResponsesText;
  rr_metadata : option value;
  rr_include : list string;
  rr_store : option bool;
  rr_background : option bool;
  rr_previous_response_id : option string;
  rr_conversation : option value;
  rr_truncation : option string;
  rr_service_tier : option string;
  rr_max_tool_calls : option Z;
  rr_context_management : option value;
  rr_prompt_cache_key : option string;
  rr_prompt_cache_retention : option string;
  rr_safety_identifier : option string;
  rr_user : option string;
  rr_client_metadata : option (gmap string string);
}.

Record ResponsesToolName := { tn_name : string; tn_namespace : option string }.

Record ResponsesTranslation := {
  rx_request : OpenAiRequest;
  rx_tool_names : gmap string ResponsesToolName;
  rx_tools : list value;
}.

(** ** Accessors *)

(** [string]. *)
Definition string_field (v : value) (key field : string) : result string ValidationError :=
  match get_str v key with
  | Some s => Ok s
  | None => invalid (field +:+ "." +:+ key) "expected a string"
  end.

Definition required_string (v : value) (key field : string) : result string ValidationError :=
  let? s := string_field v key field in
  if is_empty (trim s) then invalid (field +:+ "." +:+ key) "must not be empty" else Ok s.

Definition message (role : string) (content : option value) : OpenAiMessage :=
  {| om_role := role; om_content := content; om_tool_calls := []; om_tool_call_id := None;
     om_reasoning_content := None; om_refusal := None; om_name := None; om_cache_control := None |}.

Definition qualify (namespace name : string) : string := namespace +:+ "." +:+ name.

Definition qualified_name (item : value) (field : string) : result string ValidationError :=
  let? name := required_string item "name" field in
  match not_null (get item "namespace") with
  | Some v =>
      match opt_filter (fun s => negb (is_empty (trim s))) (as_str v) with
      | Some namespace => Ok (qualify namespace name)
      | None => invalid (field +:+ ".namespace") "expected a non-empty string"
      end
  | None => Ok name
  end.

Definition is_codex_automation_bootstrap (item : value) : bool :=
  bool_decide (get_str item "name" = Some "automation_update")
  && bool_decide (get_str item "namespace" = Some "codex_app")
  && is_none_or (get item "call_id") is_null.

Definition text_part (text : string) : value := json_object [("type", Str "text"); ("text", Str text)].

(** [Map::remove]. *)
Definition obj_remove (k : string) (m : list (string * value)) : list (string * value) :=
  List.filter (fun e => negb (bool_decide (e.1 = k))) m.

(** ** Attached files *)

Section Files.
Context (b64_decode : string -> option bytes).

Definition PDF_MAGIC : bytes := s2l "%PDF-".

(** The media type and the encoded data of a file. *)
Definition file_data (file : value) (field : string) : result (option string * string) ValidationError :=
  match get_str file "file_data" with
  | None => invalid (field +:+ ".file_data") "expected base64 data or a base64 data URL"
  | Some data =>
      match strip_prefix data "data:" with
      | None => Ok (None, data)
      | Some data =>
          match split_once_str data ";base64," with
          | None => invalid (field +:+ ".file_data") "expected a base64 data URL"
          | Some (media, encoded) => Ok (Some media, encoded)
          end
      end
  end.

Definition base64_source (media : option string) (encoded : string) : value :=
  json_object ([("type", Str "base64"); ("data", Str encoded)]
               ++ match media with Some media => [("media_type", Str media)] | None => [] end).

Definition file_document (title source : list (string * value)) : value :=
  json_object (("type", Str "document") :: title ++ source).

(** What is looked at when neither the name nor the media type tells the format. *)
Definition sniff_media_type (encoded field : string) : result string ValidationError :=
  match b64_decode encoded with
  | None => invalid (field +:+ ".file_data") "invalid base64 document data"
  | Some bytes =>
      if is_some (strip_prefix_l PDF_MAGIC bytes) then Ok "application/pdf"
      else if utf8_valid bytes then Ok "text/plain"
      else invalid (field +:+ ".filename")
             "provide a filename or a data URL media type for binary documents"
  end.

Definition openai_file_document (part : value) (field : string) : result value ValidationError :=
  let file := unwrap_or (get part "file") part in
  reject_if (is_some (not_null (get file "file_id"))) (field +:+ ".file_id")
    "hosted file IDs cannot be resolved by Kiro; provide file_data or file_url" ;?
  let? title :=
    match not_null (get file "filename") with
    | Some (Str name) => Ok [("title", Str name)]
    | Some _ => invalid (field +:+ ".filename") "expected a string"
    | None => Ok []
    end in
  let? source :=
    match not_null (get file "file_url") with
    | Some (Str url) => Ok (json_object [("type", Str "url"); ("url", Str url)])
    | Some _ => invalid (field +:+ ".file_url") "expected a string"
    | None =>
        let? (media, encoded) := file_data file field in
        let source := base64_source media encoded in
        match claude_document_format (file_document title [("source", source)]) with
        | Some _ => Ok source
        | None => let? media := sniff_media_type encoded field in Ok (base64_source (Some media) encoded)
        end
    end in
  Ok (file_document title
        (("source", source)
         :: match get part "cache_control" with
            | Some control => [("cache_control", control)]
            | None => []
            end)).
End Files.

(** ** Content *)

Section Content.
Context (b64_decode : string -> option bytes).

Definition image_detail (part : value) (field : string) : result (list (string * value)) ValidationError :=
  match not_null (get part "detail") with
  | None => Ok []
  | Some detail =>
      if is_some_and (as_str detail) (fun s => mem s ["auto"; "low"; "high"; "original"])
      then Ok [("detail", detail)]
      else invalid (field +:+ ".detail") "invalid image detail"
  end.

Definition input_image (part : value) (field : string) : result value ValidationError :=
  let? url := required_string part "image_url" field in
  reject_if (is_some (not_null (get part "file_id"))) (field +:+ ".file_id")
    "use an image URL or base64 data URL" ;?
  let? detail := image_detail part field in
  Ok (json_object [("type", Str "image_url"); ("image_url", json_object (("url", Str url) :: detail))]).

Definition content_part (images : bool) (field : string) (part : value) : result value ValidationError :=
  match get_str part "type" with
  | Some kind =>
      if mem kind ["input_text"; "output_text"]
      then let? text := string_field part "text" field in Ok (text_part text)
      else if bool_decide (kind = "refusal")
      then let? text := string_field part "refusal" field in Ok (text_part text)
      else if bool_decide (kind = "input_file") && images
      then openai_file_document b64_decode part field
      else if bool_decide (kind = "input_image") && images then input_image part field
      else invalid (field +:+ ".type")
             "unsupported content part; use text or input_image with an image URL"
  | None => invalid (field +:+ ".type")
              "unsupported content part; use text or input_image with an image URL"
  end.

(** [enumerate().map(..).collect::<Result<Vec<_>, _>>()]. *)
Fixpoint map_each {A B E} (f : nat -> A -> result B E) (index : nat) (l : list A) : result (list B) E :=
  match l with
  | [] => Ok []
  | x :: l => let? y := f index x in let? ys := map_each f (S index) l in Ok (y :: ys)
  end.

Definition content (v : option value) (field : string) (images : bool) : result value ValidationError :=
  match v with
  | Some (Str text) => Ok (Str text)
  | Some (Array parts) =>
      let? parts := map_each (fun index => content_part images (field +:+ "." +:+ show_nat index)) 0 parts in
      Ok (Array parts)
  | _ => invalid field "expected a string or content array"
  end.

(** ** Items of the input *)

(** [calls] are the ids so far, [pending] those without an output, with the kind
    of their call. *)
Record Items := {
  it_messages : list OpenAiMessage;
  it_calls : gset string;
  it_pending : gmap string string;
}.

Definition no_items (messages : list OpenAiMessage) : Items :=
  {| it_messages := messages; it_calls := ∅; it_pending := ∅ |}.

Definition push_message (m : OpenAiMessage) (st : Items) : Items :=
  {| it_messages := it_messages st ++ [m]; it_calls := it_calls st; it_pending := it_pending st |}.

Definition message_item (item : value) (field : string) (st : Items) : result Items ValidationError :=
  let? role := required_string item "role" field in
  if negb (mem role ["system"; "developer"; "user"; "assistant"])
  then invalid (field +:+ ".role") "expected system, developer, user, or assistant"
  else
    let? content := content (get item "content") (field +:+ ".content") (bool_decide (role = "user")) in
    Ok (push_message (message role (Some content)) st).

(** The kind of a call in a chat request, and where it keeps its input. *)
Definition call_shape (kind : string) : string * string :=
  if bool_decide (kind = "function_call") then ("function", "arguments") else ("custom", "input").

Definition chat_call (id kind name input : string) : value :=
  let '(tool_type, key) := call_shape kind in
  json_object [("id", Str id); ("type", Str tool_type);
               (tool_type, json_object [("name", Str name); (key, Str input)])].

Definition call_message (call : value) : OpenAiMessage :=
  {| om_role := "assistant"; om_content := None; om_tool_calls := [call]; om_tool_call_id := None;
     om_reasoning_content := None; om_refusal := None; om_name := None; om_cache_control := None |}.

Definition call_item (kind : string) (item : value) (field : string) (st : Items) :
    result Items ValidationError :=
  let? id := required_string item "call_id" field in
  if bool_decide (id ∈ it_calls st) then invalid (field +:+ ".call_id") "duplicate tool call id" else
  let? name := qualified_name item field in
  let? input := string_field item (call_shape kind).2 field in
  Ok (push_message (call_message (chat_call id kind name input))
        {| it_messages := it_messages st; it_calls := {[id]} ∪ it_calls st;
           it_pending := <[id := kind]> (it_pending st) |}).

Definition bootstrap_item (item : value) (field : string) (st : Items) : result Items ValidationError :=
  let? output := content (get item "output") (field +:+ ".output") false in
  Ok (push_message (message "developer" (Some output)) st).

Definition result_message (id : string) (output : value) : OpenAiMessage :=
  {| om_role := "tool"; om_content := Some output; om_tool_calls := []; om_tool_call_id := Some id;
     om_reasoning_content := None; om_refusal := None; om_name := None; om_cache_control := None |}.

Definition answered_kind (kind : string) : string :=
  if bool_decide (kind = "function_call_output") then "function_call" else "custom_tool_call".

Definition UNANSWERED : string :=
  "tool output must match an earlier, unanswered call in input; send the complete history".

Definition output_item (kind : string) (item : value) (field : string) (st : Items) :
    result Items ValidationError :=
  let? id := required_string item "call_id" field in
  if negb (bool_decide (it_pending st !! id = Some (answered_kind kind)))
  then invalid (field +:+ ".call_id") UNANSWERED
  else
    let? output := content (get item "output") (field +:+ ".output") true in
    Ok (push_message (result_message id output)
          {| it_messages := it_messages st; it_calls := it_calls st;
             it_pending := delete id (it_pending st) |}).

Definition reasoning_part (field key : string) (index : nat) (part : value) : result string ValidationError :=
  let part_field := field +:+ "." +:+ key +:+ "." +:+ show_nat index in
  if is_some_and (get_str part "type") (fun kind => mem kind ["summary_text"; "reasoning_text"; "text"])
  then string_field part "text" part_field
  else invalid part_field "expected a plaintext reasoning part".

Definition reasoning_parts (item : value) (field key : string) : result (list string) ValidationError :=
  match not_null (get item key) with
  | None => Ok []
  | Some (Array parts) => map_each (reasoning_part field key) 0 parts
  | Some _ => invalid (field +:+ "." +:+ key) "expected an array"
  end.

Definition reasoning_item (item : value) (field : string) (st : Items) : result Items ValidationError :=
  let? summary := reasoning_parts item field "summary" in
  let? content := reasoning_parts item field "content" in
  let reasoning := summary ++ content in
  Ok (if is_nil reasoning then st
      else push_message
             (message "assistant"
                (Some (Str ("Reasoning summary:" +:+ newline +:+ join newline reasoning)))) st).

Definition item_kind (item : value) (field : string) : result string ValidationError :=
  match get item "type" with
  | None => Ok "message"
  | Some (Str kind) => Ok kind
  | Some _ => invalid (field +:+ ".type") "expected a string"
  end.

Definition input_item (index : nat) (item : value) (st : Items) : result Items ValidationError :=
  let field := "input." +:+ show_nat index in
  let? kind := item_kind item field in
  if bool_decide (kind = "additional_tools") then Ok st
  else if bool_decide (kind = "message") then message_item item field st
  else if mem kind ["function_call"; "custom_tool_call"] then call_item kind item field st
  else if bool_decide (kind = "function_call_output") && is_codex_automation_bootstrap item
  then bootstrap_item item field st
  else if mem kind ["function_call_output"; "custom_tool_call_output"] then output_item kind item field st
  else if bool_decide (kind = "reasoning") then reasoning_item item field st
  else Ok st.

Definition input_messages (input : value) (messages : list OpenAiMessage) :
    result (list OpenAiMessage) ValidationError :=
  match input with
  | Str text => Ok (messages ++ [message "user" (Some (Str text))])
  | Array (item :: items) =>
      let? st := fold_each input_item 0 (item :: items) (no_items messages) in
      if bool_decide (it_pending st = ∅) then Ok (it_messages st)
      else invalid "input" "every tool call in input must have a matching tool output"
  | _ => invalid "input" "expected a string or a non-empty array of input items"
  end.
End Content.

(** ** One message for each turn of the assistant *)

Definition is_assistant (m : OpenAiMessage) : bool := bool_decide (om_role m = "assistant").

(** The parts that [previous] keeps, and those that the next message adds. *)
Definition content_parts (content : option value) : list value :=
  match content with
  | Some (Array parts) => parts
  | Some (Str text) => if is_empty text then [] else [text_part text]
  | _ => []
  end.

Definition merge_into (previous m : OpenAiMessage) : OpenAiMessage :=
  let had_content := is_some (om_content previous) || is_some (om_content m) in
  let parts := content_parts (om_content previous) ++ content_parts (om_content m) in
  {| om_role := om_role previous;
     om_content :=
       if is_nil parts then (if had_content then Some (Str "") else None) else Some (Array parts);
     om_tool_calls := om_tool_calls previous ++ om_tool_calls m;
     om_tool_call_id := om_tool_call_id previous; om_reasoning_content := om_reasoning_content previous;
     om_refusal := om_refusal previous; om_name := om_name previous;
     om_cache_control := om_cache_control previous |}.

(** The messages merged so far are kept in reverse. *)
Definition merge_step (merged : list OpenAiMessage) (m : OpenAiMessage) : list OpenAiMessage :=
  match merged with
  | previous :: rest =>
      if is_assistant previous && is_assistant m then merge_into previous m :: rest else m :: merged
  | [] => [m]
  end.

Definition merge_assistant_items (messages : list OpenAiMessage) : list OpenAiMessage :=
  reverse (fold_left merge_step messages []).

(** ** Tools *)

Record DeclaredTool := { dt_value : value; dt_field : string }.

Definition contains_value (l : list value) (v : value) : bool := existsb (fun w => value_eqb w v) l.

Definition numbered {A} (field : string) (l : list A) : list (A * string) :=
  imap (fun index x => (x, field +:+ "." +:+ show_nat index)) l.

Definition declare (e : value * string) : DeclaredTool := {| dt_value := e.1; dt_field := e.2 |}.

(** The tools of an [additional_tools] item that are not declared above. *)
Definition additional_tools (top_level : list value) (index : nat) (item : value) :
    result (list DeclaredTool) ValidationError :=
  if bool_decide (get_str item "type" = Some "additional_tools") then
    let field := "input." +:+ show_nat index +:+ ".tools" in
    match get item "tools" ≫= as_array with
    | None => invalid field "expected an array of tool declarations"
    | Some tools =>
        Ok (declare <$> List.filter (fun e => negb (contains_value top_level e.1)) (numbered field tools))
    end
  else Ok [].

Definition declared_tools (r : ResponsesRequest) : result (list DeclaredTool) ValidationError :=
  let top_level := unwrap_or (rr_tools r) [] in
  let? additional :=
    match rr_input r with
    | Array items => map_each (additional_tools top_level) 0 items
    | _ => Ok []
    end in
  Ok ((declare <$> numbered "tools" top_level) ++ concat additional).

Definition ToolState : Type := list OpenAiTool * gmap string ResponsesToolName.

Definition tool_description (tool : value) (field : string) : result (option string) ValidationError :=
  match not_null (get tool "description") with
  | None => Ok None
  | Some _ => let? text := string_field tool "description" field in Ok (Some text)
  end.

(** A grammar in the shape of a chat request. *)
Definition chat_format (format : value) : value :=
  if bool_decide (get_str format "type" = Some "grammar") then
    json_object
      [("type", Str "grammar");
       ("grammar", json_object [("syntax", unwrap_or (get format "syntax") Null);
                                ("definition", unwrap_or (get format "definition") Null)])]
  else format.

Definition object_entries (v : value) : list (string * value) :=
  match v with Object m => m | _ => [] end.

(** The fields that may be null are left out, and so is the type. *)
Definition plain_definition (tool : value) : list (string * value) :=
  List.filter (fun e => negb (bool_decide (e.1 = "type"))
                        && negb (mem e.1 ["description"; "parameters"; "strict"] && is_null e.2))
    (object_entries tool).

Definition scoped_description (namespace scope description : string) : string :=
  "Namespace " +:+ namespace +:+ ": " +:+ scope +:+ newline +:+ newline +:+ description.

Definition is_false (v : value) : bool := match v with Bool false => true | _ => false end.

Definition add_tool (namespace namespace_description : option string) (field : string) (tool : value)
    (st : ToolState) : result ToolState ValidationError :=
  let '(tools, names) := st in
  let? kind := required_string tool "type" field in
  reject_if (negb (mem kind ["function"; "custom"])) (field +:+ ".type")
    "hosted tools are not supported; use function or custom tools executed by the client" ;?
  let? name := required_string tool "name" field in
  let qualified := match namespace with Some namespace => qualify namespace name | None => name end in
  reject_if (is_some (names !! qualified)) (field +:+ ".name") "duplicate or ambiguous tool name" ;?
  let names := <[qualified := {| tn_name := name; tn_namespace := namespace |}]> names in
  let definition := plain_definition tool in
  reject_if (is_some_and (obj_get definition "defer_loading") (fun v => negb (is_false v)))
    (field +:+ ".defer_loading") "deferred Responses tools are not supported" ;?
  let definition := obj_insert "name" (Str qualified) (obj_remove "defer_loading" definition) in
  let? definition :=
    match opt_filter (fun text => negb (is_empty text)) namespace_description with
    | None => Ok definition
    | Some scope =>
        let? description := tool_description tool field in
        Ok (obj_insert "description"
              (Str (scoped_description (unwrap_or namespace "") scope (unwrap_or description ""))) definition)
    end in
  let definition :=
    match (if bool_decide (kind = "custom") then obj_get definition "format" else None) with
    | Some format => obj_insert "format" (chat_format format) definition
    | None => definition
    end in
  Ok (tools ++ [{| ot_type := kind; ot_body := json_object [(kind, Object definition)] |}], names).

Definition add_declaration (_ : nat) (d : DeclaredTool) (st : ToolState) : result ToolState ValidationError :=
  let tool := dt_value d in
  let field := dt_field d in
  if bool_decide (get_str tool "type" = Some "namespace") then
    let? namespace := required_string tool "name" field in
    let? description := tool_description tool field in
    match get tool "tools" ≫= as_array with
    | None => invalid (field +:+ ".tools") "expected an array of function or custom tools"
    | Some children =>
        fold_each (fun index child =>
          add_tool (Some namespace) description (field +:+ ".tools." +:+ show_nat index) child) 0 children st
    end
  else add_tool None None field tool st.

(** ** The choice of a tool *)

Definition named (kind name : string) : value :=
  json_object [("type", Str kind); (kind, json_object [("name", Str name)])].

Definition allowed_reference (index : nat) (tool : value) : result value ValidationError :=
  let field := "tool_choice.allowed_tools.tools." +:+ show_nat index in
  let? kind := required_string tool "type" field in
  reject_if (negb (mem kind ["function"; "custom"])) (field +:+ ".type") "expected function or custom" ;?
  let? name :=
    if is_some (get tool "name") then qualified_name tool field
    else
      match get tool kind with
      | None => invalid (field +:+ "." +:+ kind +:+ ".name") "tool name is required"
      | Some definition => required_string definition "name" (field +:+ "." +:+ kind)
      end in
  Ok (named kind name).

Definition allowed_choice (choice : value) : result value ValidationError :=
  let allowed := unwrap_or (get choice "allowed_tools") choice in
  let? mode := required_string allowed "mode" "tool_choice.allowed_tools" in
  match get allowed "tools" ≫= as_array with
  | None => invalid "tool_choice.allowed_tools.tools"
              "expected an array of function or custom tool references"
  | Some tools =>
      let? tools := map_each allowed_reference 0 tools in
      Ok (json_object [("type", Str "allowed_tools");
                       ("allowed_tools", json_object [("mode", Str mode); ("tools", Array tools)])])
  end.

Definition chat_choice (choice : value) : result value ValidationError :=
  if is_string choice then Ok choice else
  let? kind := required_string choice "type" "tool_choice" in
  if mem kind ["auto"; "none"; "required"] then Ok (Str kind)
  else if mem kind ["function"; "custom"]
  then let? name := qualified_name choice "tool_choice" in Ok (named kind name)
  else if negb (bool_decide (kind = "allowed_tools"))
  then invalid "tool_choice.type" "expected auto, none, required, function, custom, or allowed_tools"
  else allowed_choice choice.

(** [Option::map(..).transpose()]. *)
Definition map_opt {A B E} (f : A -> result B E) (o : option A) : result (option B) E :=
  match o with
  | Some x => let? y := f x in Ok (Some y)
  | None => Ok None
  end.

(** ** Requests *)

Definition validate_controls (r : ResponsesRequest) : result unit ValidationError :=
  let unsupported := "not supported by this endpoint" in
  reject_if (bool_decide (rr_background r = Some true)) "background" unsupported ;?
  reject_if (is_some (rr_conversation r)) "conversation" unsupported ;?
  reject_if (is_some (rr_context_management r)) "context_management" unsupported ;?
  reject_if (is_some_and (rr_truncation r) (fun v => negb (mem v ["disabled"; "auto"]))) "truncation"
    "expected disabled or auto" ;?
  reject_if (is_some_and (rr_stream_options r) (fun v => negb (is_object v))) "stream_options"
    "expected an object".

Definition verbosity_instruction (verbosity : string) : string :=
  if bool_decide (verbosity = "low") then "Keep the final response concise."
  else if bool_decide (verbosity = "medium") then "Use a moderate level of detail in the final response."
  else if bool_decide (verbosity = "high") then "Provide a detailed final response."
  else "".

Definition system_messages (r : ResponsesRequest) : list OpenAiMessage :=
  match rr_instructions r with
  | Some instructions => [message "system" (Some (Str instructions))]
  | None => []
  end
  ++ match rr_text r ≫= rt_verbosity with
     | Some verbosity =>
         let instruction := verbosity_instruction verbosity in
         if is_empty instruction then [] else [message "system" (Some (Str instruction))]
     | None => []
     end.

Definition chat_thinking (effort : option string) : option ThinkingConfig :=
  if bool_decide (effort = Some "none")
  then Some {| tc_type := "disabled"; tc_budget_tokens := None; tc_display := None |} else None.

Definition chat_request (r : ResponsesRequest) (messages : list OpenAiMessage) (tools : list OpenAiTool)
    (tool_choice : option value) : OpenAiRequest :=
  let effort := rr_reasoning r ≫= rn_effort in
  {| oa_model := rr_model r;
     oa_messages := messages;
     oa_temperature := rr_temperature r;
     oa_top_p := rr_top_p r;
     oa_max_tokens := rr_max_output_tokens r;
     oa_max_completion_tokens := None;
     oa_stream := rr_stream r;
     oa_stop := None;
     oa_n := None;
     oa_legacy_functions := false;
     oa_stream_options :=
       if rr_stream r then Some (json_object [("include_usage", Bool true)]) else None;
     oa_tools := tools;
     oa_tool_choice := tool_choice;
     oa_parallel_tool_calls := unwrap_or (rr_parallel_tool_calls r) true;
     oa_thinking := chat_thinking effort;
     oa_reasoning_effort := opt_filter (fun effort => negb (bool_decide (effort = "none"))) effort;
     oa_conversation_id := rr_prompt_cache_key r;
     oa_metadata := rr_metadata r;
     oa_response_format := rr_text r ≫= rt_format |}.

Section Translation.
Context (b64_decode : string -> option bytes) (parse_url : string -> option Url)
        (parse_json : string -> option value).

Definition responses_to_openai (r : ResponsesRequest) : result ResponsesTranslation ValidationError :=
  validate_controls r ;?
  let? declared := declared_tools r in
  let? messages := input_messages b64_decode (rr_input r) (system_messages r) in
  let? (tools, names) := fold_each add_declaration 0 declared ([], ∅) in
  let? tool_choice := map_opt chat_choice (not_null (rr_tool_choice r)) in
  let normalized := chat_request r (merge_assistant_items messages) tools tool_choice in
  validate_openai b64_decode parse_url parse_json normalized ;?
  Ok {| rx_request := normalized; rx_tool_names := names; rx_tools := dt_value <$> declared |}.
End Translation.

(** ** Legacy functions *)

Section Legacy.
Context (b64_decode : string -> option bytes).
(** The id of a legacy call, the digest of its place and its text. *)
Context (legacy_id : nat -> value -> string).
(** [serde_json::from_value]. *)
Context (parse_request : value -> result OpenAiRequest string).

Definition set_key (k : string) (v : value) (o : value) : value :=
  match o with Object m => Object (obj_insert k v m) | _ => o end.

Definition remove_null (k : string) (m : list (string * value)) : list (string * value) :=
  if is_some_and (obj_get m k) is_null then obj_remove k m else m.

Definition present (m : list (string * value)) (k : string) : option value := not_null (obj_get m k).

Definition is_legacy (m : list (string * value)) : bool :=
  existsb (fun key => is_some (present m key)) ["functions"; "function_call"]
  && negb (is_some_and (obj_get m "tools" ≫= as_array) (fun tools => negb (is_nil tools))).

Definition function_tool (f : value) : value := json_object [("type", Str "function"); ("function", f)].

Definition move_functions (m : list (string * value)) : result (list (string * value)) ValidationError :=
  match present m "functions" with
  | None => Ok (obj_remove "functions" m)
  | Some functions =>
      let m := obj_remove "functions" m in
      match functions with
      | Array functions =>
          match unwrap_or (obj_get m "tools") (Array []) with
          | Array tools => Ok (obj_insert "tools" (Array (tools ++ (function_tool <$> functions))) m)
          | _ => invalid "tools" "expected an array"
          end
      | _ => invalid "functions" "expected an array"
      end
  end.

Definition legacy_choice (choice : value) : result value ValidationError :=
  match choice with
  | Str _ => Ok choice
  | Object m =>
      match obj_get m "name" with
      | Some (Str name) =>
          Ok (json_object [("type", Str "function"); ("function", json_object [("name", Str name)])])
      | _ => invalid "function_call" "expected a mode or a named function"
      end
  | _ => invalid "function_call" "expected a mode or a named function"
  end.

Definition move_choice (m : list (string * value)) : result (list (string * value)) ValidationError :=
  let choice := present m "function_call" in
  let m := obj_remove "function_call" m in
  match choice with
  | Some choice =>
      if is_some (obj_get m "tool_choice") then Ok m
      else let? choice := legacy_choice choice in Ok (obj_insert "tool_choice" choice m)
  | None => Ok m
  end.

(** The calls without a result, oldest first: name and id. *)
Definition Pending : Type := list (string * string).

Definition move_call (index : nat) (field : string) (m : list (string * value)) (pending : Pending) :
    result (list (string * value) * Pending) ValidationError :=
  let m := remove_null "tool_calls" m in
  let call := present m "function_call" in
  let m := obj_remove "function_call" m in
  match call with
  | None => Ok (m, pending)
  | Some call =>
      match opt_filter (fun name => negb (is_empty name)) (get_str call "name") with
      | None => invalid (field +:+ ".function_call.name") "is required"
      | Some name =>
          let id := legacy_id index call in
          match unwrap_or (obj_get m "tool_calls") (Array []) with
          | Array calls =>
              let call := json_object [("type", Str "function"); ("id", Str id); ("function", call)] in
              Ok (obj_insert "tool_calls" (Array (calls ++ [call])) m, pending ++ [(name, id)])
          | _ => invalid (field +:+ ".tool_calls") "expected an array"
          end
      end
  end.

(** The id of the first call of a function, and the calls without it. *)
Fixpoint take_pending (name : string) (pending : Pending) : option (string * Pending) :=
  match pending with
  | [] => None
  | (function, id) :: rest =>
      if bool_decide (function = name) then Some (id, rest)
      else (fun '(found, rest) => (found, (function, id) :: rest)) <$> take_pending name rest
  end.

Definition move_result (field : string) (m : list (string * value)) (pending : Pending) :
    result (list (string * value) * Pending) ValidationError :=
  match take_pending (unwrap_or (obj_get m "name" ≫= as_str) "") pending with
  | None => invalid (field +:+ ".name") "function result has no matching function_call"
  | Some (id, pending) => Ok (obj_insert "tool_call_id" (Str id) (obj_insert "role" (Str "tool") m), pending)
  end.

Definition file_part (field : string) (index : nat) (part : value) : result value ValidationError :=
  if bool_decide (get_str part "type" = Some "file")
  then openai_file_document b64_decode part (field +:+ ".content." +:+ show_nat index) else Ok part.

Definition move_files (field : string) (message : value) : result value ValidationError :=
  match get message "content" with
  | Some (Array parts) =>
      let? parts := map_each (file_part field) 0 parts in Ok (set_key "content" (Array parts) message)
  | _ => Ok message
  end.

Definition legacy_message (index : nat) (message : value) (pending : Pending) :
    result (value * Pending) ValidationError :=
  let field := "messages." +:+ show_nat index in
  let? (message, pending) :=
    match message with
    | Object m =>
        if bool_decide (get_str message "role" = Some "assistant") then
          let? (m, pending) := move_call index field m pending in Ok (Object m, pending)
        else if bool_decide (get_str message "role" = Some "function") then
          let? (m, pending) := move_result field m pending in Ok (Object m, pending)
        else Ok (message, pending)
    | _ => Ok (message, pending)
    end in
  let? message := move_files field message in
  Ok (message, pending).

Fixpoint legacy_messages (index : nat) (l : list value) (pending : Pending) :
    result (list value) ValidationError :=
  match l with
  | [] => Ok []
  | message :: l =>
      let? (message, pending) := legacy_message index message pending in
      let? l := legacy_messages (S index) l pending in
      Ok (message :: l)
  end.

Definition set_legacy (r : OpenAiRequest) : OpenAiRequest :=
  {| oa_model := oa_model r; oa_messages := oa_messages r; oa_temperature := oa_temperature r;
     oa_top_p := oa_top_p r; oa_max_tokens := oa_max_tokens r;
     oa_max_completion_tokens := oa_max_completion_tokens r; oa_stream := oa_stream r;
     oa_stop := oa_stop r; oa_n := oa_n r; oa_legacy_functions := true;
     oa_stream_options := oa_stream_options r; oa_tools := oa_tools r;
     oa_tool_choice := oa_tool_choice r; oa_parallel_tool_calls := false;
     oa_thinking := oa_thinking r; oa_reasoning_effort := oa_reasoning_effort r;
     oa_conversation_id := oa_conversation_id r; oa_metadata := oa_metadata r;
     oa_response_format := oa_response_format r |}.

Definition unset_legacy (r : OpenAiRequest) : OpenAiRequest :=
  {| oa_model := oa_model r; oa_messages := oa_messages r; oa_temperature := oa_temperature r;
     oa_top_p := oa_top_p r; oa_max_tokens := oa_max_tokens r;
     oa_max_completion_tokens := oa_max_completion_tokens r; oa_stream := oa_stream r;
     oa_stop := oa_stop r; oa_n := oa_n r; oa_legacy_functions := false;
     oa_stream_options := oa_stream_options r; oa_tools := oa_tools r;
     oa_tool_choice := oa_tool_choice r; oa_parallel_tool_calls := oa_parallel_tool_calls r;
     oa_thinking := oa_thinking r; oa_reasoning_effort := oa_reasoning_effort r;
     oa_conversation_id := oa_conversation_id r; oa_metadata := oa_metadata r;
     oa_response_format := oa_response_format r |}.

Definition parse_openai_request (v : value) : result OpenAiRequest ValidationError :=
  match v with
  | Object m =>
      let legacy := is_legacy m in
      let m := remove_null "tool_choice" (remove_null "tools" m) in
      let? m := move_functions m in
      let? m := move_choice m in
      let? m :=
        match obj_get m "messages" with
        | Some (Array messages) =>
            let? messages := legacy_messages 0 messages [] in Ok (obj_insert "messages" (Array messages) m)
        | _ => Ok m
        end in
      match parse_request (Object m) with
      | Err error => invalid "request" error
      | Ok r => Ok (if legacy then set_legacy r else unset_legacy r)
      end
  | _ => invalid "request" "expected an object"
  end.
End Legacy.
