(* ===== verification/ResponsesFacts.v ===== *)
(** * A Responses request says the same as its chat request

    The calls of the input, their outputs and its text survive the translation, each
    once and in order, and the names of the tools can be told apart again. *)

From Stdlib Require Import ZArith Lia Ascii String List.
From stdpp Require Import base list gmap sets tactics strings.
From S2P Require Import Prelude RustStr F64 Json Text Protocol Model ToolHistory Context Content.
From S2P Require Import EventStream Schema Attachments Validate ValidateOpenAi OpenAi Responses.

Local Open Scope kproxy_scope.
Local Open Scope string_scope.
Local Open Scope list_scope.

(** ** What an item says *)

Definition CALL_KINDS : list string := ["function_call"; "custom_tool_call"].
Definition OUTPUT_KINDS : list string := ["function_call_output"; "custom_tool_call_output"].

(** The call of an item: its id, and the call of a chat request. *)
Definition item_call (item : value) : option (string * value) :=
  kind ← get_str item "type";
  if mem kind CALL_KINDS then
    id ← get_str item "call_id";
    input ← get_str item (call_shape kind).2;
    match qualified_name item "" with
    | Ok name => Some (id, chat_call id kind name input)
    | Err _ => None
    end
  else None.

(** The call that an item answers. *)
Definition item_answer (item : value) : option string :=
  kind ← get_str item "type";
  if mem kind OUTPUT_KINDS
     && negb (bool_decide (kind = "function_call_output") && is_codex_automation_bootstrap item)
  then get_str item "call_id" else None.

Definition call_ids (items : list value) : list string := (omap item_call items).*1.

(** The calls of messages, and the calls that messages of tools answer. *)
Definition calls_of (messages : list OpenAiMessage) : list value := messages ≫= om_tool_calls.

Definition answers_of (messages : list OpenAiMessage) : list string :=
  omap om_tool_call_id messages.

Definition parts_of (messages : list OpenAiMessage) : list value :=
  messages ≫= fun m => content_parts (om_content m).

(** A message of the assistant answers no call. *)
Definition unanswering (m : OpenAiMessage) : Prop := is_assistant m = true -> om_tool_call_id m = None.

(** What is said: by whom, to which call, and the text. *)
Definition Said : Type := string * option string * string.

Definition part_text (part : value) : list string :=
  match get_str part "type" with
  | Some kind =>
      if mem kind ["input_text"; "output_text"; "text"] then option_list (get_str part "text")
      else if bool_decide (kind = "refusal") then option_list (get_str part "refusal")
      else []
  | None => []
  end.

Definition raw_texts (v : option value) : list string :=
  match v with
  | Some (Str text) => [text]
  | Some (Array parts) => parts ≫= part_text
  | _ => []
  end.

Definition texts (v : option value) : list string := List.filter (fun t => negb (is_empty t)) (raw_texts v).

Definition says (role : string) (id : option string) (v : option value) : list Said :=
  (fun t => (role, id, t)) <$> texts v.

(** The texts of the messages of a chat request, empty ones left out. *)
Definition said_by (m : OpenAiMessage) : list Said := says (om_role m) (om_tool_call_id m) (om_content m).

Definition said (messages : list OpenAiMessage) : list Said := messages ≫= said_by.

Definition reasoning_texts (item : value) (key : string) : list string :=
  match get item key with Some (Array parts) => parts ≫= (fun p => option_list (get_str p "text")) | _ => [] end.

Definition kind_of_item (item : value) : string :=
  match get item "type" with Some (Str kind) => kind | Some _ => "" | None => "message" end.

(** The texts of an item: of a message, of the output of a call, or of reasoning. *)
Definition item_says (item : value) : list Said :=
  let kind := kind_of_item item in
  if bool_decide (kind = "message") then says (unwrap_or (get_str item "role") "") None (get item "content")
  else if mem kind OUTPUT_KINDS then
    if bool_decide (kind = "function_call_output") && is_codex_automation_bootstrap item
    then says "developer" None (get item "output")
    else says "tool" (get_str item "call_id") (get item "output")
  else if bool_decide (kind = "reasoning") then
    let reasoning := reasoning_texts item "summary" ++ reasoning_texts item "content" in
    if is_nil reasoning then []
    else [("assistant", None, "Reasoning summary:" +:+ newline +:+ join newline reasoning)]
  else [].

(** ** Reading strings *)

Lemma string_field_ok v key field s : string_field v key field = Ok s <-> get_str v key = Some s.
Proof. unfold string_field. destruct (get_str v key); naive_solver. Qed.

Lemma required_string_ok v key field s :
  required_string v key field = Ok s <-> get_str v key = Some s /\ is_empty (trim s) = false.
Proof.
  unfold required_string. destruct (string_field v key field) as [s'|] eqn:E; cbn [result_bind].
  - apply string_field_ok in E. rewrite E. destruct (is_empty (trim s')) eqn:Et; naive_solver congruence.
  - split; [done|]. intros [H _]. by apply (string_field_ok v key field) in H; rewrite H in E.
Qed.

Lemma qualified_name_field item f g name : qualified_name item f = Ok name -> qualified_name item g = Ok name.
Proof.
  unfold qualified_name. intros (n & Hn & H)%result_bind_ok.
  apply required_string_ok in Hn. apply (required_string_ok _ _ g) in Hn. rewrite Hn. cbn [result_bind].
  destruct (not_null _) as [v|]; [|done]. by destruct (opt_filter _ _).
Qed.

(** ** Items *)

Lemma map_each_bind {A B C E} (f : nat -> A -> result B E) (g : A -> list C) (h : B -> list C) l :
  (forall i x y, f i x = Ok y -> h y = g x) ->
  forall i ys, map_each f i l = Ok ys -> ys ≫= h = l ≫= g.
Proof.
  intros Hf. induction l as [|x l IH]; intros i ys; cbn [map_each]; [by intros [= <-]|].
  intros (y & Hy & (ys' & Hys & [= <-])%result_bind_ok)%result_bind_ok.
  rewrite !bind_cons. by rewrite (Hf _ _ _ Hy), (IH _ _ Hys).
Qed.

Section Items.
Context (b64_decode : string -> option bytes).

(** The type of an object that is written first, and only once. *)
Lemma type_first kind l :
  Forall (fun e : string * value => e.1 <> "type") l ->
  get_str (json_object (("type", Str kind) :: l)) "type" = Some kind.
Proof.
  intros Hl. unfold get_str, json_object. cbn [get]. cbn [fold_left].
  assert (H : forall m, obj_get m "type" = Some (Str kind) ->
    obj_get (fold_left (fun m '(k, v) => obj_insert k v m) l m) "type" = Some (Str kind)).
  { induction Hl as [|[k v] l Hk _ IH]; intros m Hm; [done|]. cbn [fold_left]. apply IH.
    by rewrite obj_get_insert_ne. }
  by rewrite H.
Qed.

Lemma content_part_text images field part p :
  content_part b64_decode images field part = Ok p -> part_text p = part_text part.
Proof.
  unfold content_part, part_text at 2. destruct (get_str part "type") as [kind|]; [|done].
  destruct (mem kind ["input_text"; "output_text"]) eqn:E1.
  { intros (text & Ht%string_field_ok & [= <-])%result_bind_ok.
    assert (mem kind ["input_text"; "output_text"; "text"] = true) as ->.
    { unfold mem in *. rewrite bool_decide_eq_true in *. set_solver. }
    by rewrite Ht. }
  case_bool_decide as E2.
  { subst kind. intros (text & Ht%string_field_ok & [= <-])%result_bind_ok. cbn. by rewrite Ht. }
  destruct (bool_decide (kind = "input_file") && images) eqn:E3.
  { apply andb_true_iff in E3 as [->%bool_decide_eq_true _]. unfold openai_file_document.
    intros [_ H]%then_ok. apply result_bind_ok in H as (title & Ht & H).
    apply result_bind_ok in H as (source & _ & [= <-]). unfold part_text, file_document.
    rewrite type_first; [done|]. apply list.Forall_app. split.
    - destruct (not_null _) as [[]|]; simplify_eq; by repeat constructor.
    - constructor; [done|]. destruct (get part "cache_control"); by repeat constructor. }
  destruct (bool_decide (kind = "input_image") && images) eqn:E4; [|done].
  apply andb_true_iff in E4 as [->%bool_decide_eq_true _]. unfold input_image.
  intros (url & _ & [_ H]%then_ok)%result_bind_ok. by apply result_bind_ok in H as (detail & _ & [= <-]).
Qed.

(** Translated content has the texts that it had. *)
Lemma content_texts v field images c : content b64_decode v field images = Ok c -> texts (Some c) = texts v.
Proof.
  unfold content, texts. destruct v as [[| | |text|parts|]|]; try done; [by intros [= <-]|].
  intros (ps & Hps & [= <-])%result_bind_ok. f_equal. cbn [raw_texts].
  eapply map_each_bind; [|exact Hps]. intros i x y. apply content_part_text.
Qed.

Notation input_item := (input_item b64_decode).

(** What one item adds. *)
Record Step (item : value) (st st' : Items) : Prop := {
  sp_messages : exists l, it_messages st' = it_messages st ++ l
                  /\ calls_of l = option_list (snd <$> item_call item)
                  /\ answers_of l = option_list (item_answer item) /\ Forall unanswering l
                  /\ said l = item_says item;
  sp_call : match item_call item with
            | Some (id, _) =>
                id ∉ it_calls st /\ it_calls st' = {[id]} ∪ it_calls st
                /\ (exists kind, it_pending st' = <[id := kind]> (it_pending st)) /\ item_answer item = None
            | None => it_calls st' = it_calls st
            end;
  sp_answer : match item_answer item with
              | Some id => is_Some (it_pending st !! id) /\ it_pending st' = delete id (it_pending st)
              | None => item_call item = None -> it_pending st' = it_pending st
              end;
}.

Lemma step_same item st l :
  item_call item = None -> item_answer item = None -> calls_of l = [] -> answers_of l = [] ->
  Forall unanswering l -> said l = item_says item ->
  Step item st {| it_messages := it_messages st ++ l; it_calls := it_calls st; it_pending := it_pending st |}.
Proof. intros Hc Ha H1 H2 H3 H4. split; [|by rewrite Hc|by rewrite Ha]. exists l. by rewrite Hc, Ha. Qed.

Lemma mem_elem s l : mem s l = true <-> s ∈ l.
Proof. apply bool_decide_eq_true. Qed.

(** The kind of an item is what its type says. *)
Definition of_kind (item : value) (kind : string) : Prop :=
  get_str item "type" = Some kind \/ (get_str item "type" = None /\ kind = "message").

Lemma item_kind_ok item field kind : item_kind item field = Ok kind -> of_kind item kind.
Proof.
  unfold item_kind, of_kind, get_str. destruct (get item "type") as [[]|]; try done; cbn.
  - intros [= ->]. by left.
  - intros [= <-]. by right.
Qed.

Lemma item_kind_of item field kind : item_kind item field = Ok kind -> kind_of_item item = kind.
Proof. unfold item_kind, kind_of_item. destruct (get item "type") as [[]|]; try done; by intros [= <-]. Qed.

Lemma str_kind_of item kind : get_str item "type" = Some kind -> kind_of_item item = kind.
Proof. unfold get_str, kind_of_item. destruct (get item "type") as [[]|]; try done; by intros [= <-]. Qed.

(** Calls say nothing, and nor do items of unknown kinds. *)
Lemma item_silent item :
  kind_of_item item <> "message" -> mem (kind_of_item item) OUTPUT_KINDS = false ->
  kind_of_item item <> "reasoning" -> item_says item = [].
Proof. intros H1 H2 H3. unfold item_says. cbn zeta. by rewrite (bool_decide_eq_false_2 _ H1), H2, (bool_decide_eq_false_2 _ H3). Qed.

Lemma reasoning_parts_texts item field key l :
  reasoning_parts item field key = Ok l -> l = reasoning_texts item key.
Proof.
  unfold reasoning_parts, reasoning_texts, not_null. destruct (get item key) as [[| | | |parts|]|]; try done; try (by intros [= <-]).
  intros H. transitivity (l ≫= fun y => [y]); [clear; induction l as [|y l IH]; [done|by rewrite bind_cons, <- IH]|].
  eapply map_each_bind; [|exact H]. intros i x y. unfold reasoning_part.
  destruct (is_some_and _ _); [|done]. intros Hy%string_field_ok. by rewrite Hy.
Qed.

Lemma not_call item kind : of_kind item kind -> mem kind CALL_KINDS = false -> item_call item = None.
Proof. unfold item_call. intros [->|[-> _]] H; [|done]. cbn [mbind option_bind]. by rewrite H. Qed.

Lemma not_answer item kind :
  of_kind item kind ->
  mem kind OUTPUT_KINDS
  && negb (bool_decide (kind = "function_call_output") && is_codex_automation_bootstrap item) = false ->
  item_answer item = None.
Proof. unfold item_answer. intros [->|[-> _]] H; [|done]. cbn [mbind option_bind]. by rewrite H. Qed.

Lemma items_eta st : st = {| it_messages := it_messages st ++ []; it_calls := it_calls st; it_pending := it_pending st |}.
Proof. rewrite app_nil_r. by destruct st. Qed.

Lemma call_item_step kind item field st st' :
  get_str item "type" = Some kind -> mem kind CALL_KINDS = true ->
  call_item kind item field st = Ok st' -> Step item st st'.
Proof.
  intros Ht Hk. assert (Hsay : item_says item = []).
  { apply mem_elem in Hk. unfold CALL_KINDS in Hk. rewrite elem_of_cons, list_elem_of_singleton in Hk.
    apply str_kind_of in Ht. apply item_silent; rewrite Ht; destruct Hk as [-> | ->]; first [done|vm_compute; done]. }
  unfold call_item. intros (id & [Hid _]%required_string_ok & H)%result_bind_ok.
  case_bool_decide as Hnew; [done|]. apply result_bind_ok in H as (name & Hn & H).
  apply result_bind_ok in H as (input & Hi%string_field_ok & [= <-]).
  assert (Hc : item_call item = Some (id, chat_call id kind name input)).
  { unfold item_call. rewrite Ht. cbn [mbind option_bind]. rewrite Hk, Hid. cbn [mbind option_bind].
    rewrite Hi. cbn [mbind option_bind]. by rewrite (qualified_name_field _ _ "" _ Hn). }
  assert (Ha : item_answer item = None).
  { eapply not_answer; [by left|]. apply mem_elem in Hk. unfold CALL_KINDS in Hk.
    rewrite elem_of_cons, list_elem_of_singleton in Hk. by destruct Hk as [-> | ->]. }
  split; rewrite ?Hc, ?Ha.
  - eexists. split; [done|]. split; [done|]. split; [done|]. split; [by apply list.Forall_singleton|by rewrite Hsay].
  - split; [done|]. split; [done|]. split; [|done]. by exists kind.
  - done.
Qed.

Lemma output_item_step kind item field st st' :
  get_str item "type" = Some kind -> mem kind OUTPUT_KINDS = true ->
  bool_decide (kind = "function_call_output") && is_codex_automation_bootstrap item = false ->
  output_item b64_decode kind item field st = Ok st' -> Step item st st'.
Proof.
  intros Ht Hk Hb. unfold output_item. intros (id & [Hid _]%required_string_ok & H)%result_bind_ok.
  case_bool_decide as Hp; [|done]. cbn [negb] in H.
  apply result_bind_ok in H as (output & Hout & [= <-]).
  assert (Hsay : said [result_message id output] = item_says item).
  { unfold item_says. rewrite (str_kind_of _ _ Ht), Hk, Hb. cbn zeta.
    rewrite bool_decide_eq_false_2 by (intros ->; by vm_compute in Hk).
    unfold said, said_by. rewrite bind_singleton. cbn [result_message om_role om_tool_call_id om_content].
    unfold says. by rewrite (content_texts _ _ _ _ Hout), Hid. }
  assert (Hc : item_call item = None).
  { eapply not_call; [by left|]. apply mem_elem in Hk. unfold OUTPUT_KINDS in Hk.
    rewrite elem_of_cons, list_elem_of_singleton in Hk. by destruct Hk as [-> | ->]. }
  assert (Ha : item_answer item = Some id).
  { unfold item_answer. rewrite Ht. cbn [mbind option_bind]. by rewrite Hk, Hb. }
  split; rewrite ?Hc, ?Ha.
  - eexists. split; [done|]. split; [done|]. split; [done|]. split; [by apply list.Forall_singleton|done].
  - done.
  - split; [by eexists|done].
Qed.

Lemma input_item_step index item st st' : input_item index item st = Ok st' -> Step item st st'.
Proof.
  unfold Responses.input_item. intros (kind & Hk & H)%result_bind_ok.
  pose proof (item_kind_of _ _ _ Hk) as Hkind. apply item_kind_ok in Hk.
  assert (Hquiet : forall l, mem kind CALL_KINDS = false -> item_answer item = None ->
    calls_of l = [] -> answers_of l = [] -> Forall unanswering l -> said l = item_says item ->
    st' = {| it_messages := it_messages st ++ l; it_calls := it_calls st; it_pending := it_pending st |} ->
    Step item st st') by (intros l Hc Ha H1 H2 H3 H4 ->; apply step_same; eauto using not_call).
  assert (Hsilent : kind <> "message" -> mem kind OUTPUT_KINDS = false -> kind <> "reasoning" -> item_says item = [])
    by (rewrite <- Hkind; apply item_silent).
  case_bool_decide as E1.
  { subst kind. rewrite E1 in *. injection H as <-.
    apply (Hquiet []); first [done | exact (items_eta st) | constructor | by eapply not_answer | by rewrite Hsilent]. }
  case_bool_decide as E2.
  { subst kind. rewrite E2 in *. unfold message_item in H. apply result_bind_ok in H as (role & [Hrole _]%required_string_ok & H).
    destruct (negb _); [done|]. apply result_bind_ok in H as (content & Hc & [= <-]).
    apply (Hquiet [message role (Some content)]); try done;
      [by eapply not_answer|by apply list.Forall_singleton|].
    unfold item_says. rewrite E2. cbn zeta. rewrite bool_decide_eq_true_2 by done. rewrite Hrole.
    unfold said, said_by. rewrite bind_singleton. cbn [message om_role om_tool_call_id om_content unwrap_or].
    unfold says. by rewrite (content_texts _ _ _ _ Hc). }
  destruct (mem kind _) eqn:E3.
  { apply call_item_step with (3 := H); [|done]. destruct Hk as [?|[_ ->]]; [done|]. by vm_compute in E3. }
  destruct (bool_decide (kind = "function_call_output") && _) eqn:E4.
  { unfold bootstrap_item in H. apply result_bind_ok in H as (output & Hout & [= <-]).
    apply (Hquiet [message "developer" (Some output)]); try done; [|by apply list.Forall_singleton|].
    - eapply not_answer; [done|]. rewrite E4. apply andb_false_r.
    - unfold item_says. rewrite Hkind, E4. cbn zeta. rewrite bool_decide_eq_false_2 by done.
      assert (mem kind OUTPUT_KINDS = true) as ->.
      { apply andb_true_iff in E4 as [->%bool_decide_eq_true _]. done. }
      unfold said, said_by. rewrite bind_singleton. cbn [message om_role om_tool_call_id om_content].
      unfold says. by rewrite (content_texts _ _ _ _ Hout). }
  destruct (mem kind ["function_call_output"; _]) eqn:E5.
  { apply output_item_step with (4 := H); [|done|done]. destruct Hk as [?|[_ ->]]; [done|]. by vm_compute in E5. }
  assert (Ha : item_answer item = None) by (eapply not_answer; [done|]; unfold OUTPUT_KINDS; by rewrite E5).
  case_bool_decide as E6.
  - unfold reasoning_item in H. apply result_bind_ok in H as (summary & Hs%reasoning_parts_texts & H).
    apply result_bind_ok in H as (content & Hc%reasoning_parts_texts & [= <-]).
    assert (Hsay : item_says item = if is_nil (summary ++ content) then []
      else [("assistant", None, "Reasoning summary:" +:+ newline +:+ join newline (summary ++ content))]).
    { unfold item_says. rewrite Hkind, Hs, Hc. cbn zeta. unfold OUTPUT_KINDS. by rewrite (bool_decide_eq_false_2 _ E2), E5, bool_decide_eq_true_2. }
    destruct (is_nil (summary ++ content));
      [apply (Hquiet []); first [done | exact (items_eta st) | constructor]|].
    eapply (Hquiet [message "assistant" _]); try done; first [by apply list.Forall_singleton|by rewrite Hsay].
  - injection H as <-. apply (Hquiet []); first [done | exact (items_eta st) | constructor | by rewrite Hsilent].
Qed.

(** ** All items *)

Lemma calls_of_app a b : calls_of (a ++ b) = calls_of a ++ calls_of b.
Proof. apply bind_app. Qed.

Lemma answers_of_app a b : answers_of (a ++ b) = answers_of a ++ answers_of b.
Proof. apply omap_app. Qed.

(** What the items [seen] have left behind, with [ms] in front of them. *)
Record Read (ms : list OpenAiMessage) (seen : list value) (st : Items) : Prop := {
  rd_calls : calls_of (it_messages st) = calls_of ms ++ (omap item_call seen).*2;
  rd_answers : answers_of (it_messages st) = answers_of ms ++ omap item_answer seen;
  rd_said : said (it_messages st) = said ms ++ (seen ≫= item_says);
  rd_ids : it_calls st = list_to_set (call_ids seen);
  rd_distinct : NoDup (call_ids seen);
  rd_open : omap item_answer seen ++ (map_to_list (it_pending st)).*1 ≡ₚ call_ids seen;
  rd_plain : Forall unanswering ms -> Forall unanswering (it_messages st);
  rd_before : forall a item b, seen = a ++ item :: b -> forall id, item_answer item = Some id -> id ∈ call_ids a;
}.

Lemma omap_single {A B} (f : A -> option B) x : omap f [x] = option_list (f x).
Proof. cbn. by destruct (f x). Qed.

Lemma split_snoc {A} (seen a b : list A) x y :
  seen ++ [x] = a ++ y :: b -> (b = [] /\ a = seen /\ y = x) \/ exists b', b = b' ++ [x] /\ seen = a ++ y :: b'.
Proof.
  destruct b as [|z b] using rev_ind.
  - intros H. apply app_inj_tail in H as [-> ->]. by left.
  - clear IHb. rewrite app_comm_cons, app_assoc. intros H. apply app_inj_tail in H as [-> ->]. right. by exists b.
Qed.

Lemma read_step ms seen item st st' : Read ms seen st -> Step item st st' -> Read ms (seen ++ [item]) st'.
Proof.
  intros [H1 H2 Hsd H3 H4 H5 Hp H6] [(l & Hm & Hc & Ha & Hl & Hsaid) Hcall Hans]. unfold call_ids in *.
  assert (Hsub : forall id, is_Some (it_pending st !! id) -> id ∈ (omap item_call seen).*1).
  { intros id [kind Hk]. rewrite <- H5. apply elem_of_app. right.
    apply list_elem_of_fmap. exists (id, kind). split; [done|]. by apply elem_of_map_to_list. }
  split; unfold call_ids.
  - rewrite Hm, calls_of_app, H1, Hc, omap_app, fmap_app, omap_single, app_assoc. by destruct (item_call item).
  - by rewrite Hm, answers_of_app, H2, Ha, omap_app, omap_single, app_assoc.
  - rewrite Hm, bind_app. unfold said in *. by rewrite bind_app, Hsd, Hsaid, bind_singleton, app_assoc.
  - rewrite omap_app, fmap_app, omap_single, list_to_set_app_L, <- H3.
    destruct (item_call item) as [[id call]|]; cbn.
    + destruct Hcall as (_ & -> & _). set_solver.
    + rewrite Hcall. set_solver.
  - rewrite omap_app, fmap_app, omap_single. destruct (item_call item) as [[id call]|]; cbn; [|by rewrite app_nil_r].
    destruct Hcall as (Hid & _). rewrite H3, elem_of_list_to_set in Hid.
    apply NoDup_app. split; [done|]. split; [|apply NoDup_singleton].
    intros x Hx Hx'. apply list_elem_of_singleton in Hx' as ->. done.
  - rewrite !omap_app, fmap_app, !omap_single.
    destruct (item_call item) as [[id call]|]; cbn.
    + destruct Hcall as (Hid & _ & (kind & ->) & ->). cbn. rewrite app_nil_r.
      rewrite H3, elem_of_list_to_set in Hid.
      rewrite map_to_list_insert by (apply eq_None_not_Some; by intros ?%Hsub).
      cbn. rewrite <- Permutation_middle, H5. apply Permutation_cons_append.
    + rewrite app_nil_r. destruct (item_answer item) as [id|]; cbn.
      * destruct Hans as ([kind Hk] & ->). rewrite <- H5, <- app_assoc. f_equiv. cbn.
        by rewrite <- (map_to_list_delete _ _ _ Hk).
      * by rewrite Hans, app_nil_r.
  - intros Hms. rewrite Hm. apply list.Forall_app. auto.
  - intros a x b Hs id Hx. apply split_snoc in Hs as [(-> & -> & ->)|(b' & -> & Hs)].
    + rewrite Hx in Hans. by apply Hsub, Hans.
    + by eapply H6.
Qed.

Lemma fold_read ms items : forall index seen st st',
  Read ms seen st -> fold_each input_item index items st = Ok st' -> Read ms (seen ++ items) st'.
Proof.
  induction items as [|item items IH]; intros index seen st st' Hr.
  { cbn. intros [= <-]. by rewrite app_nil_r. }
  intros (st1 & H1 & H2)%fold_each_cons. rewrite cons_middle, app_assoc.
  eapply IH; [|exact H2]. eapply read_step; [done|]. by eapply input_item_step.
Qed.
End Items.

(** ** Merging *)

Lemma parts_of_app a b : parts_of (a ++ b) = parts_of a ++ parts_of b.
Proof. apply bind_app. Qed.

Lemma said_app a b : said (a ++ b) = said a ++ said b.
Proof. apply bind_app. Qed.

Lemma texts_parts v : texts v = List.filter (fun t => negb (is_empty t)) (content_parts v ≫= part_text).
Proof.
  unfold texts. destruct v as [[| | |text|parts|]|]; try done. cbn [raw_texts content_parts].
  destruct (is_empty text) eqn:E; [cbn; by rewrite E|]. by rewrite bind_singleton.
Qed.

Lemma merge_into_parts previous m :
  content_parts (om_content (merge_into previous m))
  = content_parts (om_content previous) ++ content_parts (om_content m).
Proof. unfold merge_into. cbn [om_content]. destruct (_ ++ _); [|done]. cbn. by destruct (_ || _). Qed.

Lemma merge_into_said p m :
  is_assistant p = true -> is_assistant m = true -> unanswering p -> unanswering m ->
  said_by (merge_into p m) = said_by p ++ said_by m.
Proof.
  intros Ep Em Hp Hm. unfold said_by, says. rewrite !texts_parts, merge_into_parts.
  assert (om_role m = om_role p) as ->.
  { unfold is_assistant in Ep, Em. apply bool_decide_eq_true in Ep, Em. congruence. }
  rewrite (Hm Em), <- (Hp Ep), bind_app, List.filter_app, fmap_app. done.
Qed.

(** Two messages of the assistant in a row. *)
Definition doubled (l : list OpenAiMessage) : Prop :=
  exists a m n b, l = a ++ m :: n :: b /\ is_assistant m = true /\ is_assistant n = true.

Lemma doubled_cons x l :
  doubled (x :: l) ->
  (exists n b, l = n :: b /\ is_assistant x = true /\ is_assistant n = true) \/ doubled l.
Proof.
  intros ([|y a] & m & n & b & H & Hm & Hn); injection H as -> ->; [left; eauto|].
  right. by exists a, m, n, b.
Qed.

Lemma doubled_reverse l : doubled (reverse l) -> doubled l.
Proof.
  intros (a & m & n & b & H & Hm & Hn). exists (reverse b), n, m, (reverse a).
  split; [|done]. rewrite <- (reverse_involutive l), H.
  by rewrite reverse_app, !reverse_cons, <- !app_assoc.
Qed.

(** The messages merged so far, and those still to come. *)
Lemma merge_fold l : forall merged,
  let out := reverse (fold_left merge_step l merged) in
  calls_of out = calls_of (reverse merged) ++ calls_of l
  /\ parts_of out = parts_of (reverse merged) ++ parts_of l
  /\ (Forall unanswering (merged ++ l) ->
      answers_of out = answers_of (reverse merged) ++ answers_of l
      /\ said out = said (reverse merged) ++ said l)
  /\ (~ doubled merged -> ~ doubled (fold_left merge_step l merged)).
Proof.
  induction l as [|m l IH]; intros merged; cbn zeta; cbn [fold_left].
  { rewrite !app_nil_r. done. }
  destruct (IH (merge_step merged m)) as (H1 & H2 & H3 & H4). cbn zeta in *. rewrite H1, H2.
  clear IH H1 H2. destruct merged as [|p rest].
  { change (merge_step [] m) with [m] in *. change (m :: l) with ([m] ++ l).
    rewrite calls_of_app, parts_of_app. split; [done|]. split; [done|].
    split; [intros Hf; destruct (H3 Hf) as [-> ->]; split; symmetry; [exact (answers_of_app [m] l)|exact (said_app [m] l)]|].
    intros _. apply H4. intros ([|? [|? ?]] & ? & ? & ? & ? & _); discriminate. }
  destruct (is_assistant p && is_assistant m) eqn:E.
  - assert (Hm : merge_step (p :: rest) m = merge_into p m :: rest) by (unfold merge_step; by rewrite E).
    rewrite Hm in *. clear Hm. apply andb_true_iff in E as [Ep Em]. rewrite !reverse_cons, !calls_of_app, !parts_of_app, <- !app_assoc.
    split_and!.
    + unfold calls_of. cbn [mbind list_bind]. unfold merge_into at 1. cbn [om_tool_calls]. by rewrite !app_nil_r, <- !app_assoc.
    + unfold parts_of. cbn [mbind list_bind]. rewrite merge_into_parts. by rewrite !app_nil_r, <- !app_assoc.
    + intros Hf. apply list.Forall_cons in Hf as [Hp Hf]. apply list.Forall_app in Hf as [Hr Hf].
      apply list.Forall_cons in Hf as [Hm Hf]. destruct H3 as [-> ->].
      { constructor; [|by apply list.Forall_app]. intros _. by apply Hp. }
      rewrite !reverse_cons, !answers_of_app, !said_app, <- !app_assoc. split; f_equal.
      * unfold answers_of. cbn [omap list_omap]. unfold merge_into. cbn [om_tool_call_id]. by rewrite (Hp Ep), (Hm Em).
      * change (said [merge_into p m]) with (said_by (merge_into p m) ++ []). rewrite app_nil_r, merge_into_said by done. unfold said. by rewrite bind_singleton, bind_cons, <- !app_assoc.
    + intros Hd. apply H4. intros Hd2. apply Hd. apply doubled_cons in Hd2 as [(n & b & -> & _ & Hn)|Hd2].
      * by exists [], p, n, b.
      * destruct Hd2 as (a & x & y & b & -> & Hx & Hy). by exists (p :: a), x, y, b.
  - assert (Hm : merge_step (p :: rest) m = m :: p :: rest) by (unfold merge_step; by rewrite E).
    rewrite Hm in *. clear Hm. change (m :: l) with ([m] ++ l).
    rewrite !(reverse_cons (p :: rest)), !calls_of_app, !parts_of_app, <- !app_assoc.
    split; [done|]. split; [done|]. split.
    + intros Hf. destruct H3 as [-> ->].
      { rewrite <- app_comm_cons. apply list.Forall_app in Hf as [Hf1 Hf2].
        cbn [app] in Hf2. apply list.Forall_cons in Hf2 as [Hm Hf2]. constructor; [done|]. by apply list.Forall_app. }
      by rewrite (reverse_cons (p :: rest)), !answers_of_app, !said_app, <- !app_assoc.
    + intros Hd. apply H4. intros Hd2. apply doubled_cons in Hd2 as [(n & b & Heq & Hm & Hn)|Hd2]; [|done].
      injection Heq as -> ->. by rewrite Hm, Hn in E.
Qed.

Lemma merge_spec l :
  let out := merge_assistant_items l in
  calls_of out = calls_of l /\ parts_of out = parts_of l /\ ~ doubled out
  /\ (Forall unanswering l -> answers_of out = answers_of l /\ said out = said l).
Proof.
  destruct (merge_fold l []) as (H1 & H2 & H3 & H4). cbn zeta. split_and!; [done|done| |done].
  intros Hd%doubled_reverse. revert Hd. apply H4. intros ([|? ?] & ? & ? & ? & ? & _); discriminate.
Qed.

(** ** The theorem *)

Section Claims.
Context (b64_decode : string -> option bytes) (parse_url : string -> option Url)
        (parse_json : string -> option value).

Lemma system_messages_quiet r :
  calls_of (system_messages r) = [] /\ answers_of (system_messages r) = []
  /\ Forall unanswering (system_messages r).
Proof.
  unfold system_messages. destruct (rr_instructions r), (rr_text r ≫= rt_verbosity) as [v|];
    try destruct (is_empty (verbosity_instruction v)); cbn [app];
    (split; [done|]; split; [done|]); repeat constructor.
Qed.

Lemma responses_parts r t :
  responses_to_openai b64_decode parse_url parse_json r = Ok t ->
  exists unmerged declared,
    input_messages b64_decode (rr_input r) (system_messages r) = Ok unmerged
    /\ oa_messages (rx_request t) = merge_assistant_items unmerged
    /\ fold_each add_declaration 0 declared ([], ∅) = Ok (oa_tools (rx_request t), rx_tool_names t)
    /\ validate_openai b64_decode parse_url parse_json (rx_request t) = Ok tt.
Proof.
  unfold responses_to_openai. intros [_ H]%then_ok. apply result_bind_ok in H as (declared & _ & H).
  apply result_bind_ok in H as (unmerged & Hm & H). apply result_bind_ok in H as ([tools names] & Ht & H).
  apply result_bind_ok in H as (choice & _ & H). apply then_ok in H as [Hv [= <-]].
  by exists unmerged, declared.
Qed.

(** C31: a Responses request that is translated says what it said.  The calls of
    its chat request are those of the input's items, each once and in order; ids
    are never used twice, every output comes behind its call and every call is
    answered.  Behind the instructions, the texts of the chat request are those of
    the items, each with its speaker and in order: of the messages, of the outputs,
    which belong to the call they answer, and of the reasoning summaries.  The items
    of one turn of the assistant have become one message, and the request passes
    the validation of chat requests. *)
Theorem responses_calls_kept r items t :
  rr_input r = Array items -> responses_to_openai b64_decode parse_url parse_json r = Ok t ->
  let messages := oa_messages (rx_request t) in
  calls_of messages = (omap item_call items).*2
  /\ answers_of messages = omap item_answer items
  /\ said messages = said (system_messages r) ++ (items ≫= item_says)
  /\ NoDup (call_ids items)
  /\ omap item_answer items ≡ₚ call_ids items
  /\ (forall a item b id, items = a ++ item :: b -> item_answer item = Some id -> id ∈ call_ids a)
  /\ ~ doubled messages
  /\ (exists unmerged, input_messages b64_decode (rr_input r) (system_messages r) = Ok unmerged
                       /\ parts_of messages = parts_of unmerged)
  /\ validate_openai b64_decode parse_url parse_json (rx_request t) = Ok tt.
Proof.
  intros Hi (unmerged & declared & Hm & Hmerge & _ & Hv)%responses_parts. cbn zeta. rewrite Hmerge.
  destruct (merge_spec unmerged) as (H1 & H2 & H3 & H4).
  destruct (system_messages_quiet r) as (S1 & S2 & S3).
  pose proof Hm as Hm'. rewrite Hi in Hm'. unfold input_messages in Hm'.
  destruct items as [|item items]; [done|].
  apply result_bind_ok in Hm' as (st & Hfold & Hend). case_bool_decide as Hp; [|done]. injection Hend as <-.
  destruct (fold_read b64_decode (system_messages r) (item :: items) 0 [] (no_items (system_messages r)) st)
    as [R1 R2 Rs _ R4 R5 R6 R7]; [|done|].
  { split; cbn; rewrite ?app_nil_r; try done; [constructor|by intros [] ???]. }
  rewrite Hp, map_to_list_empty in R5. cbn [fmap list_fmap] in R5. rewrite app_nil_r in R5.
  rewrite S1 in R1. rewrite S2 in R2. cbn [app] in R1, R2, R4, R5, R7, Rs. destruct (H4 (R6 S3)) as [Ha Hs].
  split; [by rewrite H1|]. split; [by rewrite Ha, R2|]. split; [by rewrite Hs, Rs|]. split; [done|]. split; [done|].
  split; [intros a x b id Hx; by apply R7 with b|]. split; [done|]. split; [by eexists|done].
Qed.
End Claims.

Definition demo_items : list value :=
  [json_object [("role", Str "user"); ("content", Str "go")];
   json_object [("type", Str "reasoning");
                ("summary", Array [json_object [("type", Str "summary_text"); ("text", Str "read both")]])];
   json_object [("type", Str "function_call"); ("call_id", Str "a"); ("name", Str "read");
                ("namespace", Str "fs"); ("arguments", Str "{}")];
   json_object [("type", Str "custom_tool_call"); ("call_id", Str "b"); ("name", Str "sh"); ("input", Str "ls")];
   json_object [("type", Str "custom_tool_call_output"); ("call_id", Str "b"); ("output", Str "x")];
   json_object [("type", Str "function_call_output"); ("call_id", Str "a"); ("output", Str "y")]].

Definition demo_responses (items : list value) (tools : option (list value)) : ResponsesRequest :=
  {| rr_model := "m"; rr_input := Array items; rr_instructions := Some "be brief"; rr_stream := false;
     rr_stream_options := None; rr_max_output_tokens := None; rr_temperature := None; rr_top_p := None;
     rr_tools := tools; rr_tool_choice := None; rr_parallel_tool_calls := None; rr_reasoning := None;
     rr_text := None; rr_metadata := None; rr_include := []; rr_store := None; rr_background := None;
     rr_previous_response_id := None; rr_conversation := None; rr_truncation := None;
     rr_service_tier := None; rr_max_tool_calls := None; rr_context_management := None;
     rr_prompt_cache_key := None; rr_prompt_cache_retention := None; rr_safety_identifier := None;
     rr_user := None; rr_client_metadata := None |}.

Lemma responses_calls_kept_witness :
  exists t, responses_to_openai (fun _ => None) (fun _ => None) (fun _ => Some Null) (demo_responses demo_items None)
            = Ok t
    /\ calls_of (oa_messages (rx_request t))
       = [chat_call "a" "function_call" "fs.read" "{}"; chat_call "b" "custom_tool_call" "sh" "ls"]
    /\ om_role <$> oa_messages (rx_request t) = ["system"; "user"; "assistant"; "tool"; "tool"]
    /\ answers_of (oa_messages (rx_request t)) = ["b"; "a"]
    /\ said (oa_messages (rx_request t))
       = [("system", None, "be brief"); ("user", None, "go");
          ("assistant", None, "Reasoning summary:" +:+ newline +:+ "read both");
          ("tool", Some "b", "x"); ("tool", Some "a", "y")].
Proof.
  destruct (responses_to_openai (fun _ => None) (fun _ => None) (fun _ => Some Null) (demo_responses demo_items None))
    as [t|] eqn:E; [|vm_compute in E; discriminate].
  exists t. split; [done|].
  destruct (responses_calls_kept (fun _ => None) (fun _ => None) (fun _ => Some Null)
              (demo_responses demo_items None) demo_items t eq_refl E) as (H1 & H2 & H3 & _).
  split; [rewrite H1; reflexivity|]. split; [|split; [rewrite H2; reflexivity|rewrite H3; reflexivity]].
  vm_compute in E. injection E as <-. reflexivity.
Defined.

(** An output in front of its call is refused, and so is a call without output. *)
Example unanswered_refused :
  input_messages (fun _ => None) (Array (take 5 demo_items)) []
  = invalid "input" "every tool call in input must have a matching tool output".
Proof. vm_compute. reflexivity. Qed.
