(* ===== verification/ResponsesSession.v ===== *)
(** * Stored conversations of the Responses protocol

    [kproxyd/src/http/responses.rs] without its stream: the store of
    conversations, how a request resumes one, and the output items of an answer.

    An [Instant] is a number of nanoseconds and the lock makes an operation of the
    store one step.  The iteration order of the hash map, the length of the
    serialized session, the random identifiers and the clock are arguments. *)

From Stdlib Require Import ZArith Lia Ascii String List.
From stdpp Require Import base list gmap sets tactics strings.
From S2P Require Import Prelude RustStr F64 Json Text Protocol Context Validate Responses.

Local Open Scope kproxy_scope.
Local Open Scope string_scope.
Local Open Scope list_scope.

(** ** The store *)

Definition RESPONSES_SESSION_TTL : Z := 30 * 60 * 1000000000.
Definition MAX_RESPONSES_SESSIONS : nat := 256.
Definition MAX_RESPONSES_SESSION_BYTES : Z := 2 * 1024 * 1024.
Definition MAX_RESPONSES_SESSION_TOTAL_BYTES : Z := 32 * 1024 * 1024.
Definition RESPONSES_STORE_FAILED : string :=
  "unable to store response state within the configured in-memory limit".

Record ResponsesSessionOwner := { ow_service_id : string; ow_api_key_id : option string }.

#[export] Instance owner_eq_dec : EqDecision ResponsesSessionOwner.
Proof. solve_decision. Defined.

Record StoredResponsesSession := {
  ss_owner : ResponsesSessionOwner;
  ss_conversation_id : option string;
  ss_history : list value;
  ss_tools : list value;
  ss_tool_choice : option value;
  ss_parallel_tool_calls : option bool;
  ss_last_accessed : Z;
  ss_stored_bytes : Z;
}.

Notation Sessions := (gmap string StoredResponsesSession).

Definition response_input_items (input : value) : list value :=
  match input with
  | Str text =>
      [json_object [("type", Str "message"); ("role", Str "user"); ("content", Str text)]]
  | Array items => items
  | _ => []
  end.

Definition is_additional_tools (item : value) : bool :=
  bool_decide (get_str item "type" = Some "additional_tools").

Definition response_input_history (r : ResponsesRequest) : list value :=
  List.filter (fun item => negb (is_additional_tools item)) (response_input_items (rr_input r)).

Definition has_additional_tools (input : value) : bool :=
  is_some_and (as_array input) (existsb is_additional_tools).

Definition from_request (r : ResponsesRequest) (tools : list value) (owner : ResponsesSessionOwner)
    (conversation_id : option string) (now : Z) : StoredResponsesSession :=
  {| ss_owner := owner; ss_conversation_id := conversation_id; ss_history := response_input_history r;
     ss_tools := tools; ss_tool_choice := rr_tool_choice r;
     ss_parallel_tool_calls := rr_parallel_tool_calls r; ss_last_accessed := now; ss_stored_bytes := 0 |}.

Definition with_access (now : Z) (s : StoredResponsesSession) : StoredResponsesSession :=
  {| ss_owner := ss_owner s; ss_conversation_id := ss_conversation_id s; ss_history := ss_history s;
     ss_tools := ss_tools s; ss_tool_choice := ss_tool_choice s;
     ss_parallel_tool_calls := ss_parallel_tool_calls s; ss_last_accessed := now;
     ss_stored_bytes := ss_stored_bytes s |}.

Definition with_output (output : list value) (now : Z) (s : StoredResponsesSession) : StoredResponsesSession :=
  {| ss_owner := ss_owner s; ss_conversation_id := ss_conversation_id s;
     ss_history := ss_history s ++ output; ss_tools := ss_tools s; ss_tool_choice := ss_tool_choice s;
     ss_parallel_tool_calls := ss_parallel_tool_calls s; ss_last_accessed := now;
     ss_stored_bytes := ss_stored_bytes s |}.

Definition with_bytes (bytes : Z) (s : StoredResponsesSession) : StoredResponsesSession :=
  {| ss_owner := ss_owner s; ss_conversation_id := ss_conversation_id s; ss_history := ss_history s;
     ss_tools := ss_tools s; ss_tool_choice := ss_tool_choice s;
     ss_parallel_tool_calls := ss_parallel_tool_calls s; ss_last_accessed := ss_last_accessed s;
     ss_stored_bytes := bytes |}.

Definition prune (now : Z) (entries : Sessions) : Sessions :=
  filter (fun e => (sat_sub now (ss_last_accessed e.2) <= RESPONSES_SESSION_TTL)%Z) entries.

Definition session_get (now : Z) (response_id : string) (owner : ResponsesSessionOwner) (entries : Sessions) :
    option StoredResponsesSession * Sessions :=
  let entries := prune now entries in
  match entries !! response_id with
  | None => (None, entries)
  | Some session =>
      if bool_decide (ss_owner session = owner)
      then (Some (with_access now session), <[response_id := with_access now session]> entries)
      else (None, entries)
  end.

Definition total_bytes (entries : Sessions) : Z :=
  map_fold (fun _ s n => (ss_stored_bytes s + n)%Z) 0%Z entries.

Section Store.
(** The order in which the map is iterated, and [serde_json::to_vec(..).len()] of
    what is stored of a session, if it can be printed. *)
Context (iter : Sessions -> list (string * StoredResponsesSession))
        (serialized : StoredResponsesSession -> option Z).

(** The session with its size, when it is within the limit. *)
Definition refresh_size (s : StoredResponsesSession) : option StoredResponsesSession :=
  match serialized s with
  | Some bytes => if (bytes <=? MAX_RESPONSES_SESSION_BYTES)%Z then Some (with_bytes bytes s) else None
  | None => None
  end.

Definition crowded (entries : Sessions) (total bytes : Z) : bool :=
  negb (bool_decide (entries = ∅))
  && ((MAX_RESPONSES_SESSIONS <=? size entries)%nat
      || (MAX_RESPONSES_SESSION_TOTAL_BYTES <? sat_add USIZE_MAX total bytes)%Z).

(** Every round removes the session that was read longest ago. *)
Fixpoint make_room (fuel : nat) (entries : Sessions) (total bytes : Z) : Sessions * Z :=
  if crowded entries total bytes then
    match fuel with
    | O => (entries, total)
    | S fuel =>
        match min_by_key (fun e : string * StoredResponsesSession => ss_last_accessed e.2) (iter entries) with
        | None => (entries, total)
        | Some (oldest, _) =>
            let total :=
              match entries !! oldest with
              | Some removed => sat_sub total (ss_stored_bytes removed)
              | None => total
              end in
            make_room fuel (delete oldest entries) total bytes
        end
    end
  else (entries, total).

Definition session_insert (now : Z) (response_id : string) (session : StoredResponsesSession)
    (output : list value) (entries : Sessions) : bool * Sessions :=
  match refresh_size (with_output output now session) with
  | None => (false, entries)
  | Some session =>
      let entries := delete response_id (prune now entries) in
      let '(entries, total) := make_room (size entries) entries (total_bytes entries) (ss_stored_bytes session) in
      if (MAX_RESPONSES_SESSION_TOTAL_BYTES <? sat_add USIZE_MAX total (ss_stored_bytes session))%Z
      then (false, entries)
      else (true, <[response_id := session]> entries)
  end.
End Store.

(** *** Resuming *)

Definition resume_responses_request (r : ResponsesRequest) (s : StoredResponsesSession) : ResponsesRequest :=
  let inherits_tools := is_none (rr_tools r) && negb (has_additional_tools (rr_input r)) in
  {| rr_model := rr_model r;
     rr_input := Array (ss_history s ++ response_input_items (rr_input r));
     rr_instructions := rr_instructions r; rr_stream := rr_stream r;
     rr_stream_options := rr_stream_options r; rr_max_output_tokens := rr_max_output_tokens r;
     rr_temperature := rr_temperature r; rr_top_p := rr_top_p r;
     rr_tools := if inherits_tools then Some (ss_tools s) else rr_tools r;
     rr_tool_choice :=
       if is_none_or (rr_tool_choice r) is_null && inherits_tools then ss_tool_choice s
       else rr_tool_choice r;
     rr_parallel_tool_calls := or_else (rr_parallel_tool_calls r) (ss_parallel_tool_calls s);
     rr_reasoning := rr_reasoning r; rr_text := rr_text r; rr_metadata := rr_metadata r;
     rr_include := rr_include r; rr_store := rr_store r; rr_background := rr_background r;
     rr_previous_response_id := rr_previous_response_id r; rr_conversation := rr_conversation r;
     rr_truncation := rr_truncation r; rr_service_tier := rr_service_tier r;
     rr_max_tool_calls := rr_max_tool_calls r; rr_context_management := rr_context_management r;
     rr_prompt_cache_key := rr_prompt_cache_key r;
     rr_prompt_cache_retention := rr_prompt_cache_retention r;
     rr_safety_identifier := rr_safety_identifier r; rr_user := rr_user r;
     rr_client_metadata := rr_client_metadata r |}.

(** ** Output items *)

Inductive ItemContent :=
| Message (text : string)
| Reasoning (text : string)
| Tool (custom : bool) (call_id name : string) (namespace : option string) (input : string).

Record OutputItem := { oi_id : string; oi_content : ItemContent; oi_status : string }.

Definition id_prefix (content : ItemContent) : string :=
  match content with
  | Message _ => "msg"
  | Reasoning _ => "rs"
  | Tool true _ _ _ _ => "ctc"
  | Tool false _ _ _ _ => "fc"
  end.

(** [nonce] stands for a random identifier. *)
Definition new_item (nonce : string) (content : ItemContent) : OutputItem :=
  {| oi_id := id_prefix content +:+ "_" +:+ nonce; oi_content := content; oi_status := "in_progress" |}.

Definition output_text (text : string) : value :=
  json_object [("type", Str "output_text"); ("text", Str text); ("annotations", Array []);
               ("logprobs", Array [])].

Definition summary_text (text : string) : value :=
  json_object [("type", Str "summary_text"); ("text", Str text)].

Definition item_json (item : OutputItem) (status : string) : value :=
  match oi_content item with
  | Message text =>
      json_object
        [("id", Str (oi_id item)); ("type", Str "message"); ("role", Str "assistant");
         ("status", Str status);
         ("content", Array (if bool_decide (status = "in_progress") && is_empty text then []
                            else [output_text text]))]
  | Reasoning text =>
      json_object
        [("id", Str (oi_id item)); ("type", Str "reasoning");
         ("summary", Array (if is_empty text then [] else [summary_text text]))]
  | Tool custom call_id name namespace input =>
      json_object
        ([("id", Str (oi_id item));
          ("type", Str (if custom then "custom_tool_call" else "function_call"));
          ("call_id", Str call_id); ("name", Str name); ("status", Str status);
          (if custom then "input" else "arguments", Str input)]
         ++ match namespace with Some namespace => [("namespace", Str namespace)] | None => [] end)
  end.

Definition EMPTY_COMMENT : string := "<!-- -->".

(** ["…"] in UTF-8. *)
Definition ELLIPSIS : bytes := ["226"; "128"; "166"]%char.

Definition is_dots (c : bytes) : bool := bool_decide (c = ["."%char]) || bool_decide (c = ELLIPSIS).

Definition has_substantive_reasoning_summary (text : string) : bool :=
  let compact :=
    List.filter (fun c => negb (char_is_whitespace c)) (chars (replace text EMPTY_COMMENT "")) in
  negb (is_nil compact) && negb (forallb is_dots compact).

Definition u64_at (v : value) (path : list string) : Z := unwrap_or (pointer v path ≫= as_u64) 0%Z.

Definition responses_usage (chat : value) : value :=
  let input := u64_at chat ["prompt_tokens"] in
  let output := u64_at chat ["completion_tokens"] in
  json_object
    [("input_tokens", unsigned input); ("output_tokens", unsigned output);
     ("total_tokens", unsigned (sat_add U64_MAX input output));
     ("input_tokens_details",
      json_object [("cached_tokens", unsigned (u64_at chat ["prompt_tokens_details"; "cached_tokens"]))]);
     ("output_tokens_details",
      json_object [("reasoning_tokens",
                    unsigned (u64_at chat ["completion_tokens_details"; "reasoning_tokens"]))])].

(** ** Answers *)

Record ResponsesOptions := {
  ro_template : value;
  ro_tool_names : gmap string ResponsesToolName;
  ro_emit_reasoning_summary : bool;
  ro_session : option StoredResponsesSession;
  ro_inherited_conversation_id : option string;
}.

Definition or_null {A} (f : A -> value) (o : option A) : value := match o with Some x => f x | None => Null end.

Definition reasoning_json (r : ResponsesReasoning) : value :=
  json_object [("effort", or_null Str (rn_effort r)); ("summary", or_null Str (rn_summary r));
               ("context", or_null Str (rn_context r))].

Definition TEXT_FORMAT : value := json_object [("type", Str "text")].

Definition text_json (text : option ResponsesText) : value :=
  match text with
  | Some text =>
      json_object [("format", unwrap_or (rt_format text) TEXT_FORMAT);
                   ("verbosity", Str (unwrap_or (rt_verbosity text) "medium"))]
  | None => json_object [("format", TEXT_FORMAT)]
  end.

Definition float_json (x : f64) : value := if F64.is_finite x then Number (Float x) else Null.

Definition response_template (r : ResponsesRequest) (tools : list value) (response_id : string)
    (created_at : Z) (stored : bool) : value :=
  json_object
    [("id", Str response_id); ("object", Str "response"); ("created_at", unsigned created_at);
     ("status", Str "in_progress"); ("error", Null); ("incomplete_details", Null);
     ("model", Str (rr_model r)); ("instructions", or_null Str (rr_instructions r));
     ("output", Array []); ("usage", Null); ("store", Bool stored); ("background", Bool false);
     ("previous_response_id", or_null Str (rr_previous_response_id r));
     ("max_output_tokens", or_null unsigned (rr_max_output_tokens r));
     ("parallel_tool_calls", Bool (unwrap_or (rr_parallel_tool_calls r) true));
     ("tool_choice", unwrap_or (rr_tool_choice r) (Str "auto")); ("tools", Array tools);
     ("reasoning", or_null reasoning_json (rr_reasoning r)); ("text", text_json (rr_text r));
     ("temperature", float_json (unwrap_or (rr_temperature r) F64.one));
     ("top_p", float_json (unwrap_or (rr_top_p r) F64.one));
     ("truncation", Str (unwrap_or (rr_truncation r) "disabled")); ("service_tier", Str "auto");
     ("max_tool_calls", or_null unsigned (rr_max_tool_calls r));
     ("metadata", unwrap_or (rr_metadata r) (Object []))].

(** [owner] is present when there is a store. *)
Definition new_options (r : ResponsesRequest) (tools : list value) (names : gmap string ResponsesToolName)
    (owner : option ResponsesSessionOwner) (inherited : option string) (nonce : string) (now created_at : Z) :
    ResponsesOptions :=
  let response_id := "resp_" +:+ nonce in
  let session :=
    if bool_decide (rr_store r = Some false) then None
    else (fun owner => from_request r tools owner inherited now) <$> owner in
  {| ro_template := response_template r tools response_id created_at (is_some session);
     ro_tool_names := names;
     ro_emit_reasoning_summary := negb (bool_decide ((rr_reasoning r ≫= rn_summary) = Some "none"));
     ro_session := session;
     ro_inherited_conversation_id := inherited |}.

Definition options_id (o : ResponsesOptions) : string := unwrap_or (get_str (ro_template o) "id") "".

Definition automatic_truncation (o : ResponsesOptions) : bool :=
  bool_decide (get_str (ro_template o) "truncation" = Some "auto").

Definition conversation_hint (o : ResponsesOptions) : option string :=
  (fun _ => options_id o) <$> ro_session o.

Definition set_conversation_id (conversation_id : option string) (o : ResponsesOptions) : ResponsesOptions :=
  {| ro_template := ro_template o; ro_tool_names := ro_tool_names o;
     ro_emit_reasoning_summary := ro_emit_reasoning_summary o;
     ro_session := (fun s =>
       {| ss_owner := ss_owner s; ss_conversation_id := conversation_id; ss_history := ss_history s;
          ss_tools := ss_tools s; ss_tool_choice := ss_tool_choice s;
          ss_parallel_tool_calls := ss_parallel_tool_calls s; ss_last_accessed := ss_last_accessed s;
          ss_stored_bytes := ss_stored_bytes s |}) <$> ro_session o;
     ro_inherited_conversation_id := ro_inherited_conversation_id o |}.

Definition set_entries (entries : list (string * value)) (v : value) : value :=
  match v with
  | Object m => Object (fold_left (fun m '(k, w) => obj_insert k w m) entries m)
  | _ => v
  end.

Definition envelope (o : ResponsesOptions) (output : list value) (status : string) (usage error : value) : value :=
  set_entries
    ((if bool_decide (status = "failed") && is_some (ro_session o) then [("store", Bool false)] else [])
     ++ [("output", Array output); ("status", Str status); ("usage", usage); ("error", error)]
     ++ (if bool_decide (status = "incomplete")
         then [("incomplete_details", json_object [("reason", Str "max_output_tokens")])] else []))
    (ro_template o).

(** The call of a chat message as an output item. *)
Definition tool_content (o : ResponsesOptions) (call : value) : ItemContent :=
  let custom := bool_decide (get_str call "type" = Some "custom") in
  let body := unwrap_or (get call (if custom then "custom" else "function")) Null in
  let name := unwrap_or (get_str body "name") "" in
  let identity := ro_tool_names o !! name in
  Tool custom (unwrap_or (get_str call "id") "")
    (match identity with Some i => tn_name i | None => name end)
    (identity ≫= tn_namespace)
    (unwrap_or (get_str body (if custom then "input" else "arguments")) "").

Section Answer.
Context (iter : Sessions -> list (string * StoredResponsesSession))
        (serialized : StoredResponsesSession -> option Z).
(** The random identifier of the item at a place, and the clock. *)
Context (nonce : nat -> string) (now : Z).

Definition finalize (o : ResponsesOptions) (output : list value) (status : string) (usage : value)
    (entries : Sessions) : result value string * Sessions :=
  match ro_session o with
  | None => (Ok (envelope o output status usage Null), entries)
  | Some session =>
      if is_none (ss_conversation_id session) then (Err RESPONSES_STORE_FAILED, entries)
      else
        let '(stored, entries) := session_insert iter serialized now (options_id o) session output entries in
        (if stored then Ok (envelope o output status usage Null) else Err RESPONSES_STORE_FAILED, entries)
  end.

(** The contents of the items of an answer. *)
Definition answer_contents (o : ResponsesOptions) (message : value) : list ItemContent :=
  (if ro_emit_reasoning_summary o then
     match opt_filter has_substantive_reasoning_summary (get_str message "reasoning_content") with
     | Some text => [Reasoning text]
     | None => []
     end
   else [])
  ++ match opt_filter (fun text => negb (is_empty text)) (get_str message "content") with
     | Some text => [Message text]
     | None => []
     end
  ++ (tool_content o <$> unwrap_or (get message "tool_calls" ≫= as_array) []).

Definition mark_incomplete (item : value) : value :=
  if bool_decide (get_str item "type" = Some "message")
  then set_entries [("status", Str "incomplete")] item else item.

Definition answer_output (o : ResponsesOptions) (message : value) (incomplete : bool) : list value :=
  let status := if incomplete then "incomplete" else "completed" in
  match answer_contents o message with
  | [] => [item_json (new_item (nonce 0) (Message "")) status]
  | contents =>
      let output := imap (fun i content => item_json (new_item (nonce i) content) "completed") contents in
      if incomplete then mark_incomplete <$> output else output
  end.

Definition first_choice (chat : value) : value :=
  match get chat "choices" ≫= as_array with Some (choice :: _) => choice | _ => Null end.

Definition json_response (chat : value) (o : ResponsesOptions) (entries : Sessions) :
    result value string * Sessions :=
  let choice := first_choice chat in
  let incomplete := bool_decide (get_str choice "finish_reason" = Some "length") in
  let output := answer_output o (unwrap_or (get choice "message") Null) incomplete in
  finalize o output (if incomplete then "incomplete" else "completed")
    (responses_usage (unwrap_or (get chat "usage") Null)) entries.
End Answer.
