(* ===== verification/ResponsesSessionFacts.v ===== *)
(** * Stored conversations are bounded, private and faithful

    The store keeps within its limits and gives a conversation back to its owner
    only; an answer that is replayed is read as the calls that were sent. *)

From Stdlib Require Import ZArith Lia Ascii String List.
From stdpp Require Import base list gmap sets tactics strings.
From S2P Require Import Prelude RustStr F64 Json Text Protocol Model Context Validate Responses ResponsesFacts.
From S2P Require Import ResponsesSession.
From S2P Require Schema Attachments ValidateOpenAi.

Local Open Scope kproxy_scope.
Local Open Scope string_scope.
Local Open Scope list_scope.

(** ** Sizes *)

Definition sized (s : StoredResponsesSession) : Prop := (0 <= ss_stored_bytes s <= MAX_RESPONSES_SESSION_BYTES)%Z.

Lemma total_bytes_insert id s m :
  m !! id = None -> (total_bytes (<[id := s]> m) = ss_stored_bytes s + total_bytes m)%Z.
Proof. intros H. apply (map_fold_insert_L (fun _ s n => ss_stored_bytes s + n)%Z); [|done]. intros. lia. Qed.

Lemma total_bytes_delete id s m :
  m !! id = Some s -> total_bytes m = (ss_stored_bytes s + total_bytes (delete id m))%Z.
Proof. intros H. apply (map_fold_delete_L (fun _ s n => ss_stored_bytes s + n)%Z); [|done]. intros. lia. Qed.

Lemma total_bytes_empty : total_bytes ∅ = 0%Z.
Proof. apply map_fold_empty. Qed.

Lemma total_bytes_nonneg m : map_Forall (fun _ => sized) m -> (0 <= total_bytes m)%Z.
Proof.
  induction m as [|id s m Hid IH] using map_ind; intros Hm; [by rewrite total_bytes_empty|].
  rewrite total_bytes_insert by done. apply map_Forall_insert in Hm as [[? _] Hm]; [|done].
  specialize (IH Hm). lia.
Qed.

Record Bounded (m : Sessions) : Prop := {
  bd_count : size m <= MAX_RESPONSES_SESSIONS;
  bd_each : map_Forall (fun _ => sized) m;
  bd_total : (total_bytes m <= MAX_RESPONSES_SESSION_TOTAL_BYTES)%Z;
}.

Lemma Bounded_empty : Bounded ∅.
Proof. split; [rewrite map_size_empty; unfold MAX_RESPONSES_SESSIONS; lia|apply map_Forall_empty|by rewrite total_bytes_empty]. Qed.

Lemma total_bytes_filter (P : string * StoredResponsesSession -> Prop) `{forall e, Decision (P e)} m :
  map_Forall (fun _ => sized) m -> (total_bytes (filter P m) <= total_bytes m)%Z.
Proof.
  induction m as [|id s m Hid IH] using map_ind; intros Hm; [by rewrite map_filter_empty|].
  apply map_Forall_insert in Hm as [[? _] Hm]; [|done]. specialize (IH Hm).
  rewrite (total_bytes_insert id s m Hid). destruct (decide (P (id, s))) as [HP|HP].
  - rewrite map_filter_insert_True by done. rewrite total_bytes_insert by (by apply map_lookup_filter_None; left).
    lia.
  - rewrite map_filter_insert_False by done. rewrite delete_id by done. lia.
Qed.

(** What is left of a store is bounded too. *)
Lemma Bounded_prune now m : Bounded m -> Bounded (prune now m).
Proof.
  intros [H1 H2 H3]. unfold prune. split.
  - etrans; [|exact H1]. apply map_subseteq_size, map_filter_subseteq.
  - intros id s [H _]%map_lookup_filter_Some. by apply (H2 id).
  - etrans; [|exact H3]. by apply total_bytes_filter.
Qed.

Lemma Bounded_delete id m : Bounded m -> Bounded (delete id m).
Proof.
  intros [H1 H2 H3]. split.
  - etrans; [|exact H1]. apply map_subseteq_size, delete_subseteq.
  - by apply map_Forall_delete.
  - destruct (m !! id) as [s|] eqn:E; [|by rewrite delete_id].
    rewrite (total_bytes_delete _ _ _ E) in H3. destruct (H2 _ _ E). lia.
Qed.

(** A session whose time of access alone has changed. *)
Lemma Bounded_access now id s m : m !! id = Some s -> Bounded m -> Bounded (<[id := with_access now s]> m).
Proof.
  intros E [H1 H2 H3]. rewrite <- insert_delete_eq. split.
  - rewrite map_size_insert_None by apply lookup_delete_eq. rewrite (map_size_delete_Some id m) by eauto.
    assert (size m <> 0) by (intros Hz%map_size_empty_inv; by subst). lia.
  - apply map_Forall_insert_2; [exact (H2 _ _ E)|by apply map_Forall_delete].
  - rewrite total_bytes_insert by apply lookup_delete_eq. by rewrite (total_bytes_delete _ _ _ E) in H3.
Qed.

Section Store.
Context (iter : Sessions -> list (string * StoredResponsesSession))
        (serialized : StoredResponsesSession -> option Z).
Context (iter_all : forall m, iter m ≡ₚ map_to_list m)
        (serialized_nonneg : forall s n, serialized s = Some n -> (0 <= n)%Z).

Notation session_insert := (session_insert iter serialized).

Lemma refresh_size_sized s s' : refresh_size serialized s = Some s' -> sized s'.
Proof.
  unfold refresh_size. destruct (serialized s) as [n|] eqn:E; [|done].
  destruct (n <=? _)%Z eqn:En; [|done]. intros [= <-]. apply Z.leb_le in En.
  apply serialized_nonneg in E. done.
Qed.

(** What is removed was read no later than what stays. *)
Definition oldest_removed (m m' : Sessions) : Prop :=
  forall id s id' s', m !! id = Some s -> m' !! id = None -> m' !! id' = Some s' ->
    (ss_last_accessed s <= ss_last_accessed s')%Z.

(** There is room for another session. *)
Definition roomy (m : Sessions) (bytes : Z) : Prop :=
  size m < MAX_RESPONSES_SESSIONS /\ (total_bytes m + bytes <= MAX_RESPONSES_SESSION_TOTAL_BYTES)%Z.

Lemma oldest_removed_refl m : oldest_removed m m.
Proof. intros id s id' s' H1 H2. congruence. Qed.

Lemma not_crowded m bytes :
  (0 <= bytes <= MAX_RESPONSES_SESSION_BYTES)%Z -> crowded m (total_bytes m) bytes = false -> roomy m bytes.
Proof.
  intros Hb [E|E]%andb_false_iff.
  - apply negb_false_iff, bool_decide_eq_true in E as ->. split; rewrite ?map_size_empty, ?total_bytes_empty;
      unfold MAX_RESPONSES_SESSIONS, MAX_RESPONSES_SESSION_TOTAL_BYTES, MAX_RESPONSES_SESSION_BYTES in *; lia.
  - apply orb_false_iff in E as [E1%Nat.leb_gt E2%Z.ltb_ge]. split; [done|].
    unfold sat_add, USIZE_MAX, U64_MAX, MAX_RESPONSES_SESSION_TOTAL_BYTES, MAX_RESPONSES_SESSION_BYTES in *. lia.
Qed.

Lemma make_room_spec bytes fuel m :
  Bounded m -> size m <= fuel -> (0 <= bytes <= MAX_RESPONSES_SESSION_BYTES)%Z ->
  exists m', make_room iter fuel m (total_bytes m) bytes = (m', total_bytes m')
    /\ m' ⊆ m /\ Bounded m' /\ size m' < MAX_RESPONSES_SESSIONS
    /\ (total_bytes m' + bytes <= MAX_RESPONSES_SESSION_TOTAL_BYTES)%Z
    /\ oldest_removed m m' /\ (roomy m bytes -> m' = m).
Proof.
  intros Hm Hf Hb. revert m Hm Hf; induction fuel as [|fuel IH]; intros m Hm Hf; cbn [make_room];
    pose proof (total_bytes_nonneg _ (bd_each _ Hm)) as Hpos; pose proof (bd_total _ Hm) as Htot.
  all: destruct (crowded m (total_bytes m) bytes) eqn:E;
    [|destruct (not_crowded m bytes Hb E) as [H1 H2]; exists m; split_and!; auto using oldest_removed_refl].
  all: apply andb_true_iff in E as [E Hcrowd]; apply negb_true_iff, bool_decide_eq_false in E.
  { assert (Hz : size m = 0) by lia. by apply map_size_empty_inv in Hz. }
  destruct (min_by_key _ (iter m)) as [[oldest s]|] eqn:Emin.
  - apply min_by_key_spec in Emin as [Hin Hleast]. rewrite iter_all in Hin. apply elem_of_map_to_list in Hin.
    rewrite Hin, (total_bytes_delete _ _ _ Hin).
    replace (sat_sub _ _) with (total_bytes (delete oldest m)); cycle 1.
    { pose proof (total_bytes_nonneg _ (bd_each _ (Bounded_delete oldest _ Hm))). unfold sat_sub. lia. }
    destruct (IH (delete oldest m)) as (m' & -> & Hsub & HB & Hsize & Htotal & Hold & _); [by apply Bounded_delete| |].
    { rewrite (map_size_delete_Some oldest m) by eauto. lia. }
    assert (Hsub' : m' ⊆ m) by (etrans; [exact Hsub|apply delete_subseteq]).
    exists m'. split_and!; try done.
    + intros id1 s1 id2 s2 H1 H2 H3. destruct (decide (id1 = oldest)) as [->|Hne].
      * assert (s1 = s) as -> by congruence. apply (Hleast (id2, s2)). rewrite iter_all.
        apply elem_of_map_to_list. by eapply lookup_weaken.
      * apply (Hold id1 s1 id2 s2); [by rewrite lookup_delete_ne|done|done].
    + intros [Hr1 Hr2]. exfalso. apply orb_true_iff in Hcrowd as [Hc%Nat.leb_le|Hc%Z.ltb_lt]; [lia|].
      unfold sat_add, USIZE_MAX, U64_MAX, MAX_RESPONSES_SESSION_TOTAL_BYTES in *. lia.
  - apply min_by_key_None in Emin. pose proof (iter_all m) as Hi. rewrite Emin in Hi.
    symmetry in Hi. apply Permutation_nil_r, map_to_list_empty_iff in Hi. done.
Qed.

Lemma session_insert_spec now id s output m :
  Bounded m ->
  match refresh_size serialized (with_output output now s) with
  | None => session_insert now id s output m = (false, m)
  | Some s' => exists m', session_insert now id s output m = (true, <[id := s']> m')
                          /\ m' ⊆ delete id (prune now m) /\ Bounded (<[id := s']> m')
                          /\ m' !! id = None /\ oldest_removed (delete id (prune now m)) m'
                          /\ (roomy (delete id (prune now m)) (ss_stored_bytes s') -> m' = delete id (prune now m))
  end.
Proof.
  intros Hm. unfold ResponsesSession.session_insert.
  destruct (refresh_size _ _) as [s'|] eqn:Er; [|done]. pose proof (refresh_size_sized _ _ Er) as Hs.
  destruct (make_room_spec (ss_stored_bytes s') (size (delete id (prune now m))) (delete id (prune now m)))
    as (m' & -> & Hsub & [H1 H2 H3] & Hsize & Htot & Hold & Hroom); [by apply Bounded_delete, Bounded_prune|done|done|].
  pose proof (total_bytes_nonneg _ H2). destruct Hs as [Hs0 Hs1].
  assert (Hid : m' !! id = None).
  { destruct (m' !! id) eqn:E; [|done]. eapply lookup_weaken in E; [|exact Hsub]. by rewrite lookup_delete_eq in E. }
  destruct (_ <? _)%Z eqn:Elt.
  { apply Z.ltb_lt in Elt. unfold sat_add, USIZE_MAX, U64_MAX in Elt. lia. }
  exists m'. split; [done|]. split; [done|]. split; [|done]. split.
  - rewrite map_size_insert_None by done. lia.
  - by apply map_Forall_insert_2.
  - rewrite total_bytes_insert by done. lia.
Qed.

(** The stores that a daemon can have. *)
Inductive Reached : Sessions -> Prop :=
| Reached_empty : Reached ∅
| Reached_get m now id owner : Reached m -> Reached (snd (session_get now id owner m))
| Reached_insert m now id s output : Reached m -> Reached (snd (session_insert now id s output m)).

Lemma session_get_owner now id owner m s : fst (session_get now id owner m) = Some s -> ss_owner s = owner.
Proof.
  unfold session_get. destruct (prune now m !! id) as [s'|]; [|done].
  case_bool_decide as E; [|done]. by intros [= <-].
Qed.

Lemma Reached_Bounded m : Reached m -> Bounded m.
Proof.
  induction 1 as [|m now id owner _ IH|m now id s output _ IH]; [apply Bounded_empty| |].
  - unfold session_get. apply (Bounded_prune now) in IH.
    destruct (prune now m !! id) as [s|] eqn:E; [|done]. case_bool_decide; [|done]. by apply Bounded_access.
  - pose proof (session_insert_spec now id s output m IH) as H. destruct (refresh_size _ _) as [s'|].
    + by destruct H as (m' & -> & _ & H & _).
    + by rewrite H.
Qed.

(** C32: the conversations that the daemon keeps.  Whatever is stored and read, there
    are at most 256 of at most 2 MiB each and 32 MiB together, and one is only
    given to the service and the key it belongs to.  A conversation is stored
    exactly when it is within 2 MiB, and one that is too large leaves the store as
    it was.  Read next, it is given to its owner alone, with the answer appended,
    for thirty minutes.  Storing one takes away only others that have not been read
    for thirty minutes and, when there is no room for it, those that were read
    longest ago: what stays was read no earlier than what went. *)
Theorem responses_store_spec m (Hm : Reached m) :
  Bounded m
  /\ (forall now id owner s, fst (session_get now id owner m) = Some s -> ss_owner s = owner)
  /\ (forall now id s output,
        let '(stored, m') := session_insert now id s output m in
        match refresh_size serialized (with_output output now s) with
        | None => stored = false /\ m' = m
        | Some kept =>
            stored = true
            /\ (forall now' owner,
                  fst (session_get now' id owner m')
                  = if (sat_sub now' now <=? RESPONSES_SESSION_TTL)%Z && bool_decide (ss_owner s = owner)
                    then Some (with_access now' kept) else None)
            /\ let others := delete id (prune now m) in
               delete id m' ⊆ others /\ oldest_removed others (delete id m')
               /\ (roomy others (ss_stored_bytes kept) -> delete id m' = others)
        end).
Proof.
  apply Reached_Bounded in Hm. split; [done|]. split; [intros now id owner s; apply session_get_owner|].
  intros now id s output. pose proof (session_insert_spec now id s output m Hm) as H.
  unfold refresh_size in *. destruct (serialized _) as [n|]; [|by rewrite H].
  destruct (n <=? _)%Z; [|by rewrite H]. destruct H as (m' & -> & Hsub & _ & Hid & Hold & Hroom). split; [done|].
  split; [|by rewrite delete_insert_id].
  intros now' owner. unfold session_get, prune.
  destruct (sat_sub now' now <=? RESPONSES_SESSION_TTL)%Z eqn:Et.
  - rewrite (map_lookup_filter_Some_2 _ _ id (with_bytes n (with_output output now s))).
    + cbn [andb with_bytes with_output ss_owner]. by case_bool_decide.
    + apply lookup_insert_eq.
    + cbn. by apply Z.leb_le.
  - rewrite map_lookup_filter, lookup_insert_eq. cbn [mbind option_bind guard].
    cbn. case_guard as Hg; [|done]. apply Z.leb_gt in Et. cbn in Hg. lia.
Qed.
End Store.

Definition demo_owner : ResponsesSessionOwner := {| ow_service_id := "main"; ow_api_key_id := Some "k" |}.

Definition demo_session : StoredResponsesSession :=
  {| ss_owner := demo_owner; ss_conversation_id := Some "c"; ss_history := []; ss_tools := [];
     ss_tool_choice := None; ss_parallel_tool_calls := None; ss_last_accessed := 0; ss_stored_bytes := 0 |}.

Lemma responses_store_spec_witness :
  let m := snd (session_insert map_to_list (fun _ => Some 3%Z) 0 "resp_1" demo_session [Str "hi"] ∅) in
  Bounded m
  /\ fst (session_get 5 "resp_1" demo_owner m)
     = Some (with_access 5 (with_bytes 3 (with_output [Str "hi"] 0 demo_session))).
Proof.
  assert (Hser : forall s n, (fun _ : StoredResponsesSession => Some 3%Z) s = Some n -> (0 <= n)%Z)
    by (intros s n [= <-]; lia).
  destruct (responses_store_spec map_to_list (fun _ => Some 3%Z) (fun _ => Permutation_refl _) Hser ∅
              (Reached_empty _ _)) as (_ & _ & H).
  specialize (H 0%Z "resp_1" demo_session [Str "hi"]).
  destruct (session_insert _ _ _ _ _ _ _) as [stored m'] eqn:E. cbn [snd].
  assert (Hm : Reached map_to_list (fun _ => Some 3%Z) m').
  { replace m' with (snd (session_insert map_to_list (fun _ => Some 3%Z) 0 "resp_1" demo_session [Str "hi"] ∅))
      by by rewrite E. apply Reached_insert, Reached_empty. }
  split.
  - by apply (responses_store_spec map_to_list (fun _ => Some 3%Z) (fun _ => Permutation_refl _) Hser m' Hm).
  - destruct H as (_ & H & _). rewrite H. reflexivity.
Defined.

(** ** Calls that come back *)

Definition nonblank (s : string) : Prop := is_empty (trim s) = false.

(** What a name in a chat request stands for. *)
Definition spells (q : string) (i : ResponsesToolName) : Prop :=
  nonblank (tn_name i)
  /\ match tn_namespace i with
     | Some namespace => nonblank namespace /\ q = qualify namespace (tn_name i)
     | None => q = tn_name i
     end.

Definition Names (names : gmap string ResponsesToolName) : Prop := map_Forall spells names.

Lemma add_tool_names namespace description field tool st st' :
  (forall n, namespace = Some n -> nonblank n) -> Names st.2 ->
  add_tool namespace description field tool st = Ok st' -> Names st'.2.
Proof.
  intros Hns Hst. destruct st as [tools names]. unfold add_tool.
  intros (kind & _ & H)%result_bind_ok. apply then_ok in H as [_ H].
  apply result_bind_ok in H as (name & [_ Hn]%required_string_ok & H).
  split_checks H. apply result_bind_ok in H as (definition & _ & [= <-]). cbn [snd] in *.
  apply map_Forall_insert_2; [|done]. split; [done|]. cbn [tn_namespace tn_name].
  destruct namespace as [n|]; [|done]. split; [by apply Hns|done].
Qed.

Lemma fold_names {A} (f : nat -> A -> ToolState -> result ToolState Schema.ValidationError) l :
  (forall i x st st', Names st.2 -> f i x st = Ok st' -> Names st'.2) ->
  forall i st st', Names st.2 -> fold_each f i l st = Ok st' -> Names st'.2.
Proof.
  intros Hf. induction l as [|x l IH]; intros i st st' Hst; [by intros [= <-]|].
  intros (st1 & H1 & H2)%fold_each_cons. eapply IH; [|exact H2]. by eapply Hf.
Qed.

Lemma add_declaration_names i d st st' :
  Names st.2 -> add_declaration i d st = Ok st' -> Names st'.2.
Proof.
  intros Hst. unfold add_declaration. case_bool_decide.
  - intros (namespace & [_ Hn]%required_string_ok & H')%result_bind_ok.
    apply result_bind_ok in H' as (description & _ & H'). destruct (get _ _ ≫= _) as [children|]; [|done].
    revert H'. apply fold_names; [|done]. intros j child s s'. apply add_tool_names. by intros n [= <-].
  - by apply add_tool_names.
Qed.

Lemma responses_names b64_decode parse_url parse_json r t :
  responses_to_openai b64_decode parse_url parse_json r = Ok t -> Names (rx_tool_names t).
Proof.
  intros (unmerged & declared & _ & _ & H & _)%responses_parts.
  exact (fold_names _ _ add_declaration_names 0 _ _ (map_Forall_empty _) H).
Qed.

(** A call as it is sent: its id, the kind of its item, and the name and the input
    of the chat request. *)
Definition Sent : Type := string * string * string * string.

Definition sent_id (c : Sent) : string := c.1.1.1.
Definition sent_call (c : Sent) : value := let '(id, kind, name, input) := c in chat_call id kind name input.

Definition sendable (c : Sent) : Prop :=
  let '(id, kind, name, _) := c in nonblank id /\ kind ∈ CALL_KINDS /\ nonblank name.

Lemma qualified_name_plain item name :
  get_str item "name" = Some name -> nonblank name -> get item "namespace" = None ->
  qualified_name item "" = Ok name.
Proof.
  intros Hn Hb Hns. unfold qualified_name. rewrite (proj2 (required_string_ok _ _ _ _) (conj Hn Hb)).
  cbn [result_bind]. by rewrite Hns.
Qed.

Lemma qualified_name_scoped item name namespace :
  get_str item "name" = Some name -> nonblank name -> get item "namespace" = Some (Str namespace) ->
  nonblank namespace -> qualified_name item "" = Ok (qualify namespace name).
Proof.
  intros Hn Hb Hns Hb'. unfold qualified_name. rewrite (proj2 (required_string_ok _ _ _ _) (conj Hn Hb)).
  cbn [result_bind]. rewrite Hns. cbn. by rewrite Hb'.
Qed.

Lemma item_call_tool n status custom call_id name namespace input q :
  qualified_name (item_json (new_item n (Tool custom call_id name namespace input)) status) "" = Ok q ->
  item_call (item_json (new_item n (Tool custom call_id name namespace input)) status)
  = Some (call_id, chat_call call_id (if custom then "custom_tool_call" else "function_call") q input).
Proof.
  intros Hq. unfold item_call.
  set (item := item_json _ status) in *.
  assert (get_str item "type" = Some (if custom then "custom_tool_call" else "function_call")) as ->
    by (subst item; by destruct custom, namespace).
  assert (get_str item "call_id" = Some call_id) as Hid by (subst item; by destruct custom, namespace).
  assert (get_str item (call_shape (if custom then "custom_tool_call" else "function_call")).2 = Some input) as Hi
    by (subst item; by destruct custom, namespace).
  cbn [mbind option_bind]. unfold mem. destruct custom;
    (rewrite bool_decide_eq_true_2 by (unfold CALL_KINDS; set_solver)); rewrite Hid;
    cbn [mbind option_bind]; rewrite Hi; cbn [mbind option_bind]; by rewrite Hq.
Qed.

Lemma sent_read_back o c n status :
  Names (ro_tool_names o) -> sendable c ->
  item_call (item_json (new_item n (tool_content o (sent_call c))) status) = Some (sent_id c, sent_call c).
Proof.
  destruct c as [[[id kind] q] input]. intros Hnames (Hid & Hk & Hq).
  assert (Hc : exists custom : bool, kind = (if custom then "custom_tool_call" else "function_call")
    /\ tool_content o (sent_call (id, kind, q, input))
       = Tool custom id (match (ro_tool_names o !! q : option ResponsesToolName) with Some i => tn_name i | None => q end)
           (ro_tool_names o !! q ≫= tn_namespace) input).
  { unfold CALL_KINDS in Hk. apply elem_of_cons in Hk as [->|Hk%list_elem_of_singleton];
      [exists false|subst; exists true]; done. }
  destruct Hc as (custom & -> & ->). apply item_call_tool.
  destruct (ro_tool_names o !! q) as [i|] eqn:Ei; cbn [mbind option_bind].
  - destruct (Hnames _ _ Ei) as (Hn & Hs). destruct (tn_namespace i) as [namespace|].
    + destruct Hs as (Hb & ->). apply qualified_name_scoped; [| done | |done]; by destruct custom.
    + subst q. apply qualified_name_plain; [| done |]; by destruct custom.
  - apply qualified_name_plain; [| done |]; by destruct custom.
Qed.

Lemma item_call_text n status content :
  match content with Tool _ _ _ _ _ => False | _ => True end ->
  item_call (item_json (new_item n content) status) = None
  /\ item_call (mark_incomplete (item_json (new_item n content) status)) = None.
Proof. by destruct content. Qed.

Lemma mark_incomplete_tool n status custom call_id name namespace input :
  mark_incomplete (item_json (new_item n (Tool custom call_id name namespace input)) status)
  = item_json (new_item n (Tool custom call_id name namespace input)) status.
Proof. by destruct custom, namespace. Qed.

(** The call of an item is that of its content. *)
Definition content_call (content : ItemContent) : option (string * value) :=
  item_call (item_json (new_item "" content) "completed").

Lemma item_call_content n content :
  item_call (item_json (new_item n content) "completed") = content_call content
  /\ item_call (mark_incomplete (item_json (new_item n content) "completed")) = content_call content.
Proof.
  unfold content_call. destruct content as [text|text|custom call_id name namespace input]; [done..|].
  rewrite mark_incomplete_tool. by destruct custom, namespace.
Qed.

Lemma omap_imap {A B C} (f : nat -> A -> B) (g : B -> option C) (h : A -> option C) l :
  (forall i x, g (f i x) = h x) -> omap g (imap f l) = omap h l.
Proof.
  revert f; induction l as [|x l IH]; intros f H; [done|]. rewrite imap_cons. cbn [omap list_omap].
  rewrite H, IH; [done|]. intros i y. apply (H (S i)).
Qed.

Lemma answer_output_calls nonce o message incomplete :
  omap item_call (answer_output nonce o message incomplete) = omap content_call (answer_contents o message).
Proof.
  unfold answer_output. destruct (answer_contents o message) as [|content contents]; [by destruct incomplete|].
  destruct incomplete; [rewrite fmap_imap|]; apply omap_imap; intros i c; apply item_call_content.
Qed.

Lemma answer_contents_calls o message :
  omap content_call (answer_contents o message)
  = omap content_call (tool_content o <$> unwrap_or (get message "tool_calls" ≫= as_array) []).
Proof.
  unfold answer_contents. rewrite !omap_app.
  destruct (ro_emit_reasoning_summary o), (opt_filter has_substantive_reasoning_summary (get_str message "reasoning_content")),
    (opt_filter _ (get_str message "content")); done.
Qed.

(** C33: tool calls survive the client.  The names of the tools of a translated
    request can be told apart again: when the model calls tools by them and the
    client later replays the answer, each item is read as the very call that the
    model made, in order, and text and reasoning are read as no call.  So a
    conversation that is resumed holds the calls of what was stored, those of the
    answer, and those of the new input. *)
Theorem responses_replay_roundtrip b64_decode parse_url parse_json r t o (calls : list Sent) message nonce
    incomplete :
  responses_to_openai b64_decode parse_url parse_json r = Ok t ->
  ro_tool_names o = rx_tool_names t ->
  get message "tool_calls" = Some (Array (sent_call <$> calls)) ->
  Forall sendable calls ->
  let output := answer_output nonce o message incomplete in
  omap item_call output = (fun c => (sent_id c, sent_call c)) <$> calls
  /\ forall now s later,
       exists items, rr_input (resume_responses_request later (with_output output now s)) = Array items
         /\ omap item_call items
            = omap item_call (ss_history s) ++ ((fun c => (sent_id c, sent_call c)) <$> calls)
              ++ omap item_call (response_input_items (rr_input later)).
Proof.
  intros Ht Ho Hm Hs output. assert (Hout : omap item_call output = (fun c => (sent_id c, sent_call c)) <$> calls).
  { subst output. rewrite answer_output_calls, answer_contents_calls, Hm. cbn [mbind option_bind as_array unwrap_or].
    apply responses_names in Ht. rewrite <- Ho in Ht. clear Hm.
    induction Hs as [|c calls Hc _ IH]; [done|]. cbn [fmap list_fmap omap list_omap].
    unfold content_call at 1. rewrite (sent_read_back _ _ _ _ Ht Hc). f_equal. exact IH. }
  split; [done|]. intros now s later. eexists. split; [reflexivity|].
  cbn [with_output ss_history]. by rewrite !omap_app, Hout, <- app_assoc.
Qed.

Definition demo_tools : list value :=
  [json_object [("type", Str "namespace"); ("name", Str "fs");
                ("tools", Array [json_object [("type", Str "function"); ("name", Str "read")]])]].

Definition demo_names_request : ResponsesRequest :=
  demo_responses [json_object [("role", Str "user"); ("content", Str "go")]] (Some demo_tools).

Definition demo_answer : value :=
  json_object [("content", Str "ok"); ("tool_calls", Array [chat_call "c1" "function_call" "fs.read" "{}"])].

Lemma responses_replay_roundtrip_witness :
  exists t, responses_to_openai (fun _ => None) (fun _ => None) (fun _ => Some Null) demo_names_request = Ok t
    /\ let o := new_options demo_names_request (rx_tools t) (rx_tool_names t) None None "x" 0 0 in
       let output := answer_output (fun _ => "n") o demo_answer false in
       (fun item => get_str item "namespace") <$> output = [None; Some "fs"]
       /\ omap item_call output = [("c1", chat_call "c1" "function_call" "fs.read" "{}")].
Proof.
  destruct (responses_to_openai (fun _ => None) (fun _ => None) (fun _ => Some Null) demo_names_request)
    as [t|] eqn:E; [|vm_compute in E; discriminate].
  exists t. split; [done|]. cbn zeta.
  set (o := new_options demo_names_request (rx_tools t) (rx_tool_names t) None None "x" 0 0).
  destruct (responses_replay_roundtrip (fun _ => None) (fun _ => None) (fun _ => Some Null)
    demo_names_request t o [("c1", "function_call", "fs.read", "{}")] demo_answer (fun _ => "n") false E eq_refl)
    as [H _]; [reflexivity| |].
  { repeat constructor. }
  split; [|exact H]. vm_compute in E. injection E as <-. reflexivity.
Defined.
