(* ===== verification/ResponsesStream.v ===== *)
(** * The stream of the Responses protocol

    [ResponsesStream] and [stream_response] of [kproxyd/src/http/responses.rs]: the
    chunks of a streamed chat answer become the events of a Responses stream.

    An event is a value of [StreamEvent], printed by [event_json]; [emit] numbers
    events as [event] does.  Indexing that may panic and [unreachable!] are [None].
    The comments that keep an idle connection open are left out of the output.
    The random identifiers, the JSON parser, the redaction of error texts, and the
    store as it is when the answer is finished are arguments. *)

From Stdlib Require Import ZArith Lia Ascii String List.
From stdpp Require Import base list gmap sets tactics strings.
From S2P Require Import Prelude RustStr F64 Json Text Protocol Context Validate Responses ResponsesSession.
From S2P Require EventStream.

Local Open Scope kproxy_scope.
Local Open Scope string_scope.
Local Open Scope list_scope.

(** ** Events *)

Inductive StreamEvent :=
| Created (response : value)
| InProgress (response : value)
| ItemAdded (index : nat) (item : OutputItem)
| PartAdded (index : nat) (id : string)
| TextDelta (index : nat) (id text : string)
| TextDone (index : nat) (id text : string)
| PartDone (index : nat) (id text : string)
| SummaryPartAdded (index : nat) (id text : string)
| SummaryDone (index : nat) (id text : string)
| SummaryPartDone (index : nat) (id text : string)
| InputDelta (custom : bool) (index : nat) (id call_id delta : string)
| InputDone (custom : bool) (index : nat) (id name input : string)
| ItemDone (index : nat) (item : OutputItem) (status : string)
| Finished (status : string) (response : value)
| Failed (response : value).

Definition index_json (index : nat) : string * value := ("output_index", unsigned (Z.of_nat index)).

(** The event without its number. *)
Definition event_entries (e : StreamEvent) : list (string * value) :=
  match e with
  | Created response => [("type", Str "response.created"); ("response", response)]
  | InProgress response => [("type", Str "response.in_progress"); ("response", response)]
  | ItemAdded index item =>
      [("type", Str "response.output_item.added"); index_json index; ("item", item_json item "in_progress")]
  | PartAdded index id =>
      [("type", Str "response.content_part.added"); ("item_id", Str id); index_json index;
       ("content_index", unsigned 0); ("part", output_text "")]
  | TextDelta index id text =>
      [("type", Str "response.output_text.delta"); ("item_id", Str id); index_json index;
       ("content_index", unsigned 0); ("delta", Str text); ("logprobs", Array [])]
  | TextDone index id text =>
      [("type", Str "response.output_text.done"); ("item_id", Str id); index_json index;
       ("content_index", unsigned 0); ("text", Str text); ("logprobs", Array [])]
  | PartDone index id text =>
      [("type", Str "response.content_part.done"); ("item_id", Str id); index_json index;
       ("content_index", unsigned 0); ("part", output_text text)]
  | SummaryPartAdded index id text =>
      [("type", Str "response.reasoning_summary_part.added"); ("item_id", Str id); index_json index;
       ("summary_index", unsigned 0); ("part", summary_text text)]
  | SummaryDone index id text =>
      [("type", Str "response.reasoning_summary_text.done"); ("item_id", Str id); index_json index;
       ("summary_index", unsigned 0); ("text", Str text)]
  | SummaryPartDone index id text =>
      [("type", Str "response.reasoning_summary_part.done"); ("item_id", Str id); index_json index;
       ("summary_index", unsigned 0); ("part", summary_text text)]
  | InputDelta custom index id call_id delta =>
      [("type", Str (if custom then "response.custom_tool_call_input.delta"
                     else "response.function_call_arguments.delta"));
       ("item_id", Str id); index_json index; ("call_id", Str call_id); ("delta", Str delta)]
  | InputDone true index id name input =>
      [("type", Str "response.custom_tool_call_input.done"); ("item_id", Str id); index_json index;
       ("input", Str input)]
  | InputDone false index id name input =>
      [("type", Str "response.function_call_arguments.done"); ("item_id", Str id); index_json index;
       ("name", Str name); ("arguments", Str input)]
  | ItemDone index item status =>
      [("type", Str "response.output_item.done"); index_json index; ("item", item_json item status)]
  | Finished status response =>
      [("type", Str (if bool_decide (status = "incomplete") then "response.incomplete"
                     else "response.completed")); ("response", response)]
  | Failed response => [("type", Str "response.failed"); ("response", response)]
  end.

Definition Numbered : Type := Z * StreamEvent.

Definition event_json (e : Numbered) : value :=
  json_object (event_entries e.2 ++ [("sequence_number", unsigned e.1)]).

Definition event_frame (print_json : value -> string) (e : Numbered) : string :=
  "event: " +:+ unwrap_or (get_str (event_json e) "type") "" +:+ newline
  +:+ "data: " +:+ print_json (event_json e) +:+ newline +:+ newline.

(** ** The state *)

Record ResponsesStream := {
  rs_options : ResponsesOptions;
  rs_items : list OutputItem;
  rs_active_text : option nat;
  rs_pending_reasoning : string;
  rs_tool_indices : gmap Z nat;
  rs_sequence : Z;
  rs_usage : value;
  rs_finish_reason : option string;
  rs_terminal : bool;
  rs_store : option Sessions;
}.

Definition new_stream (o : ResponsesOptions) : ResponsesStream :=
  {| rs_options := o; rs_items := []; rs_active_text := None; rs_pending_reasoning := "";
     rs_tool_indices := ∅; rs_sequence := 0; rs_usage := Null; rs_finish_reason := None;
     rs_terminal := false; rs_store := None |}.

Definition set_items (items : list OutputItem) (s : ResponsesStream) : ResponsesStream :=
  {| rs_options := rs_options s; rs_items := items; rs_active_text := rs_active_text s;
     rs_pending_reasoning := rs_pending_reasoning s; rs_tool_indices := rs_tool_indices s;
     rs_sequence := rs_sequence s; rs_usage := rs_usage s; rs_finish_reason := rs_finish_reason s;
     rs_terminal := rs_terminal s; rs_store := rs_store s |}.

Definition set_active (active : option nat) (s : ResponsesStream) : ResponsesStream :=
  {| rs_options := rs_options s; rs_items := rs_items s; rs_active_text := active;
     rs_pending_reasoning := rs_pending_reasoning s; rs_tool_indices := rs_tool_indices s;
     rs_sequence := rs_sequence s; rs_usage := rs_usage s; rs_finish_reason := rs_finish_reason s;
     rs_terminal := rs_terminal s; rs_store := rs_store s |}.

Definition set_pending (pending : string) (s : ResponsesStream) : ResponsesStream :=
  {| rs_options := rs_options s; rs_items := rs_items s; rs_active_text := rs_active_text s;
     rs_pending_reasoning := pending; rs_tool_indices := rs_tool_indices s;
     rs_sequence := rs_sequence s; rs_usage := rs_usage s; rs_finish_reason := rs_finish_reason s;
     rs_terminal := rs_terminal s; rs_store := rs_store s |}.

Definition set_tool_indices (indices : gmap Z nat) (s : ResponsesStream) : ResponsesStream :=
  {| rs_options := rs_options s; rs_items := rs_items s; rs_active_text := rs_active_text s;
     rs_pending_reasoning := rs_pending_reasoning s; rs_tool_indices := indices;
     rs_sequence := rs_sequence s; rs_usage := rs_usage s; rs_finish_reason := rs_finish_reason s;
     rs_terminal := rs_terminal s; rs_store := rs_store s |}.

Definition set_stream_usage (usage : value) (s : ResponsesStream) : ResponsesStream :=
  {| rs_options := rs_options s; rs_items := rs_items s; rs_active_text := rs_active_text s;
     rs_pending_reasoning := rs_pending_reasoning s; rs_tool_indices := rs_tool_indices s;
     rs_sequence := rs_sequence s; rs_usage := usage; rs_finish_reason := rs_finish_reason s;
     rs_terminal := rs_terminal s; rs_store := rs_store s |}.

Definition set_finish_reason (reason : option string) (s : ResponsesStream) : ResponsesStream :=
  {| rs_options := rs_options s; rs_items := rs_items s; rs_active_text := rs_active_text s;
     rs_pending_reasoning := rs_pending_reasoning s; rs_tool_indices := rs_tool_indices s;
     rs_sequence := rs_sequence s; rs_usage := rs_usage s; rs_finish_reason := reason;
     rs_terminal := rs_terminal s; rs_store := rs_store s |}.

Definition set_terminal (s : ResponsesStream) : ResponsesStream :=
  {| rs_options := rs_options s; rs_items := rs_items s; rs_active_text := rs_active_text s;
     rs_pending_reasoning := rs_pending_reasoning s; rs_tool_indices := rs_tool_indices s;
     rs_sequence := rs_sequence s; rs_usage := rs_usage s; rs_finish_reason := rs_finish_reason s;
     rs_terminal := true; rs_store := rs_store s |}.

Definition set_store (store : Sessions) (s : ResponsesStream) : ResponsesStream :=
  {| rs_options := rs_options s; rs_items := rs_items s; rs_active_text := rs_active_text s;
     rs_pending_reasoning := rs_pending_reasoning s; rs_tool_indices := rs_tool_indices s;
     rs_sequence := rs_sequence s; rs_usage := rs_usage s; rs_finish_reason := rs_finish_reason s;
     rs_terminal := rs_terminal s; rs_store := Some store |}.

(** The state, and the events of the call so far. *)
Definition Out : Type := ResponsesStream * list Numbered.

(** [event], and the [push] of its result. *)
Definition emit (e : StreamEvent) (w : Out) : Out :=
  let '(s, out) := w in
  ({| rs_options := rs_options s; rs_items := rs_items s; rs_active_text := rs_active_text s;
      rs_pending_reasoning := rs_pending_reasoning s; rs_tool_indices := rs_tool_indices s;
      rs_sequence := rs_sequence s + 1; rs_usage := rs_usage s; rs_finish_reason := rs_finish_reason s;
      rs_terminal := rs_terminal s; rs_store := rs_store s |},
   out ++ [(rs_sequence s, e)]).

Definition emit_all (l : list StreamEvent) (w : Out) : Out := fold_left (fun w e => emit e w) l w.

Definition change (f : ResponsesStream -> ResponsesStream) (w : Out) : Out := (f w.1, w.2).

Definition with_content (content : ItemContent) (item : OutputItem) : OutputItem :=
  {| oi_id := oi_id item; oi_content := content; oi_status := oi_status item |}.

Definition with_status (status : string) (item : OutputItem) : OutputItem :=
  {| oi_id := oi_id item; oi_content := oi_content item; oi_status := status |}.

Definition in_progress (item : OutputItem) : bool := bool_decide (oi_status item = "in_progress").

(** [items[index] = item]. *)
Definition set_item (index : nat) (item : OutputItem) (w : Out) : Out :=
  change (set_items (<[index := item]> (rs_items w.1))) w.

(** What closes an item, before [ItemDone]. *)
Definition done_events (index : nat) (item : OutputItem) : list StreamEvent :=
  match oi_content item with
  | Message text => [TextDone index (oi_id item) text; PartDone index (oi_id item) text]
  | Reasoning text => [SummaryDone index (oi_id item) text; SummaryPartDone index (oi_id item) text]
  | Tool custom _ name _ input => [InputDone custom index (oi_id item) name input]
  end.

Section Stream.
Context (nonce : nat -> string).

Definition start (w : Out) : Out :=
  let template := ro_template (rs_options w.1) in
  emit_all [Created template; InProgress template] w.

Definition add (content : ItemContent) (w : Out) : nat * Out :=
  let index := length (rs_items w.1) in
  let item := new_item (nonce index) content in
  let w := emit (ItemAdded index item) w in
  (index, change (set_items (rs_items w.1 ++ [item])) w).

Definition close (index : nat) (status : string) (w : Out) : option Out :=
  item ← rs_items w.1 !! index;
  if negb (in_progress item) then Some w
  else Some (set_item index (with_status status item)
               (emit_all (done_events index item ++ [ItemDone index item status]) w)).

Definition close_text (w : Out) : option Out :=
  match rs_active_text w.1 with
  | Some index => close index "completed" (change (set_active None) w)
  | None => Some w
  end.

Definition reasoning (text : string) (w : Out) : Out :=
  let s := w.1 in
  if negb (ro_emit_reasoning_summary (rs_options s)) || is_empty text then w
  else if is_empty (rs_pending_reasoning s) && negb (has_substantive_reasoning_summary text) then w
  else change (set_pending (rs_pending_reasoning s +:+ text)) w.

Definition flush_reasoning (w : Out) : option Out :=
  let text := rs_pending_reasoning w.1 in
  let w := change (set_pending "") w in
  if negb (has_substantive_reasoning_summary text) then Some w
  else
    w ← close_text w;
    let '(index, w) := add (Reasoning text) w in
    item ← rs_items w.1 !! index;
    close index "completed" (emit (SummaryPartAdded index (oi_id item) text) w).

(** The message that text goes to. *)
Definition text_item (w : Out) : option (nat * Out) :=
  match rs_active_text w.1 with
  | Some index => Some (index, w)
  | None =>
      w ← close_text w;
      let '(index, w) := add (Message "") w in
      let w := change (set_active (Some index)) w in
      item ← rs_items w.1 !! index;
      Some (index, emit (PartAdded index (oi_id item)) w)
  end.

Definition text (text : string) (w : Out) : option Out :=
  if is_empty text then Some w
  else
    w ← flush_reasoning w;
    '(index, w) ← text_item w;
    item ← rs_items w.1 !! index;
    match oi_content item with
    | Message content =>
        let item := with_content (Message (content +:+ text)) item in
        Some (emit (TextDelta index (oi_id item) text) (set_item index item w))
    | _ => None
    end.

(** *** The end of a stream *)

(** [sanitize_error_message]. *)
Context (sanitize : string -> string).

Definition item_status (unfinished : string) (item : OutputItem) : string :=
  if in_progress item then unfinished else oi_status item.

Definition items_output (unfinished : string) (items : list OutputItem) : list value :=
  (fun item => item_json item (item_status unfinished item)) <$> items.

Definition error_json (code message : string) : value :=
  json_object [("code", Str code); ("message", Str (sanitize message))].

Definition fail_stream (code message : string) (w : Out) : Out :=
  let s := w.1 in
  if rs_terminal s then w
  else
    let response :=
      envelope (rs_options s) (items_output "incomplete" (rs_items s)) "failed" (rs_usage s)
        (error_json code message) in
    emit (Failed response) (change (fun s => set_terminal (set_pending "" s)) w).

Context (iter : Sessions -> list (string * StoredResponsesSession))
        (serialized : StoredResponsesSession -> option Z) (now : Z) (sessions : Sessions).

Fixpoint close_from (index count : nat) (status : string) (w : Out) : option Out :=
  match count with
  | O => Some w
  | S count => close index status w ≫= close_from (S index) count status
  end.

(** An answer without items gets an empty message. *)
Definition ensure_item (w : Out) : option Out :=
  if is_nil (rs_items w.1) then
    let '(index, w) := add (Message "") w in
    item ← rs_items w.1 !! index;
    Some (emit (PartAdded index (oi_id item)) w)
  else Some w.

Definition finish_status (s : ResponsesStream) : string :=
  if bool_decide (rs_finish_reason s = Some "length") then "incomplete" else "completed".

Definition finish (w : Out) : option Out :=
  let s := w.1 in
  if rs_terminal s then Some w
  else if is_none (rs_finish_reason s) || is_null (rs_usage s)
  then Some (fail_stream "incomplete_stream"
               "upstream stream ended without a finish reason and usage" w)
  else
    let status := finish_status s in
    w ← flush_reasoning w;
    w ← ensure_item w;
    let '(finalized, store) :=
      finalize iter serialized now (rs_options w.1) (items_output status (rs_items w.1)) status
        (rs_usage w.1) sessions in
    let w := change (set_store store) w in
    match finalized with
    | Err message => Some (fail_stream "response_store_failed" message w)
    | Ok response =>
        w ← close_from 0 (length (rs_items w.1)) status w;
        Some (change set_terminal (emit (Finished status response) w))
    end.

(** *** A chunk of the chat stream *)

(** The item of a call, made when its index is new; [None] within is a failure. *)
Definition tool_item (tool_index : Z) (call : value) (w : Out) : option nat * Out :=
  match rs_tool_indices w.1 !! tool_index with
  | Some index => (Some index, w)
  | None =>
      match tool_content (rs_options w.1) call with
      | Tool custom call_id name namespace input =>
          if is_empty call_id || is_empty name then (None, w)
          else
            let '(index, w) := add (Tool custom call_id name namespace "") w in
            (Some index, change (fun s => set_tool_indices (<[tool_index := index]> (rs_tool_indices s)) s) w)
      | _ => (None, w)
      end
  end.

Definition call_delta (custom : bool) (call : value) : string :=
  unwrap_or (pointer call [if custom then "custom" else "function"; if custom then "input" else "arguments"]
               ≫= as_str) "".

(** One call of a delta; the boolean says whether the stream goes on. *)
Definition tool_call (call : value) (w : Out) : option (bool * Out) :=
  match get call "index" ≫= as_u64 with
  | None => Some (false, fail_stream "invalid_stream" "tool delta is missing its index" w)
  | Some tool_index =>
      match tool_item tool_index call w with
      | (None, w) =>
          Some (false, fail_stream "invalid_stream" "tool delta is missing its call id or name" w)
      | (Some index, w) =>
          item ← rs_items w.1 !! index;
          match oi_content item with
          | Tool custom call_id name namespace input =>
              let added := call_delta custom call in
              let item := with_content (Tool custom call_id name namespace (input +:+ added)) item in
              let w := set_item index item w in
              Some (true, if is_empty added then w
                          else emit (InputDelta custom index (oi_id item) call_id added) w)
          | _ => None
          end
      end
  end.

Fixpoint tool_calls (calls : list value) (w : Out) : option (bool * Out) :=
  match calls with
  | [] => Some (true, w)
  | call :: calls =>
      match tool_call call w with
      | Some (true, w) => tool_calls calls w
      | other => other
      end
  end.

Definition choice (v : value) (w : Out) : option (bool * Out) :=
  let w :=
    match get_str v "finish_reason" with
    | Some reason => change (set_finish_reason (Some reason)) w
    | None => w
    end in
  let delta := unwrap_or (get v "delta") Null in
  let w := match get_str delta "reasoning_content" with Some t => reasoning t w | None => w end in
  w ← match get_str delta "content" with Some t => text t w | None => Some w end;
  match get delta "tool_calls" ≫= as_array with
  | None => Some (true, w)
  | Some calls =>
      w ← flush_reasoning w;
      w ← close_text w;
      tool_calls calls w
  end.

Fixpoint choices (l : list value) (w : Out) : option Out :=
  match l with
  | [] => Some w
  | v :: l =>
      match choice v w with
      | Some (true, w) => choices l w
      | Some (false, w) => Some w
      | None => None
      end
  end.

Definition chunk (chat : value) (w : Out) : option Out :=
  if rs_terminal w.1 then Some w
  else
    match get chat "error" with
    | Some error =>
        Some (fail_stream (unwrap_or (get_str error "code") "upstream_error")
                (unwrap_or (get_str error "message") "upstream stream failed") w)
    | None =>
        let w :=
          match opt_filter is_object (get chat "usage") with
          | Some usage => change (set_stream_usage (responses_usage usage)) w
          | None => w
          end in
        match get chat "choices" ≫= as_array with
        | None => Some (fail_stream "invalid_stream" "invalid internal OpenAI stream" w)
        | Some l => choices l w
        end
    end.

(** *** Frames *)

Context (parse_json : string -> option value).

(** [windows(n).position(|w| w == pattern)]. *)
Fixpoint position_of (pattern l : bytes) (index : nat) : option nat :=
  if is_some (strip_prefix_l pattern l) then Some index
  else match l with [] => None | _ :: l => position_of pattern l (S index) end.

Definition LF2 : bytes := ["010"; "010"]%char.
Definition CRLF2 : bytes := ["013"; "010"; "013"; "010"]%char.

Definition frame_end (buffer : bytes) : option (nat * nat) :=
  let lf := (fun index => (index, 2%nat)) <$> position_of LF2 buffer 0 in
  let crlf := (fun index => (index, 4%nat)) <$> position_of CRLF2 buffer 0 in
  min_by_key (fun e : nat * nat => Z.of_nat e.1) (option_list lf ++ option_list crlf).

Definition data_line (line : string) : option string :=
  (fun data => unwrap_or (strip_prefix data " ") data) <$> strip_prefix line "data:".

Definition frame_data (frame : string) : string := join newline (omap data_line (lines frame)).

(** What is sent for a frame: events, or a comment that keeps the connection. *)
Definition frame (bytes : bytes) (w : Out) : option (Out * bool) :=
  if negb (EventStream.utf8_valid bytes)
  then Some (fail_stream "invalid_stream" "invalid internal OpenAI event encoding" w, false)
  else
    let data := frame_data (l2s bytes) in
    if is_empty data then Some (w, negb (rs_terminal w.1))
    else if bool_decide (data = "[DONE]") then (fun w => (w, false)) <$> finish w
    else
      match parse_json data with
      | Some v => (fun w => (w, false)) <$> chunk v w
      | None => Some (fail_stream "invalid_stream" "invalid internal OpenAI event JSON" w, false)
      end.

(** [while let Some((end, delimiter)) = frame_end(&buffer)]; a frame takes at least
    its delimiter. *)
Fixpoint frames (fuel : nat) (buffer : bytes) (w : Out) : option (bytes * Out) :=
  match frame_end buffer with
  | None => Some (buffer, w)
  | Some (e, delimiter) =>
      match fuel with
      | O => None
      | S fuel =>
          match frame (take e buffer) w with
          | Some (w, _) => frames fuel (drop (e + delimiter) buffer) w
          | None => None
          end
      end
  end.

Definition MAX_FRAME_BYTES : Z := 16 * 1024 * 1024.

(** [None] in the input is an error of the connection. *)
Fixpoint pump (source : list (option bytes)) (buffer : bytes) (w : Out) : option Out :=
  match source with
  | [] => Some w
  | None :: _ => Some (fail_stream "incomplete_stream" "upstream stream was interrupted" w)
  | Some chunk :: source =>
      match frames (length (buffer ++ chunk)) (buffer ++ chunk) w with
      | None => None
      | Some (buffer, w) =>
          if (MAX_FRAME_BYTES <? Z.of_nat (length buffer))%Z
          then Some (fail_stream "invalid_stream" "internal OpenAI event exceeds the frame limit" w)
          else pump source buffer w
      end
  end.

Definition stream_response (o : ResponsesOptions) (source : list (option bytes)) : option Out :=
  w ← pump source [] (start (new_stream o, []));
  Some (if rs_terminal w.1 then w
        else fail_stream "incomplete_stream" "upstream stream ended before completion" w).
End Stream.
