(* ===== verification/ResponsesStreamFacts.v ===== *)
(** * A client can follow a Responses stream

    A client that reads the events one by one and insists on the protocol ([follow])
    accepts every stream and ends up with the items of the final response. *)

From Stdlib Require Import ZArith Lia Ascii String List.
From stdpp Require Import base list gmap sets tactics strings.
From S2P Require Import Prelude RustStr F64 Json Text Protocol Context Validate Responses ResponsesSession.
From S2P Require Import ResponsesStream.

Local Open Scope kproxy_scope.
Local Open Scope string_scope.
Local Open Scope list_scope.

(** ** A client *)

(** What it has seen: the items, and the event that ended the stream. *)
Record View := { vw_items : list OutputItem; vw_end : option StreamEvent }.

Definition view_items (items : list OutputItem) : View := {| vw_items := items; vw_end := None |}.

#[export] Instance content_eq_dec : EqDecision ItemContent.
Proof. solve_decision. Defined.

#[export] Instance item_eq_dec : EqDecision OutputItem.
Proof. solve_decision. Defined.

(** An item that has been added and is not done. *)
Definition open_item (index : nat) (id : string) (v : View) : option OutputItem :=
  match vw_items v !! index with
  | Some item => if in_progress item && bool_decide (oi_id item = id) then Some item else None
  | None => None
  end.

Definition put (index : nat) (item : OutputItem) (v : View) : View :=
  view_items (<[index := item]> (vw_items v)).

Definition when (condition : bool) (v : View) : option View := if condition then Some v else None.

Definition is_message (text : string) (item : OutputItem) : bool := bool_decide (oi_content item = Message text).
Definition is_reasoning (text : string) (item : OutputItem) : bool := bool_decide (oi_content item = Reasoning text).

Definition is_call (custom : bool) (name input : string) (content : ItemContent) : bool :=
  match content with
  | Tool custom' _ name' _ input' =>
      Bool.eqb custom' custom && bool_decide (name' = name) && bool_decide (input' = input)
  | _ => false
  end.

(** One event, if the protocol allows it. *)
Definition step (e : StreamEvent) (v : View) : option View :=
  if is_some (vw_end v) then None else
  match e with
  | Created _ | InProgress _ => when (is_nil (vw_items v)) v
  | ItemAdded index item =>
      when (bool_decide (index = length (vw_items v)) && in_progress item) (view_items (vw_items v ++ [item]))
  | PartAdded index id => item ← open_item index id v; when (is_message "" item) v
  | TextDelta index id delta =>
      item ← open_item index id v;
      match oi_content item with
      | Message text => Some (put index (with_content (Message (text +:+ delta)) item) v)
      | _ => None
      end
  | TextDone index id text | PartDone index id text => item ← open_item index id v; when (is_message text item) v
  | SummaryPartAdded index id text | SummaryDone index id text | SummaryPartDone index id text =>
      item ← open_item index id v; when (is_reasoning text item) v
  | InputDelta custom index id call_id delta =>
      item ← open_item index id v;
      match oi_content item with
      | Tool custom' call_id' name namespace input =>
          when (Bool.eqb custom' custom && bool_decide (call_id' = call_id))
            (put index (with_content (Tool custom' call_id' name namespace (input +:+ delta)) item) v)
      | _ => None
      end
  | InputDone custom index id name input =>
      item ← open_item index id v; when (is_call custom name input (oi_content item)) v
  | ItemDone index item status =>
      item' ← open_item index (oi_id item) v;
      when (bool_decide (item' = item) && negb (bool_decide (status = "in_progress")))
        (put index (with_status status item) v)
  | Finished _ _ =>
      when (forallb (fun item => negb (in_progress item)) (vw_items v)) {| vw_items := vw_items v; vw_end := Some e |}
  | Failed _ => Some {| vw_items := vw_items v; vw_end := Some e |}
  end.

Fixpoint follow (l : list StreamEvent) (v : View) : option View :=
  match l with
  | [] => Some v
  | e :: l => step e v ≫= follow l
  end.

(** What the last event says about the items. *)
Definition final_response (items : list OutputItem) (e : StreamEvent) : Prop :=
  match e with
  | Finished status response =>
      get_str response "status" = Some status
      /\ get response "output" = Some (Array ((fun item => item_json item (oi_status item)) <$> items))
  | Failed response =>
      get_str response "status" = Some "failed"
      /\ get response "output" = Some (Array (items_output "incomplete" items))
  | _ => False
  end.

Lemma follow_app l l' v : follow (l ++ l') v = follow l v ≫= follow l'.
Proof. revert v; induction l as [|e l IH]; intros v; [done|]. cbn [app follow]. destruct (step e v); cbn; auto. Qed.

Lemma append_empty s : s +:+ "" = s.
Proof. induction s as [|c s IH]; [done|]. change (String c (s +:+ "") = String c s). by rewrite IH. Qed.

(** ** The server's side *)

(** The events so far are numbered and lead to the items of the state. *)
Record Shown (w : Out) : Prop := {
  sh_follow : exists last, follow (snd <$> w.2) (view_items [])
                = Some {| vw_items := rs_items w.1; vw_end := last |}
              /\ is_some last = rs_terminal w.1
              /\ (forall e, last = Some e -> final_response (rs_items w.1) e);
  sh_numbers : fst <$> w.2 = Z.of_nat <$> seq 0 (length w.2);
  sh_sequence : rs_sequence w.1 = Z.of_nat (length w.2);
  sh_template : is_object (ro_template (rs_options w.1)) = true;
}.

(** The text and the calls that may still grow. *)
Record Live (s : ResponsesStream) : Prop := {
  lv_active : forall index, rs_active_text s = Some index ->
    exists item text, rs_items s !! index = Some item /\ in_progress item = true /\ oi_content item = Message text;
  lv_tools : forall k index, rs_tool_indices s !! k = Some index ->
    exists item custom id name namespace input,
      rs_items s !! index = Some item /\ in_progress item = true
      /\ oi_content item = Tool custom id name namespace input;
}.

(** Everything but the items and the number of the next event. *)
Definition same_rest (s s' : ResponsesStream) : Prop :=
  rs_options s' = rs_options s /\ rs_active_text s' = rs_active_text s
  /\ rs_pending_reasoning s' = rs_pending_reasoning s /\ rs_tool_indices s' = rs_tool_indices s
  /\ rs_usage s' = rs_usage s /\ rs_finish_reason s' = rs_finish_reason s
  /\ rs_terminal s' = rs_terminal s /\ rs_store s' = rs_store s.

#[export] Instance same_rest_preorder : PreOrder same_rest.
Proof.
  split; [by intros s|]. intros s1 s2 s3 (A1 & A2 & A3 & A4 & A5 & A6 & A7 & A8) (B1 & B2 & B3 & B4 & B5 & B6 & B7 & B8).
  unfold same_rest. split_and!; congruence.
Qed.

(** An event is shown when a client can take it. *)
Lemma Shown_emit e w (w' : Out) :
  Shown w -> rs_terminal w.1 = false ->
  step e (view_items (rs_items w.1)) = Some (view_items (rs_items w'.1)) ->
  w'.2 = w.2 ++ [(rs_sequence w.1, e)] -> rs_sequence w'.1 = (rs_sequence w.1 + 1)%Z ->
  rs_options w'.1 = rs_options w.1 -> rs_terminal w'.1 = false ->
  Shown w'.
Proof.
  intros [(last & Hf & Hl & _) Hn Hs Ht] Hover Hstep Hout Hseq Hopt Hover'. split.
  - exists None. split; [|split; [by rewrite Hover'|done]].
    rewrite Hover in Hl. destruct last; [done|]. rewrite Hout, fmap_app, follow_app, Hf.
    cbn [mbind option_bind fmap list_fmap follow snd].
    change {| vw_items := rs_items w.1; vw_end := None |} with (view_items (rs_items w.1)). by rewrite Hstep.
  - rewrite Hout, fmap_app, Hn, length_app, seq_app, fmap_app. cbn. by rewrite Hs.
  - rewrite Hseq, Hs, Hout, length_app. cbn. lia.
  - by rewrite Hopt.
Qed.

(** The last event. *)
Lemma Shown_end e w (w' : Out) :
  Shown w -> rs_terminal w.1 = false ->
  step e (view_items (rs_items w.1)) = Some {| vw_items := rs_items w.1; vw_end := Some e |} ->
  final_response (rs_items w.1) e ->
  w'.2 = w.2 ++ [(rs_sequence w.1, e)] -> rs_sequence w'.1 = (rs_sequence w.1 + 1)%Z ->
  rs_options w'.1 = rs_options w.1 -> rs_items w'.1 = rs_items w.1 -> rs_terminal w'.1 = true ->
  Shown w'.
Proof.
  intros [(last & Hf & Hl & _) Hn Hs Ht] Hover Hstep Hfinal Hout Hseq Hopt Hitems Hover'. split.
  - exists (Some e). rewrite Hitems. split; [|split; [by rewrite Hover'|by intros ? [= <-]]].
    rewrite Hover in Hl. destruct last; [done|]. rewrite Hout, fmap_app, follow_app, Hf.
    cbn [mbind option_bind fmap list_fmap follow snd].
    change {| vw_items := rs_items w.1; vw_end := None |} with (view_items (rs_items w.1)). by rewrite Hstep.
  - rewrite Hout, fmap_app, Hn, length_app, seq_app, fmap_app. cbn. by rewrite Hs.
  - rewrite Hseq, Hs, Hout, length_app. cbn. lia.
  - by rewrite Hopt.
Qed.

(** A change that no client sees. *)
Lemma Shown_change f w :
  Shown w -> rs_items (f w.1) = rs_items w.1 -> rs_sequence (f w.1) = rs_sequence w.1 ->
  rs_options (f w.1) = rs_options w.1 -> rs_terminal (f w.1) = rs_terminal w.1 -> Shown (change f w).
Proof.
  intros [(last & Hf & Hl & He) Hn Hs Ht] H1 H2 H3 H4. split; cbn [change fst snd].
  - exists last. by rewrite H1, H4.
  - done.
  - by rewrite H2.
  - by rewrite H3.
Qed.

(** ** Items *)

Lemma open_item_of items index item :
  items !! index = Some item -> in_progress item = true ->
  open_item index (oi_id item) (view_items items) = Some item.
Proof. intros H1 H2. unfold open_item. cbn. rewrite H1, H2. by rewrite bool_decide_eq_true_2. Qed.

Lemma emit_same e w : same_rest w.1 (emit e w).1 /\ rs_items (emit e w).1 = rs_items w.1.
Proof. by destruct w as [[]]. Qed.

(** An event that leaves the client's items as they are. *)
Lemma Shown_quiet e w :
  Shown w -> rs_terminal w.1 = false ->
  step e (view_items (rs_items w.1)) = Some (view_items (rs_items w.1)) -> Shown (emit e w).
Proof. intros Hw Ht Hs. by destruct w as [[]]; eapply (Shown_emit e); [exact Hw|..]. Qed.

Section Operations.
Context (nonce : nat -> string).

Lemma add_spec content w :
  Shown w -> rs_terminal w.1 = false ->
  exists w', add nonce content w = (length (rs_items w.1), w') /\ Shown w' /\ same_rest w.1 w'.1
    /\ rs_items w'.1 = rs_items w.1 ++ [new_item (nonce (length (rs_items w.1))) content].
Proof.
  intros Hw Ht. eexists. split; [reflexivity|]. split; [|by destruct w as [[]]].
  eapply (Shown_emit (ItemAdded _ _)); [exact Hw|exact Ht| |by destruct w as [[]]..].
  destruct w as [s out]. cbn. by rewrite bool_decide_eq_true_2.
Qed.

Lemma done_quiet index item e items :
  items !! index = Some item -> in_progress item = true -> e ∈ done_events index item ->
  step e (view_items items) = Some (view_items items).
Proof.
  intros Hi Hp. pose proof (open_item_of _ _ _ Hi Hp) as Ho. unfold done_events.
  destruct (oi_content item) as [text|text|custom call_id name namespace input] eqn:Ec;
    rewrite ?elem_of_cons, ?elem_of_nil; intros He; destruct_or!; subst; try done;
    unfold step; cbn [vw_end view_items is_some]; fold (view_items items); rewrite Ho; cbn [mbind option_bind];
    unfold is_message, is_reasoning, is_call; rewrite Ec; rewrite ?bool_decide_eq_true_2 by done; try done.
  by destruct custom.
Qed.

Lemma emit_all_quiet l w :
  Shown w -> rs_terminal w.1 = false ->
  (forall e, e ∈ l -> step e (view_items (rs_items w.1)) = Some (view_items (rs_items w.1))) ->
  Shown (emit_all l w) /\ same_rest w.1 (emit_all l w).1 /\ rs_items (emit_all l w).1 = rs_items w.1.
Proof.
  revert w; induction l as [|e l IH]; intros w Hw Ht Hl; [done|]. cbn [emit_all fold_left].
  destruct (emit_same e w) as [Hr Hi].
  destruct (IH (emit e w)) as (H1 & H2 & H3).
  - apply Shown_quiet; [done|done|]. apply Hl. by left.
  - by rewrite (proj1 (proj2 (proj2 (proj2 (proj2 (proj2 (proj2 Hr))))))).
  - rewrite Hi. intros e' He'. apply Hl. by right.
  - split; [done|]. split; [by etrans|]. by rewrite <- Hi.
Qed.

Lemma close_spec index status item w :
  Shown w -> rs_terminal w.1 = false -> rs_items w.1 !! index = Some item -> status <> "in_progress" ->
  exists w', close index status w = Some w' /\ Shown w' /\ same_rest w.1 w'.1
    /\ rs_items w'.1
       = if in_progress item then <[index := with_status status item]> (rs_items w.1) else rs_items w.1.
Proof.
  intros Hw Ht Hi Hst. unfold close. rewrite Hi. cbn [mbind option_bind].
  destruct (in_progress item) eqn:Hp; cbn [negb]; [|by exists w].
  unfold emit_all. rewrite fold_left_app. cbn [fold_left].
  change (fold_left (fun w e => emit e w) (done_events index item) w) with (emit_all (done_events index item) w).
  destruct (emit_all_quiet (done_events index item) w Hw Ht) as (H1 & H2 & H3).
  { intros e He. by eapply done_quiet. }
  set (w1 := emit_all _ w) in *. eexists. split; [reflexivity|].
  destruct (emit_same (ItemDone index item status) w1) as [Hr Hi1].
  assert (Ht1 : rs_terminal w1.1 = false) by (destruct H2 as (_ & _ & _ & _ & _ & _ & -> & _); done).
  split; [|split].
  - eapply (Shown_emit (ItemDone index item status) w1); [done|done| |by destruct w1 as [[]]..].
    cbn [step view_items vw_end is_some]. rewrite open_item_of by (rewrite ?H3; done).
    cbn [mbind option_bind]. rewrite !bool_decide_eq_true_2, bool_decide_eq_false_2 by done. cbn.
    by destruct w1 as [[]].
  - etrans; [exact H2|]. etrans; [exact Hr|]. by destruct w1 as [[]].
  - destruct w1 as [[]]; cbn in *. by rewrite H3.
Qed.

(** ** What stays live *)

Definition same_shape (c c' : ItemContent) : Prop :=
  match c, c' with
  | Message _, Message _ => True
  | Tool _ _ _ _ _, Tool _ _ _ _ _ => True
  | _, _ => False
  end.

(** The items still growing are still there. *)
Definition kept (items items' : list OutputItem) : Prop :=
  forall index item, items !! index = Some item -> in_progress item = true ->
  (exists text, oi_content item = Reasoning text)
  \/ exists item', items' !! index = Some item' /\ in_progress item' = true
                  /\ same_shape (oi_content item) (oi_content item').

Lemma Live_kept s s' :
  Live s -> kept (rs_items s) (rs_items s') ->
  (forall index, rs_active_text s' = Some index -> rs_active_text s = Some index) ->
  rs_tool_indices s' = rs_tool_indices s -> Live s'.
Proof.
  intros [Ha Ht] Hk Hact Htool. split.
  - intros index H. destruct (Ha index (Hact _ H)) as (item & t & Hi & Hp & Hc).
    destruct (Hk index item Hi Hp) as [(t' & E)|(item' & Hi' & Hp' & Hs)]; [congruence|].
    exists item'. rewrite Hc in Hs. destruct (oi_content item') as [t'| |] eqn:E; [|done..]. by exists t'.
  - intros k index H. rewrite Htool in H. destruct (Ht k index H) as (item & c & id & n & ns & inp & Hi & Hp & Hc).
    destruct (Hk index item Hi Hp) as [(t' & E)|(item' & Hi' & Hp' & Hs)]; [congruence|].
    exists item'. rewrite Hc in Hs. destruct (oi_content item') as [| |c' id' n' ns' inp'] eqn:E; [done..|].
    by exists c', id', n', ns', inp'.
Qed.

Lemma same_shape_refl c : (forall text, c <> Reasoning text) -> same_shape c c.
Proof. destruct c as [|t|]; cbn; [done| |done]. intros H. by destruct (H t). Qed.

Lemma kept_same items : kept items items.
Proof.
  intros index item Hi Hp. destruct (oi_content item) as [t|t|] eqn:E; [|left; by exists t|];
    right; exists item; by rewrite E.
Qed.

Lemma kept_app items l : kept items (items ++ l).
Proof.
  intros index item Hi Hp. destruct (kept_same items index item Hi Hp) as [?|(item' & Hi' & ?)]; [by left|].
  right. exists item'. split; [|done]. by apply lookup_app_l_Some.
Qed.

Lemma kept_insert items index item item' :
  items !! index = Some item -> in_progress item' = true -> same_shape (oi_content item) (oi_content item') ->
  kept items (<[index := item']> items).
Proof.
  intros Hi Hp Hs i it Hit Hpi. destruct (decide (i = index)) as [->|Hne].
  - right. exists item'. rewrite list_lookup_insert_eq by (by eapply lookup_lt_Some). by simplify_eq.
  - rewrite list_lookup_insert_ne by done. by apply (kept_same items i it).
Qed.

(** A stream that has not ended. *)
Record Running (w : Out) : Prop := {
  rn_shown : Shown w;
  rn_live : Live w.1;
  rn_over : rs_terminal w.1 = false;
}.

Lemma Running_step w w' :
  Running w -> Shown w' -> same_rest w.1 w'.1 -> kept (rs_items w.1) (rs_items w'.1) -> Running w'.
Proof.
  intros [H1 H2 H3] Hs (_ & A & _ & T & _ & _ & O & _) Hk. split; [done| |congruence].
  eapply Live_kept; [exact H2|exact Hk| |exact T]. by rewrite A.
Qed.

(** A change of what no client sees and no item depends on. *)
Lemma Running_change f w :
  Running w -> rs_items (f w.1) = rs_items w.1 -> rs_sequence (f w.1) = rs_sequence w.1 ->
  rs_options (f w.1) = rs_options w.1 -> rs_terminal (f w.1) = rs_terminal w.1 ->
  (rs_active_text (f w.1) = rs_active_text w.1 \/ rs_active_text (f w.1) = None) ->
  rs_tool_indices (f w.1) = rs_tool_indices w.1 -> Running (change f w).
Proof.
  intros [H1 H2 H3] E1 E2 E3 E4 E5 E6. split; [by apply Shown_change| |by cbn; rewrite E4].
  eapply Live_kept; [exact H2| | |exact E6].
  - cbn. rewrite E1. apply kept_same.
  - cbn. intros index Hi. destruct E5 as [E5|E5]; congruence.
Qed.

Lemma add_running content w :
  Running w ->
  exists w', add nonce content w = (length (rs_items w.1), w') /\ Running w' /\ same_rest w.1 w'.1
    /\ rs_items w'.1 = rs_items w.1 ++ [new_item (nonce (length (rs_items w.1))) content].
Proof.
  intros Hw. destruct (add_spec content w) as (w' & E & Hs & Hr & Hi); [apply Hw..|].
  exists w'. split; [done|]. split; [|done]. eapply Running_step; [exact Hw|done|done|]. rewrite Hi. apply kept_app.
Qed.

Lemma Running_quiet e w :
  Running w -> step e (view_items (rs_items w.1)) = Some (view_items (rs_items w.1)) ->
  Running (emit e w) /\ rs_items (emit e w).1 = rs_items w.1 /\ same_rest w.1 (emit e w).1.
Proof.
  intros Hw Hs. destruct (emit_same e w) as [Hr Hi]. split; [|done].
  eapply Running_step; [exact Hw|apply Shown_quiet; [apply Hw|apply Hw|done]|done|]. rewrite Hi. apply kept_same.
Qed.

(** No text and no call is waiting for this item. *)
Definition settled (index : nat) (s : ResponsesStream) : Prop :=
  rs_active_text s <> Some index /\ forall k, rs_tool_indices s !! k <> Some index.

Lemma close_running index status item w :
  Running w -> rs_items w.1 !! index = Some item -> status <> "in_progress" -> settled index w.1 ->
  exists w', close index status w = Some w' /\ Running w' /\ same_rest w.1 w'.1.
Proof.
  intros [Hs [Ha Ht] Ho] Hi Hst [H1 H2].
  destruct (close_spec index status item w Hs Ho Hi Hst) as (w' & E & Hs' & Hr & Hi').
  exists w'. split_and!; [done| |done]. destruct Hr as (_ & A & _ & T & _ & _ & O & _).
  assert (Hne : forall i, i <> index -> rs_items w'.1 !! i = rs_items w.1 !! i).
  { intros i Hne. rewrite Hi'. destruct (in_progress item); [by apply list_lookup_insert_ne|done]. }
  split; [done| |congruence]. split.
  - intros i Hact. rewrite A in Hact. rewrite Hne by congruence. by apply Ha.
  - intros k i Htool. rewrite T in Htool. rewrite Hne by (intros ->; by eapply H2). by eapply Ht.
Qed.

Lemma close_text_running w :
  Running w -> exists w', close_text w = Some w' /\ Running w'.
Proof.
  intros Hw. unfold close_text. destruct (rs_active_text w.1) as [index|] eqn:Ha; [|by exists w].
  destruct (lv_active _ (rn_live _ Hw) index Ha) as (item & t & Hi & Hp & Hc).
  assert (Hw1 : Running (change (set_active None) w)) by (apply Running_change; solve [done|by left|by right]).
  destruct (close_running index "completed" item _ Hw1 Hi) as (w' & E & Hw' & _); [done| |by exists w'].
  split; [done|]. intros k Hk. destruct (lv_tools _ (rn_live _ Hw) k index Hk) as (it & c & id & n & ns & inp & Hi2 & _ & Hc2).
  congruence.
Qed.

Lemma fresh_settled index w : Running w -> (length (rs_items w.1) <= index)%nat -> settled index w.1.
Proof.
  intros Hw Hl. split.
  - intros H. destruct (lv_active _ (rn_live _ Hw) index H) as (it & t & Hi & _). apply lookup_lt_Some in Hi. lia.
  - intros k H. destruct (lv_tools _ (rn_live _ Hw) k index H) as (it & c & id & n & ns & inp & Hi & _).
    apply lookup_lt_Some in Hi. lia.
Qed.

Lemma settled_rest index s s' : same_rest s s' -> settled index s -> settled index s'.
Proof. intros (_ & A & _ & T & _) [H1 H2]. split; [by rewrite A|by rewrite T]. Qed.

(** A fresh item and the event that follows it. *)
Lemma add_part content e w :
  Running w ->
  (forall items item, item = new_item (nonce (length items)) content -> rs_items w.1 = items ->
     step (e (length items) (oi_id item)) (view_items (items ++ [item])) = Some (view_items (items ++ [item]))) ->
  exists w' item,
    (let '(index, w) := add nonce content w in
     item ← rs_items w.1 !! index; Some (index, emit (e index (oi_id item)) w))
      = Some (length (rs_items w.1), w')
    /\ Running w' /\ same_rest w.1 w'.1 /\ rs_items w'.1 = rs_items w.1 ++ [item]
    /\ oi_content item = content /\ in_progress item = true.
Proof.
  intros Hw Hstep. destruct (add_running content w Hw) as (w1 & -> & Hw1 & Hr & Hi).
  set (item := new_item _ content) in *. rewrite Hi, list_lookup_middle by done. cbn [mbind option_bind].
  destruct (Running_quiet (e (length (rs_items w.1)) (oi_id item)) w1 Hw1) as (Hw2 & Hi2 & Hr2).
  { rewrite Hi. by apply Hstep. }
  eexists _, item. split; [reflexivity|]. split_and!; [done|by etrans|congruence|done|by apply bool_decide_eq_true_2].
Qed.

Lemma flush_running w :
  Running w -> exists w', flush_reasoning nonce w = Some w' /\ Running w'.
Proof.
  intros Hw. unfold flush_reasoning. set (t := rs_pending_reasoning w.1).
  assert (Hw1 : Running (change (set_pending "") w)) by (apply Running_change; solve [done|by left|by right]).
  destruct (negb _); [by eexists|].
  destruct (close_text_running _ Hw1) as (w2 & -> & Hw2). cbn [mbind option_bind].
  destruct (add_part (Reasoning t) (fun i id => SummaryPartAdded i id t) w2 Hw2)
    as (w3 & item & E & Hw3 & Hr & Hi & Hc & Hp).
  { intros items item -> _. cbn [step vw_end view_items is_some].
    change {| vw_items := items ++ [?i]; vw_end := None |} with (view_items (items ++ [i])).
    rewrite open_item_of; [|by rewrite list_lookup_middle|by apply bool_decide_eq_true_2].
    cbn [mbind option_bind]. unfold is_reasoning. by rewrite bool_decide_eq_true_2. }
  destruct (add nonce (Reasoning t) w2) as [index w4]. cbn in E.
  destruct (rs_items w4.1 !! index) as [it|] eqn:El; [|done]. cbn in E. injection E as -> <-. cbn [mbind option_bind].
  destruct (close_running (length (rs_items w2.1)) "completed" item _ Hw3) as (w5 & E5 & Hw5 & _).
  - by rewrite Hi, list_lookup_middle.
  - done.
  - eapply settled_rest; [exact Hr|]. by apply fresh_settled.
  - by exists w5.
Qed.

(** The empty message that text or the end of an answer begins. *)
Lemma add_message w :
  Running w ->
  exists w' item,
    (let '(index, w) := add nonce (Message "") w in
     item ← rs_items w.1 !! index; Some (index, emit (PartAdded index (oi_id item)) w))
      = Some (length (rs_items w.1), w')
    /\ Running w' /\ same_rest w.1 w'.1 /\ rs_items w'.1 = rs_items w.1 ++ [item]
    /\ oi_content item = Message "" /\ in_progress item = true.
Proof.
  intros Hw. apply add_part; [done|]. intros items item -> _. cbn [step vw_end view_items is_some].
  change {| vw_items := items ++ [?i]; vw_end := None |} with (view_items (items ++ [i])).
  rewrite open_item_of; [|by rewrite list_lookup_middle|by apply bool_decide_eq_true_2].
  cbn [mbind option_bind]. unfold is_message. by rewrite bool_decide_eq_true_2.
Qed.

(** An item that grows by what an event says. *)
Lemma grow_running e index item item' w :
  Running w -> rs_items w.1 !! index = Some item -> in_progress item' = true ->
  same_shape (oi_content item) (oi_content item') ->
  step e (view_items (rs_items w.1)) = Some (put index item' (view_items (rs_items w.1))) ->
  Running (emit e (set_item index item' w)).
Proof.
  intros Hw Hi Hp Hs Hstep. eapply Running_step; [exact Hw| |by destruct w as [[]]|].
  - eapply (Shown_emit e w); [apply Hw|apply Hw|exact Hstep|by destruct w as [[]]..|].
    pose proof (rn_over _ Hw). by destruct w as [[]].
  - destruct w as [[]]; cbn in *. by eapply kept_insert.
Qed.

Lemma text_item_running w :
  Running w -> exists index w' item content, text_item nonce w = Some (index, w') /\ Running w'
    /\ rs_items w'.1 !! index = Some item /\ oi_content item = Message content /\ in_progress item = true.
Proof.
  intros Hw. unfold text_item. destruct (rs_active_text w.1) as [index|] eqn:Ha.
  { destruct (lv_active _ (rn_live _ Hw) index Ha) as (item & t & Hi & Hp & Hc). by exists index, w, item, t. }
  unfold close_text. rewrite Ha. cbn [mbind option_bind].
  destruct (add_message w Hw) as (w2 & item & E & Hw2 & Hr & Hi & Hc & Hp).
  destruct (add nonce (Message "") w) as [index w1]. cbn [change fst snd set_items] in *.
  destruct (rs_items w1.1 !! index) as [it|] eqn:El; [|done]. cbn in E. injection E as -> E.
  cbn [set_active rs_items]. rewrite El. cbn [mbind option_bind].
  eexists _, _, item, ""%string. split; [reflexivity|].
  assert (Heq : forall e, emit e (change (set_active (Some (length (rs_items w.1)))) w1)
                     = change (set_active (Some (length (rs_items w.1)))) (emit e w1)) by (by destruct w1).
  unfold change in Heq. rewrite Heq, E.
  assert (Hlast : rs_items w2.1 !! length (rs_items w.1) = Some item) by (by rewrite Hi, list_lookup_middle).
  split; [|done]. destruct Hw2 as [Hs2 [_ Ht2] Ho2]. split; [by apply (Shown_change (set_active _))| |done].
  split; [|exact Ht2]. intros index [= <-]. by exists item, ""%string.
Qed.

Lemma text_running t w : Running w -> exists w', text nonce t w = Some w' /\ Running w'.
Proof.
  intros Hw. unfold text. destruct (is_empty t); [by exists w|].
  destruct (flush_running w Hw) as (w1 & -> & Hw1). cbn [mbind option_bind].
  destruct (text_item_running w1 Hw1) as (index & w2 & item & content & -> & Hw2 & Hi & Hc & Hp).
  cbn [mbind option_bind]. rewrite Hi. cbn [mbind option_bind]. rewrite Hc. eexists. split; [reflexivity|].
  eapply grow_running; [done|exact Hi|done|by rewrite Hc|].
  cbn [step vw_end view_items is_some]. change {| vw_items := rs_items w2.1; vw_end := None |} with (view_items (rs_items w2.1)).
  rewrite (open_item_of _ _ item) by done. cbn [mbind option_bind]. by rewrite Hc.
Qed.

Lemma reasoning_running t w : Running w -> Running (reasoning t w).
Proof. intros Hw. unfold reasoning. repeat case_match; try done. apply Running_change; solve [done|by left]. Qed.

(** ** The end *)

Lemma envelope_spec o output status usage error :
  is_object (ro_template o) = true ->
  get_str (envelope o output status usage error) "status" = Some status
  /\ get (envelope o output status usage error) "output" = Some (Array output).
Proof.
  unfold envelope, set_entries. intros Ho. destruct (ro_template o) as [| | | | |m]; try done.
  unfold get_str, get. destruct (bool_decide (status = "failed") && is_some (ro_session o)),
    (bool_decide (status = "incomplete")); cbn -[obj_insert obj_get];
    split; rewrite ?obj_get_insert_eq, ?obj_get_insert_ne by done;
    rewrite ?obj_get_insert_eq, ?obj_get_insert_ne by done; rewrite ?obj_get_insert_eq, ?obj_get_insert_ne by done;
    rewrite ?obj_get_insert_eq; done.
Qed.

(** A stream that has ended, or goes on. *)
Definition Sound (w : Out) : Prop := Running w \/ (Shown w /\ rs_terminal w.1 = true).

Lemma Sound_Shown w : Sound w -> Shown w.
Proof. by intros [[]|[]]. Qed.

Context (sanitize : string -> string).

Lemma fail_sound code message w :
  Sound w -> Shown (fail_stream sanitize code message w) /\ rs_terminal (fail_stream sanitize code message w).1 = true.
Proof.
  intros [Hw|[Hw Ho]]; unfold fail_stream; [|by rewrite Ho].
  rewrite (rn_over _ Hw). set (response := envelope _ _ _ _ _). split; [|by destruct w as [[]]].
  eapply (Shown_end (Failed response) w); [apply Hw|apply Hw|done| |by destruct w as [[]]..].
  apply envelope_spec, (sh_template _ (rn_shown _ Hw)).
Qed.

Lemma fail_Sound code message w : Sound w -> Sound (fail_stream sanitize code message w).
Proof. intros Hw. right. by apply fail_sound. Qed.

Lemma tool_item_running k call w :
  Running w ->
  match tool_item nonce k call w with
  | (None, w') => Running w'
  | (Some index, w') => Running w' /\ exists item custom id name namespace input,
      rs_items w'.1 !! index = Some item /\ in_progress item = true
      /\ oi_content item = Tool custom id name namespace input
  end.
Proof.
  intros Hw. unfold tool_item. destruct (rs_tool_indices w.1 !! k) as [index|] eqn:Hk.
  { split; [done|]. by apply (lv_tools _ (rn_live _ Hw) k). }
  destruct (tool_content _ _) as [| |custom id name namespace input]; [done..|].
  destruct (_ || _); [done|].
  destruct (add_running (Tool custom id name namespace "") w Hw) as (w1 & -> & Hw1 & Hr & Hi).
  set (item := new_item _ _) in *.
  assert (Hlast : rs_items w1.1 !! length (rs_items w.1) = Some item) by (by rewrite Hi, list_lookup_middle).
  assert (Hp : in_progress item = true) by (by apply bool_decide_eq_true_2).
  split; [|by exists item, custom, id, name, namespace, ""%string].
  destruct Hw1 as [Hs1 [Ha1 Ht1] Ho1]. split; [by apply Shown_change| |done]. split; [exact Ha1|].
  intros k' index. cbn. intros [[<- <-]|[_ H]]%lookup_insert_Some; [|by eapply Ht1].
  by exists item, custom, id, name, namespace, ""%string.
Qed.

Lemma tool_call_running call w :
  Running w -> exists more w', tool_call nonce sanitize call w = Some (more, w') /\ Sound w' /\ (more = true -> Running w').
Proof.
  intros Hw. unfold tool_call. destruct (get call "index" ≫= as_u64) as [k|].
  2:{ eexists _, _. split; [reflexivity|]. split; [|done]. apply fail_Sound. by left. }
  pose proof (tool_item_running k call w Hw) as H. destruct (tool_item nonce k call w) as [[index|] w1].
  2:{ eexists _, _. split; [reflexivity|]. split; [|done]. apply fail_Sound. by left. }
  destruct H as (Hw1 & item & custom & id & name & namespace & input & Hi & Hp & Hc).
  rewrite Hi. cbn [mbind option_bind]. rewrite Hc. eexists _, _. split; [reflexivity|].
  set (item' := with_content _ item). cut (Running (if is_empty (call_delta custom call) then set_item index item' w1
    else emit (InputDelta custom index (oi_id item') id (call_delta custom call)) (set_item index item' w1))).
  { intros H. split; [by left|done]. }
  destruct (is_empty (call_delta custom call)) eqn:He.
  - assert (item' = item) as ->.
    { subst item'. destruct (call_delta custom call); [|done]. unfold with_content. rewrite append_empty, <- Hc. by destruct item. }
    unfold set_item. rewrite list_insert_id by done. apply Running_change; solve [done|by left].
  - eapply grow_running; [done|exact Hi|done|by rewrite Hc|].
    cbn [step vw_end view_items is_some]. change {| vw_items := rs_items w1.1; vw_end := None |} with (view_items (rs_items w1.1)).
    rewrite (open_item_of _ _ item) by done. cbn [mbind option_bind]. rewrite Hc.
    rewrite Bool.eqb_reflx, bool_decide_eq_true_2 by done. done.
Qed.

Lemma tool_calls_running calls w :
  Running w -> exists more w', tool_calls nonce sanitize calls w = Some (more, w') /\ Sound w' /\ (more = true -> Running w').
Proof.
  revert w; induction calls as [|call calls IH]; intros w Hw; cbn [tool_calls].
  { exists true, w. split; [done|]. split; [by left|done]. }
  destruct (tool_call_running call w Hw) as (more & w1 & -> & Hs & Hr). destruct more; [by apply IH, Hr|].
  by exists false, w1.
Qed.

Lemma choice_running v w :
  Running w -> exists more w', choice nonce sanitize v w = Some (more, w') /\ Sound w' /\ (more = true -> Running w').
Proof.
  intros Hw. unfold choice.
  set (w1 := match get_str v "finish_reason" with Some _ => _ | None => _ end).
  assert (Hw1 : Running w1) by (subst w1; case_match; [apply Running_change; solve [done|by left]|done]). clearbody w1.
  set (w2 := match get_str _ "reasoning_content" with Some _ => _ | None => _ end).
  assert (Hw2 : Running w2) by (subst w2; case_match; [by apply reasoning_running|done]). clearbody w2.
  assert (H3 : exists w3, match get_str (unwrap_or (get v "delta") Null) "content" with
                          | Some t => text nonce t w2 | None => Some w2 end = Some w3 /\ Running w3).
  { case_match; [by apply text_running|by exists w2]. }
  destruct H3 as (w3 & -> & Hw3). cbn [mbind option_bind]. case_match; [|exists true, w3; split; [done|]; split; [by left|done]].
  destruct (flush_running w3 Hw3) as (w4 & -> & Hw4). cbn [mbind option_bind].
  destruct (close_text_running w4 Hw4) as (w5 & -> & Hw5). cbn [mbind option_bind]. by apply tool_calls_running.
Qed.

Lemma choices_sound l w : Running w -> exists w', choices nonce sanitize l w = Some w' /\ Sound w'.
Proof.
  revert w; induction l as [|v l IH]; intros w Hw; cbn [choices]; [exists w; split; [done|by left]|].
  destruct (choice_running v w Hw) as (more & w1 & -> & Hs & Hr). destruct more; [by apply IH, Hr|by exists w1].
Qed.

Lemma chunk_sound chat w : Sound w -> exists w', chunk nonce sanitize chat w = Some w' /\ Sound w'.
Proof.
  intros Hw. unfold chunk. destruct (rs_terminal w.1) eqn:Ho; [by exists w|].
  destruct (get chat "error"). { eexists. split; [reflexivity|]. by apply fail_Sound. }
  assert (Hr : Running w) by (destruct Hw as [?|[_ ?]]; [done|congruence]).
  set (w1 := match opt_filter _ _ with Some _ => _ | None => _ end).
  assert (Hw1 : Running w1) by (subst w1; case_match; [apply Running_change; solve [done|by left]|done]). clearbody w1.
  destruct (get chat "choices" ≫= as_array); [by apply choices_sound|].
  eexists. split; [reflexivity|]. apply fail_Sound. by left.
Qed.

Definition finished (status : string) (item : OutputItem) : OutputItem :=
  if in_progress item then with_status status item else item.

Lemma close_from_spec status count index w :
  Shown w -> rs_terminal w.1 = false -> status <> "in_progress" -> (index + count = length (rs_items w.1))%nat ->
  exists w', close_from index count status w = Some w' /\ Shown w' /\ same_rest w.1 w'.1
    /\ rs_items w'.1 = take index (rs_items w.1) ++ (finished status <$> drop index (rs_items w.1)).
Proof.
  intros Hs Ho Hst. revert index w Hs Ho; induction count as [|count IH]; intros index w Hs Ho Hl; cbn [close_from].
  { exists w. rewrite drop_ge, take_ge by lia. by rewrite app_nil_r. }
  destruct (lookup_lt_is_Some_2 (rs_items w.1) index ltac:(lia)) as [item Hi].
  destruct (close_spec index status item w Hs Ho Hi Hst) as (w1 & -> & Hs1 & Hr1 & Hi1). cbn [mbind option_bind].
  assert (Hi1' : rs_items w1.1 = <[index := finished status item]> (rs_items w.1)).
  { unfold finished. destruct (in_progress item); [done|]. by rewrite list_insert_id. }
  assert (Ho1 : rs_terminal w1.1 = false) by (destruct Hr1 as (_ & _ & _ & _ & _ & _ & -> & _); done).
  destruct (IH (S index) w1 Hs1 Ho1) as (w2 & -> & Hs2 & Hr2 & Hi2); [rewrite Hi1', length_insert; lia|].
  exists w2. split_and!; [done|done|by etrans|].
  rewrite Hi2, Hi1'. rewrite drop_insert_lt by lia. rewrite (drop_S _ _ _ Hi), fmap_cons.
  rewrite take_insert_lt by lia. rewrite (take_S_r _ _ _ Hi).
  rewrite insert_app_r_alt by (rewrite length_take; lia). rewrite length_take_le by (apply lookup_lt_Some in Hi; lia).
  rewrite Nat.sub_diag. cbn. by rewrite <- app_assoc.
Qed.

Lemma finished_status status item : status <> "in_progress" -> in_progress (finished status item) = false.
Proof.
  intros Hst. unfold finished. destruct (in_progress item) eqn:E; [|done]. by apply bool_decide_eq_false_2.
Qed.

Lemma finished_output status items :
  (fun item => item_json item (oi_status item)) <$> (finished status <$> items) = items_output status items.
Proof.
  unfold items_output. rewrite <- list_fmap_compose. apply list_fmap_ext. intros _ item _. unfold compose, finished, item_status.
  by destruct (in_progress item).
Qed.

Context (iter : Sessions -> list (string * StoredResponsesSession))
        (serialized : StoredResponsesSession -> option Z) (now : Z) (sessions : Sessions).

Lemma finalize_stream_ok o output status usage response entries :
  finalize iter serialized now o output status usage sessions = (Ok response, entries) ->
  response = envelope o output status usage Null.
Proof.
  unfold finalize. destruct (ro_session o) as [session|]; [|congruence].
  destruct (is_none _); [congruence|]. destruct (session_insert _ _ _ _ _ _ _) as [[] e]; congruence.
Qed.

Lemma finish_sound w :
  Sound w -> exists w', finish nonce sanitize iter serialized now sessions w = Some w'
    /\ Shown w' /\ rs_terminal w'.1 = true.
Proof.
  intros Hw. unfold finish. destruct (rs_terminal w.1) eqn:Ho; [exists w; split; [done|]; split; [by apply Sound_Shown|done]|].
  assert (Hr : Running w) by (destruct Hw as [?|[_ ?]]; [done|congruence]).
  destruct (_ || _); [eexists; split; [reflexivity|]; by apply fail_sound|].
  set (status := finish_status w.1). assert (Hst : status <> "in_progress") by (subst status; unfold finish_status; by case_bool_decide).
  destruct (flush_running w Hr) as (w1 & -> & Hw1). cbn [mbind option_bind].
  assert (H2 : exists w2, ensure_item nonce w1 = Some w2 /\ Running w2).
  { unfold ensure_item. destruct (is_nil _); [|by exists w1].
    destruct (add_message w1 Hw1) as (w2 & item & E & Hw2 & _). destruct (add nonce _ w1) as [index w3].
    destruct (rs_items w3.1 !! index); [|done]. cbn in *. exists w2. split; [congruence|done]. }
  destruct H2 as (w2 & -> & Hw2). cbn [mbind option_bind].
  destruct (finalize _ _ _ _ _ _ _ _) as [[response|message] store] eqn:Hf.
  2:{ eexists. split; [reflexivity|]. apply fail_sound. left. apply Running_change; solve [done|by left]. }
  assert (Hw3 : Running (change (set_store store) w2)) by (apply Running_change; solve [done|by left]).
  destruct (close_from_spec status (length (rs_items w2.1)) 0 _ (rn_shown _ Hw3) (rn_over _ Hw3) Hst eq_refl)
    as (w4 & E & Hs4 & Hr4 & Hi4).
  change (rs_items (change (set_store store) w2).1) with (rs_items w2.1) in *. rewrite take_0, drop_0 in Hi4. cbn [app] in Hi4.
  rewrite E. cbn [mbind option_bind]. eexists. split; [reflexivity|]. split; [|by destruct w4 as [[]]].
  assert (Ho4 : rs_terminal w4.1 = false).
  { pose proof (rn_over _ Hw3) as Ho3. destruct Hr4 as (_ & _ & _ & _ & _ & _ & -> & _). exact Ho3. }
  eapply (Shown_end (Finished status response) w4); [done|done| | |by destruct w4 as [[]]..].
  - unfold step, view_items. cbn [vw_end is_some vw_items]. rewrite Hi4.
    assert (forallb (fun item => negb (in_progress item)) (finished status <$> rs_items w2.1) = true) as ->; [|done].
    apply forallb_forall. intros item' (item & -> & _)%list_elem_of_In%list_elem_of_fmap. by rewrite finished_status.
  - apply finalize_stream_ok in Hf. rewrite Hf, Hi4. cbn [final_response]. rewrite finished_output.
    apply envelope_spec, (sh_template _ (rn_shown _ Hw2)).
Qed.

(** ** Frames *)

Context (parse_json : string -> option value).

Lemma frame_sound bytes w :
  Sound w -> exists w' kept, frame nonce sanitize iter serialized now sessions parse_json bytes w = Some (w', kept)
    /\ Sound w'.
Proof.
  intros Hw. unfold frame. destruct (negb _).
  { eexists _, _. split; [reflexivity|]. by apply fail_Sound. }
  destruct (is_empty _); [by eexists _, _|]. case_bool_decide.
  { destruct (finish_sound w Hw) as (w' & -> & Hs & Ho). eexists _, _. split; [reflexivity|]. by right. }
  destruct (parse_json _) as [v|].
  - destruct (chunk_sound v w Hw) as (w' & -> & Hs). by eexists _, _.
  - eexists _, _. split; [reflexivity|]. by apply fail_Sound.
Qed.

Lemma position_of_bound pattern l index e :
  position_of pattern l index = Some e -> (e + length pattern <= index + length l)%nat.
Proof.
  revert index; induction l as [|c l IH]; intros index; cbn [position_of];
    (destruct (strip_prefix_l pattern _) as [r|] eqn:E; cbn [is_some];
     [intros [= <-]; apply strip_prefix_l_spec in E; rewrite E, length_app; lia|]); [done|].
  intros H%IH. cbn. lia.
Qed.

Lemma frame_end_bound buffer e delimiter :
  frame_end buffer = Some (e, delimiter) -> (e + delimiter <= length buffer /\ 2 <= delimiter)%nat.
Proof.
  unfold frame_end.
  destruct (position_of LF2 buffer 0) as [lf|] eqn:El, (position_of CRLF2 buffer 0) as [cr|] eqn:Ec;
    try apply position_of_bound in El; try apply position_of_bound in Ec; cbn in *;
    repeat case_match; intros; simplify_eq; lia.
Qed.

Lemma frames_sound fuel buffer w :
  Sound w -> (length buffer <= fuel)%nat ->
  exists buffer' w', frames nonce sanitize iter serialized now sessions parse_json fuel buffer w = Some (buffer', w')
    /\ Sound w' /\ frame_end buffer' = None.
Proof.
  revert buffer w; induction fuel as [|fuel IH]; intros buffer w Hw Hl; cbn [frames];
    destruct (frame_end buffer) as [[e delimiter]|] eqn:E; try by eexists _, _.
  { apply frame_end_bound in E. lia. }
  destruct (frame_sound (take e buffer) w Hw) as (w1 & k & -> & Hw1). apply IH; [done|].
  apply frame_end_bound in E. rewrite length_drop. lia.
Qed.

Lemma pump_sound source buffer w :
  Sound w -> exists w', pump nonce sanitize iter serialized now sessions parse_json source buffer w = Some w' /\ Sound w'.
Proof.
  revert buffer w; induction source as [|[bytes|] source IH]; intros buffer w Hw; cbn [pump]; [by exists w| |].
  - destruct (frames_sound _ (buffer ++ bytes) w Hw (le_n _)) as (buffer' & w1 & -> & Hw1 & _).
    destruct (_ <? _)%Z; [|by apply IH]. eexists. split; [reflexivity|]. by apply fail_Sound.
  - eexists. split; [reflexivity|]. by apply fail_Sound.
Qed.

Lemma start_running o : is_object (ro_template o) = true -> Running (start (new_stream o, [])).
Proof.
  intros Ho. assert (H0 : Running (new_stream o, [])).
  { split; [|by split|done]. split; [by exists None|done..]. }
  by apply Running_quiet; [apply Running_quiet|].
Qed.

(** C34: Whatever the chat stream sends, and wherever it is cut or fails, the Responses
    stream is one a client can follow: no index is out of range, events are numbered
    without gaps, every item is added before it grows and done with the content that its
    deltas add up to, and the stream ends in exactly one last event, whose response has
    the items that the client has put together, with their statuses. *)
Theorem responses_stream_spec o source :
  is_object (ro_template o) = true ->
  exists w e, stream_response nonce sanitize iter serialized now sessions parse_json o source = Some w
    /\ fst <$> w.2 = Z.of_nat <$> seq 0 (length w.2)
    /\ follow (snd <$> w.2) (view_items []) = Some {| vw_items := rs_items w.1; vw_end := Some e |}
    /\ final_response (rs_items w.1) e.
Proof.
  intros Ho. unfold stream_response.
  destruct (pump_sound source [] _ (or_introl (start_running o Ho))) as (w1 & -> & Hw1). cbn [mbind option_bind].
  match goal with |- context [Some (if rs_terminal w1.1 then w1 else ?f)] => set (w := if rs_terminal w1.1 then w1 else f) end.
  assert (Hw : Shown w /\ rs_terminal w.1 = true).
  { subst w. destruct (rs_terminal w1.1) eqn:E; [split; [by apply Sound_Shown|done]|by apply fail_sound]. }
  destruct Hw as [[(last & Hf & Hl & He) Hn _ _] Hover]. rewrite Hover in Hl. destruct last as [e|]; [|done].
  exists w, e. split_and!; auto.
Qed.
End Operations.

Definition demo_stream_chunk : value :=
  json_object
    [("usage", json_object [("prompt_tokens", unsigned 3); ("completion_tokens", unsigned 2)]);
     ("choices", Array [json_object
       [("finish_reason", Str "tool_calls");
        ("delta", json_object
          [("reasoning_content", Str "Look first."); ("content", Str "Reading.");
           ("tool_calls", Array [json_object
             [("index", unsigned 0); ("id", Str "c1"); ("type", Str "function");
              ("function", json_object [("name", Str "read"); ("arguments", Str "{}")])]])])]])].

Definition demo_stream_options : ResponsesOptions :=
  {| ro_template := json_object [("id", Str "resp_1"); ("output", Array [])]; ro_tool_names := ∅;
     ro_emit_reasoning_summary := true; ro_session := None; ro_inherited_conversation_id := None |}.

(** A chunk cut in two, and its end. *)
Definition demo_stream_source : list (option bytes) :=
  [Some (s2l ("data: {}" +:+ newline)); Some (s2l (newline +:+ "data: [DONE]" +:+ newline +:+ newline))].

Lemma responses_stream_spec_witness :
  exists w e,
    stream_response (fun _ => "n") (fun m => m) (fun _ => []) (fun _ => None) 0 ∅ (fun _ => Some demo_stream_chunk)
      demo_stream_options demo_stream_source = Some w
    /\ final_response (rs_items w.1) e
    /\ (oi_content <$> rs_items w.1) = [Reasoning "Look first."; Message "Reading."; Tool false "c1" "read" None "{}"]
    /\ length w.2 = 18%nat.
Proof.
  destruct (responses_stream_spec (fun _ => "n") (fun m => m) (fun _ => []) (fun _ => None) 0 ∅
    (fun _ => Some demo_stream_chunk) demo_stream_options demo_stream_source eq_refl) as (w & e & E & _ & _ & He).
  exists w, e. split; [exact E|]. split; [exact He|].
  vm_compute in E. injection E as <-. split; reflexivity.
Defined.
